(* ===== verification/_CoqProject ===== *)
-Q . S2P
Prelude.v
Sha256.v
Float64.v
EsModel.v
Json.v
Aggregator.v
SchedAggregator.v
Probes.v
Tick.v
GpuSchedFormat.v
Delivery.v
Contract.v
DiagnosisEvent.v
D3Parse.v
D3Journal.v
D3Redact.v
FileSystem.v
StateOp.v
D3.v
D3Store.v
D3Cli.v
Spool.v
Bulk.v
SpoolWriter.v
SpoolConserve.v
GameScan.v
Session.v
CounterRace.v
SessionWatch.v
ConnectionLog.v
Tailer.v
TailerSpec.v
HandshakeJson.v
HandshakeJsonSpec.v
Handshake.v
HandshakeSpec.v
D6.v
D6Spec.v
LogSafe.v
Profiles.v
Summary.v
SummarySpec.v
StreamClient.v
StreamClientSpec.v
MangoHud.v
MangoHudSpec.v
Gamescope.v
GamescopeSpec.v
Config.v
ConfigSpec.v
Counters.v
CountersSpec.v
Sensors.v
Command.v
Audio.v
SensorsSpec.v
Host.v
HostSpec.v
Diagnose.v
Bpf.v
BpfSpec.v
Daemon.v
DaemonSpec.v
DaemonStart.v
DaemonStartSpec.v
AgentLoop.v
AgentLoopSpec.v
Collectors.v
PresentMon.v
PresentMonSpec.v
WinCollectors.v
WinLaunchers.v
WindowsSpec.v
AgentStart.v
AgentStartSpec.v
EsClient.v
EsClientSpec.v
Provenance.v
