(* ===== verification/Prelude.v ===== *)
(** * RigSignal: a verification development

    RigSignal is a telemetry agent for games.  An agent ([src/src/]) finds the
    running game, collects and ships measurements, and holds the detectors that
    diagnose a machine; an optional daemon ([src/ebpf/rigsignal-ebpf/src/])
    drains BPF ring buffers, aggregates windows of kernel events into documents
    and ships them.  Paths below are relative to these two roots.

    ** Files and what they model

    Shared:
    - [Prelude]: results, machine integers, strings as UTF-8 bytes with the
      [str] operations the code uses, list and sorting lemmas, hint databases.
    - [Float64]: [f64] as correctly rounded, computable binary64 values.
    - [Sha256] (agent [handshake.rs], [remote_connections.rs]): the two
      implementations of SHA-256, against FIPS 180-4, and HMAC.
    - [Json]: JSON values with the ordered objects of [serde_json].
    - [FileSystem], [StateOp]: paths, a file system with faults, an effect monad
      that records every file system visited, and operations that leave a world
      whatever their result.

    Daemon:
    - [EsModel] ([es_model.rs]): the documents, the probe budget, the latency
      histogram.
    - [Aggregator] ([aggregator.rs]): the eight windowed aggregators, an
      interface [WindowAggregator] (new, push, flush) with an instance for each.
    - [SchedAggregator] ([aggregator.rs]): the scheduler window with its
      per-thread statistics, and the CCX topology.  The iteration order of a hash
      map is the class [HashIter].
    - [Probes] ([probes/], [loader.rs]): one [collect] of each probe over raw
      ring-buffer items, and the loss counters, proved once against
      [WindowAggregator].
    - [Tick] ([main.rs], [aggregator.rs], [shipper.rs]): one aggregation tick up to
      the bulk body.
    - [GpuSchedFormat] ([probes/gpu_sched.rs], [gpu_sched/format.rs]): the
      tracepoint format parser and the choice of the tracepoint pair.
    - [SessionWatch] ([session.rs]): the watcher of the agent's session file and
      the threads of the game.
    - [Bpf], [BpfSpec] ([ebpf/rigsignal-ebpf-probes/src/]): the BPF programs on
      their maps, the records they write, and the kernel as a sequence of runs.
    - [Daemon], [DaemonSpec] ([main.rs], [loader.rs], [probes/mod.rs],
      [probes/sched.rs], [shipper.rs]): what a start needs, the kernel's set of
      threads, a flush, and the loop with the BPF programs running beside it.
    - [DaemonStart], [DaemonStartSpec] ([main.rs], [EsShipper::new]): the daemon's
      command line and its start, with each thing that can end it.

    Agent, sessions and delivery:
    - [GameScan] ([session.rs], [dllscan.rs]): the chain of game scanners.
    - [Session], [CounterRace] ([session.rs]): the session manager with its file
      and counter; two agents on one counter file as a step relation.
    - [Profiles] ([profiles.rs]): game profiles and their overlay.
    - [Summary], [SummarySpec] ([main.rs]): settings, accumulators, and the
      documents of a session; what merging keeps.
    - [AgentLoop], [AgentLoopSpec] ([main.rs], [run]): the main loop from the start
      of a session to the shutdown.
    - [StreamClient], [StreamClientSpec] ([collectors/linux/stream_client.rs]): the
      remote streaming client and its share of the GPU.
    - [MangoHud], [MangoHudSpec], [Gamescope], [GamescopeSpec]
      ([collectors/linux/mangohud.rs], [gamescope.rs]): frame rates from MangoHud's
      logs and from gamescope's pipes, with the reader thread as interleaved steps.
    - [Counters], [CountersSpec] ([collectors/linux/cpu.rs], [network.rs],
      [storage.rs]): the collectors that compare neighbouring readings, with the
      interface [Differencing] and an instance for each.
    - [Sensors], [Command], [Audio], [SensorsSpec] ([collectors/linux/memory.rs],
      [power.rs], [gpu_amd.rs], [audio.rs]): single readings, the card's late
      discovery, the supervised commands and the parsers of what they print.
    - [WinCollectors], [PresentMon], [PresentMonSpec], [WinLaunchers], [WindowsSpec]
      ([collectors/windows/], [launchers_windows.rs]): the Windows build - counters,
      thermal zones, frames of a PresentMon process with its reading thread, and
      the launcher scans.
    - [Collectors] ([main.rs], [build_collectors], [dry_run]): the nine Linux
      collectors as one state, a tick of all of them, and the dry run.
    - [Host], [HostSpec] ([host.rs]): the host snapshot with its monitors.
    - [Diagnose] ([diagnose.rs]): the bug report.
    - [AgentStart], [AgentStartSpec] ([main.rs], [Cli], [run]): the command line, what
      each command does, and the set-up of the main loop.
    - [EsClient], [EsClientSpec] ([shipper.rs]): the client, the ping, the bulk
      exchange and the transform request, and their messages.
    - [Provenance] ([build.rs] of both): the commit a build is stamped with.
    - [Config], [ConfigSpec] ([config.rs] of agent and daemon): the configuration,
      which file counts, overrides, and what is shown of it.
    - [Delivery] ([main.rs], [EsDeliveryHealth]): the delivery tracker as a step
      relation of concurrent shipping tasks.
    - [Spool], [SpoolWriter], [SpoolConserve], [Bulk] ([shipper.rs]): recovery, the
      writer, its conservation of documents, bulk requests and the spool lock.
    - [ConnectionLog], [Tailer], [TailerSpec] ([remote_connections.rs]): lines of
      the remote-connections log, the tailer and its checkpoint.
    - [LogSafe] ([log_safe.rs], [main.rs]): escaping for the log.

    Agent, detectors and handshake:
    - [Contract], [DiagnosisEvent] ([detectors/contract.rs],
      [detectors/contract/diagnosis_event.rs]): diagnoses, outcomes, emission, and
      outcomes as validated events with canonical JSON.
    - [D3Parse], [D3Journal], [D3Redact], [D3], [D3Store], [D3Cli]
      ([detectors/d3.rs]): the GPU boot detector - parsers, journal evidence,
      redaction, evaluation, the state store and the command.
    - [D6], [D6Spec] ([detectors/d6.rs]): the display-mode detector with its child
      process and its live collection.
    - [HandshakeJson], [HandshakeJsonSpec], [Handshake], [HandshakeSpec]
      ([handshake.rs]): the bounded JSON scanner and the duplicate walk, the
      read-only feature handshake over a transport interface.

    ** How the parts interact

    In the kernel [Bpf.run_program] times entries and returns and writes records
    into ring buffers.  The daemon empties them ([Bpf.take_ring]) through
    [Probes.collect], which pushes the decoded items into an aggregator and flushes
    it; [Daemon.daemon_tick] collects every loaded probe as [Tick.tick_docs] says, adds
    the correlation, stamps and queues the documents; [Tick.build_bulk_body] renders
    the queue.  Which session they carry comes from
    [SessionWatch], which reads the file [Session.poll] writes.

    [AgentStart.dispatch] chooses what a command line runs: a detector, the
    handshake, [Diagnose.run], [Collectors.dry_run] or the main loop, which
    [AgentStart.setup] prepares (configuration of [AgentLoop.run], session, delivery
    tracker) from the answer of [EsClient.startup_ping].  [DaemonStart.daemon_begin]
    starts the daemon of [Daemon.daemon_main].  [Collectors.collect_all] gives the payloads of a tick.

    In the agent [AgentLoop.agent_tick] polls [Session] (which scans through
    [GameScan]), applies [Profiles] and mapped libraries to the settings, merges
    the collectors' payloads ([StreamClient], [Gamescope], which falls back on
    [MangoHud]) into documents, counts them in [Summary] accumulators
    and hands them on; shipping tasks report to [Delivery.observe], spooled
    documents go through [SpoolWriter], and [Tailer.poll] reads the session of the
    tick.  A detector builds [Contract.Diagnosis] values; [Contract.emit] prints an
    outcome and [DiagnosisEvent.try_from_outcome] turns it into an event.
    [D3Cli.cli_outcome] and [D6.run_cli] read fixtures or live evidence;
    [D3Store.run] loads the state, evaluates it and saves it.

    ** What the theorems show

    - Main loop ([AgentLoopSpec]): every run ends; each summary accounts for exactly
      the tick documents since the one before; settings have the stated precedence
      and nothing of an earlier game; a remote client's documents carry nothing of
      an idle session.
    - Sessions ([Session], [CounterRace], [SessionWatch], [GameScan]): the event
      protocol, the session file follows the game and reaches the daemon; numbers
      of the counter; the Steam scan and the threads of a game are exact.
    - Collectors ([StreamClientSpec], [GamescopeSpec], [MangoHudSpec]): a busy share is
      shown exactly when two samples compare; every accepted frame sample is in
      exactly one document under every interleaving of thread and ticks; a log is
      read once; waits are bounded; the pipes are those of the documented rule.
      The run of all collectors is the runs of each ([Collectors]); counters compare
      neighbours and a late card is reported ([CountersSpec], [SensorsSpec]); on
      Windows every frame counts once and a found target is well formed
      ([PresentMonSpec], [WindowsSpec]); monitors are made of their own lines
      ([HostSpec]).
    - Start and report ([AgentStartSpec], [Diagnose]): which commands need a
      configuration; a failed preflight is the first attempt of the outage and never
      fatal and shows no secret ([EsClientSpec]), nor does the report; a stamp is a
      commit both sources agree on or none ([Provenance]).
    - Configuration ([ConfigSpec]): it reads back as written, the first candidate
      file decides, and printing it shows no secret.
    - Spool ([Spool], [SpoolConserve]): recovery is safe at every point of a crash;
      every accepted document is in the spool or published, under any faults but
      the ones recorded as findings; retries and publication end.
    - Tailer ([TailerSpec], [ConnectionLog]): each accepted line is sent exactly
      once per checkpoint history and catches up; peers appear by pseudonym only.
    - Handshake ([HandshakeSpec], [HandshakeJsonSpec], [Sha256]): success is
      equivalent to its six conditions; reports are closed; at most three requests
      are made; no document is read in two ways; both hashes are SHA-256.
    - Detector contract ([Contract], [DiagnosisEvent]): building succeeds exactly on
      well-formed fields; exactly the outcomes within the contract become events.
    - D3 ([D3], [D3Store], [D3Cli], [D3Journal], [D3Redact]): [evaluate] is total and
      refines the relation [D3.judged]; a run moves the stored state by one step of
      a specification with an atomic replacement under any faults; the command
      keeps the state file valid and fixtures isolated.
    - D6 ([D6Spec]): a finding is reported exactly when a pinned mode of the display
      in use is bad; supervision of the child always ends.
    - Kernel and daemon ([BpfSpec], [DaemonSpec]): every return of an unfinished
      entry is reported once with its time; the layouts agree; only threads of the
      game are recorded; every record is in the documents of exactly one tick; what
      is loaded and what an answer says are exact; a daemon that reaches its loop is
      as these theorems ask ([DaemonStartSpec]).
    - Windows, collection and ticks ([Aggregator], [SchedAggregator], [EsModel],
      [Probes], [Tick], [GpuSchedFormat]): each window's document is exactly the
      statistics of its events; a tick's documents are of distinct probes with one
      time stamp; the bulk body reads back.
    - Delivery ([Delivery]): under every interleaving the printed lines are those of
      an observer of the whole history; silence is bounded.

    ** Conventions and bounds

    Machine integers are [Z]; each operation writes its wrap-around or saturation
    out (release profile).  Strings are byte strings in UTF-8.  Recursion is
    structural but for four loops: the scanner of [HandshakeJson] and the
    certificate loop of [Handshake] take the length of their input and one more as
    fuel, since every round consumes a byte; the supervision in [D6] takes the
    rounds that fit into its time limit ([D6Spec.gamescopectl_ends]), and so does that of
    the audio commands ([Command.command_ends]).  Bounds of the
    code are constants of the model.  [demo_*] definitions are concrete inputs on
    which the properties with hypotheses are applied.

    What is not under [src/] is an argument: Unicode tables ([EsModel.Unicode]),
    [chrono] ([D3Journal.Chrono]), [toml], [serde_json]'s rendering and reading of
    text (with the law that reading gives back what was written where a theorem
    needs it), HTTP clients, the answers of [journalctl], [gamescopectl], sysfs,
    procfs and tracefs, clocks, and the faults of system calls.

    ** Not modelled

    HTTP exchanges, the async runtime, signal handlers, the attaching of BPF
    programs and the build helper [ebpf/xtask] are input and output around the parts
    above; tests are the source's own.  The Windows build of the host snapshot is a sequence of
    WMI queries.  A BPF program is one step: two processors that run programs on the
    same key at the same instant are not told apart from one after the other.  In
    [FileSystem] two paths are two entries (no aliasing through links), permissions
    change no entry, and a lock is the sequence of answers to the attempts.  Joining
    Windows paths ([WinLaunchers.win_join]) is that of relative bases and of bases
    with a drive. *)
From stdpp Require Export base tactics gmap strings list fin_maps numbers pretty sorting.
From Stdlib Require Export ZArith Lia.
From Stdlib Require Import Ascii.

#[export] Set Default Goal Selector "!".
#[global] Open Scope Z_scope.

(** ** Results *)

(** Rust's [Result<A, E>]. *)
Inductive result (A E : Type) : Type :=
| Ok (a : A)
| Err (e : E).
Arguments Ok {A E} a.
Arguments Err {A E} e.

Declare Scope rust_scope.
Delimit Scope rust_scope with rust.
#[global] Open Scope rust_scope.

(** [let? x := e in k] is [let x = e?; k] in a function returning [Result]. *)
Notation "'let?' x := e 'in' k" :=
  (match e with Ok x => k | Err err => Err err end)
  (at level 10, x pattern, e at level 200, k at level 200) : rust_scope.

(** [let-some x := e in k] is [let x = e?; k] in a function returning [Option]. *)
Notation "'let!' x := e 'in' k" :=
  (match e with Some x => k | None => None end)
  (at level 10, x pattern, e at level 200, k at level 200) : rust_scope.

Definition is_ok {A E} (r : result A E) : bool :=
  match r with Ok _ => true | Err _ => false end.

(** [Option::ok_or]. *)
Definition ok_or {A E} (o : option A) (e : E) : result A E :=
  match o with Some a => Ok a | None => Err e end.

(** [Result::map] and [Result::map_err]. *)
Definition map_ok {A B E} (f : A → B) (r : result A E) : result B E :=
  match r with Ok a => Ok (f a) | Err e => Err e end.
Definition map_err {A E F} (f : E → F) (r : result A E) : result A F :=
  match r with Ok a => Ok a | Err e => Err (f e) end.

(** [Option::is_some_and] and [Option::is_none_or]. *)
Definition is_some_and {A} (o : option A) (p : A → bool) : bool :=
  match o with Some a => p a | None => false end.
Definition is_none_or {A} (o : option A) (p : A → bool) : bool :=
  match o with Some a => p a | None => true end.
Definition unwrap_or {A} (o : option A) (d : A) : A :=
  match o with Some a => a | None => d end.

(** ** Machine integers *)

Definition u8_max : Z := 2 ^ 8 - 1.
Definition u32_max : Z := 2 ^ 32 - 1.
Definition u64_max : Z := 2 ^ 64 - 1.

(** Release-profile arithmetic wraps at the width of the type. *)
Definition wrap (w z : Z) : Z := z mod 2 ^ w.
Definition add_u32 (a b : Z) : Z := wrap 32 (a + b).
Definition add_u64 (a b : Z) : Z := wrap 64 (a + b).
(** [u64::saturating_add]. *)
Definition sat_add_u64 (a b : Z) : Z := Z.min (a + b) u64_max.
(** [u32::saturating_add]. *)
Definition sat_add_u32 (a b : Z) : Z := Z.min (a + b) u32_max.
(** [u64::saturating_sub]. *)
Definition saturating_sub (a b : Z) : Z := Z.max 0 (a - b).
(** [as u8]. *)
Definition as_u8 (z : Z) : Z := wrap 8 z.

Definition is_u64 (z : Z) : Prop := 0 ≤ z ≤ u64_max.
Definition is_u32 (z : Z) : Prop := 0 ≤ z ≤ u32_max.

Lemma wrap_small w z : 0 ≤ z < 2 ^ w → wrap w z = z.
Proof. intros. unfold wrap. by apply Z.mod_small. Qed.

Lemma add_u64_small a b : 0 ≤ a + b ≤ u64_max → add_u64 a b = a + b.
Proof. intros H. unfold add_u64, u64_max in *. apply wrap_small. lia. Qed.

Lemma add_u32_small a b : 0 ≤ a + b ≤ u32_max → add_u32 a b = a + b.
Proof. intros H. unfold add_u32, u32_max in *. apply wrap_small. lia. Qed.

(** Additions that cannot wrap are plain additions ([autorewrite with machine_int]). *)
Create Rewrite HintDb machine_int.
#[export] Hint Rewrite add_u64_small add_u32_small using lia : machine_int.

Lemma sat_add_u64_range a b : 0 ≤ a → 0 ≤ b → is_u64 (sat_add_u64 a b).
Proof. unfold is_u64, sat_add_u64, u64_max. lia. Qed.

(** ** Strings as UTF-8 byte sequences *)

Definition byte_val (c : ascii) : Z := Z.of_N (N_of_ascii c).
Lemma byte_val_range c : 0 ≤ byte_val c < 256.
Proof. unfold byte_val. pose proof (N_ascii_bounded c). lia. Qed.
Definition chr (n : nat) : ascii := ascii_of_nat n.
Definition str1 (c : ascii) : string := String c EmptyString.
Definition nl : ascii := "010"%char.
(** A double quote. *)
Definition dq : string := str1 "034"%char.

(** [str::len]: the number of bytes. *)
Definition slen (s : string) : Z := Z.of_nat (String.length s).
Definition is_empty (s : string) : bool :=
  match s with EmptyString => true | _ => false end.

Lemma str_app_assoc (a b c : string) : a +:+ (b +:+ c) = (a +:+ b) +:+ c.
Proof.
  induction a as [|x a IH]; [done|].
  change (String x (a +:+ (b +:+ c)) = String x ((a +:+ b) +:+ c)). by rewrite IH.
Qed.
Lemma str_app_nil_r (a : string) : a +:+ EmptyString = a.
Proof. induction a as [|x a IH]; [done|]. change (String x (a +:+ EmptyString) = String x a). by rewrite IH. Qed.
Lemma length_str_app (a b : string) :
  String.length (a +:+ b) = (String.length a + String.length b)%nat.
Proof. induction a as [|x a IH]; [done|]. simpl. by rewrite <-IH. Qed.

Definition is_continuation (c : ascii) : bool :=
  (128 <=? byte_val c) && (byte_val c <? 192).

(** [str::chars], each character as its UTF-8 bytes: a continuation byte
    belongs to the character that precedes it. *)
Fixpoint chars (s : string) : list string :=
  match s with
  | EmptyString => []
  | String c s' =>
      match chars s' with
      | (String d r) :: rest =>
          if is_continuation d then String c (String d r) :: rest
          else str1 c :: String d r :: rest
      | l => str1 c :: l
      end
  end.

Fixpoint concat_str (l : list string) : string :=
  match l with [] => EmptyString | x :: l' => x +:+ concat_str l' end.

(** [Vec<String>::join]. *)
Fixpoint join (sep : string) (l : list string) : string :=
  match l with
  | [] => EmptyString
  | [x] => x
  | x :: l' => x +:+ sep +:+ join sep l'
  end.

(** [chars().count()]. *)
Definition char_count (s : string) : Z := Z.of_nat (length (chars s)).

Definition ascii_in (lo hi : Z) (c : ascii) : bool :=
  (lo <=? byte_val c) && (byte_val c <=? hi).
Definition is_ascii_digit (c : ascii) : bool := ascii_in 48 57 c.
Definition is_ascii_upper (c : ascii) : bool := ascii_in 65 90 c.
Definition is_ascii_lower (c : ascii) : bool := ascii_in 97 122 c.
Definition is_ascii_alphanumeric (c : ascii) : bool :=
  is_ascii_digit c || is_ascii_upper c || is_ascii_lower c.
Definition is_ascii_hexdigit (c : ascii) : bool :=
  is_ascii_digit c || ascii_in 65 70 c || ascii_in 97 102 c.
Definition to_lower (c : ascii) : ascii :=
  if is_ascii_upper c then ascii_of_N (N_of_ascii c + 32) else c.

Definition to_upper (c : ascii) : ascii :=
  if is_ascii_lower c then ascii_of_N (N_of_ascii c - 32) else c.

Fixpoint map_str (f : ascii → ascii) (s : string) : string :=
  match s with EmptyString => EmptyString | String c s' => String (f c) (map_str f s') end.
Fixpoint all_bytes (p : ascii → bool) (s : string) : bool :=
  match s with EmptyString => true | String c s' => p c && all_bytes p s' end.
Fixpoint any_byte (p : ascii → bool) (s : string) : bool :=
  match s with EmptyString => false | String c s' => p c || any_byte p s' end.
Fixpoint filter_bytes (p : ascii → bool) (s : string) : string :=
  match s with
  | EmptyString => EmptyString
  | String c s' => if p c then String c (filter_bytes p s') else filter_bytes p s'
  end.

Definition to_ascii_lowercase : string → string := map_str to_lower.
Definition eq_ignore_ascii_case (a b : string) : bool :=
  String.eqb (to_ascii_lowercase a) (to_ascii_lowercase b).

(** A one-byte character satisfying a byte predicate ([char::is_ascii_*]). *)
Definition char_is (p : ascii → bool) (ch : string) : bool :=
  match ch with String c EmptyString => p c | _ => false end.

(** [char::is_control]: U+0000..U+001F and U+007F..U+009F. *)
Definition is_control (ch : string) : bool :=
  match ch with
  | String c EmptyString => (byte_val c <? 32) || (byte_val c =? 127)
  | String c (String d EmptyString) => (byte_val c =? 194) && ascii_in 128 159 d
  | _ => false
  end.

(** [char::is_whitespace]: the Unicode White_Space property. *)
Definition is_whitespace (ch : string) : bool :=
  match ch with
  | String c EmptyString => ascii_in 9 13 c || (byte_val c =? 32)
  | String c (String d EmptyString) =>
      (byte_val c =? 194) && ((byte_val d =? 133) || (byte_val d =? 160))
  | String c (String d (String e EmptyString)) =>
      ((byte_val c =? 225) && (byte_val d =? 154) && (byte_val e =? 128))
      || ((byte_val c =? 226) && (byte_val d =? 128)
            && (ascii_in 128 138 e || ascii_in 168 169 e || (byte_val e =? 175)))
      || ((byte_val c =? 226) && (byte_val d =? 129) && (byte_val e =? 159))
      || ((byte_val c =? 227) && (byte_val d =? 128) && (byte_val e =? 128))
  | _ => false
  end.

(** [String::from_utf8_lossy]: each maximal prefix of an ill-formed sequence
    becomes U+FFFD.  [utf8_second a b]: may [b] follow the lead byte [a]? *)
Definition REPLACEMENT : string := String "239" (String "191" (String "189" EmptyString)).
Definition utf8_width (a : ascii) : Z :=
  if byte_val a <? 128 then 1 else if ascii_in 194 223 a then 2
  else if ascii_in 224 239 a then 3 else if ascii_in 240 244 a then 4 else 0.
Definition utf8_second (a b : ascii) : bool :=
  let v := byte_val a in
  if ascii_in 194 223 a then is_continuation b
  else if v =? 224 then ascii_in 160 191 b
  else if v =? 237 then ascii_in 128 159 b
  else if ascii_in 225 239 a then is_continuation b
  else if v =? 240 then ascii_in 144 191 b
  else if ascii_in 241 243 a then is_continuation b
  else if v =? 244 then ascii_in 128 143 b
  else false.
Fixpoint from_utf8_lossy (s : string) : string :=
  match s with
  | EmptyString => EmptyString
  | String a s1 =>
    if byte_val a <? 128 then String a (from_utf8_lossy s1)
    else match s1 with
    | EmptyString => REPLACEMENT
    | String b s2 =>
      if negb (utf8_second a b) then REPLACEMENT +:+ from_utf8_lossy s1
      else if utf8_width a =? 2 then String a (String b (from_utf8_lossy s2))
      else match s2 with
      | EmptyString => REPLACEMENT
      | String c s3 =>
        if negb (is_continuation c) then REPLACEMENT +:+ from_utf8_lossy s2
        else if utf8_width a =? 3 then String a (String b (String c (from_utf8_lossy s3)))
        else match s3 with
        | EmptyString => REPLACEMENT
        | String d s4 =>
          if is_continuation d then String a (String b (String c (String d (from_utf8_lossy s4))))
          else REPLACEMENT +:+ from_utf8_lossy s3
        end
      end
    end
  end.

Fixpoint drop_while {A} (p : A → bool) (l : list A) : list A :=
  match l with
  | [] => []
  | x :: l' => if p x then drop_while p l' else l
  end.
Fixpoint take_while {A} (p : A → bool) (l : list A) : list A :=
  match l with
  | [] => []
  | x :: l' => if p x then x :: take_while p l' else []
  end.
Definition drop_while_end {A} (p : A → bool) (l : list A) : list A :=
  rev (drop_while p (rev l)).

(** [str::trim_start_matches], [trim_end_matches], [trim_matches] on a
    character predicate, and [str::trim]. *)
Definition trim_start_matches (p : string → bool) (s : string) : string :=
  concat_str (drop_while p (chars s)).
Definition trim_end_matches (p : string → bool) (s : string) : string :=
  concat_str (drop_while_end p (chars s)).
Definition trim_matches (p : string → bool) (s : string) : string :=
  concat_str (drop_while_end p (drop_while p (chars s))).
Definition trim_start : string → string := trim_start_matches is_whitespace.
Definition trim_end : string → string := trim_end_matches is_whitespace.
Definition trim : string → string := trim_matches is_whitespace.

(** [str::strip_prefix], [starts_with]. *)
Fixpoint strip_prefix (p s : string) : option string :=
  match p, s with
  | EmptyString, _ => Some s
  | String a p', String b s' => if Ascii.eqb a b then strip_prefix p' s' else None
  | _, _ => None
  end.
Lemma strip_prefix_app p s : strip_prefix p (p +:+ s) = Some s.
Proof.
  induction p as [|c p IH]; [done|].
  change (String c p +:+ s) with (String c (p +:+ s)). cbn [strip_prefix].
  by rewrite Ascii.eqb_refl.
Qed.
#[global] Arguments strip_prefix _ _ : simpl never.
Definition starts_with (p s : string) : bool :=
  match strip_prefix p s with Some _ => true | None => false end.

Lemma starts_with_app p s : starts_with p (p +:+ s) = true.
Proof. unfold starts_with. by rewrite strip_prefix_app. Qed.

(** [str::strip_suffix], [ends_with]. *)
Fixpoint strip_suffix (suffix s : string) : option string :=
  if String.eqb s suffix then Some EmptyString
  else match s with
       | EmptyString => None
       | String c s' => let! r := strip_suffix suffix s' in Some (String c r)
       end.
Definition ends_with (suffix s : string) : bool :=
  match strip_suffix suffix s with Some _ => true | None => false end.

(** [str::contains] and [str::find] with a string pattern. *)
Fixpoint contains (n s : string) : bool :=
  starts_with n s || match s with EmptyString => false | String _ s' => contains n s' end.

(** [str::split_once]: at the first occurrence of [sep]. *)
Fixpoint split_once (sep s : string) : option (string * string) :=
  match strip_prefix sep s with
  | Some r => Some (EmptyString, r)
  | None =>
      match s with
      | EmptyString => None
      | String c s' =>
          match split_once sep s' with
          | Some (a, b) => Some (String c a, b)
          | None => None
          end
      end
  end.

(** [str::replace]: every occurrence, from the left; what has just been matched
    is skipped. *)
Fixpoint replace_from (skip : nat) (pat by_ s : string) : string :=
  match s with
  | EmptyString => EmptyString
  | String c s' =>
      match skip with
      | S skip' => replace_from skip' pat by_ s'
      | O => if starts_with pat s then by_ +:+ replace_from (String.length pat - 1) pat by_ s'
             else String c (replace_from 0 pat by_ s')
      end
  end.
Definition replace_all (pat by_ s : string) : string := replace_from 0 pat by_ s.

(** [str::rsplit_once] at a character. *)
Fixpoint rsplit_once (sep : ascii) (s : string) : option (string * string) :=
  match s with
  | EmptyString => None
  | String c s' =>
      match rsplit_once sep s' with
      | Some (a, b) => Some (String c a, b)
      | None => if Ascii.eqb c sep then Some (EmptyString, s') else None
      end
  end.

(** [str::split] at a character. *)
Fixpoint split_char (sep : ascii) (s : string) : list string :=
  match s with
  | EmptyString => [EmptyString]
  | String c s' =>
      if Ascii.eqb c sep then EmptyString :: split_char sep s'
      else match split_char sep s' with
           | x :: xs => String c x :: xs
           | [] => [str1 c]
           end
  end.

Fixpoint strip_suffix_cr (s : string) : string :=
  match s with
  | EmptyString => EmptyString
  | String c EmptyString => if byte_val c =? 13 then EmptyString else s
  | String c s' => String c (strip_suffix_cr s')
  end.

Fixpoint finish_lines (parts : list string) : list string :=
  match parts with
  | [] => []
  | [last] => if is_empty last then [] else [last]
  | x :: rest => strip_suffix_cr x :: finish_lines rest
  end.

(** [str::lines]: split at LF; the CR of a CRLF goes too; no empty last line. *)
Definition lines (s : string) : list string := finish_lines (split_char nl s).

(** [str::split_inclusive('\n')]. *)
Fixpoint split_inclusive (s : string) : list string :=
  match s with
  | EmptyString => []
  | String c s' =>
      if Ascii.eqb c nl then str1 c :: split_inclusive s'
      else match split_inclusive s' with
           | x :: xs => String c x :: xs
           | [] => [str1 c]
           end
  end.

(** The words between separators. *)
Section words.
Context (sep : string → bool).
Fixpoint words_by (cur : list string) (cs : list string) : list string :=
  match cs with
  | [] => match cur with [] => [] | _ => [concat_str cur] end
  | c :: cs' =>
      if sep c
      then match cur with [] => words_by [] cs' | _ => concat_str cur :: words_by [] cs' end
      else words_by (cur ++ [c]) cs'
  end.
End words.
(** [str::split_whitespace], [split_ascii_whitespace]. *)
Definition split_whitespace (s : string) : list string := words_by is_whitespace [] (chars s).
Definition is_ascii_whitespace (c : ascii) : bool :=
  ascii_in 9 10 c || ascii_in 12 13 c || (byte_val c =? 32).
Definition split_ascii_whitespace (s : string) : list string := words_by (char_is is_ascii_whitespace) [] (chars s).

(** Decimal rendering of a non-negative integer. *)
Definition show (z : Z) : string := pretty (Z.to_N z).

(** [str::parse::<u32>]: an optional [+], at least one digit, no overflow. *)
Fixpoint digits_val (acc : Z) (s : string) : option Z :=
  match s with
  | EmptyString => Some acc
  | String c s' =>
      if is_ascii_digit c then
        let acc' := acc * 10 + (byte_val c - 48) in
        if acc' <=? u32_max then digits_val acc' s' else None
      else None
  end.
Definition parse_u32 (s : string) : option Z :=
  let body := match strip_prefix "+" s with Some r => r | None => s end in
  if is_empty body then None else digits_val 0 body.

(** The same at 64 bits. *)
Fixpoint digits_u64 (acc : Z) (s : string) : option Z :=
  match s with
  | EmptyString => Some acc
  | String c s' =>
      if is_ascii_digit c then
        let acc' := acc * 10 + (byte_val c - 48) in
        if acc' <=? u64_max then digits_u64 acc' s' else None
      else None
  end.
Definition parse_u64 (s : string) : option Z :=
  let body := match strip_prefix "+" s with Some r => r | None => s end in
  if is_empty body then None else digits_u64 0 body.

(** The same for [i64], with an optional sign. *)
Fixpoint digits_up_to (limit acc : Z) (s : string) : option Z :=
  match s with
  | EmptyString => Some acc
  | String c s' =>
      if is_ascii_digit c then
        let acc' := acc * 10 + (byte_val c - 48) in
        if acc' <=? limit then digits_up_to limit acc' s' else None
      else None
  end.
Definition parse_i64 (s : string) : option Z :=
  match strip_prefix "-" s with
  | Some body => if is_empty body then None else Z.opp <$> digits_up_to (2 ^ 63) 0 body
  | None =>
      let body := match strip_prefix "+" s with Some r => r | None => s end in
      if is_empty body then None else digits_up_to (2 ^ 63 - 1) 0 body
  end.

(** ** Lists *)

(** [Iterator::position]. *)
Fixpoint position {A} (p : A → bool) (l : list A) : option nat :=
  match l with
  | [] => None
  | x :: l' => if p x then Some 0%nat else S <$> position p l'
  end.

(** [Iterator::filter_map]. *)
Fixpoint filter_map {A B} (f : A → option B) (l : list A) : list B :=
  match l with
  | [] => []
  | x :: l' => match f x with Some y => y :: filter_map f l' | None => filter_map f l' end
  end.

Definition count {A} (p : A → bool) (l : list A) : nat := length (List.filter p l).

Definition sumZ (l : list Z) : Z := foldr Z.add 0 l.

(** [a <= b] on strings: the order of their bytes. *)
Definition str_leb (a b : string) : bool := match String.compare a b with Gt => false | _ => true end.

(** [slice::sort_by]: a stable sort; [le a b] is "[a] may stay before [b]". *)
Section stable_sort.
Context {A : Type} (le : A → A → bool).

Fixpoint sorted_insert (x : A) (l : list A) : list A :=
  match l with
  | [] => [x]
  | y :: l' => if le x y then x :: l else y :: sorted_insert x l'
  end.
Definition stable_sort (l : list A) : list A := foldr sorted_insert [] l.

Lemma sorted_insert_perm x l : sorted_insert x l ≡ₚ x :: l.
Proof.
  induction l as [|y l IH]; simpl; [done|].
  destruct (le x y); [done|]. rewrite IH. apply Permutation_swap.
Qed.

Lemma stable_sort_perm l : stable_sort l ≡ₚ l.
Proof.
  induction l as [|x l IH]; simpl; [done|]. by rewrite sorted_insert_perm, IH.
Qed.

Definition le_rel (a b : A) : Prop := le a b = true.

Lemma sorted_insert_sorted x l :
  (∀ a b, le a b = false → le b a = true) →
  Sorted le_rel l → Sorted le_rel (sorted_insert x l).
Proof.
  intros Htot. induction 1 as [|y l Hs IH Hhd]; simpl; [by repeat constructor|].
  destruct (le x y) eqn:E.
  - constructor; [by constructor|]. by constructor.
  - constructor; [done|].
    destruct l as [|z l]; simpl in *.
    + constructor. by apply Htot.
    + inversion_clear Hhd. destruct (le x z); constructor; [by apply Htot|done].
Qed.

Lemma stable_sort_sorted l :
  (∀ a b, le a b = false → le b a = true) → Sorted le_rel (stable_sort l).
Proof.
  intros Htot. induction l; simpl; [constructor|]. by apply sorted_insert_sorted.
Qed.
End stable_sort.

Section list_lemmas.
Context {A B : Type}.
Implicit Types (l : list A).

Lemma position_Some (p : A → bool) l i :
  position p l = Some i ↔
  ∃ x, l !! i = Some x ∧ p x = true ∧ ∀ j y, (j < i)%nat → l !! j = Some y → p y = false.
Proof.
  revert i. induction l as [|x l IH]; intros i; simpl; [naive_solver|].
  destruct (p x) eqn:Hx.
  - split.
    + intros [= <-]. exists x. split_and!; [done|done|intros; lia].
    + intros (y & Hi & Hy & Hmin). destruct i as [|i]; [done|].
      specialize (Hmin 0%nat x). rewrite Hmin in Hx; [done|lia|done].
  - rewrite fmap_Some. split.
    + intros (k & Hk & ->). apply IH in Hk as (y & Hi & Hy & Hmin).
      exists y. split_and!; [done|done|]. intros [|j] z Hj Hz; simpl in *.
      * congruence.
      * eapply Hmin; [|done]. lia.
    + intros (y & Hi & Hy & Hmin). destruct i as [|i]; simpl in *; [congruence|].
      exists i. split; [|done]. apply IH. exists y. split_and!; [done|done|].
      intros j z Hj Hz. apply (Hmin (S j)); [lia|done].
Qed.

Lemma position_None (p : A → bool) l :
  position p l = None ↔ Forall (λ x, p x = false) l.
Proof.
  induction l as [|x l IH]; simpl; [by split|].
  rewrite Forall_cons, <-IH. destruct (p x); simpl; [naive_solver|].
  rewrite fmap_None. naive_solver.
Qed.

Lemma position_lt (p : A → bool) l i : position p l = Some i → (i < length l)%nat.
Proof.
  intros (x & Hi & _)%position_Some. by eapply lookup_lt_Some.
Qed.

Lemma filter_map_app (f : A → option B) l k :
  filter_map f (l ++ k) = filter_map f l ++ filter_map f k.
Proof. induction l as [|x l IH]; simpl; [done|]. destruct (f x); by rewrite IH. Qed.

Lemma elem_of_filter_map (f : A → option B) l y :
  y ∈ filter_map f l ↔ ∃ x, x ∈ l ∧ f x = Some y.
Proof.
  induction l as [|x l IH]; simpl; [set_solver|].
  destruct (f x) eqn:E; rewrite ?elem_of_cons, ?IH; [set_solver|].
  split; [set_solver|]. intros (z & [->|]%elem_of_cons & ?); [congruence|set_solver].
Qed.

Lemma length_filter_map_le (f : A → option B) l :
  (length (filter_map f l) ≤ length l)%nat.
Proof. induction l as [|x l IH]; simpl; [lia|]. destruct (f x); simpl; lia. Qed.

Lemma count_le (p : A → bool) l : (count p l ≤ length l)%nat.
Proof. unfold count. apply List.filter_length_le. Qed.

Lemma count_app (p : A → bool) l k : count p (l ++ k) = (count p l + count p k)%nat.
Proof. unfold count. by rewrite List.filter_app, length_app. Qed.

Lemma count_cons (p : A → bool) x l :
  count p (x :: l) = ((if p x then 1 else 0) + count p l)%nat.
Proof. unfold count. simpl. by destruct (p x). Qed.

Lemma count_perm (p : A → bool) l k : l ≡ₚ k → count p l = count p k.
Proof.
  induction 1; rewrite ?count_cons in *; try lia.
Qed.

Lemma Forall_drop_while (P : A → Prop) p l : Forall P l → Forall P (drop_while p l).
Proof. induction 1; simpl; [done|]. case_match; [done|by constructor]. Qed.

Lemma Forall_drop_while_end (P : A → Prop) p l :
  Forall P l → Forall P (drop_while_end p l).
Proof. intros. by apply Forall_rev, Forall_drop_while, Forall_rev. Qed.
End list_lemmas.

(** Facts about sublists cut by a predicate ([eauto with lists]). *)
Create HintDb lists.
#[export] Hint Resolve Forall_drop_while Forall_drop_while_end Forall_take Forall_drop : lists.

Lemma sumZ_app l k : sumZ (l ++ k) = sumZ l + sumZ k.
Proof. induction l as [|x l IH]; simpl; [done|]. unfold sumZ in *; simpl in *. lia. Qed.

Lemma sumZ_nonneg l : Forall (Z.le 0) l → 0 ≤ sumZ l.
Proof. unfold sumZ. induction 1; simpl; lia. Qed.

Lemma sumZ_cons x l : sumZ (x :: l) = x + sumZ l.
Proof. done. Qed.

Lemma sumZ_perm l k : l ≡ₚ k → sumZ l = sumZ k.
Proof. induction 1; rewrite ?sumZ_cons in *; lia. Qed.

#[export] Instance sumZ_proper : Proper ((≡ₚ) ==> (=)) sumZ.
Proof. intros l k. apply sumZ_perm. Qed.

#[export] Instance count_proper {A} (p : A → bool) : Proper ((≡ₚ) ==> (=)) (count p).
Proof. intros l k. apply count_perm. Qed.

Lemma Sorted_mono {A} (R Q : A → A → Prop) l :
  (∀ a b, R a b → Q a b) → Sorted R l → Sorted Q l.
Proof.
  intros HRQ. induction 1 as [|x l Hs IH Hhd]; constructor; [done|].
  destruct Hhd; constructor; auto.
Qed.

(** ** Lowercasing and byte predicates *)

Lemma forall_ascii (P : ascii → bool) :
  forallb (λ n, P (ascii_of_nat n)) (seq 0 256) = true → ∀ c, P c = true.
Proof.
  intros H c. rewrite forallb_forall in H. rewrite <-(ascii_nat_embedding c). apply H.
  apply in_seq. pose proof (nat_ascii_bounded c). lia.
Qed.

Lemma to_lower_idemp c : to_lower (to_lower c) = to_lower c.
Proof.
  apply Ascii.eqb_eq.
  apply (forall_ascii (λ c, Ascii.eqb (to_lower (to_lower c)) (to_lower c))). by vm_compute.
Qed.

Lemma map_str_length f s : String.length (map_str f s) = String.length s.
Proof. induction s as [|c s IH]; simpl; [done|]. by rewrite IH. Qed.

Lemma to_ascii_lowercase_idemp s :
  to_ascii_lowercase (to_ascii_lowercase s) = to_ascii_lowercase s.
Proof.
  unfold to_ascii_lowercase. induction s as [|c s IH]; simpl; [done|]. by rewrite to_lower_idemp, IH.
Qed.

Lemma slen_to_lower s : slen (to_ascii_lowercase s) = slen s.
Proof. unfold slen, to_ascii_lowercase. by rewrite map_str_length. Qed.

Lemma all_bytes_map (p : ascii → bool) f s :
  (∀ c, p c = true → p (f c) = true) → all_bytes p s = true → all_bytes p (map_str f s) = true.
Proof.
  intros Hf. induction s as [|c s IH]; simpl; [done|]. rewrite !andb_true_iff. intros [??]; auto.
Qed.

Lemma hexdigit_to_lower c : is_ascii_hexdigit c = true → is_ascii_hexdigit (to_lower c) = true.
Proof.
  intros H. assert (Hb : implb (is_ascii_hexdigit c) (is_ascii_hexdigit (to_lower c)) = true).
  { apply (forall_ascii (λ c, implb (is_ascii_hexdigit c) (is_ascii_hexdigit (to_lower c)))). by vm_compute. }
  by rewrite H in Hb.
Qed.

Lemma filter_bytes_all p s : all_bytes p s = true → filter_bytes p s = s.
Proof. induction s as [|c s IH]; simpl; [done|]. rewrite andb_true_iff. intros [-> ?]. f_equal. auto. Qed.

Lemma all_bytes_impl (p q : ascii → bool) s :
  (∀ c, p c = true → q c = true) → all_bytes p s = true → all_bytes q s = true.
Proof. intros H. induction s as [|c s IH]; simpl; [done|]. rewrite !andb_true_iff. intros [??]; auto. Qed.

Lemma all_bytes_app p a b : all_bytes p (a +:+ b) = all_bytes p a && all_bytes p b.
Proof. induction a as [|c a IH]; [done|]. simpl. by rewrite IH, andb_assoc. Qed.

(** ** Substrings *)

Lemma strip_prefix_Some p s r : strip_prefix p s = Some r ↔ s = p +:+ r.
Proof.
  split; [|intros ->; apply strip_prefix_app].
  revert s. induction p as [|a p IH]; intros s; unfold strip_prefix; fold strip_prefix.
  { by intros [= ->]. }
  destruct s as [|b s]; [done|]. destruct (Ascii.eqb_spec a b) as [->|]; [|done].
  intros H%IH. change (String b p +:+ r) with (String b (p +:+ r)). by rewrite H.
Qed.

Lemma map_str_app f a b : map_str f (a +:+ b) = map_str f a +:+ map_str f b.
Proof. induction a as [|c a IH]; [done|]. simpl. by rewrite IH. Qed.

Lemma chars_cons_nonempty c s : ∃ x l, chars (String c s) = x :: l.
Proof. simpl. destruct (chars s) as [|[|d r] rest]; eauto. destruct (is_continuation d); eauto. Qed.

Lemma concat_chars s : concat_str (chars s) = s.
Proof.
  induction s as [|c s IH]; [done|]. simpl.
  destruct (chars s) as [|[|d r] rest] eqn:E; simpl in *.
  - by rewrite <-IH.
  - by rewrite <-IH.
  - destruct (is_continuation d); simpl; by rewrite <-IH.
Qed.

Lemma concat_str_app l k : concat_str (l ++ k) = concat_str l +:+ concat_str k.
Proof. induction l as [|x l IH]; simpl; [done|]. by rewrite IH, str_app_assoc. Qed.

Lemma contains_cons n c s : contains n (String c s) = starts_with n (String c s) || contains n s.
Proof. done. Qed.

Lemma starts_with_iff n s : starts_with n s = true ↔ ∃ r, s = n +:+ r.
Proof.
  unfold starts_with. destruct (strip_prefix n s) as [r|] eqn:E.
  - split; [|done]. intros _. exists r. by apply strip_prefix_Some.
  - split; [done|]. intros [r Hr]. apply strip_prefix_Some in Hr. congruence.
Qed.

(** [contains] is the existence of an occurrence. *)
Lemma contains_iff n s : contains n s = true ↔ ∃ a b, s = a +:+ n +:+ b.
Proof.
  split.
  - induction s as [|c s IH]; unfold contains; fold contains; rewrite ?orb_true_iff.
    + intros [Hs|]; [|done]. apply starts_with_iff in Hs as [r Hr]. exists EmptyString, r. done.
    + intros [Hs|Hs].
      * apply starts_with_iff in Hs as [r Hr]. exists EmptyString, r. done.
      * destruct (IH Hs) as (a & b & ->). by exists (String c a), b.
  - intros (a & b & ->). induction a as [|c a IH].
    + change (EmptyString +:+ n +:+ b) with (n +:+ b). pose proof (starts_with_app n b) as Hs.
      destruct (n +:+ b); cbn [contains]; rewrite Hs; done.
    + change (String c a +:+ n +:+ b) with (String c (a +:+ n +:+ b)).
      rewrite contains_cons, IH. apply orb_true_r.
Qed.

Lemma contains_app_l n a b : contains n a = true → contains n (a +:+ b) = true.
Proof.
  rewrite !contains_iff. intros (x & y & ->). exists x, (y +:+ b). by rewrite <-!str_app_assoc.
Qed.

Lemma any_byte_app p a b : any_byte p (a +:+ b) = any_byte p a || any_byte p b.
Proof. induction a as [|c a IH]; [done|]. simpl. by rewrite IH, orb_assoc. Qed.

(** [str::split] around a part without the separator. *)
Lemma split_char_nonempty sep s : split_char sep s ≠ [].
Proof. destruct s as [|d s]; simpl; [done|]. destruct (Ascii.eqb d sep); [done|]. by destruct (split_char sep s). Qed.

Lemma split_char_app sep a s : any_byte (λ c, Ascii.eqb c sep) a = false →
  split_char sep (a +:+ s) = match split_char sep s with x :: l => (a +:+ x) :: l | [] => [a] end.
Proof.
  induction a as [|c a IH]; intros Ha.
  - change (EmptyString +:+ s) with s. pose proof (split_char_nonempty sep s) as Hne. by destruct (split_char sep s).
  - simpl in Ha. apply orb_false_iff in Ha as [Hc Ha].
    change (String c a +:+ s) with (String c (a +:+ s)). cbn [split_char]. rewrite Hc, (IH Ha).
    by destruct (split_char sep s).
Qed.
Lemma split_char_at sep a s : any_byte (λ c, Ascii.eqb c sep) a = false →
  split_char sep (a +:+ String sep s) = a :: split_char sep s.
Proof.
  intros Ha. rewrite (split_char_app sep a (String sep s) Ha). cbn [split_char]. rewrite Ascii.eqb_refl.
  f_equal. clear. by induction a as [|c a IH]; [|change (String c (a +:+ EmptyString) = String c a); f_equal].
Qed.
Lemma split_char_whole sep a : any_byte (λ c, Ascii.eqb c sep) a = false → split_char sep a = [a].
Proof.
  induction a as [|c a IH]; simpl; [done|]. intros [Hc Ha]%orb_false_iff. by rewrite Hc, (IH Ha).
Qed.

Lemma any_byte_concat p l : any_byte p (concat_str l) = existsb (any_byte p) l.
Proof. induction l as [|s l IH]; [done|]. cbn [concat_str existsb]. by rewrite any_byte_app, IH. Qed.

(** An occurrence of [n] across a separator that [n] does not contain lies on
    one side. *)
Lemma str_app_split (a b x y : string) :
  a +:+ b = x +:+ y →
  (∃ m, x = a +:+ m ∧ b = m +:+ y) ∨ (∃ m, a = x +:+ m ∧ y = m +:+ b).
Proof.
  revert x. induction a as [|c a IH]; intros x Heq.
  - left. by exists x.
  - destruct x as [|d x].
    + right. by exists (String c a).
    + change (String c (a +:+ b) = String d (x +:+ y)) in Heq. injection Heq as -> Heq.
      destruct (IH x Heq) as [(m & -> & ->)|(m & -> & ->)]; [left|right]; by exists m.
Qed.

Lemma contains_sep n a b (sep : string) :
  (∀ c, any_byte (Ascii.eqb c) sep = true → any_byte (Ascii.eqb c) n = false) →
  n ≠ EmptyString →
  contains n (a +:+ sep +:+ b) = true → contains n a = true ∨ contains n b = true ∨ sep = EmptyString.
Proof.
  intros Hsep Hn. rewrite !contains_iff. intros (x & y & Heq).
  assert (Hhead : ∀ c u v, sep = u +:+ String c v → any_byte (Ascii.eqb c) n = false).
  { intros c u v ->. apply Hsep. rewrite any_byte_app. simpl. rewrite Ascii.eqb_refl. apply orb_true_r. }
  apply str_app_split in Heq as [(m & -> & Heq)|(m & -> & Heq)].
  - apply str_app_split in Heq as [(m' & -> & ->)|(m' & -> & Heq)]; [by right; left; exists m', y|].
    destruct m' as [|c m']; [by right; left; exists EmptyString, y|].
    destruct n as [|d n]; [done|]. injection Heq as -> _. exfalso.
    pose proof (Hhead c m m' eq_refl) as Hf. simpl in Hf. by rewrite Ascii.eqb_refl in Hf.
  - apply str_app_split in Heq as [(m' & -> & ->)|(m' & -> & Heq)]; [by left; exists x, m'|].
    destruct m' as [|c m']; [left; exists x, EmptyString; by rewrite !str_app_nil_r|].
    destruct sep as [|d sep]; [by right; right|]. injection Heq as -> _. exfalso.
    pose proof (Hhead c EmptyString sep eq_refl) as Hf. rewrite any_byte_app in Hf.
    simpl in Hf. by rewrite Ascii.eqb_refl, orb_true_r in Hf.
Qed.

Lemma contains_empty n : n ≠ EmptyString → contains n EmptyString = false.
Proof. by destruct n. Qed.

Lemma contains_prefix_list n k l :
  contains n (concat_str l) = false → contains n (concat_str (take k l)) = false.
Proof.
  intros Hl. destruct (contains n (concat_str (take k l))) eqn:E; [|done].
  apply (contains_app_l _ _ (concat_str (drop k l))) in E.
  by rewrite <-concat_str_app, take_drop, Hl in E.
Qed.

(** *** Characters *)

(** A character is a byte and its continuation bytes; every character after
    the first starts with a byte that is not a continuation. *)
Definition char_group (x : string) : Prop :=
  match x with EmptyString => False | String _ r => all_bytes is_continuation r = true end.
Definition char_start (x : string) : Prop :=
  match x with EmptyString => False | String c _ => is_continuation c = false end.
Definition well_grouped (l : list string) : Prop := Forall char_group l ∧ Forall char_start (tail l).

Lemma well_grouped_chars s : well_grouped (chars s).
Proof.
  induction s as [|c s [IHg IHs]]; [by split|]. simpl.
  destruct (chars s) as [|[|d r] rest]; simpl in *.
  - split; [by repeat constructor|constructor].
  - apply Forall_cons in IHg as [[] _].
  - apply Forall_cons in IHg as [Hd Hrest]. destruct (is_continuation d) eqn:E; split; simpl.
    + constructor; [|done]. simpl. by rewrite E.
    + done.
    + by repeat constructor.
    + by constructor.
Qed.

Lemma chars_group c r l :
  all_bytes is_continuation r = true → Forall char_start l → chars (concat_str l) = l →
  chars (String c (r +:+ concat_str l)) = String c r :: l.
Proof.
  intros Hr Hl Hc. revert c. induction r as [|d r IH]; intros c.
  - change (EmptyString +:+ concat_str l) with (concat_str l). cbn [chars]. rewrite Hc.
    destruct l as [|[|d x] l]; [done|..]; apply Forall_cons in Hl as [Hd _]; [done|].
    simpl in Hd. by rewrite Hd.
  - simpl in Hr. apply andb_true_iff in Hr as [Hd Hr].
    change (String d r +:+ concat_str l) with (String d (r +:+ concat_str l)).
    pose proof (IH Hr d) as IHd. cbn [chars] in IHd |- *. rewrite IHd. by rewrite Hd.
Qed.

Lemma chars_concat l : well_grouped l → chars (concat_str l) = l.
Proof.
  intros [Hg Hs]. induction l as [|x l IH]; [done|]. simpl in *.
  apply Forall_cons in Hg as [Hx Hg]. destruct x as [|c r]; [done|].
  change (String c r +:+ concat_str l) with (String c (r +:+ concat_str l)).
  apply chars_group; [done|done|]. apply IH; [done|]. destruct l; [done|]. by apply Forall_cons in Hs as [_ ?].
Qed.

Lemma chars_take k s : chars (concat_str (take k (chars s))) = take k (chars s).
Proof.
  apply chars_concat. destruct (well_grouped_chars s) as [Hg Hs]. split; [eauto with lists|].
  destruct (chars s) as [|x l]; [by destruct k|]. destruct k; simpl; [constructor|eauto with lists].
Qed.

Lemma slen_app a b : slen (a +:+ b) = slen a + slen b.
Proof. unfold slen. rewrite length_str_app. lia. Qed.
Lemma slen_nonneg s : 0 ≤ slen s.
Proof. unfold slen. lia. Qed.

(** ** ASCII text *)

Definition is_ascii (c : ascii) : bool := byte_val c <? 128.

Lemma chars_ascii s : all_bytes is_ascii s = true → chars s = str1 <$> String.list_ascii_of_string s.
Proof.
  induction s as [|c s IH]; [done|]. intros [Hc Hs]%andb_true_iff. simpl. rewrite (IH Hs).
  destruct s as [|d s]; [done|]. simpl in *. apply andb_true_iff in Hs as [Hd _].
  assert (is_continuation d = false) as ->; [|done].
  unfold is_ascii in Hd. apply Z.ltb_lt in Hd. unfold is_continuation. apply not_true_iff_false.
  rewrite ?andb_true_iff, ?Z.leb_le. unfold ascii_in. rewrite ?andb_true_iff, ?Z.leb_le. lia.
Qed.
Lemma lossy_ascii s : all_bytes is_ascii s = true → from_utf8_lossy s = s.
Proof.
  induction s as [|c s IH]; [done|]. intros [Hc Hs]%andb_true_iff. cbn [from_utf8_lossy].
  unfold is_ascii in Hc. by rewrite Hc, (IH Hs).
Qed.

(** Text without white space. *)
Definition is_solid (c : ascii) : bool := is_ascii c && negb (is_whitespace (str1 c)).
Lemma drop_while_none {A} (p : A → bool) l : Forall (λ x, p x = false) l → drop_while p l = l.
Proof. destruct 1 as [|x l Hx _]; simpl; [done|]. by rewrite Hx. Qed.
Lemma trim_solid s : all_bytes is_solid s = true → trim s = s.
Proof.
  intros Hs. unfold trim, trim_matches, drop_while_end.
  assert (Hc : Forall (λ c, is_whitespace c = false) (chars s)).
  { rewrite chars_ascii by (revert Hs; apply all_bytes_impl; by intros c [? _]%andb_true_iff).
    induction s as [|c s IH]; [constructor|]. simpl in *. apply andb_true_iff in Hs as [Hc Hs].
    constructor; [|by apply IH]. unfold is_solid in Hc. apply andb_true_iff in Hc as [_ Hc].
    by apply negb_true_iff in Hc. }
  rewrite (drop_while_none _ _ Hc), drop_while_none by by apply Forall_rev.
  by rewrite rev_involutive, concat_chars.
Qed.

(** ** Byte positions *)

Fixpoint take_bytes (n : nat) (s : string) : string :=
  match n, s with S n', String c s' => String c (take_bytes n' s') | _, _ => EmptyString end.
Fixpoint drop_bytes (n : nat) (s : string) : string :=
  match n, s with S n', String _ s' => drop_bytes n' s' | _, _ => s end.

(** [find('\n')] and [rfind('\n')]. *)
Fixpoint find_nl (s : string) : option nat :=
  match s with
  | EmptyString => None
  | String c s' => if Ascii.eqb c nl then Some 0%nat else S <$> find_nl s'
  end.
Fixpoint rfind_nl (s : string) : option nat :=
  match s with
  | EmptyString => None
  | String c s' =>
      match rfind_nl s' with
      | Some i => Some (S i)
      | None => if Ascii.eqb c nl then Some 0%nat else None
      end
  end.

Lemma take_drop_bytes n s : take_bytes n s +:+ drop_bytes n s = s.
Proof.
  revert s. induction n as [|n IH]; intros [|c s]; try done.
  change (String c (take_bytes n s +:+ drop_bytes n s) = String c s). by rewrite IH.
Qed.

Lemma length_take_bytes n s : String.length (take_bytes n s) = Nat.min n (String.length s).
Proof. revert s. induction n as [|n IH]; intros [|c s]; simpl; auto. Qed.

Lemma length_drop_bytes n s : String.length (drop_bytes n s) = (String.length s - n)%nat.
Proof.
  pose proof (f_equal String.length (take_drop_bytes n s)) as H. rewrite length_str_app, length_take_bytes in H. lia.
Qed.

Lemma take_bytes_app a b : take_bytes (String.length a) (a +:+ b) = a.
Proof.
  induction a as [|c a IH]; [by destruct b|].
  change (String c (take_bytes (String.length a) (a +:+ b)) = String c a). by rewrite IH.
Qed.
Lemma drop_bytes_app a b : drop_bytes (String.length a) (a +:+ b) = b.
Proof. by induction a as [|c a IH]. Qed.

Lemma take_take_bytes i n s : (i ≤ n)%nat → take_bytes i (take_bytes n s) = take_bytes i s.
Proof.
  revert i s. induction n as [|n IH]; intros [|i] [|c s]; simpl; try done; try lia.
  intros. by rewrite IH by lia.
Qed.

Lemma drop_take_bytes i n s :
  (i ≤ n)%nat → drop_bytes i s = drop_bytes i (take_bytes n s) +:+ drop_bytes n s.
Proof.
  revert i s. induction n as [|n IH]; intros [|i] [|c s]; try done; try lia.
  - intros _. symmetry. apply (take_drop_bytes (S n)).
  - intros. apply (IH i s). lia.
Qed.

Definition has_nl (s : string) : bool := any_byte (λ c, Ascii.eqb c nl) s.

(** The first line break at [offset]: nothing before it breaks a line. *)
Lemma find_nl_spec s :
  match find_nl s with
  | Some i => drop_bytes i s = String nl (drop_bytes (S i) s) ∧ (i < String.length s)%nat
  | None => has_nl s = false
  end.
Proof.
  induction s as [|c s IH]; [done|]. simpl. destruct (Ascii.eqb c nl) eqn:E; simpl.
  - apply Ascii.eqb_eq in E as ->. split; [by destruct s|lia].
  - destruct (find_nl s) as [i|]; simpl.
    + destruct IH as [Hd Hl]. split; [exact Hd|lia].
    + unfold has_nl. simpl. by rewrite E.
Qed.

Lemma rfind_nl_spec s :
  match rfind_nl s with
  | Some i => drop_bytes i s = String nl (drop_bytes (S i) s) ∧ (i < String.length s)%nat
              ∧ has_nl (drop_bytes (S i) s) = false
  | None => has_nl s = false
  end.
Proof.
  induction s as [|c s IH]; [done|]. simpl. destruct (rfind_nl s) as [i|].
  - destruct IH as (Hd & Hl & Hn). split_and!; [exact Hd|lia|exact Hn].
  - unfold has_nl in *. destruct (Ascii.eqb c nl) eqn:E; simpl.
    + apply Ascii.eqb_eq in E as ->. split_and!; [by destruct s|lia|by destruct s].
    + by rewrite E.
Qed.

Lemma take_to_newline i s :
  drop_bytes i s = String nl (drop_bytes (S i) s) → take_bytes (i + 1) s = take_bytes i s +:+ str1 nl.
Proof.
  revert s. induction i as [|i IH]; intros s; simpl.
  - destruct s as [|c s]; [done|]. by intros [= ->].
  - destruct s as [|c s]; [done|]. intros Hd.
    change (String c (take_bytes (i + 1) s) = String c (take_bytes i s +:+ str1 nl)). by rewrite IH.
Qed.

Lemma drop_drop_bytes a b s : drop_bytes a (drop_bytes b s) = drop_bytes (b + a) s.
Proof. revert s. induction b as [|b IH]; intros s; simpl; [done|]. destruct s; [by destruct a|apply IH]. Qed.
