(* ===== verification/Sha256.v ===== *)
(** * SHA-256 ([src/handshake.rs], [src/remote_connections.rs])

    The agent carries two implementations of SHA-256, one for the digest of the
    accepted schema versions and one for document identities and HMAC
    pseudonyms.  Both are translated here and proved to compute the function of
    FIPS 180-4, written after the standard; so is the HMAC of RFC 2104. *)
From Stdlib Require Import Ascii.
From S2P Require Import Prelude.

(** Bytes and 32-bit words are numbers. *)
Abbreviation bytes := (list Z).

Definition bytes_of (s : string) : bytes := byte_val <$> String.list_ascii_of_string s.

(** ** Words *)

Definition rotate_right (n x : Z) : Z := Z.lor (Z.shiftr x n) (wrap 32 (Z.shiftl x (32 - n))).
(** [!x] on [u32]. *)
Definition not_u32 (x : Z) : Z := Z.lxor x u32_max.
(** [u32::from_be_bytes] and [to_be_bytes]. *)
Definition be_word (b : bytes) : Z := foldl (λ acc x, Z.lor (Z.shiftl acc 8) x) 0 b.
Definition be_bytes (n : nat) (x : Z) : bytes :=
  (λ k, Z.shiftr x (8 * Z.of_nat k) mod 256) <$> rev (seq 0 n).

(** [chunks] of [n], a shorter last one left out ([as_chunks().0]). *)
Fixpoint chunks_exact (fuel n : nat) (l : bytes) : list bytes :=
  match fuel with
  | O => []
  | S fuel => if (length l <? n)%nat then [] else take n l :: chunks_exact fuel n (drop n l)
  end.
Definition as_chunks (n : nat) (l : bytes) : list bytes := chunks_exact (length l) n l.

Definition hex_digit (n : Z) : ascii := if n <? 10 then chr (Z.to_nat (48 + n)) else chr (Z.to_nat (87 + n)).
(** [{:02x}] of a byte and [{:08x}] of a word. *)
Definition hex_of (digits : nat) (x : Z) : string :=
  String.string_of_list_ascii ((λ k, hex_digit (Z.shiftr x (4 * Z.of_nat k) mod 16)) <$> rev (seq 0 digits)).

(** A row of constants written as one number, most significant word first. *)
Definition words_of_row (row : Z) : list Z :=
  rev ((λ k, Z.shiftr row (32 * Z.of_nat k) mod 2 ^ 32) <$> seq 0 8).

(** ** The compression function both share *)

Definition SCHEDULE_SIZE : nat := 64.

(** [for i in 16..64 { w[i] = .. }] *)
Definition schedule_step (w : list Z) (i : nat) : list Z :=
  let x15 := nth (i - 15) w 0 in
  let x2 := nth (i - 2) w 0 in
  let s0 := Z.lxor (Z.lxor (rotate_right 7 x15) (rotate_right 18 x15)) (Z.shiftr x15 3) in
  let s1 := Z.lxor (Z.lxor (rotate_right 17 x2) (rotate_right 19 x2)) (Z.shiftr x2 10) in
  <[i := add_u32 (add_u32 (add_u32 (nth (i - 16) w 0) s0) (nth (i - 7) w 0)) s1]> w.

(** The eight working variables. *)
Record Vars := { va : Z; vb : Z; vc : Z; vd : Z; ve : Z; vf : Z; vg : Z; vh : Z }.
Definition vars_of (h : list Z) : Vars :=
  {| va := nth 0 h 0; vb := nth 1 h 0; vc := nth 2 h 0; vd := nth 3 h 0;
     ve := nth 4 h 0; vf := nth 5 h 0; vg := nth 6 h 0; vh := nth 7 h 0 |}.
Definition vars_list (v : Vars) : list Z := [va v; vb v; vc v; vd v; ve v; vf v; vg v; vh v].

Definition round (k w : list Z) (v : Vars) (i : nat) : Vars :=
  let e := ve v in
  let a := va v in
  let s1 := Z.lxor (Z.lxor (rotate_right 6 e) (rotate_right 11 e)) (rotate_right 25 e) in
  let choice := Z.lxor (Z.land e (vf v)) (Z.land (not_u32 e) (vg v)) in
  let t1 := add_u32 (add_u32 (add_u32 (add_u32 (vh v) s1) choice) (nth i k 0)) (nth i w 0) in
  let s0 := Z.lxor (Z.lxor (rotate_right 2 a) (rotate_right 13 a)) (rotate_right 22 a) in
  let majority := Z.lxor (Z.lxor (Z.land a (vb v)) (Z.land a (vc v))) (Z.land (vb v) (vc v)) in
  let t2 := add_u32 s0 majority in
  {| va := add_u32 t1 t2; vb := a; vc := vb v; vd := vc v; ve := add_u32 (vd v) t1; vf := e; vg := vf v; vh := vg v |}.

(** [while message.len() % 64 != 56 { push(0) }] *)
Fixpoint push_zeros (fuel : nat) (message : bytes) : bytes :=
  match fuel with
  | O => message
  | S fuel => if (length message mod 64 =? 56)%nat then message else push_zeros fuel (message ++ [0])
  end.

(** ** [handshake::sha256_hex] *)

Definition hs_K : list Z := mjoin (words_of_row <$>
  [0x428a2f98_71374491_b5c0fbcf_e9b5dba5_3956c25b_59f111f1_923f82a4_ab1c5ed5;
   0xd807aa98_12835b01_243185be_550c7dc3_72be5d74_80deb1fe_9bdc06a7_c19bf174;
   0xe49b69c1_efbe4786_0fc19dc6_240ca1cc_2de92c6f_4a7484aa_5cb0a9dc_76f988da;
   0x983e5152_a831c66d_b00327c8_bf597fc7_c6e00bf3_d5a79147_06ca6351_14292967;
   0x27b70a85_2e1b2138_4d2c6dfc_53380d13_650a7354_766a0abb_81c2c92e_92722c85;
   0xa2bfe8a1_a81a664b_c24b8b70_c76c51a3_d192e819_d6990624_f40e3585_106aa070;
   0x19a4c116_1e376c08_2748774c_34b0bcb5_391c0cb3_4ed8aa4a_5b9cca4f_682e6ff3;
   0x748f82ee_78a5636f_84c87814_8cc70208_90befffa_a4506ceb_bef9a3f7_c67178f2]).
Definition hs_H0 : list Z := words_of_row 0x6a09e667_bb67ae85_3c6ef372_a54ff53a_510e527f_9b05688c_1f83d9ab_5be0cd19.

Definition hs_pad (data : bytes) : bytes :=
  let bits := wrap 64 (Z.of_nat (length data) * 8) in
  push_zeros 64 (data ++ [128]) ++ be_bytes 8 bits.

(** The block's words are written over an array of zeros. *)
Definition hs_schedule (block : bytes) : list Z :=
  let w := foldl (λ w iw, <[iw.1 := be_word iw.2]> w) (replicate SCHEDULE_SIZE 0)
             (zip (seq 0 16) (as_chunks 4 block)) in
  foldl schedule_step w (seq 16 48).

Definition hs_block_step (h : list Z) (block : bytes) : list Z :=
  let w := hs_schedule block in
  let v := foldl (round hs_K w) (vars_of h) (seq 0 64) in
  zip_with add_u32 h (vars_list v).

Definition hs_digest_words (data : bytes) : list Z := foldl hs_block_step hs_H0 (as_chunks 64 (hs_pad data)).
Definition hs_sha256_hex (data : bytes) : string := concat_str (hex_of 8 <$> hs_digest_words data).

(** ** [remote_connections::sha256] *)

Definition rc_K : list Z := mjoin (words_of_row <$>
  [0x428a2f98_71374491_b5c0fbcf_e9b5dba5_3956c25b_59f111f1_923f82a4_ab1c5ed5;
   0xd807aa98_12835b01_243185be_550c7dc3_72be5d74_80deb1fe_9bdc06a7_c19bf174;
   0xe49b69c1_efbe4786_0fc19dc6_240ca1cc_2de92c6f_4a7484aa_5cb0a9dc_76f988da;
   0x983e5152_a831c66d_b00327c8_bf597fc7_c6e00bf3_d5a79147_06ca6351_14292967;
   0x27b70a85_2e1b2138_4d2c6dfc_53380d13_650a7354_766a0abb_81c2c92e_92722c85;
   0xa2bfe8a1_a81a664b_c24b8b70_c76c51a3_d192e819_d6990624_f40e3585_106aa070;
   0x19a4c116_1e376c08_2748774c_34b0bcb5_391c0cb3_4ed8aa4a_5b9cca4f_682e6ff3;
   0x748f82ee_78a5636f_84c87814_8cc70208_90befffa_a4506ceb_bef9a3f7_c67178f2]).
Definition rc_H0 : list Z := words_of_row 0x6a09e667_bb67ae85_3c6ef372_a54ff53a_510e527f_9b05688c_1f83d9ab_5be0cd19.

Definition rc_pad (input : bytes) : bytes :=
  let bit_len := wrap 64 (Z.of_nat (length input) * 8) in
  push_zeros 64 (input ++ [128]) ++ be_bytes 8 bit_len.

(** [w[..16]] is filled from slices of the chunk. *)
Definition rc_schedule (chunk : bytes) : list Z :=
  let w := foldl (λ w i, <[i := be_word (take 4 (drop (i * 4) chunk))]> w) (replicate SCHEDULE_SIZE 0) (seq 0 16) in
  foldl schedule_step w (seq 16 48).

(** [h[i] = h[i].wrapping_add(..)], one index after the other. *)
Definition rc_chunk_step (h : list Z) (chunk : bytes) : list Z :=
  let w := rc_schedule chunk in
  let v := foldl (round rc_K w) (vars_of h) (seq 0 64) in
  foldl (λ h iv, <[iv.1 := add_u32 (nth iv.1 h 0) iv.2]> h) h (zip (seq 0 8) (vars_list v)).

Definition rc_sha256_words (input : bytes) : list Z := foldl rc_chunk_step rc_H0 (as_chunks 64 (rc_pad input)).
(** [copy_from_slice(&word.to_be_bytes())] *)
Definition rc_sha256 (input : bytes) : bytes := mjoin (be_bytes 4 <$> rc_sha256_words input).
Definition rc_sha256_hex (input : bytes) : string := concat_str (hex_of 2 <$> rc_sha256 input).

(** [peer_pseudonym]: [resize], then the key is mixed in. *)
Definition xor_key (fill : Z) (key : bytes) : bytes :=
  foldl (λ acc ib, <[ib.1 := Z.lxor (nth ib.1 acc 0) ib.2]> acc) (replicate 64 fill) (zip (seq 0 (length key)) key).
Definition hmac_outer (key domain value : bytes) : bytes :=
  let inner := xor_key 0x36 key ++ domain ++ value in
  xor_key 0x5c key ++ rc_sha256 inner.
Definition peer_pseudonym (key domain value : bytes) : string :=
  take_bytes 32 (rc_sha256_hex (hmac_outer key domain value)).

(** ** FIPS 180-4 *)

Module Fips.
(** Section 4.2.2 and 5.3.3: the constants are the first 32 bits of the
    fractional parts of the cube roots of the first sixty-four primes, and of
    the square roots of the first eight. *)
Definition is_prime (p : Z) : bool := forallb (λ d, negb (p mod Z.of_nat d =? 0)) (seq 2 (Z.to_nat p - 2)).
Definition primes (n : nat) : list Z := take n (List.filter is_prime (Z.of_nat <$> seq 2 310)).
(** The integer cube root, from the highest bit down. *)
Definition cube_root (n : Z) : Z :=
  foldl (λ r b, let r' := r + 2 ^ Z.of_nat b in if r' * r' * r' <=? n then r' else r) 0 (rev (seq 0 40)).
Definition K : list Z := (λ p, cube_root (p * 2 ^ 96) mod 2 ^ 32) <$> primes 64.
Definition H0 : list Z := (λ p, Z.sqrt (p * 2 ^ 64) mod 2 ^ 32) <$> primes 8.

(** Section 4.1.2. *)
Definition Ch (x y z : Z) : Z := Z.lxor (Z.land x y) (Z.land (not_u32 x) z).
Definition Maj (x y z : Z) : Z := Z.lxor (Z.lxor (Z.land x y) (Z.land x z)) (Z.land y z).
Definition big_sigma0 (x : Z) : Z := Z.lxor (Z.lxor (rotate_right 2 x) (rotate_right 13 x)) (rotate_right 22 x).
Definition big_sigma1 (x : Z) : Z := Z.lxor (Z.lxor (rotate_right 6 x) (rotate_right 11 x)) (rotate_right 25 x).
Definition sigma0 (x : Z) : Z := Z.lxor (Z.lxor (rotate_right 7 x) (rotate_right 18 x)) (Z.shiftr x 3).
Definition sigma1 (x : Z) : Z := Z.lxor (Z.lxor (rotate_right 17 x) (rotate_right 19 x)) (Z.shiftr x 10).

(** Section 5.1.1: a one bit, the least number of zero bits, the length. *)
Definition zeros (l : nat) : nat := ((55 + 64 - l mod 64) mod 64)%nat.
Definition padded_message (m : bytes) : bytes :=
  m ++ [128] ++ replicate (zeros (length m)) 0 ++ be_bytes 8 ((8 * Z.of_nat (length m)) mod 2 ^ 64).
(** Section 5.2.1: blocks, and their words. *)
Definition part (n : nat) (l : bytes) (i : nat) : bytes := take n (drop (i * n) l).
Definition parts (n : nat) (l : bytes) : list bytes := part n l <$> seq 0 (length l / n).

(** Section 6.2.2: sums are modulo 2^32. *)
Fixpoint extend (n : nat) (w : list Z) : list Z :=
  match n with
  | O => w
  | S n =>
      let t := length w in
      extend n (w ++ [(sigma1 (nth (t - 2) w 0) + nth (t - 7) w 0 + sigma0 (nth (t - 15) w 0) + nth (t - 16) w 0) mod 2 ^ 32])
  end.
Definition schedule (block : bytes) : list Z := extend 48 (be_word <$> parts 4 block).
Definition one_round (w : list Z) (v : Vars) (t : nat) : Vars :=
  let t1 := (vh v + big_sigma1 (ve v) + Ch (ve v) (vf v) (vg v) + nth t K 0 + nth t w 0) mod 2 ^ 32 in
  let t2 := (big_sigma0 (va v) + Maj (va v) (vb v) (vc v)) mod 2 ^ 32 in
  {| va := (t1 + t2) mod 2 ^ 32; vb := va v; vc := vb v; vd := vc v;
     ve := (vd v + t1) mod 2 ^ 32; vf := ve v; vg := vf v; vh := vg v |}.
Definition block_step (h : list Z) (block : bytes) : list Z :=
  zip_with (λ x y, (x + y) mod 2 ^ 32) (vars_list (foldl (one_round (schedule block)) (vars_of h) (seq 0 64))) h.
Definition sha256_words (m : bytes) : list Z := foldl block_step H0 (parts 64 (padded_message m)).
Definition sha256 (m : bytes) : bytes := mjoin (be_bytes 4 <$> sha256_words m).

(** RFC 2104 with a block of 64 bytes, for keys of at most that length. *)
Definition xor_pad (fill : Z) (key : bytes) : bytes :=
  zip_with Z.lxor (replicate 64 fill) (key ++ replicate (64 - length key) 0).
Definition hmac (key text : bytes) : bytes := sha256 (xor_pad 0x5c key ++ sha256 (xor_pad 0x36 key ++ text)).
End Fips.

(** ** Padding and blocks *)

Lemma one_zero_less r : (r < 64 → r ≠ 56 → (56 + 64 - r) mod 64 = S ((56 + 64 - (r + 1) mod 64) mod 64))%nat.
Proof.
  intros Hr Hne.
  assert (Hall : forallb (λ r, (r =? 56) || ((56 + 64 - r) mod 64 =? S ((56 + 64 - (r + 1) mod 64) mod 64)))%nat (seq 0 64) = true)
    by (vm_compute; reflexivity).
  rewrite forallb_forall in Hall. specialize (Hall r ltac:(apply in_seq; lia)).
  apply orb_true_iff in Hall as [H|H]; apply Nat.eqb_eq in H; [lia|done].
Qed.

Lemma push_zeros_spec fuel : ∀ m,
  ((56 + 64 - length m mod 64) mod 64 ≤ fuel)%nat →
  push_zeros fuel m = m ++ replicate ((56 + 64 - length m mod 64) mod 64) 0.
Proof.
  induction fuel as [|fuel IH]; intros m Hf; cbn [push_zeros].
  - replace ((56 + 64 - length m mod 64) mod 64)%nat with 0%nat by lia. by rewrite app_nil_r.
  - destruct (Nat.eqb_spec (length m mod 64) 56) as [E|E].
    + rewrite E. by rewrite app_nil_r.
    + assert (Hs : ((56 + 64 - length m mod 64) mod 64 = S ((56 + 64 - length (m ++ [0%Z]) mod 64) mod 64))%nat).
      { rewrite length_app. change (length [0%Z]) with 1%nat. rewrite <-(Nat.Div0.add_mod_idemp_l (length m) 1 64).
        apply one_zero_less; [apply Nat.mod_upper_bound; lia|done]. }
      rewrite IH by lia. rewrite Hs. cbn [replicate]. by rewrite <-app_assoc.
Qed.

Lemma zeros_of r : (r < 64 → (56 + 64 - (r + 1) mod 64) mod 64 = (55 + 64 - r) mod 64)%nat.
Proof.
  intros Hr.
  assert (Hall : forallb (λ r, (56 + 64 - (r + 1) mod 64) mod 64 =? (55 + 64 - r) mod 64)%nat (seq 0 64) = true)
    by (vm_compute; reflexivity).
  rewrite forallb_forall in Hall. apply Nat.eqb_eq, Hall, in_seq. lia.
Qed.

Lemma pad_spec m :
  push_zeros 64 (m ++ [128]) ++ be_bytes 8 (wrap 64 (Z.of_nat (length m) * 8)) = Fips.padded_message m.
Proof.
  rewrite push_zeros_spec by (pose proof (Nat.mod_upper_bound (56 + 64 - length (m ++ [128%Z]) mod 64) 64); lia).
  unfold Fips.padded_message, Fips.zeros, wrap.
  rewrite length_app. change (length [128%Z]) with 1%nat. rewrite <-!app_assoc. do 3 f_equal.
  - f_equal. rewrite <-(Nat.Div0.add_mod_idemp_l (length m) 1 64). apply zeros_of. apply Nat.mod_upper_bound. lia.
  - f_equal. f_equal. lia.
Qed.

Lemma chunks_exact_parts n : ∀ fuel l, (0 < n)%nat → (length l / n ≤ fuel)%nat →
  chunks_exact fuel n l = Fips.parts n l.
Proof.
  induction fuel as [|fuel IH]; intros l Hn Hf; cbn [chunks_exact]; unfold Fips.parts.
  - by replace (length l / n)%nat with 0%nat by lia.
  - destruct (Nat.ltb_spec (length l) n) as [H|H]; [by rewrite Nat.div_small|].
    assert (Hd : (length l / n = S (length (drop n l) / n))%nat).
    { rewrite length_drop. replace (length l) with ((length l - n) + 1 * n)%nat at 1 by lia.
      rewrite Nat.div_add by lia. lia. }
    rewrite IH by lia. rewrite Hd. cbn [seq fmap list_fmap]. f_equal. unfold Fips.parts.
    rewrite <-fmap_S_seq, <-list_fmap_compose. apply list_fmap_ext. intros i j _. unfold Fips.part, compose.
    by rewrite drop_drop.
Qed.

Lemma as_chunks_parts n l : (0 < n)%nat → as_chunks n l = Fips.parts n l.
Proof. intros Hn. apply chunks_exact_parts; [done|]. apply Nat.Div0.div_le_upper_bound. nia. Qed.

Lemma length_part n l i : (i < length l / n)%nat → length (Fips.part n l i) = n.
Proof.
  intros Hi. unfold Fips.part. rewrite length_take, length_drop.
  assert (n * (length l / n) ≤ length l)%nat by apply Nat.Div0.mul_div_le. nia.
Qed.

(** ** Arrays filled in order *)

(** Updating the places [s], [s+1], .. with the elements of [l]. *)
Lemma fill {A B : Type} (d : A) (g : A → B → A) (l : list B) : ∀ s (w : list A),
  (s + length l ≤ length w)%nat →
  foldl (λ w ix, <[ix.1 := g (nth ix.1 w d) ix.2]> w) w (zip (seq s (length l)) l)
  = take s w ++ zip_with g (drop s w) l ++ drop (s + length l) w.
Proof.
  induction l as [|x l IH]; intros s w Hlen; cbn [length seq zip zip_with foldl] in *.
  - assert (Hz : zip_with g (drop s w) [] = []) by (by destruct (drop s w)).
    rewrite Nat.add_0_r, Hz. by rewrite app_nil_l, take_drop.
  - destruct (lookup_lt_is_Some_2 w s ltac:(lia)) as [y Hy].
    rewrite IH by (rewrite length_insert; lia). cbn [fst snd].
    rewrite (nth_lookup_Some w s d y Hy). rewrite (drop_S w y s Hy). cbn [zip_with].
    rewrite insert_take_drop by lia.
    assert (Ht : length (take s w) = s) by (rewrite length_take; lia).
    rewrite (take_S_r _ s (g y x)).
    2: { rewrite lookup_app_r by lia. by rewrite Ht, Nat.sub_diag. }
    rewrite take_app_le by lia. rewrite take_take, Nat.min_id. rewrite <-app_assoc. cbn [app]. do 2 f_equal.
    change (take s w ++ g y x :: drop (S s) w) with (take s w ++ [g y x] ++ drop (S s) w).
    rewrite !app_assoc. rewrite !drop_app_ge by (rewrite length_app, Ht; simpl; lia).
    rewrite !length_app, Ht. change (length [g y x]) with 1%nat. rewrite !drop_drop.
    f_equal; [f_equal; f_equal; lia|f_equal; lia].
Qed.

(** The schedule written in place is the standard's. *)
Definition next_word (w : list Z) : Z :=
  let t := length w in
  (Fips.sigma1 (nth (t - 2) w 0) + nth (t - 7) w 0 + Fips.sigma0 (nth (t - 15) w 0) + nth (t - 16) w 0) mod 2 ^ 32.

Lemma add_u32_mod a b : add_u32 (a mod 2 ^ 32) b = (a + b) mod 2 ^ 32.
Proof. unfold add_u32, wrap. apply Z.add_mod_idemp_l. lia. Qed.
Lemma add_u32_def a b : add_u32 a b = (a + b) mod 2 ^ 32.
Proof. done. Qed.

Lemma schedule_step_app w rest :
  (16 ≤ length w)%nat → schedule_step (w ++ 0 :: rest) (length w) = (w ++ [next_word w]) ++ rest.
Proof.
  intros Hlen. unfold schedule_step. rewrite !app_nth1 by lia.
  rewrite insert_app_r_alt by lia. rewrite Nat.sub_diag. cbn [insert list_insert]. rewrite <-app_assoc. cbn [app]. f_equal. f_equal.
  unfold next_word. rewrite (add_u32_def (nth (length w - 16) w 0)), !add_u32_mod. f_equal.
  unfold Fips.sigma0, Fips.sigma1. lia.
Qed.

Lemma schedule_steps n : ∀ w, (16 ≤ length w)%nat →
  foldl schedule_step (w ++ replicate n 0) (seq (length w) n) = Fips.extend n w.
Proof.
  induction n as [|n IH]; intros w Hlen; cbn [replicate seq foldl Fips.extend]; [apply app_nil_r|].
  rewrite schedule_step_app by done. rewrite <-IH by (rewrite length_app; lia).
  rewrite length_app. change (length [next_word w]) with 1%nat. by rewrite Nat.add_1_r.
Qed.

Lemma round_step k w v i : k = Fips.K → round k w v i = Fips.one_round w v i.
Proof.
  intros ->. unfold round, Fips.one_round.
  fold (Fips.big_sigma0 (va v)) (Fips.big_sigma1 (ve v)) (Fips.Maj (va v) (vb v) (vc v)).
  fold (Fips.Ch (ve v) (vf v) (vg v)).
  assert (Hadd : ∀ a b c d e, add_u32 (add_u32 (add_u32 (add_u32 a b) c) d) e = (a + b + c + d + e) mod 2 ^ 32).
  { intros a b c d e. by rewrite (add_u32_def a), !add_u32_mod. }
  rewrite (Hadd (vh v)). reflexivity.
Qed.

Lemma rounds_steps k w v l : k = Fips.K → foldl (round k w) v l = foldl (Fips.one_round w) v l.
Proof. intros Hk. revert v. induction l as [|i l IH]; intros v; [done|]. simpl. by rewrite round_step. Qed.

(** The tables are those of the standard. *)
Lemma handshake_K : hs_K = Fips.K. Proof. vm_compute. reflexivity. Qed.
Lemma handshake_H0 : hs_H0 = Fips.H0. Proof. vm_compute. reflexivity. Qed.
Lemma connections_K : rc_K = Fips.K. Proof. vm_compute. reflexivity. Qed.
Lemma connections_H0 : rc_H0 = Fips.H0. Proof. vm_compute. reflexivity. Qed.

(** ** Both implementations *)

Lemma schedule_from (words : list Z) : length words = 16%nat →
  foldl schedule_step
    (foldl (λ w iw, <[iw.1 := iw.2]> w) (replicate SCHEDULE_SIZE 0) (zip (seq 0 16) words)) (seq 16 48)
  = Fips.extend 48 words.
Proof.
  intros Hlen. pose proof (fill 0 (λ _ x : Z, x) words 0 (replicate SCHEDULE_SIZE 0)) as Hfill.
  rewrite Hlen in Hfill. rewrite Hfill by (rewrite length_replicate; unfold SCHEDULE_SIZE; lia).
  rewrite <-(schedule_steps 48 words) by lia. rewrite Hlen. f_equal. unfold SCHEDULE_SIZE.
  rewrite take_0, app_nil_l, drop_0, drop_replicate. f_equal.
  do 16 (destruct words as [|? words]; [discriminate Hlen|]). by destruct words.
Qed.

Lemma handshake_schedule block : length block = 64%nat → hs_schedule block = Fips.schedule block.
Proof.
  intros Hlen. unfold hs_schedule, Fips.schedule. rewrite as_chunks_parts by lia.
  rewrite <-(schedule_from (be_word <$> Fips.parts 4 block)).
  2: { unfold Fips.parts. by rewrite !length_fmap, length_seq, Hlen. }
  f_equal. generalize (Fips.parts 4 block) as l, (replicate SCHEDULE_SIZE 0) as w, (seq 0 16) as ns.
  induction l as [|x l IH]; intros w [|n ns]; [done..|]. simpl. apply IH.
Qed.

Lemma connections_schedule chunk : length chunk = 64%nat → rc_schedule chunk = Fips.schedule chunk.
Proof.
  intros Hlen. unfold rc_schedule, Fips.schedule.
  rewrite <-(schedule_from (be_word <$> Fips.parts 4 chunk)).
  2: { unfold Fips.parts. by rewrite !length_fmap, length_seq, Hlen. }
  f_equal. unfold Fips.parts. rewrite Hlen. change (64 / 4)%nat with 16%nat.
  generalize (replicate SCHEDULE_SIZE 0) as w, (seq 0 16) as ns.
  intros w ns. revert w. induction ns as [|n ns IH]; intros w; [done|]. simpl. apply IH.
Qed.

Lemma length_block_step h block : length h = 8%nat → length (Fips.block_step h block) = 8%nat.
Proof. intros Hh. unfold Fips.block_step. rewrite length_zip_with, Hh. by destruct (foldl _ _ _). Qed.

Lemma foldl_blocks (f : list Z → bytes → list Z) (blocks : list bytes) : ∀ h,
  (∀ h block, length h = 8%nat → length block = 64%nat → f h block = Fips.block_step h block) →
  Forall (λ b, length b = 64%nat) blocks → length h = 8%nat →
  foldl f h blocks = foldl Fips.block_step h blocks.
Proof.
  intros h Hf Hb. revert h. induction Hb as [|b blocks Hb _ IH]; intros h Hh; [done|]. simpl.
  rewrite Hf by done. apply IH. by apply length_block_step.
Qed.

Lemma parts_lengths m : Forall (λ b, length b = 64%nat) (Fips.parts 64 m).
Proof.
  apply Forall_forall. intros b (i & -> & Hi%elem_of_seq)%list_elem_of_fmap. apply length_part. lia.
Qed.

Lemma zip_add_comm (h l : list Z) : zip_with add_u32 h l = zip_with (λ x y, (x + y) mod 2 ^ 32) l h.
Proof.
  revert l. induction h as [|x h IH]; intros [|y l]; [done..|]. simpl. f_equal; [|apply IH].
  unfold add_u32, wrap. by rewrite Z.add_comm.
Qed.

Lemma handshake_block h block : length h = 8%nat → length block = 64%nat →
  hs_block_step h block = Fips.block_step h block.
Proof.
  intros Hh Hb. unfold hs_block_step, Fips.block_step. rewrite handshake_schedule by done.
  rewrite (rounds_steps _ _ _ _ handshake_K). apply zip_add_comm.
Qed.

Lemma connections_block h chunk : length h = 8%nat → length chunk = 64%nat →
  rc_chunk_step h chunk = Fips.block_step h chunk.
Proof.
  intros Hh Hb. unfold rc_chunk_step, Fips.block_step. rewrite connections_schedule by done.
  rewrite (rounds_steps _ _ _ _ connections_K). set (v := foldl (Fips.one_round _) _ _).
  pose proof (fill 0 add_u32 (vars_list v) 0 h) as Hfill. change (length (vars_list v)) with 8%nat in Hfill.
  rewrite Hfill by (rewrite Hh; simpl; lia). rewrite (drop_ge h (0 + 8)) by (rewrite Hh; simpl; lia). rewrite app_nil_r, drop_0. simpl (take 0 h ++ _).
  apply zip_add_comm.
Qed.

(** ** Text *)

Lemma concat_str_hex n m (l : list Z) :
  (∀ x, hex_of n x = concat_str (hex_of 2 <$> be_bytes m x)) →
  concat_str (hex_of n <$> l) = concat_str (hex_of 2 <$> mjoin (be_bytes m <$> l)).
Proof.
  intros H. induction l as [|x l IH]; [done|]. rewrite !fmap_cons.
  change (mjoin (be_bytes m x :: (be_bytes m <$> l))) with (be_bytes m x ++ mjoin (be_bytes m <$> l)).
  rewrite fmap_app, concat_str_app, <-IH, <-H. done.
Qed.

Lemma nibble x a : Z.shiftr (Z.shiftr x a mod 256) 0 mod 16 = Z.shiftr x a mod 16.
Proof. rewrite Z.shiftr_0_r. Z.to_euclidean_division_equations. lia. Qed.
Lemma high_nibble x a : 0 ≤ a → Z.shiftr (Z.shiftr x a mod 256) 4 mod 16 = Z.shiftr x (a + 4) mod 16.
Proof.
  intros Ha. rewrite <-Z.shiftr_shiftr by lia. rewrite !(Z.shiftr_div_pow2 _ 4) by lia.
  change (2 ^ 4) with 16. generalize (Z.shiftr x a). intros y. Z.to_euclidean_division_equations. lia.
Qed.

(** A word's hexadecimal text is that of its big-endian bytes. *)
Lemma hex_word x : hex_of 8 x = concat_str (hex_of 2 <$> be_bytes 4 x).
Proof.
  unfold hex_of, be_bytes. cbn [seq rev app fmap list_fmap concat_str String.string_of_list_ascii].
  change (4 * Z.of_nat 0) with 0. change (4 * Z.of_nat 1) with 4.
  rewrite !nibble, !high_nibble by lia. reflexivity.
Qed.

Lemma connections_words data : rc_sha256_words data = Fips.sha256_words data.
Proof.
  unfold rc_sha256_words, Fips.sha256_words, rc_pad. rewrite pad_spec, as_chunks_parts by lia.
  rewrite connections_H0. apply foldl_blocks; [apply connections_block|apply parts_lengths|done].
Qed.
Lemma connections_sha256 data : rc_sha256 data = Fips.sha256 data.
Proof. unfold rc_sha256, Fips.sha256. by rewrite connections_words. Qed.

(** ** HMAC *)

Lemma xor_key_pad fill_byte key : (length key ≤ 64)%nat →
  xor_key fill_byte key = Fips.xor_pad fill_byte key.
Proof.
  intros Hk. unfold xor_key, Fips.xor_pad. rewrite (fill 0 Z.lxor) by (rewrite length_replicate; lia).
  rewrite take_0, app_nil_l, drop_0, Nat.add_0_l, drop_replicate. generalize 64%nat Hk. clear Hk.
  induction key as [|x key IH]; intros n Hn.
  - simpl. rewrite Nat.sub_0_r. assert (Hz : zip_with Z.lxor (replicate n fill_byte) [] = []) by (by destruct n).
    rewrite Hz. clear. induction n as [|n IH]; [done|]. simpl in *. by rewrite <-IH, Z.lxor_0_r.
  - destruct n as [|n]; [simpl in Hn; lia|]. simpl. f_equal. apply IH. simpl in Hn. lia.
Qed.

(** ** Properties *)

(** C38: The two SHA-256 implementations of the agent compute the SHA-256 of
    FIPS 180-4, whose constants are derived from square and cube roots of
    primes: the handshake's hexadecimal digest and the tailer's digest bytes are
    those of the standard for every input, so the two agree. *)
Theorem sha256_implementations_correct (data : bytes) :
  hs_digest_words data = Fips.sha256_words data
  ∧ rc_sha256 data = Fips.sha256 data
  ∧ hs_sha256_hex data = rc_sha256_hex data.
Proof.
  assert (Hh : hs_digest_words data = Fips.sha256_words data).
  { unfold hs_digest_words, Fips.sha256_words, hs_pad. rewrite pad_spec, as_chunks_parts by lia.
    rewrite handshake_H0. apply foldl_blocks; [apply handshake_block|apply parts_lengths|done]. }
  split; [done|]. split; [apply connections_sha256|].
  unfold hs_sha256_hex, rc_sha256_hex, rc_sha256. rewrite Hh, connections_words.
  apply concat_str_hex, hex_word.
Qed.

(** The peer pseudonym is the first half of the hexadecimal HMAC-SHA256
    (RFC 2104) of the domain and the value under the installation's key. *)
Theorem peer_pseudonym_is_hmac (key domain value : bytes) (Hkey : length key = 32%nat) :
  peer_pseudonym key domain value
  = take_bytes 32 (concat_str (hex_of 2 <$> Fips.hmac key (domain ++ value))).
Proof.
  unfold peer_pseudonym, rc_sha256_hex, hmac_outer, Fips.hmac.
  rewrite !xor_key_pad by lia. by rewrite !connections_sha256.
Qed.
Lemma peer_pseudonym_is_hmac_witness :
  length (replicate 32 11) = 32%nat
  ∧ peer_pseudonym (replicate 32 11) [] (bytes_of "Hi There")
    = take_bytes 32 (concat_str (hex_of 2 <$> Fips.hmac (replicate 32 11) ([] ++ bytes_of "Hi There"))).
Proof.
  split; [reflexivity|]. exact (peer_pseudonym_is_hmac (replicate 32 11) [] (bytes_of "Hi There") eq_refl).
Defined.

(** The standard's test vectors. *)
Example sha256_abc :
  hs_sha256_hex (bytes_of "abc") = "ba7816bf8f01cfea414140de5dae2223b00361a396177a9cb410ff61f20015ad".
Proof. vm_compute. reflexivity. Qed.
Example sha256_two_blocks :
  rc_sha256_hex (bytes_of "abcdbcdecdefdefgefghfghighijhijkijkljklmklmnlmnomnopnopq")
  = "248d6a61d20638b8e5c026930c3e6039a33ce45964ff2167f6ecedd419db06c1".
Proof. vm_compute. reflexivity. Qed.
