(* ===== verification/Float64.v ===== *)
(** * IEEE-754 binary64 values

    Rust's [f64] is the specification float of the Standard Library at
    precision 53 and maximal exponent 1024: every operation below is the
    correctly rounded one, and computes. *)
From Stdlib Require Import Ascii Floats.SpecFloat.
From S2P Require Import Prelude.

Abbreviation f64 := spec_float.

Definition f64_prec : Z := 53.
Definition f64_emax : Z := 1024.

(** [n as f64] for an integer [n]. *)
Definition f64_of_Z (z : Z) : f64 := binary_normalize f64_prec f64_emax z 0 false.
Definition f64_add : f64 → f64 → f64 := SFadd f64_prec f64_emax.
Definition f64_sub : f64 → f64 → f64 := SFsub f64_prec f64_emax.
Definition f64_mul : f64 → f64 → f64 := SFmul f64_prec f64_emax.
Definition f64_div : f64 → f64 → f64 := SFdiv f64_prec f64_emax.
Definition f64_abs : f64 → f64 := SFabs.
Definition f64_lt : f64 → f64 → bool := SFltb.
Definition f64_le : f64 → f64 → bool := SFleb.
Definition f64_eq : f64 → f64 → bool := SFeqb.
Definition f64_zero : f64 := S754_zero false.

(** The literal [m / 10^k]: both operands are exact for [m < 2^53], [k ≤ 22],
    so the division rounds the decimal value once. *)
Definition f64_lit (m : Z) (k : Z) : f64 := f64_div (f64_of_Z m) (f64_of_Z (10 ^ k)).

(** [f64::is_finite]. *)
Definition f64_is_finite (x : f64) : bool :=
  match x with S754_zero _ | S754_finite _ _ _ => true | _ => false end.

(** [(lo..=hi).contains(&x)]. *)
Definition f64_in (lo hi x : f64) : bool := f64_le lo x && f64_le x hi.

Example f64_lit_half : f64_lit 5 1 = S754_finite false 4503599627370496 (-53).
Proof. reflexivity. Qed.

(** ** Rounding and casts *)

Definition f64_is_nan (x : f64) : bool := match x with S754_nan => true | _ => false end.
(** [f64::max]. *)
Definition f64_max (a b : f64) : f64 := if f64_is_nan a || f64_lt a b then b else a.
(** [f64::min]. *)
Definition f64_min (a b : f64) : f64 := if f64_is_nan a || f64_lt b a then b else a.
(** [f64::round]: half away from zero. *)
Definition f64_round (x : f64) : f64 :=
  match x with
  | S754_finite s m e =>
      match e with
      | Zneg k => let q := (Zpos m + 2 ^ (Zpos k - 1)) / 2 ^ Zpos k in
                  binary_normalize f64_prec f64_emax (if s then - q else q) 0 s
      | _ => x
      end
  | _ => x
  end.
(** The integer part; what [as] makes of it at a width. *)
Definition f64_trunc (x : f64) : Z :=
  match x with
  | S754_finite s m e =>
      let q := match e with Zneg k => Zpos m / 2 ^ Zpos k | _ => Zpos m * 2 ^ e end in
      if s then - q else q
  | _ => 0
  end.
Definition i64_min : Z := - 2 ^ 63.
Definition i64_max : Z := 2 ^ 63 - 1.
Definition f64_as (lo hi : Z) (x : f64) : Z :=
  match x with
  | S754_nan => 0
  | S754_infinity s => if s then lo else hi
  | _ => Z.max lo (Z.min hi (f64_trunc x))
  end.
Definition as_i64_cast : f64 → Z := f64_as i64_min i64_max.
Definition as_usize : f64 → Z := f64_as 0 u64_max.
(** [i64] addition, wrapping as a release build does. *)
Definition add_i64 (a b : Z) : Z := wrap 64 (a + b + 2 ^ 63) - 2 ^ 63.
Definition sub_i64 (a b : Z) : Z := wrap 64 (a - b + 2 ^ 63) - 2 ^ 63.
Definition mul_i64 (a b : Z) : Z := wrap 64 (a * b + 2 ^ 63) - 2 ^ 63.
(** [iter().sum::<f64>()]. *)
Definition f64_sum (l : list f64) : f64 := fold_left f64_add l (S754_zero true).

Example f64_round_values :
  f64_round (f64_lit 25 1) = f64_of_Z 3 ∧ f64_round (f64_lit (-25) 1) = f64_of_Z (-3) ∧ f64_round (f64_lit 24 1) = f64_of_Z 2
  ∧ f64_round (f64_lit 4 1) = f64_zero ∧ f64_trunc (f64_lit (-25) 1) = -2.
Proof. by vm_compute. Qed.

(** ** Parsing *)

(** [str::parse::<f64>]: sign, digits with a point, exponent; or a name. *)
Fixpoint leading_digits (acc : Z) (count : Z) (s : string) : Z * Z * string :=
  match s with
  | EmptyString => (acc, count, EmptyString)
  | String c rest =>
      if is_ascii_digit c then leading_digits (10 * acc + (byte_val c - 48)) (count + 1) rest else (acc, count, s)
  end.
Definition exponent (s : string) : option Z :=
  match s with
  | EmptyString => Some 0
  | String c rest =>
      if Ascii.eqb c "e" || Ascii.eqb c "E" then
        let '(negative, rest) := match rest with
                                 | String "-" r => (true, r)
                                 | String "+" r => (false, r)
                                 | _ => (false, rest)
                                 end in
        let '(n, count, rest) := leading_digits 0 0 rest in
        if (count =? 0) || negb (is_empty rest) then None else Some (if negative : bool then - n else n)
      else None
  end.
(** [m * 10^e], rounded once. *)
Definition f64_of_decimal (negative : bool) (m e : Z) : f64 :=
  match m with
  | Zpos p =>
      match e with
      | Zneg k => SFdiv f64_prec f64_emax (S754_finite negative p 0) (S754_finite false (Pos.pow 10 k) 0)
      | _ => binary_normalize f64_prec f64_emax ((if negative then -1 else 1) * m * 10 ^ e) 0 negative
      end
  | _ => S754_zero negative
  end.
Definition parse_f64 (s : string) : option f64 :=
  let '(negative, body) := match s with
                           | String "-" r => (true, r)
                           | String "+" r => (false, r)
                           | _ => (false, s)
                           end in
  if eq_ignore_ascii_case body "inf" || eq_ignore_ascii_case body "infinity" then Some (S754_infinity negative)
  else if eq_ignore_ascii_case body "nan" then Some S754_nan
  else
    let '(whole, count, rest) := leading_digits 0 0 body in
    let '(m, places, rest) := match rest with
                              | String "." r => leading_digits whole 0 r
                              | _ => (whole, 0, rest)
                              end in
    if count + places =? 0 then None
    else let! e := exponent rest in Some (f64_of_decimal negative m (e - places)).

Example parse_f64_values :
  parse_f64 "60" = Some (f64_of_Z 60) ∧ parse_f64 "59.94" = Some (f64_lit 5994 2) ∧ parse_f64 "+.5e1" = Some (f64_of_Z 5)
  ∧ parse_f64 "1e400" = Some (S754_infinity false) ∧ parse_f64 "-0" = Some (S754_zero true)
  ∧ parse_f64 "." = None ∧ parse_f64 "1e" = None ∧ parse_f64 "6 0" = None.
Proof. by vm_compute. Qed.
