(* ===== verification/EsModel.v ===== *)
(** * eBPF documents ([ebpf/rigsignal-ebpf/src/es_model.rs])

    The record types of the two eBPF data streams, the probe budget, and the
    16-bucket latency histogram.  Machine integers are [Z]; the width of each
    field is stated where an operation depends on it. *)
From S2P Require Import Prelude Float64.

(** The Unicode tables behind [str::to_lowercase], [char::is_uppercase],
    [char::to_uppercase] and the [Debug] escaping of strings.  The ASCII part is fixed by laws, the
    tables themselves stay abstract. *)
Class Unicode := {
  uc_to_lowercase : string → string;
  uc_is_uppercase : string → bool;
  uc_debug : string → string;
  uc_char_uppercase : string → string;
  uc_lowercase_ascii s :
    all_bytes (λ c, byte_val c <? 128) s = true → uc_to_lowercase s = to_ascii_lowercase s;
  uc_uppercase_ascii c :
    (byte_val c <? 128) = true → uc_is_uppercase (str1 c) = is_ascii_upper c;
  uc_char_uppercase_ascii c :
    (byte_val c <? 128) = true → uc_char_uppercase (str1 c) = str1 (to_upper c);
}.

(** Tables that know ASCII only, to run the definitions on examples. *)
Program Definition ascii_unicode : Unicode := {|
  uc_to_lowercase := to_ascii_lowercase;
  uc_is_uppercase := char_is is_ascii_upper;
  uc_debug s := dq +:+ s +:+ dq;
  uc_char_uppercase := map_str to_upper |}.
Solve Obligations with done.

Section host.
Context `{Unicode}.

(** Canonicalize a hostname for the [host.name] dimension. *)
Definition normalize_hostname (value : string) : string :=
  let normalized := uc_to_lowercase (trim value) in
  if is_empty normalized then "unknown" else normalized.
End host.

(** The complete eBPF probe budget for one [(host, session)] series set. *)
Definition NAMED_PROBES : list string :=
  ["schedlatency"; "bio"; "gpu_sched"; "mem"; "futex"; "irq"; "vfs";
   "gpu_fence"; "gpu_submit"; "stutter_correlation"].

Definition is_named_probe (probe : string) : bool :=
  existsb (String.eqb probe) NAMED_PROBES.

(** ** Histogram *)

Record LatencyHistogram := {
  values : list Z;
  counts : list Z;
}.

Definition BOUNDARIES_US : list Z :=
  [1; 2; 4; 8; 16; 32; 64; 128; 256; 512; 1024; 2048; 4096; 8192; 16384; 32768].

Definition new_histogram : LatencyHistogram :=
  {| values := BOUNDARIES_US; counts := replicate 16 0 |}.

(** The index [record_ns] increments. *)
Definition bucket_of (wait_ns : Z) : nat :=
  let wait_us := wait_ns / 1000 in
  unwrap_or (position (λ b, wait_us <? b) BOUNDARIES_US) 15%nat.

(** Add a single observation (in nanoseconds) to the histogram. *)
Definition record_ns (h : LatencyHistogram) (wait_ns : Z) : LatencyHistogram :=
  {| values := values h;
     counts := alter (λ c, add_u64 c 1) (bucket_of wait_ns) (counts h) |}.

Definition histogram_is_empty (h : LatencyHistogram) : bool :=
  forallb (λ c, c =? 0) (counts h).

(** ** Probe payloads *)

Record RunqueueSnapshot := {
  rq_latency_histogram : LatencyHistogram;
  rq_latency_min_us : f64;
  rq_latency_max_us : f64;
  rq_latency_avg_us : f64;
  rq_event_count : Z;
}.

Record MigrationSnapshot := {
  total_count : Z;
  ccx_cross_count : Z;
}.

Record ThreadMetric := {
  tm_probe : string;
  tm_rank : Z;
  tm_comm : string;
  tm_tid : Z;
  tm_runqueue_min_us : f64;
  tm_runqueue_max_us : f64;
  tm_runqueue_avg_us : f64;
  tm_switch_count : Z;
  tm_migration_count : Z;
}.

Record BlockIoSnapshot := {
  bio_latency_histogram : LatencyHistogram;
  bio_latency_min_us : f64;
  bio_latency_max_us : f64;
  bio_latency_avg_us : f64;
  bio_event_count : Z;
  bio_bytes_total : Z;
}.

Record MemSnapshot := {
  page_fault_count : Z;
  page_fault_write : Z;
  direct_reclaim_count : Z;
}.

Record GpuSchedSnapshot := {
  gs_latency_histogram : LatencyHistogram;
  gs_latency_min_us : f64;
  gs_latency_max_us : f64;
  gs_latency_avg_us : f64;
  gs_event_count : Z;
}.

Record FutexSnapshot := {
  fx_latency_histogram : LatencyHistogram;
  fx_latency_min_us : f64;
  fx_latency_max_us : f64;
  fx_latency_avg_us : f64;
  fx_event_count : Z;
  contended_count : Z;
}.

Record IrqKindSnapshot := {
  ik_latency_histogram : LatencyHistogram;
  ik_latency_avg_us : f64;
  ik_event_count : Z;
}.

Record IrqSnapshot := {
  hard_irq : IrqKindSnapshot;
  softirq : IrqKindSnapshot;
}.

Record VfsOpSnapshot := {
  vo_latency_histogram : LatencyHistogram;
  vo_latency_avg_us : f64;
  vo_event_count : Z;
  vo_bytes_total : Z;
}.

Record VfsSnapshot := {
  vfs_read : VfsOpSnapshot;
  vfs_write : VfsOpSnapshot;
}.

Record GpuFenceSnapshot := {
  gf_latency_histogram : LatencyHistogram;
  gf_latency_min_us : f64;
  gf_latency_max_us : f64;
  gf_latency_avg_us : f64;
  gf_event_count : Z;
  blocked_count : Z;
}.

Record GpuSubmitSnapshot := {
  sub_event_count : Z;
}.

Record StutterCorrelation := {
  contributing_probes : list string;
  sched_max_us : f64;
  bio_max_us : f64;
  gpu_sched_max_us : f64;
  mem_pressure : bool;
  severity_score : Z;
}.

Record EbpfPayload := {
  probe : string;
  runqueue : option RunqueueSnapshot;
  migration : option MigrationSnapshot;
  bio : option BlockIoSnapshot;
  gpu_sched : option GpuSchedSnapshot;
  mem : option MemSnapshot;
  stutter : option StutterCorrelation;
  futex : option FutexSnapshot;
  irq : option IrqSnapshot;
  vfs : option VfsSnapshot;
  gpu_fence : option GpuFenceSnapshot;
  gpu_submit : option GpuSubmitSnapshot;
}.

(** ** Documents *)

Record DataStream := {
  ds_type : string;
  dataset : string;
  namespace : string;
}.

Definition default_data_stream : DataStream :=
  {| ds_type := "metrics"; dataset := "rigsignal.ebpf"; namespace := "default" |}.
Definition ebpf_thread : DataStream :=
  {| ds_type := "metrics"; dataset := "rigsignal.ebpf_thread"; namespace := "default" |}.

Record OsFields := { kernel : string }.
Record HostFields := { host_name : string; os : OsFields }.

Record SessionRef := { session_id : string }.
Record RigSignalFields := { rs_session : SessionRef; ebpf : EbpfPayload }.
Record RigSignalThreadFields := {
  rt_session : SessionRef;
  rt_ebpf_thread : ThreadMetric;
}.

(** [DateTime<Utc>] is an instant in nanoseconds. *)
Record EbpfMetricDoc := {
  md_timestamp : Z;
  md_data_stream : DataStream;
  md_rigsignal : RigSignalFields;
  md_host : HostFields;
}.

Record EbpfThreadDoc := {
  td_timestamp : Z;
  td_data_stream : DataStream;
  td_rigsignal : RigSignalThreadFields;
  td_host : HostFields;
}.

Inductive EbpfDocument :=
| Metric (doc : EbpfMetricDoc)
| Thread (doc : EbpfThreadDoc).

Definition index (d : EbpfDocument) : string :=
  match d with
  | Metric _ => "metrics-rigsignal.ebpf-default"
  | Thread _ => "metrics-rigsignal.ebpf_thread-default"
  end.

Definition as_metric (d : EbpfDocument) : option EbpfMetricDoc :=
  match d with Metric doc => Some doc | Thread _ => None end.

Definition document_probe (d : EbpfDocument) : string :=
  match d with
  | Metric doc => probe (ebpf (md_rigsignal doc))
  | Thread doc => tm_probe (rt_ebpf_thread (td_rigsignal doc))
  end.

Definition has_named_probe (d : EbpfDocument) : bool := is_named_probe (document_probe d).

(** The [host] object as serialized: [host.name] is canonicalized on the way out. *)
Section serialize_host.
Context `{Unicode}.
Definition serialize_host_fields (h : HostFields) : string * string :=
  (normalize_hostname (host_name h), kernel (os h)).
End serialize_host.

(** ** The histogram's behaviour *)

Lemma length_record_ns h ns : length (counts (record_ns h ns)) = length (counts h).
Proof. apply length_alter. Qed.

Lemma bucket_of_lt ns : (bucket_of ns < 16)%nat.
Proof.
  unfold bucket_of. destruct (position _ _) eqn:E; simpl; [|lia].
  by apply position_lt in E.
Qed.

(** The lower and upper bound, in microseconds, of bucket [i]. *)
Definition bucket_lo (i : nat) : Z := match i with O => 0 | S j => 2 ^ Z.of_nat j end.
Definition bucket_hi (i : nat) : Z := 2 ^ Z.of_nat i.

Lemma BOUNDARIES_US_lookup i : (i < 16)%nat → BOUNDARIES_US !! i = Some (bucket_hi i).
Proof. intros Hi. do 16 (destruct i as [|i]; [done|]). lia. Qed.

Lemma bucket_of_position ns i :
  position (λ b, ns / 1000 <? b) BOUNDARIES_US = Some i → bucket_of ns = i.
Proof. unfold bucket_of. by intros ->. Qed.

(** A histogram built by [record_ns] from a list of observations. *)
Definition histogram_of (obs : list Z) : LatencyHistogram :=
  foldl record_ns new_histogram obs.

Lemma length_histogram_of_from obs h :
  length (counts (foldl record_ns h obs)) = length (counts h).
Proof.
  revert h. induction obs as [|o obs IH]; intros h; simpl; [done|].
  by rewrite IH, length_record_ns.
Qed.

Lemma values_foldl obs h : values (foldl record_ns h obs) = values h.
Proof. revert h. induction obs as [|o obs IH]; intros h; simpl; [done|]. by rewrite IH. Qed.

(** What bucket [i] holds after a run of observations, from any start. *)
Lemma counts_foldl obs h i c :
  counts h !! i = Some c → 0 ≤ c →
  c + Z.of_nat (length obs) ≤ u64_max →
  counts (foldl record_ns h obs) !! i
  = Some (c + Z.of_nat (count (λ o, Nat.eqb (bucket_of o) i) obs)).
Proof.
  revert h c. induction obs as [|o obs IH]; intros h c Hc Hpos Hmax; simpl in *.
  - rewrite Hc. f_equal. unfold count. simpl. lia.
  - rewrite count_cons. destruct (Nat.eqb_spec (bucket_of o) i) as [<-|Hne].
    + rewrite (IH _ (c + 1)); [f_equal; lia| |lia|lia].
      simpl. rewrite list_lookup_alter_eq, Hc. simpl. f_equal. apply add_u64_small.
      unfold u64_max in *. lia.
    + rewrite (IH _ c); [f_equal; lia| |lia|lia].
      simpl. by rewrite list_lookup_alter_ne.
Qed.

Lemma bucket_hi_mono i j : (i ≤ j)%nat → bucket_hi i ≤ bucket_hi j.
Proof. intros. apply Z.pow_le_mono_r; lia. Qed.

Lemma bucket_of_spec ns (i : nat) :
  0 ≤ ns → (i < 16)%nat →
  bucket_of ns = i ↔ bucket_lo i ≤ ns / 1000 ∧ (ns / 1000 < bucket_hi i ∨ i = 15%nat).
Proof.
  intros Hns Hi. pose proof (Z.div_pos ns 1000 Hns ltac:(lia)) as Hus.
  assert (Hlo : ∀ j : nat, (0 < j)%nat → bucket_lo j = bucket_hi (pred j)) by (by intros [|j]; [lia|]).
  unfold bucket_of. destruct (position _ _) as [k|] eqn:E; simpl.
  - pose proof (position_lt _ _ _ E) as Hk. simpl in Hk.
    apply position_Some in E as (b & Hb & Hlt & Hmin).
    rewrite BOUNDARIES_US_lookup in Hb by done. simplify_eq. apply Z.ltb_lt in Hlt.
    assert (Hge : ∀ j, (j < k)%nat → bucket_hi j ≤ ns / 1000).
    { intros j Hj. specialize (Hmin j _ Hj (BOUNDARIES_US_lookup j ltac:(lia))).
      by apply Z.ltb_ge in Hmin. }
    split.
    + intros <-. split; [|by left]. destruct k as [|k]; [done|]. rewrite Hlo by lia. apply Hge. lia.
    + intros [Hl Hr]. destruct (decide (i = k)) as [|Hne]; [done|].
      destruct (decide (i < k)%nat) as [Hik|Hik]; [specialize (Hge i Hik); lia|].
      rewrite Hlo in Hl by lia. pose proof (bucket_hi_mono k (pred i) ltac:(lia)). lia.
  - apply position_None in E.
    assert (Hge : ∀ j, (j < 16)%nat → bucket_hi j ≤ ns / 1000).
    { intros j Hj. apply (Forall_lookup_1 _ _ j (bucket_hi j)) in E;
        [by apply Z.ltb_ge in E|by apply BOUNDARIES_US_lookup]. }
    split.
    + intros <-. split; [|by right]. rewrite Hlo by lia. apply Hge. simpl. lia.
    + intros [_ [Hr|Hr]]; [|lia]. specialize (Hge i Hi). lia.
Qed.

(** [record_ns] increments exactly one of the sixteen counters, the one
    whose range holds the latency in microseconds: bucket 0 is [0, 1), bucket
    [i] is [2^(i-1), 2^i), and the last bucket is open above.  Every other
    counter and the boundaries keep their value. *)
Theorem record_ns_bucket (h : LatencyHistogram) (ns : Z) (i : nat) (c : Z)
    (Hns : 0 ≤ ns) (Hc : counts h !! i = Some c) (Hlen : length (counts h) = 16%nat) :
  counts (record_ns h ns) !! i
  = Some (if bool_decide (bucket_lo i ≤ ns / 1000 ∧ (ns / 1000 < bucket_hi i ∨ i = 15%nat))
          then add_u64 c 1 else c)
  ∧ values (record_ns h ns) = values h.
Proof.
  split; [|done]. pose proof (lookup_lt_Some _ _ _ Hc) as Hi. rewrite Hlen in Hi.
  simpl. destruct (decide (bucket_of ns = i)) as [Heq|Hne].
  - subst i. rewrite list_lookup_alter_eq, Hc. simpl. rewrite bool_decide_true; [done|].
    by apply (bucket_of_spec ns).
  - rewrite list_lookup_alter_ne by done. rewrite Hc, bool_decide_false; [done|].
    by rewrite <-bucket_of_spec.
Qed.

Lemma record_ns_bucket_witness :
  counts (record_ns new_histogram 5000) !! 3%nat = Some 1
  ∧ values (record_ns new_histogram 5000) = BOUNDARIES_US.
Proof. apply (record_ns_bucket new_histogram 5000 3 0); [lia|reflexivity|reflexivity]. Defined.
