(* ===== verification/Json.v ===== *)
(** * JSON values ([serde_json::Value])

    The value type every component builds its documents with.  An object is
    [serde_json]'s map without the [preserve_order] feature: members in byte
    order of their names, each name once. *)
From Stdlib Require Import Ascii.
From S2P Require Import Prelude Float64.

#[local] Set Warnings "-register-all".

(** ** Values *)

Inductive number :=
| PosInt (n : Z)
| NegInt (n : Z)
| Float (f : f64).

Inductive json :=
| JNull
| JBool (b : bool)
| JNumber (n : number)
| JString (s : string)
| JArray (l : list json)
| JObject (l : list (string * json)).

(** [serde_json::to_value] of an [f64], of an unsigned integer. *)
Definition json_f64 (f : f64) : json := if f64_is_finite f then JNumber (Float f) else JNull.
Definition json_u64 (n : Z) : json := JNumber (PosInt n).
Definition json_opt {A : Type} (f : A → json) (o : option A) : json :=
  match o with Some a => f a | None => JNull end.

(** ** Access *)

(** [Map::get]; [Value::get] with a string key. *)
Definition map_get (key : string) (members : list (string * json)) : option json :=
  snd <$> List.find (λ m, String.eqb (fst m) key) members.
Definition json_get (key : string) (v : json) : option json :=
  match v with JObject members => map_get key members | _ => None end.
Definition as_str (v : json) : option string := match v with JString s => Some s | _ => None end.
Definition as_bool (v : json) : option bool := match v with JBool b => Some b | _ => None end.
Definition as_array (v : json) : option (list json) := match v with JArray l => Some l | _ => None end.
Definition as_object (v : json) : option json := match v with JObject _ => Some v | _ => None end.
Definition as_u64 (v : json) : option Z := match v with JNumber (PosInt n) => Some n | _ => None end.
Definition is_null (v : json) : bool := match v with JNull => true | _ => false end.

(** [o.and_then(f)]. *)
Definition and_then {A B : Type} (o : option A) (f : A → option B) : option B :=
  match o with Some a => f a | None => None end.

(** ** Building *)

(** [Map::insert]: replaces the member of that name, or adds it in order. *)
Fixpoint map_insert (key : string) (v : json) (members : list (string * json)) : list (string * json) :=
  match members with
  | [] => [(key, v)]
  | m :: rest =>
      match String.compare key (fst m) with
      | Lt => (key, v) :: members
      | Eq => (key, v) :: rest
      | Gt => m :: map_insert key v rest
      end
  end.
(** [Map::retain]. *)
Definition map_retain (keep : string → bool) (members : list (string * json)) : list (string * json) :=
  List.filter (λ m, keep (fst m)) members.
(** The members inserted one after another, as [json!] and repeated
    [insert]s do. *)
Definition map_of (members : list (string * json)) : list (string * json) :=
  foldl (λ acc m, map_insert (fst m) (snd m) acc) [] members.
Definition object (members : list (string * json)) : json := JObject (map_of members).
(** [if let Some(a) = o { map.insert(name, f(a)); }]. *)
Definition when_some {A : Type} (name : string) (f : A → json) (o : option A) : list (string * json) :=
  match o with Some a => [(name, f a)] | None => [] end.

(** ** Laws *)

Lemma map_get_insert_eq key v members : map_get key (map_insert key v members) = Some v.
Proof.
  unfold map_get. induction members as [|[k w] rest IH]; simpl.
  - by rewrite String.eqb_refl.
  - destruct (String.compare key k) eqn:E; simpl; [by rewrite String.eqb_refl..|].
    destruct (String.eqb_spec k key) as [->|]; [|exact IH].
    pose proof (String.compare_antisym key key) as H. rewrite E in H. done.
Qed.

Lemma map_get_insert_ne key key' v members :
  key' ≠ key → map_get key' (map_insert key v members) = map_get key' members.
Proof.
  intros Hne. unfold map_get. induction members as [|[k w] rest IH]; simpl.
  - by destruct (String.eqb_spec key key') as [->|].
  - destruct (String.compare key k) eqn:E; simpl.
    + apply String.compare_eq_iff in E as <-. by destruct (String.eqb_spec key key') as [->|].
    + by destruct (String.eqb_spec key key') as [->|].
    + by destruct (String.eqb k key').
Qed.

Lemma map_get_retain keep key members :
  map_get key (map_retain keep members) = if keep key then map_get key members else None.
Proof.
  unfold map_get, map_retain. induction members as [|[k v] rest IH]; simpl; [by destruct (keep key)|].
  destruct (keep k) eqn:E; simpl; destruct (String.eqb_spec k key) as [->|Hne]; simpl; rewrite ?E; try done.
  rewrite IH. by rewrite E.
Qed.

Lemma map_get_snoc key members m :
  map_get key (map_of (members ++ [m])) = if String.eqb (fst m) key then Some (snd m) else map_get key (map_of members).
Proof.
  unfold map_of. rewrite foldl_app. simpl. destruct m as [k v]. simpl.
  destruct (String.eqb_spec k key) as [->|Hne]; [apply map_get_insert_eq|].
  by apply map_get_insert_ne.
Qed.

(** ** A text form for examples

    Maps of texts and numbers, written as the bits of their code; enough to run
    on examples what depends on a [serde_json] that reads back what it wrote. *)

Fixpoint bits (p : positive) : string :=
  match p with
  | xI q => String "I" (bits q)
  | xO q => String "O" (bits q)
  | xH => "H"
  end.
Fixpoint unbits (s : string) : option positive :=
  match s with
  | String "I" r => xI <$> unbits r
  | String "O" r => xO <$> unbits r
  | "H" => Some xH
  | _ => None
  end.

Definition flat (v : json) : option (string + Z) :=
  match v with JString s => Some (inl s) | JNumber (PosInt n) => Some (inr n) | _ => None end.
Definition unflat (x : string + Z) : json := match x with inl s => JString s | inr n => json_u64 n end.
Definition flat_members (m : list (string * json)) : option (list (string * (string + Z))) :=
  mapM (λ kv, pair (fst kv) <$> flat (snd kv)) m.
Definition print_flat (v : json) : result string string :=
  match v with
  | JObject m => match flat_members m with Some l => Ok (bits (encode l)) | None => Err "not flat" end
  | _ => Err "not a map"
  end.
Definition parse_flat (s : string) : option json :=
  let! p := unbits s in
  let! l := decode (A := list (string * (string + Z))) p in
  Some (JObject ((λ kv, (fst kv, unflat (snd kv))) <$> l)).

Lemma unbits_bits p : unbits (bits p) = Some p.
Proof. induction p as [p IH|p IH|]; simpl; rewrite ?IH; done. Qed.
Lemma flat_members_unflat m l :
  flat_members m = Some l → (λ kv, (fst kv, unflat (snd kv))) <$> l = m.
Proof.
  revert l. induction m as [|[k v] m IH]; intros l; unfold flat_members; simpl; [by intros [= <-]|].
  destruct (flat v) as [x|] eqn:E; simpl; [|done]. fold (flat_members m).
  destruct (flat_members m) as [l'|]; simpl; [|done]. intros [= <-]. simpl. f_equal; [|by apply IH].
  f_equal. destruct v as [| |[n| |]| | |]; simplify_eq/=; done.
Qed.
Lemma parse_print_flat v s : print_flat v = Ok s → parse_flat s = Some v.
Proof.
  unfold print_flat, parse_flat. destruct v as [| | | | |m]; try done.
  destruct (flat_members m) as [l|] eqn:E; [|done]. intros [= <-].
  rewrite unbits_bits, decode_encode. by rewrite (flat_members_unflat m l E).
Qed.
Lemma print_flat_total m :
  Forall (λ kv, match snd kv with JString _ | JNumber (PosInt _) => True | _ => False end) m →
  ∃ p, print_flat (JObject m) = Ok (bits p).
Proof.
  intros Hm. unfold print_flat. assert (∃ l, flat_members m = Some l) as [l ->]; [|by eexists].
  induction Hm as [|[k v] m Hv _ [l IH]]; [by exists []|]. unfold flat_members in *. simpl in *. rewrite IH.
  destruct v as [| |[n| |]| | |]; simpl in *; try done; by eexists.
Qed.
Lemma bits_text p : from_utf8_lossy (bits p) = bits p ∧ is_empty (trim (bits p)) = false.
Proof.
  assert (Hs : all_bytes is_solid (bits p) = true) by (induction p; simpl; by rewrite ?IHp).
  split.
  - apply lossy_ascii. revert Hs. apply all_bytes_impl. by intros c [? _]%andb_true_iff.
  - rewrite trim_solid by done. by destruct p.
Qed.
