(* ===== verification/Aggregator.v ===== *)
(** * Window aggregators ([ebpf/rigsignal-ebpf/src/aggregator.rs])

    Every aggregator but the scheduler's: a state with the events of the
    current window, [push], and a [flush] that consumes the window and
    produces at most one document.  [Utc::now()] is an argument of [flush].
    The interface [WindowAggregator] is what the daemon's tick relies on. *)
From S2P Require Import Prelude Float64 EsModel.

(** ** The interface *)

(** An aggregator with state [S], raw events [E], documents [D] (a probe's
    [collect] makes them [EbpfDocument]s). *)
Class WindowAggregator (S E : Type) := {
  wa_probe : string;
  wa_fresh : S → S;                          (** the same aggregator, empty window *)
  wa_push : S → E → S;
  wa_flush : S → Z → string → list EbpfDocument * S;
  (** [flush] takes the whole window. *)
  wa_flush_state s now sid : snd (wa_flush s now sid) = wa_fresh s;
  (** An empty window produces nothing. *)
  wa_flush_empty s now sid : fst (wa_flush (wa_fresh s) now sid) = [];
  wa_fresh_push s e : wa_fresh (wa_push s e) = wa_fresh s;
  (** At most one aggregate document, and every document names this probe. *)
  wa_flush_metric s now sid :
    (length (filter_map as_metric (fst (wa_flush s now sid))) ≤ 1)%nat;
  wa_flush_probe s now sid d :
    d ∈ fst (wa_flush s now sid) → document_probe d = wa_probe;
}.

(** A whole window: push every event, then flush. *)
Definition run_window {S E} `{WindowAggregator S E}
    (s : S) (evs : list E) (now : Z) (sid : string) : list EbpfDocument * S :=
  wa_flush (foldl wa_push (wa_fresh s) evs) now sid.

(** ** Shared accumulation of a latency window *)

Record LatencyAccum := {
  la_histogram : LatencyHistogram;
  la_total_ns : Z;
  la_min_ns : Z;
  la_max_ns : Z;
}.

Definition lat_init : LatencyAccum :=
  {| la_histogram := new_histogram; la_total_ns := 0; la_min_ns := u64_max; la_max_ns := 0 |}.

Definition lat_step (a : LatencyAccum) (ns : Z) : LatencyAccum :=
  {| la_histogram := record_ns (la_histogram a) ns;
     la_total_ns := sat_add_u64 (la_total_ns a) ns;
     la_min_ns := Z.min (la_min_ns a) ns;
     la_max_ns := Z.max (la_max_ns a) ns |}.

(** [ns as f64 / 1000.0]. *)
Definition ns_to_us (ns : Z) : f64 := f64_div (f64_of_Z ns) (f64_of_Z 1000).
(** The reported minimum: the sentinel [u64::MAX] is reported as 0. *)
Definition min_us (min_ns : Z) : f64 := if min_ns =? u64_max then f64_zero else ns_to_us min_ns.
(** [(total as f64 / 1000.0) / n as f64]. *)
Definition avg_us (total_ns n : Z) : f64 := f64_div (ns_to_us total_ns) (f64_of_Z n).
(** The guarded form used where the count of a kind may be zero. *)
Definition avg_us_or_zero (total_ns n : Z) : f64 :=
  if 0 <? n then avg_us total_ns n else f64_zero.

Definition metric_doc (now : Z) (host kernel_version sid : string) (p : EbpfPayload) : EbpfMetricDoc :=
  {| md_timestamp := now;
     md_data_stream := default_data_stream;
     md_host := {| host_name := host; os := {| kernel := kernel_version |} |};
     md_rigsignal := {| rs_session := {| session_id := sid |}; ebpf := p |} |}.

(** ** Block I/O *)

Record RawBioEvent := { be_latency_ns : Z; be_bytes : Z }.
Record BioAggregator := {
  bio_events : list RawBioEvent; bio_host_name : string; bio_kernel_version : string }.

Definition bio_new (host kernel_version : string) : BioAggregator :=
  {| bio_events := []; bio_host_name := host; bio_kernel_version := kernel_version |}.
Definition bio_push (s : BioAggregator) (e : RawBioEvent) : BioAggregator :=
  {| bio_events := bio_events s ++ [e];
     bio_host_name := bio_host_name s; bio_kernel_version := bio_kernel_version s |}.

Definition bio_step (acc : LatencyAccum * Z) (ev : RawBioEvent) : LatencyAccum * Z :=
  (lat_step (fst acc) (be_latency_ns ev), sat_add_u64 (snd acc) (be_bytes ev)).

Definition bio_flush (s : BioAggregator) (now : Z) (sid : string)
  : option EbpfMetricDoc * BioAggregator :=
  let events := bio_events s in
  let s' := bio_new (bio_host_name s) (bio_kernel_version s) in
  match events with
  | [] => (None, s')
  | _ =>
    let '(acc, bytes_total) := foldl bio_step (lat_init, 0) events in
    let event_count := Z.of_nat (length events) in
    (Some (metric_doc now (bio_host_name s) (bio_kernel_version s) sid {|
       probe := "bio"; runqueue := None; migration := None; gpu_sched := None; mem := None;
       bio := Some {|
         bio_latency_histogram := la_histogram acc;
         bio_latency_min_us := min_us (la_min_ns acc);
         bio_latency_max_us := ns_to_us (la_max_ns acc);
         bio_latency_avg_us := avg_us (la_total_ns acc) event_count;
         bio_event_count := event_count;
         bio_bytes_total := bytes_total |};
       stutter := None; futex := None; irq := None; vfs := None;
       gpu_fence := None; gpu_submit := None |}), s')
  end.

(** ** GPU scheduler *)

Record RawGpuSchedEvent := { ge_latency_ns : Z }.
Record GpuAggregator := {
  gpu_events : list RawGpuSchedEvent; gpu_host_name : string; gpu_kernel_version : string }.

Definition gpu_new (host kernel_version : string) : GpuAggregator :=
  {| gpu_events := []; gpu_host_name := host; gpu_kernel_version := kernel_version |}.
Definition gpu_push (s : GpuAggregator) (e : RawGpuSchedEvent) : GpuAggregator :=
  {| gpu_events := gpu_events s ++ [e];
     gpu_host_name := gpu_host_name s; gpu_kernel_version := gpu_kernel_version s |}.

Definition gpu_flush (s : GpuAggregator) (now : Z) (sid : string)
  : option EbpfMetricDoc * GpuAggregator :=
  let events := gpu_events s in
  let s' := gpu_new (gpu_host_name s) (gpu_kernel_version s) in
  match events with
  | [] => (None, s')
  | _ =>
    let acc := foldl (λ a ev, lat_step a (ge_latency_ns ev)) lat_init events in
    let event_count := Z.of_nat (length events) in
    (Some (metric_doc now (gpu_host_name s) (gpu_kernel_version s) sid {|
       probe := "gpu_sched"; runqueue := None; migration := None; bio := None;
       gpu_sched := Some {|
         gs_latency_histogram := la_histogram acc;
         gs_latency_min_us := min_us (la_min_ns acc);
         gs_latency_max_us := ns_to_us (la_max_ns acc);
         gs_latency_avg_us := avg_us (la_total_ns acc) event_count;
         gs_event_count := event_count |};
       mem := None; stutter := None; futex := None; irq := None; vfs := None;
       gpu_fence := None; gpu_submit := None |}), s')
  end.

(** ** Memory pressure *)

Definition MEM_FAULT : Z := 0.
Definition MEM_RECLAIM : Z := 1.

Record RawMemEvent := { me_event_type : Z; me_is_write : Z }.
Record MemAggregator := {
  mem_events : list RawMemEvent; mem_host_name : string; mem_kernel_version : string }.

Definition mem_new (host kernel_version : string) : MemAggregator :=
  {| mem_events := []; mem_host_name := host; mem_kernel_version := kernel_version |}.
Definition mem_push (s : MemAggregator) (e : RawMemEvent) : MemAggregator :=
  {| mem_events := mem_events s ++ [e];
     mem_host_name := mem_host_name s; mem_kernel_version := mem_kernel_version s |}.

Definition mem_step (m : MemSnapshot) (ev : RawMemEvent) : MemSnapshot :=
  if me_event_type ev =? MEM_FAULT then
    {| page_fault_count := add_u64 (page_fault_count m) 1;
       page_fault_write :=
         if negb (me_is_write ev =? 0) then add_u64 (page_fault_write m) 1 else page_fault_write m;
       direct_reclaim_count := direct_reclaim_count m |}
  else if me_event_type ev =? MEM_RECLAIM then
    {| page_fault_count := page_fault_count m;
       page_fault_write := page_fault_write m;
       direct_reclaim_count := add_u64 (direct_reclaim_count m) 1 |}
  else m.

Definition mem_flush (s : MemAggregator) (now : Z) (sid : string)
  : option EbpfMetricDoc * MemAggregator :=
  let events := mem_events s in
  let s' := mem_new (mem_host_name s) (mem_kernel_version s) in
  match events with
  | [] => (None, s')
  | _ =>
    let m := foldl mem_step
      {| page_fault_count := 0; page_fault_write := 0; direct_reclaim_count := 0 |} events in
    (Some (metric_doc now (mem_host_name s) (mem_kernel_version s) sid {|
       probe := "mem"; runqueue := None; migration := None; bio := None; gpu_sched := None;
       mem := Some m;
       stutter := None; futex := None; irq := None; vfs := None;
       gpu_fence := None; gpu_submit := None |}), s')
  end.

(** ** Futex *)

Definition CONTENDED_NS : Z := 1000000.

Record RawFutexEvent := { fe_latency_ns : Z }.
Record FutexAggregator := {
  futex_events : list RawFutexEvent; futex_host_name : string; futex_kernel_version : string }.

Definition futex_new (host kernel_version : string) : FutexAggregator :=
  {| futex_events := []; futex_host_name := host; futex_kernel_version := kernel_version |}.
Definition futex_push (s : FutexAggregator) (e : RawFutexEvent) : FutexAggregator :=
  {| futex_events := futex_events s ++ [e];
     futex_host_name := futex_host_name s; futex_kernel_version := futex_kernel_version s |}.

(** One iteration of the loop: the latencies, and the events over [limit]. *)
Definition over_step (limit : Z) (acc : LatencyAccum * Z) (ns : Z) : LatencyAccum * Z :=
  (lat_step (fst acc) ns, if limit <? ns then add_u64 (snd acc) 1 else snd acc).

Definition futex_flush (s : FutexAggregator) (now : Z) (sid : string)
  : option EbpfMetricDoc * FutexAggregator :=
  let events := futex_events s in
  let s' := futex_new (futex_host_name s) (futex_kernel_version s) in
  match events with
  | [] => (None, s')
  | _ =>
    let '(acc, contended) :=
      foldl (over_step CONTENDED_NS) (lat_init, 0) (map fe_latency_ns events) in
    let event_count := Z.of_nat (length events) in
    (Some (metric_doc now (futex_host_name s) (futex_kernel_version s) sid {|
       probe := "futex"; runqueue := None; migration := None; bio := None; gpu_sched := None;
       mem := None; stutter := None; irq := None; vfs := None; gpu_fence := None;
       gpu_submit := None;
       futex := Some {|
         fx_latency_histogram := la_histogram acc;
         fx_latency_min_us := min_us (la_min_ns acc);
         fx_latency_max_us := ns_to_us (la_max_ns acc);
         fx_latency_avg_us := avg_us (la_total_ns acc) event_count;
         fx_event_count := event_count;
         contended_count := contended |} |}), s')
  end.

(** ** IRQ *)

Definition IRQ_KIND_HARD : Z := 0.
Definition IRQ_KIND_SOFT : Z := 1.

Record RawIrqEvent := { ie_latency_ns : Z; ie_kind : Z }.
Record IrqAggregator := {
  irq_events : list RawIrqEvent; irq_host_name : string; irq_kernel_version : string }.

Definition irq_new (host kernel_version : string) : IrqAggregator :=
  {| irq_events := []; irq_host_name := host; irq_kernel_version := kernel_version |}.
Definition irq_push (s : IrqAggregator) (e : RawIrqEvent) : IrqAggregator :=
  {| irq_events := irq_events s ++ [e];
     irq_host_name := irq_host_name s; irq_kernel_version := irq_kernel_version s |}.

(** Histogram, saturating total and count of one kind of event. *)
Record KindAccum := { ka_hist : LatencyHistogram; ka_total_ns : Z; ka_count : Z }.
Definition kind_init : KindAccum :=
  {| ka_hist := new_histogram; ka_total_ns := 0; ka_count := 0 |}.
Definition kind_step (a : KindAccum) (ns : Z) : KindAccum :=
  {| ka_hist := record_ns (ka_hist a) ns;
     ka_total_ns := sat_add_u64 (ka_total_ns a) ns;
     ka_count := add_u64 (ka_count a) 1 |}.

(** The two-way dispatch of the IRQ and VFS loops; other kinds are ignored. *)
Definition two_kind_step (k0 k1 : Z) (acc : KindAccum * KindAccum) (ev : Z * Z)
  : KindAccum * KindAccum :=
  let '(ns, kind) := ev in
  if kind =? k0 then (kind_step (fst acc) ns, snd acc)
  else if kind =? k1 then (fst acc, kind_step (snd acc) ns)
  else acc.

Definition irq_flush (s : IrqAggregator) (now : Z) (sid : string)
  : option EbpfMetricDoc * IrqAggregator :=
  let events := irq_events s in
  let s' := irq_new (irq_host_name s) (irq_kernel_version s) in
  match events with
  | [] => (None, s')
  | _ =>
    let '(hard, soft) :=
      foldl (two_kind_step IRQ_KIND_HARD IRQ_KIND_SOFT) (kind_init, kind_init)
        (map (λ ev, (ie_latency_ns ev, ie_kind ev)) events) in
    (Some (metric_doc now (irq_host_name s) (irq_kernel_version s) sid {|
       probe := "irq"; runqueue := None; migration := None; bio := None; gpu_sched := None;
       mem := None; stutter := None; futex := None; vfs := None; gpu_fence := None;
       gpu_submit := None;
       irq := Some {|
         hard_irq := {|
           ik_latency_histogram := ka_hist hard;
           ik_latency_avg_us := avg_us_or_zero (ka_total_ns hard) (ka_count hard);
           ik_event_count := ka_count hard |};
         softirq := {|
           ik_latency_histogram := ka_hist soft;
           ik_latency_avg_us := avg_us_or_zero (ka_total_ns soft) (ka_count soft);
           ik_event_count := ka_count soft |} |} |}), s')
  end.

(** ** VFS *)

Definition VFS_OP_READ : Z := 0.
Definition VFS_OP_WRITE : Z := 1.

Record RawVfsEvent := { ve_latency_ns : Z; ve_op : Z }.
Record VfsAggregator := {
  vfs_events : list RawVfsEvent; vfs_host_name : string; vfs_kernel_version : string }.

Definition vfs_new (host kernel_version : string) : VfsAggregator :=
  {| vfs_events := []; vfs_host_name := host; vfs_kernel_version := kernel_version |}.
Definition vfs_push (s : VfsAggregator) (e : RawVfsEvent) : VfsAggregator :=
  {| vfs_events := vfs_events s ++ [e];
     vfs_host_name := vfs_host_name s; vfs_kernel_version := vfs_kernel_version s |}.

Definition vfs_flush (s : VfsAggregator) (now : Z) (sid : string)
  : option EbpfMetricDoc * VfsAggregator :=
  let events := vfs_events s in
  let s' := vfs_new (vfs_host_name s) (vfs_kernel_version s) in
  match events with
  | [] => (None, s')
  | _ =>
    let '(rd, wr) :=
      foldl (two_kind_step VFS_OP_READ VFS_OP_WRITE) (kind_init, kind_init)
        (map (λ ev, (ve_latency_ns ev, ve_op ev)) events) in
    (Some (metric_doc now (vfs_host_name s) (vfs_kernel_version s) sid {|
       probe := "vfs"; runqueue := None; migration := None; bio := None; gpu_sched := None;
       mem := None; stutter := None; futex := None; irq := None; gpu_fence := None;
       gpu_submit := None;
       vfs := Some {|
         vfs_read := {|
           vo_latency_histogram := ka_hist rd;
           vo_latency_avg_us := avg_us_or_zero (ka_total_ns rd) (ka_count rd);
           vo_event_count := ka_count rd;
           vo_bytes_total := 0 |};
         vfs_write := {|
           vo_latency_histogram := ka_hist wr;
           vo_latency_avg_us := avg_us_or_zero (ka_total_ns wr) (ka_count wr);
           vo_event_count := ka_count wr;
           vo_bytes_total := 0 |} |} |}), s')
  end.

(** ** GPU fence *)

Definition BLOCKED_NS : Z := 1000000.

Record RawGpuFenceEvent := { fen_latency_ns : Z }.
Record GpuFenceAggregator := {
  fence_events : list RawGpuFenceEvent; fence_host_name : string; fence_kernel_version : string }.

Definition fence_new (host kernel_version : string) : GpuFenceAggregator :=
  {| fence_events := []; fence_host_name := host; fence_kernel_version := kernel_version |}.
Definition fence_push (s : GpuFenceAggregator) (e : RawGpuFenceEvent) : GpuFenceAggregator :=
  {| fence_events := fence_events s ++ [e];
     fence_host_name := fence_host_name s; fence_kernel_version := fence_kernel_version s |}.

Definition fence_flush (s : GpuFenceAggregator) (now : Z) (sid : string)
  : option EbpfMetricDoc * GpuFenceAggregator :=
  let events := fence_events s in
  let s' := fence_new (fence_host_name s) (fence_kernel_version s) in
  match events with
  | [] => (None, s')
  | _ =>
    let '(acc, blocked) :=
      foldl (over_step BLOCKED_NS) (lat_init, 0) (map fen_latency_ns events) in
    let event_count := Z.of_nat (length events) in
    (Some (metric_doc now (fence_host_name s) (fence_kernel_version s) sid {|
       probe := "gpu_fence"; runqueue := None; migration := None; bio := None; gpu_sched := None;
       mem := None; stutter := None; futex := None; irq := None; vfs := None; gpu_submit := None;
       gpu_fence := Some {|
         gf_latency_histogram := la_histogram acc;
         gf_latency_min_us := min_us (la_min_ns acc);
         gf_latency_max_us := ns_to_us (la_max_ns acc);
         gf_latency_avg_us := avg_us (la_total_ns acc) event_count;
         gf_event_count := event_count;
         blocked_count := blocked |} |}), s')
  end.

(** ** GPU submit: a counter, no event list *)

Record RawGpuSubmitEvent := { sub_timestamp_ns : Z }.
Record GpuSubmitAggregator := {
  sub_count : Z; sub_host_name : string; sub_kernel_version : string }.

Definition submit_new (host kernel_version : string) : GpuSubmitAggregator :=
  {| sub_count := 0; sub_host_name := host; sub_kernel_version := kernel_version |}.
Definition submit_push (s : GpuSubmitAggregator) (_ : RawGpuSubmitEvent) : GpuSubmitAggregator :=
  {| sub_count := add_u64 (sub_count s) 1;
     sub_host_name := sub_host_name s; sub_kernel_version := sub_kernel_version s |}.
Definition submit_flush (s : GpuSubmitAggregator) (now : Z) (sid : string)
  : option EbpfMetricDoc * GpuSubmitAggregator :=
  let count := sub_count s in
  let s' := submit_new (sub_host_name s) (sub_kernel_version s) in
  if count =? 0 then (None, s')
  else
    (Some (metric_doc now (sub_host_name s) (sub_kernel_version s) sid {|
       probe := "gpu_submit"; runqueue := None; migration := None; bio := None; gpu_sched := None;
       mem := None; stutter := None; futex := None; irq := None; vfs := None; gpu_fence := None;
       gpu_submit := Some {| sub_event_count := count |} |}), s').

(** ** The interface is implemented *)

(** [collect]: [doc.into_iter().map(Into::into).collect()]. *)
Definition collect_docs (o : option EbpfMetricDoc) : list EbpfDocument :=
  match o with Some doc => [Metric doc] | None => [] end.

Section single.
Context {S E : Type} (name : string) (fresh : S → S) (push : S → E → S)
  (flush : S → Z → string → option EbpfMetricDoc * S)
  (Hstate : ∀ s now sid, snd (flush s now sid) = fresh s)
  (Hempty : ∀ s now sid, fst (flush (fresh s) now sid) = None)
  (Hpush : ∀ s e, fresh (push s e) = fresh s)
  (Hprobe : ∀ s now sid doc,
    fst (flush s now sid) = Some doc → probe (ebpf (md_rigsignal doc)) = name).

Definition single_flush (s : S) (now : Z) (sid : string) : list EbpfDocument * S :=
  (collect_docs (fst (flush s now sid)), snd (flush s now sid)).

Program Definition single_aggregator : WindowAggregator S E := {|
  wa_probe := name; wa_fresh := fresh; wa_push := push; wa_flush := single_flush |}.
Next Obligation. intros. apply Hstate. Qed.
Next Obligation. intros. simpl. by rewrite Hempty. Qed.
Next Obligation. intros. apply Hpush. Qed.
Next Obligation. intros. simpl. destruct (fst _); simpl; lia. Qed.
Next Obligation.
  intros s now sid d. simpl. destruct (fst _) as [doc|] eqn:E0; simpl; [|set_solver].
  intros ->%list_elem_of_singleton. simpl. by eapply Hprobe.
Qed.
End single.

Ltac single_tac :=
  intros; cbv zeta in *; repeat case_match; cbn [fst snd] in *; simplify_eq; reflexivity.

#[export, program] Instance bio_aggregator : WindowAggregator BioAggregator RawBioEvent :=
  single_aggregator "bio" (λ s, bio_new (bio_host_name s) (bio_kernel_version s)) bio_push bio_flush _ _ _ _.
Solve Obligations with unfold bio_flush; single_tac.
#[export, program] Instance gpu_aggregator : WindowAggregator GpuAggregator RawGpuSchedEvent :=
  single_aggregator "gpu_sched" (λ s, gpu_new (gpu_host_name s) (gpu_kernel_version s)) gpu_push gpu_flush _ _ _ _.
Solve Obligations with unfold gpu_flush; single_tac.
#[export, program] Instance mem_aggregator : WindowAggregator MemAggregator RawMemEvent :=
  single_aggregator "mem" (λ s, mem_new (mem_host_name s) (mem_kernel_version s)) mem_push mem_flush _ _ _ _.
Solve Obligations with unfold mem_flush; single_tac.
#[export, program] Instance futex_aggregator : WindowAggregator FutexAggregator RawFutexEvent :=
  single_aggregator "futex" (λ s, futex_new (futex_host_name s) (futex_kernel_version s)) futex_push futex_flush _ _ _ _.
Solve Obligations with unfold futex_flush; single_tac.
#[export, program] Instance irq_aggregator : WindowAggregator IrqAggregator RawIrqEvent :=
  single_aggregator "irq" (λ s, irq_new (irq_host_name s) (irq_kernel_version s)) irq_push irq_flush _ _ _ _.
Solve Obligations with unfold irq_flush; single_tac.
#[export, program] Instance vfs_aggregator : WindowAggregator VfsAggregator RawVfsEvent :=
  single_aggregator "vfs" (λ s, vfs_new (vfs_host_name s) (vfs_kernel_version s)) vfs_push vfs_flush _ _ _ _.
Solve Obligations with unfold vfs_flush; single_tac.
#[export, program] Instance fence_aggregator : WindowAggregator GpuFenceAggregator RawGpuFenceEvent :=
  single_aggregator "gpu_fence" (λ s, fence_new (fence_host_name s) (fence_kernel_version s)) fence_push fence_flush _ _ _ _.
Solve Obligations with unfold fence_flush; single_tac.
#[export, program] Instance submit_aggregator : WindowAggregator GpuSubmitAggregator RawGpuSubmitEvent :=
  single_aggregator "gpu_submit" (λ s, submit_new (sub_host_name s) (sub_kernel_version s)) submit_push submit_flush _ _ _ _.
Solve Obligations with unfold submit_flush; single_tac.

(** ** Exactness of a window *)

Definition min_list (l : list Z) : Z := foldr Z.min u64_max l.
Definition max_list (l : list Z) : Z := foldr Z.max 0 l.

(** How many observations of the window fall into bucket [i]. *)
Definition bucket_count (obs : list Z) (i : nat) : Z :=
  Z.of_nat (count (λ o, Nat.eqb (bucket_of o) i) obs).

Definition bucket_counts (obs : list Z) : list Z := bucket_count obs <$> seq 0 16.

(** The observations of a window are [u64]s and their number fits a [u64]. *)
Definition window_ok (obs : list Z) : Prop :=
  Forall is_u64 obs ∧ Z.of_nat (length obs) ≤ u64_max.

Lemma window_ok_cons o obs : window_ok (o :: obs) → is_u64 o ∧ window_ok obs.
Proof.
  intros [Ho Hl]. apply Forall_cons in Ho as [??]. split; [done|].
  split; [done|]. simpl in Hl. lia.
Qed.

Lemma lat_foldl_min obs a :
  la_min_ns (foldl lat_step a obs) = foldr Z.min (la_min_ns a) obs.
Proof.
  revert a. induction obs as [|o obs IH]; intros a; simpl; [done|]. rewrite IH. simpl.
  clear IH. induction obs as [|x obs IH]; simpl; lia.
Qed.

Lemma lat_foldl_max obs a :
  0 ≤ la_max_ns a →
  la_max_ns (foldl lat_step a obs) = Z.max (la_max_ns a) (max_list obs).
Proof.
  revert a. induction obs as [|o obs IH]; intros a Ha; simpl; [lia|].
  rewrite IH; simpl; lia.
Qed.

(** A saturating sum is the sum, cut off once at the end. *)
Lemma sat_fold {A} (f : A → Z) (l : list A) (a : Z) :
  0 ≤ a → Forall (λ x, 0 ≤ f x) l →
  foldl (λ t x, sat_add_u64 t (f x)) (Z.min a u64_max) l
  = Z.min (a + sumZ (f <$> l)) u64_max.
Proof.
  intros Ha Hl. revert a Ha. induction Hl as [|x l Hx Hl IH]; intros a Ha.
  - unfold sumZ. simpl. f_equal. lia.
  - rewrite fmap_cons, sumZ_cons. cbn [foldl].
    replace (sat_add_u64 (Z.min a u64_max) (f x)) with (Z.min (a + f x) u64_max)
      by (unfold sat_add_u64, u64_max; lia).
    rewrite IH by lia. f_equal. lia.
Qed.

Lemma lat_foldl_total obs a :
  la_total_ns (foldl lat_step a obs) = foldl (λ t o, sat_add_u64 t o) (la_total_ns a) obs.
Proof. revert a. induction obs as [|o obs IH]; intros a; simpl; [done|]. by rewrite IH. Qed.

Lemma lat_foldl_histogram obs a :
  la_histogram (foldl lat_step a obs) = foldl record_ns (la_histogram a) obs.
Proof. revert a. induction obs as [|o obs IH]; intros a; simpl; [done|]. by rewrite IH. Qed.

Lemma counts_histogram_of obs :
  Z.of_nat (length obs) ≤ u64_max → counts (histogram_of obs) = bucket_counts obs.
Proof.
  intros Hl. apply list_eq. intros i. unfold histogram_of, bucket_counts.
  destruct (decide (i < 16)%nat) as [Hi|Hi].
  - rewrite (counts_foldl obs new_histogram i 0); [..|lia|lia].
    + rewrite list_lookup_fmap, lookup_seq_lt by done. done.
    + simpl. change [0;0;0;0;0;0;0;0;0;0;0;0;0;0;0;0] with (replicate 16 0).
      by apply lookup_replicate_2.
  - rewrite !lookup_ge_None_2; [done|..].
    + rewrite length_fmap, length_seq. lia.
    + rewrite length_histogram_of_from. simpl. lia.
Qed.

Lemma sum_indicator (b : nat) (n : nat) :
  sumZ ((λ i, if Nat.eqb b i then 1 else 0) <$> seq 0 n) = if (b <? n)%nat then 1 else 0.
Proof.
  induction n as [|n IH]; [done|].
  rewrite seq_S, fmap_app, sumZ_app, IH. cbn [Nat.add list_fmap fmap]. rewrite sumZ_cons.
  change (sumZ []) with 0.
  destruct (Nat.eqb_spec b n), (Nat.ltb_spec b n), (Nat.ltb_spec b (S n)); simpl; lia.
Qed.

Lemma sumZ_fmap_add {A} (f g : A → Z) (l : list A) :
  sumZ ((λ x, f x + g x) <$> l) = sumZ (f <$> l) + sumZ (g <$> l).
Proof. induction l as [|x l IH]; [done|]. rewrite !fmap_cons, !sumZ_cons. lia. Qed.

Lemma sumZ_bucket_counts obs : sumZ (bucket_counts obs) = Z.of_nat (length obs).
Proof.
  unfold bucket_counts. induction obs as [|o obs IH]; [done|].
  transitivity (sumZ ((λ i, (if Nat.eqb (bucket_of o) i then 1 else 0) + bucket_count obs i)
                        <$> seq 0 16)).
  - f_equal. apply list_fmap_ext. intros ? i _. unfold bucket_count.
    rewrite count_cons. destruct (Nat.eqb _ _); lia.
  - rewrite sumZ_fmap_add, sum_indicator, IH.
    pose proof (bucket_of_lt o). destruct (Nat.ltb_spec (bucket_of o) 16); simpl length; lia.
Qed.

(** The statistics of a window, in nanoseconds. *)
Record window_stats (obs : list Z) (a : LatencyAccum) : Prop := {
  ws_counts : counts (la_histogram a) = bucket_counts obs;
  ws_values : values (la_histogram a) = BOUNDARIES_US;
  ws_total : la_total_ns a = Z.min (sumZ obs) u64_max;
  ws_min : la_min_ns a = min_list obs;
  ws_max : la_max_ns a = max_list obs;
}.

Lemma lat_window_stats obs : window_ok obs → window_stats obs (foldl lat_step lat_init obs).
Proof.
  intros [Hu Hl]. split.
  - rewrite lat_foldl_histogram. by apply counts_histogram_of.
  - rewrite lat_foldl_histogram. apply values_foldl.
  - rewrite lat_foldl_total.
    pose proof (sat_fold (λ o, o) obs 0) as Hs. rewrite list_fmap_id in Hs.
    apply Hs; [lia|]. eapply Forall_impl; [done|]. unfold is_u64. lia.
  - apply lat_foldl_min.
  - rewrite lat_foldl_max by done. simpl.
    destruct Hu; simpl; unfold is_u64 in *; lia.
Qed.

Lemma over_foldl limit obs a n :
  0 ≤ n → n + Z.of_nat (length obs) ≤ u64_max →
  foldl (over_step limit) (a, n) obs
  = (foldl lat_step a obs, n + Z.of_nat (count (λ o, limit <? o) obs)).
Proof.
  revert a n. induction obs as [|o obs IH]; intros a n Hn Hl; simpl in *.
  - f_equal. unfold count. simpl. lia.
  - rewrite count_cons. unfold over_step at 2. simpl. destruct (limit <? o).
    + rewrite add_u64_small by lia. rewrite IH by lia. f_equal. lia.
    + rewrite IH by lia. done.
Qed.

Lemma bio_foldl evs a n :
  foldl bio_step (a, n) evs
  = (foldl lat_step a (be_latency_ns <$> evs),
     foldl (λ t e, sat_add_u64 t (be_bytes e)) n evs).
Proof. revert a n. induction evs as [|e evs IH]; intros a n; simpl; [done|]. apply IH. Qed.

Lemma kind_foldl obs a :
  0 ≤ ka_count a → ka_count a + Z.of_nat (length obs) ≤ u64_max →
  foldl kind_step a obs = {|
    ka_hist := foldl record_ns (ka_hist a) obs;
    ka_total_ns := foldl (λ t o, sat_add_u64 t o) (ka_total_ns a) obs;
    ka_count := ka_count a + Z.of_nat (length obs) |}.
Proof.
  revert a. induction obs as [|o obs IH]; intros a Ha Hl; simpl in *.
  - destruct a; simpl in *. f_equal. lia.
  - assert (Hc : add_u64 (ka_count a) 1 = ka_count a + 1) by (apply add_u64_small; lia).
    rewrite IH; simpl; rewrite Hc; [f_equal; lia|lia|lia].
Qed.

(** The latencies of the events of kind [k]. *)
Definition of_kind (k : Z) (evs : list (Z * Z)) : list Z :=
  filter_map (λ ev, if ev.2 =? k then Some ev.1 else None) evs.

Lemma two_kind_foldl k0 k1 evs a b :
  k0 ≠ k1 →
  foldl (two_kind_step k0 k1) (a, b) evs
  = (foldl kind_step a (of_kind k0 evs), foldl kind_step b (of_kind k1 evs)).
Proof.
  intros Hk. unfold of_kind. revert a b.
  induction evs as [|[ns k] evs IH]; intros a b; simpl; [done|].
  destruct (Z.eqb_spec k k0), (Z.eqb_spec k k1); subst; simpl; first [done | apply IH].
Qed.

(** What [push]ing a window leaves in each aggregator. *)
Ltac pushes_tac :=
  match goal with
  | |- foldl ?push ?s ?evs = _ =>
      revert s; induction evs as [|e evs IH]; intros s; simpl;
        [rewrite app_nil_r; by destruct s | rewrite IH; simpl; by rewrite <-app_assoc]
  end.

Lemma bio_pushes s evs :
  foldl bio_push s evs
  = {| bio_events := bio_events s ++ evs; bio_host_name := bio_host_name s;
       bio_kernel_version := bio_kernel_version s |}.
Proof. pushes_tac. Qed.

Lemma gpu_pushes s evs :
  foldl gpu_push s evs
  = {| gpu_events := gpu_events s ++ evs; gpu_host_name := gpu_host_name s;
       gpu_kernel_version := gpu_kernel_version s |}.
Proof. pushes_tac. Qed.

Lemma mem_pushes s evs :
  foldl mem_push s evs
  = {| mem_events := mem_events s ++ evs; mem_host_name := mem_host_name s;
       mem_kernel_version := mem_kernel_version s |}.
Proof. pushes_tac. Qed.

Lemma futex_pushes s evs :
  foldl futex_push s evs
  = {| futex_events := futex_events s ++ evs; futex_host_name := futex_host_name s;
       futex_kernel_version := futex_kernel_version s |}.
Proof. pushes_tac. Qed.

Lemma irq_pushes s evs :
  foldl irq_push s evs
  = {| irq_events := irq_events s ++ evs; irq_host_name := irq_host_name s;
       irq_kernel_version := irq_kernel_version s |}.
Proof. pushes_tac. Qed.

(** *** Order independence *)

(** A fold whose step commutes under an invariant ignores the order. *)
Lemma foldl_perm_inv {A B} (I : A → Prop) (P : B → Prop) (f : A → B → A) l k :
  (∀ a x, I a → P x → I (f a x)) →
  (∀ a x y, I a → P x → P y → f (f a x) y = f (f a y) x) →
  l ≡ₚ k → ∀ a, I a → Forall P l → foldl f a l = foldl f a k.
Proof.
  intros HI Hc. induction 1 as [|x l k Hp IH|x y l|l k m Hp1 IH1 Hp2 IH2];
    intros a Ha Hl; simpl.
  - done.
  - apply Forall_cons in Hl as [Hx Hl]. apply IH; [by apply HI|done].
  - apply Forall_cons in Hl as [Hy Hl]. apply Forall_cons in Hl as [Hx _].
    by rewrite Hc.
  - rewrite IH1 by done. apply IH2; [done|]. by rewrite <-Hp1.
Qed.

Lemma record_ns_comm h a b : record_ns (record_ns h a) b = record_ns (record_ns h b) a.
Proof.
  unfold record_ns. simpl. f_equal.
  destruct (decide (bucket_of a = bucket_of b)) as [->|Hne]; [done|].
  by apply list_alter_alter_ne.
Qed.

(** Totals stay non-negative, so that the saturating sums commute. *)
Definition lat_inv (a : LatencyAccum) : Prop := 0 ≤ la_total_ns a.
Definition kind_inv (a : KindAccum) : Prop := 0 ≤ ka_total_ns a.

Lemma sat_add_comm t a b :
  0 ≤ t → 0 ≤ a → 0 ≤ b →
  sat_add_u64 (sat_add_u64 t a) b = sat_add_u64 (sat_add_u64 t b) a.
Proof. unfold sat_add_u64, u64_max. lia. Qed.

Lemma sat_add_nonneg t a : 0 ≤ t → 0 ≤ a → 0 ≤ sat_add_u64 t a.
Proof. unfold sat_add_u64, u64_max. lia. Qed.

Lemma lat_step_inv a x : lat_inv a → 0 ≤ x → lat_inv (lat_step a x).
Proof. apply sat_add_nonneg. Qed.

Lemma lat_step_comm a x y :
  lat_inv a → 0 ≤ x → 0 ≤ y → lat_step (lat_step a x) y = lat_step (lat_step a y) x.
Proof.
  unfold lat_inv, lat_step. intros. simpl. rewrite record_ns_comm, sat_add_comm by done.
  f_equal; lia.
Qed.

Lemma kind_step_inv a x : kind_inv a → 0 ≤ x → kind_inv (kind_step a x).
Proof. apply sat_add_nonneg. Qed.

Lemma kind_step_comm a x y :
  kind_inv a → 0 ≤ x → 0 ≤ y → kind_step (kind_step a x) y = kind_step (kind_step a y) x.
Proof.
  unfold kind_inv, kind_step. intros. simpl. by rewrite record_ns_comm, sat_add_comm.
Qed.

Lemma over_step_comm limit acc x y :
  lat_inv acc.1 → 0 ≤ x → 0 ≤ y →
  over_step limit (over_step limit acc x) y = over_step limit (over_step limit acc y) x.
Proof.
  intros. unfold over_step. simpl. rewrite lat_step_comm by done.
  by destruct (limit <? x), (limit <? y).
Qed.

Lemma two_kind_step_comm k0 k1 acc x y :
  k0 ≠ k1 → kind_inv acc.1 ∧ kind_inv acc.2 → 0 ≤ x.1 → 0 ≤ y.1 →
  two_kind_step k0 k1 (two_kind_step k0 k1 acc x) y
  = two_kind_step k0 k1 (two_kind_step k0 k1 acc y) x.
Proof.
  destruct acc as [a b], x as [x kx], y as [y ky]. simpl. intros Hk [Ha Hb] Hx Hy.
  unfold two_kind_step.
  destruct (kx =? k0), (ky =? k0), (kx =? k1), (ky =? k1); simpl; try done.
  all: by rewrite kind_step_comm.
Qed.

Lemma mem_step_comm m x y : mem_step (mem_step m x) y = mem_step (mem_step m y) x.
Proof.
  unfold mem_step.
  destruct (me_event_type x =? MEM_FAULT), (me_event_type y =? MEM_FAULT),
    (me_event_type x =? MEM_RECLAIM), (me_event_type y =? MEM_RECLAIM); simpl; try done.
  all: by destruct (negb (me_is_write x =? 0)), (negb (me_is_write y =? 0)).
Qed.

(** ** Properties *)

Lemma nonneg_window evs : window_ok evs → Forall (λ x, 0 ≤ x) evs.
Proof. intros [H _]. eapply Forall_impl; [done|]. unfold is_u64. lia. Qed.

(** A non-empty block-I/O window yields exactly one document, whose
    histogram counts each bucket of the window's latencies (so its total is
    the event count), whose minimum, maximum and average are those of the
    latencies with the sum cut off at [u64::MAX], and whose byte total is the
    cut-off sum of the bytes; the aggregator is left with an empty window. *)
Theorem bio_window_exact (s : BioAggregator) (evs : list RawBioEvent) (now : Z) (sid : string)
    (Hne : evs ≠ []) (Hok : window_ok (be_latency_ns <$> evs))
    (Hbytes : Forall (λ e, is_u64 (be_bytes e)) evs) :
  ∃ doc b,
    run_window s evs now sid = ([Metric doc], bio_new (bio_host_name s) (bio_kernel_version s))
    ∧ md_timestamp doc = now
    ∧ session_id (rs_session (md_rigsignal doc)) = sid
    ∧ bio (ebpf (md_rigsignal doc)) = Some b
    ∧ counts (bio_latency_histogram b) = bucket_counts (be_latency_ns <$> evs)
    ∧ sumZ (counts (bio_latency_histogram b)) = bio_event_count b
    ∧ bio_event_count b = Z.of_nat (length evs)
    ∧ bio_latency_min_us b = min_us (min_list (be_latency_ns <$> evs))
    ∧ bio_latency_max_us b = ns_to_us (max_list (be_latency_ns <$> evs))
    ∧ bio_latency_avg_us b
      = avg_us (Z.min (sumZ (be_latency_ns <$> evs)) u64_max) (Z.of_nat (length evs))
    ∧ bio_bytes_total b = Z.min (sumZ (be_bytes <$> evs)) u64_max.
Proof.
  destruct (lat_window_stats _ Hok) as [Hc Hv Ht Hmin Hmax].
  assert (Hb : foldl (λ t e, sat_add_u64 t (be_bytes e)) 0 evs = Z.min (sumZ (be_bytes <$> evs)) u64_max).
  { apply (sat_fold be_bytes evs 0); [lia|]. eapply Forall_impl; [done|]. unfold is_u64. lia. }
  pose proof (sumZ_bucket_counts (be_latency_ns <$> evs)) as Hsum. rewrite length_fmap in Hsum.
  unfold run_window. simpl. unfold single_flush. rewrite bio_pushes.
  destruct evs as [|e evs]; [done|]. unfold bio_flush. cbn [bio_events app bio_new].
  rewrite bio_foldl, Hb. eexists _, _. cbn [fst snd collect_docs].
  split; [reflexivity|]. do 3 (split; [reflexivity|]).
  cbn [bio_latency_histogram bio_event_count bio_latency_min_us bio_latency_max_us
       bio_latency_avg_us bio_bytes_total].
  rewrite Hc, Ht, Hmin, Hmax. split_and!; done.
Qed.

Lemma bio_window_exact_witness :
  ∃ doc b,
    run_window (bio_new "h" "6.1")
      [{| be_latency_ns := 1500; be_bytes := 4096 |}; {| be_latency_ns := 2000000; be_bytes := 512 |}] 7 "s"
    = ([Metric doc], bio_new "h" "6.1")
    ∧ bio (ebpf (md_rigsignal doc)) = Some b ∧ bio_bytes_total b = 4608.
Proof.
  destruct (bio_window_exact (bio_new "h" "6.1")
    [{| be_latency_ns := 1500; be_bytes := 4096 |}; {| be_latency_ns := 2000000; be_bytes := 512 |}] 7 "s")
    as (doc & b & H1 & _ & _ & H2 & _ & _ & _ & _ & _ & _ & H3).
  - discriminate.
  - split; [repeat constructor; discriminate|discriminate].
  - repeat constructor; discriminate.
  - exists doc, b. split; [exact H1|]. split; [exact H2|]. rewrite H3. reflexivity.
Defined.

Lemma of_kind_window k evs : window_ok (map fst evs) → window_ok (of_kind k evs).
Proof.
  intros [Hu Hl]. split.
  - apply Forall_forall. intros x (ev & Hev & Hx)%elem_of_filter_map.
    destruct (_ =? _); simplify_eq. rewrite Forall_forall in Hu. apply Hu.
    apply list_elem_of_fmap. eauto.
  - pose proof (length_filter_map_le (λ ev : Z * Z, if ev.2 =? k then Some ev.1 else None) evs).
    rewrite length_map in Hl. unfold of_kind. lia.
Qed.

Lemma kind_window obs :
  window_ok obs →
  counts (ka_hist (foldl kind_step kind_init obs)) = bucket_counts obs
  ∧ ka_total_ns (foldl kind_step kind_init obs) = Z.min (sumZ obs) u64_max
  ∧ ka_count (foldl kind_step kind_init obs) = Z.of_nat (length obs).
Proof.
  intros Hok. pose proof (nonneg_window _ Hok) as Hnn. destruct Hok as [Hu Hl].
  rewrite kind_foldl by (simpl; lia). cbn [ka_hist ka_total_ns ka_count kind_init].
  split_and!; [by apply counts_histogram_of| |lia].
  pose proof (sat_fold (λ o, o) obs 0 ltac:(lia) Hnn) as Hs. by rewrite list_fmap_id in Hs.
Qed.

(** The futex window counts as contended exactly the waits above one
    millisecond, whatever their order, and reports the window's extremes. *)
Theorem futex_window_contended (s : FutexAggregator) (evs : list RawFutexEvent) (now : Z)
    (sid : string) (Hne : evs ≠ []) (Hok : window_ok (fe_latency_ns <$> evs)) :
  ∃ doc f,
    run_window s evs now sid
    = ([Metric doc], futex_new (futex_host_name s) (futex_kernel_version s))
    ∧ futex (ebpf (md_rigsignal doc)) = Some f
    ∧ fx_event_count f = Z.of_nat (length evs)
    ∧ contended_count f = Z.of_nat (count (λ e, 1000000 <? fe_latency_ns e) evs)
    ∧ contended_count f ≤ fx_event_count f
    ∧ counts (fx_latency_histogram f) = bucket_counts (fe_latency_ns <$> evs)
    ∧ fx_latency_min_us f = min_us (min_list (fe_latency_ns <$> evs))
    ∧ fx_latency_max_us f = ns_to_us (max_list (fe_latency_ns <$> evs)).
Proof.
  destruct (lat_window_stats _ Hok) as [Hc Hv Ht Hmin Hmax].
  assert (Hcnt : ∀ l, count (λ o, CONTENDED_NS <? o) (map fe_latency_ns l)
                 = count (λ e, 1000000 <? fe_latency_ns e) l).
  { intros l. induction l as [|x l IH]; [done|]. simpl map. by rewrite !count_cons, IH. }
  pose proof (count_le (λ e, 1000000 <? fe_latency_ns e) evs) as Hle.
  unfold run_window. simpl. unfold single_flush. rewrite futex_pushes.
  destruct evs as [|e evs]; [done|]. unfold futex_flush. cbn [futex_events app futex_new].
  rewrite over_foldl; [|lia|destruct Hok as [_ Hl]; rewrite length_map; by rewrite length_fmap in Hl].
  eexists _, _. cbn [fst snd collect_docs]. split; [reflexivity|]. split; [reflexivity|].
  cbn [fx_event_count contended_count fx_latency_histogram fx_latency_min_us fx_latency_max_us].
  rewrite Hcnt, Z.add_0_l. split_and!; [done|done|lia|exact Hc|exact (f_equal min_us Hmin)|exact (f_equal ns_to_us Hmax)].
Qed.

Lemma futex_window_contended_witness :
  ∃ doc f,
    run_window (futex_new "h" "k") [{| fe_latency_ns := 1000000 |}; {| fe_latency_ns := 1000001 |}] 0 "s"
    = ([Metric doc], futex_new "h" "k")
    ∧ futex (ebpf (md_rigsignal doc)) = Some f ∧ contended_count f = 1.
Proof.
  destruct (futex_window_contended (futex_new "h" "k")
    [{| fe_latency_ns := 1000000 |}; {| fe_latency_ns := 1000001 |}] 0 "s")
    as (doc & f & H1 & H2 & _ & H3 & _).
  - discriminate.
  - split; [repeat constructor; discriminate|discriminate].
  - exists doc, f. split; [exact H1|]. split; [exact H2|]. rewrite H3. reflexivity.
Defined.

(** The IRQ window keeps hard and soft interrupts apart: each side's
    histogram, count and average come from the events of its own kind only,
    events of any other kind are dropped, and a side with no event reports an
    average of zero instead of dividing by zero. *)
Theorem irq_window_by_kind (s : IrqAggregator) (evs : list RawIrqEvent) (now : Z) (sid : string)
    (Hne : evs ≠ []) (Hok : window_ok (ie_latency_ns <$> evs)) :
  ∃ doc q,
    run_window s evs now sid = ([Metric doc], irq_new (irq_host_name s) (irq_kernel_version s))
    ∧ irq (ebpf (md_rigsignal doc)) = Some q
    ∧ ∀ k side, (k, side) ∈ [(IRQ_KIND_HARD, hard_irq q); (IRQ_KIND_SOFT, softirq q)] →
        let own := ie_latency_ns <$> List.filter (λ e, ie_kind e =? k) evs in
        ik_event_count side = Z.of_nat (length own)
        ∧ counts (ik_latency_histogram side) = bucket_counts own
        ∧ ik_latency_avg_us side
          = match own with
            | [] => f64_zero
            | _ => avg_us (Z.min (sumZ own) u64_max) (Z.of_nat (length own))
            end.
Proof.
  set (pairs := map (λ ev, (ie_latency_ns ev, ie_kind ev)) evs).
  assert (Hpairs : window_ok (map fst pairs)) by (unfold pairs; by rewrite map_map).
  assert (Hown : ∀ k, of_kind k pairs = ie_latency_ns <$> List.filter (λ e, ie_kind e =? k) evs).
  { intros k. unfold of_kind, pairs. clear. induction evs as [|e evs IH]; simpl; [done|].
    destruct (ie_kind e =? k); simpl; by rewrite IH. }
  assert (Hside : ∀ k,
    let a := foldl kind_step kind_init (of_kind k pairs) in
    let own := of_kind k pairs in
    ka_count a = Z.of_nat (length own) ∧ counts (ka_hist a) = bucket_counts own
    ∧ avg_us_or_zero (ka_total_ns a) (ka_count a)
      = match own with [] => f64_zero | _ => avg_us (Z.min (sumZ own) u64_max) (Z.of_nat (length own)) end).
  { intros k. simpl. destruct (kind_window _ (of_kind_window k _ Hpairs)) as (H1 & H2 & H3).
    rewrite H1, H2, H3. split_and!; [done|done|]. unfold avg_us_or_zero. by destruct (of_kind k pairs). }
  unfold run_window. simpl. unfold single_flush. rewrite irq_pushes.
  destruct evs as [|e evs]; [done|]. unfold irq_flush. cbn [irq_events app irq_new].
  fold pairs. rewrite two_kind_foldl by done. eexists _, _. cbn [fst snd collect_docs].
  split; [reflexivity|]. split; [reflexivity|]. cbn [hard_irq softirq].
  intros k side Hin. cbv zeta. rewrite <-Hown.
  apply list_elem_of_In in Hin. destruct Hin as [|[|[]]]; simplify_eq; apply Hside.
Qed.

Lemma irq_window_by_kind_witness :
  ∃ doc q,
    run_window (irq_new "h" "k") [{| ie_latency_ns := 3000; ie_kind := 1 |}; {| ie_latency_ns := 9; ie_kind := 7 |}] 0 "s"
    = ([Metric doc], irq_new "h" "k")
    ∧ irq (ebpf (md_rigsignal doc)) = Some q ∧ ik_event_count (softirq q) = 1.
Proof.
  destruct (irq_window_by_kind (irq_new "h" "k")
    [{| ie_latency_ns := 3000; ie_kind := 1 |}; {| ie_latency_ns := 9; ie_kind := 7 |}] 0 "s")
    as (doc & q & H1 & H2 & H3).
  - discriminate.
  - split; [repeat constructor; discriminate|discriminate].
  - exists doc, q. split; [exact H1|]. split; [exact H2|].
    destruct (H3 IRQ_KIND_SOFT (softirq q)) as (Hc & _); [do 2 constructor|]. rewrite Hc. reflexivity.
Defined.

Lemma vfs_pushes s evs :
  foldl vfs_push s evs
  = {| vfs_events := vfs_events s ++ evs; vfs_host_name := vfs_host_name s;
       vfs_kernel_version := vfs_kernel_version s |}.
Proof. pushes_tac. Qed.

Lemma fence_pushes s evs :
  foldl fence_push s evs
  = {| fence_events := fence_events s ++ evs; fence_host_name := fence_host_name s;
       fence_kernel_version := fence_kernel_version s |}.
Proof. pushes_tac. Qed.

Lemma lat_foldl_perm {E} (f : E → Z) evs evs' :
  Forall (λ e, 0 ≤ f e) evs → evs ≡ₚ evs' →
  foldl (λ a e, lat_step a (f e)) lat_init evs = foldl (λ a e, lat_step a (f e)) lat_init evs'.
Proof.
  intros Hok Hp.
  apply (foldl_perm_inv lat_inv (λ e, 0 ≤ f e)); [..|done|by unfold lat_inv, lat_init|done].
  - intros. by apply lat_step_inv.
  - intros. by apply lat_step_comm.
Qed.

Lemma over_foldl_perm limit l l' :
  Forall (λ x, 0 ≤ x) l → l ≡ₚ l' →
  foldl (over_step limit) (lat_init, 0) l = foldl (over_step limit) (lat_init, 0) l'.
Proof.
  intros Hok Hp.
  apply (foldl_perm_inv (λ a, lat_inv a.1) (λ x, 0 ≤ x)); [..|done|by unfold lat_inv, lat_init|done].
  - intros. by apply lat_step_inv.
  - intros. by apply over_step_comm.
Qed.

Lemma two_kind_foldl_perm k0 k1 l l' :
  k0 ≠ k1 → Forall (λ x, 0 ≤ x.1) l → l ≡ₚ l' →
  foldl (two_kind_step k0 k1) (kind_init, kind_init) l
  = foldl (two_kind_step k0 k1) (kind_init, kind_init) l'.
Proof.
  intros Hk Hok Hp.
  apply (foldl_perm_inv (λ a, kind_inv a.1 ∧ kind_inv a.2) (λ x, 0 ≤ x.1)); [..|done|done|done].
  - intros [a b] [x kx] [Ha Hb] Hx. simpl in *. unfold two_kind_step.
    destruct (kx =? k0), (kx =? k1); simpl; split; try done; by apply kind_step_inv.
  - intros. by apply two_kind_step_comm.
Qed.

Lemma bio_foldl_perm evs evs' :
  Forall (λ e, 0 ≤ be_latency_ns e ∧ 0 ≤ be_bytes e) evs → evs ≡ₚ evs' →
  foldl bio_step (lat_init, 0) evs = foldl bio_step (lat_init, 0) evs'.
Proof.
  intros Hok Hp.
  apply (foldl_perm_inv (λ a, lat_inv a.1 ∧ 0 ≤ a.2)
           (λ e, 0 ≤ be_latency_ns e ∧ 0 ≤ be_bytes e)); [..|done|done|done].
  - intros [a b] e [Ha Hb] [Hx Hy]. split; [by apply lat_step_inv|by apply sat_add_nonneg].
  - intros [a b] x y [Ha Hb] [Hx1 Hx2] [Hy1 Hy2]. unfold bio_step. simpl in *.
    by rewrite lat_step_comm, sat_add_comm.
Qed.

Lemma mem_foldl_perm m evs evs' :
  evs ≡ₚ evs' → foldl mem_step m evs = foldl mem_step m evs'.
Proof.
  intros Hp. apply (foldl_perm_inv (λ _, True) (λ _, True));
    [done|intros; apply mem_step_comm|done|done|by apply Forall_true].
Qed.

(** The documents of a window do not depend on the order of its events. *)
Definition order_independent (S E : Type) `{WindowAggregator S E} (ok : E → Prop) : Prop :=
  ∀ s evs evs' now sid, Forall ok evs → evs ≡ₚ evs' →
    run_window s evs now sid = run_window s evs' now sid.

Ltac order_tac pushes flush :=
  intros s evs evs' now sid Hok Hp; unfold run_window; simpl; unfold single_flush;
  rewrite !pushes; simpl;
  match goal with |- (collect_docs (fst ?a), snd ?a) = (collect_docs (fst ?b), snd ?b) =>
    cut (a = b); [by intros ->|] end;
  unfold flush; simpl; pose proof (Permutation_length Hp) as Hlen;
  destruct evs as [|e evs], evs' as [|e' evs']; [reflexivity|discriminate Hlen..|].

(** Every windowed probe but the scheduler reports the same documents
    whatever the order its events arrived in. *)
Theorem windows_order_independent :
  order_independent BioAggregator RawBioEvent (λ e, 0 ≤ be_latency_ns e ∧ 0 ≤ be_bytes e)
  ∧ order_independent GpuAggregator RawGpuSchedEvent (λ e, 0 ≤ ge_latency_ns e)
  ∧ order_independent MemAggregator RawMemEvent (λ _, True)
  ∧ order_independent FutexAggregator RawFutexEvent (λ e, 0 ≤ fe_latency_ns e)
  ∧ order_independent IrqAggregator RawIrqEvent (λ e, 0 ≤ ie_latency_ns e)
  ∧ order_independent VfsAggregator RawVfsEvent (λ e, 0 ≤ ve_latency_ns e)
  ∧ order_independent GpuFenceAggregator RawGpuFenceEvent (λ e, 0 ≤ fen_latency_ns e)
  ∧ order_independent GpuSubmitAggregator RawGpuSubmitEvent (λ _, True).
Proof.
  split_and!.
  - order_tac bio_pushes bio_flush. by rewrite (bio_foldl_perm _ _ Hok Hp), Hlen.
  - order_tac gpu_pushes gpu_flush. by rewrite (lat_foldl_perm ge_latency_ns _ _ Hok Hp), Hlen.
  - order_tac mem_pushes mem_flush. by rewrite (mem_foldl_perm _ _ _ Hp).
  - order_tac futex_pushes futex_flush.
    rewrite (over_foldl_perm _ _ (map fe_latency_ns (e' :: evs'))); [by rewrite Hlen|..].
    + by apply Forall_map.
    + by apply Permutation_map.
  - order_tac irq_pushes irq_flush.
    set (f := λ ev, (ie_latency_ns ev, ie_kind ev)).
    rewrite (two_kind_foldl_perm _ _ _ (map f (e' :: evs'))); [done|done|..].
    + by apply Forall_map.
    + by apply Permutation_map.
  - order_tac vfs_pushes vfs_flush.
    set (f := λ ev, (ve_latency_ns ev, ve_op ev)).
    rewrite (two_kind_foldl_perm _ _ _ (map f (e' :: evs'))); [done|done|..].
    + by apply Forall_map.
    + by apply Permutation_map.
  - order_tac fence_pushes fence_flush.
    rewrite (over_foldl_perm _ _ (map fen_latency_ns (e' :: evs'))); [by rewrite Hlen|..].
    + by apply Forall_map.
    + by apply Permutation_map.
  - intros s evs evs' now sid _ Hp. unfold run_window. f_equal.
    apply (foldl_perm_inv (λ _, True) (λ _, True)); [done..|by apply Forall_true].
Qed.

Lemma windows_order_independent_witness :
  run_window (mem_new "h" "k") [{| me_event_type := 0; me_is_write := 1 |}; {| me_event_type := 1; me_is_write := 0 |}] 0 "s"
  = run_window (mem_new "h" "k") [{| me_event_type := 1; me_is_write := 0 |}; {| me_event_type := 0; me_is_write := 1 |}] 0 "s".
Proof.
  destruct windows_order_independent as (_ & _ & Hmem & _). apply Hmem.
  - repeat constructor.
  - constructor.
Defined.
