(* ===== verification/SchedAggregator.v ===== *)
(** * The scheduler aggregator ([ebpf/rigsignal-ebpf/src/aggregator.rs], lines 14-315)

    One aggregate document per window and up to eight per-thread documents,
    the CCX topology map and the cross-CCX test.  [HashMap] iteration order is
    unspecified: it is the class [HashIter], whose law says that iterating
    visits every entry once. *)
From S2P Require Import Prelude Float64 EsModel Aggregator.

(** [HashMap::into_iter]. *)
Class HashIter := {
  hash_iter : ∀ V : Type, gmap Z V → list (Z * V);
  hash_iter_perm V (m : gmap Z V) : hash_iter V m ≡ₚ map_to_list m;
}.
Arguments hash_iter {_ V} m.

(** ** Data *)

Definition EVENT_SWITCH : Z := 0.
Definition EVENT_MIGRATE : Z := 1.

(** [comm] is the raw 16-byte array. *)
Record RawSchedEvent := {
  se_event_type : Z;
  se_tid : Z;
  se_wait_ns : Z;
  se_prev_cpu : Z;
  se_next_cpu : Z;
  se_comm : string;
}.

Record ThreadAccum := {
  ta_comm : string;
  ta_switch_count : Z;
  ta_migration_count : Z;
  ta_total_wait_ns : Z;
  ta_min_wait_ns : Z;
  ta_max_wait_ns : Z;
}.

Record ThreadStat := {
  ts_comm : string;
  ts_tid : Z;
  ts_runqueue_min_us : f64;
  ts_runqueue_max_us : f64;
  ts_runqueue_avg_us : f64;
  ts_switch_count : Z;
  ts_migration_count : Z;
}.

Record SchedAggregator := {
  sched_events : list RawSchedEvent;
  sched_host_name : string;
  sched_kernel_version : string;
  cpu_to_ccx : gmap Z Z;
}.

(** ** Helpers *)

(** The bytes before the first NUL. *)
Fixpoint until_nul (s : string) : string :=
  match s with
  | EmptyString => EmptyString
  | String c s' => if byte_val c =? 0 then EmptyString else String c (until_nul s')
  end.

(** Parse a null-terminated C string from a fixed-size byte array. *)
Definition comm_to_string (comm : string) : string := from_utf8_lossy (until_nul comm).

Definition is_ccx_cross (prev_cpu next_cpu : Z) (m : gmap Z Z) : bool :=
  if decide (m = ∅) then false
  else match m !! prev_cpu, m !! next_cpu with
       | Some prev_ccx, Some next_ccx => negb (prev_ccx =? next_ccx)
       | _, _ => false
       end.

(** What the walk sees of one directory entry: its name, and the content of
    [cache/index3/shared_cpu_list] when it can be read. *)
Record CpuEntry := { ce_name : string; ce_shared_list : option string }.

(** [name_str[3..].parse()] behind the [starts_with("cpu")] guard. *)
Definition cpu_number (name : string) : option Z :=
  let! rest := strip_prefix "cpu" (from_utf8_lossy name) in parse_u32 rest.

Record CcxWalk := { cw_map : gmap Z Z; cw_seen : gmap string Z; cw_next : Z }.

Definition ccx_step (w : CcxWalk) (e : CpuEntry) : CcxWalk :=
  match cpu_number (ce_name e), ce_shared_list e with
  | Some cpu_num, Some text =>
      let shared_list := trim text in
      match cw_seen w !! shared_list with
      | Some this_ccx =>
          {| cw_map := <[cpu_num := this_ccx]> (cw_map w);
             cw_seen := cw_seen w; cw_next := cw_next w |}
      | None =>
          {| cw_map := <[cpu_num := cw_next w]> (cw_map w);
             cw_seen := <[shared_list := cw_next w]> (cw_seen w);
             cw_next := add_u32 (cw_next w) 1 |}
      end
  | _, _ => w
  end.

(** [None] is a directory that cannot be read. *)
Definition build_ccx_map (entries : option (list CpuEntry)) : gmap Z Z :=
  match entries with
  | None => ∅
  | Some es => cw_map (foldl ccx_step {| cw_map := ∅; cw_seen := ∅; cw_next := 0 |} es)
  end.

(** ** Operations *)

Definition sched_new (host kernel_version : string) (ccx : gmap Z Z) : SchedAggregator :=
  {| sched_events := []; sched_host_name := host; sched_kernel_version := kernel_version;
     cpu_to_ccx := ccx |}.

Definition sched_push (s : SchedAggregator) (e : RawSchedEvent) : SchedAggregator :=
  {| sched_events := sched_events s ++ [e]; sched_host_name := sched_host_name s;
     sched_kernel_version := sched_kernel_version s; cpu_to_ccx := cpu_to_ccx s |}.

(** [ThreadAccum { comm, min_wait_ns: u64::MAX, ..Default::default() }]. *)
Definition fresh_thread (comm : string) : ThreadAccum :=
  {| ta_comm := comm; ta_switch_count := 0; ta_migration_count := 0;
     ta_total_wait_ns := 0; ta_min_wait_ns := u64_max; ta_max_wait_ns := 0 |}.

Definition thread_switch (t : ThreadAccum) (comm : string) (wait_ns : Z) : ThreadAccum :=
  {| ta_comm := comm;
     ta_switch_count := add_u32 (ta_switch_count t) 1;
     ta_migration_count := ta_migration_count t;
     ta_total_wait_ns := sat_add_u64 (ta_total_wait_ns t) wait_ns;
     ta_min_wait_ns := Z.min (ta_min_wait_ns t) wait_ns;
     ta_max_wait_ns := Z.max (ta_max_wait_ns t) wait_ns |}.

Definition thread_migrate (t : ThreadAccum) : ThreadAccum :=
  {| ta_comm := ta_comm t;
     ta_switch_count := ta_switch_count t;
     ta_migration_count := add_u32 (ta_migration_count t) 1;
     ta_total_wait_ns := ta_total_wait_ns t;
     ta_min_wait_ns := ta_min_wait_ns t;
     ta_max_wait_ns := ta_max_wait_ns t |}.

Record SchedAccum := {
  sc_lat : LatencyAccum;
  sc_switch_count : Z;
  sc_total_migrations : Z;
  sc_ccx_cross_count : Z;
  sc_per_thread : gmap Z ThreadAccum;
}.

Definition sched_init : SchedAccum :=
  {| sc_lat := lat_init; sc_switch_count := 0; sc_total_migrations := 0;
     sc_ccx_cross_count := 0; sc_per_thread := ∅ |}.

(** The loop body of [flush]. *)
Definition sched_step (ccx : gmap Z Z) (a : SchedAccum) (ev : RawSchedEvent) : SchedAccum :=
  let comm := comm_to_string (se_comm ev) in
  let t := unwrap_or (sc_per_thread a !! se_tid ev) (fresh_thread comm) in
  if se_event_type ev =? EVENT_SWITCH then
    {| sc_lat := lat_step (sc_lat a) (se_wait_ns ev);
       sc_switch_count := add_u64 (sc_switch_count a) 1;
       sc_total_migrations := sc_total_migrations a;
       sc_ccx_cross_count := sc_ccx_cross_count a;
       sc_per_thread := <[se_tid ev := thread_switch t comm (se_wait_ns ev)]> (sc_per_thread a) |}
  else if se_event_type ev =? EVENT_MIGRATE then
    {| sc_lat := sc_lat a;
       sc_switch_count := sc_switch_count a;
       sc_total_migrations := add_u32 (sc_total_migrations a) 1;
       sc_ccx_cross_count :=
         if is_ccx_cross (se_prev_cpu ev) (se_next_cpu ev) ccx
         then add_u32 (sc_ccx_cross_count a) 1 else sc_ccx_cross_count a;
       sc_per_thread := <[se_tid ev := thread_migrate t]> (sc_per_thread a) |}
  else a.

Definition thread_stat (e : Z * ThreadAccum) : ThreadStat :=
  let '(tid, t) := e in
  {| ts_comm := ta_comm t; ts_tid := tid;
     ts_runqueue_min_us := min_us (ta_min_wait_ns t);
     ts_runqueue_max_us := ns_to_us (ta_max_wait_ns t);
     ts_runqueue_avg_us := avg_us_or_zero (ta_total_wait_ns t) (ta_switch_count t);
     ts_switch_count := ta_switch_count t;
     ts_migration_count := ta_migration_count t |}.

Definition thread_doc (s : SchedAggregator) (now : Z) (sid : string) (idx : nat) (t : ThreadStat)
  : EbpfDocument :=
  Thread {|
    td_timestamp := now;
    td_data_stream := ebpf_thread;
    td_host := {| host_name := sched_host_name s; os := {| kernel := sched_kernel_version s |} |};
    td_rigsignal := {|
      rt_session := {| session_id := sid |};
      rt_ebpf_thread := {|
        tm_probe := "schedlatency";
        tm_rank := as_u8 (Z.of_nat idx + 1);
        tm_comm := ts_comm t;
        tm_tid := ts_tid t;
        tm_runqueue_min_us := ts_runqueue_min_us t;
        tm_runqueue_max_us := ts_runqueue_max_us t;
        tm_runqueue_avg_us := ts_runqueue_avg_us t;
        tm_switch_count := ts_switch_count t;
        tm_migration_count := ts_migration_count t |} |} |}.

(** [b.switch_count.cmp(&a.switch_count)]: [a] may stay before [b]. *)
Definition more_switches (a b : ThreadStat) : bool := ts_switch_count b <=? ts_switch_count a.

Section flush.
Context `{HashIter}.

(** [sort_by], then [truncate(8)]. *)
Definition thread_breakdown (per_thread : gmap Z ThreadAccum) : list ThreadStat :=
  take 8 (stable_sort more_switches (thread_stat <$> hash_iter per_thread)).

Definition sched_flush (s : SchedAggregator) (now : Z) (sid : string)
  : list EbpfDocument * SchedAggregator :=
  let events := sched_events s in
  let s' := sched_new (sched_host_name s) (sched_kernel_version s) (cpu_to_ccx s) in
  match events with
  | [] => ([], s')
  | _ =>
    let a := foldl (sched_step (cpu_to_ccx s)) sched_init events in
    let lat := sc_lat a in
    (Metric (metric_doc now (sched_host_name s) (sched_kernel_version s) sid {|
       probe := "schedlatency"; bio := None; gpu_sched := None; mem := None;
       runqueue := Some {|
         rq_latency_histogram := la_histogram lat;
         rq_latency_min_us := min_us (la_min_ns lat);
         rq_latency_max_us := ns_to_us (la_max_ns lat);
         rq_latency_avg_us := avg_us_or_zero (la_total_ns lat) (sc_switch_count a);
         rq_event_count := sc_switch_count a |};
       migration := Some {|
         total_count := sc_total_migrations a;
         ccx_cross_count := sc_ccx_cross_count a |};
       stutter := None; futex := None; irq := None; vfs := None;
       gpu_fence := None; gpu_submit := None |})
     :: imap (thread_doc s now sid) (thread_breakdown (sc_per_thread a)), s')
  end.
End flush.

(** ** The interface is implemented *)

#[export] Instance hash_iter_sorted : HashIter :=
  {| hash_iter V m := map_to_list m; hash_iter_perm V m := reflexivity _ |}.

Lemma filter_map_thread_docs s now sid (f : nat → nat) l :
  filter_map as_metric (imap (λ i, thread_doc s now sid (f i)) l) = [].
Proof.
  revert f. induction l as [|t l IH]; intros f; simpl; [done|].
  apply (IH (λ i, f (S i))).
Qed.

Lemma thread_docs_probe s now sid l d :
  d ∈ imap (thread_doc s now sid) l → document_probe d = "schedlatency".
Proof. by intros (i & t & -> & _)%elem_of_lookup_imap_1. Qed.

#[export] Program Instance sched_aggregator `{HashIter} : WindowAggregator SchedAggregator RawSchedEvent := {|
  wa_probe := "schedlatency";
  wa_fresh s := sched_new (sched_host_name s) (sched_kernel_version s) (cpu_to_ccx s);
  wa_push := sched_push; wa_flush := sched_flush |}.
Next Obligation. intros. unfold sched_flush. by destruct (sched_events s). Qed.
Next Obligation. done. Qed.
Next Obligation. done. Qed.
Next Obligation.
  intros. unfold sched_flush. destruct (sched_events s); simpl; [lia|].
  rewrite (filter_map_thread_docs s now sid (λ i, i)). simpl. lia.
Qed.
Next Obligation.
  intros H s now sid d. unfold sched_flush. destruct (sched_events s); simpl; [set_solver|].
  intros [->|Hd]%elem_of_cons; [done|]. by eapply thread_docs_probe.
Qed.

(** ** Per-thread accounting *)

(** The events that concern a thread, and its view of the fold. *)
Definition is_switch (ev : RawSchedEvent) : bool := se_event_type ev =? EVENT_SWITCH.
Definition is_migrate (ev : RawSchedEvent) : bool := se_event_type ev =? EVENT_MIGRATE.
Definition own_switches (tid : Z) (evs : list RawSchedEvent) : list RawSchedEvent :=
  List.filter (λ e, is_switch e && (se_tid e =? tid)) evs.
Definition own_migrations (tid : Z) (evs : list RawSchedEvent) : list RawSchedEvent :=
  List.filter (λ e, is_migrate e && (se_tid e =? tid)) evs.

Lemma sched_pushes s evs :
  foldl sched_push s evs
  = {| sched_events := sched_events s ++ evs; sched_host_name := sched_host_name s;
       sched_kernel_version := sched_kernel_version s; cpu_to_ccx := cpu_to_ccx s |}.
Proof. pushes_tac. Qed.

Lemma sched_foldl_lat ccx a evs :
  sc_lat (foldl (sched_step ccx) a evs)
  = foldl lat_step (sc_lat a) (se_wait_ns <$> List.filter is_switch evs).
Proof.
  revert a. induction evs as [|e evs IH]; intros a; simpl; [done|]. rewrite IH.
  unfold sched_step, is_switch. destruct (se_event_type e =? EVENT_SWITCH); simpl; [done|].
  by destruct (se_event_type e =? EVENT_MIGRATE).
Qed.

Lemma sched_foldl_switches ccx a evs :
  0 ≤ sc_switch_count a → sc_switch_count a + Z.of_nat (length evs) ≤ u64_max →
  sc_switch_count (foldl (sched_step ccx) a evs)
  = sc_switch_count a + Z.of_nat (count is_switch evs).
Proof.
  revert a. induction evs as [|e evs IH]; intros a Ha Hl; cbn [foldl]; [unfold count; simpl; lia|].
  simpl in Hl. rewrite count_cons. unfold is_switch at 1.
  assert (Hstep : sc_switch_count (sched_step ccx a e)
    = sc_switch_count a + if se_event_type e =? EVENT_SWITCH then 1 else 0).
  { unfold sched_step. destruct (se_event_type e =? EVENT_SWITCH); simpl.
    - apply add_u64_small. lia.
    - destruct (se_event_type e =? EVENT_MIGRATE); simpl; lia. }
  rewrite IH; rewrite Hstep; destruct (se_event_type e =? EVENT_SWITCH); lia.
Qed.

(** The counters kept in [u32]: migrations and CCX crossings. *)
Definition crosses (ccx : gmap Z Z) (ev : RawSchedEvent) : bool :=
  is_migrate ev && is_ccx_cross (se_prev_cpu ev) (se_next_cpu ev) ccx.

Lemma is_migrate_not_switch e : is_switch e = true → is_migrate e = false.
Proof.
  unfold is_switch, is_migrate, EVENT_SWITCH, EVENT_MIGRATE. intros ->%Z.eqb_eq. done.
Qed.

Lemma sched_foldl_migrations ccx a evs :
  0 ≤ sc_total_migrations a → 0 ≤ sc_ccx_cross_count a →
  sc_total_migrations a + Z.of_nat (length evs) ≤ u32_max →
  sc_ccx_cross_count a + Z.of_nat (length evs) ≤ u32_max →
  sc_total_migrations (foldl (sched_step ccx) a evs)
  = sc_total_migrations a + Z.of_nat (count is_migrate evs)
  ∧ sc_ccx_cross_count (foldl (sched_step ccx) a evs)
    = sc_ccx_cross_count a + Z.of_nat (count (crosses ccx) evs).
Proof.
  revert a. induction evs as [|e evs IH]; intros a Ha Hb Hla Hlb; cbn [foldl]; [unfold count; simpl; lia|].
  simpl in Hla, Hlb. rewrite !count_cons.
  assert (Hstep : sc_total_migrations (sched_step ccx a e)
      = sc_total_migrations a + (if is_migrate e then 1 else 0)
    ∧ sc_ccx_cross_count (sched_step ccx a e)
      = sc_ccx_cross_count a + (if crosses ccx e then 1 else 0)).
  { unfold sched_step, crosses. fold (is_switch e) (is_migrate e).
    destruct (is_switch e) eqn:Hs; [rewrite (is_migrate_not_switch e Hs); simpl; lia|].
    destruct (is_migrate e); simpl; [|lia]. autorewrite with machine_int.
    destruct (is_ccx_cross _ _ _); [autorewrite with machine_int|]; lia. }
  destruct Hstep as [H1 H2].
  destruct (IH (sched_step ccx a e)) as [-> ->]; rewrite ?H1, ?H2;
    destruct (is_migrate e), (crosses ccx e); lia.
Qed.

Lemma min_list_snoc l x : x ≤ u64_max → min_list (l ++ [x]) = Z.min (min_list l) x.
Proof. intros. unfold min_list. induction l as [|y l IH]; simpl in *; lia. Qed.

Lemma max_list_snoc l x : 0 ≤ x → max_list (l ++ [x]) = Z.max (max_list l) x.
Proof. intros. unfold max_list. induction l as [|y l IH]; simpl in *; lia. Qed.

Lemma sat_sum_snoc l x :
  0 ≤ x → Forall (λ y, 0 ≤ y) l →
  Z.min (sumZ (l ++ [x])) u64_max = sat_add_u64 (Z.min (sumZ l) u64_max) x.
Proof.
  intros Hx Hl. rewrite sumZ_app, sumZ_cons. change (sumZ []) with 0.
  pose proof (sumZ_nonneg l Hl). unfold sat_add_u64, u64_max. lia.
Qed.

(** What a window's accumulator for thread [tid] must hold. *)
Definition thread_exact (tid : Z) (evs : list RawSchedEvent) (o : option ThreadAccum) : Prop :=
  let sw := own_switches tid evs in
  let mg := own_migrations tid evs in
  match o with
  | None => sw = [] ∧ mg = []
  | Some t =>
      (sw ≠ [] ∨ mg ≠ [])
      ∧ ta_switch_count t = Z.of_nat (length sw)
      ∧ ta_migration_count t = Z.of_nat (length mg)
      ∧ ta_total_wait_ns t = Z.min (sumZ (se_wait_ns <$> sw)) u64_max
      ∧ ta_min_wait_ns t = min_list (se_wait_ns <$> sw)
      ∧ ta_max_wait_ns t = max_list (se_wait_ns <$> sw)
  end.

Lemma own_switches_snoc tid evs e :
  own_switches tid (evs ++ [e])
  = own_switches tid evs ++ (if is_switch e && (se_tid e =? tid) then [e] else []).
Proof. unfold own_switches. rewrite List.filter_app. simpl. by destruct (_ && _). Qed.

Lemma own_migrations_snoc tid evs e :
  own_migrations tid (evs ++ [e])
  = own_migrations tid evs ++ (if is_migrate e && (se_tid e =? tid) then [e] else []).
Proof. unfold own_migrations. rewrite List.filter_app. simpl. by destruct (_ && _). Qed.

Definition sched_window_ok (evs : list RawSchedEvent) : Prop :=
  Forall (λ e, is_u64 (se_wait_ns e)) evs ∧ Z.of_nat (length evs) ≤ u32_max.

Lemma own_waits_nonneg tid evs :
  sched_window_ok evs → Forall (λ y, 0 ≤ y) (se_wait_ns <$> own_switches tid evs).
Proof.
  intros [Hu _]. apply Forall_fmap, Forall_forall. intros e He.
  apply list_elem_of_In, List.filter_In in He as [He _].
  rewrite Forall_forall in Hu. apply list_elem_of_In in He. by destruct (Hu e He).
Qed.

Lemma length_own_le (p : RawSchedEvent → bool) evs :
  (length (List.filter p evs) ≤ length evs)%nat.
Proof. apply List.filter_length_le. Qed.

Lemma sched_window_ok_snoc evs e :
  sched_window_ok (evs ++ [e]) → sched_window_ok evs ∧ is_u64 (se_wait_ns e)
  ∧ Z.of_nat (length evs) + 1 ≤ u32_max.
Proof.
  intros [Hu Hl]. apply Forall_app in Hu as [Hu He]. rewrite length_app in Hl. simpl in Hl.
  apply Forall_cons in He as [He _]. split; [split; [done|lia]|split; [done|lia]].
Qed.

Lemma sched_foldl_thread ccx tid evs :
  sched_window_ok evs →
  thread_exact tid evs (sc_per_thread (foldl (sched_step ccx) sched_init evs) !! tid).
Proof.
  induction evs as [|e evs IH] using rev_ind; intros Hok.
  { simpl. rewrite lookup_empty. done. }
  apply sched_window_ok_snoc in Hok as (Hok & He & Hlen). specialize (IH Hok).
  pose proof (own_waits_nonneg tid evs Hok) as Hnn.
  rewrite foldl_app. cbn [foldl]. set (a := foldl _ _ evs) in *.
  unfold thread_exact in *. rewrite own_switches_snoc, own_migrations_snoc.
  pose proof (length_own_le (λ e, is_switch e && (se_tid e =? tid)) evs) as Hls.
  pose proof (length_own_le (λ e, is_migrate e && (se_tid e =? tid)) evs) as Hlm.
  fold (own_switches tid evs) in Hls. fold (own_migrations tid evs) in Hlm.
  unfold sched_step. fold (is_switch e) (is_migrate e).
  set (mine := se_tid e =? tid). destruct He as [He1 He2].
  assert (Hother : mine = false → ∀ v, <[se_tid e:=v]> (sc_per_thread a) !! tid = sc_per_thread a !! tid).
  { intros Hm v. apply Z.eqb_neq in Hm. by apply lookup_insert_ne. }
  destruct (is_switch e) eqn:Hs;
    [rewrite (is_migrate_not_switch e Hs)|destruct (is_migrate e) eqn:Hmg]; simpl;
    rewrite ?app_nil_r; try exact IH;
    destruct mine eqn:Hmine; rewrite ?app_nil_r; try (rewrite Hother by done; exact IH).
  - apply Z.eqb_eq in Hmine. subst tid. rewrite lookup_insert_eq.
    rewrite fmap_app, length_app. cbn [fmap list_fmap length].
    rewrite sat_sum_snoc, min_list_snoc, max_list_snoc by done.
    destruct (sc_per_thread a !! se_tid e) as [t|]; simpl.
    + destruct IH as (_ & -> & -> & -> & -> & ->). autorewrite with machine_int.
      split_and!; [left; by destruct (own_switches _ _)|lia|done..].
    + destruct IH as [-> ->]. split_and!; [by left|done..].
  - apply Z.eqb_eq in Hmine. subst tid. rewrite lookup_insert_eq. rewrite length_app. cbn [length].
    destruct (sc_per_thread a !! se_tid e) as [t|]; simpl.
    + destruct IH as (_ & -> & -> & -> & -> & ->). autorewrite with machine_int.
      split_and!; [right; by destruct (own_migrations _ _)|done|lia|done..].
    + destruct IH as [-> ->]. split_and!; [by right|done..].
Qed.

(** ** Conservation *)

Definition total_of (f : ThreadAccum → Z) (m : gmap Z ThreadAccum) : Z :=
  sumZ ((λ e, f e.2) <$> map_to_list m).

Lemma total_of_insert f m k v :
  total_of f (<[k := v]> m)
  = total_of f m - match m !! k with Some t => f t | None => 0 end + f v.
Proof.
  unfold total_of. destruct (m !! k) as [t|] eqn:E.
  - rewrite <-insert_delete_eq, map_to_list_insert by apply lookup_delete_eq.
    rewrite <-(insert_delete_id m k t E) at 2.
    rewrite map_to_list_insert by apply lookup_delete_eq.
    rewrite !fmap_cons, !sumZ_cons. simpl. lia.
  - rewrite map_to_list_insert by done. rewrite fmap_cons, sumZ_cons. simpl. lia.
Qed.

Lemma sched_conserve ccx evs :
  sched_window_ok evs →
  total_of ta_switch_count (sc_per_thread (foldl (sched_step ccx) sched_init evs))
  = Z.of_nat (count is_switch evs)
  ∧ total_of ta_migration_count (sc_per_thread (foldl (sched_step ccx) sched_init evs))
    = Z.of_nat (count is_migrate evs).
Proof.
  induction evs as [|e evs IH] using rev_ind; intros Hok; [done|].
  apply sched_window_ok_snoc in Hok as (Hok & He & Hlen). specialize (IH Hok).
  pose proof (sched_foldl_thread ccx (se_tid e) evs Hok) as Ht.
  rewrite foldl_app. cbn [foldl]. set (a := foldl _ _ evs) in *.
  assert (Hbound : ∀ t, sc_per_thread a !! se_tid e = Some t →
    0 ≤ ta_switch_count t ≤ Z.of_nat (length evs)
    ∧ 0 ≤ ta_migration_count t ≤ Z.of_nat (length evs)).
  { intros t E. rewrite E in Ht. destruct Ht as (_ & -> & -> & _).
    pose proof (length_own_le (λ e', is_switch e' && (se_tid e' =? se_tid e)) evs).
    pose proof (length_own_le (λ e', is_migrate e' && (se_tid e' =? se_tid e)) evs).
    unfold own_switches, own_migrations. lia. }
  rewrite !count_app, !count_cons. change (count is_switch []) with 0%nat.
  change (count is_migrate []) with 0%nat.
  unfold sched_step. fold (is_switch e) (is_migrate e).
  destruct (is_switch e) eqn:Hs;
    [rewrite (is_migrate_not_switch e Hs)|destruct (is_migrate e) eqn:Hmg]; simpl; [..|lia].
  all: rewrite !total_of_insert.
  all: destruct (sc_per_thread a !! se_tid e) as [t|]; simpl;
    [specialize (Hbound t eq_refl); autorewrite with machine_int|];
    change (add_u32 0 1) with 1; lia.
Qed.

(** ** The thread documents *)

Definition as_thread (d : EbpfDocument) : option ThreadMetric :=
  match d with Thread doc => Some (rt_ebpf_thread (td_rigsignal doc)) | Metric _ => None end.

(** The thread metric of rank [i + 1]. *)
Definition metric_of (i : nat) (t : ThreadStat) : ThreadMetric :=
  {| tm_probe := "schedlatency"; tm_rank := as_u8 (Z.of_nat i + 1); tm_comm := ts_comm t;
     tm_tid := ts_tid t; tm_runqueue_min_us := ts_runqueue_min_us t;
     tm_runqueue_max_us := ts_runqueue_max_us t; tm_runqueue_avg_us := ts_runqueue_avg_us t;
     tm_switch_count := ts_switch_count t; tm_migration_count := ts_migration_count t |}.

Lemma as_thread_docs s now sid (f : nat → nat) l :
  filter_map as_thread (imap (λ i, thread_doc s now sid (f i)) l)
  = imap (λ i, metric_of (f i)) l.
Proof.
  revert f. induction l as [|t l IH]; intros f; simpl; [done|]. f_equal.
  apply (IH (λ i, f (S i))).
Qed.

Section breakdown.
Context `{HashIter} (m : gmap Z ThreadAccum).
Let all := stable_sort more_switches (thread_stat <$> hash_iter m).

Lemma more_switches_total a b : more_switches a b = false → more_switches b a = true.
Proof. unfold more_switches. intros ?%Z.leb_gt. apply Z.leb_le. lia. Qed.

Lemma breakdown_perm : all ≡ₚ thread_stat <$> map_to_list m.
Proof. unfold all. rewrite stable_sort_perm. apply fmap_Permutation, hash_iter_perm. Qed.

Lemma breakdown_sorted : StronglySorted (λ a b, ts_switch_count b ≤ ts_switch_count a) all.
Proof.
  apply Sorted_StronglySorted; [intros ???; lia|].
  eapply Sorted_mono; [|apply stable_sort_sorted, more_switches_total].
  intros a b. by intros ?%Z.leb_le.
Qed.

Lemma breakdown_tids : ts_tid <$> all ≡ₚ (map_to_list m).*1.
Proof.
  rewrite breakdown_perm, <-list_fmap_compose.
  rewrite (list_fmap_ext (ts_tid ∘ thread_stat) fst (map_to_list m)); [done|].
  by intros _ [tid t] _.
Qed.

Lemma length_breakdown : length (thread_breakdown m) = Nat.min 8 (size m).
Proof.
  unfold thread_breakdown. fold all. rewrite length_take, breakdown_perm, length_fmap.
  by rewrite length_map_to_list.
Qed.

Lemma NoDup_breakdown : NoDup (ts_tid <$> thread_breakdown m).
Proof.
  unfold thread_breakdown. fold all. rewrite fmap_take. eapply sublist_NoDup; [|apply sublist_take].
  rewrite breakdown_tids. apply NoDup_fst_map_to_list.
Qed.

Lemma breakdown_entry st :
  st ∈ thread_breakdown m → ∃ tid t, m !! tid = Some t ∧ st = thread_stat (tid, t).
Proof.
  intros Hst. assert (Hall : st ∈ all) by (eapply subseteq_take; exact Hst).
  rewrite breakdown_perm in Hall. apply list_elem_of_fmap in Hall as ([tid t] & -> & Ht).
  exists tid, t. split; [by apply elem_of_map_to_list|done].
Qed.

(** A thread that is left out has no more switches than any listed one. *)
Lemma breakdown_left_out tid t st :
  m !! tid = Some t → tid ∉ ts_tid <$> thread_breakdown m →
  st ∈ thread_breakdown m → ta_switch_count t ≤ ts_switch_count st.
Proof.
  intros Ht Hout Hst.
  assert (Hin : thread_stat (tid, t) ∈ all).
  { rewrite breakdown_perm. apply list_elem_of_fmap_2. by apply elem_of_map_to_list. }
  pose proof breakdown_sorted as Hs. rewrite <-(take_drop 8 all) in Hin, Hs.
  apply elem_of_app in Hin as [Hin|Hin].
  - destruct Hout. apply list_elem_of_fmap. by exists (thread_stat (tid, t)).
  - eapply (StronglySorted_app_1_elem_of _ _ _ _ _ Hs Hst Hin).
Qed.
End breakdown.

Lemma metric_of_tids (g : nat → nat) l :
  tm_tid <$> imap (λ i, metric_of (g i)) l = ts_tid <$> l.
Proof.
  revert g. induction l as [|t l IH]; intros g; [done|]. simpl. f_equal.
  apply (IH (λ i, g (S i))).
Qed.

Lemma metric_of_sorted l (g : nat → nat) :
  StronglySorted (λ a b, ts_switch_count b ≤ ts_switch_count a) l →
  StronglySorted (λ a b, tm_switch_count b ≤ tm_switch_count a) (imap (λ i, metric_of (g i)) l).
Proof.
  revert g. induction l as [|t l IH]; intros g Hs; [constructor|].
  apply StronglySorted_cons in Hs as [Ht Hs]. simpl. constructor; [by apply (IH (λ i, g (S i)))|].
  apply Forall_forall. intros x (i & y & -> & Hy)%elem_of_lookup_imap_1.
  rewrite Forall_forall in Ht. apply Ht. by eapply list_elem_of_lookup_2.
Qed.

(** ** The CCX map *)

(** The CPUs the walk registers, with their trimmed sharing list. *)
Definition cpu_lists (es : list CpuEntry) : list (Z * string) :=
  filter_map (λ e,
    let! n := cpu_number (ce_name e) in let! text := ce_shared_list e in Some (n, trim text)) es.

(** The walk's state after the registered CPUs [cs]: identifiers are handed
    out in order of first appearance, one per distinct list. *)
Record ccx_inv (cs : list (Z * string)) (w : CcxWalk) : Prop := {
  ci_map : ∀ cpu, cw_map w !! cpu
    = match last (List.filter (λ c, c.1 =? cpu) cs) with
      | Some c => cw_seen w !! c.2 | None => None end;
  ci_seen : ∀ l, is_Some (cw_seen w !! l) ↔ l ∈ cs.*2;
  ci_inj : ∀ l1 l2 i, cw_seen w !! l1 = Some i → cw_seen w !! l2 = Some i → l1 = l2;
  ci_below : ∀ l i, cw_seen w !! l = Some i → 0 ≤ i < cw_next w;
  ci_next : 0 ≤ cw_next w ≤ Z.of_nat (length cs);
}.

Lemma ccx_inv_step cs w e :
  ccx_inv cs w → Z.of_nat (length cs) < u32_max →
  ccx_inv (cs ++ cpu_lists [e]) (ccx_step w e).
Proof.
  intros [Hm Hs Hi Hb Hn] Hlen. unfold ccx_step, cpu_lists. simpl.
  destruct (cpu_number (ce_name e)) as [n|]; [|by rewrite app_nil_r].
  destruct (ce_shared_list e) as [text|]; [|by rewrite app_nil_r].
  set (l := trim text).
  assert (Hlast : ∀ cpu, last (List.filter (λ c, c.1 =? cpu) (cs ++ [(n, l)]))
    = if n =? cpu then Some (n, l) else last (List.filter (λ c, c.1 =? cpu) cs)).
  { intros cpu. rewrite List.filter_app. simpl.
    destruct (n =? cpu); simpl; [by rewrite last_snoc|by rewrite app_nil_r]. }
  assert (Hold : ∀ cpu c, last (List.filter (λ c, c.1 =? cpu) cs) = Some c → c.2 ∈ cs.*2).
  { intros cpu c Hc. apply last_Some_elem_of, list_elem_of_In, List.filter_In in Hc as [Hc _].
    apply list_elem_of_fmap_2. by apply list_elem_of_In. }
  destruct (cw_seen w !! l) as [i|] eqn:El.
  - split; simpl.
    + intros cpu. rewrite Hlast. destruct (Z.eqb_spec n cpu) as [<-|Hne].
      * by rewrite lookup_insert_eq.
      * by rewrite lookup_insert_ne.
    + intros l'. rewrite fmap_app, elem_of_app, Hs. simpl. rewrite list_elem_of_singleton.
      split; [by left|]. intros [?| ->]; [done|]. apply Hs. by exists i.
    + done.
    + done.
    + rewrite length_app. simpl. lia.
  - autorewrite with machine_int. split; simpl.
    + intros cpu. rewrite Hlast. destruct (Z.eqb_spec n cpu) as [<-|Hne].
      * by rewrite !lookup_insert_eq.
      * rewrite lookup_insert_ne, Hm by done. destruct (last _) as [c|] eqn:E; [|done].
        rewrite lookup_insert_ne; [done|]. intros Heq.
        apply Hold, Hs in E as [? E]. congruence.
    + intros l'. rewrite fmap_app, elem_of_app, <-Hs. simpl. rewrite list_elem_of_singleton.
      destruct (decide (l' = l)) as [->|Hne].
      * rewrite lookup_insert_eq. split; [by right|by eexists].
      * rewrite lookup_insert_ne by done. naive_solver.
    + intros l1 l2 i. rewrite !lookup_insert_Some.
      intros [[<- <-]|[? H1]] [[<- H2]|[? H2]]; [done| | |by eapply Hi].
      * apply Hb in H2. lia.
      * subst. apply Hb in H1. lia.
    + intros l1 i. rewrite lookup_insert_Some. intros [[_ <-]|[_ H1%Hb]]; lia.
    + rewrite length_app. simpl. lia.
Qed.

Lemma cpu_lists_app es es' : cpu_lists (es ++ es') = cpu_lists es ++ cpu_lists es'.
Proof. apply filter_map_app. Qed.

Lemma ccx_inv_foldl es :
  Z.of_nat (length es) ≤ u32_max →
  ccx_inv (cpu_lists es) (foldl ccx_step {| cw_map := ∅; cw_seen := ∅; cw_next := 0 |} es).
Proof.
  induction es as [|e es IH] using rev_ind; intros Hl.
  - split; simpl; [intros; by rewrite lookup_empty| |intros ?? i; by rewrite lookup_empty
      |intros ? i; by rewrite lookup_empty|lia].
    intros l. rewrite lookup_empty. split; [by intros []|by intros ?%elem_of_nil].
  - rewrite length_app in Hl. simpl in Hl. rewrite foldl_app, cpu_lists_app.
    apply ccx_inv_step; [apply IH; lia|].
    pose proof (length_filter_map_le (λ e,
      let! n := cpu_number (ce_name e) in let! text := ce_shared_list e in Some (n, trim text)) es).
    unfold cpu_lists. lia.
Qed.

(** The sharing list the walk last saw for a CPU. *)
Definition list_of_cpu (es : list CpuEntry) (cpu : Z) : option string :=
  snd <$> last (List.filter (λ c, c.1 =? cpu) (cpu_lists es)).

Lemma ccx_of_cpu es cpu :
  Z.of_nat (length es) ≤ u32_max →
  build_ccx_map (Some es) !! cpu
  = let! l := list_of_cpu es cpu in
    cw_seen (foldl ccx_step {| cw_map := ∅; cw_seen := ∅; cw_next := 0 |} es) !! l.
Proof.
  intros Hl. destruct (ccx_inv_foldl es Hl) as [Hm _ _ _ _]. simpl. rewrite Hm.
  unfold list_of_cpu. by destruct (last _).
Qed.

Lemma list_of_cpu_seen es cpu l :
  Z.of_nat (length es) ≤ u32_max → list_of_cpu es cpu = Some l →
  is_Some (cw_seen (foldl ccx_step {| cw_map := ∅; cw_seen := ∅; cw_next := 0 |} es) !! l).
Proof.
  intros Hl Hc. destruct (ccx_inv_foldl es Hl) as [_ Hs _ _ _]. apply Hs.
  unfold list_of_cpu in Hc. apply fmap_Some in Hc as (c & Hc & ->).
  apply last_Some_elem_of, list_elem_of_In, List.filter_In in Hc as [Hc _].
  apply list_elem_of_fmap_2. by apply list_elem_of_In.
Qed.

(** A migration counts as a CCX crossing exactly when both CPUs are in the
    topology map and the kernel lists different L3 sharing sets for them. *)
Theorem ccx_cross_iff (es : list CpuEntry) (prev_cpu next_cpu : Z)
    (Hlen : Z.of_nat (length es) ≤ u32_max) :
  is_ccx_cross prev_cpu next_cpu (build_ccx_map (Some es)) = true
  ↔ ∃ l1 l2, list_of_cpu es prev_cpu = Some l1 ∧ list_of_cpu es next_cpu = Some l2 ∧ l1 ≠ l2.
Proof.
  pose proof (ccx_of_cpu es prev_cpu Hlen) as H1. pose proof (ccx_of_cpu es next_cpu Hlen) as H2.
  pose proof (list_of_cpu_seen es prev_cpu) as S1. pose proof (list_of_cpu_seen es next_cpu) as S2.
  destruct (ccx_inv_foldl es Hlen) as [_ _ Hi _ _].
  unfold is_ccx_cross. set (m := build_ccx_map _) in *.
  destruct (decide (m = ∅)) as [E|_].
  - rewrite E, lookup_empty in H1. split; [done|]. intros (l1 & l2 & Hl1 & _).
    rewrite Hl1 in H1. destruct (S1 l1 Hlen Hl1) as [i Hi1]. congruence.
  - rewrite H1, H2. destruct (list_of_cpu es prev_cpu) as [l1|]; [|naive_solver].
    destruct (list_of_cpu es next_cpu) as [l2|]; simpl.
    + destruct (S1 l1 Hlen eq_refl) as [i1 E1]. destruct (S2 l2 Hlen eq_refl) as [i2 E2].
      rewrite E1, E2. destruct (Z.eqb_spec i1 i2) as [->|Hne]; simpl.
      * split; [done|]. intros (? & ? & [= ->] & [= ->] & Hne). destruct Hne. by eapply Hi.
      * split; [|done]. intros _. exists l1, l2. split_and!; [done|done|]. intros ->. congruence.
    + destruct (S1 l1 Hlen eq_refl) as [i1 ->]. naive_solver.
Qed.

Lemma ccx_cross_iff_witness :
  is_ccx_cross 0 8 (build_ccx_map (Some [
    {| ce_name := "cpu0"; ce_shared_list := Some "0-7" |};
    {| ce_name := "cpufreq"; ce_shared_list := None |};
    {| ce_name := "cpu8"; ce_shared_list := Some "8-15" |}])) = true.
Proof.
  apply ccx_cross_iff.
  - vm_compute. discriminate.
  - exists "0-7", "8-15". split; [reflexivity|]. split; [reflexivity|discriminate].
Defined.

(** ** Window properties *)

Definition sched_fold (s : SchedAggregator) (evs : list RawSchedEvent) : SchedAccum :=
  foldl (sched_step (cpu_to_ccx s)) sched_init evs.

(** C22: a non-empty scheduler window yields one aggregate document followed
    by thread documents only.  The aggregate counts exactly the switch events
    (their latencies fill its histogram and its extremes), the migrations and
    the CCX crossings; every listed thread reports exactly its own events, its
    switch and migration counts included. *)
Theorem sched_window_exact `{HI : HashIter} (s : SchedAggregator) (evs : list RawSchedEvent) (now : Z)
    (sid : string) (Hne : evs ≠ []) (Hok : sched_window_ok evs) :
  ∃ doc rest rq mg,
    fst (run_window s evs now sid) = Metric doc :: rest
    ∧ filter_map as_metric rest = []
    ∧ runqueue (ebpf (md_rigsignal doc)) = Some rq
    ∧ migration (ebpf (md_rigsignal doc)) = Some mg
    ∧ let waits := se_wait_ns <$> List.filter is_switch evs in
      counts (rq_latency_histogram rq) = bucket_counts waits
      ∧ rq_event_count rq = Z.of_nat (count is_switch evs)
      ∧ rq_latency_min_us rq = min_us (min_list waits)
      ∧ rq_latency_max_us rq = ns_to_us (max_list waits)
      ∧ total_count mg = Z.of_nat (count is_migrate evs)
      ∧ ccx_cross_count mg = Z.of_nat (count (crosses (cpu_to_ccx s)) evs)
      ∧ ∀ t, t ∈ filter_map as_thread rest →
          tm_switch_count t = Z.of_nat (length (own_switches (tm_tid t) evs))
          ∧ tm_migration_count t = Z.of_nat (length (own_migrations (tm_tid t) evs))
          ∧ tm_runqueue_max_us t
            = ns_to_us (max_list (se_wait_ns <$> own_switches (tm_tid t) evs)).
Proof.
  assert (Hw : window_ok (se_wait_ns <$> List.filter is_switch evs)).
  { destruct Hok as [Hu Hl]. split.
    - apply Forall_fmap, Forall_forall. intros e He. rewrite Forall_forall in Hu. apply Hu.
      apply list_elem_of_In, List.filter_In in He as [He _]. by apply list_elem_of_In.
    - rewrite length_fmap. pose proof (length_own_le is_switch evs). unfold u32_max, u64_max in *. lia. }
  destruct (lat_window_stats _ Hw) as [Hc _ _ Hmin Hmax].
  assert (Hn : Z.of_nat (length evs) ≤ u64_max) by (destruct Hok; unfold u32_max, u64_max in *; lia).
  pose proof (sched_foldl_switches (cpu_to_ccx s) sched_init evs ltac:(simpl; lia) ltac:(simpl; lia)) as Hsw.
  destruct (sched_foldl_migrations (cpu_to_ccx s) sched_init evs) as [Hmg Hcc];
    [simpl; lia|simpl; lia|destruct Hok; simpl; lia|destruct Hok; simpl; lia|].
  pose proof (sched_foldl_lat (cpu_to_ccx s) sched_init evs) as Hlat.
  pose proof (λ tid, sched_foldl_thread (cpu_to_ccx s) tid evs Hok) as Hth.
  unfold run_window. simpl. rewrite sched_pushes. unfold sched_flush. cbn [sched_events sched_new app].
  destruct evs as [|e0 evs0]; [done|]. remember (e0 :: evs0) as evs.
  cbn [cpu_to_ccx fst]. set (a := foldl _ sched_init evs) in *.
  eexists _, _, _, _. split; [reflexivity|].
  split; [apply (filter_map_thread_docs _ _ _ (λ i, i))|].
  split; [reflexivity|]. split; [reflexivity|]. cbv zeta.
  cbn [rq_latency_histogram rq_event_count rq_latency_min_us rq_latency_max_us total_count ccx_cross_count].
  rewrite Hsw, Hmg, Hcc, Hlat. cbn [sc_lat sched_init sc_switch_count sc_total_migrations sc_ccx_cross_count].
  rewrite Hc, Hmin, Hmax. split_and!; [done..|].
  intros t. rewrite (as_thread_docs _ _ _ (λ i, i)). intros (i & st & -> & Hst)%elem_of_lookup_imap_1.
  apply list_elem_of_lookup_2, breakdown_entry in Hst as (tid & ta & Hta & ->).
  specialize (Hth tid). rewrite Hta in Hth. destruct Hth as (_ & H1 & H2 & _ & _ & H3).
  simpl. by rewrite H1, H2, H3.
Qed.

(** The two switches and the migration the witnesses run. *)
Definition demo_events : list RawSchedEvent :=
  [{| se_event_type := 0; se_tid := 7; se_wait_ns := 2500; se_prev_cpu := 0; se_next_cpu := 0; se_comm := "game" |};
   {| se_event_type := 1; se_tid := 9; se_wait_ns := 0; se_prev_cpu := 0; se_next_cpu := 1; se_comm := "audio" |};
   {| se_event_type := 0; se_tid := 7; se_wait_ns := 800; se_prev_cpu := 0; se_next_cpu := 0; se_comm := "game" |}].

Lemma sched_window_exact_witness :
  ∃ doc rest rq,
    fst (run_window (sched_new "h" "k" ∅) demo_events 5 "s") = Metric doc :: rest
    ∧ runqueue (ebpf (md_rigsignal doc)) = Some rq ∧ rq_event_count rq = 2.
Proof.
  destruct (sched_window_exact (sched_new "h" "k" ∅) demo_events 5 "s")
    as (doc & rest & rq & mg & H1 & _ & H2 & _ & _ & H3 & _).
  - discriminate.
  - split; [repeat constructor; discriminate|discriminate].
  - exists doc, rest, rq. split; [exact H1|]. split; [exact H2|]. rewrite H3. reflexivity.
Defined.

(** The thread documents of a window are its (at most eight) busiest
    threads: ranks 1, 2, ... in order, distinct thread ids, switch counts in
    descending order, all of them listed when there are at most eight, and no
    thread left out has more switches than a listed one. *)
Theorem sched_threads_top8 `{HI : HashIter} (s : SchedAggregator) (evs : list RawSchedEvent) (now : Z)
    (sid : string) (Hne : evs ≠ []) :
  let threads := filter_map as_thread (fst (run_window s evs now sid)) in
  let per_thread := sc_per_thread (sched_fold s evs) in
  length threads = Nat.min 8 (size per_thread)
  ∧ tm_rank <$> threads = (λ i, Z.of_nat i + 1) <$> seq 0 (length threads)
  ∧ NoDup (tm_tid <$> threads)
  ∧ StronglySorted (λ a b, tm_switch_count b ≤ tm_switch_count a) threads
  ∧ ∀ tid ta t, per_thread !! tid = Some ta → tid ∉ tm_tid <$> threads → t ∈ threads →
      ta_switch_count ta ≤ tm_switch_count t.
Proof.
  cbv zeta. unfold run_window, sched_fold. simpl. rewrite sched_pushes. unfold sched_flush.
  cbn [sched_events sched_new app cpu_to_ccx fst].
  destruct evs as [|e0 evs0]; [done|]. set (m := sc_per_thread _).
  cbn [fst filter_map as_thread]. rewrite (as_thread_docs _ _ _ (λ i, i)).
  pose proof (length_breakdown m) as Hlen.
  rewrite (metric_of_tids (λ i, i)), length_imap. split_and!.
  - exact Hlen.
  - apply list_eq. intros i. rewrite !list_lookup_fmap, list_lookup_imap.
    destruct (decide (i < length (thread_breakdown m))%nat) as [Hi|Hi].
    + rewrite lookup_seq_lt by done. destruct (lookup_lt_is_Some_2 _ _ Hi) as [t ->]. simpl.
      f_equal. unfold as_u8. apply wrap_small. lia.
    + rewrite !lookup_ge_None_2; [done|rewrite length_seq; lia|lia].
  - apply NoDup_breakdown.
  - pose proof (breakdown_sorted m) as Hs.
    rewrite <-(take_drop 8) in Hs. apply StronglySorted_app_1_l in Hs.
    by apply (metric_of_sorted _ (λ i, i)).
  - intros tid ta t Hta Hout (i & st & -> & Hst)%elem_of_lookup_imap_1. simpl.
    eapply breakdown_left_out; [done|done|]. by eapply list_elem_of_lookup_2.
Qed.

Lemma sched_threads_top8_witness :
  length (filter_map as_thread (fst (run_window (sched_new "h" "k" ∅) demo_events 5 "s"))) = 2%nat.
Proof.
  destruct (sched_threads_top8 (sched_new "h" "k" ∅) demo_events 5 "s") as (H & _).
  - discriminate.
  - rewrite H. reflexivity.
Defined.

(** No event is lost or counted twice across threads: the per-thread
    switch counts of a window add up to the aggregate's event count, and the
    per-thread migration counts to the aggregate's migration count. *)
Theorem sched_conservation (s : SchedAggregator) (evs : list RawSchedEvent)
    (Hok : sched_window_ok evs) :
  let a := sched_fold s evs in
  total_of ta_switch_count (sc_per_thread a) = sc_switch_count a
  ∧ total_of ta_migration_count (sc_per_thread a) = sc_total_migrations a.
Proof.
  cbv zeta. unfold sched_fold. destruct (sched_conserve (cpu_to_ccx s) evs Hok) as [-> ->].
  destruct Hok as [_ Hl].
  rewrite sched_foldl_switches by (simpl; unfold u32_max, u64_max in *; lia).
  destruct (sched_foldl_migrations (cpu_to_ccx s) sched_init evs) as [-> _]; simpl; lia.
Qed.

Lemma sched_conservation_witness :
  total_of ta_switch_count (sc_per_thread (sched_fold (sched_new "h" "k" ∅) demo_events)) = 2.
Proof.
  destruct (sched_conservation (sched_new "h" "k" ∅) demo_events) as [H _].
  - split; [repeat constructor; discriminate|discriminate].
  - rewrite H. reflexivity.
Defined.
