(* ===== verification/Probes.v ===== *)
(** * Probes: draining a ring buffer ([ebpf/rigsignal-ebpf/src/probes/])

    Every probe's [collect] drains its ring buffer, skips items shorter than
    its [repr(C)] event, pushes the decoded events and flushes its aggregator.
    The ring buffer belongs to aya: what it yields during one [collect] is the
    argument [items].  The rate limiters of the GPU-scheduler probe's loss
    diagnostics are here too. *)
From S2P Require Import Prelude Float64 EsModel Aggregator SchedAggregator.

(** ** Decoding ([read_unaligned] of a little-endian [repr(C)] struct) *)

Definition byte_at (s : string) (i : nat) : Z :=
  match String.get i s with Some c => byte_val c | None => 0 end.

(** [n] bytes at offset [off], least significant first. *)
Fixpoint le_at (s : string) (off n : nat) : Z :=
  match n with
  | O => 0
  | S n' => byte_at s off + 256 * le_at s (S off) n'
  end.

Definition decode_sched (s : string) : RawSchedEvent :=
  {| se_event_type := byte_at s 0; se_tid := le_at s 4 4; se_wait_ns := le_at s 8 8;
     se_prev_cpu := le_at s 16 4; se_next_cpu := le_at s 20 4;
     se_comm := String.substring 24 16 s |}.
Definition decode_bio (s : string) : RawBioEvent :=
  {| be_latency_ns := le_at s 0 8; be_bytes := le_at s 8 4 |}.
Definition decode_gpu_sched (s : string) : RawGpuSchedEvent := {| ge_latency_ns := le_at s 0 8 |}.
Definition decode_mem (s : string) : RawMemEvent :=
  {| me_event_type := byte_at s 0; me_is_write := byte_at s 1 |}.
Definition decode_futex (s : string) : RawFutexEvent := {| fe_latency_ns := le_at s 0 8 |}.
Definition decode_irq (s : string) : RawIrqEvent :=
  {| ie_latency_ns := le_at s 0 8; ie_kind := byte_at s 8 |}.
Definition decode_vfs (s : string) : RawVfsEvent :=
  {| ve_latency_ns := le_at s 0 8; ve_op := byte_at s 8 |}.
Definition decode_gpu_fence (s : string) : RawGpuFenceEvent := {| fen_latency_ns := le_at s 0 8 |}.
Definition decode_gpu_submit (s : string) : RawGpuSubmitEvent := {| sub_timestamp_ns := le_at s 0 8 |}.

(** ** Collecting *)

(** A loaded probe: its aggregator behind the interface, the size of its raw
    event and the decoder. *)
Record LoadedProbe := {
  lp_state : Type;
  lp_event : Type;
  lp_agg :: WindowAggregator lp_state lp_event;
  lp_size : nat;
  lp_decode : string → lp_event;
  lp_self : lp_state;
}.

(** [Probe::name]. *)
Definition probe_name (p : LoadedProbe) : string := wa_probe (WindowAggregator := lp_agg p).

(** The drain loop: an undersized item is skipped, the loop goes on. *)
Fixpoint drain {S E} `{WindowAggregator S E} (size : nat) (decode : string → E)
    (s : S) (items : list string) : S :=
  match items with
  | [] => s
  | bytes :: rest =>
      if (String.length bytes <? size)%nat then drain size decode s rest
      else drain size decode (wa_push s (decode bytes)) rest
  end.

Definition with_self (p : LoadedProbe) (s : lp_state p) : LoadedProbe :=
  {| lp_state := lp_state p; lp_event := lp_event p; lp_agg := lp_agg p;
     lp_size := lp_size p; lp_decode := lp_decode p; lp_self := s |}.

(** [collect]; [now] is the clock reading of [flush]. *)
Definition collect (p : LoadedProbe) (items : list string) (now : Z) (sid : string)
  : list EbpfDocument * LoadedProbe :=
  let drained := drain (lp_size p) (lp_decode p) (lp_self p) items in
  let '(docs, s') := wa_flush drained now sid in
  (docs, with_self p s').

(** The nine probes [main] offers to the loader, in its order. *)
Section candidates.
Context `{HashIter} (host kernel_version : string) (ccx : gmap Z Z).

Definition sched_probe : LoadedProbe :=
  {| lp_state := SchedAggregator; lp_event := RawSchedEvent; lp_agg := sched_aggregator;
     lp_size := 40; lp_decode := decode_sched; lp_self := sched_new host kernel_version ccx |}.
Definition bio_probe : LoadedProbe :=
  {| lp_state := BioAggregator; lp_event := RawBioEvent; lp_agg := bio_aggregator;
     lp_size := 16; lp_decode := decode_bio; lp_self := bio_new host kernel_version |}.
Definition gpu_sched_probe : LoadedProbe :=
  {| lp_state := GpuAggregator; lp_event := RawGpuSchedEvent; lp_agg := gpu_aggregator;
     lp_size := 16; lp_decode := decode_gpu_sched; lp_self := gpu_new host kernel_version |}.
Definition mem_probe : LoadedProbe :=
  {| lp_state := MemAggregator; lp_event := RawMemEvent; lp_agg := mem_aggregator;
     lp_size := 8; lp_decode := decode_mem; lp_self := mem_new host kernel_version |}.
Definition futex_probe : LoadedProbe :=
  {| lp_state := FutexAggregator; lp_event := RawFutexEvent; lp_agg := futex_aggregator;
     lp_size := 16; lp_decode := decode_futex; lp_self := futex_new host kernel_version |}.
Definition irq_probe : LoadedProbe :=
  {| lp_state := IrqAggregator; lp_event := RawIrqEvent; lp_agg := irq_aggregator;
     lp_size := 16; lp_decode := decode_irq; lp_self := irq_new host kernel_version |}.
Definition vfs_probe : LoadedProbe :=
  {| lp_state := VfsAggregator; lp_event := RawVfsEvent; lp_agg := vfs_aggregator;
     lp_size := 16; lp_decode := decode_vfs; lp_self := vfs_new host kernel_version |}.
Definition gpu_fence_probe : LoadedProbe :=
  {| lp_state := GpuFenceAggregator; lp_event := RawGpuFenceEvent; lp_agg := fence_aggregator;
     lp_size := 16; lp_decode := decode_gpu_fence; lp_self := fence_new host kernel_version |}.
Definition gpu_submit_probe : LoadedProbe :=
  {| lp_state := GpuSubmitAggregator; lp_event := RawGpuSubmitEvent; lp_agg := submit_aggregator;
     lp_size := 16; lp_decode := decode_gpu_submit; lp_self := submit_new host kernel_version |}.

Definition candidates : list LoadedProbe :=
  [sched_probe; bio_probe; gpu_sched_probe; mem_probe; futex_probe; irq_probe;
   vfs_probe; gpu_fence_probe; gpu_submit_probe].
End candidates.

(** [load_probes]: the candidates whose requirements hold and whose [attach]
    succeeds, in order; [attached p] is that outcome, decided by the kernel. *)
Definition load_probes (attached : LoadedProbe → bool) (cands : list LoadedProbe)
  : list LoadedProbe * Z :=
  foldl (λ '(active, skipped) p,
    if attached p then (active ++ [p], skipped) else (active, skipped + 1)) ([], 0) cands.

(** ** Loss diagnostics of the GPU-scheduler probe *)

(** [Duration]s and [Instant]s are nanoseconds; [duration_since] saturates at 0. *)
Definition LOSS_WARN_INTERVAL : Z := 30 * 1000000000.
Definition duration_since (now last : Z) : Z := Z.max 0 (now - last).

(** Four [u64] counters. *)
Definition LossCounters := list Z.
Definition default_loss : LossCounters := [0; 0; 0; 0].
Definition has_losses (c : LossCounters) : bool := existsb (λ count, 0 <? count) c.
(** [saturating_sub] index by index. *)
Definition loss_minus (c previous : LossCounters) : LossCounters :=
  zip_with (λ a b, Z.max 0 (a - b)) c previous.

Record LossWarningTracker := {
  lw_last_logged_at : option Z;
  lw_last_logged : LossCounters;
}.
Definition loss_new : LossWarningTracker :=
  {| lw_last_logged_at := None; lw_last_logged := default_loss |}.

Definition loss_observe (t : LossWarningTracker) (counters : LossCounters) (now : Z)
  : option LossCounters * LossWarningTracker :=
  let delta := loss_minus counters (lw_last_logged t) in
  if negb (has_losses delta)
     || is_some_and (lw_last_logged_at t)
          (λ last, duration_since now last <? LOSS_WARN_INTERVAL)
  then (None, t)
  else (Some delta, {| lw_last_logged_at := Some now; lw_last_logged := counters |}).

(** [LossCounterReadWarningTracker]: its only field, and [should_log]. *)
Definition should_log (last_logged_at : option Z) (now : Z) : bool * option Z :=
  if is_some_and last_logged_at (λ last, duration_since now last <? LOSS_WARN_INTERVAL)
  then (false, last_logged_at)
  else (true, Some now).

(** [read_loss_counters]: [per_cpu] is the [PerCpuArray], if attached; a read of
    an index may fail.  Summing the CPUs wraps at 64 bits. *)
Definition sum_cpus (l : list Z) : Z := foldl add_u64 0 l.
Fixpoint read_counters (get : Z → result (list Z) string) (index : Z) (n : nat)
  : result LossCounters string :=
  match n with
  | O => Ok []
  | S n' =>
      let? cpus := get index in
      let? rest := read_counters get (index + 1) n' in
      Ok (sum_cpus cpus :: rest)
  end.
Definition read_loss_counters (per_cpu : option (Z → result (list Z) string))
  : result (option LossCounters) string :=
  match per_cpu with
  | None => Ok None
  | Some get => let? counters := read_counters get 0 4 in Ok (Some counters)
  end.

(** The probe's whole state; the attached maps are arguments of [collect]. *)
Record GpuSchedProbe := {
  gp_aggregator : GpuAggregator;
  gp_loss_warning : LossWarningTracker;
  gp_loss_read_warning : option Z;
}.

(** The warnings one [collect] may log. *)
Inductive LossLog := LossIncreased (delta : LossCounters) | LossUnreadable (error : string).

(** [GpuSchedProbe::collect]: drain, loss diagnostics, flush. *)
Definition gpu_sched_collect (p : GpuSchedProbe) (items : list string)
    (per_cpu : option (Z → result (list Z) string)) (instant now : Z) (sid : string)
  : list EbpfDocument * option LossLog * GpuSchedProbe :=
  let drained := drain 16 decode_gpu_sched (gp_aggregator p) items in
  let '(log, warning, read_warning) :=
    match read_loss_counters per_cpu with
    | Ok (Some counters) =>
        let '(delta, t) := loss_observe (gp_loss_warning p) counters instant in
        (LossIncreased <$> delta, t, gp_loss_read_warning p)
    | Ok None => (None, gp_loss_warning p, gp_loss_read_warning p)
    | Err error =>
        let '(due, last) := should_log (gp_loss_read_warning p) instant in
        (if due then Some (LossUnreadable error) else None, gp_loss_warning p, last)
    end in
  let '(docs, agg) := wa_flush drained now sid in
  (docs, log,
   {| gp_aggregator := agg; gp_loss_warning := warning; gp_loss_read_warning := read_warning |}).

(** ** Lemmas *)

Section drain.
Context {S E : Type} `{WindowAggregator S E} (size : nat) (decode : string → E).

(** The items the loop pushes. *)
Definition well_sized (items : list string) : list string :=
  List.filter (λ b, negb (String.length b <? size)%nat) items.

Lemma drain_pushes s items :
  drain size decode s items = foldl wa_push s (decode <$> well_sized items).
Proof.
  revert s. induction items as [|b items IH]; intros s; simpl; [done|].
  destruct (_ <? _)%nat; simpl; by rewrite IH.
Qed.

Lemma fresh_pushes s evs : wa_fresh (foldl wa_push s evs) = wa_fresh s.
Proof. revert s. induction evs as [|e evs IH]; intros s; simpl; [done|]. by rewrite IH, wa_fresh_push. Qed.
End drain.

Lemma byte_at_range s i : 0 ≤ byte_at s i < 256.
Proof.
  unfold byte_at. destruct (String.get i s) as [c|]; [apply byte_val_range|lia].
Qed.

Lemma le_at_range s off n : 0 ≤ le_at s off n < 256 ^ Z.of_nat n.
Proof.
  revert off. induction n as [|n IH]; intros off; cbn [le_at]; [done|].
  pose proof (byte_at_range s off). specialize (IH (S off)).
  replace (Z.of_nat (S n)) with (Z.of_nat n + 1) by lia.
  rewrite Z.pow_add_r by lia. lia.
Qed.

Lemma le_at_u64 s off : is_u64 (le_at s off 8).
Proof. pose proof (le_at_range s off 8). unfold is_u64, u64_max. change (256 ^ Z.of_nat 8) with (2 ^ 64) in *. lia. Qed.

Lemma collect_name p items now sid : probe_name (snd (collect p items now sid)) = probe_name p.
Proof. unfold collect. by destruct (wa_flush _ _ _). Qed.

Lemma collect_probe p items now sid d :
  d ∈ fst (collect p items now sid) → document_probe d = probe_name p.
Proof.
  unfold collect, probe_name. destruct (wa_flush _ now sid) as [docs s'] eqn:E. simpl. intros Hd.
  eapply (wa_flush_probe (WindowAggregator := lp_agg p)). rewrite E. exact Hd.
Qed.

Lemma collect_metric p items now sid :
  (length (filter_map as_metric (fst (collect p items now sid))) ≤ 1)%nat.
Proof.
  unfold collect. pose proof (wa_flush_metric (WindowAggregator := lp_agg p)
    (drain (lp_size p) (lp_decode p) (lp_self p) items) now sid).
  by destruct (wa_flush _ now sid).
Qed.

(** The loss diagnostics never touch the documents: the probe collects what the
    generic [collect] of [gpu_sched_probe] does. *)
Lemma gpu_sched_collect_docs p items per_cpu instant now sid host kv :
  fst (fst (gpu_sched_collect p items per_cpu instant now sid))
  = fst (collect (with_self (gpu_sched_probe host kv) (gp_aggregator p)) items now sid).
Proof.
  unfold gpu_sched_collect, collect. simpl.
  destruct (read_loss_counters per_cpu) as [[c|]|e]; [|done|].
  - by destruct (loss_observe _ _ _).
  - by destruct (should_log _ _).
Qed.

(** ** Properties *)

(** One [collect] of any probe whose window is empty is exactly one
    window over the well-sized ring-buffer items, decoded in arrival order:
    an undersized item is skipped without stopping the drain, and afterwards
    the probe's window is empty again. *)
Theorem collect_is_run_window (p : LoadedProbe) (items : list string) (now : Z) (sid : string)
    (Hempty : lp_self p = wa_fresh (lp_self p)) :
  let evs := lp_decode p <$> well_sized (lp_size p) items in
  fst (collect p items now sid) = fst (run_window (lp_self p) evs now sid)
  ∧ snd (collect p items now sid) = with_self p (wa_fresh (lp_self p)).
Proof.
  cbv zeta. unfold collect, run_window. rewrite drain_pushes, <-Hempty.
  pose proof (wa_flush_state (WindowAggregator := lp_agg p)
    (foldl wa_push (lp_self p) (lp_decode p <$> well_sized (lp_size p) items)) now sid) as Hst.
  rewrite fresh_pushes in Hst.
  destruct (wa_flush _ now sid) as [docs s'] eqn:E. simpl in *.
  split; [done|]. by rewrite Hst, <-Hempty.
Qed.

(** Sixteen bytes of a block-I/O event: 1000 ns, 512 bytes. *)
Definition demo_bio_item : string :=
  String.concat EmptyString (str1 ∘ chr <$> [232; 3; 0; 0; 0; 0; 0; 0; 0; 2; 0; 0; 0; 0; 0; 0]%nat).

Lemma collect_is_run_window_witness :
  fst (collect (bio_probe "h" "k") ["short"; demo_bio_item] 3 "s")
  = fst (run_window (bio_new "h" "k") [{| be_latency_ns := 1000; be_bytes := 512 |}] 3 "s").
Proof.
  destruct (collect_is_run_window (bio_probe "h" "k") ["short"; demo_bio_item] 3 "s") as [H _].
  - reflexivity.
  - rewrite H. reflexivity.
Defined.

(** *** Loss reports over a run *)

(** The reports of a run of observations [(counters, now)], with their times. *)
Fixpoint loss_run (t : LossWarningTracker) (obs : list (LossCounters * Z))
  : list (LossCounters * Z) * LossWarningTracker :=
  match obs with
  | [] => ([], t)
  | (counters, now) :: rest =>
      let '(report, t') := loss_observe t counters now in
      let '(reports, t'') := loss_run t' rest in
      (match report with Some delta => (delta, now) :: reports | None => reports end, t'')
  end.

(** The kernel's counters only grow, and so does the clock. *)
Fixpoint loss_monotone (prev : LossCounters) (now : Z) (obs : list (LossCounters * Z)) : Prop :=
  match obs with
  | [] => True
  | (c, t) :: rest => Forall2 Z.le prev c ∧ now ≤ t ∧ loss_monotone c t rest
  end.

Definition add_counters : LossCounters → LossCounters → LossCounters := zip_with Z.add.
Definition total_reported (start : LossCounters) (reports : list (LossCounters * Z)) : LossCounters :=
  foldl add_counters start (fst <$> reports).

Lemma loss_minus_add prev c : Forall2 Z.le prev c → add_counters prev (loss_minus c prev) = c.
Proof.
  unfold add_counters, loss_minus. induction 1 as [|a b prev c Hab _ IH]; simpl; [done|].
  f_equal; [lia|done].
Qed.

Lemma Forall2_le_trans (a b c : LossCounters) :
  Forall2 Z.le a b → Forall2 Z.le b c → Forall2 Z.le a c.
Proof.
  intros Hab. revert c. induction Hab; inversion_clear 1; constructor; [lia|auto].
Qed.

Lemma Forall2_le_refl (a : LossCounters) : Forall2 Z.le a a.
Proof. induction a; constructor; [lia|done]. Qed.

Definition loss_inv (t : LossWarningTracker) (prev : LossCounters) (now : Z) : Prop :=
  Forall2 Z.le (lw_last_logged t) prev
  ∧ match lw_last_logged_at t with Some last => last ≤ now | None => True end.

Lemma loss_observe_spec t prev now0 c now :
  loss_inv t prev now0 → Forall2 Z.le prev c → now0 ≤ now →
  loss_inv (snd (loss_observe t c now)) c now
  ∧ match fst (loss_observe t c now) with
    | Some delta =>
        add_counters (lw_last_logged t) delta = lw_last_logged (snd (loss_observe t c now))
        ∧ lw_last_logged_at (snd (loss_observe t c now)) = Some now
        ∧ match lw_last_logged_at t with Some last => last + LOSS_WARN_INTERVAL ≤ now | None => True end
    | None => snd (loss_observe t c now) = t
    end.
Proof.
  intros [Hle Hat] Hc Hnow. pose proof (Forall2_le_trans _ _ _ Hle Hc) as Hlec.
  unfold loss_observe.
  destruct (has_losses _); simpl; [|split; [split; [done|]|done]; destruct (lw_last_logged_at t); lia].
  destruct (is_some_and _ _) eqn:E; simpl.
  - split; [split; [done|]|done]. destruct (lw_last_logged_at t); lia.
  - split; [split; simpl; [apply Forall2_le_refl|lia]|].
    split_and!; [by apply loss_minus_add|done|].
    destruct (lw_last_logged_at t) as [last|]; [|done]. simpl in E. apply Z.ltb_ge in E.
    unfold duration_since, LOSS_WARN_INTERVAL in *. lia.
Qed.

Lemma loss_run_spec t prev now obs :
  loss_inv t prev now → loss_monotone prev now obs →
  total_reported (lw_last_logged t) (fst (loss_run t obs)) = lw_last_logged (snd (loss_run t obs))
  ∧ Sorted (λ a b, a + LOSS_WARN_INTERVAL ≤ b)
      (match lw_last_logged_at t with Some last => [last] | None => [] end
         ++ (snd <$> fst (loss_run t obs))).
Proof.
  revert t prev now. induction obs as [|[c tm] obs IH]; intros t prev now Hinv Hmono; simpl.
  { split; [done|]. destruct (lw_last_logged_at t); repeat constructor. }
  destruct Hmono as (Hc & Hnow & Hmono).
  destruct (loss_observe_spec t prev now c tm Hinv Hc Hnow) as [Hinv' Hrep].
  destruct (loss_observe t c tm) as [rep t']. simpl in *.
  specialize (IH t' c tm Hinv' Hmono). destruct (loss_run t' obs) as [reps t'']. simpl in *.
  destruct IH as [Htot Hsort]. destruct rep as [delta|].
  - destruct Hrep as (Hadd & Hat & Hgap). rewrite Hat in Hsort. split.
    + unfold total_reported in *. simpl. by rewrite Hadd.
    + destruct (lw_last_logged_at t) as [last|]; simpl; [|done].
      constructor; [done|]. by constructor.
  - by subst t'.
Qed.

(** Over any run of growing loss counters and a forward clock, the deltas
    the GPU-scheduler probe reports add up to the counters of its last report
    (nothing is reported twice and nothing reported is lost), and two reports
    are never less than thirty seconds apart. *)
Theorem loss_reports_exact (obs : list (LossCounters * Z)) (now : Z)
    (Hmono : loss_monotone default_loss now obs) :
  let '(reports, t) := loss_run loss_new obs in
  total_reported default_loss reports = lw_last_logged t
  ∧ Sorted (λ a b, a + LOSS_WARN_INTERVAL ≤ b) (snd <$> reports).
Proof.
  pose proof (loss_run_spec loss_new default_loss now obs) as H.
  destruct (loss_run loss_new obs) as [reports t]. apply H; [|done].
  split; [apply Forall2_le_refl|done].
Qed.

Lemma loss_reports_exact_witness :
  let '(reports, t) :=
    loss_run loss_new [([1;0;0;0], 0); ([3;0;0;2], 10); ([3;1;0;2], 30000000000)] in
  total_reported default_loss reports = lw_last_logged t
  ∧ Sorted (λ a b, a + LOSS_WARN_INTERVAL ≤ b) (snd <$> reports).
Proof.
  apply (loss_reports_exact [([1;0;0;0], 0); ([3;0;0;2], 10); ([3;1;0;2], 30000000000)] 0).
  repeat split; repeat constructor; discriminate.
Defined.
