(* ===== verification/Tick.v ===== *)
(** * One aggregation tick ([ebpf/rigsignal-ebpf/src/main.rs], [aggregator.rs]
      [correlate], [shipper.rs] queueing)

    A tick picks the session id, collects every loaded probe, adds the stutter
    correlation, stamps the metric documents with the tick's timestamp and
    queues what the probe budget supports. *)
From S2P Require Import Prelude Float64 EsModel Aggregator SchedAggregator Probes.

(** ** Stutter correlation *)

(** 16 ms = one dropped frame at 60 fps. *)
Definition SPIKE_THRESHOLD_US : f64 := f64_of_Z 16000.

Record CorrState := {
  cs_sched_max_us : f64;
  cs_bio_max_us : f64;
  cs_gpu_sched_max_us : f64;
  cs_mem_pressure : bool;
  cs_contributing : list string;
}.

Definition corr_init : CorrState :=
  {| cs_sched_max_us := f64_zero; cs_bio_max_us := f64_zero; cs_gpu_sched_max_us := f64_zero;
     cs_mem_pressure := false; cs_contributing := [] |}.

(** The spiking subsystems of one document, in the order they are tested. *)
Definition spikes_of (p : EbpfPayload) : list string :=
  (match runqueue p with
   | Some rq => if f64_lt SPIKE_THRESHOLD_US (rq_latency_max_us rq) then ["schedlatency"] else []
   | None => [] end)
  ++ (match bio p with
      | Some b => if f64_lt SPIKE_THRESHOLD_US (bio_latency_max_us b) then ["bio"] else []
      | None => [] end)
  ++ (match gpu_sched p with
      | Some g => if f64_lt SPIKE_THRESHOLD_US (gs_latency_max_us g) then ["gpu_sched"] else []
      | None => [] end)
  ++ (match mem p with
      | Some m => if 0 <? direct_reclaim_count m then ["mem"] else []
      | None => [] end).

(** The loop body of [correlate]. *)
Definition corr_step (c : CorrState) (doc : EbpfMetricDoc) : CorrState :=
  let p := ebpf (md_rigsignal doc) in
  {| cs_sched_max_us := match runqueue p with Some rq => rq_latency_max_us rq | None => cs_sched_max_us c end;
     cs_bio_max_us := match bio p with Some b => bio_latency_max_us b | None => cs_bio_max_us c end;
     cs_gpu_sched_max_us :=
       match gpu_sched p with Some g => gs_latency_max_us g | None => cs_gpu_sched_max_us c end;
     cs_mem_pressure :=
       match mem p with
       | Some m => if 0 <? direct_reclaim_count m then true else cs_mem_pressure c
       | None => cs_mem_pressure c end;
     cs_contributing := cs_contributing c ++ spikes_of p |}.

Definition correlate (docs : list EbpfMetricDoc) (now : Z) (host kernel_version sid : string)
  : option EbpfMetricDoc :=
  let c := foldl corr_step corr_init docs in
  let contributing := cs_contributing c in
  if (length contributing <? 2)%nat then None
  else
    let severity := as_u8 (Z.of_nat (length contributing)) in
    Some (metric_doc now host kernel_version sid {|
      probe := "stutter_correlation"; runqueue := None; migration := None; bio := None;
      gpu_sched := None; mem := None;
      stutter := Some {|
        contributing_probes := contributing;
        sched_max_us := cs_sched_max_us c;
        bio_max_us := cs_bio_max_us c;
        gpu_sched_max_us := cs_gpu_sched_max_us c;
        mem_pressure := cs_mem_pressure c;
        severity_score := severity |};
      futex := None; irq := None; vfs := None; gpu_fence := None; gpu_submit := None |}).

(** ** Timestamps, session id, queueing *)

Definition set_timestamp (ts : Z) (d : EbpfDocument) : EbpfDocument :=
  match d with
  | Metric doc =>
      Metric {| md_timestamp := ts; md_data_stream := md_data_stream doc;
                md_rigsignal := md_rigsignal doc; md_host := md_host doc |}
  | Thread doc => Thread doc
  end.
Definition assign_metric_timestamps (docs : list EbpfDocument) (ts : Z) : list EbpfDocument :=
  set_timestamp ts <$> docs.

(** What the tick reads of the session watcher's state. *)
Record SessionView := { sv_active : bool; sv_session_id : option string }.

(** [None]: the tick is skipped. *)
Definition tick_session (s : SessionView) (background_baseline : bool) : option string :=
  match (if sv_active s then sv_session_id s else None) with
  | Some id => Some id
  | None => if negb background_baseline then None else Some "no-session"
  end.

Definition filter_supported_docs (docs : list EbpfDocument) : list EbpfDocument :=
  List.filter has_named_probe docs.

(** [EsShipper]'s queue. *)
Definition queue_all (pending docs : list EbpfDocument) : list EbpfDocument :=
  pending ++ filter_supported_docs docs.

(** [warn_unsupported_probe]: the last warning per probe, rate-limited. *)
Definition UNSUPPORTED_PROBE_WARNING_INTERVAL : Z := 5 * 60 * 1000000000.
Definition warn_unsupported_probe (times : gmap string Z) (p : string) (now : Z)
  : bool * gmap string Z :=
  match times !! p with
  | Some last_warning =>
      if duration_since now last_warning <? UNSUPPORTED_PROBE_WARNING_INTERVAL
      then (false, times) else (true, <[p := now]> times)
  | None => (true, <[p := now]> times)
  end.

(** The action line of a document: [{"create":{"_index":"<index>"}}]. *)
Definition bulk_action_line (idx : string) : string :=
  "{" +:+ dq +:+ "create" +:+ dq +:+ ":{" +:+ dq +:+ "_index" +:+ dq +:+ ":"
  +:+ dq +:+ idx +:+ dq +:+ "}}".

(** [build_bulk_body]; [to_json] is [serde_json::to_string], which may fail. *)
Section bulk_body.
Context (to_json : EbpfDocument → result string string).

Fixpoint build_bulk_body (docs : list EbpfDocument) : result string string :=
  match docs with
  | [] => Ok EmptyString
  | doc :: rest =>
      let action := bulk_action_line (index doc) in
      let? doc_json := to_json doc in
      let? body := build_bulk_body rest in
      Ok (action +:+ str1 nl +:+ doc_json +:+ str1 nl +:+ body)
  end.
End bulk_body.

(** ** The tick *)

(** [clock k] is the [Utc::now()] of the [k]-th probe's flush. *)
Fixpoint collect_all (clock : nat → Z) (sid : string) (k : nat)
    (probes : list (LoadedProbe * list string)) : list EbpfDocument * list LoadedProbe :=
  match probes with
  | [] => ([], [])
  | (p, items) :: rest =>
      let '(docs, p') := collect p items (clock k) sid in
      let '(docs', ps') := collect_all clock sid (S k) rest in
      (docs ++ docs', p' :: ps')
  end.

Record TickConfig := {
  tc_host_name : string;
  tc_kernel_version : string;
  tc_background_baseline : bool;
}.

(** The documents a tick hands to the shipper, and the probes after it. *)
Definition tick_docs (cfg : TickConfig) (ts : Z) (clock : nat → Z) (sid : string)
    (probes : list (LoadedProbe * list string)) : list EbpfDocument * list LoadedProbe :=
  let '(docs, ps') := collect_all clock sid 0 probes in
  let docs :=
    match correlate (filter_map as_metric docs) (clock (length probes))
            (tc_host_name cfg) (tc_kernel_version cfg) sid with
    | Some corr_doc => docs ++ [Metric corr_doc]
    | None => docs
    end in
  (assign_metric_timestamps docs ts, ps').

Definition tick (cfg : TickConfig) (ts : Z) (clock : nat → Z) (session : SessionView)
    (probes : list (LoadedProbe * list string)) (pending : list EbpfDocument)
  : list EbpfDocument * list LoadedProbe :=
  match tick_session session (tc_background_baseline cfg) with
  | None => (pending, fst <$> probes)
  | Some sid =>
      let '(docs, ps') := tick_docs cfg ts clock sid probes in
      (queue_all pending docs, ps')
  end.

(** ** Lemmas *)

(** The subsystems that spiked anywhere in a batch. *)
Definition all_spikes (docs : list EbpfMetricDoc) : list string :=
  concat ((λ d, spikes_of (ebpf (md_rigsignal d))) <$> docs).
Definition reclaims (d : EbpfMetricDoc) : bool :=
  match mem (ebpf (md_rigsignal d)) with Some m => 0 <? direct_reclaim_count m | None => false end.

Lemma corr_foldl docs c :
  cs_contributing (foldl corr_step c docs) = cs_contributing c ++ all_spikes docs
  ∧ cs_mem_pressure (foldl corr_step c docs) = cs_mem_pressure c || existsb reclaims docs.
Proof.
  revert c. induction docs as [|d docs IH]; intros c.
  { simpl. by rewrite app_nil_r, orb_false_r. }
  unfold all_spikes in *. simpl. destruct (IH (corr_step c d)) as [-> ->]. simpl.
  rewrite <-app_assoc. split; [done|]. unfold reclaims at 2.
  destruct (mem _) as [m|]; [|done]. destruct (0 <? _); [|done].
  by rewrite orb_true_r.
Qed.

(** *** Collection *)

Lemma collect_all_names clock sid k probes :
  probe_name <$> snd (collect_all clock sid k probes) = probe_name ∘ fst <$> probes.
Proof.
  revert k. induction probes as [|[p items] probes IH]; intros k; [done|]. simpl.
  pose proof (collect_name p items (clock k) sid) as Hn. specialize (IH (S k)).
  destruct (collect _ _ _ _) as [docs p'], (collect_all _ _ _ _) as [docs' ps'].
  cbn [snd] in *. by rewrite fmap_cons, Hn, IH.
Qed.

Lemma collect_all_probe clock sid k probes d :
  d ∈ fst (collect_all clock sid k probes) → document_probe d ∈ probe_name ∘ fst <$> probes.
Proof.
  revert k. induction probes as [|[p items] probes IH]; intros k; [by intros ?%elem_of_nil|]. simpl.
  pose proof (collect_probe p items (clock k) sid d) as Hp. specialize (IH (S k)).
  destruct (collect _ _ _ _) as [docs p'], (collect_all _ _ _ _) as [docs' ps']. simpl in *.
  intros [Hd|Hd]%elem_of_app; [rewrite Hp by done; by left|right; auto].
Qed.

(** The probes of the metric documents, in order. *)
Definition metric_probes (docs : list EbpfDocument) : list string :=
  (λ m, probe (ebpf (md_rigsignal m))) <$> filter_map as_metric docs.

Lemma metric_probes_app l k : metric_probes (l ++ k) = metric_probes l ++ metric_probes k.
Proof. unfold metric_probes. by rewrite filter_map_app, fmap_app. Qed.

Lemma elem_of_metric_probes s docs :
  s ∈ metric_probes docs → ∃ d, d ∈ docs ∧ document_probe d = s.
Proof.
  intros (m & -> & (d & Hd & Hm)%elem_of_filter_map)%list_elem_of_fmap.
  exists d. split; [done|]. destruct d; simpl in *; by simplify_eq.
Qed.

(** At most one aggregate document per probe. *)
Lemma collect_all_metric_NoDup clock sid k probes :
  NoDup (probe_name ∘ fst <$> probes) → NoDup (metric_probes (fst (collect_all clock sid k probes))).
Proof.
  revert k. induction probes as [|[p items] probes IH]; intros k Hnd; [constructor|]. simpl.
  apply NoDup_cons in Hnd as [Hnotin Hnd]. specialize (IH (S k) Hnd).
  pose proof (collect_metric p items (clock k) sid) as Hone.
  pose proof (λ d, collect_probe p items (clock k) sid d) as Hp.
  pose proof (λ d, collect_all_probe clock sid (S k) probes d) as Hps.
  destruct (collect _ _ _ _) as [docs p'], (collect_all _ _ _ _) as [docs' ps']. simpl in *.
  rewrite metric_probes_app. apply NoDup_app. split_and!; [|  |done].
  - unfold metric_probes. destruct (filter_map as_metric docs) as [|m [|]]; simpl in *;
      [constructor|apply NoDup_singleton|lia].
  - intros s (d & Hd & <-)%elem_of_metric_probes (d' & Hd' & Heq)%elem_of_metric_probes.
    apply Hnotin. rewrite <-(Hp d Hd), <-Heq. by apply Hps.
Qed.

Lemma assign_metric_probes docs ts : metric_probes (assign_metric_timestamps docs ts) = metric_probes docs.
Proof.
  unfold metric_probes, assign_metric_timestamps. induction docs as [|[m|t] docs IH]; simpl; [done|..].
  - by f_equal.
  - done.
Qed.

Lemma filter_supported_all docs :
  (∀ d, d ∈ docs → document_probe d ∈ NAMED_PROBES) → filter_supported_docs docs = docs.
Proof.
  induction docs as [|d docs IH]; intros Hd; [done|]. simpl.
  assert (Hn : has_named_probe d = true).
  { unfold has_named_probe, is_named_probe. apply existsb_exists. exists (document_probe d).
    split; [|apply String.eqb_refl]. apply list_elem_of_In, Hd. by left. }
  rewrite Hn. f_equal. apply IH. intros. apply Hd. by right.
Qed.

(** The names of the probes the daemon can load. *)
Definition candidate_names : list string :=
  ["schedlatency"; "bio"; "gpu_sched"; "mem"; "futex"; "irq"; "vfs"; "gpu_fence"; "gpu_submit"].

Lemma candidate_named s : s ∈ candidate_names → s ∈ NAMED_PROBES.
Proof.
  intros Hs. eapply elem_of_sublist; [exact Hs|].
  change NAMED_PROBES with (candidate_names ++ ["stutter_correlation"]). by apply sublist_inserts_r.
Qed.

Lemma NoDup_candidate_names : NoDup candidate_names.
Proof. by apply (bool_decide_unpack _). Qed.

Lemma load_probes_names `{HashIter} attached host kv ccx :
  probe_name <$> fst (load_probes attached (candidates host kv ccx)) `sublist_of` candidate_names.
Proof.
  unfold load_probes.
  assert (Hgen : ∀ cands active skipped, ∃ kept,
    fst (foldl (λ '(active, skipped) p,
      if attached p then (active ++ [p], skipped) else (active, skipped + 1)) (active, skipped) cands)
    = active ++ kept ∧ kept `sublist_of` cands).
  { induction cands as [|p cands IH]; intros active skipped; simpl.
    - exists []. by rewrite app_nil_r.
    - destruct (attached p).
      + destruct (IH (active ++ [p]) skipped) as (kept & -> & Hk). exists (p :: kept).
        rewrite <-app_assoc. split; [done|]. by apply sublist_skip.
      + destruct (IH active (skipped + 1)) as (kept & -> & Hk). exists kept.
        split; [done|]. by apply sublist_cons. }
  destruct (Hgen (candidates host kv ccx) [] 0) as (kept & -> & Hk). simpl.
  change candidate_names with (probe_name <$> candidates host kv ccx).
  by apply fmap_sublist.
Qed.

Lemma correlate_probe docs now host kv sid doc :
  correlate docs now host kv sid = Some doc → probe (ebpf (md_rigsignal doc)) = "stutter_correlation".
Proof. unfold correlate. destruct (_ <? _)%nat; [done|]. by intros [= <-]. Qed.

Section tick_docs.
Context (cfg : TickConfig) (ts : Z) (clock : nat → Z) (sid : string)
  (probes : list (LoadedProbe * list string))
  (Hnames : probe_name ∘ fst <$> probes `sublist_of` candidate_names).

Lemma probes_NoDup : NoDup (probe_name ∘ fst <$> probes).
Proof. eapply sublist_NoDup; [apply NoDup_candidate_names|done]. Qed.

Lemma tick_docs_series :
  NoDup (metric_probes (fst (tick_docs cfg ts clock sid probes)))
  ∧ (∀ d, d ∈ fst (tick_docs cfg ts clock sid probes) → document_probe d ∈ NAMED_PROBES).
Proof.
  pose proof (collect_all_metric_NoDup clock sid 0 probes probes_NoDup) as Hnd.
  pose proof (λ d, collect_all_probe clock sid 0 probes d) as Hpr.
  unfold tick_docs. destruct (collect_all _ _ _ _) as [docs ps']. simpl in *.
  assert (Hcand : ∀ d, d ∈ docs → document_probe d ∈ candidate_names).
  { intros d Hd. eapply elem_of_sublist; [by apply Hpr|done]. }
  assert (Hset : ∀ d, document_probe (set_timestamp ts d) = document_probe d) by (by intros []).
  destruct (correlate _ _ _ _ _) as [corr|] eqn:Ec; simpl; rewrite assign_metric_probes.
  - apply correlate_probe in Ec. rewrite metric_probes_app. split.
    + apply NoDup_app. split_and!; [done| |apply NoDup_singleton].
      intros s (d & Hd & <-)%elem_of_metric_probes Hs. apply Hcand in Hd.
      apply list_elem_of_singleton in Hs. rewrite Hs, Ec in Hd.
      by apply (bool_decide_unpack (_ ∉ _)) in Hd.
    + intros d' (d & -> & Hd)%list_elem_of_fmap. rewrite Hset.
      apply elem_of_app in Hd as [Hd|Hd%list_elem_of_singleton].
      * apply Hcand in Hd. by apply candidate_named.
      * subst d. simpl. rewrite Ec. by apply (bool_decide_unpack _).
  - split; [done|]. intros d' (d & -> & Hd)%list_elem_of_fmap. rewrite Hset.
    apply Hcand in Hd. by apply candidate_named.
Qed.
End tick_docs.

Lemma tick_docs_timestamp cfg ts clock sid probes m :
  m ∈ filter_map as_metric (fst (tick_docs cfg ts clock sid probes)) → md_timestamp m = ts.
Proof.
  unfold tick_docs. destruct (collect_all _ _ _ _) as [docs ps']. simpl.
  intros (d & Hd & Hm)%elem_of_filter_map. apply list_elem_of_fmap in Hd as (d' & -> & _).
  destruct d'; simpl in *; by simplify_eq.
Qed.

(** ** Properties *)

(** C16: whatever the ring buffers hold, the metric documents one tick queues
    belong to pairwise distinct probes of the probe budget and all carry the
    tick's timestamp, so no two of them share a (probe, timestamp) series id;
    the shipper's filter drops none of the tick's documents; and the probes
    keep their names, so the same holds for every later tick. *)
Theorem tick_series_distinct (cfg : TickConfig) (ts : Z) (clock : nat → Z)
    (session : SessionView) (sid : string) (probes : list (LoadedProbe * list string))
    (pending : list EbpfDocument)
    (Hsid : tick_session session (tc_background_baseline cfg) = Some sid)
    (Hnames : probe_name ∘ fst <$> probes `sublist_of` candidate_names) :
  ∃ docs,
    fst (tick cfg ts clock session probes pending) = pending ++ docs
    ∧ docs = fst (tick_docs cfg ts clock sid probes)
    ∧ NoDup (metric_probes docs)
    ∧ (∀ s, s ∈ metric_probes docs → is_named_probe s = true)
    ∧ (∀ m, m ∈ filter_map as_metric docs → md_timestamp m = ts)
    ∧ probe_name <$> snd (tick cfg ts clock session probes pending) = probe_name ∘ fst <$> probes.
Proof.
  destruct (tick_docs_series cfg ts clock sid probes Hnames) as [Hnd Hin].
  pose proof (tick_docs_timestamp cfg ts clock sid probes) as Hts.
  assert (Hps : probe_name <$> snd (tick_docs cfg ts clock sid probes) = probe_name ∘ fst <$> probes).
  { unfold tick_docs. pose proof (collect_all_names clock sid 0 probes).
    by destruct (collect_all _ _ _ _). }
  unfold tick. rewrite Hsid. destruct (tick_docs _ _ _ _ _) as [docs ps'] eqn:E.
  cbn [fst snd] in *. exists docs. unfold queue_all. rewrite filter_supported_all by done.
  split_and!; [done..| |done|done].
  intros s (d & Hd & <-)%elem_of_metric_probes. apply Hin in Hd.
  unfold is_named_probe. apply existsb_exists. eexists. split; [by apply list_elem_of_In|].
  apply String.eqb_refl.
Qed.

(** One slow I/O and one page reclaim in the same second. *)
Definition demo_probes : list (LoadedProbe * list string) :=
  [(bio_probe "h" "k",
    [String.concat EmptyString (str1 ∘ chr <$> [0; 0; 0; 1; 0; 0; 0; 0; 0; 2; 0; 0; 0; 0; 0; 0]%nat)]);
   (mem_probe "h" "k", [String.concat EmptyString (str1 ∘ chr <$> [1; 0; 0; 0; 0; 0; 0; 0]%nat)])].
Definition demo_cfg : TickConfig :=
  {| tc_host_name := "h"; tc_kernel_version := "k"; tc_background_baseline := false |}.

Lemma tick_series_distinct_witness :
  ∃ docs,
    fst (tick demo_cfg 9 Z.of_nat {| sv_active := true; sv_session_id := Some "s" |} demo_probes []) = [] ++ docs
    ∧ NoDup (metric_probes docs) ∧ metric_probes docs = ["bio"; "mem"; "stutter_correlation"].
Proof.
  destruct (tick_series_distinct demo_cfg 9 Z.of_nat
    {| sv_active := true; sv_session_id := Some "s" |} "s" demo_probes [])
    as (docs & H1 & Hd & H2 & _).
  - reflexivity.
  - apply sublist_cons, sublist_skip, sublist_cons, sublist_skip, sublist_nil_l.
  - exists docs. split; [exact H1|]. split; [exact H2|]. rewrite Hd. vm_compute. reflexivity.
Defined.

(** The correlator stays silent exactly when fewer than two subsystems of
    the batch spiked; otherwise its document lists every spike of the batch in
    document order, scores their number (modulo 256), and flags memory
    pressure exactly when some document reports a direct reclaim. *)
Theorem correlate_spec (docs : list EbpfMetricDoc) (now : Z) (host kernel_version sid : string) :
  match correlate docs now host kernel_version sid with
  | None => (length (all_spikes docs) < 2)%nat
  | Some doc =>
      (2 ≤ length (all_spikes docs))%nat
      ∧ md_timestamp doc = now
      ∧ ∃ st, stutter (ebpf (md_rigsignal doc)) = Some st
          ∧ contributing_probes st = all_spikes docs
          ∧ severity_score st = Z.of_nat (length (all_spikes docs)) mod 256
          ∧ mem_pressure st = existsb reclaims docs
  end.
Proof.
  unfold correlate. destruct (corr_foldl docs corr_init) as [Hc Hm].
  cbn [cs_contributing cs_mem_pressure corr_init app orb] in Hc, Hm. rewrite Hc.
  destruct (Nat.ltb_spec (length (all_spikes docs)) 2) as [Hlt|Hge]; [done|].
  split; [done|]. split; [done|]. eexists. split; [reflexivity|]. by rewrite <-Hm.
Qed.

(** Each document is two lines of the body. *)
Lemma split_line_app s rest :
  any_byte (Ascii.eqb nl) s = false →
  split_char nl (s +:+ str1 nl +:+ rest) = s :: split_char nl rest.
Proof.
  induction s as [|c s IH]; intros Hs; [done|]. cbn [any_byte] in Hs.
  apply orb_false_iff in Hs as [Hc Hs]. rewrite Ascii.eqb_sym in Hc.
  change (String c s +:+ str1 nl +:+ rest) with (String c (s +:+ str1 nl +:+ rest)).
  cbn [split_char]. rewrite Hc.
  by rewrite IH.
Qed.

Fixpoint interleave (a b : list string) : list string :=
  match a, b with x :: a', y :: b' => x :: y :: interleave a' b' | _, _ => [] end.

(** The bulk body is a round trip for the NDJSON framing: split at line
    feeds it is, for each document in order, its create action naming its
    data stream and then its JSON, and ends with the final line feed.  The
    serializer is [serde_json::to_string], which writes compact JSON, without
    line feeds. *)
Theorem bulk_body_roundtrip (to_json : EbpfDocument → result string string)
    (docs : list EbpfDocument) (body : string)
    (Hjson : ∀ d j, to_json d = Ok j → any_byte (Ascii.eqb nl) j = false)
    (Hbody : build_bulk_body to_json docs = Ok body) :
  ∃ jsons,
    Forall2 (λ d j, to_json d = Ok j) docs jsons
    ∧ split_char nl body
      = interleave ((λ d, bulk_action_line (index d)) <$> docs) jsons ++ [EmptyString].
Proof.
  revert body Hbody. induction docs as [|d docs IH]; intros body Hbody; simpl in Hbody.
  { simplify_eq. exists []. split; [constructor|done]. }
  destruct (to_json d) as [j|] eqn:Ej; [|done].
  destruct (build_bulk_body to_json docs) as [rest|] eqn:Er; [|done]. simplify_eq.
  destruct (IH rest eq_refl) as (jsons & Hall & Hsplit). exists (j :: jsons).
  split; [by constructor|]. simpl.
  rewrite split_line_app by (by destruct d). rewrite split_line_app by (by eapply Hjson).
  by rewrite Hsplit.
Qed.

Lemma bulk_body_roundtrip_witness :
  ∃ jsons,
    split_char nl (bulk_action_line "metrics-rigsignal.ebpf-default" +:+ str1 nl +:+ "{}" +:+ str1 nl)
    = interleave [bulk_action_line "metrics-rigsignal.ebpf-default"] jsons ++ [EmptyString].
Proof.
  pose (d := Metric (metric_doc 0 "h" "k" "s" {|
    probe := "bio"; runqueue := None; migration := None; bio := None; gpu_sched := None;
    mem := None; stutter := None; futex := None; irq := None; vfs := None;
    gpu_fence := None; gpu_submit := None |})).
  destruct (bulk_body_roundtrip (λ _, Ok "{}") [d]
    (bulk_action_line "metrics-rigsignal.ebpf-default" +:+ str1 nl +:+ "{}" +:+ str1 nl))
    as (jsons & _ & H).
  - intros ? j Hj. injection Hj as <-. reflexivity.
  - reflexivity.
  - exists jsons. exact H.
Defined.
