(* ===== verification/GpuSchedFormat.v ===== *)
(** * Tracepoint formats ([probes/gpu_sched/format.rs], [probes/gpu_sched.rs])

    The parser of tracefs [format] files and the selection of the tracepoint
    pair.  The file system is a pair of functions: which directories exist and
    what a file holds ([None] when it cannot be read). *)
From Stdlib Require Import Ascii.
From S2P Require Import Prelude.

(** ** [format.rs] *)

Inductive FormatError :=
| MalformedField (line : Z) (reason : string)
| MissingField (field : string)
| AmbiguousField (field : string)
| WrongSize (field : string) (size : Z).

Record Field := { f_name : string; f_offset : Z; f_size : Z }.

Definition parse_number (value : string) (line : Z) (label : string) : result Z FormatError :=
  match parse_u32 (trim value) with
  | Some n => Ok n
  | None => Err (MalformedField line label)
  end.

(** [Iterator::find_map]: the first hit, and what the iterator has left. *)
Fixpoint find_map {A B} (f : A → option B) (l : list A) : option (B * list A) :=
  match l with
  | [] => None
  | x :: l' => match f x with Some y => Some (y, l') | None => find_map f l' end
  end.

Definition tagged (tag part : string) : option string := strip_prefix tag (trim part).

Definition parse_field (declaration : string) (line_number : Z) : result Field FormatError :=
  let segments := split_char ";"%char declaration in
  let? name :=
    match segments with
    | part :: _ =>
        match last (split_whitespace part) with
        | Some name => if is_empty name then Err (MalformedField line_number "missing field name") else Ok name
        | None => Err (MalformedField line_number "missing field name")
        end
    | [] => Err (MalformedField line_number "missing field name")
    end in
  let? (value, rest) :=
    ok_or (find_map (tagged "offset:") (tail segments)) (MalformedField line_number "missing offset") in
  let? offset := parse_number value line_number "invalid offset" in
  let? (value, _) :=
    ok_or (find_map (tagged "size:") rest) (MalformedField line_number "missing size") in
  let? size := parse_number value line_number "invalid size" in
  Ok {| f_name := name; f_offset := offset; f_size := size |}.

(** The loop of [parse_key_field_offset] over the remaining lines; [index] is
    the index of the first one, [matched] the offset found so far. *)
Fixpoint key_field_loop (key_field : string) (index : Z) (matched : option Z) (ls : list string)
  : result Z FormatError :=
  match ls with
  | [] => ok_or matched (MissingField key_field)
  | line :: rest =>
      match strip_prefix "field:" (trim_start line) with
      | None => key_field_loop key_field (index + 1) matched rest
      | Some declaration =>
          let? field := parse_field declaration (index + 1) in
          if negb (String.eqb (f_name field) key_field)
          then key_field_loop key_field (index + 1) matched rest
          else match matched with
               | Some _ => Err (AmbiguousField key_field)
               | None =>
                   if negb (f_size field =? 8) then Err (WrongSize key_field (f_size field))
                   else key_field_loop key_field (index + 1) (Some (f_offset field)) rest
               end
      end
  end.

(** Find a uniquely named, 64-bit key field and return its byte offset. *)
Definition parse_key_field_offset (format key_field : string) : result Z FormatError :=
  key_field_loop key_field 0 None (lines format).

(** ** [gpu_sched.rs] *)

Record TracepointVariant := {
  tv_name : string;
  queue_event : string;
  run_event : string;
  key_field : string;
  scope_field : string;
}.
#[export] Instance TracepointVariant_eq_dec : EqDecision TracepointVariant.
Proof. solve_decision. Defined.

Definition RENAMED : TracepointVariant :=
  {| tv_name := "renamed"; queue_event := "drm_sched_job_queue"; run_event := "drm_sched_job_run";
     key_field := "fence_seqno"; scope_field := "fence_context" |}.
Definition LEGACY : TracepointVariant :=
  {| tv_name := "legacy"; queue_event := "drm_sched_job"; run_event := "drm_run_job";
     key_field := "id"; scope_field := "entity" |}.

Record GpuSchedKeyOffsets := { scope : Z; sequence : Z }.

(** Why [attach] skips the probe. *)
Inductive AttachError :=
| NoPair
| Unreadable (path : string)
| BadFormat (path : string) (e : FormatError)
| KeyOffsetsDiffer (queue run : Z)
| ScopeOffsetsDiffer (queue run : Z).

Section tracefs.
Context (is_dir : string → bool) (read_to_string : string → option string).

Definition event_exists (events_dir event : string) : bool := is_dir (events_dir +:+ "/" +:+ event).

Definition pair_exists (events_dir : string) (v : TracepointVariant) : bool :=
  event_exists events_dir (queue_event v) && event_exists events_dir (run_event v).

(** Newer kernels take priority; the legacy pair is a fallback. *)
Definition select_variant (events_dir : string) : result TracepointVariant AttachError :=
  match find_map (λ v, if pair_exists events_dir v then Some v else None) [RENAMED; LEGACY] with
  | Some (v, _) => Ok v
  | None => Err NoPair
  end.

Definition format_path (events_dir event : string) : string :=
  events_dir +:+ "/" +:+ event +:+ "/format".

Definition parse_variant_offset (events_dir : string) (v : TracepointVariant)
  : result GpuSchedKeyOffsets AttachError :=
  let queue_path := format_path events_dir (queue_event v) in
  let run_path := format_path events_dir (run_event v) in
  let? queue_format := ok_or (read_to_string queue_path) (Unreadable queue_path) in
  let? run_format := ok_or (read_to_string run_path) (Unreadable run_path) in
  let? queue_sequence :=
    map_err (BadFormat queue_path) (parse_key_field_offset queue_format (key_field v)) in
  let? run_sequence :=
    map_err (BadFormat run_path) (parse_key_field_offset run_format (key_field v)) in
  if negb (queue_sequence =? run_sequence) then Err (KeyOffsetsDiffer queue_sequence run_sequence)
  else
    let? queue_scope :=
      map_err (BadFormat queue_path) (parse_key_field_offset queue_format (scope_field v)) in
    let? run_scope :=
      map_err (BadFormat run_path) (parse_key_field_offset run_format (scope_field v)) in
    if negb (queue_scope =? run_scope) then Err (ScopeOffsetsDiffer queue_scope run_scope)
    else Ok {| scope := queue_scope; sequence := queue_sequence |}.
End tracefs.

(** ** A reference reading of a format *)

(** Every field declaration of the format with its one-based line number. *)
Fixpoint declarations (index : Z) (ls : list string) : list (Z * string) :=
  match ls with
  | [] => []
  | line :: rest =>
      match strip_prefix "field:" (trim_start line) with
      | Some declaration => (index + 1, declaration) :: declarations (index + 1) rest
      | None => declarations (index + 1) rest
      end
  end.

Definition parsed_fields (ds : list (Z * string)) (fs : list Field) : Prop :=
  Forall2 (λ d f, parse_field d.2 d.1 = Ok f) ds fs.

Definition named (key : string) (fs : list Field) : list Field :=
  List.filter (λ f, String.eqb (f_name f) key) fs.

Lemma key_field_loop_Ok key index matched ls offset :
  key_field_loop key index matched ls = Ok offset ↔
  ∃ fs, parsed_fields (declarations index ls) fs
    ∧ match matched with
      | Some o => offset = o ∧ named key fs = []
      | None => ∃ f, named key fs = [f] ∧ f_size f = 8 ∧ f_offset f = offset
      end.
Proof.
  revert index matched. induction ls as [|line ls IH]; intros index matched; simpl.
  { split.
    - destruct matched as [o|]; [|done]. intros [= <-]. exists []. by split; [constructor|].
    - intros (fs & Hfs & Hm). inversion Hfs; subst. destruct matched; [by destruct Hm as [-> _]|].
      destruct Hm as (f & ? & _). done. }
  destruct (strip_prefix "field:" (trim_start line)) as [decl|]; [|apply IH].
  destruct (parse_field decl (index + 1)) as [f|e] eqn:Ef.
  2:{ split; [done|]. intros (fs & Hfs & _). inversion Hfs; simplify_eq. simpl in *. congruence. }
  assert (Hcons : ∀ (P : list Field → Prop),
    (∃ fs, parsed_fields ((index + 1, decl) :: declarations (index + 1) ls) fs ∧ P fs)
    ↔ (∃ fs, parsed_fields (declarations (index + 1) ls) fs ∧ P (f :: fs))).
  { intros P. split.
    - intros (fs & Hfs & HP). inversion Hfs as [|? f' ? fs' Hf Hfs']; subst. simpl in Hf.
      exists fs'. split; [done|]. by replace f with f' by congruence.
    - intros (fs & Hfs & HP). exists (f :: fs). split; [by constructor|done]. }
  rewrite Hcons. unfold named. simpl.
  destruct (String.eqb_spec (f_name f) key) as [Heq|Hne]; simpl; [|apply IH].
  destruct matched as [o|].
  { split; [done|]. by intros (fs & _ & _ & ?). }
  destruct (Z.eqb_spec (f_size f) 8) as [H8|H8]; simpl.
  - rewrite IH. split.
    + intros (fs & Hfs & -> & Hn). exists fs. split; [done|]. exists f.
      unfold named in Hn. by rewrite Hn.
    + intros (fs & Hfs & f' & [= <- Hn] & _ & <-). by exists fs.
  - split; [done|]. by intros (fs & _ & f' & [= <- _] & ? & _).
Qed.

(** ** Properties *)

(** The format parser accepts exactly the formats all of whose field
    declarations are well formed and in which exactly one field has the key's
    name, that field being eight bytes wide; it then returns that field's
    offset.  (A duplicate, a wrong width, a missing key or one malformed
    declaration anywhere makes it fail.) *)
Theorem parse_key_field_offset_iff (format key : string) (offset : Z) :
  parse_key_field_offset format key = Ok offset ↔
  ∃ fs f, parsed_fields (declarations 0 (lines format)) fs
    ∧ named key fs = [f] ∧ f_size f = 8 ∧ f_offset f = offset.
Proof.
  unfold parse_key_field_offset. rewrite key_field_loop_Ok. split.
  - intros (fs & Hfs & f & ?). by exists fs, f.
  - intros (fs & f & Hfs & ?). exists fs. split; [done|]. by exists f.
Qed.

(** Attaching prefers the renamed tracepoint pair whenever it is
    complete, and the offsets handed to the BPF program are only ever ones on
    which both events of the chosen pair agree. *)
Theorem attach_offsets_agree (is_dir : string → bool) (read_to_string : string → option string)
    (dir : string) (v : TracepointVariant) (o : GpuSchedKeyOffsets)
    (Hv : select_variant is_dir dir = Ok v)
    (Ho : parse_variant_offset read_to_string dir v = Ok o) :
  v = (if pair_exists is_dir dir RENAMED then RENAMED else LEGACY)
  ∧ pair_exists is_dir dir v = true
  ∧ ∀ event, event ∈ [queue_event v; run_event v] →
      ∃ text, read_to_string (format_path dir event) = Some text
        ∧ parse_key_field_offset text (key_field v) = Ok (sequence o)
        ∧ parse_key_field_offset text (scope_field v) = Ok (scope o).
Proof.
  split; [|split].
  - revert Hv. unfold select_variant. simpl.
    destruct (pair_exists is_dir dir RENAMED); [congruence|].
    destruct (pair_exists is_dir dir LEGACY); congruence.
  - revert Hv. unfold select_variant. simpl.
    destruct (pair_exists is_dir dir RENAMED) eqn:E1; [congruence|].
    destruct (pair_exists is_dir dir LEGACY) eqn:E2; congruence.
  - revert Ho. unfold parse_variant_offset, ok_or, map_err.
    destruct (read_to_string (format_path dir (queue_event v))) as [qf|] eqn:Eq; [|done].
    destruct (read_to_string (format_path dir (run_event v))) as [rf|] eqn:Er; [|done].
    destruct (parse_key_field_offset qf (key_field v)) as [qs|] eqn:E1; [|done].
    destruct (parse_key_field_offset rf (key_field v)) as [rs|] eqn:E2; [|done].
    destruct (Z.eqb_spec qs rs) as [->|]; [|done]. simpl.
    destruct (parse_key_field_offset qf (scope_field v)) as [qc|] eqn:E3; [|done].
    destruct (parse_key_field_offset rf (scope_field v)) as [rc|] eqn:E4; [|done].
    destruct (Z.eqb_spec qc rc) as [->|]; [|done]. simpl. intros [= <-] event.
    rewrite !elem_of_cons, elem_of_nil.
    intros [->|[->|[]]]; [exists qf|exists rf]; by rewrite ?Eq, ?Er.
Qed.

Definition demo_format : string :=
  "name: drm_run_job" +:+ str1 nl +:+
  "	field:u64 id;	offset:16;	size:8;	signed:0;" +:+ str1 nl +:+
  "	field:void * entity;	offset:8;	size:8;	signed:0;" +:+ str1 nl.

Lemma attach_offsets_agree_witness :
  pair_exists (λ d, negb (contains "drm_sched_job_" d)) "/t" LEGACY = true
  ∧ parse_key_field_offset demo_format "id" = Ok 16.
Proof.
  destruct (attach_offsets_agree (λ d, negb (contains "drm_sched_job_" d)) (λ _, Some demo_format)
    "/t" LEGACY {| scope := 8; sequence := 16 |}) as (_ & H1 & H2).
  - vm_compute. reflexivity.
  - vm_compute. reflexivity.
  - split; [exact H1|]. destruct (H2 "drm_run_job") as (text & Ht & H3 & _).
    + do 2 constructor.
    + injection Ht as <-. exact H3.
Defined.
