(* ===== verification/Delivery.v ===== *)
(** * Elasticsearch delivery health ([src/main.rs], [EsDeliveryHealth])

    The agent ships every tick from a detached task, and each task reports its
    outcome to one tracker behind one mutex: a call is one atomic step, and
    the tasks complete in any order.  The tracker decides which operator lines
    are printed. *)
From S2P Require Import Prelude.

(** ** State *)

Definition ES_UNREACHABLE_REPEAT_SECS : Z := 60.

(** One emission of the persistent unreachable warning. *)
Record EsUnreachable := { eu_since_unix : Z; eu_attempts : Z }.

(** The outage currently in progress. *)
Record Outage := { o_since_unix : Z; o_attempts : Z; o_announced : bool }.

Record EsDeliveryState := {
  outage : option Outage;
  last_spoke_unix : option Z;
}.

Definition default_state : EsDeliveryState := {| outage := None; last_spoke_unix := None |}.

(** ** Operations *)

(** Is a failure line due at [now]? *)
Definition failure_due (last_spoke : option Z) (now : Z) : bool :=
  match last_spoke with
  | None => true
  | Some last => (now <? last) || (ES_UNREACHABLE_REPEAT_SECS <=? now - last)
  end.

Definition record_failure (g : EsDeliveryState) (now : Z) : option EsUnreachable * EsDeliveryState :=
  let due := failure_due (last_spoke_unix g) now in
  let o := unwrap_or (outage g) {| o_since_unix := now; o_attempts := 0; o_announced := false |} in
  let attempts := add_u64 (o_attempts o) 1 in
  if negb due then
    (None,
     {| outage := Some {| o_since_unix := o_since_unix o; o_attempts := attempts;
                          o_announced := o_announced o |};
        last_spoke_unix := last_spoke_unix g |})
  else
    (Some {| eu_since_unix := o_since_unix o; eu_attempts := attempts |},
     {| outage := Some {| o_since_unix := o_since_unix o; o_attempts := attempts;
                          o_announced := true |};
        last_spoke_unix := Some now |}).

Definition record_success (g : EsDeliveryState) : option Z * EsDeliveryState :=
  (match outage g with
   | Some o => if o_announced o then Some (o_attempts o) else None
   | None => None
   end,
   {| outage := None; last_spoke_unix := last_spoke_unix g |}).

(** The marked operator lines. *)
Inductive Line :=
| Failing (since attempts : Z)
| Recovered (after : Z).

Definition note_failure (g : EsDeliveryState) (now : Z) : option Line * EsDeliveryState :=
  let '(emission, g') := record_failure g now in
  ((λ e, Failing (eu_since_unix e) (eu_attempts e)) <$> emission, g').

Definition note_success (g : EsDeliveryState) : option Line * EsDeliveryState :=
  let '(after, g') := record_success g in (Recovered <$> after, g').

(** What a delivery returned: [Err] for a transport error or a non-2xx status,
    otherwise how many documents of the bulk were rejected. *)
Record ShipResult := { attempted : Z; succeeded : Z; failed : Z }.
Definition Outcome := result ShipResult string.

(** A delivery in which every document landed. *)
Definition landed (o : Outcome) : bool :=
  match o with Ok r => failed r =? 0 | Err _ => false end.

Definition observe (g : EsDeliveryState) (o : Outcome) (now : Z) : option Line * EsDeliveryState :=
  if landed o then note_success g else note_failure g now.

(** ** The daemon's deliveries as a step relation *)

(** Deliveries in flight, the tracker, and the completed deliveries with their
    clock reading and printed line, latest first. *)
Record Entry := { e_outcome : Outcome; e_now : Z; e_line : option Line }.
Record World := { in_flight : list Outcome; tracker : EsDeliveryState; history : list Entry }.

Definition world0 : World := {| in_flight := []; tracker := default_state; history := [] |}.

Inductive step : World → World → Prop :=
(** A tick spawns a shipping task (its outcome is decided by the network). *)
| Spawn w o :
    step w {| in_flight := o :: in_flight w; tracker := tracker w; history := history w |}
(** Any task in flight completes; the clock may read anything. *)
| Complete w l1 o l2 now line g :
    in_flight w = l1 ++ o :: l2 →
    observe (tracker w) o now = (line, g) →
    step w {| in_flight := l1 ++ l2; tracker := g;
              history := {| e_outcome := o; e_now := now; e_line := line |} :: history w |}.

Definition reachable : World → Prop := rtc step world0.

(** ** What the history says *)

(** The deliveries since the last one that landed, latest first. *)
Definition streak (h : list Entry) : list Entry := take_while (λ e, negb (landed (e_outcome e))) h.

Definition is_failing (e : Entry) : bool :=
  match e_line e with Some (Failing _ _) => true | _ => false end.

(** When a failure line was last printed. *)
Definition last_failing (h : list Entry) : option Z :=
  e_now <$> head (List.filter is_failing h).

(** The outage a streak amounts to. *)
Definition outage_of (h : list Entry) : option Outage :=
  match last (streak h) with
  | None => None
  | Some first =>
      Some {| o_since_unix := e_now first;
              o_attempts := Z.of_nat (length (streak h));
              o_announced := existsb is_failing (streak h) |}
  end.

Record tracks (w : World) : Prop := {
  t_outage : outage (tracker w) = outage_of (history w);
  t_spoke : last_spoke_unix (tracker w) = last_failing (history w);
}.

Lemma streak_cons_landed e h : landed (e_outcome e) = true → streak (e :: h) = [].
Proof. unfold streak. simpl. by intros ->. Qed.

Lemma streak_cons_failed e h : landed (e_outcome e) = false → streak (e :: h) = e :: streak h.
Proof. unfold streak. simpl. by intros ->. Qed.

Lemma length_streak h : (length (streak h) ≤ length h)%nat.
Proof. induction h as [|e h IH]; [done|]. unfold streak in *. simpl. case_match; simpl; lia. Qed.

Lemma last_failing_cons e h :
  last_failing (e :: h) = if is_failing e then Some (e_now e) else last_failing h.
Proof. unfold last_failing. simpl. by destruct (is_failing e). Qed.

(** What a failure does, stated on the history. *)
Lemma failure_spec g h o now :
  outage g = outage_of h → last_spoke_unix g = last_failing h →
  Z.of_nat (length h) < u64_max → landed o = false →
  let e line := {| e_outcome := o; e_now := now; e_line := line |} in
  let first := match last (streak h) with Some f => e_now f | None => now end in
  let line := if failure_due (last_failing h) now
              then Some (Failing first (Z.of_nat (length (streak h)) + 1)) else None in
  ∃ g', observe g o now = (line, g') ∧
    outage g' = outage_of (e line :: h) ∧ last_spoke_unix g' = last_failing (e line :: h).
Proof.
  intros Ho Hs Hlen Hl. cbv zeta. unfold observe, note_failure, record_failure. rewrite Hl, Hs, Ho.
  unfold outage_of. pose proof (length_streak h) as Hsl.
  rewrite last_failing_cons, streak_cons_failed by done. rewrite last_cons.
  cbn [length existsb].
  assert (Hadd : ∀ n : nat, (n ≤ length h)%nat → add_u64 (Z.of_nat n) 1 = Z.of_nat (S n)).
  { intros n Hn. rewrite add_u64_small; lia. }
  destruct (last (streak h)) as [f|] eqn:Elast; cbn [unwrap_or o_attempts o_since_unix o_announced].
  - rewrite Hadd by done. replace (Z.of_nat (length (streak h)) + 1) with (Z.of_nat (S (length (streak h)))) by lia.
    destruct (failure_due _ _); cbn [negb fmap option_fmap option_map]; eexists; by split_and!.
  - apply last_None in Elast. rewrite Elast. simpl.
    destruct (failure_due _ _); cbn [negb fmap option_fmap option_map]; eexists; by split_and!.
Qed.

(** The line an abstract observer of the history prints: the tracker's
    specification. *)
Definition expected_line (h : list Entry) (o : Outcome) (now : Z) : option Line :=
  if landed o then
    if existsb is_failing (streak h) then Some (Recovered (Z.of_nat (length (streak h)))) else None
  else if failure_due (last_failing h) now then
    Some (Failing (match last (streak h) with Some first => e_now first | None => now end)
                  (Z.of_nat (length (streak h)) + 1))
  else None.

Lemma observe_spec g h o now :
  outage g = outage_of h → last_spoke_unix g = last_failing h →
  Z.of_nat (length h) < u64_max →
  let e := {| e_outcome := o; e_now := now; e_line := expected_line h o now |} in
  ∃ g', observe g o now = (expected_line h o now, g') ∧
    outage g' = outage_of (e :: h) ∧ last_spoke_unix g' = last_failing (e :: h).
Proof.
  intros Ho Hs Hlen. cbv zeta. destruct (landed o) eqn:Hl.
  - unfold observe, note_success, record_success, expected_line. rewrite Hl, Ho.
    rewrite last_failing_cons. unfold outage_of at 2. rewrite streak_cons_landed by done.
    unfold outage_of. destruct (last (streak h)) as [f|] eqn:E.
    + simpl. eexists. destruct (existsb is_failing (streak h)); by split_and!.
    + apply last_None in E. rewrite E. simpl. eexists. by split_and!.
  - destruct (failure_spec g h o now Ho Hs Hlen Hl) as (g' & H1 & H2 & H3).
    unfold expected_line. rewrite Hl. by exists g'.
Qed.

(** Every entry of a history carries the line the specification expects. *)
Fixpoint explained (h : list Entry) : Prop :=
  match h with
  | [] => True
  | e :: h' => e_line e = expected_line h' (e_outcome e) (e_now e) ∧ explained h'
  end.

Lemma explained_at h1 e h2 :
  explained (h1 ++ e :: h2) → e_line e = expected_line h2 (e_outcome e) (e_now e).
Proof. induction h1; simpl; naive_solver. Qed.

Lemma reachable_tracks w :
  reachable w → Z.of_nat (length (history w)) ≤ u64_max →
  tracks w ∧ explained (history w).
Proof.
  intros Hr. revert w Hr.
  apply (rtc_ind_r (λ w, Z.of_nat (length (history w)) ≤ u64_max → tracks w ∧ explained (history w)));
    [by intros|].
  intros a b _ Hstep IH Hlen.
  destruct Hstep as [w' o|w' l1 o l2 now line g Hfl Hobs]; simpl in *.
  - destruct (IH Hlen) as [[H1 H2] H3]. by split.
  - destruct IH as [[H1 H2] H3]; [lia|].
    destruct (observe_spec (tracker w') (history w') o now H1 H2 ltac:(lia)) as (g' & E & H4 & H5).
    rewrite E in Hobs. simplify_eq. by split.
Qed.

Lemma last_failing_Some h last :
  last_failing h = Some last → ∃ f, f ∈ h ∧ is_failing f = true ∧ e_now f = last.
Proof.
  unfold last_failing. intros (f & Hf & ->)%fmap_Some. exists f.
  destruct (List.filter is_failing h) as [|f' l] eqn:E; [done|]. simpl in Hf. simplify_eq.
  assert (Hin : f ∈ List.filter is_failing h) by (rewrite E; by left).
  apply list_elem_of_In, List.filter_In in Hin as [Hin ?]. by split; [apply list_elem_of_In|].
Qed.

(** ** Properties *)

(** C17: refinement.  However the shipping tasks interleave and whatever the
    clock reads, the tracker prints exactly the lines of an observer that sees
    the whole history: after a success, the length of the failure streak it
    ends, if a failure line was printed during that streak; after a failure,
    when a line is due, the start of the streak and its length so far. *)
Theorem tracker_refines_history (w : World) (h1 h2 : list Entry) (e : Entry)
    (Hr : reachable w) (Hlen : Z.of_nat (length (history w)) ≤ u64_max)
    (Hh : history w = h1 ++ e :: h2) :
  e_line e = expected_line h2 (e_outcome e) (e_now e).
Proof.
  destruct (reachable_tracks w Hr Hlen) as [_ Hex]. rewrite Hh in Hex. by eapply explained_at.
Qed.

(** Three failures, one of them a rejection, and a success. *)
Definition demo_failure : Outcome := Err "connection refused".
Definition demo_rejected : Outcome := Ok {| attempted := 3; succeeded := 1; failed := 2 |}.
Definition demo_landed : Outcome := Ok {| attempted := 3; succeeded := 3; failed := 0 |}.

Lemma demo_reachable :
  reachable {| in_flight := []; tracker := {| outage := None; last_spoke_unix := Some 100 |};
    history := [{| e_outcome := demo_landed; e_now := 90; e_line := Some (Recovered 2) |};
                {| e_outcome := demo_rejected; e_now := 110; e_line := None |};
                {| e_outcome := demo_failure; e_now := 100; e_line := Some (Failing 100 1) |}] |}.
Proof.
  eapply rtc_l; [apply (Spawn _ demo_failure)|].
  eapply rtc_l; [eapply (Complete _ [] demo_failure [] 100); reflexivity|].
  eapply rtc_l; [apply (Spawn _ demo_rejected)|].
  eapply rtc_l; [eapply (Complete _ [] demo_rejected [] 110); reflexivity|].
  eapply rtc_l; [apply (Spawn _ demo_landed)|].
  eapply rtc_l; [eapply (Complete _ [] demo_landed [] 90); reflexivity|].
  apply rtc_refl.
Qed.

Lemma tracker_refines_history_witness :
  expected_line [{| e_outcome := demo_rejected; e_now := 110; e_line := None |};
                 {| e_outcome := demo_failure; e_now := 100; e_line := Some (Failing 100 1) |}]
    demo_landed 90 = Some (Recovered 2).
Proof.
  symmetry.
  refine (tracker_refines_history _ [] _
    {| e_outcome := demo_landed; e_now := 90; e_line := Some (Recovered 2) |} demo_reachable _ eq_refl).
  discriminate.
Defined.

(** No outage is silent for longer than the repeat window, even across
    clock steps: a failed delivery that prints nothing follows a failure line
    printed at most sixty seconds of clock time before it; in particular a
    clock that stepped back behind the last line is reported at once. *)
Theorem silence_is_bounded (w : World) (e : Entry) (h1 h2 : list Entry)
    (Hr : reachable w) (Hlen : Z.of_nat (length (history w)) ≤ u64_max)
    (Hh : history w = h1 ++ e :: h2)
    (Hfail : landed (e_outcome e) = false) (Hsilent : e_line e = None) :
  ∃ f, f ∈ h2 ∧ is_failing f = true
    ∧ e_now f ≤ e_now e < e_now f + ES_UNREACHABLE_REPEAT_SECS.
Proof.
  destruct (reachable_tracks w Hr Hlen) as [_ Hex]. rewrite Hh in Hex.
  apply explained_at in Hex. rewrite Hsilent in Hex. unfold expected_line in Hex. rewrite Hfail in Hex.
  destruct (last_failing h2) as [last|] eqn:E; [|done].
  destruct (last_failing_Some h2 last E) as (f & Hin & Hf & Hnow). exists f. split_and!; [done|done|..].
  all: simpl in Hex; destruct (_ || _) eqn:Ed in Hex; [done|].
  all: apply orb_false_iff in Ed as [?%Z.ltb_ge ?%Z.leb_gt]; subst last; lia.
Qed.

Lemma silence_is_bounded_witness :
  ∃ f : Entry, is_failing f = true ∧ e_now f ≤ 110 < e_now f + 60.
Proof.
  destruct (silence_is_bounded _ {| e_outcome := demo_rejected; e_now := 110; e_line := None |}
    [{| e_outcome := demo_landed; e_now := 90; e_line := Some (Recovered 2) |}]
    [{| e_outcome := demo_failure; e_now := 100; e_line := Some (Failing 100 1) |}] demo_reachable)
    as (f & _ & H1 & H2).
  - discriminate.
  - reflexivity.
  - reflexivity.
  - reflexivity.
  - exists f. split; [exact H1|exact H2].
Defined.

(** A recovery is announced only for an announced outage: a [Recovered n]
    line is printed by a delivery in which every document landed, it is
    preceded by exactly [n] consecutive failed deliveries, and one of those
    printed a failure line. *)
Theorem recovery_only_if_announced (w : World) (e : Entry) (h1 h2 : list Entry) (n : Z)
    (Hr : reachable w) (Hlen : Z.of_nat (length (history w)) ≤ u64_max)
    (Hh : history w = h1 ++ e :: h2) (Hline : e_line e = Some (Recovered n)) :
  landed (e_outcome e) = true
  ∧ ∃ failures rest,
      h2 = failures ++ rest ∧ Z.of_nat (length failures) = n
      ∧ Forall (λ f, landed (e_outcome f) = false) failures
      ∧ (∃ f, f ∈ failures ∧ is_failing f = true)
      ∧ match rest with r :: _ => landed (e_outcome r) = true | [] => True end.
Proof.
  destruct (reachable_tracks w Hr Hlen) as [_ Hex]. rewrite Hh in Hex.
  apply explained_at in Hex. rewrite Hline in Hex. unfold expected_line in Hex.
  destruct (landed (e_outcome e)); [|by destruct (failure_due _ _)].
  destruct (existsb is_failing (streak h2)) eqn:Ean; [|done]. injection Hex as ->.
  split; [done|]. exists (streak h2), (drop_while (λ f, negb (landed (e_outcome f))) h2).
  split_and!.
  - unfold streak. clear. induction h2 as [|x h IH]; simpl; [done|]. case_match; [by f_equal/=|done].
  - done.
  - unfold streak. clear. induction h2 as [|x h IH]; simpl; [constructor|].
    destruct (landed (e_outcome x)) eqn:E; simpl; by constructor.
  - apply existsb_exists in Ean as (f & Hin & Hf). exists f. split; [by apply list_elem_of_In|done].
  - clear. induction h2 as [|x h IH]; simpl; [done|].
    destruct (landed (e_outcome x)) eqn:E; simpl; done.
Qed.

Lemma recovery_only_if_announced_witness :
  ∃ failures : list Entry, Z.of_nat (length failures) = 2
    ∧ Forall (λ f, landed (e_outcome f) = false) failures.
Proof.
  destruct (recovery_only_if_announced _
    {| e_outcome := demo_landed; e_now := 90; e_line := Some (Recovered 2) |} []
    [{| e_outcome := demo_rejected; e_now := 110; e_line := None |};
     {| e_outcome := demo_failure; e_now := 100; e_line := Some (Failing 100 1) |}] 2 demo_reachable)
    as (_ & failures & rest & _ & H1 & H2 & _).
  - discriminate.
  - reflexivity.
  - reflexivity.
  - exists failures. split; [exact H1|exact H2].
Defined.
