(* ===== verification/Contract.v ===== *)
(** * Detector output contract ([src/detectors/contract.rs])

    The diagnosis record every detector builds, its validation, the outcome
    and the mapping to the process exit status. *)
From S2P Require Import Prelude Float64.

(** ** Data *)

Record DetectorContract := {
  dc_detector_id : string;
  dc_rule_version : string;
  dc_error_prefix : string;
}.

Inductive Disposition := NonFinding | Finding.
#[export] Instance Disposition_eq_dec : EqDecision Disposition.
Proof. solve_decision. Defined.

Record Diagnosis := {
  d_timestamp : string;
  d_detector_id : string;
  d_rule_version : string;
  d_verdict : string;
  d_confidence : f64;
  d_confidence_basis : string;
  d_evidence : list string;
  d_plain_language : string;
  d_suggested_fixes : list string;
  d_falsifier : string;
  d_host : option string;
  d_supported_scope : list string;
  d_missing_evidence : list string;
  d_nearest_alternative : string;
  d_disposition : Disposition;
}.

(** Named construction fields. *)
Record DiagnosisFields := {
  df_disposition : Disposition;
  df_verdict : string;
  df_confidence : f64;
  df_confidence_basis : string;
  df_evidence : list string;
  df_plain_language : string;
  df_suggested_fixes : list string;
  df_falsifier : string;
  df_supported_scope : list string;
  df_missing_evidence : list string;
  df_nearest_alternative : string;
  df_host : option string;
}.

Record NotApplicable := {
  na_outcome : string;
  na_verdict : string;
  na_explanation : string;
  na_evidence : list string;
  na_disposition : Disposition;
}.

Inductive Outcome :=
| DiagnosisOutcome (d : Diagnosis)
| NotApplicableOutcome (n : NotApplicable).

(** ** Operations *)

Definition is_nil {A} (l : list A) : bool := match l with [] => true | _ => false end.

Definition f64_one : f64 := f64_of_Z 1.

Definition validate (d : Diagnosis) (contract : DetectorContract) : result unit string :=
  if negb (f64_in f64_zero f64_one (d_confidence d)) then
    Err (dc_error_prefix contract +:+ " diagnosis confidence must be in [0,1]")
  else if is_nil (d_evidence d)
       || is_empty (d_plain_language d)
       || is_empty (d_falsifier d)
       || is_empty (d_confidence_basis d)
       || is_nil (d_supported_scope d)
       || is_empty (d_nearest_alternative d) then
    Err (dc_error_prefix contract +:+ " diagnosis contract requires evidence, plain language, confidence basis, falsifier, supported scope, and nearest alternative")
  else if bool_decide (d_disposition d = Finding) && is_nil (d_suggested_fixes d) then
    Err (dc_error_prefix contract +:+ " real findings require suggested fixes")
  else Ok tt.

(** [now] is the RFC 3339 rendering of the clock. *)
Definition build (now : string) (contract : DetectorContract) (fields : DiagnosisFields)
  : result Diagnosis string :=
  let d := {|
    d_timestamp := now;
    d_detector_id := dc_detector_id contract;
    d_rule_version := dc_rule_version contract;
    d_verdict := df_verdict fields;
    d_confidence := df_confidence fields;
    d_confidence_basis := df_confidence_basis fields;
    d_evidence := df_evidence fields;
    d_plain_language := df_plain_language fields;
    d_suggested_fixes := df_suggested_fixes fields;
    d_falsifier := df_falsifier fields;
    d_host := df_host fields;
    d_supported_scope := df_supported_scope fields;
    d_missing_evidence := df_missing_evidence fields;
    d_nearest_alternative := df_nearest_alternative fields;
    d_disposition := df_disposition fields |} in
  let? _ := validate d contract in
  Ok d.

Definition not_applicable (explanation : string) (evidence : list string) : NotApplicable :=
  {| na_outcome := "not-applicable"; na_verdict := "not-applicable";
     na_explanation := explanation; na_evidence := evidence; na_disposition := NonFinding |}.

Definition disposition (o : Outcome) : Disposition :=
  match o with
  | DiagnosisOutcome d => d_disposition d
  | NotApplicableOutcome n => na_disposition n
  end.

Definition with_disposition (o : Outcome) (disp : Disposition) : Outcome :=
  match o with
  | DiagnosisOutcome d =>
      DiagnosisOutcome {|
        d_timestamp := d_timestamp d; d_detector_id := d_detector_id d;
        d_rule_version := d_rule_version d; d_verdict := d_verdict d;
        d_confidence := d_confidence d; d_confidence_basis := d_confidence_basis d;
        d_evidence := d_evidence d; d_plain_language := d_plain_language d;
        d_suggested_fixes := d_suggested_fixes d; d_falsifier := d_falsifier d;
        d_host := d_host d; d_supported_scope := d_supported_scope d;
        d_missing_evidence := d_missing_evidence d;
        d_nearest_alternative := d_nearest_alternative d; d_disposition := disp |}
  | NotApplicableOutcome n =>
      NotApplicableOutcome {|
        na_outcome := na_outcome n; na_verdict := na_verdict n;
        na_explanation := na_explanation n; na_evidence := na_evidence n;
        na_disposition := disp |}
  end.

(** What a run leaves on its two streams, and its exit status. *)
Record Emission := { stdout : string; stderr : string; exit_code : Z }.

Definition line_of (s : string) : string := s +:+ str1 nl.

(** [show_f64] is [f64]'s [Display]; [to_json] is [serde_json::to_string]. *)
Section emit.
Context (show_f64 : f64 → string) (to_json : Outcome → result string string).

Definition print_human (o : Outcome) : string :=
  match o with
  | DiagnosisOutcome d =>
      line_of ("detector_id: " +:+ d_detector_id d)
      +:+ line_of ("rule_version: " +:+ d_rule_version d)
      +:+ line_of ("verdict: " +:+ d_verdict d)
      +:+ line_of ("confidence: " +:+ show_f64 (d_confidence d))
      +:+ line_of ("confidence_basis: " +:+ d_confidence_basis d)
      +:+ concat_str (map (λ item, line_of ("evidence: " +:+ item)) (d_evidence d))
      +:+ line_of ("plain_language: " +:+ d_plain_language d)
      +:+ concat_str (map (λ fx, line_of ("suggested_fix: " +:+ fx)) (d_suggested_fixes d))
      +:+ line_of ("falsifier: " +:+ d_falsifier d)
      +:+ concat_str (map (λ sc, line_of ("supported_scope: " +:+ sc)) (d_supported_scope d))
      +:+ (if is_nil (d_missing_evidence d) then line_of "missing_evidence: []"
           else concat_str (map (λ m, line_of ("missing_evidence: " +:+ m)) (d_missing_evidence d)))
      +:+ line_of ("nearest_alternative: " +:+ d_nearest_alternative d)
  | NotApplicableOutcome n =>
      line_of "outcome: not-applicable" +:+ line_of "verdict: not-applicable"
      +:+ line_of ("explanation: " +:+ na_explanation n)
      +:+ concat_str (map (λ item, line_of ("evidence: " +:+ item)) (na_evidence n))
  end.

Definition json_output_line (o : Outcome) : result string string :=
  let? line := to_json o in Ok (line_of line).

Definition disposition_code (o : Outcome) : Z :=
  match disposition o with NonFinding => 0 | Finding => 1 end.

Definition emit (contract : DetectorContract) (r : result Outcome string) (json : bool) : Emission :=
  match r with
  | Ok outcome =>
      if json then
        match json_output_line outcome with
        | Ok line => {| stdout := line; stderr := EmptyString; exit_code := disposition_code outcome |}
        | Err error =>
            {| stdout := EmptyString;
               stderr := line_of (dc_error_prefix contract
                 +:+ " incomplete: cannot serialize outcome: " +:+ error);
               exit_code := 2 |}
        end
      else {| stdout := print_human outcome; stderr := EmptyString;
              exit_code := disposition_code outcome |}
  | Err error =>
      {| stdout := EmptyString;
         stderr := line_of (dc_error_prefix contract +:+ " incomplete: " +:+ error);
         exit_code := 2 |}
  end.
End emit.

(** ** The contract *)

(** What a diagnosis promises its reader. *)
Record well_formed (d : Diagnosis) : Prop := {
  wf_confidence : f64_in f64_zero f64_one (d_confidence d) = true;
  wf_evidence : d_evidence d ≠ [];
  wf_plain_language : d_plain_language d ≠ EmptyString;
  wf_falsifier : d_falsifier d ≠ EmptyString;
  wf_confidence_basis : d_confidence_basis d ≠ EmptyString;
  wf_supported_scope : d_supported_scope d ≠ [];
  wf_nearest_alternative : d_nearest_alternative d ≠ EmptyString;
  wf_fixes : d_disposition d = Finding → d_suggested_fixes d ≠ [];
}.

Lemma is_nil_true {A} (l : list A) : is_nil l = true ↔ l = [].
Proof. by destruct l. Qed.
Lemma is_nil_false {A} (l : list A) : is_nil l = false ↔ l ≠ [].
Proof. by destruct l. Qed.
Lemma is_empty_true s : is_empty s = true ↔ s = EmptyString.
Proof. by destruct s. Qed.
Lemma is_empty_false s : is_empty s = false ↔ s ≠ EmptyString.
Proof. by destruct s. Qed.

Lemma validate_Ok d c : validate d c = Ok tt ↔ well_formed d.
Proof.
  unfold validate. split.
  - destruct (f64_in _ _ _) eqn:E1; [|done]. cbn [negb].
    destruct (_ || _) eqn:E2; [done|].
    repeat match goal with H : _ || _ = false |- _ => apply orb_false_iff in H as [? ?] end.
    rewrite is_nil_false, is_empty_false in *.
    destruct (bool_decide (d_disposition d = Finding) && is_nil (d_suggested_fixes d)) eqn:E3; [done|].
    intros _. split; try done; try (by apply is_empty_false); try (by apply is_nil_false).
    intros HF. rewrite bool_decide_true in E3 by done. by apply is_nil_false.
  - intros [H1 H2 H3 H4 H5 H6 H7 H8]. rewrite H1. cbn [negb].
    apply is_nil_false in H2, H6. apply is_empty_false in H3, H4, H5, H7.
    rewrite H2, H3, H4, H5, H6, H7. cbn [orb].
    destruct (bool_decide_reflect (d_disposition d = Finding)) as [HF|]; [|done].
    specialize (H8 HF). apply is_nil_false in H8. by rewrite H8.
Qed.

Lemma validate_Err d c e : validate d c = Err e → starts_with (dc_error_prefix c) e = true.
Proof.
  unfold validate. repeat (case_match; [|]); intros; simplify_eq; apply starts_with_app.
Qed.

(** ** Properties *)

(** [Diagnosis::build] succeeds exactly on fields that make a well-formed
    diagnosis (confidence in [0,1], every promised text present, fixes for a
    real finding), and what it returns carries the contract's identity and the
    given fields unchanged; otherwise it fails with a message that starts with
    the contract's error prefix. *)
Theorem build_spec (now : string) (c : DetectorContract) (f : DiagnosisFields) :
  match build now c f with
  | Ok d =>
      well_formed d ∧ d_detector_id d = dc_detector_id c ∧ d_rule_version d = dc_rule_version c
      ∧ d_disposition d = df_disposition f ∧ d_confidence d = df_confidence f
      ∧ d_evidence d = df_evidence f ∧ d_suggested_fixes d = df_suggested_fixes f
  | Err e =>
      starts_with (dc_error_prefix c) e = true
      ∧ ¬ ∃ d, well_formed d ∧ d_disposition d = df_disposition f
            ∧ d_confidence d = df_confidence f ∧ d_confidence_basis d = df_confidence_basis f
            ∧ d_evidence d = df_evidence f ∧ d_plain_language d = df_plain_language f
            ∧ d_suggested_fixes d = df_suggested_fixes f ∧ d_falsifier d = df_falsifier f
            ∧ d_supported_scope d = df_supported_scope f
            ∧ d_nearest_alternative d = df_nearest_alternative f
  end.
Proof.
  unfold build. set (d0 := {| d_timestamp := now |}). destruct (validate d0 c) as [[]|e] eqn:E.
  - apply validate_Ok in E. by split_and!.
  - split; [by eapply validate_Err|]. intros (d & [] & ? & ? & ? & ? & ? & ? & ? & ? & ?).
    assert (Hw : validate d0 c = Ok tt); [|congruence].
    apply validate_Ok. unfold d0. clear E d0. destruct f. simpl in *. subst. by split.
Qed.

(** Exit statuses.  A detector exits 2 exactly when it printed nothing on
    standard output (the run or the serialization failed, and standard error
    says so with the contract's prefix); otherwise it exits 1 for a finding and
    0 for anything else, and standard error stays empty.  The verdict text
    plays no part. *)
Theorem emit_exit_code (show_f64 : f64 → string) (to_json : Outcome → result string string)
    (c : DetectorContract) (r : result Outcome string) (json : bool) :
  let out := emit show_f64 to_json c r json in
  (exit_code out = 2 ↔ stdout out = EmptyString)
  ∧ (exit_code out = 2 → starts_with (dc_error_prefix c) (stderr out) = true)
  ∧ (exit_code out = 2 ↔ match r with Err _ => True | Ok o => json = true ∧ is_ok (to_json o) = false end)
  ∧ (exit_code out ≠ 2 → stderr out = EmptyString
      ∧ ∃ o, r = Ok o ∧ exit_code out = (if bool_decide (disposition o = Finding) then 1 else 0)).
Proof.
  assert (Hline : ∀ s, line_of s ≠ EmptyString) by (by intros []).
  assert (Hcode : ∀ o, disposition_code o = if bool_decide (disposition o = Finding) then 1 else 0).
  { intros o. unfold disposition_code. by destruct (disposition o). }
  assert (Hn2 : ∀ o, disposition_code o ≠ 2) by (intros o; rewrite Hcode; by destruct (bool_decide _)).
  assert (Hhuman : ∀ o, print_human show_f64 o ≠ EmptyString) by (by intros []).
  assert (Hpre : ∀ p x, starts_with p (line_of (p +:+ x)) = true).
  { intros p x. unfold line_of. rewrite <-str_app_assoc. apply starts_with_app. }
  cbv zeta. unfold emit, json_output_line. destruct r as [o|e];
    [|split_and!; [done|intros _; apply Hpre|done|done]].
  destruct json; [destruct (to_json o) as [line|er] eqn:Ej|]; cbn [exit_code stdout stderr];
    [|split_and!; [done|intros _; apply Hpre|done|done]|].
  - split_and!; [split; [by intros ?%Hn2|by intros ?%Hline]|by intros ?%Hn2| |].
    + split; [by intros ?%Hn2|by intros [_ ?]].
    + intros _. split; [done|]. by exists o.
  - split_and!; [split; [by intros ?%Hn2|by intros ?%Hhuman]|by intros ?%Hn2| |].
    + split; [by intros ?%Hn2|by intros [? _]].
    + intros _. split; [done|]. by exists o.
Qed.
