(* ===== verification/DiagnosisEvent.v ===== *)
(** * The diagnosis-event envelope ([src/detectors/contract/diagnosis_event.rs])

    Validation of a detector outcome into the versioned event, and its RFC 8785
    (JCS) bytes.  [serde_json]'s value type is [Json]'s; string
    escaping and the shortest rendering of a float belong to [serde_json] and
    are arguments, like [chrono]'s RFC 3339 parser and [uuid]'s. *)
From Stdlib Require Import Ascii.
From S2P Require Import Prelude Float64 EsModel Json Contract.

#[local] Set Warnings "-register-all".

(** ** Constants *)

Definition DIAGNOSIS_SCHEMA_VERSION : Z := 1.
Definition MAX_ARRAY_ELEMENTS : Z := 50.
Definition MAX_ARRAY_ELEMENT_CHARS : Z := 4096.
Definition MAX_DISPLAY_CHARS : Z := 8192.
Definition MAX_KEYWORD_CHARS : Z := 1024.
Definition MAX_DIAGNOSIS_EVENT_BYTES : Z := 1048576.

(** ** Data *)

Inductive InputMode := Live | Offline | Fixture.

Record EventContext := {
  ec_event_id : string;
  ec_enqueue_timestamp : string;
  ec_local_host_name : string;
  ec_detector_contract : DetectorContract;
  ec_input_mode : InputMode;
}.

Inductive ValidationError :=
| EmptyEvidence
| EmptyPlainLanguage
| EmptyRequiredField (field : string)
| EmptySuggestedFixes
| MissingDetectorContractIdentity
| ConfidenceOutOfRange
| InvalidTimestamp (field : string)
| InvalidEventId
| LimitExceeded (field : string) (limit : Z)
| DetectorContractMismatch (field expected actual : string)
| EventBytesLimitExceeded (limit actual_saturated : Z).

Record DiagnosisPayload := {
  p_schema_version : Z;
  p_outcome : string;
  p_detector_id : string;
  p_rule_version : string;
  p_input_mode : InputMode;
  p_disposition : string;
  p_evidence : list string;
  p_evidence_display : string;
  p_plain_language : string;
  p_verdict : option string;
  p_confidence : option f64;
  p_confidence_basis : option string;
  p_suggested_fixes : option (list string);
  p_suggested_fixes_display : option string;
  p_falsifier : option string;
  p_supported_scope : option (list string);
  p_missing_evidence : option (list string);
  p_nearest_alternative : option string;
}.

(** The nested [event], [host] and [rigsignal] objects have one member each. *)
Record DiagnosisEvent := {
  ev_timestamp : string;
  ev_id : string;
  ev_host_name : string;
  ev_diagnosis : DiagnosisPayload;
}.

Record ValidatedDiagnosisEvent := {
  v_event : DiagnosisEvent;
  v_canonical_bytes : string;
}.

(** ** JSON form *)

(** [None] members are skipped ([skip_serializing_if]). *)
Definition member {A} (name : string) (f : A → json) (o : option A) : list (string * json) :=
  match o with Some a => [(name, f a)] | None => [] end.
Definition strings (l : list string) : json := JArray (JString <$> l).

Definition input_mode_name (m : InputMode) : string :=
  match m with Live => "live" | Offline => "offline" | Fixture => "fixture" end.

Definition payload_to_value (p : DiagnosisPayload) : json :=
  JObject (
    [("schema_version", JNumber (PosInt (p_schema_version p)));
     ("outcome", JString (p_outcome p));
     ("detector_id", JString (p_detector_id p));
     ("rule_version", JString (p_rule_version p));
     ("input_mode", JString (input_mode_name (p_input_mode p)));
     ("disposition", JString (p_disposition p));
     ("evidence", strings (p_evidence p));
     ("evidence_display", JString (p_evidence_display p));
     ("plain_language", JString (p_plain_language p))]
    ++ member "verdict" JString (p_verdict p)
    ++ member "confidence" json_f64 (p_confidence p)
    ++ member "confidence_basis" JString (p_confidence_basis p)
    ++ member "suggested_fixes" strings (p_suggested_fixes p)
    ++ member "suggested_fixes_display" JString (p_suggested_fixes_display p)
    ++ member "falsifier" JString (p_falsifier p)
    ++ member "supported_scope" strings (p_supported_scope p)
    ++ member "missing_evidence" strings (p_missing_evidence p)
    ++ member "nearest_alternative" JString (p_nearest_alternative p)).

Definition event_to_value (e : DiagnosisEvent) : json :=
  JObject [("@timestamp", JString (ev_timestamp e));
           ("event", JObject [("id", JString (ev_id e))]);
           ("host", JObject [("name", JString (ev_host_name e))]);
           ("rigsignal", JObject [("diagnosis", payload_to_value (ev_diagnosis e))])].

(** ** JCS numbers *)

(** [find(['e', 'E'])], splitting around the hit. *)
Fixpoint split_exponent (s : string) : option (string * string) :=
  match s with
  | EmptyString => None
  | String c s' =>
      if Ascii.eqb c "e" || Ascii.eqb c "E" then Some (EmptyString, s')
      else match split_exponent s' with Some (a, b) => Some (String c a, b) | None => None end
  end.

Fixpoint digits_num (acc : Z) (s : string) : option Z :=
  match s with
  | EmptyString => Some acc
  | String c s' => if is_ascii_digit c then digits_num (acc * 10 + (byte_val c - 48)) s' else None
  end.

(** [str::parse::<i32>]. *)
Definition parse_i32 (s : string) : option Z :=
  let '(negative, body) :=
    match s with
    | String c s' =>
        if Ascii.eqb c "-" then (true, s') else if Ascii.eqb c "+" then (false, s') else (false, s)
    | EmptyString => (false, s)
    end in
  if is_empty body then None
  else
    let! n := digits_num 0 body in
    let v := if negative then - n else n in
    if (- 2 ^ 31 <=? v) && (v <? 2 ^ 31) then Some v else None.

(** [None] is the panic of [expect]. *)
Definition split_number (raw : string) : option (string * Z) :=
  match split_exponent raw with
  | Some (mantissa, e) => let! exponent := parse_i32 e in Some (mantissa, exponent)
  | None => Some (raw, 0)
  end.

Fixpoint trim_start_byte (c : ascii) (s : string) : string :=
  match s with
  | EmptyString => EmptyString
  | String d s' => if Ascii.eqb d c then trim_start_byte c s' else s
  end.
Fixpoint trim_end_byte (c : ascii) (s : string) : string :=
  match s with
  | EmptyString => EmptyString
  | String d s' =>
      match trim_end_byte c s' with
      | EmptyString => if Ascii.eqb d c then EmptyString else String d EmptyString
      | r => String d r
      end
  end.

Fixpoint repeat_byte (c : ascii) (n : nat) : string :=
  match n with O => EmptyString | S n' => String c (repeat_byte c n') end.
Fixpoint take_str (n : nat) (s : string) : string :=
  match n, s with S n', String c s' => String c (take_str n' s') | _, _ => EmptyString end.
Fixpoint drop_str (n : nat) (s : string) : string :=
  match n, s with S n', String _ s' => drop_str n' s' | _, _ => s end.

(** [find('.')]. *)
Fixpoint find_byte (c : ascii) (s : string) : option nat :=
  match s with
  | EmptyString => None
  | String d s' => if Ascii.eqb d c then Some 0%nat else S <$> find_byte c s'
  end.

Definition is_dot (c : ascii) : bool := Ascii.eqb c ".".

(** Plain decimal notation; the arithmetic is [i32]'s, far from its bounds. *)
Definition expand_jcs_decimal (raw : string) : option string :=
  let! (mantissa, exponent) := split_number raw in
  let negative := starts_with "-" mantissa in
  let unsigned := trim_start_byte "-" mantissa in
  let digits := filter_bytes (λ c, negb (is_dot c)) unsigned in
  let decimal_at :=
    Z.of_nat (unwrap_or (find_byte "." unsigned) (String.length digits)) + exponent in
  let rendered :=
    if decimal_at <=? 0 then
      "0." +:+ repeat_byte "0" (Z.to_nat (- decimal_at)) +:+ digits
    else if slen digits <=? decimal_at then
      digits +:+ repeat_byte "0" (Z.to_nat (decimal_at - slen digits))
    else
      take_str (Z.to_nat decimal_at) digits +:+ "." +:+ drop_str (Z.to_nat decimal_at) digits in
  let rendered :=
    if any_byte is_dot rendered then trim_end_byte "." (trim_end_byte "0" rendered) else rendered in
  Some (if negative then "-" +:+ rendered else rendered).

Definition show_i32 (z : Z) : string := if z <? 0 then "-" +:+ show (- z) else show z.

Definition jcs_scientific (raw : string) : option string :=
  let! (mantissa, exponent) := split_number raw in
  let negative := starts_with "-" mantissa in
  let unsigned := trim_start_byte "-" mantissa in
  let digits := filter_bytes (λ c, negb (is_dot c)) unsigned in
  let decimal_at :=
    Z.of_nat (unwrap_or (find_byte "." unsigned) (String.length unsigned)) + exponent in
  let significant := trim_start_byte "0" digits in
  let leading_zeroes := slen digits - slen significant in
  let exponent := decimal_at - 1 - leading_zeroes in
  let significand :=
    if slen significant =? 1 then significant
    else take_str 1 significant +:+ "." +:+ drop_str 1 significant in
  Some ((if negative then "-" else EmptyString) +:+ significand +:+ "e"
        +:+ (if 0 <=? exponent then "+" else EmptyString) +:+ show_i32 exponent).

(** ** JCS values *)

(** The scalar value of one UTF-8 character, and its UTF-16 code units. *)
Definition scalar_of (ch : string) : Z :=
  let cont i := byte_val (match String.get i ch with Some c => c | None => zero end) - 128 in
  match ch with
  | EmptyString => 0
  | String a _ =>
      let v := byte_val a in
      if v <? 128 then v
      else if v <? 224 then (v - 192) * 64 + cont 1%nat
      else if v <? 240 then (v - 224) * 4096 + cont 1%nat * 64 + cont 2%nat
      else (v - 240) * 262144 + cont 1%nat * 4096 + cont 2%nat * 64 + cont 3%nat
  end.
Definition utf16_units (ch : string) : list Z :=
  let v := scalar_of ch in
  if v <? 65536 then [v]
  else [55296 + (v - 65536) / 1024; 56320 + (v - 65536) mod 1024].
Definition encode_utf16 (s : string) : list Z := concat (utf16_units <$> chars s).

(** Lexicographic order of code units. *)
Fixpoint units_le (a b : list Z) : bool :=
  match a, b with
  | [], _ => true
  | _, [] => false
  | x :: a', y :: b' => (x <? y) || ((x =? y) && units_le a' b')
  end.

Section jcs.
Context (json_string : string → string) (ryu : f64 → string).

(** [None]: the integer rendering or [expect] of a number that cannot occur. *)
Definition jcs_number (n : number) : option string :=
  match n with
  | PosInt z => Some (show z)
  | NegInt z => Some (show_i32 z)
  | Float f =>
      if f64_eq f f64_zero then Some "0"
      else
        let raw := ryu f in
        let magnitude := f64_abs f in
        if f64_le (f64_lit 1 6) magnitude && f64_lt magnitude (f64_of_Z (10 ^ 21))
        then expand_jcs_decimal raw else jcs_scientific raw
  end.

Definition entry_le (a b : string * string) : bool :=
  units_le (encode_utf16 (fst a)) (encode_utf16 (fst b)).

(** Members are rendered, then sorted by the UTF-16 units of their names. *)
Fixpoint jcs_value (v : json) : option string :=
  match v with
  | JNull => Some "null"
  | JBool b => Some (if b then "true" else "false")
  | JNumber n => jcs_number n
  | JString s => Some (json_string s)
  | JArray l =>
      let! items := mapM jcs_value l in Some ("[" +:+ join "," items +:+ "]")
  | JObject l =>
      let! entries := mapM (λ kv : string * json,
        let! r := jcs_value (snd kv) in Some (fst kv, r)) l in
      Some ("{" +:+ join "," ((λ e : string * string, json_string (fst e) +:+ ":" +:+ snd e)
                                <$> stable_sort entry_le entries) +:+ "}")
  end.

Definition serialize_diagnosis_event_jcs (e : DiagnosisEvent) : option string :=
  jcs_value (event_to_value e).
End jcs.

(** ** Validation *)

Definition saturate_event_byte_count (actual : Z) : Z := Z.min actual u32_max.

(** Return whether the compiled schema version occurs in the accepted set. *)
Definition is_accepted_schema_version (compiled : Z) (accepted : list string) : bool :=
  existsb (λ version, String.eqb version (show compiled)) accepted.

Definition validate_non_empty (field value : string) : result unit ValidationError :=
  if is_empty value then Err (EmptyRequiredField field) else Ok tt.

Definition validate_keyword (field value : string) : result unit ValidationError :=
  if MAX_KEYWORD_CHARS <? char_count value then Err (LimitExceeded field MAX_KEYWORD_CHARS) else Ok tt.

Definition validate_display (field value : string) : result unit ValidationError :=
  if MAX_DISPLAY_CHARS <? char_count value then Err (LimitExceeded field MAX_DISPLAY_CHARS) else Ok tt.

Definition validate_array (field : string) (values : list string) : result unit ValidationError :=
  if MAX_ARRAY_ELEMENTS <? Z.of_nat (length values) then
    Err (LimitExceeded field MAX_ARRAY_ELEMENTS)
  else if existsb (λ value, MAX_ARRAY_ELEMENT_CHARS <? char_count value) values then
    Err (LimitExceeded field MAX_ARRAY_ELEMENT_CHARS)
  else Ok tt.

Definition validate_arrays (evidence suggested_fixes supported_scope missing_evidence : list string)
  : result unit ValidationError :=
  let? _ := validate_array "evidence" evidence in
  let? _ := validate_array "suggested_fixes" suggested_fixes in
  let? _ := validate_array "supported_scope" supported_scope in
  validate_array "missing_evidence" missing_evidence.

Definition validate_evidence_and_plain_language (evidence : list string) (plain_language : string)
  : result unit ValidationError :=
  if is_nil evidence then Err EmptyEvidence
  else if is_empty plain_language then Err EmptyPlainLanguage else Ok tt.

(** The numbered display of a list, from number [n] on. *)
Fixpoint numbered (n : Z) (values : list string) : list string :=
  match values with
  | [] => []
  | value :: rest => (show n +:+ ". " +:+ value) :: numbered (n + 1) rest
  end.
Definition render_display (values : list string) : string := join (str1 nl) (numbered 1 values).

Definition disposition_name (d : Disposition) : string :=
  match d with Finding => "finding" | NonFinding => "non_finding" end.

(** [parse_rfc3339]: does [chrono] accept the timestamp; [uuid_version]: the
    version number of a string [uuid] parses; [json_string] and [ryu] as above. *)
Section event.
Context `{Unicode} (parse_rfc3339 : string → bool) (uuid_version : string → option Z)
  (json_string : string → string) (ryu : f64 → string).

Definition validate_timestamp (field value : string) : result unit ValidationError :=
  if parse_rfc3339 value then Ok tt else Err (InvalidTimestamp field).

Definition normalized_host_name (value : string) : result string ValidationError :=
  let normalized := uc_to_lowercase value in
  let? _ := validate_non_empty "host_name" normalized in
  let? _ := validate_keyword "host_name" normalized in
  Ok normalized.

Definition validate_context (ctx : EventContext) : result unit ValidationError :=
  let contract := ec_detector_contract ctx in
  if is_empty (dc_detector_id contract) || is_empty (dc_rule_version contract) then
    Err MissingDetectorContractIdentity
  else
    let? _ := validate_non_empty "event_id" (ec_event_id ctx) in
    let? _ := validate_keyword "event_id" (ec_event_id ctx) in
    let? version := ok_or (uuid_version (ec_event_id ctx)) InvalidEventId in
    if negb (version =? 7) then Err InvalidEventId
    else
      let? _ := validate_non_empty "host_name" (ec_local_host_name ctx) in
      let? _ := validate_keyword "host_name" (ec_local_host_name ctx) in
      let? _ := validate_keyword "detector_id" (dc_detector_id contract) in
      let? _ := validate_keyword "rule_version" (dc_rule_version contract) in
      validate_timestamp "enqueue_timestamp" (ec_enqueue_timestamp ctx).

Definition validate_required_diagnosis_fields (d : Diagnosis) (disp : Disposition)
  : result unit ValidationError :=
  let? _ := validate_non_empty "confidence_basis" (d_confidence_basis d) in
  let? _ := validate_non_empty "falsifier" (d_falsifier d) in
  if is_nil (d_supported_scope d) then Err (EmptyRequiredField "supported_scope")
  else
    let? _ := validate_non_empty "nearest_alternative" (d_nearest_alternative d) in
    if bool_decide (disp = Finding) && is_nil (d_suggested_fixes d) then Err EmptySuggestedFixes
    else validate_timestamp "timestamp" (d_timestamp d).

(** The [Outcome::Diagnosis] branch of [try_from_outcome]. *)
Definition diagnosis_payload (d : Diagnosis) (ctx : EventContext)
  : result (string * string * DiagnosisPayload) ValidationError :=
  let contract := ec_detector_contract ctx in
  let disp := d_disposition d in
  if negb (String.eqb (d_detector_id d) (dc_detector_id contract)) then
    Err (DetectorContractMismatch "detector_id" (dc_detector_id contract) (d_detector_id d))
  else if negb (String.eqb (d_rule_version d) (dc_rule_version contract)) then
    Err (DetectorContractMismatch "rule_version" (dc_rule_version contract) (d_rule_version d))
  else
    let? _ := validate_non_empty "verdict" (d_verdict d) in
    let? _ := validate_keyword "verdict" (d_verdict d) in
    if negb (f64_is_finite (d_confidence d)) || negb (f64_in f64_zero f64_one (d_confidence d)) then
      Err ConfidenceOutOfRange
    else
      let? _ := validate_evidence_and_plain_language (d_evidence d) (d_plain_language d) in
      let? _ := validate_arrays (d_evidence d) (d_suggested_fixes d) (d_supported_scope d)
                  (d_missing_evidence d) in
      let? _ := validate_required_diagnosis_fields d disp in
      let evidence_display := render_display (d_evidence d) in
      let? _ := validate_display "evidence_display" evidence_display in
      let suggested_fixes_display :=
        if negb (is_nil (d_suggested_fixes d)) then Some (render_display (d_suggested_fixes d))
        else None in
      let? _ := match suggested_fixes_display with
                | Some display => validate_display "suggested_fixes_display" display
                | None => Ok tt
                end in
      let? host_name := normalized_host_name (unwrap_or (d_host d) (ec_local_host_name ctx)) in
      Ok (d_timestamp d, host_name, {|
        p_schema_version := DIAGNOSIS_SCHEMA_VERSION;
        p_outcome := "diagnosis";
        p_detector_id := dc_detector_id contract;
        p_rule_version := dc_rule_version contract;
        p_input_mode := ec_input_mode ctx;
        p_disposition := disposition_name disp;
        p_evidence := d_evidence d;
        p_evidence_display := evidence_display;
        p_plain_language := d_plain_language d;
        p_verdict := Some (d_verdict d);
        p_confidence := Some (d_confidence d);
        p_confidence_basis := Some (d_confidence_basis d);
        p_suggested_fixes := Some (d_suggested_fixes d);
        p_suggested_fixes_display := suggested_fixes_display;
        p_falsifier := Some (d_falsifier d);
        p_supported_scope := Some (d_supported_scope d);
        p_missing_evidence := Some (d_missing_evidence d);
        p_nearest_alternative := Some (d_nearest_alternative d) |}).

(** The [Outcome::NotApplicable] branch. *)
Definition not_applicable_payload (n : NotApplicable) (ctx : EventContext)
  : result (string * string * DiagnosisPayload) ValidationError :=
  let contract := ec_detector_contract ctx in
  let? _ := validate_evidence_and_plain_language (na_evidence n) (na_explanation n) in
  let? _ := validate_array "evidence" (na_evidence n) in
  let evidence_display := render_display (na_evidence n) in
  let? _ := validate_display "evidence_display" evidence_display in
  let? host_name := normalized_host_name (ec_local_host_name ctx) in
  Ok (ec_enqueue_timestamp ctx, host_name, {|
    p_schema_version := DIAGNOSIS_SCHEMA_VERSION;
    p_outcome := "not_applicable";
    p_detector_id := dc_detector_id contract;
    p_rule_version := dc_rule_version contract;
    p_input_mode := ec_input_mode ctx;
    p_disposition := "non_finding";
    p_evidence := na_evidence n;
    p_evidence_display := evidence_display;
    p_plain_language := na_explanation n;
    p_verdict := None; p_confidence := None; p_confidence_basis := None;
    p_suggested_fixes := None; p_suggested_fixes_display := None; p_falsifier := None;
    p_supported_scope := None; p_missing_evidence := None; p_nearest_alternative := None |}).

(** Validate and translate one in-process outcome into its envelope; the
    outer [None] is a panic of the serializer. *)
Definition try_from_outcome (o : Outcome) (ctx : EventContext)
  : option (result ValidatedDiagnosisEvent ValidationError) :=
  let parts :=
    let? _ := validate_context ctx in
    match o with
    | DiagnosisOutcome d => diagnosis_payload d ctx
    | NotApplicableOutcome n => not_applicable_payload n ctx
    end in
  match parts with
  | Err e => Some (Err e)
  | Ok (timestamp, host_name, payload) =>
      let event := {| ev_timestamp := timestamp; ev_id := ec_event_id ctx;
                      ev_host_name := host_name; ev_diagnosis := payload |} in
      let! canonical_bytes := serialize_diagnosis_event_jcs json_string ryu event in
      let actual := slen canonical_bytes in
      if MAX_DIAGNOSIS_EVENT_BYTES <? actual then
        Some (Err (EventBytesLimitExceeded MAX_DIAGNOSIS_EVENT_BYTES
                     (saturate_event_byte_count actual)))
      else Some (Ok {| v_event := event; v_canonical_bytes := canonical_bytes |})
  end.
End event.

(** ** What acceptance means *)

Definition keyword_ok (s : string) : Prop := char_count s ≤ MAX_KEYWORD_CHARS.
Definition display_ok (s : string) : Prop := char_count s ≤ MAX_DISPLAY_CHARS.
Definition array_ok (l : list string) : Prop :=
  Z.of_nat (length l) ≤ MAX_ARRAY_ELEMENTS ∧ Forall (λ s, char_count s ≤ MAX_ARRAY_ELEMENT_CHARS) l.

Lemma validate_non_empty_Ok f s : validate_non_empty f s = Ok tt ↔ s ≠ EmptyString.
Proof. unfold validate_non_empty. by destruct s. Qed.
Lemma validate_keyword_Ok f s : validate_keyword f s = Ok tt ↔ keyword_ok s.
Proof. unfold validate_keyword, keyword_ok. destruct (Z.ltb_spec MAX_KEYWORD_CHARS (char_count s)); split; (lia || done). Qed.
Lemma validate_display_Ok f s : validate_display f s = Ok tt ↔ display_ok s.
Proof. unfold validate_display, display_ok. destruct (Z.ltb_spec MAX_DISPLAY_CHARS (char_count s)); split; (lia || done). Qed.
Lemma validate_array_Ok f l : validate_array f l = Ok tt ↔ array_ok l.
Proof.
  unfold validate_array, array_ok.
  destruct (Z.ltb_spec MAX_ARRAY_ELEMENTS (Z.of_nat (length l))); [split; [done|lia]|].
  assert (He : existsb (λ value, MAX_ARRAY_ELEMENT_CHARS <? char_count value) l = false
    ↔ Forall (λ s, char_count s ≤ MAX_ARRAY_ELEMENT_CHARS) l).
  { clear. induction l as [|s l IH]; simpl; [by split|].
    rewrite orb_false_iff, Forall_cons, IH, Z.ltb_ge. done. }
  destruct (existsb _ _); naive_solver.
Qed.

Lemma validate_arrays_Ok a b c d :
  validate_arrays a b c d = Ok tt ↔ array_ok a ∧ array_ok b ∧ array_ok c ∧ array_ok d.
Proof.
  unfold validate_arrays.
  rewrite <-(validate_array_Ok "evidence" a), <-(validate_array_Ok "suggested_fixes" b),
    <-(validate_array_Ok "supported_scope" c), <-(validate_array_Ok "missing_evidence" d).
  destruct (validate_array "evidence" a) as [[]|]; [|naive_solver].
  destruct (validate_array "suggested_fixes" b) as [[]|]; [|naive_solver].
  destruct (validate_array "supported_scope" c) as [[]|]; naive_solver.
Qed.

Lemma validate_evidence_Ok l s :
  validate_evidence_and_plain_language l s = Ok tt ↔ l ≠ [] ∧ s ≠ EmptyString.
Proof. unfold validate_evidence_and_plain_language. destruct l, s; naive_solver. Qed.

(** A [result unit] step of a [let?] chain succeeds or ends the chain. *)
Lemma bind_unit {A E} (r : result unit E) (k : result A E) a :
  (let? _ := r in k) = Ok a ↔ r = Ok tt ∧ k = Ok a.
Proof. destruct r as [[]|]; naive_solver. Qed.

Lemma if_Err {A E} (b : bool) (e : E) (k : result A E) a :
  (if b then Err e else k) = Ok a ↔ b = false ∧ k = Ok a.
Proof. destruct b; naive_solver. Qed.

Create Rewrite HintDb accept.
#[export] Hint Rewrite @bind_unit @if_Err validate_non_empty_Ok validate_keyword_Ok
  validate_display_Ok validate_array_Ok validate_arrays_Ok validate_evidence_Ok
  orb_false_iff negb_false_iff @is_nil_false is_empty_false : accept.

Section acceptance.
Context `{Unicode} (parse_rfc3339 : string → bool) (uuid_version : string → option Z)
  (json_string : string → string) (ryu : f64 → string).

(** The caller's context is usable. *)
Record context_ok (ctx : EventContext) : Prop := {
  co_detector_id : dc_detector_id (ec_detector_contract ctx) ≠ EmptyString;
  co_rule_version : dc_rule_version (ec_detector_contract ctx) ≠ EmptyString;
  co_event_id : ec_event_id ctx ≠ EmptyString;
  co_event_id_len : keyword_ok (ec_event_id ctx);
  co_uuid : uuid_version (ec_event_id ctx) = Some 7;
  co_host : ec_local_host_name ctx ≠ EmptyString;
  co_host_len : keyword_ok (ec_local_host_name ctx);
  co_detector_id_len : keyword_ok (dc_detector_id (ec_detector_contract ctx));
  co_rule_version_len : keyword_ok (dc_rule_version (ec_detector_contract ctx));
  co_timestamp : parse_rfc3339 (ec_enqueue_timestamp ctx) = true;
}.

Definition host_ok (value : string) : Prop :=
  uc_to_lowercase value ≠ EmptyString ∧ keyword_ok (uc_to_lowercase value).

(** A diagnosis the envelope can carry. *)
Record diagnosis_ok (d : Diagnosis) (ctx : EventContext) : Prop := {
  do_detector_id : d_detector_id d = dc_detector_id (ec_detector_contract ctx);
  do_rule_version : d_rule_version d = dc_rule_version (ec_detector_contract ctx);
  do_verdict : d_verdict d ≠ EmptyString;
  do_verdict_len : keyword_ok (d_verdict d);
  do_finite : f64_is_finite (d_confidence d) = true;
  do_confidence : f64_in f64_zero f64_one (d_confidence d) = true;
  do_evidence : d_evidence d ≠ [];
  do_plain_language : d_plain_language d ≠ EmptyString;
  do_arrays : array_ok (d_evidence d) ∧ array_ok (d_suggested_fixes d)
              ∧ array_ok (d_supported_scope d) ∧ array_ok (d_missing_evidence d);
  do_basis : d_confidence_basis d ≠ EmptyString;
  do_falsifier : d_falsifier d ≠ EmptyString;
  do_scope : d_supported_scope d ≠ [];
  do_alternative : d_nearest_alternative d ≠ EmptyString;
  do_fixes : d_disposition d = Finding → d_suggested_fixes d ≠ [];
  do_timestamp : parse_rfc3339 (d_timestamp d) = true;
  do_evidence_display : display_ok (render_display (d_evidence d));
  do_fixes_display : d_suggested_fixes d ≠ [] → display_ok (render_display (d_suggested_fixes d));
  do_host : host_ok (unwrap_or (d_host d) (ec_local_host_name ctx));
}.

Record not_applicable_ok (n : NotApplicable) (ctx : EventContext) : Prop := {
  no_evidence : na_evidence n ≠ [];
  no_explanation : na_explanation n ≠ EmptyString;
  no_array : array_ok (na_evidence n);
  no_display : display_ok (render_display (na_evidence n));
  no_host : host_ok (ec_local_host_name ctx);
}.

Definition outcome_ok (o : Outcome) (ctx : EventContext) : Prop :=
  match o with
  | DiagnosisOutcome d => diagnosis_ok d ctx
  | NotApplicableOutcome n => not_applicable_ok n ctx
  end.

Lemma validate_timestamp_Ok f s :
  validate_timestamp parse_rfc3339 f s = Ok tt ↔ parse_rfc3339 s = true.
Proof. unfold validate_timestamp. by destruct (parse_rfc3339 s). Qed.

Lemma normalized_host_name_Ok v h :
  normalized_host_name v = Ok h ↔ host_ok v ∧ h = uc_to_lowercase v.
Proof.
  unfold normalized_host_name, host_ok. autorewrite with accept. naive_solver.
Qed.

Lemma validate_context_Ok ctx :
  validate_context parse_rfc3339 uuid_version ctx = Ok tt ↔ context_ok ctx.
Proof.
  unfold validate_context. rewrite if_Err, orb_false_iff, !is_empty_false, !bind_unit,
    validate_non_empty_Ok, validate_keyword_Ok.
  destruct (uuid_version (ec_event_id ctx)) as [v|] eqn:Ev; simpl; cycle 1.
  { split; [naive_solver|]. intros []. congruence. }
  rewrite if_Err, negb_false_iff, Z.eqb_eq, !bind_unit, validate_non_empty_Ok, !validate_keyword_Ok,
    validate_timestamp_Ok.
  split.
  - intros ([] & ? & ? & -> & ? & ? & ? & ? & ?). by split.
  - intros []. split_and!; try done. congruence.
Qed.

(** The envelope of a diagnosis and of a not-applicable outcome. *)
Definition diagnosis_envelope (d : Diagnosis) (ctx : EventContext) : string * string * DiagnosisPayload :=
  (d_timestamp d, uc_to_lowercase (unwrap_or (d_host d) (ec_local_host_name ctx)),
   {| p_schema_version := 1; p_outcome := "diagnosis";
      p_detector_id := dc_detector_id (ec_detector_contract ctx);
      p_rule_version := dc_rule_version (ec_detector_contract ctx);
      p_input_mode := ec_input_mode ctx;
      p_disposition := disposition_name (d_disposition d);
      p_evidence := d_evidence d; p_evidence_display := render_display (d_evidence d);
      p_plain_language := d_plain_language d;
      p_verdict := Some (d_verdict d); p_confidence := Some (d_confidence d);
      p_confidence_basis := Some (d_confidence_basis d);
      p_suggested_fixes := Some (d_suggested_fixes d);
      p_suggested_fixes_display :=
        match d_suggested_fixes d with [] => None | l => Some (render_display l) end;
      p_falsifier := Some (d_falsifier d); p_supported_scope := Some (d_supported_scope d);
      p_missing_evidence := Some (d_missing_evidence d);
      p_nearest_alternative := Some (d_nearest_alternative d) |}).

Lemma required_Ok d disp :
  validate_required_diagnosis_fields parse_rfc3339 d disp = Ok tt ↔
  d_confidence_basis d ≠ EmptyString ∧ d_falsifier d ≠ EmptyString ∧ d_supported_scope d ≠ []
  ∧ d_nearest_alternative d ≠ EmptyString ∧ (disp = Finding → d_suggested_fixes d ≠ [])
  ∧ parse_rfc3339 (d_timestamp d) = true.
Proof.
  unfold validate_required_diagnosis_fields. autorewrite with accept.
  rewrite validate_timestamp_Ok, andb_false_iff, is_nil_false.
  destruct (bool_decide_reflect (disp = Finding)); naive_solver.
Qed.

Lemma diagnosis_payload_Ok d ctx r :
  diagnosis_payload parse_rfc3339 d ctx = Ok r ↔ diagnosis_ok d ctx ∧ r = diagnosis_envelope d ctx.
Proof.
  unfold diagnosis_payload. autorewrite with accept. rewrite required_Ok, !String.eqb_eq.
  set (host := unwrap_or (d_host d) (ec_local_host_name ctx)).
  assert (Hfix : (match (if negb (is_nil (d_suggested_fixes d)) then Some (render_display (d_suggested_fixes d)) else None) with
    | Some display => validate_display "suggested_fixes_display" display | None => Ok tt end) = Ok tt
    ↔ (d_suggested_fixes d ≠ [] → display_ok (render_display (d_suggested_fixes d)))).
  { destruct (d_suggested_fixes d); simpl; [naive_solver|]. rewrite validate_display_Ok. naive_solver. }
  rewrite Hfix. split.
  - intros (? & ? & ? & ? & [? ?] & [? ?] & ? & ? & ? & ? & Hh).
    destruct (normalized_host_name host) as [h|] eqn:E; [|done].
    apply normalized_host_name_Ok in E as [? ->]. injection Hh as <-.
    split; [by split; naive_solver|]. unfold diagnosis_envelope. by destruct (d_suggested_fixes d).
  - intros [[] ->]. split_and!; try done; try tauto.
    assert (E : normalized_host_name host = Ok (uc_to_lowercase host)) by (by apply normalized_host_name_Ok).
    rewrite E. unfold diagnosis_envelope. by destruct (d_suggested_fixes d).
Qed.

Definition not_applicable_envelope (n : NotApplicable) (ctx : EventContext) : string * string * DiagnosisPayload :=
  (ec_enqueue_timestamp ctx, uc_to_lowercase (ec_local_host_name ctx),
   {| p_schema_version := 1; p_outcome := "not_applicable";
      p_detector_id := dc_detector_id (ec_detector_contract ctx);
      p_rule_version := dc_rule_version (ec_detector_contract ctx);
      p_input_mode := ec_input_mode ctx; p_disposition := "non_finding";
      p_evidence := na_evidence n; p_evidence_display := render_display (na_evidence n);
      p_plain_language := na_explanation n;
      p_verdict := None; p_confidence := None; p_confidence_basis := None;
      p_suggested_fixes := None; p_suggested_fixes_display := None; p_falsifier := None;
      p_supported_scope := None; p_missing_evidence := None; p_nearest_alternative := None |}).

Lemma not_applicable_payload_Ok n ctx r :
  not_applicable_payload n ctx = Ok r ↔
  not_applicable_ok n ctx ∧ r = not_applicable_envelope n ctx.
Proof.
  unfold not_applicable_payload. autorewrite with accept. split.
  - intros ([? ?] & ? & ? & Hh). destruct (normalized_host_name _) as [h|] eqn:E; [|done].
    apply normalized_host_name_Ok in E as [? ->]. injection Hh as <-. by split.
  - intros [[] ->]. split_and!; try done.
    assert (E : normalized_host_name (ec_local_host_name ctx) = Ok (uc_to_lowercase (ec_local_host_name ctx)))
      by (by apply normalized_host_name_Ok). by rewrite E.
Qed.

Definition envelope (o : Outcome) (ctx : EventContext) : DiagnosisEvent :=
  let '(ts, host, payload) :=
    match o with
    | DiagnosisOutcome d => diagnosis_envelope d ctx
    | NotApplicableOutcome n => not_applicable_envelope n ctx
    end in
  {| ev_timestamp := ts; ev_id := ec_event_id ctx; ev_host_name := host; ev_diagnosis := payload |}.

Lemma try_from_outcome_Ok o ctx v :
  try_from_outcome parse_rfc3339 uuid_version json_string ryu o ctx = Some (Ok v) ↔
  context_ok ctx ∧ outcome_ok o ctx
  ∧ v_event v = envelope o ctx
  ∧ serialize_diagnosis_event_jcs json_string ryu (envelope o ctx) = Some (v_canonical_bytes v)
  ∧ slen (v_canonical_bytes v) ≤ MAX_DIAGNOSIS_EVENT_BYTES.
Proof.
  unfold try_from_outcome. rewrite <-validate_context_Ok.
  destruct (validate_context _ _ ctx) as [[]|e]; [|naive_solver].
  set (parts := match o with DiagnosisOutcome d => _ | NotApplicableOutcome n => _ end).
  assert (Hparts : ∀ r, parts = Ok r ↔ outcome_ok o ctx
    ∧ r = match o with DiagnosisOutcome d => diagnosis_envelope d ctx
          | NotApplicableOutcome n => not_applicable_envelope n ctx end).
  { intros r. unfold parts. destruct o; [apply diagnosis_payload_Ok|apply not_applicable_payload_Ok]. }
  unfold envelope. destruct parts as [r|e].
  - destruct (Hparts r) as [H1 _]. destruct (H1 eq_refl) as [Hok ->]. clear Hparts H1.
    set (env := match o with DiagnosisOutcome d => _ | NotApplicableOutcome n => _ end).
    destruct env as [[ts host] payload].
    destruct (serialize_diagnosis_event_jcs _ _ _) as [bytes|]; [|naive_solver].
    destruct (Z.ltb_spec MAX_DIAGNOSIS_EVENT_BYTES (slen bytes)).
    + split; [done|]. intros (_ & _ & _ & [= <-] & ?). lia.
    + split; [intros [= <-]; by split_and!|]. intros (_ & _ & He & [= ->] & _).
      destruct v; simpl in *. by subst.
  - split; [done|]. intros (_ & Hok & _). by pose proof (proj2 (Hparts _) (conj Hok eq_refl)).
Qed.
End acceptance.

(** ** Canonical order *)

Section jcs_order.
Context (json_string : string → string) (ryu : f64 → string).

Lemma units_le_total a b : units_le a b = false → units_le b a = true.
Proof.
  revert b. induction a as [|x a IH]; intros [|y b]; simpl; [done..|].
  rewrite orb_false_iff, andb_false_iff, Z.ltb_ge, Z.eqb_neq. intros [Hle Hor].
  destruct (Z.ltb_spec y x) as [|Hge]; [done|]. assert (x = y) by lia. subst.
  rewrite Z.eqb_refl. simpl. apply IH. by destruct Hor.
Qed.

Lemma units_le_antisym a b : units_le a b = true → units_le b a = true → a = b.
Proof.
  revert b. induction a as [|x a IH]; intros [|y b]; simpl; [done..|].
  rewrite !orb_true_iff, !andb_true_iff, !Z.ltb_lt, !Z.eqb_eq.
  intros [?|[-> ?]] [?|[? ?]]; try lia. f_equal. by apply IH.
Qed.

Lemma units_le_trans a b c : units_le a b = true → units_le b c = true → units_le a c = true.
Proof.
  revert b c. induction a as [|x a IH]; intros [|y b] [|z c]; simpl; [done..|].
  rewrite !orb_true_iff, !andb_true_iff, !Z.ltb_lt, !Z.eqb_eq.
  intros [?|[-> ?]] [?|[-> ?]]; [left; lia|by left|by left|]. right. split; [done|]. by eapply IH.
Qed.

Lemma entries_sorted l : StronglySorted (λ a b, entry_le a b = true) (stable_sort entry_le l).
Proof.
  apply Sorted_StronglySorted.
  - intros a b c. apply units_le_trans.
  - apply (stable_sort_sorted entry_le). intros a b. apply units_le_total.
Qed.

Lemma mapM_perm {A B} (f : A → option B) l k l' :
  l ≡ₚ k → mapM f l = Some l' → ∃ k', mapM f k = Some k' ∧ l' ≡ₚ k'.
Proof.
  intros Hp Hl. apply mapM_Some in Hl.
  enough (∃ k', Forall2 (λ x y, f x = Some y) k k' ∧ l' ≡ₚ k') as (k' & Hk & Hkk).
  { exists k'. split; [by apply mapM_Some|done]. }
  revert l' Hl. induction Hp as [|x l k Hp IH|x y l|l k m Hp1 IH1 Hp2 IH2]; intros l' Hl.
  - exists l'. by split.
  - apply Forall2_cons_inv_l in Hl as (y & l1 & Hy & Hl & ->).
    destruct (IH l1 Hl) as (k' & Hk & Hkk). exists (y :: k'). by split; [constructor|constructor].
  - apply Forall2_cons_inv_l in Hl as (b & l1 & Hb & Hl & ->).
    apply Forall2_cons_inv_l in Hl as (a & l2 & Ha & Hl & ->).
    exists (a :: b :: l2). split; [by repeat constructor|constructor].
  - destruct (IH1 l' Hl) as (k1 & Hk1 & Hp). destruct (IH2 k1 Hk1) as (k2 & Hk2 & Hp').
    exists k2. split; [done|by etransitivity].
Qed.

(** The member-rendering step of [jcs_value]. *)
Definition render_member (kv : string * json) : option (string * string) :=
  let! r := jcs_value json_string ryu (snd kv) in Some (fst kv, r).

Lemma jcs_value_object l :
  jcs_value json_string ryu (JObject l)
  = let! entries := mapM render_member l in
    Some ("{" +:+ join "," ((λ e : string * string, json_string (fst e) +:+ ":" +:+ snd e)
                              <$> stable_sort entry_le entries) +:+ "}").
Proof. reflexivity. Qed.

Lemma render_member_keys l es : mapM render_member l = Some es → fst <$> es = fst <$> l.
Proof.
  intros H%mapM_Some. induction H as [|[k v] e l es Hx _ IH]; [done|].
  unfold render_member in Hx. simpl in Hx. destruct (jcs_value _ _ v); simplify_eq.
  rewrite !fmap_cons, IH. done.
Qed.

Lemma sorted_entries_unique es es' :
  NoDup (encode_utf16 ∘ fst <$> es) → es ≡ₚ es' → stable_sort entry_le es = stable_sort entry_le es'.
Proof.
  intros Hnd Hp. eapply StronglySorted_unique_strong; [|apply entries_sorted..|].
  - intros a b Ha Hb Hab Hba. rewrite stable_sort_perm in Ha, Hb. rewrite <-Hp in Hb.
    pose proof (units_le_antisym _ _ Hab Hba) as Heq.
    apply list_elem_of_lookup in Ha as [i Ha]. apply list_elem_of_lookup in Hb as [j Hb].
    assert (i = j); [|congruence].
    eapply NoDup_lookup; [exact Hnd|by rewrite list_lookup_fmap, Ha|].
    rewrite list_lookup_fmap, Hb. simpl. by rewrite Heq.
  - by rewrite !stable_sort_perm.
Qed.
End jcs_order.

(** ** Properties *)


(** What a consumer may rely on in an accepted event: it is schema
    version 1, its identity is the detector contract's, its evidence is
    non-empty and its display is that evidence numbered, it is marked as a
    finding exactly when the outcome is a diagnosis with disposition Finding,
    and then it carries at least one suggested fix and a display of the fixes. *)
Theorem accepted_event_sound `{Unicode} (parse_rfc3339 : string → bool)
    (uuid_version : string → option Z) (json_string : string → string) (ryu : f64 → string)
    (o : Outcome) (ctx : EventContext) (v : ValidatedDiagnosisEvent)
    (Hv : try_from_outcome parse_rfc3339 uuid_version json_string ryu o ctx = Some (Ok v)) :
  let p := ev_diagnosis (v_event v) in
  p_schema_version p = 1
  ∧ p_detector_id p = dc_detector_id (ec_detector_contract ctx)
  ∧ p_rule_version p = dc_rule_version (ec_detector_contract ctx)
  ∧ p_evidence p ≠ [] ∧ array_ok (p_evidence p)
  ∧ p_evidence_display p = render_display (p_evidence p)
  ∧ (p_disposition p = "finding" ↔ ∃ d, o = DiagnosisOutcome d ∧ d_disposition d = Finding)
  ∧ (p_disposition p = "finding" →
      ∃ fixes, p_suggested_fixes p = Some fixes ∧ fixes ≠ []
        ∧ p_suggested_fixes_display p = Some (render_display fixes))
  ∧ parse_rfc3339 (ev_timestamp (v_event v)) = true
  ∧ ev_host_name (v_event v) ≠ EmptyString.
Proof.
  apply try_from_outcome_Ok in Hv as ([] & Ho & -> & _ & _). cbv zeta.
  destruct o as [d|n]; destruct Ho; unfold envelope, diagnosis_envelope, not_applicable_envelope; simpl.
  - unfold disposition_name. destruct (d_disposition d) eqn:Ed; split_and!; try done; try tauto.
    + split; [done|]. intros (d' & [= <-] & ?). congruence.
    + by destruct do_host0.
    + split; [by exists d|done].
    + intros _. exists (d_suggested_fixes d). split_and!; [done|auto|].
      destruct (d_suggested_fixes d); [by destruct do_fixes0|done].
    + by destruct do_host0.
  - split_and!; try done.
    + split; [done|]. by intros (d & ? & _).
    + by destruct no_host0.
Qed.

Definition demo_contract : DetectorContract :=
  {| dc_detector_id := "D6"; dc_rule_version := "1.0.0"; dc_error_prefix := "D6" |}.
Definition demo_diagnosis : Diagnosis :=
  {| d_timestamp := "2026-01-01T00:00:00Z"; d_detector_id := "D6"; d_rule_version := "1.0.0";
     d_verdict := "override"; d_confidence := f64_lit 9 1; d_confidence_basis := "observed";
     d_evidence := ["mode 1"]; d_plain_language := "text"; d_suggested_fixes := ["remove it"];
     d_falsifier := "f"; d_host := Some "Deck"; d_supported_scope := ["linux"];
     d_missing_evidence := []; d_nearest_alternative := "none"; d_disposition := Finding |}.
Definition demo_ctx : EventContext :=
  {| ec_event_id := "018f0000-0000-7000-8000-000000000000"; ec_enqueue_timestamp := "2026-01-01T00:00:01Z";
     ec_local_host_name := "deck"; ec_detector_contract := demo_contract; ec_input_mode := Live |}.
Definition demo_ryu (_ : f64) : string := "0.9".
Definition demo_bytes : string :=
  match serialize_diagnosis_event_jcs (λ s, s) demo_ryu
          (@envelope ascii_unicode (DiagnosisOutcome demo_diagnosis) demo_ctx) with
  | Some b => b | None => EmptyString end.

Lemma accepted_event_sound_witness :
  let p := ev_diagnosis (@envelope ascii_unicode (DiagnosisOutcome demo_diagnosis) demo_ctx) in
  p_disposition p = "finding" ∧ p_evidence p ≠ [].
Proof.
  pose proof (@accepted_event_sound ascii_unicode (λ _, true) (λ _, Some 7) (λ s, s) demo_ryu
    (DiagnosisOutcome demo_diagnosis) demo_ctx
    {| v_event := @envelope ascii_unicode (DiagnosisOutcome demo_diagnosis) demo_ctx;
       v_canonical_bytes := demo_bytes |}) as H.
  destruct H as (_ & _ & _ & H1 & _ & _ & H2 & _).
  - vm_compute. reflexivity.
  - split; [|exact H1]. apply H2. exists demo_diagnosis. split; reflexivity.
Defined.

(** The canonical bytes do not depend on the order in which an object's
    members were inserted: permuting members with distinct UTF-16 names leaves
    the JCS text unchanged. *)
Theorem jcs_member_order_irrelevant (json_string : string → string) (ryu : f64 → string)
    (l l' : list (string * json))
    (Hperm : l ≡ₚ l') (Hnames : NoDup (encode_utf16 ∘ fst <$> l)) :
  jcs_value json_string ryu (JObject l) = jcs_value json_string ryu (JObject l').
Proof.
  rewrite !jcs_value_object.
  destruct (mapM (render_member json_string ryu) l) as [es|] eqn:E.
  - destruct (mapM_perm _ _ _ _ Hperm E) as (es' & -> & Hp).
    rewrite (sorted_entries_unique es es'); [done| |done].
    apply render_member_keys in E. by rewrite (list_fmap_compose fst encode_utf16), E, <-list_fmap_compose.
  - destruct (mapM (render_member json_string ryu) l') as [es'|] eqn:E'; [|done].
    symmetry in Hperm. destruct (mapM_perm _ _ _ _ Hperm E') as (es & ? & _). congruence.
Qed.

Lemma jcs_member_order_irrelevant_witness :
  jcs_value (λ s, dq +:+ s +:+ dq) demo_ryu (JObject [("b", JNull); ("a", JBool true)])
  = jcs_value (λ s, dq +:+ s +:+ dq) demo_ryu (JObject [("a", JBool true); ("b", JNull)]).
Proof.
  apply jcs_member_order_irrelevant.
  - constructor.
  - apply (bool_decide_unpack _). vm_compute. exact I.
Defined.
