(* ===== verification/D3Parse.v ===== *)
(** * D3 inputs ([src/detectors/d3.rs]: PCI snapshot, boot inventory)

    The normalized PCI topology and the boot list, and the small validators the
    detector uses on every identifier it stores. *)
From Stdlib Require Import Ascii.
From S2P Require Import Prelude EsModel.

(** ** Identifiers *)

Definition is_colon (c : ascii) : bool := Ascii.eqb c ":".

(** Byte [i] of a BDF: a separator at 4, 7 and 10, a hexadecimal digit elsewhere. *)
Fixpoint bdf_bytes (i : nat) (s : string) : bool :=
  match s with
  | EmptyString => true
  | String c s' =>
      (if Nat.eqb i 4 || Nat.eqb i 7 then is_colon c
       else if Nat.eqb i 10 then Ascii.eqb c "." else is_ascii_hexdigit c)
      && bdf_bytes (S i) s'
  end.
Definition valid_bdf (value : string) : bool :=
  (slen value =? 12) && bdf_bytes 0 value.

Definition valid_hex_field (value : string) (width : Z) : bool :=
  (slen value =? width + 2)
  && match strip_prefix "0x" value with
     | Some digits => all_bytes is_ascii_hexdigit digits
     | None => false
     end.

Definition canonical_bdf (value : string) : bool :=
  valid_bdf value && String.eqb value (to_ascii_lowercase value).
Definition canonical_hex_field (value : string) (width : Z) : bool :=
  valid_hex_field value width && String.eqb value (to_ascii_lowercase value).

Section boot_id.
Context `{Unicode}.

Definition normalize_boot_id (value : string) : result string string :=
  let compact := filter_bytes (λ c, negb (Ascii.eqb c "-")) value in
  if negb (slen compact =? 32) || negb (all_bytes is_ascii_hexdigit compact) then
    Err ("invalid boot ID " +:+ uc_debug value +:+ "; expected 32 hexadecimal digits")
  else Ok (to_ascii_lowercase compact).

Definition canonical_boot_id (value : string) : bool :=
  match normalize_boot_id value with Ok n => String.eqb n value | Err _ => false end.

Definition normalize_live_boot_id (value : string) : result string string :=
  normalize_boot_id (trim value).
End boot_id.

(** ** PCI devices *)

Record PciDevice := {
  pd_bdf : string;
  pd_vendor : string;
  pd_device : string;
  pd_class : string;
  pd_parent_path : string;
  pd_upstream_bridge : option string;
}.

Record PciSnapshot := { ps_boot_id : string; ps_devices : list PciDevice }.

Definition is_bridge (d : PciDevice) : bool :=
  match strip_prefix "0x" (pd_class d) with Some c => starts_with "06" c | None => false end.

(** The BDFs of a sysfs path, and the one before the leaf. *)
Definition bdf_chain (path : string) : list string :=
  List.filter valid_bdf (split_char "/" path).
Definition chain_upstream (chain : list string) : option string := rev chain !! 1%nat.

(** ** The snapshot parser *)

Definition line_error (n : Z) (text : string) : string :=
  "PCI snapshot line " +:+ show (n + 1) +:+ " " +:+ text.

(** The four keyed fields of a row, last assignment winning. *)
Record RowFields := {
  rf_path : option string;
  rf_vendor : option string;
  rf_device : option string;
  rf_class : option string;
}.
Definition no_fields : RowFields :=
  {| rf_path := None; rf_vendor := None; rf_device := None; rf_class := None |}.

Fixpoint row_fields (n : Z) (acc : RowFields) (fields : list string) : result RowFields string :=
  match fields with
  | [] => Ok acc
  | field :: rest =>
      match split_once "=" field with
      | None => Err (line_error n "has malformed field")
      | Some (key, value) =>
          if String.eqb key "path" then
            row_fields n {| rf_path := Some value; rf_vendor := rf_vendor acc;
                            rf_device := rf_device acc; rf_class := rf_class acc |} rest
          else if String.eqb key "vendor" then
            row_fields n {| rf_path := rf_path acc; rf_vendor := Some value;
                            rf_device := rf_device acc; rf_class := rf_class acc |} rest
          else if String.eqb key "device" then
            row_fields n {| rf_path := rf_path acc; rf_vendor := rf_vendor acc;
                            rf_device := Some value; rf_class := rf_class acc |} rest
          else if String.eqb key "class" then
            row_fields n {| rf_path := rf_path acc; rf_vendor := rf_vendor acc;
                            rf_device := rf_device acc; rf_class := Some value |} rest
          else Err (line_error n ("has unknown field " +:+ key))
      end
  end.

(** One row; [None] is a blank line or a comment. *)
Definition parse_row (n : Z) (raw : string) : result (option PciDevice) string :=
  let line := trim raw in
  if is_empty line || starts_with "#" line then Ok None
  else match split_whitespace line with
  | [] => Err (line_error n "lacks BDF")
  | bdf :: fields =>
      if negb (valid_bdf bdf) then Err (line_error n "has invalid BDF")
      else
        let? f := row_fields n no_fields fields in
        let? path := ok_or (rf_path f) (line_error n "lacks path") in
        let? vendor := ok_or (rf_vendor f) (line_error n "lacks vendor") in
        let? device := ok_or (rf_device f) (line_error n "lacks device") in
        let? class := ok_or (rf_class f) (line_error n "lacks class") in
        if negb (valid_hex_field vendor 4) || negb (valid_hex_field device 4)
           || negb (valid_hex_field class 6) then
          Err (line_error n "has invalid PCI identity")
        else
          let chain := bdf_chain path in
          match last chain with
          | None => Err (line_error n "path contains no PCI BDF")
          | Some leaf =>
              if negb (eq_ignore_ascii_case leaf bdf) then
                Err (line_error n "path leaf does not match row BDF")
              else
                Ok (Some {|
                  pd_bdf := to_ascii_lowercase bdf;
                  pd_vendor := to_ascii_lowercase vendor;
                  pd_device := to_ascii_lowercase device;
                  pd_class := to_ascii_lowercase class;
                  pd_parent_path := path;
                  pd_upstream_bridge := to_ascii_lowercase <$> chain_upstream chain |})
          end
  end.

Fixpoint parse_rows (n : Z) (ls : list string) : result (list PciDevice) string :=
  match ls with
  | [] => Ok []
  | line :: rest =>
      let? d := parse_row n line in
      let? ds := parse_rows (n + 1) rest in
      Ok (match d with Some d => d :: ds | None => ds end)
  end.

(** [Iterator::find_map] without the rest. *)
Fixpoint first_some {A B} (f : A → option B) (l : list A) : option B :=
  match l with
  | [] => None
  | x :: l' => match f x with Some y => Some y | None => first_some f l' end
  end.

Section snapshot.
Context `{Unicode}.

Definition parse_pci_snapshot (source : string) : result PciSnapshot string :=
  let? boot_raw :=
    ok_or (let! tail := first_some (λ line, snd <$> split_once "boot_id=" line) (lines source) in
           head (split_whitespace tail))
      "PCI snapshot schema v1 lacks boot_id" in
  let? boot_id := normalize_boot_id boot_raw in
  let? devices := parse_rows 0 (lines source) in
  if match devices with [] => true | _ => false end then
    Err "PCI snapshot schema v1 has no devices"
  else if negb (bool_decide (NoDup (pd_bdf <$> devices))) then
    Err "PCI snapshot contains duplicate BDFs"
  else
    match List.find (λ d, match pd_upstream_bridge d with
                          | Some b => negb (bool_decide (b ∈ pd_bdf <$> devices))
                          | None => false end) devices with
    | Some d =>
        Err ("PCI snapshot derived upstream BDF for " +:+ pd_bdf d
             +:+ " is absent from snapshot rows")
    | None => Ok {| ps_boot_id := boot_id; ps_devices := devices |}
    end.

(** ** Boot inventory *)

Record BootInventory := { boot_ids : list string }.

Definition parse_boot_inventory (source : string) : result BootInventory string :=
  let ids := filter_map (λ line,
    first_some (λ field, match normalize_boot_id field with Ok id => Some id | Err _ => None end)
      (split_whitespace line)) (lines source) in
  if match ids with [] => true | _ => false end then
    Err "boot inventory contains no canonical boot IDs"
  else Ok {| boot_ids := ids |}.
End snapshot.

(** The boot listed just before [current]'s first entry. *)
Definition prior_for (inventory : BootInventory) (current : string) : option string :=
  let! index := position (String.eqb current) (boot_ids inventory) in
  match index with
  | O => None
  | S i => boot_ids inventory !! i
  end.

(** ** Canonical forms *)

Record canonical_device (d : PciDevice) : Prop := {
  cd_bdf : canonical_bdf (pd_bdf d) = true;
  cd_vendor : canonical_hex_field (pd_vendor d) 4 = true;
  cd_device : canonical_hex_field (pd_device d) 4 = true;
  cd_class : canonical_hex_field (pd_class d) 6 = true;
  cd_upstream : ∀ b, pd_upstream_bridge d = Some b → canonical_bdf b = true;
}.

Record canonical_snapshot (s : PciSnapshot) : Prop := {
  cs_devices : Forall canonical_device (ps_devices s);
  cs_nonempty : ps_devices s ≠ [];
  cs_distinct : NoDup (pd_bdf <$> ps_devices s);
  cs_upstream : ∀ d b, d ∈ ps_devices s → pd_upstream_bridge d = Some b → b ∈ pd_bdf <$> ps_devices s;
}.

(** ** Lemmas *)

Lemma bdf_bytes_lower i s : bdf_bytes i s = true → bdf_bytes i (to_ascii_lowercase s) = true.
Proof.
  revert i. induction s as [|c s IH]; intros i; [done|]. cbn [bdf_bytes to_ascii_lowercase map_str].
  rewrite !andb_true_iff. intros [Hc Hs]. split; [|by apply IH].
  assert (Hsep : ∀ sep, Ascii.eqb c sep = true → is_ascii_upper sep = false → Ascii.eqb (to_lower c) sep = true).
  { intros sep Heq%Ascii.eqb_eq Hu. subst. apply Ascii.eqb_eq. unfold to_lower. by rewrite Hu. }
  destruct (_ || _); [by apply Hsep|]. destruct (Nat.eqb i 10); [by apply Hsep|].
  by apply hexdigit_to_lower.
Qed.

Lemma valid_bdf_lower s : valid_bdf s = true → canonical_bdf (to_ascii_lowercase s) = true.
Proof.
  unfold valid_bdf, canonical_bdf, valid_bdf. rewrite !andb_true_iff. intros [Hl Hb].
  rewrite slen_to_lower, to_ascii_lowercase_idemp. split_and!; [done|by apply bdf_bytes_lower|].
  apply String.eqb_refl.
Qed.

Lemma valid_hex_lower s w : valid_hex_field s w = true → canonical_hex_field (to_ascii_lowercase s) w = true.
Proof.
  unfold canonical_hex_field, valid_hex_field. rewrite !andb_true_iff. intros [Hl Hd].
  rewrite slen_to_lower, to_ascii_lowercase_idemp. split_and!; [done| |apply String.eqb_refl].
  destruct (strip_prefix "0x" s) as [d|] eqn:E; [|done]. apply strip_prefix_Some in E as ->.
  unfold to_ascii_lowercase. rewrite map_str_app. change (map_str to_lower "0x") with "0x".
  rewrite strip_prefix_app. apply all_bytes_map; [apply hexdigit_to_lower|done].
Qed.

Lemma hexdigit_not_dash c : is_ascii_hexdigit c = true → negb (Ascii.eqb c "-") = true.
Proof.
  intros H. assert (Hb : implb (is_ascii_hexdigit c) (negb (Ascii.eqb c "-")) = true).
  { apply (forall_ascii (λ c, implb (is_ascii_hexdigit c) (negb (Ascii.eqb c "-")))). by vm_compute. }
  by rewrite H in Hb.
Qed.

Section boot_id_lemmas.
Context `{Unicode}.

Lemma normalize_boot_id_Ok v id :
  normalize_boot_id v = Ok id ↔
  let compact := filter_bytes (λ c, negb (Ascii.eqb c "-")) v in
  slen compact = 32 ∧ all_bytes is_ascii_hexdigit compact = true ∧ id = to_ascii_lowercase compact.
Proof.
  unfold normalize_boot_id. cbv zeta. set (compact := filter_bytes _ v).
  destruct (Z.eqb_spec (slen compact) 32); simpl; [|naive_solver].
  destruct (all_bytes is_ascii_hexdigit compact); naive_solver.
Qed.

Lemma normalize_boot_id_idemp v id : normalize_boot_id v = Ok id → normalize_boot_id id = Ok id.
Proof.
  intros (Hl & Hd & ->)%normalize_boot_id_Ok. apply normalize_boot_id_Ok.
  set (c := filter_bytes _ v) in *.
  assert (Hd' : all_bytes is_ascii_hexdigit (to_ascii_lowercase c) = true)
    by (apply all_bytes_map; [apply hexdigit_to_lower|done]).
  cbv zeta. rewrite filter_bytes_all.
  - by rewrite slen_to_lower, to_ascii_lowercase_idemp.
  - eapply all_bytes_impl; [|exact Hd']. apply hexdigit_not_dash.
Qed.

Lemma normalized_canonical v id : normalize_boot_id v = Ok id → canonical_boot_id id = true.
Proof.
  intros Hv%normalize_boot_id_idemp. unfold canonical_boot_id. rewrite Hv. apply String.eqb_refl.
Qed.
End boot_id_lemmas.

Lemma parse_row_canonical n line d : parse_row n line = Ok (Some d) → canonical_device d.
Proof.
  unfold parse_row. destruct (_ || _); [done|].
  destruct (split_whitespace _) as [|bdf fields]; [done|].
  destruct (valid_bdf bdf) eqn:Hbdf; [|done]. cbn [negb].
  destruct (row_fields n no_fields fields) as [f|]; [|done].
  destruct (rf_path f) as [path|]; [|done]. destruct (rf_vendor f) as [vendor|]; [|done].
  destruct (rf_device f) as [device|]; [|done]. destruct (rf_class f) as [class|]; [|done].
  cbn [ok_or]. destruct (valid_hex_field vendor 4) eqn:Hv; [|done].
  destruct (valid_hex_field device 4) eqn:Hd; [|done].
  destruct (valid_hex_field class 6) eqn:Hc; [|done]. cbn [negb orb].
  destruct (last (bdf_chain path)) as [leaf|]; [|done].
  destruct (eq_ignore_ascii_case leaf bdf); [|done]. cbn [negb]. intros [= <-].
  split; cbn [pd_bdf pd_vendor pd_device pd_class pd_upstream_bridge];
    [by apply valid_bdf_lower|by apply valid_hex_lower..|].
  intros b (b' & Hb & ->)%fmap_Some. apply valid_bdf_lower.
  apply list_elem_of_lookup_2, list_elem_of_In, in_rev in Hb. unfold bdf_chain in Hb. by apply List.filter_In in Hb as [_ ?].
Qed.

Lemma parse_rows_canonical n ls ds : parse_rows n ls = Ok ds → Forall canonical_device ds.
Proof.
  revert n ds. induction ls as [|line ls IH]; intros n ds; simpl; [by intros [= <-]|].
  destruct (parse_row n line) as [d|] eqn:Ed; [|done].
  destruct (parse_rows (n + 1) ls) as [ds'|] eqn:Els; [|done]. intros [= <-].
  specialize (IH _ _ Els). destruct d as [d|]; [|done]. constructor; [by eapply parse_row_canonical|done].
Qed.

(** ** Properties *)

(** A parsed snapshot is complete and canonical: it has devices, their
    BDFs are pairwise distinct, every identifier is in lower-case canonical
    form, every upstream bridge named by a row is itself a row, and the boot id
    is canonical.  Partial or inconsistent input is rejected instead. *)
Theorem parse_pci_snapshot_canonical `{Unicode} (source : string) (s : PciSnapshot)
    (Hs : parse_pci_snapshot source = Ok s) :
  canonical_snapshot s ∧ canonical_boot_id (ps_boot_id s) = true.
Proof.
  revert Hs. unfold parse_pci_snapshot. destruct (ok_or _ _) as [raw|]; [|done].
  destruct (normalize_boot_id raw) as [id|] eqn:Eid; [|done].
  destruct (parse_rows 0 (lines source)) as [ds|] eqn:Eds; [|done].
  destruct ds as [|d0 ds0]; [done|]. set (ds := d0 :: ds0) in *.
  destruct (bool_decide_reflect (NoDup (pd_bdf <$> ds))) as [Hnd|]; [|done]. cbn [negb].
  destruct (List.find _ ds) as [d|] eqn:Ef; [done|]. intros [= <-].
  split; [|by eapply normalized_canonical]. split; cbn [ps_devices]; [|done|done|].
  - by eapply parse_rows_canonical.
  - intros d b Hd Hb. apply list_elem_of_In in Hd. pose proof (List.find_none _ _ Ef d Hd) as Hf.
    simpl in Hf. rewrite Hb in Hf. apply negb_false_iff, bool_decide_eq_true in Hf. exact Hf.
Qed.

Definition demo_snapshot : string :=
  "# boot_id=0123456789ABCDEF-0123456789abcdef" +:+ str1 nl +:+
  "0000:00:01.0 path=/sys/0000:00:01.0 vendor=0x1022 device=0x14da class=0x060400" +:+ str1 nl +:+
  "0000:03:00.0 path=/sys/0000:00:01.0/0000:03:00.0 vendor=0x1002 device=0x744C class=0x030000" +:+ str1 nl.

Lemma parse_pci_snapshot_canonical_witness :
  ∃ s, @parse_pci_snapshot ascii_unicode demo_snapshot = Ok s
    ∧ canonical_snapshot s ∧ length (ps_devices s) = 2%nat.
Proof.
  destruct (@parse_pci_snapshot ascii_unicode demo_snapshot) as [s|e] eqn:E.
  - exists s. split; [reflexivity|]. split.
    + exact (proj1 (@parse_pci_snapshot_canonical ascii_unicode demo_snapshot s E)).
    + vm_compute in E. injection E as <-. reflexivity.
  - exfalso. vm_compute in E. discriminate.
Defined.
