(* ===== verification/D3Journal.v ===== *)
(** * D3 journal evidence ([src/detectors/d3.rs])

    Journal records, the merge of two prior-boot sources, the clock-regression
    test, the precursor rule, the bounded reads, and the pairing of journals
    with boot windows.  [chrono]'s parsers are the class [Chrono]. *)
From Stdlib Require Import Ascii.
From S2P Require Import Prelude EsModel D3Parse.

(** ** Time *)

(** [DateTime<FixedOffset>]: the instant in nanoseconds and the offset. *)
Record DateTime := { dt_instant : Z; dt_offset_ns : Z }.

(** [parse_from_rfc3339], the inventory's [%a %Y-%m-%d %H:%M:%S] stamp (a naive
    local time in nanoseconds), and the detector's own rendering of the clock. *)
Class Chrono := {
  parse_rfc3339 : string → option DateTime;
  parse_inventory_stamp : string → option Z;
  render_rfc3339 : Z → string;
  parse_render t : is_Some (parse_rfc3339 (render_rfc3339 t));
}.

(** A clock to run the definitions on examples: a stamp is [T] followed by one
    [+] per second. *)
Definition tally_stamp (s : string) : option DateTime :=
  let! tally := strip_prefix "T" s in
  if all_bytes (Ascii.eqb "+") tally then
    Some {| dt_instant := slen tally * 1000000000; dt_offset_ns := 0 |}
  else None.
Program Definition tally_chrono : Chrono := {|
  parse_rfc3339 := tally_stamp;
  parse_inventory_stamp s := Some 0;
  render_rfc3339 t := "T" |}.
Next Obligation. by eexists. Qed.

Definition naive_local (d : DateTime) : Z := dt_instant d + dt_offset_ns d.
Definition ns_per_s : Z := 1000000000.

(** ** Constants *)

Definition SMU_UNRESPONSIVE_MIN : Z := 3.
Definition RESET_ATTEMPT_MIN : Z := 2.
Definition PRECURSOR_WINDOW_S : Z := 900.
Definition READ_LIMIT : Z := 1024 * 1024.
Definition OFFLINE_JOURNAL_ABSURD_LIMIT : Z := 64 * 1024 * 1024.
Definition JOURNAL_LIMIT : Z := 1024 * 1024.
Definition TIMING_REGRESSION_TOLERANCE_MS : Z := 100.
Definition INVENTORY_WINDOW_GRACE_S : Z := 3600.

Definition starts_with_whitespace (s : string) : bool :=
  match chars s with c :: _ => is_whitespace c | [] => false end.

(** [last_mut] with an update. *)
Fixpoint update_last {A} (f : A → A) (l : list A) : option (list A) :=
  match l with
  | [] => None
  | [x] => Some [f x]
  | x :: l' => let! l'' := update_last f l' in Some (x :: l'')
  end.

Definition journal_has_no_entries (value : string) : bool :=
  String.eqb (trim value) "-- No entries --".

Section journal.
Context `{Chrono}.

(** ** Records *)

Definition parse_journal_line (line : string) : option (DateTime * string) :=
  let! (stamp, rest) := split_once " " line in
  let! t := parse_rfc3339 stamp in
  Some (t, rest).

Record JournalRecord := { jr_timestamp : option DateTime; jr_text : string }.

Definition record_step (records : list JournalRecord) (line : string) : list JournalRecord :=
  match parse_journal_line line with
  | Some (t, _) => records ++ [{| jr_timestamp := Some t; jr_text := line |}]
  | None =>
      let fresh := records ++ [{| jr_timestamp := None; jr_text := line |}] in
      if starts_with_whitespace line then
        match update_last (λ r, {| jr_timestamp := jr_timestamp r;
                                   jr_text := jr_text r +:+ str1 nl +:+ line |}) records with
        | Some records' => records'
        | None => fresh
        end
      else fresh
  end.
Definition journal_records (value : string) : list JournalRecord :=
  foldl record_step [] (lines value).

(** ** Combining the prior boot's two sources *)

(** [*m.entry(k).or_insert(0) += 1]. *)
Definition bump (m : gmap string nat) (k : string) : gmap string nat :=
  <[k := S (unwrap_or (m !! k) 0%nat)]> m.

(** The tail records beyond the kernel's copies, in order. *)
Fixpoint unique_tail (kernel_counts tail_seen : gmap string nat) (tail : list JournalRecord)
  : list JournalRecord :=
  match tail with
  | [] => []
  | r :: rest =>
      let seen := S (unwrap_or (tail_seen !! jr_text r) 0%nat) in
      let tail_seen' := bump tail_seen (jr_text r) in
      if (unwrap_or (kernel_counts !! jr_text r) 0 <? seen)%nat
      then r :: unique_tail kernel_counts tail_seen' rest
      else unique_tail kernel_counts tail_seen' rest
  end.

(** Equal or missing timestamps keep the kernel record first. *)
Definition take_kernel (kernel tail : JournalRecord) : bool :=
  match jr_timestamp kernel, jr_timestamp tail with
  | Some k, Some t => dt_instant k <=? dt_instant t
  | _, _ => true
  end.

Fixpoint merge_records (kernel tail : list JournalRecord) : list JournalRecord :=
  let fix merge_tail (tail : list JournalRecord) : list JournalRecord :=
    match kernel, tail with
    | [], _ => tail
    | _, [] => kernel
    | k :: kernel', t :: tail' =>
        if take_kernel k t then k :: merge_records kernel' tail else t :: merge_tail tail'
    end in
  merge_tail tail.

Definition stable_merge_journal_records (kernel tail : list JournalRecord) : string :=
  join (str1 nl) (jr_text <$> merge_records kernel tail).

Definition combine_prior (kernel tail : option string) : option string :=
  match kernel, tail with
  | _, None => None
  | None, Some tail => Some tail
  | Some kernel, Some tail =>
      let kernel_records := journal_records kernel in
      let kernel_counts := foldl bump ∅ (jr_text <$> kernel_records) in
      Some (stable_merge_journal_records kernel_records
              (unique_tail kernel_counts ∅ (journal_records tail)))
  end.

(** ** Folded rows and clock regressions *)

Definition fold_step (records : list (DateTime * string)) (line : string) : list (DateTime * string) :=
  match parse_journal_line line with
  | Some (t, rest) => records ++ [(t, rest)]
  | None =>
      if starts_with_whitespace line then
        match update_last (λ r, (fst r, snd r +:+ str1 nl +:+ trim_start line)) records with
        | Some records' => records'
        | None => records
        end
      else records
  end.
Definition fold_journal_records (value : string) : list (DateTime * string) :=
  foldl fold_step [] (lines value).

Definition tolerance_ns : Z := TIMING_REGRESSION_TOLERANCE_MS * 1000000.

(** The loop over adjacent pairs, from [prev] on. *)
Fixpoint regress_from (cumulative : Z) (prev : DateTime) (rows : list (DateTime * string)) : bool :=
  match rows with
  | [] => false
  | (t, _) :: rest =>
      let regression := dt_instant prev - dt_instant t in
      if regression <=? 0 then regress_from cumulative t rest
      else
        let cumulative' := cumulative + regression in
        if (tolerance_ns <? regression) || (tolerance_ns <? cumulative') then true
        else regress_from cumulative' t rest
  end.
Definition timestamps_regress (rows : list (DateTime * string)) : bool :=
  match rows with [] => false | (t, _) :: rest => regress_from 0 t rest end.

Definition journal_timestamps_non_monotonic (journal : string) : bool :=
  timestamps_regress (fold_journal_records journal).

(** ** The precursor rule *)

Definition kernel_amdgpu_record (record bdf : string) : bool :=
  match split_once " " record with
  | None => false
  | Some (_, transport_and_message) =>
      match strip_prefix "kernel:" transport_and_message with
      | None => false
      | Some message => starts_with ("amdgpu " +:+ bdf +:+ ":") (trim_start message)
      end
  end.

Definition link_down_for (journal : string) (upstream : option string) : bool :=
  existsb (λ line,
    (contains "Link Down" line || contains "Card not present" line
     || contains "Link Active not set" line)
    && is_none_or upstream (λ bridge, contains bridge line)) (lines journal).

Record Precursor := {
  pr_fires : bool;
  pr_smu : Z;
  pr_resets : Z;
  pr_truncated : bool;
  pr_timing_unreliable : bool;
  pr_suppressed : bool;
}.
Definition default_precursor : Precursor :=
  {| pr_fires := false; pr_smu := 0; pr_resets := 0; pr_truncated := false;
     pr_timing_unreliable := false; pr_suppressed := false |}.

Definition is_smu (line : string) : bool := contains "SMU: response:0xFFFFFFFF" line.
Definition is_reset (line : string) : bool := contains "GPU reset begin" line.
Definition is_recovery (line : string) : bool :=
  contains "recovered through reset" line || contains "GPU recovered" line.

(** Every reset is followed by a recovery. *)
Fixpoint recovered_after_each (scoped : list string) : bool :=
  match scoped with
  | [] => true
  | line :: rest => (negb (is_reset line) || existsb is_recovery rest) && recovered_after_each rest
  end.

Definition precursor (tail slot : string) : Precursor :=
  let rows := fold_journal_records tail in
  match last rows with
  | None => default_precursor
  | Some (end_, _) =>
      let earliest := dt_instant end_ - PRECURSOR_WINDOW_S * ns_per_s in
      let window := List.filter (λ r, earliest <=? dt_instant (fst r)) rows in
      let timing_unreliable := timestamps_regress window in
      let scoped := List.filter (λ line, kernel_amdgpu_record line slot) (snd <$> window) in
      let smu := Z.of_nat (count is_smu scoped) in
      let resets := Z.of_nat (count is_reset scoped) in
      let last_smu_at_end := is_some_and (last scoped) is_smu in
      let terminal := (0 <? resets) && negb (recovered_after_each scoped) || last_smu_at_end in
      let truncated := negb (contains "Reached target Shutdown" tail)
                       && negb (contains "Powering Off" tail)
                       && negb (contains "reboot: Power down" tail) in
      {| pr_fires := negb timing_unreliable && (SMU_UNRESPONSIVE_MIN <=? smu)
                     && (RESET_ATTEMPT_MIN <=? resets) && terminal;
         pr_smu := smu; pr_resets := resets; pr_truncated := truncated;
         pr_timing_unreliable := timing_unreliable;
         pr_suppressed := contains "printk:" tail && contains "messages suppressed" tail |}
  end.
End journal.

(** ** Bounded reads *)

(** [str::is_char_boundary]. *)
Definition is_char_boundary (s : string) (i : nat) : bool :=
  Nat.eqb i 0 || Nat.eqb i (String.length s)
  || match String.get i s with Some c => negb (is_continuation c) | None => false end.

Fixpoint preceding_char_boundary (s : string) (index : nat) : nat :=
  match index with
  | O => O
  | S i => if is_char_boundary s (S i) then S i else preceding_char_boundary s i
  end.

(** [limit] is [JOURNAL_LIMIT] in the detector. *)
Definition bounded_end (limit : Z) (value : string) : string :=
  if slen value <=? limit then value
  else
    let start := preceding_char_boundary value (Z.to_nat (slen value - limit)) in
    let start := match find_nl (drop_bytes start value) with
                 | Some offset => (start + offset + 1)%nat
                 | None => start
                 end in
    drop_bytes start value.

Definition bounded_start (limit : Z) (value : string) : string :=
  if slen value <=? limit then value
  else
    let end_ := preceding_char_boundary value (Z.to_nat limit) in
    let end_ := unwrap_or (rfind_nl (take_bytes end_ value)) end_ in
    take_bytes end_ value.

(** ** Pairing journals with boots *)

Record InventoryWindow := { iw_start : Z; iw_end : Z }.

Section pairing.
Context `{Unicode} `{Chrono}.

Definition parse_inventory_time (fields : list string) : result Z string :=
  match fields with
  | [wday; date; time; _] =>
      ok_or (parse_inventory_stamp (wday +:+ " " +:+ date +:+ " " +:+ time))
        "boot inventory timestamp is malformed"
  | _ => Err "boot inventory timestamp is malformed"
  end.

(** [fields.get(a..a + 4)]. *)
Definition four_from (a : nat) (fields : list string) : option (list string) :=
  if (a + 4 <=? length fields)%nat then Some (take 4 (drop a fields)) else None.

Fixpoint parse_windows_from (windows : gmap string InventoryWindow) (ls : list string)
  : result (gmap string InventoryWindow) string :=
  match ls with
  | [] => Ok windows
  | line :: rest =>
      let fields := split_whitespace line in
      match position (λ field, is_ok (normalize_boot_id field)) fields with
      | None => parse_windows_from windows rest
      | Some index =>
          match four_from (index + 1) fields, four_from (index + 5) fields with
          | Some start_fields, Some end_fields =>
              let? start := parse_inventory_time start_fields in
              let? end_ := parse_inventory_time end_fields in
              let? id := normalize_boot_id (unwrap_or (fields !! index) EmptyString) in
              parse_windows_from (<[id := {| iw_start := start; iw_end := end_ |}]> windows) rest
          | _, _ => parse_windows_from windows rest
          end
      end
  end.
Definition parse_inventory_windows (source : string) : result (gmap string InventoryWindow) string :=
  parse_windows_from ∅ (lines source).

Definition validate_journal_window (journal label boot_id : string)
    (windows : gmap string InventoryWindow) : result unit string :=
  let? window := ok_or (windows !! boot_id)
    ("boot identity pairing invalid: " +:+ label +:+ " has no attributable boot window") in
  let rows := fold_journal_records journal in
  match head rows, last rows with
  | Some (first, _), Some (last, _) =>
      let grace := INVENTORY_WINDOW_GRACE_S * ns_per_s in
      if (naive_local first <? iw_start window - grace)
         || (iw_end window + grace <? naive_local last) then
        Err ("boot identity pairing invalid: " +:+ label
             +:+ " cannot be paired with the effective boot")
      else Ok tt
  | _, _ =>
      Err ("boot identity pairing invalid: " +:+ label
           +:+ " contains no attributable journal timestamps")
  end.

(** Returns the diagnostics the call appends to [missing]. *)
Definition validate_prior_window (journal : option string) (label : string) (prior : option string)
    (windows : gmap string InventoryWindow) : result (list string) string :=
  match journal with
  | None => Ok []
  | Some journal =>
      match prior with
      | Some prior => let? _ := validate_journal_window journal label prior windows in Ok []
      | None => Ok ["supplied " +:+ label +:+ " could not be attributed to a paired prior boot"]
      end
  end.

Definition validate_supplied_journal_pairing (inventory_source : option string)
    (current_boot_id : string) (current prior_kernel prior_tail : option string)
  : result (list string) string :=
  match current, prior_kernel, prior_tail with
  | None, None, None => Ok []
  | _, _, _ =>
      let? source := ok_or inventory_source
        "boot identity pairing invalid: supplied journal fixtures require a boot inventory" in
      let? inventory := parse_boot_inventory source in
      let prior := prior_for inventory current_boot_id in
      let? windows := parse_inventory_windows source in
      let? _ := match current with
                | Some journal => validate_journal_window journal "same-boot journal" current_boot_id windows
                | None => Ok tt
                end in
      let? m1 := validate_prior_window prior_kernel "prior boot kernel journal" prior windows in
      let? m2 := validate_prior_window prior_tail "prior boot journal tail" prior windows in
      Ok (m1 ++ m2)
  end.
End pairing.

(** ** Clock drift *)

(** The total of the backward steps between adjacent rows. *)
Fixpoint drift_from (prev : DateTime) (rows : list (DateTime * string)) : Z :=
  match rows with
  | [] => 0
  | (t, _) :: rest => Z.max 0 (dt_instant prev - dt_instant t) + drift_from t rest
  end.
Definition backward_drift (rows : list (DateTime * string)) : Z :=
  match rows with [] => 0 | (t, _) :: rest => drift_from t rest end.

Lemma drift_from_nonneg prev rows : 0 ≤ drift_from prev rows.
Proof. revert prev. induction rows as [|[t s] rows IH]; intros prev; simpl; [lia|]. specialize (IH t). lia. Qed.

Lemma regress_from_drift cumulative prev rows :
  0 ≤ cumulative ≤ tolerance_ns →
  regress_from cumulative prev rows = (tolerance_ns <? cumulative + drift_from prev rows).
Proof.
  revert cumulative prev. induction rows as [|[t s] rows IH]; intros c prev Hc; simpl.
  { symmetry. apply Z.ltb_ge. lia. }
  pose proof (drift_from_nonneg t rows).
  destruct (Z.leb_spec (dt_instant prev - dt_instant t) 0).
  - rewrite IH by done. f_equal. lia.
  - destruct (_ || _) eqn:E.
    + symmetry. apply Z.ltb_lt. apply orb_true_iff in E as [?%Z.ltb_lt|?%Z.ltb_lt]; lia.
    + apply orb_false_iff in E as [?%Z.ltb_ge ?%Z.ltb_ge]. rewrite IH by lia. f_equal. lia.
Qed.

(** ** The merge *)

Section merge_lemmas.
Context `{Chrono}.
Implicit Types (k t : list JournalRecord).

Lemma merge_records_nil_l t : merge_records [] t = t.
Proof. by destruct t. Qed.
Lemma merge_records_nil_r k : merge_records k [] = k.
Proof. by destruct k. Qed.
Lemma merge_records_cons x k y t :
  merge_records (x :: k) (y :: t)
  = if take_kernel x y then x :: merge_records k (y :: t) else y :: merge_records (x :: k) t.
Proof. done. Qed.

Lemma merge_records_perm k t : merge_records k t ≡ₚ k ++ t.
Proof.
  revert t. induction k as [|x k IHk]; intros t; [by rewrite merge_records_nil_l|].
  induction t as [|y t IHt]; [by rewrite merge_records_nil_r, app_nil_r|].
  rewrite merge_records_cons. destruct (take_kernel x y).
  - by rewrite IHk.
  - rewrite IHt. by rewrite <-Permutation_middle.
Qed.

Lemma merge_records_kernel k t : k `sublist_of` merge_records k t.
Proof.
  revert t. induction k as [|x k IHk]; intros t; [apply sublist_nil_l|].
  induction t as [|y t IHt]; [by rewrite merge_records_nil_r|].
  rewrite merge_records_cons. destruct (take_kernel x y); by constructor.
Qed.

Lemma merge_records_tail k t : t `sublist_of` merge_records k t.
Proof.
  revert t. induction k as [|x k IHk]; intros t; [by rewrite merge_records_nil_l|].
  induction t as [|y t IHt]; [apply sublist_nil_l|].
  rewrite merge_records_cons. destruct (take_kernel x y); by constructor.
Qed.

(** The number of copies of a text. *)
Definition copies (s : string) (l : list JournalRecord) : nat :=
  count (λ r, String.eqb (jr_text r) s) l.

Lemma bump_lookup m (key s : string) :
  unwrap_or (bump m key !! s) 0%nat
  = ((if String.eqb key s then 1 else 0) + unwrap_or (m !! s) 0%nat)%nat.
Proof.
  unfold bump. destruct (String.eqb_spec key s) as [->|Hne].
  - by rewrite lookup_insert_eq.
  - by rewrite lookup_insert_ne.
Qed.

Lemma counts_lookup m (l : list JournalRecord) s :
  unwrap_or (foldl bump m (jr_text <$> l) !! s) 0%nat = (unwrap_or (m !! s) 0%nat + copies s l)%nat.
Proof.
  revert m. induction l as [|r l IH]; intros m; [simpl; unfold copies, count; simpl; lia|].
  rewrite fmap_cons. cbn [foldl]. rewrite IH, bump_lookup. unfold copies.
  rewrite count_cons. destruct (String.eqb (jr_text r) s); lia.
Qed.

Lemma unique_tail_copies kc seen t s :
  copies s (unique_tail kc seen t)
  = (unwrap_or (seen !! s) 0 + copies s t
     - Nat.max (unwrap_or (kc !! s) 0) (unwrap_or (seen !! s) 0))%nat.
Proof.
  revert seen. induction t as [|r t IH]; intros seen; simpl.
  { unfold copies, count. simpl. lia. }
  unfold copies in *. rewrite (count_cons _ r t).
  destruct (Nat.ltb_spec (unwrap_or (kc !! jr_text r) 0%nat) (S (unwrap_or (seen !! jr_text r) 0%nat)));
    [rewrite count_cons|]; rewrite IH, bump_lookup;
    destruct (String.eqb_spec (jr_text r) s) as [<-|]; lia.
Qed.

Lemma unique_tail_sublist kc seen t : unique_tail kc seen t `sublist_of` t.
Proof.
  revert seen. induction t as [|r t IH]; intros seen; simpl; [done|].
  destruct (_ <? _)%nat; by constructor.
Qed.

Lemma copies_merge s k t : copies s (merge_records k t) = (copies s k + copies s t)%nat.
Proof. unfold copies. by rewrite merge_records_perm, count_app. Qed.

(** The records [combine_prior] joins. *)
Definition combined_records (kernel tail : string) : list JournalRecord :=
  merge_records (journal_records kernel)
    (unique_tail (foldl bump ∅ (jr_text <$> journal_records kernel)) ∅ (journal_records tail)).
End merge_lemmas.

(** ** Bounded reads *)

Lemma boundary_le s index : (preceding_char_boundary s index ≤ index)%nat.
Proof. induction index as [|i IH]; simpl; [lia|]. destruct (is_char_boundary s (S i)); lia. Qed.

Lemma boundary_ge s index j :
  (j ≤ index)%nat → is_char_boundary s j = true → (j ≤ preceding_char_boundary s index)%nat.
Proof.
  intros Hj Hb. induction index as [|i IH]; simpl; [lia|].
  destruct (is_char_boundary s (S i)) eqn:E; [lia|].
  destruct (decide (j = S i)) as [->|]; [congruence|]. apply IH. lia.
Qed.

(** ** Properties *)

(** The journal clock counts as unreliable exactly when the backward
    steps between adjacent records add up to more than the 100 ms tolerance,
    whether in one jump or cumulatively; forward time never resets the budget. *)
Theorem timestamps_regress_iff (rows : list (DateTime * string)) :
  timestamps_regress rows = true ↔ 100 * 1000000 < backward_drift rows.
Proof.
  unfold timestamps_regress, backward_drift. destruct rows as [|[t s] rows]; [split; [done|lia]|].
  rewrite regress_from_drift by (unfold tolerance_ns, TIMING_REGRESSION_TOLERANCE_MS; lia).
  rewrite Z.ltb_lt. unfold tolerance_ns, TIMING_REGRESSION_TOLERANCE_MS. lia.
Qed.

(** Combining the prior boot's kernel journal with its tail loses and
    invents nothing: the joined records contain every text as often as the
    source that has it most often, the kernel's records all survive in their
    order, and what is added from the tail is in the tail's order. *)
Theorem combine_prior_multiset `{Chrono} (kernel tail : string) :
  combine_prior (Some kernel) (Some tail)
    = Some (join (str1 nl) (jr_text <$> combined_records kernel tail))
  ∧ (∀ s, copies s (combined_records kernel tail)
          = Nat.max (copies s (journal_records kernel)) (copies s (journal_records tail)))
  ∧ journal_records kernel `sublist_of` combined_records kernel tail
  ∧ ∃ added, combined_records kernel tail ≡ₚ journal_records kernel ++ added
      ∧ added `sublist_of` journal_records tail ∧ added `sublist_of` combined_records kernel tail.
Proof.
  split; [done|]. unfold combined_records. set (kc := foldl bump ∅ _).
  split_and!.
  - intros s. rewrite copies_merge. rewrite unique_tail_copies, lookup_empty. unfold kc. rewrite counts_lookup, lookup_empty. simpl. lia.
  - apply merge_records_kernel.
  - exists (unique_tail kc ∅ (journal_records tail)). split_and!.
    + apply merge_records_perm.
    + apply unique_tail_sublist.
    + apply merge_records_tail.
Qed.

(** The bounded reads keep whole lines of one end of the text.
    [bounded_start] keeps a prefix of at most [limit] bytes, and cuts at a line
    break if the kept bytes had one; [bounded_end] keeps a suffix, which starts
    after a line break unless none was left, and exceeds [limit] by at most the
    distance from the cut back to a character boundary.  Text within the limit
    is kept whole. *)
Theorem bounded_reads (limit : Z) (value : string) (Hlimit : 0 ≤ limit) :
  (slen value ≤ limit → bounded_start limit value = value ∧ bounded_end limit value = value)
  ∧ (∃ rest, value = bounded_start limit value +:+ rest
      ∧ slen (bounded_start limit value) ≤ limit
      ∧ (rest = EmptyString ∨ starts_with (str1 nl) rest = true
         ∨ has_nl (bounded_start limit value) = false))
  ∧ (∃ pre, value = pre +:+ bounded_end limit value
      ∧ (pre = EmptyString ∨ (∃ line, pre = line +:+ str1 nl) ∨ has_nl (bounded_end limit value) = false)
      ∧ ∀ k : nat, is_char_boundary value (Z.to_nat (slen value - limit) - k) = true →
          slen (bounded_end limit value) ≤ limit + Z.of_nat k).
Proof.
  unfold bounded_start, bounded_end.
  destruct (Z.leb_spec (slen value) limit) as [Hle|Hgt]; split_and!; try (intros; lia).
  - done.
  - exists EmptyString. rewrite str_app_nil_r. split_and!; [done|done|by left].
  - exists EmptyString. split_and!; [done|by left|]. intros k _. lia.
  - set (e := preceding_char_boundary value (Z.to_nat limit)).
    assert (He : (e ≤ Z.to_nat limit)%nat) by apply boundary_le.
    pose proof (rfind_nl_spec (take_bytes e value)) as Hr.
    destruct (rfind_nl (take_bytes e value)) as [i|] eqn:Ei; simpl.
    + destruct Hr as (Hd & Hl & _). rewrite length_take_bytes in Hl.
      exists (drop_bytes i value). split_and!; [by rewrite take_drop_bytes| |].
      * unfold slen. rewrite length_take_bytes. lia.
      * right; left. rewrite (drop_take_bytes i e) by lia. rewrite Hd.
        change (starts_with (str1 nl) (str1 nl +:+ (drop_bytes (S i) (take_bytes e value) +:+ drop_bytes e value)) = true).
        apply starts_with_app.
    + exists (drop_bytes e value). split_and!; [by rewrite take_drop_bytes| |by right; right].
      unfold slen. rewrite length_take_bytes. lia.
  - set (cut := Z.to_nat (slen value - limit)). set (st := preceding_char_boundary value cut).
    pose proof (find_nl_spec (drop_bytes st value)) as Hf.
    assert (Hlen : ∀ k, is_char_boundary value (cut - k) = true → (cut - k ≤ st)%nat)
      by (intros k Hk; apply boundary_ge; [lia|done]).
    destruct (find_nl (drop_bytes st value)) as [o|] eqn:Eo.
    + destruct Hf as [Hd Hl]. exists (take_bytes (st + o + 1) value).
      split_and!; [by rewrite take_drop_bytes| |].
      * right; left. exists (take_bytes (st + o) value). apply take_to_newline.
        rewrite !drop_drop_bytes in Hd. by replace (st + S o)%nat with (S (st + o)) in Hd by lia.
      * intros k Hk%Hlen. unfold slen in *. rewrite length_drop_bytes. lia.
    + exists (take_bytes st value). split_and!; [by rewrite take_drop_bytes|by right; right|].
      intros k Hk%Hlen. unfold slen in *. rewrite length_drop_bytes. lia.
Qed.

Definition demo_text : string := "ab" +:+ str1 nl +:+ "cd" +:+ str1 nl +:+ "ef".
Lemma bounded_reads_witness :
  bounded_start 4 demo_text = "ab" ∧ bounded_end 4 demo_text = "ef"
  ∧ slen (bounded_start 4 demo_text) ≤ 4 ∧ slen (bounded_end 4 demo_text) ≤ 4 + Z.of_nat 0.
Proof.
  assert (H4 : 0 ≤ 4) by lia. pose proof (bounded_reads 4 demo_text H4) as (_ & Hs & He).
  destruct Hs as (rest & _ & Hs & _). destruct He as (pre & _ & _ & He).
  split; [reflexivity|]. split; [reflexivity|]. split; [exact Hs|]. apply He. reflexivity.
Defined.
