(* ===== verification/D3Redact.v ===== *)
(** * D3 privacy guard ([src/detectors/d3.rs], [redact_excerpt] and its tests)

    The filter every untrusted journal excerpt passes before it is kept. *)
From Stdlib Require Import Ascii.
From S2P Require Import Prelude EsModel D3Parse.

(** ** Word tests *)

Definition is_trim_char (ch : string) : bool :=
  existsb (String.eqb ch) [","; ";"; "("; ")"; "["; "]"].

Definition has_byte (c : ascii) (s : string) : bool := any_byte (Ascii.eqb c) s.
Definition count_byte (c : ascii) (s : string) : Z := slen (filter_bytes (Ascii.eqb c) s).

Definition looks_like_mac (value : string) : bool :=
  let parts := split_char ":" value in
  Nat.eqb (length parts) 6
  && forallb (λ part, (slen part =? 2) && all_bytes is_ascii_hexdigit part) parts.

Definition looks_like_ipv6 (value : string) : bool :=
  let clean := trim_matches is_trim_char value in
  (2 <=? count_byte ":" clean)
  && all_bytes (λ c, is_ascii_hexdigit c || Ascii.eqb c ":" || Ascii.eqb c ".") clean.

Definition looks_like_private_path (value : string) : bool :=
  starts_with "/home/" value || starts_with "/Users/" value
  || contains "/home/" value || contains "/Users/" value.

Fixpoint hex_run_from (run : Z) (s : string) : bool :=
  match s with
  | EmptyString => false
  | String c s' =>
      if is_ascii_hexdigit c then
        if 16 <=? run + 1 then true else hex_run_from (run + 1) s'
      else hex_run_from 0 s'
  end.
Definition has_long_hex_run (value : string) : bool := hex_run_from 0 value.

Section redact.
Context `{Unicode}.

Definition looks_like_bare_hostname (value : string) : bool :=
  has_byte "-" value || existsb uc_is_uppercase (chars value).

Definition looks_like_uuid (value : string) : bool := is_ok (normalize_boot_id value).

(** The replacement of the word at [index]. *)
Definition redact_word (target_host : option string) (index : nat) (word : string) : string :=
  let clean := trim_matches is_trim_char word in
  let foreign := is_none_or target_host (λ host, negb (String.eqb clean host)) in
  if has_byte "@" clean then "[REDACTED_USER]"
  else if looks_like_private_path clean then "[REDACTED_PATH]"
  else if looks_like_mac clean then "[REDACTED_MAC]"
  else if looks_like_ipv6 clean then "[REDACTED_IPV6]"
  else if looks_like_uuid clean then "[REDACTED_UUID]"
  else if contains "serial" (to_ascii_lowercase clean) || starts_with "SN=" clean
          || has_long_hex_run clean then "[REDACTED_SERIAL]"
  else if (Nat.eqb index 1 && looks_like_bare_hostname clean && foreign)
          || contains "hostname=" clean
          || (has_byte "." clean && negb (has_byte ":" clean) && foreign) then "[REDACTED_HOST]"
  else word.

Definition redact_excerpt (value : string) (target_host : option string) : string :=
  let no_controls := concat_str (List.filter (λ ch, negb (is_control ch)) (chars value)) in
  let words := imap (redact_word target_host) (split_whitespace no_controls) in
  concat_str (take 1024 (chars (join " " words))).

Definition redact_collection_missing (value : string) (target_host : option string) : string :=
  match split_once ": " value with
  | None => redact_excerpt value target_host
  | Some (structure, excerpt) => structure +:+ ": " +:+ redact_excerpt excerpt target_host
  end.

Definition redacted_collection_failure (value : string) (target_host : option string) : string :=
  redact_collection_missing value target_host.
End redact.


(** ** Lemmas *)

(** The patterns an excerpt must never show. *)
Definition private_patterns : list string := ["@"; "/home/"; "/Users/"].

(** The bytes the guard trims from a word, and the blank it joins with. *)
Definition is_sep_byte (c : ascii) : bool := any_byte (Ascii.eqb c) ",;()[] ".

(** Patterns free of the bytes the guard trims or joins with. *)
Definition untrimmed (n : string) : Prop :=
  n ≠ EmptyString ∧ all_bytes (λ c, negb (is_sep_byte c)) n = true.

Lemma private_untrimmed n : n ∈ private_patterns → untrimmed n.
Proof.
  unfold private_patterns. rewrite !elem_of_cons, elem_of_nil.
  intros [->|[->|[->|[]]]]; by split.
Qed.

Lemma untrimmed_sep n sep :
  untrimmed n → all_bytes is_sep_byte sep = true →
  ∀ c, any_byte (Ascii.eqb c) sep = true → any_byte (Ascii.eqb c) n = false.
Proof.
  intros [_ Hn] Hsep c Hc.
  assert (Hin : is_sep_byte c = true).
  { revert Hsep Hc. induction sep as [|d sep IH]; cbn [all_bytes any_byte]; [done|].
    rewrite andb_true_iff, orb_true_iff. intros [Hd Hs] [Heq|Hc']; [|auto].
    apply Ascii.eqb_eq in Heq as ->. exact Hd. }
  revert Hn. induction n as [|d n IH]; cbn [all_bytes any_byte]; [done|].
  rewrite andb_true_iff. intros [Hd Hn]. apply orb_false_iff. split; [|auto].
  apply Ascii.eqb_neq. intros ->. by rewrite Hin in Hd.
Qed.

Lemma contains_around n pre s post :
  untrimmed n →
  all_bytes is_sep_byte pre = true →
  all_bytes is_sep_byte post = true →
  contains n (pre +:+ s +:+ post) = true → contains n s = true.
Proof.
  intros Hn Hpre Hpost Hc.
  assert (H1 : contains n (s +:+ post) = true).
  { destruct (contains_sep n EmptyString (s +:+ post) pre) as [Hf|[Hf| ->]]; try done.
    - by apply untrimmed_sep.
    - by destruct Hn.
    - rewrite contains_empty in Hf; [done|]. by destruct Hn. }
  destruct (contains_sep n s EmptyString post) as [Hf|[Hf| ->]]; try done.
  - by apply untrimmed_sep.
  - by destruct Hn.
  - by rewrite str_app_nil_r.
  - rewrite contains_empty in Hf; [done|]. by destruct Hn.
  - by rewrite str_app_nil_r in H1.
Qed.

Lemma drop_while_split {A} (p : A → bool) l :
  ∃ pre, l = pre ++ drop_while p l ∧ Forall (λ x, p x = true) pre.
Proof.
  induction l as [|x l (pre & Hl & Hp)]; [by exists []|]. simpl. destruct (p x) eqn:E.
  - exists (x :: pre). split; [simpl; by f_equal|by constructor].
  - by exists [].
Qed.

Lemma trim_matches_split (p : string → bool) s :
  ∃ pre post, s = concat_str pre +:+ trim_matches p s +:+ concat_str post
    ∧ Forall (λ x, p x = true) pre ∧ Forall (λ x, p x = true) post.
Proof.
  unfold trim_matches, drop_while_end.
  destruct (drop_while_split p (chars s)) as (pre & Hpre & Hp).
  set (m := drop_while p (chars s)) in *.
  destruct (drop_while_split p (rev m)) as (post & Hpost & Hq).
  exists pre, (rev post). split; [|split; [done|by apply Forall_rev]].
  rewrite <-(concat_chars s) at 1. rewrite Hpre, concat_str_app. f_equal.
  rewrite <-(rev_involutive m) at 1. rewrite Hpost, rev_app_distr, concat_str_app. by rewrite Hpost at 1.
Qed.

Lemma trim_char_bytes l :
  Forall (λ x, is_trim_char x = true) l →
  all_bytes is_sep_byte (concat_str l) = true.
Proof.
  induction 1 as [|x l Hx _ IH]; [done|]. simpl. rewrite all_bytes_app, IH, andb_true_r.
  apply existsb_exists in Hx as (y & Hy & ->%String.eqb_eq). by repeat (destruct Hy as [<-|Hy]; [done|]).
Qed.

Lemma contains_trim n word :
  untrimmed n → contains n word = true → contains n (trim_matches is_trim_char word) = true.
Proof.
  intros Hn. destruct (trim_matches_split is_trim_char word) as (pre & post & Heq & Hp & Hq).
  rewrite Heq at 1. apply contains_around; [done|by apply trim_char_bytes..].
Qed.

Lemma has_byte_contains c s : has_byte c s = contains (str1 c) s.
Proof.
  induction s as [|d s IH]; [done|]. rewrite contains_cons. unfold has_byte in *. cbn [any_byte].
  rewrite IH. f_equal. unfold starts_with, strip_prefix. simpl. by destruct (Ascii.eqb c d).
Qed.

Section redact_lemmas.
Context `{Unicode}.

Lemma redact_word_safe n host i word :
  n ∈ private_patterns → contains n (redact_word host i word) = false.
Proof.
  intros Hn. pose proof (private_untrimmed n Hn) as Hu.
  assert (Hmark : ∀ m, m ∈ ["[REDACTED_USER]"; "[REDACTED_PATH]"; "[REDACTED_MAC]"; "[REDACTED_IPV6]";
    "[REDACTED_UUID]"; "[REDACTED_SERIAL]"; "[REDACTED_HOST]"] → contains n m = false).
  { intros m Hm. unfold private_patterns in Hn. rewrite !elem_of_cons, elem_of_nil in Hn.
    rewrite !elem_of_cons in Hm.
    destruct Hn as [->|[->|[->|[]]]]; repeat (destruct Hm as [->|Hm]; [by vm_compute|]); by apply elem_of_nil in Hm. }
  unfold redact_word. set (clean := trim_matches is_trim_char word).
  destruct (has_byte "@" clean) eqn:Eat; [apply Hmark; set_solver|].
  destruct (looks_like_private_path clean) eqn:Epath; [apply Hmark; set_solver|].
  repeat (case_match; [apply Hmark; set_solver|]).
  destruct (contains n word) eqn:Ec; [|done]. exfalso.
  apply contains_trim in Ec; [|done]. fold clean in Ec.
  unfold looks_like_private_path in Epath.
  apply orb_false_iff in Epath as [Epath Eusers]. apply orb_false_iff in Epath as [_ Ehome].
  rewrite has_byte_contains in Eat. unfold str1 in Eat.
  unfold private_patterns in Hn. rewrite !elem_of_cons, elem_of_nil in Hn.
  destruct Hn as [->|[->|[->|[]]]]; congruence.
Qed.

Lemma contains_join n sep l :
  n ≠ EmptyString → sep ≠ EmptyString →
  (∀ c, any_byte (Ascii.eqb c) sep = true → any_byte (Ascii.eqb c) n = false) →
  Forall (λ w, contains n w = false) l → contains n (join sep l) = false.
Proof.
  intros Hn Hs Hsep. induction 1 as [|w l Hw Hl IH]; [by apply contains_empty|].
  destruct l as [|w' l]; [done|]. change (join sep (w :: w' :: l)) with (w +:+ sep +:+ join sep (w' :: l)).
  destruct (contains n (w +:+ sep +:+ join sep (w' :: l))) eqn:E; [|done].
  apply contains_sep in E; [|done|done]. destruct E as [?|[?|?]]; congruence.
Qed.
End redact_lemmas.

(** ** Properties *)

(** Whatever the journal contained, the retained excerpt shows no [@]
    (user or mail address) and no home-directory path, has at most 1024
    characters, whatever the target host. *)
Theorem redact_excerpt_private `{Unicode} (value : string) (host : option string) (n : string)
    (Hn : n ∈ private_patterns) :
  contains n (redact_excerpt value host) = false ∧ char_count (redact_excerpt value host) ≤ 1024.
Proof.
  unfold redact_excerpt. set (words := imap _ _). split.
  - apply contains_prefix_list. rewrite concat_chars.
    destruct (private_untrimmed n Hn) as [Hne _].
    apply contains_join; [done|done|by apply untrimmed_sep; [apply private_untrimmed|]|].
    apply Forall_forall. intros w (i & x & -> & _)%elem_of_lookup_imap_1. by apply redact_word_safe.
  - unfold char_count. rewrite chars_take, length_take. lia.
Qed.

Lemma redact_excerpt_private_witness :
  contains "/home/" (@redact_excerpt ascii_unicode "opened (/home/alice/x) by alice@deck" None) = false
  ∧ @redact_excerpt ascii_unicode "opened (/home/alice/x) by alice@deck" None
    = "opened [REDACTED_PATH] by [REDACTED_USER]".
Proof.
  split.
  - apply (@redact_excerpt_private ascii_unicode). do 2 constructor.
  - vm_compute. reflexivity.
Defined.
