(* ===== verification/FileSystem.v ===== *)
(** * A file system with faults

    What the detectors' state files need of [std::path] and [std::fs]: paths as
    component lists, a finite map from paths to entries, and a small effect
    monad that records the file system after every call, so that theorems speak
    of each point at which another process, or a crash, could look. *)
From Stdlib Require Import Ascii.
From S2P Require Import Prelude.

(** ** Paths *)

(** [Path]: absolute or not, and its components. *)
Abbreviation Path := (bool * list string)%type.

(** [Path::parent]: [None] for a root and for the empty path. *)
Definition parent (p : Path) : option Path :=
  match snd p with [] => None | _ => Some (fst p, removelast (snd p)) end.
(** [Path::join] with one relative component. *)
Definition path_join (p : Path) (name : string) : Path := (fst p, snd p ++ [name]).
Definition empty_path : Path := (false, []).
(** [Path::new]: the components of a text, without empty ones and without a
    [.] that is not at the front. *)
Definition path_from (s : string) : Path :=
  let absolute := starts_with "/" s in
  match split_char "/" s with
  | [] => (absolute, [])
  | first :: rest =>
      let keep (c : string) := negb (is_empty c) && negb (String.eqb c ".") in
      (absolute, (if negb absolute && String.eqb first "." then ["."] else List.filter keep [first])
                 ++ List.filter keep rest)
  end.
(** [Path::file_name]. *)
Definition path_file_name (p : Path) : option string :=
  match last (snd p) with
  | Some name => if String.eqb name ".." || String.eqb name "." then None else Some name
  | None => None
  end.
(** [Path::join] on texts. *)
Definition join_path (base name : string) : string :=
  if starts_with "/" name || is_empty base then name
  else match String.get (String.length base - 1) base with
       | Some "/"%char => base +:+ name
       | _ => base +:+ "/" +:+ name
       end.
Definition current_dir : Path := (false, ["."]).

(** ** Entries *)

(** [Symlink dir]: a symbolic link, to a directory or not. *)
Inductive Node :=
| File (content : string)
| Dir
| Symlink (dir : bool).

#[export] Instance Path_eq_dec : EqDecision Path := _.
#[export] Instance Path_countable : Countable Path := _.
Abbreviation FS := (@gmap Path Path_eq_dec Path_countable Node).

(** The root and the working directory always exist; the empty path names
    nothing. *)
Definition is_dir (fs : FS) (p : Path) : bool :=
  match fs !! p with
  | Some Dir => true
  | Some (Symlink dir) => dir
  | Some (File _) => false
  | None => match p with (true, []) | (false, ["."]) => true | _ => false end
  end.
Definition exists_at (fs : FS) (p : Path) : bool :=
  is_dir fs p || match fs !! p with Some _ => true | None => false end.
(** Where a new entry may be created. *)
Definition can_hold (fs : FS) (p : Path) : bool :=
  match parent p with
  | Some q => bool_decide (q = empty_path) || is_dir fs q
  | None => false
  end.

(** [fs::read_to_string] accepts UTF-8 only. *)
Definition is_utf8 (s : string) : bool := String.eqb (from_utf8_lossy s) s.

(** ** Calls *)

Record Run (A : Type) := { visited : list FS; final : FS; returned : result A string }.
Arguments visited {A}.
Arguments final {A}.
Arguments returned {A}.

Definition IO (A : Type) : Type := FS → Run A.

Definition of_result {A : Type} (r : result A string) : IO A :=
  λ fs, {| visited := []; final := fs; returned := r |}.
Definition ret {A : Type} (a : A) : IO A := of_result (Ok a).
Definition bind {A B : Type} (m : IO A) (k : A → IO B) : IO B :=
  λ fs,
    match returned (m fs) with
    | Ok a =>
        let r := k a (final (m fs)) in
        {| visited := visited (m fs) ++ visited r; final := final r; returned := returned r |}
    | Err e => {| visited := visited (m fs); final := final (m fs); returned := Err e |}
    end.
(** One system call: the file system it leaves, seen by everybody, and its
    result. *)
Definition call {A : Type} (f : FS → FS * result A string) : IO A :=
  λ fs, let (fs', r) := f fs in {| visited := [fs']; final := fs'; returned := r |}.
(** [m.map_err(|e| { cleanup; ... })]: [cleanup]'s own result is ignored. *)
Definition or_cleanup {A : Type} (m : IO A) (cleanup : IO unit) : IO A :=
  λ fs,
    match returned (m fs) with
    | Ok _ => m fs
    | Err e =>
        let r := cleanup (final (m fs)) in
        {| visited := visited (m fs) ++ visited r; final := final r; returned := Err e |}
    end.

(** A call whose error is looked at, or ignored, and not passed on. *)
Definition catch {A : Type} (m : IO A) : IO (result A string) :=
  λ fs, {| visited := visited (m fs); final := final (m fs); returned := Ok (returned (m fs)) |}.

Notation "'let*' x := m 'in' k" := (bind m (λ x, k))
  (at level 10, x pattern, m at level 200, k at level 200) : rust_scope.

(** ** Faults *)

(** The calls that can fail on their own, by the place that makes them. *)
Inductive Site :=
| CreateDirs | ChmodDir | OpenLock | ChmodLock
| Inspect | OpenFile | ReadFile
| CreateTemp | ChmodTemp | WriteTemp | Rename | RemoveTemp
| InspectInput (p : Path) | ReadInput (p : Path)
| At (place : string).
#[export] Instance Site_eq_dec : EqDecision Site.
Proof. solve_decision. Defined.

(** [fails] injects a fault at a place; [os_error] is the text of its error;
    [written] is how far a failing write gets. *)
Record Faults := {
  fails : Site → bool;
  os_error : Site → string;
  written : nat;
}.

Section calls.
Context (f : Faults).

(** A call that succeeds when [ok fs] holds and no fault hits it. *)
Definition attempt {A : Type} (site : Site) (prefix : string) (ok : FS → bool) (effect : FS → FS) (value : A)
  : IO A :=
  call (λ fs,
    if negb (fails f site) && ok fs then (effect fs, Ok value)
    else (fs, Err (prefix +:+ os_error f site))).

(** [fs::create_dir_all]: the directories from the top down. *)
Definition ancestors (p : Path) : list Path :=
  (λ k, (fst p, take k (snd p))) <$> seq 1 (length (snd p)).
Fixpoint make_dirs (ps : list Path) (fs : FS) : FS * bool :=
  match ps with
  | [] => (fs, true)
  | p :: rest =>
      if is_dir fs p then make_dirs rest fs
      else match fs !! p with
           | None => make_dirs rest (<[p := Dir]> fs)
           | Some _ => (fs, false)
           end
  end.
Definition create_dir_all (prefix : string) (p : Path) : IO unit :=
  call (λ fs,
    let error := Err (prefix +:+ os_error f CreateDirs) in
    if fails f CreateDirs then (fst (make_dirs (take (written f) (ancestors p)) fs), error)
    else let (fs', made) := make_dirs (ancestors p) fs in
         (fs', if made then Ok tt else error)).

(** [set_permissions] changes no entry; it fails on a path that names nothing. *)
Definition set_permissions (site : Site) (prefix : string) (p : Path) : IO unit :=
  attempt site prefix (λ fs, exists_at fs p) id tt.

(** [OpenOptions] with [create(true)] and without [truncate]. *)
Definition open_or_create (site : Site) (prefix : string) (p : Path) : IO unit :=
  attempt site prefix
    (λ fs, match fs !! p with
           | Some (File _) => true
           | Some (Symlink dir) => negb dir
           | Some Dir => false
           | None => can_hold fs p
           end)
    (λ fs, match fs !! p with None => <[p := File EmptyString]> fs | Some _ => fs end) tt.

(** [OpenOptions] with [create_new(true)]. *)
Definition create_new (site : Site) (prefix : string) (p : Path) : IO unit :=
  attempt site prefix
    (λ fs, match fs !! p with None => can_hold fs p && negb (is_dir fs p) | Some _ => false end)
    (λ fs, <[p := File EmptyString]> fs) tt.

(** [write_all] and [sync_all] on the file just created: a failure leaves a
    prefix. *)
Definition write_file (site : Site) (prefix : string) (p : Path) (content : string) : IO unit :=
  call (λ fs,
    if fails f site then
      (<[p := File (String.substring 0 (written f) content)]> fs, Err (prefix +:+ os_error f site))
    else (<[p := File content]> fs, Ok tt)).

(** [fs::rename] of a file: replaces an entry other than a directory. *)
Definition rename (site : Site) (prefix : string) (from to : Path) : IO unit :=
  call (λ fs,
    match fs !! from, fs !! to with
    | Some node, (None | Some (File _ | Symlink _)) =>
        if fails f site then (fs, Err (prefix +:+ os_error f site))
        else (<[to := node]> (delete from fs), Ok tt)
    | _, _ => (fs, Err (prefix +:+ os_error f site))
    end).

(** [fs::write]: opens with [create(true).truncate(true)], then writes; a
    failing write has written a prefix.  What a link points to is outside this
    file system. *)
Definition fs_write (place prefix : string) (p : Path) (content : string) : IO unit :=
  call (λ fs,
    match fs !! p with
    | Some (Symlink false) =>
        (fs, if fails f (At (place +:+ "-open")) || fails f (At place) then Err (prefix +:+ os_error f (At place)) else Ok tt)
    | Some (Dir | Symlink true) => (fs, Err (prefix +:+ os_error f (At place)))
    | node =>
        if fails f (At (place +:+ "-open")) || (match node with None => negb (can_hold fs p) | Some _ => false end) then
          (fs, Err (prefix +:+ os_error f (At (place +:+ "-open"))))
        else if fails f (At place) then
          (<[p := File (take_bytes (written f) content)]> fs, Err (prefix +:+ os_error f (At place)))
        else (<[p := File content]> fs, Ok tt)
    end).

Definition remove_file (site : Site) (p : Path) : IO unit :=
  attempt site EmptyString (λ fs, match fs !! p with Some (File _ | Symlink _) => true | _ => false end)
    (delete p) tt.

(** [symlink_metadata]; [None] for [NotFound]. *)
Definition inspect (site : Site) (prefix : string) (p : Path) : IO (option Node) :=
  call (λ fs, (fs, if fails f site then Err (prefix +:+ os_error f site) else Ok (fs !! p))).

(** Opening and reading a regular file to a string. *)
Definition read_to_string (site : Site) (prefix : string) (content : string) : IO string :=
  call (λ fs, (fs, if negb (fails f site) && is_utf8 content then Ok content
                   else Err (prefix +:+ os_error f site))).
End calls.

(** ** Reasoning *)

(** From [P], every point visited satisfies [I]; a success ends in [Q], a
    failure in [E]. *)
Definition triple {A : Type} (I P : FS → Prop) (m : IO A) (Q : A → FS → Prop) (E : FS → Prop) : Prop :=
  ∀ fs, P fs →
    Forall I (visited (m fs))
    ∧ match returned (m fs) with Ok a => Q a (final (m fs)) | Err _ => E (final (m fs)) end.

(** A call's result and the file system it leaves; rewriting with the equations
    below executes a sequence of calls. *)
Definition exec {A : Type} (m : IO A) (fs : FS) : result A string * FS := (returned (m fs), final (m fs)).

Lemma exec_bind {A B : Type} (m : IO A) (k : A → IO B) fs :
  exec (bind m k) fs = match exec m fs with (Ok a, fs') => exec (k a) fs' | (Err e, fs') => (Err e, fs') end.
Proof. unfold exec, bind. by destruct (returned (m fs)). Qed.
Lemma exec_catch {A : Type} (m : IO A) fs : exec (catch m) fs = (Ok (fst (exec m fs)), snd (exec m fs)).
Proof. done. Qed.
Lemma exec_call {A : Type} (g : FS → FS * result A string) fs : exec (call g) fs = (snd (g fs), fst (g fs)).
Proof. unfold exec, call. by destruct (g fs). Qed.
Lemma exec_ret {A : Type} (a : A) fs : exec (ret a) fs = (Ok a, fs).
Proof. done. Qed.
Lemma exec_of_result {A : Type} (r : result A string) fs : exec (of_result r) fs = (r, fs).
Proof. done. Qed.

(** After a success the rest runs where it left off. *)
Lemma bind_from {A B : Type} (m : IO A) (k : A → IO B) (fs : FS) (a : A) :
  returned (m fs) = Ok a →
  returned (bind m k fs) = returned (k a (final (m fs))) ∧ final (bind m k fs) = final (k a (final (m fs))).
Proof. intros H. unfold bind. by rewrite H. Qed.

Lemma bind_stops {A B : Type} (m : IO A) (k : A → IO B) (fs : FS) (e : string) :
  returned (m fs) = Err e → returned (bind m k fs) = Err e ∧ final (bind m k fs) = final (m fs).
Proof. intros H. unfold bind. by rewrite H. Qed.

(** [H : returned (m fs) = _] runs the first call of the goal. *)
Ltac run_first H :=
  match goal with
  | |- context [bind ?m ?k ?fs] =>
      first [destruct (bind_from m k fs _ H) as [-> ->] | destruct (bind_stops m k fs _ H) as [-> ->]]
  end; cbn beta iota.

Section rules.
Context {I : FS → Prop}.

Lemma triple_result {A : Type} (r : result A string) (P : FS → Prop) (Q : A → FS → Prop) (E : FS → Prop) :
  (∀ fs, P fs → match r with Ok a => Q a fs | Err _ => E fs end) → triple I P (of_result r) Q E.
Proof. intros H fs HP. split; [constructor|]. by apply H. Qed.

Lemma triple_ret {A : Type} (a : A) (P : FS → Prop) (Q : A → FS → Prop) (E : FS → Prop) :
  (∀ fs, P fs → Q a fs) → triple I P (ret a) Q E.
Proof. intros H. by apply triple_result. Qed.

Lemma triple_bind {A B : Type} (m : IO A) (k : A → IO B) (P : FS → Prop) (R : A → FS → Prop)
    (Q : B → FS → Prop) (E : FS → Prop) :
  triple I P m R E → (∀ a, triple I (R a) (k a) Q E) → triple I P (bind m k) Q E.
Proof.
  intros Hm Hk fs HP. destruct (Hm fs HP) as [Hv Hr]. unfold bind.
  destruct (returned (m fs)) as [a|e]; simpl; [|done].
  destruct (Hk a _ Hr) as [Hv' Hr']. split; [|done]. by apply Forall_app.
Qed.

Lemma triple_bind_Ok {A B : Type} (a : A) (k : A → IO B) (P : FS → Prop) (Q : B → FS → Prop) (E : FS → Prop) :
  triple I P (k a) Q E → triple I P (bind (of_result (Ok a)) k) Q E.
Proof. exact id. Qed.

Lemma triple_call {A : Type} (g : FS → FS * result A string) (P : FS → Prop) (Q : A → FS → Prop) (E : FS → Prop) :
  (∀ fs, P fs → I (fst (g fs)) ∧ match snd (g fs) with Ok a => Q a (fst (g fs)) | Err _ => E (fst (g fs)) end) →
  triple I P (call g) Q E.
Proof.
  intros H fs HP. specialize (H fs HP). unfold call. destruct (g fs) as [fs' r]; simpl in *.
  destruct H as [HI Hr]. split; [by constructor|done].
Qed.

Lemma triple_attempt {A : Type} (f : Faults) (site : Site) (prefix : string)
    (ok : FS → bool) (effect : FS → FS) (value : A) (P : FS → Prop) (Q : A → FS → Prop) (E : FS → Prop) :
  (∀ fs, P fs → I fs ∧ E fs) →
  (∀ fs, P fs → ok fs = true → I (effect fs) ∧ Q value (effect fs)) →
  triple I P (attempt f site prefix ok effect value) Q E.
Proof.
  intros Hno Hyes. apply triple_call. intros fs HP.
  destruct (_ && _) eqn:Eok; simpl; [|by apply Hno].
  apply andb_true_iff in Eok as [_ Eok]. by apply Hyes.
Qed.

Lemma triple_or_cleanup {A : Type} (m : IO A) (c : IO unit) (P : FS → Prop) (Q : A → FS → Prop) (E E' : FS → Prop) :
  triple I P m Q E' → triple I E' c (λ _, E) E → triple I P (or_cleanup m c) Q E.
Proof.
  intros Hm Hc fs HP. destruct (Hm fs HP) as [Hv Hr]. unfold or_cleanup.
  destruct (returned (m fs)) as [a|e] eqn:Er; simpl; [by rewrite Er|].
  destruct (Hc _ Hr) as [Hv' Hr']. split; [by apply Forall_app|].
  by destruct (returned (c _)).
Qed.

Lemma triple_catch {A : Type} (m : IO A) (P : FS → Prop) (Q : result A string → FS → Prop) (E : FS → Prop) :
  triple I P m (λ a, Q (Ok a)) (λ fs, ∀ e, Q (Err e) fs) → triple I P (catch m) Q E.
Proof.
  intros Hm fs HP. destruct (Hm fs HP) as [Hv Hr]. split; [done|]. simpl. by destruct (returned (m fs)).
Qed.

(** Pure facts about a bound value move into the context. *)
Lemma triple_pure {A : Type} (R : Prop) (P : FS → Prop) (m : IO A) (Q : A → FS → Prop) (E : FS → Prop) :
  (R → triple I P m Q E) → triple I (λ fs, R ∧ P fs) m Q E.
Proof. intros Hm fs [HR HP]. by apply Hm. Qed.

Lemma triple_weaken {A : Type} (m : IO A) (P P' : FS → Prop) (Q Q' : A → FS → Prop) (E E' : FS → Prop) :
  triple I P' m Q' E' → (∀ fs, P fs → P' fs) → (∀ a fs, Q' a fs → Q a fs) → (∀ fs, E' fs → E fs) →
  triple I P m Q E.
Proof.
  intros H HP HQ HE fs Hfs. destruct (H fs (HP fs Hfs)) as [Hv Hr]. split; [done|].
  destruct (returned (m fs)); auto.
Qed.
End rules.

Lemma parent_path_join (p : Path) (n : string) : parent (path_join p n) = Some p.
Proof.
  destruct p as [a l]. unfold parent, path_join. simpl. rewrite removelast_last. by destruct l.
Qed.

(** Bind a call that keeps [P] whatever it returns. *)
Ltac bind_keeping P := eapply triple_bind with (R := λ _, P).

(** Calls that only look ([auto with io]). *)
Create HintDb io.
#[export] Hint Resolve triple_ret triple_result : io.

(** [create_dir_all] of an ancestor touches no path longer than it. *)
Lemma ancestors_shorter (p q : Path) : q ∈ ancestors p → (length (snd q) ≤ length (snd p))%nat.
Proof.
  unfold ancestors. intros (k & -> & _)%list_elem_of_fmap. simpl. rewrite length_take. lia.
Qed.

Lemma make_dirs_lookup (ps : list Path) (fs : FS) (p : Path) :
  p ∉ ps → fst (make_dirs ps fs) !! p = fs !! p.
Proof.
  revert fs. induction ps as [|q ps IH]; intros fs; simpl; [done|].
  rewrite not_elem_of_cons. intros [Hne Hni].
  destruct (is_dir fs q); [by apply IH|]. destruct (fs !! q); [done|].
  rewrite (IH _ Hni). by rewrite lookup_insert_ne.
Qed.

Lemma parent_ancestors (p q : Path) : parent p = Some q → p ∉ ancestors q.
Proof.
  unfold parent. destruct p as [a [|x l]]; [done|]. intros [= <-] Hin%ancestors_shorter.
  cbn [snd] in Hin. revert Hin. generalize x. clear x.
  induction l as [|y l IH]; intros x; simpl; [lia|]. specialize (IH y). simpl in *. lia.
Qed.

Lemma create_dir_all_other {I : FS → Prop} (f : Faults) (prefix : string) (p q : Path) (node : option Node) :
  p ∉ ancestors q → (∀ fs : FS, fs !! p = node → I fs) →
  triple I (λ fs, fs !! p = node) (create_dir_all f prefix q) (λ _ fs, fs !! p = node) (λ fs, fs !! p = node).
Proof.
  intros Hni HI. apply triple_call. intros fs Hfs.
  assert (Hkeep : ∀ ps, ps `sublist_of` ancestors q → fst (make_dirs ps fs) !! p = node).
  { intros ps Hps. rewrite make_dirs_lookup; [done|]. intros Hp. apply Hni. by eapply elem_of_sublist. }
  destruct (fails f CreateDirs); simpl.
  - split; [apply HI|]; by apply Hkeep, sublist_take.
  - specialize (Hkeep (ancestors q) (reflexivity _)).
    destruct (make_dirs (ancestors q) fs) as [fs' made]; simpl in *.
    split; [by apply HI|by destruct made].
Qed.

(** ** Free names *)

(** The first index below [n] that is not taken. *)
Lemma first_free (taken : nat → bool) (n : nat) :
  (∃ k, (k < n)%nat ∧ taken k = false ∧ ∀ j, (j < k)%nat → taken j = true) ∨ (∀ j, (j < n)%nat → taken j = true).
Proof.
  induction n as [|n [IH|IH]]; [right; lia|left; destruct IH as (k & ? & ?); exists k; auto|].
  destruct (taken n) eqn:E; [right|left; exists n; auto].
  intros j Hj. destruct (decide (j = n)) as [->|]; [done|]. apply IH. lia.
Qed.

(** Of one name more than there are entries, one is free. *)
Lemma free_name (fs : FS) (name : nat → Path) :
  (∀ i j, (i ≤ size fs)%nat → (j ≤ size fs)%nat → name i = name j → i = j) →
  ∃ k, (k ≤ size fs)%nat ∧ fs !! name k = None ∧ ∀ j, (j < k)%nat → is_Some (fs !! name j).
Proof.
  intros Hinj.
  destruct (first_free (λ k, bool_decide (is_Some (fs !! name k))) (S (size fs))) as [(k & Hk & Hfree & Hj)|Hall].
  - exists k. apply bool_decide_eq_false in Hfree. split_and!; [lia|by apply eq_None_not_Some|].
    intros j Hlt. specialize (Hj j Hlt). by apply bool_decide_eq_true in Hj.
  - exfalso. set (names := name <$> seq 0 (S (size fs))).
    assert (Hnd : NoDup names).
    { apply NoDup_fmap_2_strong; [|apply NoDup_seq]. intros i j [_ Hi]%elem_of_seq [_ Hj]%elem_of_seq Heq.
      apply Hinj; [lia..|done]. }
    assert (Hsub : list_to_set names ⊆ (dom fs : gset Path)).
    { intros p. rewrite elem_of_list_to_set. unfold names. intros (j & -> & Hj)%list_elem_of_fmap.
      apply elem_of_seq in Hj. apply elem_of_dom. specialize (Hall j ltac:(lia)). by apply bool_decide_eq_true in Hall. }
    apply subseteq_size in Hsub. rewrite size_dom, size_list_to_set in Hsub by done.
    unfold names in Hsub. rewrite length_fmap, length_seq in Hsub. lia.
Qed.
