(* ===== verification/StateOp.v ===== *)
(** * Operations on a state that may fail

    Rust's [&mut self] methods that return a [Result]: a state passes through
    every operation, on failure too, and an early return skips the rest. *)
From S2P Require Import Prelude.

(** ** Operations *)

Definition StateOp (W A : Type) : Type := W → W * result A string.

Definition op_result {W A : Type} (r : result A string) : StateOp W A := λ w, (w, r).
Definition op_ret {W A : Type} (a : A) : StateOp W A := op_result (Ok a).
Definition op_fail {W A : Type} (e : string) : StateOp W A := op_result (Err e).
Definition op_bind {W A B : Type} (m : StateOp W A) (k : A → StateOp W B) : StateOp W B :=
  λ w, let (w', r) := m w in match r with Ok a => k a w' | Err e => (w', Err e) end.
(** Reading the state, and changing it. *)
Definition op_get {W A : Type} (g : W → A) : StateOp W A := λ w, (w, Ok (g w)).
Definition op_modify {W : Type} (g : W → W) : StateOp W unit := λ w, (g w, Ok tt).
(** [match m { Ok(a) => .., Err(error) => { recover?; return Err(error) } }]. *)
Definition op_catch {W A : Type} (m : StateOp W A) (recover : StateOp W unit) : StateOp W A :=
  λ w, let (w', r) := m w in
       match r with
       | Ok a => (w', Ok a)
       | Err e => op_bind recover (λ _, op_fail e) w'
       end.

Notation "'do*' x := m 'in' k" := (op_bind m (λ x, k))
  (at level 10, x pattern, m at level 200, k at level 200) : rust_scope.

(** ** Reasoning *)

(** From [P], a success ends in [Q] and a failure in [E]. *)
Definition op_triple {W A : Type} (P : W → Prop) (m : StateOp W A) (Q : A → W → Prop) (E : W → Prop) : Prop :=
  ∀ w, P w → let (w', r) := m w in match r with Ok a => Q a w' | Err _ => E w' end.

Section rules.
Context {W A : Type} (P : W → Prop) (Q : A → W → Prop) (E : W → Prop).

Lemma op_result_rule (r : result A string) :
  (∀ w, P w → match r with Ok a => Q a w | Err _ => E w end) → op_triple P (op_result r) Q E.
Proof. intros H w Hw. exact (H w Hw). Qed.

Lemma op_bind_rule {B : Type} (m : StateOp W B) (k : B → StateOp W A) (R : B → W → Prop) :
  op_triple P m R E → (∀ b, op_triple (R b) (k b) Q E) → op_triple P (op_bind m k) Q E.
Proof.
  intros Hm Hk w Hw. specialize (Hm w Hw). unfold op_bind. destruct (m w) as [w' [b|e]]; [|done].
  exact (Hk b w' Hm).
Qed.

(** Reading the state or its surroundings. *)
Lemma op_get_rule {B : Type} (g : W → B) (k : B → StateOp W A) :
  (∀ w0, P w0 → op_triple (λ w, w = w0 ∧ P w) (k (g w0)) Q E) → op_triple P (op_bind (λ w, (w, Ok (g w))) k) Q E.
Proof. intros Hk w Hw. exact (Hk w Hw w (conj eq_refl Hw)). Qed.

Lemma op_catch_rule (m : StateOp W A) (recover : StateOp W unit) (E' : W → Prop) :
  op_triple P m Q E' → op_triple E' recover (λ _, E) E → op_triple P (op_catch m recover) Q E.
Proof.
  intros Hm Hr w Hw. specialize (Hm w Hw). unfold op_catch. destruct (m w) as [w' [a|e]]; [done|].
  specialize (Hr w' Hm). unfold op_bind. by destruct (recover w') as [w'' [[]|e']].
Qed.

Lemma op_weaken (m : StateOp W A) (P' : W → Prop) (Q' : A → W → Prop) (E' : W → Prop) :
  op_triple P' m Q' E' → (∀ w, P w → P' w) → (∀ a w, Q' a w → Q a w) → (∀ w, E' w → E w) → op_triple P m Q E.
Proof.
  intros Hm HP HQ HE w Hw. specialize (Hm w (HP w Hw)). destruct (m w) as [w' [a|e]]; [by apply HQ|by apply HE].
Qed.
Lemma op_pure_rule (m : StateOp W A) (R : Prop) : (R → op_triple P m Q E) → op_triple (λ w, R ∧ P w) m Q E.
Proof. intros Hm w [HR Hw]. exact (Hm HR w Hw). Qed.
End rules.
