(* ===== verification/D3.v ===== *)
(** * D3 GPU boot diagnosis ([src/detectors/d3.rs])

    The persisted state and its validation, the evaluation of one boot, and the
    baseline operations.  Clock readings are arguments, already rendered by the
    detector's [now]. *)
From Stdlib Require Import Ascii.
From S2P Require Import Prelude Float64 EsModel Contract D3Parse D3Journal D3Redact.

(** ** Data *)

Definition D3_CONTRACT : DetectorContract :=
  {| dc_detector_id := "D3"; dc_rule_version := "d3.1"; dc_error_prefix := "D3" |}.
Definition STATE_SCHEMA_VERSION : Z := 1.

Inductive Platform := Linux | Other.
#[export] Instance Platform_eq_dec : EqDecision Platform.
Proof. solve_decision. Defined.

Record Baseline := {
  learned_boot_id : string;
  learned_at : string;
  b_slot : string;
  b_vendor : string;
  b_device : string;
  b_class : string;
  parent_bridge_chain : list string;
  b_upstream_bridge : option string;
}.

Record PendingFinding := {
  pf_verdict : string;
  observation_boot_id : string;
  observed_at : string;
}.

Record D3State := {
  schema_version : Z;
  baseline : option Baseline;
  pending : option PendingFinding;
}.

Definition empty_state : D3State :=
  {| schema_version := STATE_SCHEMA_VERSION; baseline := None; pending := None |}.
Definition with_pending (s : D3State) (p : option PendingFinding) : D3State :=
  {| schema_version := schema_version s; baseline := baseline s; pending := p |}.

#[export] Instance Baseline_eq_dec : EqDecision Baseline.
Proof. solve_decision. Defined.
#[export] Instance PendingFinding_eq_dec : EqDecision PendingFinding.
Proof. solve_decision. Defined.
#[export] Instance D3State_eq_dec : EqDecision D3State.
Proof. solve_decision. Defined.

Record D3Input := {
  platform : Platform;
  snapshot : PciSnapshot;
  current_boot_id : string;
  boot_inventory : option BootInventory;
  current_journal : option string;
  prior_tail : option string;
  prior_timing_unreliable : bool;
  collection_missing : list string;
  host : option string;
}.

Inductive Operation :=
| Diagnose
| Learn (slot : option string)
| Reset.

Definition identity_matches (b : Baseline) (d : PciDevice) : bool :=
  String.eqb (pd_vendor d) (b_vendor b) && String.eqb (pd_device d) (b_device b)
  && String.eqb (pd_class d) (b_class b).

Definition at_bdf (slot : string) (d : PciDevice) : bool := String.eqb (pd_bdf d) slot.

(** ** Diagnoses *)

(** [diagnosis(...)]: the shared builder; [timestamp] is the clock of [build]. *)
Definition diagnosis (timestamp : string) (disp : Disposition) (verdict : string) (confidence : f64)
    (confidence_basis : string) (evidence : list string) (plain : string) (fixes : list string)
    (falsifier : string) (missing : list string) (alternative : string) (host : option string)
  : result Outcome string :=
  let? d := build timestamp D3_CONTRACT {|
    df_disposition := disp;
    df_verdict := verdict;
    df_confidence := confidence;
    df_confidence_basis := confidence_basis;
    df_evidence := evidence;
    df_plain_language := plain;
    df_suggested_fixes := fixes;
    df_falsifier := falsifier;
    df_supported_scope := ["Explicit PCI slot baseline, authoritative PCI snapshot, and paired Linux boot evidence only."];
    df_missing_evidence := missing;
    df_nearest_alternative := alternative;
    df_host := host |} in
  Ok (DiagnosisOutcome d).

(** [success(...)], which expects its constants to satisfy the contract. *)
Definition success (timestamp verdict message : string) (host : option string) : result Outcome string :=
  diagnosis timestamp NonFinding verdict f64_one
    "Requested state operation completed atomically under the D3 sidecar lock."
    [message] message ["No further action is required."]
    "A subsequent state read would falsify this confirmation if it differs."
    [] "No diagnostic inference was made for this state operation." host.

Section d3.
Context `{Unicode} `{Chrono}.

(** ** State validation *)

Definition valid_timestamp (value : string) : bool :=
  match parse_rfc3339 value with Some _ => true | None => false end.

Definition canonical_baseline (b : Baseline) : bool :=
  canonical_boot_id (learned_boot_id b)
  && valid_timestamp (learned_at b)
  && canonical_bdf (b_slot b)
  && canonical_hex_field (b_vendor b) 4
  && canonical_hex_field (b_device b) 4
  && canonical_hex_field (b_class b) 6
  && forallb canonical_bdf (parent_bridge_chain b)
  && is_none_or (b_upstream_bridge b) canonical_bdf.

Definition valid_pending (p : PendingFinding) : bool :=
  String.eqb (pf_verdict p) "bus-absent"
  && canonical_boot_id (observation_boot_id p)
  && valid_timestamp (observed_at p).

Definition validate_state (s : D3State) : result unit string :=
  match baseline s with
  | None =>
      match pending s with
      | Some _ => Err "D3 state corrupt: pending finding has no baseline"
      | None => Ok tt
      end
  | Some b =>
      if negb (canonical_baseline b) then
        Err "D3 state corrupt: baseline contains non-canonical fields"
      else match pending s with
           | Some p =>
               if negb (valid_pending p) then Err "D3 state corrupt: invalid pending finding"
               else Ok tt
           | None => Ok tt
           end
  end.

Definition preflight (input : D3Input) : result unit string :=
  let? current := normalize_boot_id (current_boot_id input) in
  if negb (String.eqb current (ps_boot_id (snapshot input))) then
    Err "boot identity pairing invalid: current boot ID does not match PCI snapshot"
  else match boot_inventory input with
       | Some inventory =>
           if negb (existsb (String.eqb current) (boot_ids inventory)) then
             Err "boot identity pairing invalid: current boot is absent from inventory"
           else Ok tt
       | None => Ok tt
       end.

(** ** Evaluation *)

Definition hardware_changed (timestamp : string) (input : D3Input) (b : Baseline)
    (matching : list PciDevice) : result Outcome string :=
  let detail :=
    if (1 <? length matching)%nat then "expected identity is ambiguous at multiple BDFs"
    else if is_some_and (head matching) (λ d, negb (at_bdf (b_slot b) d)) then
      "expected identity uniquely relocated to another BDF"
    else "a different non-bridge endpoint occupies the expected BDF" in
  diagnosis timestamp Finding "hardware-changed" (f64_lit 95 2)
    "Authoritative PCI identity differs from the learned slot baseline."
    ["PCI identity observation: " +:+ detail;
     "baseline slot: " +:+ b_slot b +:+ " [" +:+ b_vendor b +:+ ":" +:+ b_device b +:+ "]"]
    "The current PCI topology is most consistent with an intentional or physical hardware/topology change, not a GPU power-state latch."
    ["Verify the installed device and re-learn the baseline if this change is intentional."]
    "The expected identity at the learned BDF on a later snapshot would falsify the topology-change interpretation."
    ["Current PCI snapshot only; it does not establish why the topology changed."]
    "A transient enumeration problem remains possible but is less consistent with the observed identity change."
    (host input).

Definition link_corroborated (input : D3Input) (b : Baseline) : bool :=
  is_some_and (current_journal input) (λ journal, link_down_for journal (b_upstream_bridge b)).

Definition bus_absent (timestamp : string) (input : D3Input) (b : Baseline) : result Outcome string :=
  let corroborated := link_corroborated input b in
  let missing :=
    if is_none_or (current_journal input) journal_has_no_entries
    then ["same-boot journal evidence unavailable"] else [] in
  let confidence := if corroborated then f64_lit 95 2 else f64_lit 72 2 in
  let absent := "expected identity [" +:+ b_vendor b +:+ ":" +:+ b_device b
                +:+ "] absent from complete PCI snapshot" in
  let empty := "expected BDF " +:+ b_slot b +:+ " is empty or bridge-class" in
  let evidence :=
    if corroborated then
      [absent; empty;
       "same-boot upstream " +:+ unwrap_or (b_upstream_bridge b) "bridge chain"
       +:+ " reports link-down/empty-slot"]
    else [absent; empty] in
  diagnosis timestamp Finding "bus-absent" confidence
    (if corroborated then "Authoritative absence is corroborated by same-boot upstream link evidence."
     else "Authoritative PCI absence is observed; same-boot link corroboration is unavailable.")
    evidence
    "The observed absence is most consistent with a GPU enumeration failure; the underlying cause remains undetermined without stronger corroboration."
    ["Shut down fully and perform a PSU power-drain before retrying; inspect slot seating if the issue recurs."]
    "The expected GPU identity present at the learned BDF on a fresh boot would falsify the absence finding."
    missing
    "A loose card, failed device, or deliberate hardware removal is an alternative to a power-state latch."
    (host input).

(** The boot the inventory lists before the snapshot's. *)
Definition prior_of (input : D3Input) : option string :=
  let! inventory := boot_inventory input in
  prior_for inventory (ps_boot_id (snapshot input)).

(** The precursor of the paired prior boot, with the sources' own ordering
    defects folded in; [None] when there is no usable pair. *)
Definition paired_precursor (input : D3Input) (b : Baseline) : option (string * Precursor) :=
  match prior_of input, prior_tail input with
  | Some prior_id, Some tail =>
      if journal_has_no_entries tail then None
      else
        let p := precursor tail (b_slot b) in
        let timing_unreliable := pr_timing_unreliable p || prior_timing_unreliable input in
        Some (prior_id,
          {| pr_fires := pr_fires p && negb timing_unreliable;
             pr_smu := pr_smu p; pr_resets := pr_resets p; pr_truncated := pr_truncated p;
             pr_timing_unreliable := timing_unreliable; pr_suppressed := pr_suppressed p |})
  | _, _ => None
  end.

Definition precursor_missing (p : option (string * Precursor)) : list string :=
  match p with
  | None => []
  | Some (_, p) =>
      (if pr_timing_unreliable p then
         ["prior boot timestamps are non-monotonic in the evaluated window; timing evidence is unreliable"]
       else [])
      ++ (if pr_suppressed p then
            ["prior boot journal contains printk suppressed-record markers; precursor confidence is degraded"]
          else [])
  end.

Definition precursor_warning (timestamp : string) (input : D3Input) (b : Baseline)
    (prior_id : string) (p : Precursor) (missing : list string) : result Outcome string :=
  let missing := missing ++
    (if pr_truncated p then ["prior boot tail appears truncated; shutdown completion is unavailable"]
     else []) in
  let confidence := if pr_truncated p || pr_suppressed p then f64_lit 76 2 else f64_lit 88 2 in
  diagnosis timestamp Finding "precursor-warning" confidence
    "AMD/amdgpu d3.1 compound precursor thresholds were met on the baseline BDF in the trailing 900-second window."
    ["prior boot: " +:+ prior_id;
     "baseline BDF " +:+ b_slot b +:+ ": SMU-unresponsive=" +:+ show (pr_smu p) +:+ " (minimum "
     +:+ show SMU_UNRESPONSIVE_MIN +:+ "), reset-attempts=" +:+ show (pr_resets p) +:+ " (minimum "
     +:+ show RESET_ATTEMPT_MIN +:+ ")"]
    "The prior boot evidence is most consistent with an AMD GPU reset/SMU precursor; it does not establish a later boot failure."
    ["Avoid a warm reboot if the GPU becomes unavailable; capture journal evidence and use a full power drain if needed."]
    "A later complete prior-boot journal with recovery after every reset would falsify the terminal-failure condition."
    missing
    "A driver-only recovery event without a power-state latch remains the nearest alternative."
    (host input).

Definition recovered (timestamp : string) (input : D3Input) (p : PendingFinding) : result Outcome string :=
  diagnosis timestamp NonFinding "recovered" (f64_lit 9 1)
    "The learned GPU identity is present and a pending bus-absence was recorded on an earlier boot."
    ["current boot: " +:+ ps_boot_id (snapshot input);
     "consumed pending " +:+ pf_verdict p +:+ " from boot " +:+ observation_boot_id p]
    "The GPU is present now; this is most consistent with recovery from the earlier observed enumeration absence."
    ["Keep the baseline and retain future journal evidence if the symptom returns."]
    "A repeated absence at the learned BDF would falsify the recovery observation."
    [] "The earlier fault may have been transient rather than a power-state latch." (host input).

(** Is the prior tail missing or empty? *)
Definition tail_unavailable (input : D3Input) : bool :=
  is_none_or (prior_tail input) journal_has_no_entries.

Definition history_unavailable (timestamp : string) (input : D3Input) (b : Baseline) : result Outcome string :=
  let missing := "usable paired prior Linux boot history unavailable"
    :: (if tail_unavailable input then ["prior boot journal tail unavailable"] else []) in
  diagnosis timestamp NonFinding "history-unavailable" (f64_lit 8 1)
    "The learned GPU identity is present, but prior-boot precursor history is unavailable."
    ["baseline identity present at " +:+ b_slot b]
    "The GPU is present; D3 cannot make a prior-boot precursor claim because history is unavailable."
    ["Retain journal history across boots for precursor analysis."]
    "A paired prior boot journal would permit precursor analysis."
    missing "A precursor could have occurred but cannot be assessed from the available history."
    (host input).

Definition all_ok (timestamp : string) (input : D3Input) (b : Baseline) (missing : list string)
  : result Outcome string :=
  diagnosis timestamp NonFinding "ok" (if is_nil missing then f64_lit 92 2 else f64_lit 76 2)
    "The learned GPU identity is present and no d3.1 precursor matched on the paired prior boot."
    ["baseline identity present at " +:+ b_slot b]
    "The available evidence is most consistent with normal GPU enumeration for this boot."
    ["No corrective action is indicated; retain journal history for future comparisons."]
    "An authoritative future snapshot with the identity absent would falsify this observation."
    missing "A failure outside the collected evidence window remains possible." (host input).

Definition baseline_required (timestamp : string) (input : D3Input) : result Outcome string :=
  diagnosis timestamp NonFinding "baseline-required" f64_one
    "No explicit D3 baseline has been learned."
    ["authoritative PCI snapshot parsed"]
    "An explicit GPU slot baseline is required before D3 can compare boot enumeration."
    ["Re-run with an explicit slot using the learn-baseline operation."]
    "A learned baseline with a healthy matching GPU would falsify this setup-only result."
    [] "No hardware condition has been assessed." (host input).

(** The present device without a precursor: recovery, missing history or [ok]. *)
Definition healthy_verdict (timestamp : string) (input : D3Input) (state : D3State) (b : Baseline)
  : result Outcome string * D3State :=
  let present :=
    if is_none_or (prior_of input) (λ _, false) || tail_unavailable input
    then (history_unavailable timestamp input b, state)
    else (all_ok timestamp input b (precursor_missing (paired_precursor input b)), state) in
  match pending state with
  | Some p =>
      if negb (String.eqb (observation_boot_id p) (ps_boot_id (snapshot input))) then
        (recovered timestamp input p, with_pending state None)
      else present
  | None => present
  end.

(** [evaluate]: the outcome and the state it leaves; [seen_at] is the clock of
    a recorded absence, [timestamp] that of the diagnosis. *)
Definition evaluate (seen_at timestamp : string) (input : D3Input) (state : D3State)
  : result Outcome string * D3State :=
  match baseline state with
  | None => (baseline_required timestamp input, state)
  | Some b =>
      let devices := ps_devices (snapshot input) in
      let matching := List.filter (identity_matches b) devices in
      let at_slot := List.find (at_bdf (b_slot b)) devices in
      if (1 <? length matching)%nat
         || is_some_and (head matching) (λ d, negb (at_bdf (b_slot b) d))
         || (is_nil matching && is_some_and at_slot (λ d, negb (is_bridge d))) then
        (hardware_changed timestamp input b matching, with_pending state None)
      else if is_nil matching && is_none_or at_slot is_bridge then
        (bus_absent timestamp input b,
         with_pending state (Some {| pf_verdict := "bus-absent";
                                     observation_boot_id := ps_boot_id (snapshot input);
                                     observed_at := seen_at |}))
      else
        match paired_precursor input b with
        | Some (prior_id, p) =>
            if pr_fires p then
              (precursor_warning timestamp input b prior_id p
                 (precursor_missing (paired_precursor input b)), state)
            else healthy_verdict timestamp input state b
        | None => healthy_verdict timestamp input state b
        end
  end.

(** ** Operations on the state *)

Definition baseline_from (learned_at : string) (d : PciDevice) (boot_id : string) : Baseline :=
  {| learned_boot_id := boot_id;
     learned_at := learned_at;
     b_slot := pd_bdf d;
     b_vendor := pd_vendor d;
     b_device := pd_device d;
     b_class := pd_class d;
     parent_bridge_chain := removelast (to_ascii_lowercase <$> bdf_chain (pd_parent_path d));
     b_upstream_bridge := pd_upstream_bridge d |}.

Definition same_identity (d candidate : PciDevice) : bool :=
  String.eqb (pd_vendor candidate) (pd_vendor d) && String.eqb (pd_device candidate) (pd_device d)
  && String.eqb (pd_class candidate) (pd_class d).

(** The [Reset] arm, before its save. *)
Definition reset_state (s : D3State) : D3State :=
  {| schema_version := schema_version s; baseline := None; pending := None |}.

(** The [Learn] arm, before its save: the device and the state to be stored. *)
Definition learn_state (learned_at : string) (input : D3Input) (slot : option string) (s : D3State)
  : result (PciDevice * D3State) string :=
  if is_some_and (baseline s) (λ _, true) then
    Err "learn refused: an existing baseline must be reset before learning"
  else
    let? slot := ok_or slot "learn refused: explicit --slot is required" in
    let slot := to_ascii_lowercase slot in
    let? d := ok_or (List.find (at_bdf slot) (ps_devices (snapshot input)))
                "learn refused: slot is not present in authoritative PCI snapshot" in
    if (1 <? length (List.filter (same_identity d) (ps_devices (snapshot input))))%nat then
      Err "learn refused: selected identity is ambiguous in the PCI snapshot"
    else
      Ok (d, {| schema_version := schema_version s;
                baseline := Some (baseline_from learned_at d (ps_boot_id (snapshot input)));
                pending := None |}).

(** A healthy baseline together with a same-boot link-down report. *)
Definition contradicts (input : D3Input) (s : D3State) : bool :=
  is_some_and (baseline s) (λ b,
    existsb (λ d, at_bdf (b_slot b) d && identity_matches b d) (ps_devices (snapshot input))
    && link_corroborated input b).

(** [missing_evidence.extend]. *)
Definition extend_missing (extra : list string) (o : Outcome) : Outcome :=
  match o with
  | DiagnosisOutcome d =>
      DiagnosisOutcome {|
        d_timestamp := d_timestamp d; d_detector_id := d_detector_id d;
        d_rule_version := d_rule_version d; d_verdict := d_verdict d;
        d_confidence := d_confidence d; d_confidence_basis := d_confidence_basis d;
        d_evidence := d_evidence d; d_plain_language := d_plain_language d;
        d_suggested_fixes := d_suggested_fixes d; d_falsifier := d_falsifier d;
        d_host := d_host d; d_supported_scope := d_supported_scope d;
        d_missing_evidence := d_missing_evidence d ++ extra;
        d_nearest_alternative := d_nearest_alternative d; d_disposition := d_disposition d |}
  | NotApplicableOutcome n => NotApplicableOutcome n
  end.

(** ** The judgement a run must reach *)

(** What the snapshot shows of the learned device. *)
Inductive Topology := Changed | Absent | Healthy.

Definition shown (input : D3Input) (b : Baseline) (d : PciDevice) : Prop :=
  d ∈ ps_devices (snapshot input) ∧ identity_matches b d = true.

Definition sees (input : D3Input) (b : Baseline) (t : Topology) : Prop :=
  match t with
  | Changed =>
      (∃ d, shown input b d ∧ pd_bdf d ≠ b_slot b)
      ∨ (∀ d, ¬ shown input b d)
        ∧ ∃ d, d ∈ ps_devices (snapshot input) ∧ pd_bdf d = b_slot b ∧ is_bridge d = false
  | Absent =>
      (∀ d, ¬ shown input b d)
      ∧ ∀ d, d ∈ ps_devices (snapshot input) → pd_bdf d = b_slot b → is_bridge d = true
  | Healthy =>
      (∃ d, shown input b d) ∧ ∀ d, shown input b d → pd_bdf d = b_slot b
  end.

Definition fires (input : D3Input) (b : Baseline) : Prop :=
  ∃ id p, paired_precursor input b = Some (id, p) ∧ pr_fires p = true.
Definition old_pending (input : D3Input) (s : D3State) : Prop :=
  ∃ p, pending s = Some p ∧ observation_boot_id p ≠ ps_boot_id (snapshot input).

(** Verdict, disposition and pending finding left behind, in order of
    precedence. *)
Inductive judged (seen_at : string) (input : D3Input) (s : D3State)
  : string → Disposition → option PendingFinding → Prop :=
| judged_no_baseline :
    baseline s = None →
    judged seen_at input s "baseline-required" NonFinding (pending s)
| judged_changed b :
    baseline s = Some b → sees input b Changed →
    judged seen_at input s "hardware-changed" Finding None
| judged_absent b :
    baseline s = Some b → sees input b Absent →
    judged seen_at input s "bus-absent" Finding
      (Some {| pf_verdict := "bus-absent"; observation_boot_id := ps_boot_id (snapshot input);
               observed_at := seen_at |})
| judged_precursor b :
    baseline s = Some b → sees input b Healthy → fires input b →
    judged seen_at input s "precursor-warning" Finding (pending s)
| judged_recovered b :
    baseline s = Some b → sees input b Healthy → ¬ fires input b → old_pending input s →
    judged seen_at input s "recovered" NonFinding None
| judged_history b :
    baseline s = Some b → sees input b Healthy → ¬ fires input b → ¬ old_pending input s →
    (prior_of input = None ∨ tail_unavailable input = true) →
    judged seen_at input s "history-unavailable" NonFinding (pending s)
| judged_ok b :
    baseline s = Some b → sees input b Healthy → ¬ fires input b → ¬ old_pending input s →
    is_Some (prior_of input) → tail_unavailable input = false →
    judged seen_at input s "ok" NonFinding (pending s).

Lemma sees_functional input b t t' : sees input b t → sees input b t' → t = t'.
Proof.
  destruct t, t'; simpl; try done.
  - intros [(d & Hd & _)|[_ (d & Hd & Hs & Hb)]] [Hn Hbr]; [by destruct (Hn d)|].
    rewrite Hbr in Hb; done.
  - intros [(d & Hd & Hs)|[Hn _]] [[d' Hd'] Hall]; [by destruct Hs; apply Hall|by destruct (Hn d')].
  - intros [Hn Hbr] [(d & Hd & _)|[_ (d & Hd & Hs & Hb)]]; [by destruct (Hn d)|].
    rewrite Hbr in Hb; done.
  - intros [Hn _] [[d Hd] _]. by destruct (Hn d).
  - intros [[d' Hd'] Hall] [(d & Hd & Hs)|[Hn _]]; [by destruct Hs; apply Hall|by destruct (Hn d')].
  - intros [[d Hd] _] [Hn _]. by destruct (Hn d).
Qed.

(** At most one judgement applies. *)
Lemma judged_functional seen_at input s v d p v' d' p' :
  judged seen_at input s v d p → judged seen_at input s v' d' p' → v = v' ∧ d = d' ∧ p = p'.
Proof.
  destruct 1; inversion 1; subst; simplify_eq; try done;
    repeat match goal with
    | H : sees ?i ?b ?t, H' : sees ?i ?b ?t' |- _ =>
        pose proof (sees_functional _ _ _ _ H H'); clear H'; simplify_eq
    end; try done; destruct_or?; try congruence;
    match goal with H : is_Some ?x, H' : ?x = None |- _ => rewrite H' in H; by destruct H end.
Qed.

(** ** Every diagnosis meets the contract *)

Definition issues (ts v : string) (disp : Disposition) (r : result Outcome string) : Prop :=
  ∃ d, r = Ok (DiagnosisOutcome d) ∧ well_formed d ∧ d_verdict d = v ∧ d_disposition d = disp
    ∧ d_timestamp d = ts ∧ d_detector_id d = "D3" ∧ d_rule_version d = "d3.1".

Lemma diagnosis_issues ts disp v conf basis evidence plain fixes falsifier missing alt host :
  f64_in f64_zero f64_one conf = true →
  is_nil evidence = false → is_empty plain = false → is_empty falsifier = false →
  is_empty basis = false → is_empty alt = false → (disp = Finding → fixes ≠ []) →
  issues ts v disp (diagnosis ts disp v conf basis evidence plain fixes falsifier missing alt host).
Proof.
  intros Hc He Hp Hf Hb Ha Hx. unfold diagnosis, build. set (d := {| d_timestamp := ts |}).
  assert (Hw : well_formed d).
  { split; try done; try (by apply is_nil_false); by apply is_empty_false. }
  rewrite (proj2 (validate_Ok d D3_CONTRACT) Hw). by exists d.
Qed.

Ltac issue := apply diagnosis_issues; [by vm_compute|done..].

Lemma hardware_changed_issues ts input b m :
  issues ts "hardware-changed" Finding (hardware_changed ts input b m).
Proof. issue. Qed.
Lemma bus_absent_issues ts input b : issues ts "bus-absent" Finding (bus_absent ts input b).
Proof. unfold bus_absent. destruct (link_corroborated input b); issue. Qed.
Lemma precursor_warning_issues ts input b id p m :
  issues ts "precursor-warning" Finding (precursor_warning ts input b id p m).
Proof. unfold precursor_warning. destruct (pr_truncated p || pr_suppressed p); issue. Qed.
Lemma recovered_issues ts input p : issues ts "recovered" NonFinding (recovered ts input p).
Proof. issue. Qed.
Lemma history_unavailable_issues ts input b :
  issues ts "history-unavailable" NonFinding (history_unavailable ts input b).
Proof. issue. Qed.
Lemma all_ok_issues ts input b m : issues ts "ok" NonFinding (all_ok ts input b m).
Proof. unfold all_ok. destruct (is_nil m); issue. Qed.
Lemma baseline_required_issues ts input :
  issues ts "baseline-required" NonFinding (baseline_required ts input).
Proof. issue. Qed.
Lemma success_issues ts v message host :
  is_empty message = false → issues ts v NonFinding (success ts v message host).
Proof. intros Hm. apply diagnosis_issues; [by vm_compute|done..]. Qed.

(** ** The topology tests decide [sees] *)

Lemma filter_nil_iff {A} (f : A → bool) l : is_nil (List.filter f l) = true ↔ ∀ x, x ∈ l → f x = false.
Proof.
  induction l as [|x l IH]; simpl; [split; [intros _ y Hy; by apply elem_of_nil in Hy|done]|].
  destruct (f x) eqn:E.
  - split; [done|]. intros Hall. rewrite Hall in E; [done|left].
  - rewrite IH. split; [intros Hall y [->|Hy]%elem_of_cons; [done|by apply Hall]|].
    intros Hall y Hy. apply Hall. by right.
Qed.

Lemma shown_filter input b d :
  shown input b d ↔ d ∈ List.filter (identity_matches b) (ps_devices (snapshot input)).
Proof. unfold shown. by rewrite !list_elem_of_In, List.filter_In. Qed.

Lemma not_shown input b :
  is_nil (List.filter (identity_matches b) (ps_devices (snapshot input))) = true ↔ ∀ d, ¬ shown input b d.
Proof.
  rewrite filter_nil_iff. split; [intros Hall d [Hd Hi]; by rewrite Hall in Hi|].
  intros Hn d Hd. destruct (identity_matches b d) eqn:E; [by destruct (Hn d)|done].
Qed.

Lemma at_bdf_true slot d : at_bdf slot d = true ↔ pd_bdf d = slot.
Proof. apply String.eqb_eq. Qed.

(** With distinct BDFs, at most one device sits at a slot. *)
Lemma at_slot_unique input slot d d' :
  NoDup (pd_bdf <$> ps_devices (snapshot input)) →
  d ∈ ps_devices (snapshot input) → d' ∈ ps_devices (snapshot input) →
  pd_bdf d = slot → pd_bdf d' = slot → d = d'.
Proof.
  intros Hnd [i Hi]%list_elem_of_lookup [j Hj]%list_elem_of_lookup Hs Hs'.
  assert (i = j).
  { eapply NoDup_lookup; [exact Hnd|by rewrite list_lookup_fmap, Hi|rewrite list_lookup_fmap, Hj].
    simpl. by rewrite Hs, Hs'. }
  congruence.
Qed.

Lemma find_at_slot input slot :
  NoDup (pd_bdf <$> ps_devices (snapshot input)) →
  match List.find (at_bdf slot) (ps_devices (snapshot input)) with
  | Some d => d ∈ ps_devices (snapshot input) ∧ pd_bdf d = slot
              ∧ ∀ d', d' ∈ ps_devices (snapshot input) → pd_bdf d' = slot → d' = d
  | None => ∀ d, d ∈ ps_devices (snapshot input) → pd_bdf d ≠ slot
  end.
Proof.
  intros Hnd. destruct (List.find _ _) as [d|] eqn:E.
  - apply List.find_some in E as [Hd%list_elem_of_In Hs%at_bdf_true]. split_and!; [done..|].
    intros d' Hd' Hs'. by eapply at_slot_unique.
  - intros d Hd Hs%at_bdf_true. apply list_elem_of_In in Hd.
    by rewrite (List.find_none _ _ E d Hd) in Hs.
Qed.

Definition topology (input : D3Input) (b : Baseline) : Topology :=
  let devices := ps_devices (snapshot input) in
  let matching := List.filter (identity_matches b) devices in
  let at_slot := List.find (at_bdf (b_slot b)) devices in
  if (1 <? length matching)%nat
     || is_some_and (head matching) (λ d, negb (at_bdf (b_slot b) d))
     || (is_nil matching && is_some_and at_slot (λ d, negb (is_bridge d))) then Changed
  else if is_nil matching && is_none_or at_slot is_bridge then Absent
  else Healthy.

Lemma topology_sees input b :
  NoDup (pd_bdf <$> ps_devices (snapshot input)) → sees input b (topology input b).
Proof.
  intros Hnd. pose proof (find_at_slot input (b_slot b) Hnd) as Hfind.
  pose proof (shown_filter input b) as Hshown. pose proof (not_shown input b) as Hnone.
  assert (Hsub : NoDup (List.filter (identity_matches b) (ps_devices (snapshot input)))).
  { eapply sublist_NoDup; [by eapply NoDup_fmap_1|]. clear.
    induction (ps_devices _) as [|d l IH]; simpl; [constructor|].
    destruct (identity_matches b d); by constructor. }
  unfold topology. set (at_slot := List.find _ _) in *. set (m := List.filter _ _) in *. clearbody m.
  destruct m as [|d [|d' m]]; cbn [length head is_nil is_some_and andb orb Nat.ltb Nat.leb].
  - assert (Hn : ∀ d, ¬ shown input b d) by (by apply Hnone).
    destruct at_slot as [d|]; simpl.
    + destruct Hfind as (Hd & Hs & Hu). destruct (is_bridge d) eqn:E; simpl.
      * split; [done|]. intros d' Hd' Hs'. by rewrite (Hu d').
      * right. split; [done|]. by exists d.
    + split; [done|]. intros d' Hd' Hs'. by destruct (Hfind d').
  - assert (Hd : shown input b d) by (apply Hshown; left).
    destruct (at_bdf (b_slot b) d) eqn:E; simpl.
    + split; [by exists d|]. intros d' Hd'%Hshown. apply list_elem_of_singleton in Hd' as ->.
      by apply at_bdf_true.
    + left. exists d. split; [done|]. intros Hs%at_bdf_true. congruence.
  - left. assert (Hd : shown input b d) by (apply Hshown; left).
    assert (Hd' : shown input b d') by (apply Hshown; right; left).
    destruct (decide (pd_bdf d = b_slot b)) as [Hs|]; [|by exists d].
    exists d'. split; [done|]. intros Hs'. apply NoDup_cons in Hsub as [Hni _]. destruct Hni.
    rewrite (at_slot_unique input (b_slot b) d d' Hnd (proj1 Hd) (proj1 Hd') Hs Hs'). left.
Qed.

Lemma evaluate_cases seen_at ts input s b :
  baseline s = Some b →
  evaluate seen_at ts input s =
  match topology input b with
  | Changed =>
      (hardware_changed ts input b (List.filter (identity_matches b) (ps_devices (snapshot input))),
       with_pending s None)
  | Absent =>
      (bus_absent ts input b,
       with_pending s (Some {| pf_verdict := "bus-absent";
                               observation_boot_id := ps_boot_id (snapshot input);
                               observed_at := seen_at |}))
  | Healthy =>
      match paired_precursor input b with
      | Some (id, p) =>
          if pr_fires p then
            (precursor_warning ts input b id p (precursor_missing (paired_precursor input b)), s)
          else healthy_verdict ts input s b
      | None => healthy_verdict ts input s b
      end
  end.
Proof.
  intros Hb. unfold evaluate, topology, healthy_verdict. rewrite Hb.
  repeat (case_match; try done).
Qed.

Lemma fires_iff input b :
  fires input b ↔ match paired_precursor input b with Some (_, p) => pr_fires p = true | None => False end.
Proof. unfold fires. destruct (paired_precursor input b) as [[id p]|]; naive_solver. Qed.

Lemma old_pending_iff input s :
  old_pending input s ↔
  match pending s with
  | Some p => String.eqb (observation_boot_id p) (ps_boot_id (snapshot input)) = false
  | None => False
  end.
Proof.
  unfold old_pending. destruct (pending s) as [p|]; [|naive_solver].
  rewrite String.eqb_neq. naive_solver.
Qed.

(** What [evaluate] returns, in one predicate: a well-formed D3 diagnosis with
    this verdict and disposition, and a state differing in its pending finding
    only. *)
Definition reaches (ts : string) (s : D3State) (v : string) (disp : Disposition)
    (p : option PendingFinding) (r : result Outcome string * D3State) : Prop :=
  issues ts v disp (fst r) ∧ snd r = with_pending s p.

Lemma with_own_pending s : with_pending s (pending s) = s.
Proof. by destruct s. Qed.

Lemma healthy_judged seen_at ts input s b :
  baseline s = Some b → sees input b Healthy → ¬ fires input b →
  ∃ v disp p, judged seen_at input s v disp p ∧ reaches ts s v disp p (healthy_verdict ts input s b).
Proof.
  intros Hb Hh Hf. unfold healthy_verdict, reaches. pose proof (old_pending_iff input s) as Ho.
  assert (Hpresent : ¬ old_pending input s →
    ∃ v disp p, judged seen_at input s v disp p ∧
      let r := if is_none_or (prior_of input) (λ _, false) || tail_unavailable input
        then (history_unavailable ts input b, s)
        else (all_ok ts input b (precursor_missing (paired_precursor input b)), s) in
      issues ts v disp (fst r) ∧ snd r = with_pending s p).
  { intros Hn. destruct (_ || _) eqn:E; simpl.
    - do 3 eexists. split; [eapply judged_history; try done|].
      + apply orb_true_iff in E as [E|E]; [left|by right]. by destruct (prior_of input).
      + split; [apply history_unavailable_issues|by rewrite with_own_pending].
    - apply orb_false_iff in E as [E Et]. do 3 eexists. split; [eapply judged_ok; try done|].
      + by destruct (prior_of input).
      + split; [apply all_ok_issues|by rewrite with_own_pending]. }
  destruct (pending s) as [p|] eqn:Ep; [|apply Hpresent; tauto].
  destruct (String.eqb _ _) eqn:E; cbn [negb]; [apply Hpresent; rewrite Ho; intros [=]|].
  do 3 eexists. split; [by eapply judged_recovered; [..|apply Ho]|].
  split; [apply recovered_issues|done].
Qed.

Lemma evaluate_reaches seen_at ts input s :
  NoDup (pd_bdf <$> ps_devices (snapshot input)) →
  ∃ v disp p, judged seen_at input s v disp p ∧ reaches ts s v disp p (evaluate seen_at ts input s).
Proof.
  intros Hnd. destruct (baseline s) as [b|] eqn:Hb.
  - rewrite (evaluate_cases seen_at ts input s b Hb). pose proof (topology_sees input b Hnd) as Hs.
    destruct (topology input b) eqn:Et.
    + do 3 eexists. split; [by eapply judged_changed|]. split; [apply hardware_changed_issues|done].
    + do 3 eexists. split; [by eapply judged_absent|]. split; [apply bus_absent_issues|done].
    + pose proof (fires_iff input b) as Hf.
      destruct (paired_precursor input b) as [[id p]|] eqn:Ep.
      2: { apply healthy_judged; [done..|]. rewrite Hf. naive_solver. }
      destruct (pr_fires p) eqn:Efire.
      2: { apply healthy_judged; [done..|]. rewrite Hf. naive_solver. }
      do 3 eexists. split; [eapply judged_precursor; [done..|by apply Hf]|].
      split; [apply precursor_warning_issues|]. simpl. by rewrite with_own_pending.
  - do 3 eexists. split; [by apply judged_no_baseline|]. unfold evaluate. rewrite Hb.
    split; [apply baseline_required_issues|]. simpl. by rewrite with_own_pending.
Qed.

(** ** The state invariant *)

Definition state_ok (s : D3State) : Prop :=
  match baseline s with
  | None => pending s = None
  | Some b => canonical_baseline b = true ∧ ∀ p, pending s = Some p → valid_pending p = true
  end.

Lemma validate_state_Ok s : validate_state s = Ok tt ↔ state_ok s.
Proof.
  unfold validate_state, state_ok. destruct (baseline s) as [b|]; [|by destruct (pending s)].
  destruct (canonical_baseline b); cbn [negb]; [|split; [done|by intros []]].
  destruct (pending s) as [p|]; [|done]. destruct (valid_pending p) eqn:E; cbn [negb].
  - split; [|done]. split; [done|]. by intros q [= <-].
  - split; [done|]. intros [_ Hp]. specialize (Hp p eq_refl). congruence.
Qed.

(** An input as its parsers deliver it. *)
Definition good_input (input : D3Input) : Prop :=
  Forall canonical_device (ps_devices (snapshot input))
  ∧ NoDup (pd_bdf <$> ps_devices (snapshot input))
  ∧ canonical_boot_id (ps_boot_id (snapshot input)) = true.

Lemma baseline_from_canonical at_ d boot :
  canonical_device d → canonical_boot_id boot = true → valid_timestamp at_ = true →
  canonical_baseline (baseline_from at_ d boot) = true.
Proof.
  intros [Hb Hv Hd Hc Hu] Hboot Hat. unfold canonical_baseline, baseline_from.
  cbn [learned_boot_id learned_at b_slot b_vendor b_device b_class parent_bridge_chain b_upstream_bridge].
  rewrite Hboot, Hat, Hb, Hv, Hd, Hc. cbn [andb]. apply andb_true_iff. split.
  - apply forallb_forall. intros x Hx%list_elem_of_In.
    assert (Hin : x ∈ to_ascii_lowercase <$> bdf_chain (pd_parent_path d)).
    { revert Hx. generalize (to_ascii_lowercase <$> bdf_chain (pd_parent_path d)) as l. clear.
      induction l as [|y [|z l] IH]; simpl; [done|by intros ?%elem_of_nil|].
      intros [->|Hx]%elem_of_cons; [left|right; by apply IH]. }
    apply list_elem_of_fmap in Hin as (y & -> & Hy%list_elem_of_In).
    apply valid_bdf_lower. by apply List.filter_In in Hy as [_ ?].
  - destruct (pd_upstream_bridge d); simpl; [by apply Hu|done].
Qed.

Lemma learn_state_Ok at_ input slot s d s' :
  learn_state at_ input slot s = Ok (d, s') →
  baseline s = None
  ∧ (∃ raw, slot = Some raw ∧ pd_bdf d = to_ascii_lowercase raw)
  ∧ d ∈ ps_devices (snapshot input)
  ∧ (∀ d', d' ∈ ps_devices (snapshot input) → same_identity d d' = true → d' = d)
  ∧ s' = {| schema_version := schema_version s;
            baseline := Some (baseline_from at_ d (ps_boot_id (snapshot input))); pending := None |}.
Proof.
  unfold learn_state. destruct (baseline s); [done|]. cbn [is_some_and].
  destruct slot as [raw|]; [|done]. cbn [ok_or].
  destruct (List.find _ _) as [d0|] eqn:Ef; [|done]. cbn [ok_or].
  destruct (1 <? _)%nat eqn:El; [done|]. intros [= -> <-].
  apply List.find_some in Ef as [Hd%list_elem_of_In Hs%at_bdf_true].
  split_and!; [done|by exists raw|done| |done]. intros d' Hd' Hi.
  assert (Hin : ∀ x, x ∈ ps_devices (snapshot input) → same_identity d x = true →
    x ∈ List.filter (same_identity d) (ps_devices (snapshot input))).
  { intros x Hx Hxi. apply list_elem_of_In, List.filter_In. by split; [apply list_elem_of_In|]. }
  assert (Hself : same_identity d d = true) by (unfold same_identity; by rewrite !String.eqb_refl).
  pose proof (Hin _ Hd Hself) as H1. pose proof (Hin _ Hd' Hi) as H2. apply Nat.ltb_ge in El.
  destruct (List.filter _ _) as [|x [|y l]]; [by apply elem_of_nil in H1| |simpl in El; lia].
  apply list_elem_of_singleton in H1, H2. congruence.
Qed.

Lemma learn_state_ok at_ input slot s d s' :
  good_input input → valid_timestamp at_ = true → learn_state at_ input slot s = Ok (d, s') → state_ok s'.
Proof.
  intros (Hdev & _ & Hboot) Hat (_ & _ & Hd & _ & ->)%learn_state_Ok. split; [|done].
  apply baseline_from_canonical; [|done..]. by eapply Forall_forall in Hdev.
Qed.

Lemma evaluate_state_ok seen_at ts input s :
  good_input input → valid_timestamp seen_at = true → state_ok s →
  state_ok (snd (evaluate seen_at ts input s)).
Proof.
  intros (_ & Hnd & Hboot) Hat Hs.
  destruct (evaluate_reaches seen_at ts input s Hnd) as (v & disp & p & Hj & _ & ->).
  unfold state_ok in *. cbn [with_pending baseline pending].
  destruct (baseline s) as [b|] eqn:Hb; [|destruct Hj; congruence].
  destruct Hs as [Hc Hp]. split; [done|]. destruct Hj; try exact Hp; try done.
  intros q [= <-]. unfold valid_pending. cbn [pf_verdict observation_boot_id observed_at].
  by rewrite Hboot, Hat.
Qed.
End d3.

(** ** Properties *)

(** C4: the evaluation of a boot implements the judgement.  On a snapshot with
    distinct BDFs it never fails: it returns a well-formed D3 diagnosis whose
    verdict and disposition, together with the pending finding left in the
    state, are the one judgement that applies (baseline required, hardware
    changed, bus absent, precursor warning, recovered, history unavailable, ok,
    in this order of precedence), and it changes nothing else of the state. *)
Theorem evaluate_refines_judgement `{Unicode} `{Chrono} (seen_at timestamp : string) (input : D3Input)
    (s : D3State) (Hbdf : NoDup (pd_bdf <$> ps_devices (snapshot input))) :
  ∃ d, fst (evaluate seen_at timestamp input s) = Ok (DiagnosisOutcome d)
    ∧ well_formed d ∧ d_detector_id d = "D3" ∧ d_timestamp d = timestamp
    ∧ snd (evaluate seen_at timestamp input s)
      = with_pending s (pending (snd (evaluate seen_at timestamp input s)))
    ∧ ∀ v disp p, judged seen_at input s v disp p ↔
        v = d_verdict d ∧ disp = d_disposition d
        ∧ p = pending (snd (evaluate seen_at timestamp input s)).
Proof.
  destruct (evaluate_reaches seen_at timestamp input s Hbdf)
    as (v & disp & p & Hj & (d & Hr & Hw & <- & <- & Ht & Hid & _) & Hs).
  exists d. rewrite Hs. split_and!; [done..|]. intros v' disp' p'. split.
  - intros Hj'. by destruct (judged_functional _ _ _ _ _ _ _ _ _ Hj Hj') as (<- & <- & <-).
  - by intros (-> & -> & ->).
Qed.


Definition demo_device : PciDevice :=
  {| pd_bdf := "0000:03:00.0"; pd_vendor := "0x1002"; pd_device := "0x744c"; pd_class := "0x030000";
     pd_parent_path := "/sys/0000:00:01.0/0000:03:00.0"; pd_upstream_bridge := Some "0000:00:01.0" |}.
Definition demo_bridge : PciDevice :=
  {| pd_bdf := "0000:00:01.0"; pd_vendor := "0x1022"; pd_device := "0x14da"; pd_class := "0x060400";
     pd_parent_path := "/sys/0000:00:01.0"; pd_upstream_bridge := None |}.
Definition demo_boot : string := "0123456789abcdef0123456789abcdef".
Definition demo_input (devices : list PciDevice) : D3Input :=
  {| platform := Linux; snapshot := {| ps_boot_id := demo_boot; ps_devices := devices |};
     current_boot_id := demo_boot; boot_inventory := None; current_journal := None;
     prior_tail := None; prior_timing_unreliable := false; collection_missing := []; host := None |}.
Definition demo_state : D3State :=
  {| schema_version := 1; baseline := Some (baseline_from "T" demo_device demo_boot); pending := None |}.

(** The learned device is gone from a snapshot that still has its bridge. *)
Lemma evaluate_refines_judgement_witness :
  let eval := @evaluate tally_chrono "T" "T+" (demo_input [demo_bridge]) demo_state in
  (∃ d, fst eval = Ok (DiagnosisOutcome d) ∧ d_verdict d = "bus-absent" ∧ well_formed d)
  ∧ judged (H0 := tally_chrono) "T" (demo_input [demo_bridge]) demo_state "bus-absent" Finding (pending (snd eval)).
Proof.
  cbv zeta.
  assert (Hnd : NoDup (pd_bdf <$> ps_devices (snapshot (demo_input [demo_bridge]))))
    by (apply (bool_decide_eq_true_1 _); reflexivity).
  destruct (@evaluate_refines_judgement ascii_unicode tally_chrono "T" "T+" (demo_input [demo_bridge])
    demo_state Hnd) as (d & He & Hw & Hid & Ht & Hs & Hj).
  assert (Hv : d_verdict d = "bus-absent" ∧ d_disposition d = Finding).
  { vm_compute in He. injection He as <-. split; reflexivity. }
  split; [exists d; split; [exact He|split; [exact (proj1 Hv)|exact Hw]]|].
  apply Hj. split; [symmetry; exact (proj1 Hv)|split; [symmetry; exact (proj2 Hv)|reflexivity]].
Defined.
