(* ===== verification/D3Store.v ===== *)
(** * D3 state store and run ([src/detectors/d3.rs])

    [StateStore] over the file system of [FileSystem], and [run], which locks
    the sidecar, loads the state, performs one operation and saves.  The state
    file is written by an atomic replacement; the properties speak of every file
    system visited on the way. *)
From Stdlib Require Import Ascii.
From S2P Require Import Prelude Float64 EsModel Contract D3Parse D3Journal D3Redact FileSystem D3.

(** ** The store *)

Record StateStore := { path : Path; lock_path : Path }.

(** [path.parent().unwrap_or_else(|| Path::new("."))]. *)
Definition parent_or_dot (p : Path) : Path := unwrap_or (parent p) current_dir.

Definition store_new (p : Path) : StateStore :=
  {| path := p; lock_path := path_join (parent_or_dot p) "d3-gpu-boot.lock" |}.

(** [Path::display]. *)
Definition display (p : Path) : string :=
  (if fst p then "/" else "") +:+ join "/" (snd p).

(** What the process reads from its surroundings: the faults of its calls, its
    id, the clock of the temporary's nonce, the answers to its attempts to lock,
    and the instants of its timestamps. *)
Record Env := {
  faults : Faults;
  process_id : Z;
  nonce_clock : result Z string;
  lock_free : nat → bool;
  learned_now : Z;
  seen_now : Z;
  built_now : Z;
}.

Definition LOCK_ATTEMPTS : nat := 50.

Section store.
Context `{Unicode} `{Chrono}.
(** [serde_json] on the state. *)
Context (encode : D3State → result string string) (decode : string → result D3State string).
Context (env : Env).

Definition restrict_permissions (site : Site) (p : Path) : IO unit :=
  set_permissions (faults env) site ("cannot restrict permissions for " +:+ display p +:+ ": ") p.

(** The loop over [try_lock_exclusive], from attempt [i] on. *)
Fixpoint try_lock (attempts i : nat) : result unit string :=
  match attempts with
  | O => Err "D3 state lock contention timed out"
  | S n => if lock_free env i then Ok tt else try_lock n (S i)
  end.

Definition lock (store : StateStore) : IO unit :=
  let* _ := match parent (path store) with
            | Some dir =>
                let* _ := create_dir_all (faults env) "cannot create D3 state directory: " dir in
                restrict_permissions ChmodDir dir
            | None => ret tt
            end in
  let* _ := open_or_create (faults env) OpenLock "cannot open D3 sidecar lock: " (lock_path store) in
  let* _ := restrict_permissions ChmodLock (lock_path store) in
  of_result (try_lock LOCK_ATTEMPTS 0).

(** What [load] makes of the file's text. *)
Definition parse_state (source : string) : result D3State string :=
  let? state := map_err (λ e, "cannot parse D3 state: " +:+ e) (decode source) in
  if negb (schema_version state =? STATE_SCHEMA_VERSION) then
    Err ("unknown D3 state schema version " +:+ show (schema_version state))
  else
    let? _ := validate_state state in
    Ok state.

Definition load (store : StateStore) : IO D3State :=
  let* metadata := inspect (faults env) Inspect "cannot inspect D3 state: " (path store) in
  match metadata with
  | None => ret empty_state
  | Some (File content) =>
      if READ_LIMIT <? slen content then of_result (Err "D3 state file exceeds bounded read limit")
      else
        let* _ := attempt (faults env) OpenFile "cannot open D3 state: " (λ _, true) id tt in
        let* source := read_to_string (faults env) ReadFile "cannot read D3 state: " content in
        of_result (parse_state source)
  | Some _ => of_result (Err "D3 state file must be a regular non-symlink file")
  end.

Definition temporary_name (nonce : Z) : string :=
  ".d3-gpu-boot-" +:+ show (process_id env) +:+ "-" +:+ show nonce +:+ ".tmp".

Definition save (store : StateStore) (state : D3State) : IO unit :=
  let* nonce := of_result (nonce_clock env) in
  let temporary := path_join (parent_or_dot (path store)) (temporary_name nonce) in
  let* encoded := of_result (map_err (λ e, "cannot serialize D3 state: " +:+ e) (encode state)) in
  let* _ := create_new (faults env) CreateTemp "cannot create atomic D3 state temporary: " temporary in
  let* _ := restrict_permissions ChmodTemp temporary in
  let* _ := or_cleanup (write_file (faults env) WriteTemp "cannot write atomic D3 state: " temporary encoded)
              (remove_file (faults env) RemoveTemp temporary) in
  or_cleanup (rename (faults env) Rename "cannot replace D3 state atomically: " temporary (path store))
    (remove_file (faults env) RemoveTemp temporary).

(** ** One run *)

(** [now()] at each of its three uses. *)
Definition learned_at_now : string := render_rfc3339 (learned_now env).
Definition seen_at_now : string := render_rfc3339 (seen_now env).
Definition built_at_now : string := render_rfc3339 (built_now env).

Definition learned_message (d : PciDevice) (boot : string) : string :=
  "D3 baseline learned for " +:+ pd_bdf d +:+ " [" +:+ pd_vendor d +:+ ":" +:+ pd_device d
  +:+ "] at boot " +:+ boot +:+ ".".

Definition run (input : D3Input) (operation : Operation) (state_file : Path) : IO Outcome :=
  match platform input with
  | Other =>
      ret (NotApplicableOutcome (not_applicable
        "D3 GPU boot diagnosis is only applicable to Linux PCI and journald evidence."
        ["platform: non-Linux"]))
  | Linux =>
      let* _ := of_result (preflight input) in
      let store := store_new state_file in
      let* _ := lock store in
      let* state := load store in
      match operation with
      | Reset =>
          let* _ := save store (reset_state state) in
          of_result (success built_at_now "baseline-reset"
                       "D3 baseline and any pending finding were removed." (host input))
      | Learn slot =>
          let* (device, state') := of_result (learn_state learned_at_now input slot state) in
          let* _ := save store state' in
          of_result (success built_at_now "baseline-learned"
                       (learned_message device (ps_boot_id (snapshot input))) (host input))
      | Diagnose =>
          if contradicts input state then
            of_result (Err "fixture consistency invalid: healthy baseline PCI snapshot contradicts same-boot absent-GPU journal evidence")
          else
            let (verdict, state') := evaluate seen_at_now built_at_now input state in
            let* outcome := of_result verdict in
            let outcome := extend_missing
              ((λ item, redact_collection_missing item (host input)) <$> collection_missing input) outcome in
            let* _ := save store state' in
            ret outcome
      end
  end.

(** ** The specification *)

(** The state a file system entry stands for. *)
Definition holds (s : D3State) (node : option Node) : Prop :=
  (node = None ∧ s = empty_state) ∨ ∃ c, node = Some (File c) ∧ parse_state c = Ok s.

Definition valid_state (s : D3State) : Prop :=
  schema_version s = STATE_SCHEMA_VERSION ∧ state_ok s.

(** The transition of each operation and its outcome. *)
Inductive op_step (input : D3Input) : Operation → D3State → D3State → Outcome → Prop :=
| step_reset s o :
    issues built_at_now "baseline-reset" NonFinding (Ok o) →
    op_step input Reset s (reset_state s) o
| step_learn s raw d o :
    baseline s = None → d ∈ ps_devices (snapshot input) → pd_bdf d = to_ascii_lowercase raw →
    (∀ d', d' ∈ ps_devices (snapshot input) → same_identity d d' = true → d' = d) →
    issues built_at_now "baseline-learned" NonFinding (Ok o) →
    op_step input (Learn (Some raw)) s
      {| schema_version := schema_version s;
         baseline := Some (baseline_from learned_at_now d (ps_boot_id (snapshot input)));
         pending := None |} o
| step_diagnose s v disp p d :
    contradicts input s = false → judged seen_at_now input s v disp p →
    well_formed d → d_verdict d = v → d_disposition d = disp → d_detector_id d = "D3" →
    op_step input Diagnose s (with_pending s p) (DiagnosisOutcome d).

(** ** Lemmas *)

Lemma parse_state_Ok c s :
  parse_state c = Ok s ↔ decode c = Ok s ∧ valid_state s.
Proof.
  unfold parse_state, valid_state. destruct (decode c) as [s'|]; simpl; [|naive_solver].
  destruct (Z.eqb_spec (schema_version s') STATE_SCHEMA_VERSION) as [Es|Es]; cbn [negb]; [|naive_solver].
  pose proof (validate_state_Ok s') as Hv. destruct (validate_state s') as [[]|e]; [naive_solver|].
  split; [done|]. intros [[= ->] [_ Hok]]. by apply Hv in Hok.
Qed.

Lemma holds_valid s node : holds s node → valid_state s.
Proof. intros [[_ ->]|(c & _ & [_ Hv]%parse_state_Ok)]; [by split|done]. Qed.

Lemma step_valid input op s s' o : good_input input → valid_state s → op_step input op s s' o → valid_state s'.
Proof.
  intros Hin [Hsch Hok] Hstep.
  assert (Hl : valid_timestamp learned_at_now = true ∧ valid_timestamp seen_at_now = true).
  { unfold valid_timestamp, learned_at_now, seen_at_now.
    destruct (parse_render (learned_now env)) as [? ->].
    by destruct (parse_render (seen_now env)) as [? ->]. }
  destruct Hstep; (split; [done|]); [done| |].
  - split; [|done]. apply baseline_from_canonical; [|apply Hin|apply Hl].
    destruct Hin as (Hdev & _). by eapply Forall_forall in Hdev.
  - destruct (evaluate_reaches seen_at_now built_at_now input s) as (v' & disp' & p' & Hj & _ & Hs);
      [apply Hin|].
    match goal with Hj' : judged _ _ _ _ _ _ |- _ =>
      destruct (judged_functional _ _ _ _ _ _ _ _ _ Hj Hj') as (_ & _ & <-) end.
    rewrite <-Hs. apply evaluate_state_ok; [done|apply Hl|done].
Qed.

Section one_file.
Context (p : Path) (node : option Node).
Definition untouched (fs : FS) : Prop := fs !! p = node.
Context (I : FS → Prop) (HI : ∀ fs, untouched fs → I fs).

Lemma lock_untouched (Hlock : lock_path (store_new p) ≠ p) :
  triple I untouched (lock (store_new p)) (λ _, untouched) untouched.
Proof.
  unfold lock. cbn [path lock_path store_new] in Hlock |- *.
  bind_keeping untouched;
    [|intros _; bind_keeping untouched;
      [|intros _; bind_keeping untouched; [|intros _]]].
  - destruct (parent p) as [dir|] eqn:Ep; [|by apply triple_ret].
    bind_keeping untouched; [by apply create_dir_all_other; [apply parent_ancestors|]|intros _].
    apply triple_attempt; intros fs Hfs; split; auto.
  - apply triple_attempt; intros fs Hfs; [split; auto|intros _].
    enough (untouched (match fs !! path_join (parent_or_dot p) "d3-gpu-boot.lock" with
      | Some _ => fs | None => <[path_join (parent_or_dot p) "d3-gpu-boot.lock":=File ""]> fs end)) by auto.
    unfold untouched in Hfs |- *. by case_match; [|rewrite lookup_insert_ne].
  - apply triple_attempt; intros fs Hfs; split; auto.
  - apply triple_result. intros fs Hfs. by destruct (try_lock _ _).
Qed.

Lemma load_untouched :
  triple I untouched (load (store_new p)) (λ s fs, untouched fs ∧ holds s node) untouched.
Proof.
  unfold load. eapply triple_bind with (R := λ m fs, untouched fs ∧ m = node).
  { apply triple_call. intros fs Hfs. simpl. split; [auto|]. by destruct (fails _ _). }
  intros [[c| |d]|]; try (apply triple_result; by intros fs [? _]).
  2: { apply triple_ret. intros fs [Hfs <-]. split; [done|]. by left. }
  destruct (_ <? _); [apply triple_result; by intros fs [? _]|].
  eapply triple_bind with (R := λ _ fs, untouched fs ∧ Some (File c) = node).
  { apply triple_attempt; intros fs [? ?]; split; auto. }
  intros _. eapply triple_bind with (R := λ t fs, untouched fs ∧ t = c ∧ Some (File c) = node).
  { apply triple_call. intros fs [Hfs Hn]. simpl. split; [auto|]. by destruct (_ && _). }
  intros t. apply triple_result. intros fs (Hfs & -> & Hn).
  destruct (parse_state c) as [s|] eqn:E; [|done]. split; [done|]. right. by exists c.
Qed.

Lemma save_replaces s
    (Htmp : ∀ nonce, path_join (parent_or_dot p) (temporary_name nonce) ≠ p)
    (HN : ∀ c (fs : FS), encode s = Ok c → fs !! p = Some (File c) → I fs) :
  triple I untouched (save (store_new p) s)
    (λ _ fs, ∃ c, encode s = Ok c ∧ fs !! p = Some (File c)) untouched.
Proof.
  unfold save. cbn [path store_new].
  bind_keeping untouched; [apply triple_result; intros fs Hfs; by destruct (nonce_clock env)|].
  intros nonce. set (tmp := path_join _ _). assert (Hne : tmp ≠ p) by apply Htmp.
  eapply triple_bind with (R := λ c fs, untouched fs ∧ encode s = Ok c).
  { apply triple_result. intros fs Hfs. by destruct (encode s). }
  intros c. assert (Hset : ∀ x fs, untouched fs → untouched (<[tmp := x]> fs)).
  { intros x fs. unfold untouched. by rewrite lookup_insert_ne. }
  assert (Hremove : triple I untouched (remove_file (faults env) RemoveTemp tmp) (λ _, untouched) untouched).
  { apply triple_attempt; intros fs Hfs; [auto|intros _].
    assert (untouched (delete tmp fs)) by (unfold untouched; by rewrite lookup_delete_ne). auto. }
  eapply triple_bind with (R := λ _ fs, untouched fs ∧ encode s = Ok c).
  { apply triple_attempt; intros fs [? ?]; split; auto. }
  intros _. eapply triple_bind with (R := λ _ fs, untouched fs ∧ encode s = Ok c).
  { apply triple_attempt; intros fs [? ?]; split; auto. }
  intros _. eapply triple_bind with (R := λ _ fs, untouched fs ∧ encode s = Ok c ∧ fs !! tmp = Some (File c)).
  { eapply triple_or_cleanup; [|exact Hremove]. apply triple_call. intros fs [Hfs Henc].
    destruct (fails _ _); simpl; [split; auto|].
    assert (untouched (<[tmp:=File c]> fs)) by auto.
    split_and!; [auto..|]. apply lookup_insert_eq. }
  intros _. eapply triple_or_cleanup; [|exact Hremove]. apply triple_call. intros fs (Hfs & Henc & Hfile).
  rewrite Hfile. destruct (fs !! p) as [[]|]; try destruct (fails _ _); simpl; try (split; by auto).
  all: split; [by apply (HN c); [|apply lookup_insert_eq]|exists c; split; [done|apply lookup_insert_eq]].
Qed.
End one_file.

(** The file holds either what it held, or the encoding of a state the
    operation may reach from there. *)
Definition old_or_new (p : Path) (input : D3Input) (op : Operation) (node : option Node) (fs : FS) : Prop :=
  fs !! p = node
  ∨ ∃ s s' o c, holds s node ∧ op_step input op s s' o ∧ encode s' = Ok c ∧ fs !! p = Some (File c).

(** The state the operation reached is the one in the file. *)
Definition committed (p : Path) (input : D3Input) (op : Operation) (node : option Node)
    (o : Outcome) (fs : FS) : Prop :=
  ∃ s s' c, holds s node ∧ op_step input op s s' o ∧ encode s' = Ok c ∧ fs !! p = Some (File c).

(** Names of the state file that the store can work with. *)
Definition proper_name (p : Path) : Prop :=
  lock_path (store_new p) ≠ p
  ∧ ∀ nonce, path_join (parent_or_dot p) (temporary_name nonce) ≠ p.

(** Saving a reachable state, then returning its outcome. *)
Lemma commit p input op node s s' o (k : IO Outcome) :
  proper_name p → holds s node → op_step input op s s' o → k = ret o →
  triple (old_or_new p input op node) (untouched p node)
    (let* _ := save (store_new p) s' in k) (committed p input op node) (untouched p node).
Proof.
  intros Hp Hs Hstep ->. eapply triple_bind with (R := λ _ fs, ∃ c, encode s' = Ok c ∧ fs !! p = Some (File c)).
  - apply save_replaces; [by left|apply Hp|]. intros c fs Hc Hfs. right. by exists s, s', o, c.
  - intros _. apply triple_ret. intros fs (c & Hc & Hfs). by exists s, s', c.
Qed.

Lemma run_linux p input op node :
  proper_name p → good_input input → platform input = Linux →
  triple (old_or_new p input op node) (untouched p node) (run input op p)
    (committed p input op node) (untouched p node).
Proof.
  intros Hp Hin Hlinux. unfold run. rewrite Hlinux.
  assert (HI : ∀ fs, untouched p node fs → old_or_new p input op node fs) by (by left).
  bind_keeping (untouched p node); [apply triple_result; by case_match|intros _].
  bind_keeping (untouched p node); [by apply lock_untouched; [|apply Hp]|intros _].
  eapply triple_bind; [by apply load_untouched|intros s]. cbv beta.
  intros fs [Hfs Hs]. revert fs Hfs. destruct op as [|slot|].
  - destruct (contradicts input s) eqn:Hc; [by apply triple_result|].
    destruct (evaluate_reaches seen_at_now built_at_now input s) as (v & disp & q & Hj & Hi & Hst); [apply Hin|].
    destruct (evaluate _ _ _ _) as [r s']. simpl in Hi, Hst. destruct Hi as (d & -> & Hw & Hv & Hd & _ & Hid & _).
    subst s'. apply triple_bind_Ok. eapply commit; [done|exact Hs| |reflexivity].
    eapply step_diagnose; [done|exact Hj|by destruct Hw|done..].
  - destruct (learn_state learned_at_now input slot s) as [[d s']|e] eqn:El; [|by apply triple_result].
    pose proof (learn_state_Ok _ _ _ _ _ _ El) as (Hb & (raw & -> & Hraw) & Hd & Hu & ->).
    destruct (success_issues built_at_now "baseline-learned"
      (learned_message d (ps_boot_id (snapshot input))) (host input) eq_refl) as (x & Hx & Hrest).
    apply triple_bind_Ok. rewrite Hx.
    eapply (commit p input (Learn (Some raw)) node s); [done..|eapply step_learn; try done|reflexivity].
    by exists x.
  - destruct (success_issues built_at_now "baseline-reset"
      "D3 baseline and any pending finding were removed." (host input) eq_refl) as (x & Hx & Hrest).
    rewrite Hx. eapply (commit p input Reset node s); [done..|eapply step_reset|reflexivity].
    by exists x.
Qed.

(** With a codec that reads back what it wrote. *)
Context (Hcodec : ∀ s c, encode s = Ok c → decode c = Ok s).

Definition old_or_valid (p : Path) (node : option Node) (fs : FS) : Prop :=
  fs !! p = node ∨ ∃ s, holds s (fs !! p) ∧ valid_state s.

(** The stored state moved as the operation allows. *)
Definition stored (p : Path) (input : D3Input) (op : Operation) (node : option Node)
    (o : Outcome) (fs : FS) : Prop :=
  ∃ s s', holds s node ∧ op_step input op s s' o ∧ valid_state s' ∧ holds s' (fs !! p).

Lemma run_stored p input op node :
  proper_name p → good_input input → platform input = Linux →
  triple (old_or_valid p node) (untouched p node) (run input op p)
    (stored p input op node) (untouched p node).
Proof.
  intros Hname Hin Hlinux fs Hfs. destruct (run_linux p input op node Hname Hin Hlinux fs Hfs) as [Hv Hr].
  assert (Hnew : ∀ s s' o c, holds s node → op_step input op s s' o →
    encode s' = Ok c → valid_state s' ∧ holds s' (Some (File c))).
  { intros s s' o c Hs Hstep Hc. assert (Hval : valid_state s').
    { eapply step_valid; [done| |done]. by eapply holds_valid. }
    split; [done|]. right. exists c. split; [done|]. apply parse_state_Ok. split; [by apply Hcodec|done]. }
  split.
  - eapply Forall_impl; [exact Hv|]. intros fs' [Hold|(s & s' & o & c & Hs & Hstep & Hc & Hnode)]; [by left|].
    right. exists s'. rewrite Hnode. destruct (Hnew _ _ _ _ Hs Hstep Hc) as [? ?]. by split.
  - destruct (returned _) as [o|e]; [|done]. destruct Hr as (s & s' & c & Hs & Hstep & Hc & Hnode).
    exists s, s'. rewrite Hnode. destruct (Hnew _ _ _ _ Hs Hstep Hc) as [? ?]. by split_and!.
Qed.
End store.

(** ** Properties *)


(** A state file named without a directory: the lock's [chmod] of the empty
    parent path fails, so every run ends before the state is read. *)
Lemma bare_state_file_refused `{Unicode} `{Chrono} (encode : D3State → result string string)
    (decode : string → result D3State string) (env : Env) (input : D3Input) (op : Operation)
    (name : string) (fs : FS) :
  platform input = Linux → fs !! empty_path = None →
  is_ok (returned (run encode decode env input op (false, [name]) fs)) = false.
Proof.
  intros Hlinux Hempty. unfold run. rewrite Hlinux.
  destruct (preflight input) as [[]|e]; [|done].
  assert (Hchmod : ∀ site prefix, set_permissions (faults env) site prefix empty_path fs
    = {| visited := [fs]; final := fs; returned := Err (prefix +:+ os_error (faults env) site) |}).
  { intros site prefix. unfold set_permissions, attempt, call, exists_at, is_dir.
    rewrite Hempty. by rewrite andb_false_r. }
  assert (Hlock : is_ok (returned (lock env (store_new (false, [name])) fs)) = false).
  { unfold lock, bind, create_dir_all, call. cbn [path store_new parent snd fst].
    destruct (fails (faults env) CreateDirs); [done|]. cbn -[set_permissions].
    unfold restrict_permissions. by rewrite Hchmod. }
  unfold bind. cbn [returned of_result final]. by destruct (returned (lock _ _ _)).
Qed.

(** A run that learns the demonstration device into an empty store. *)
Definition demo_faults : Faults := {| fails _ := false; os_error _ := EmptyString; written := 0 |}.
Definition demo_env : Env :=
  {| faults := demo_faults; process_id := 7; nonce_clock := Ok 1; lock_free _ := true;
     learned_now := 0; seen_now := 0; built_now := 0 |}.
Definition demo_encode (s : D3State) : result string string :=
  if decide (s = demo_state) then Ok "demo" else Err "unsupported".
Definition demo_decode (c : string) : result D3State string :=
  if String.eqb c "demo" then Ok demo_state else Err "unsupported".
Definition demo_file : Path := (true, ["var"; "d3.json"]).

Lemma demo_codec s c : demo_encode s = Ok c → demo_decode c = Ok s.
Proof. unfold demo_encode. destruct (decide (s = demo_state)) as [->|]; [by intros [= <-]|done]. Qed.

Lemma demo_good_input : @good_input ascii_unicode (demo_input [demo_bridge; demo_device]).
Proof.
  split; [|split; [apply (bool_decide_eq_true_1 _)|]; by vm_compute].
  repeat constructor; try by vm_compute. all: intros b [= <-]; by vm_compute.
Qed.

Lemma demo_proper_name : proper_name demo_env demo_file.
Proof. split; [by vm_compute|]. intros nonce. intros [=]. Qed.

Definition demo_run : Run Outcome :=
  @run ascii_unicode tally_chrono demo_encode demo_decode demo_env
    (demo_input [demo_bridge; demo_device]) (Learn (Some "0000:03:00.0")) demo_file ∅.
Definition demo_final : option Node := final demo_run !! demo_file.

