(* ===== verification/D3Cli.v ===== *)
(** * D3 command line and collection ([src/detectors/d3.rs])

    [cli_outcome] with its offline fixtures, and the live collection: the
    journal commands, the sysfs snapshot, and [live_outcome].  What [journalctl]
    and sysfs answer are arguments. *)
From Stdlib Require Import Ascii.
From S2P Require Import Prelude Float64 EsModel Contract D3Parse D3Journal D3Redact FileSystem D3 D3Store.

(** ** Options *)

Record CliOptions := {
  offline : bool;
  journal_current : option Path;
  journal_prior_kernel : option Path;
  journal_prior_tail : option Path;
  pci_snapshot : option Path;
  boot_list : option Path;
  o_current_boot_id : option string;
  o_state_file : option Path;
  o_slot : option string;
  o_json : bool;
  o_host : option string;
  learn_baseline : bool;
  reset_baseline : bool;
}.

Definition is_some {A} (o : option A) : bool := is_some_and o (λ _, true).

Definition supplied_fixture (options : CliOptions) : bool :=
  is_some (journal_current options) || is_some (journal_prior_kernel options)
  || is_some (journal_prior_tail options) || is_some (pci_snapshot options)
  || is_some (boot_list options) || is_some (o_current_boot_id options).

Definition operation_of (options : CliOptions) : Operation :=
  if reset_baseline options then Reset
  else if learn_baseline options then Learn (o_slot options)
  else Diagnose.

(** The refusals that precede any collection. *)
Definition check_flags (options : CliOptions) : result unit string :=
  if supplied_fixture options && negb (offline options) then
    Err "offline fixture flags require explicit --offline"
  else if learn_baseline options && reset_baseline options then
    Err "--learn-baseline and --reset-baseline are mutually exclusive"
  else if reset_baseline options && is_some (o_slot options) then
    Err "--reset-baseline cannot be combined with --slot"
  else Ok tt.

(** The refusals of an offline run. *)
Definition check_offline (options : CliOptions) : result unit string :=
  if negb (is_some (pci_snapshot options)) then
    Err "offline gpu-boot diagnosis requires --pci-snapshot"
  else if negb (is_some (o_state_file options)) then
    Err "offline gpu-boot diagnosis requires a non-default --state-file"
  else if negb (is_some (boot_list options)) && negb (is_some (o_current_boot_id options)) then
    Err "offline gpu-boot diagnosis requires --boot-list or --current-boot-id"
  else Ok tt.

(** [default_state_file]: [XDG_STATE_HOME], else [~/.local/state], else
    [.local/state]. *)
Definition default_state_file (xdg_state_home home : option Path) : Path :=
  let root :=
    match xdg_state_home, home with
    | Some root, _ => root
    | None, Some home => (fst home, snd home ++ [".local"; "state"])
    | None, None => (false, [".local"; "state"])
    end in
  (fst root, snd root ++ ["rigsignal"; "detectors"; "d3-gpu-boot.json"]).

(** ** Child processes *)

(** How a bounded command ended. *)
Inductive Child :=
| SpawnFailed (error : string)
| WaitFailed (error : string)
| TimedOut
| Exited (success : bool) (status : string) (stdout stderr : result string string).

(** [truncate]. *)
Definition truncate (value : string) : string := concat_str (take 512 (chars value)).

(** [limit] is [JOURNAL_LIMIT]. *)
Definition command_bounded (limit : Z) (command : string) (child : Child) (retain_start : bool)
  : result string string :=
  match child with
  | SpawnFailed error => Err (command +:+ " spawn failed: " +:+ error)
  | WaitFailed error => Err (command +:+ " wait failed: " +:+ error)
  | TimedOut => Err (command +:+ " timed out")
  | Exited success status stdout stderr =>
      let? stdout := map_err (λ e, command +:+ " output failed: " +:+ e) stdout in
      let? stderr := map_err (λ e, command +:+ " output failed: " +:+ e) stderr in
      let stderr := from_utf8_lossy stderr in
      if negb success then
        Err (command +:+ " failed (" +:+ status +:+ "): " +:+ truncate stderr)
      else if negb (is_empty (trim stderr)) then
        Err (command +:+ " wrote stderr: " +:+ truncate stderr)
      else
        let text := from_utf8_lossy stdout in
        Ok (if retain_start then bounded_start limit text else bounded_end limit text)
  end.

(** ** Sysfs *)

(** An entry of [/sys/bus/pci/devices]: its name, its three attribute files
    and its resolved path. *)
Record SysfsEntry := {
  se_name : string;
  se_vendor : result string string;
  se_device : result string string;
  se_class : result string string;
  se_canonical : result string string;
}.

Definition sysfs_device (entry : SysfsEntry) : result (option PciDevice) string :=
  let bdf := to_ascii_lowercase (from_utf8_lossy (se_name entry)) in
  if negb (valid_bdf bdf) then Ok None
  else
    let? vendor := se_vendor entry in
    let? device := se_device entry in
    let? class := se_class entry in
    let vendor := to_ascii_lowercase (trim vendor) in
    let device := to_ascii_lowercase (trim device) in
    let class := to_ascii_lowercase (trim class) in
    if negb (valid_hex_field vendor 4) || negb (valid_hex_field device 4)
       || negb (valid_hex_field class 6) then
      Err ("PCI sysfs identity malformed for " +:+ bdf)
    else
      let? canonical := map_err (λ e, "cannot resolve PCI parent chain for " +:+ bdf +:+ ": " +:+ e)
                          (se_canonical entry) in
      let parent_path := from_utf8_lossy canonical in
      Ok (Some {| pd_bdf := bdf; pd_vendor := vendor; pd_device := device; pd_class := class;
                  pd_parent_path := parent_path;
                  pd_upstream_bridge := chain_upstream (to_ascii_lowercase <$> bdf_chain parent_path) |}).

Fixpoint sysfs_devices (entries : list (result SysfsEntry string)) : result (list PciDevice) string :=
  match entries with
  | [] => Ok []
  | entry :: rest =>
      let? entry := map_err (λ e, "cannot read PCI sysfs entry: " +:+ e) entry in
      let? d := sysfs_device entry in
      let? ds := sysfs_devices rest in
      Ok (match d with Some d => d :: ds | None => ds end)
  end.

Definition collect_sysfs_snapshot (read_dir : result (list (result SysfsEntry string)) string)
    (boot_id : string) : result PciSnapshot string :=
  let? entries := map_err (λ e, "cannot enumerate PCI sysfs: " +:+ e) read_dir in
  let? devices := sysfs_devices entries in
  if is_nil devices then Err "PCI sysfs contains no devices"
  else Ok {| ps_boot_id := boot_id; ps_devices := devices |}.

Section cli.
Context `{Unicode} `{Chrono}.
Context (encode : D3State → result string string) (decode : string → result D3State string).
Context (env : Env).
(** The journal command by its arguments, and the PCI directory. *)
Context (journalctl : list string → Child) (read_dir : result (list (result SysfsEntry string)) string).

Definition journal_command_bounded (extra : list string) (retain_start : bool) : result string string :=
  command_bounded JOURNAL_LIMIT "journalctl"
    (journalctl (["--no-pager"; "-o"; "short-iso-precise"] ++ extra)) retain_start.
Definition journal_command (extra : list string) : result string string :=
  journal_command_bounded extra false.
Definition journal_command_start (extra : list string) : result string string :=
  journal_command_bounded extra true.

Definition journal_tail (boot_id : string) : result string string :=
  let? reversed := journal_command_start ["--boot"; boot_id; "--reverse"; "-n"; "2048"] in
  let reversed_lines := lines reversed in
  let terminal := unwrap_or (trim <$> head reversed_lines) EmptyString in
  let? last_entry := journal_command ["--boot"; boot_id; "-n"; "1"] in
  let expected := unwrap_or (trim <$> last (lines last_entry)) EmptyString in
  if negb (String.eqb terminal expected) then
    Err "journal tail does not reach this boot's final inventory entry"
  else Ok (join (str1 nl) (rev reversed_lines)).

(** ** Bounded file reads *)

(** The text of a regular file no longer than [limit]; [oversize] is the rest
    of the refusal. *)
Definition read_limited (limit : Z) (oversize : string) (p : Path) : IO string :=
  let* node := inspect (faults env) (InspectInput p) ("cannot inspect " +:+ display p +:+ ": ") p in
  match node with
  | None =>
      of_result (Err ("cannot inspect " +:+ display p +:+ ": " +:+ os_error (faults env) (InspectInput p)))
  | Some (File content) =>
      if limit <? slen content then of_result (Err (display p +:+ oversize))
      else read_to_string (faults env) (ReadInput p) ("cannot read " +:+ display p +:+ ": ") content
  | Some _ => of_result (Err (display p +:+ " must be a regular non-symlink file"))
  end.

Definition read_regular_text : Path → IO string :=
  read_limited READ_LIMIT " exceeds bounded read limit".

(** The journal and the diagnostics it adds. *)
Definition read_offline_journal_option (p : option Path) (retain_start : bool) (label : string)
  : IO (option string * list string) :=
  match p with
  | None => ret (None, [])
  | Some p =>
      let* source := read_limited OFFLINE_JOURNAL_ABSURD_LIMIT " exceeds offline journal safety limit" p in
      if journal_has_no_entries source then
        ret (None, [label +:+ " unavailable: journalctl reported no entries"])
      else
        ret (Some (if retain_start then bounded_start JOURNAL_LIMIT source
                   else bounded_end JOURNAL_LIMIT source),
             if JOURNAL_LIMIT <? slen source then
               [label +:+ " was bounded to the D3 journal read limit"] else [])
  end.

(** [.map(f).transpose()?]. *)
Definition optionally {A B : Type} (o : option A) (f : A → IO B) : IO (option B) :=
  match o with None => ret None | Some a => let* b := f a in ret (Some b) end.

(** ** Live collection *)

Definition live_inventory (host : option string) : option BootInventory * list string :=
  let failed error :=
    (None, [redacted_collection_failure ("boot inventory unavailable: " +:+ error) host]) in
  match journal_command ["--list-boots"] with
  | Ok text => match parse_boot_inventory text with Ok value => (Some value, []) | Err error => failed error end
  | Err error => failed error
  end.

Definition live_current_journal (current_boot_id : string) (host : option string)
  : option string * list string :=
  match journal_command ["--boot"; current_boot_id; "-k"] with
  | Ok value =>
      if journal_has_no_entries value then
        (None, ["same-boot kernel journal unavailable: journalctl reported no entries"])
      else (Some value, [])
  | Err error =>
      (None, [redacted_collection_failure ("same-boot kernel journal unavailable: " +:+ error) host])
  end.

(** The prior tail, its timing defect, and diagnostics. *)
Definition live_prior (prior : string) (host : option string) : option string * bool * list string :=
  match journal_command ["--boot"; prior; "-k"], journal_tail prior with
  | Ok kernel, Ok tail =>
      let entries value what :=
        if journal_has_no_entries value then
          (None, [what +:+ " unavailable: journalctl reported no entries"])
        else (Some value, []) in
      let (kernel, m1) := entries kernel "prior boot kernel journal" in
      let (tail, m2) := entries tail "prior boot journal tail" in
      (combine_prior kernel tail,
       is_some_and kernel journal_timestamps_non_monotonic
       || is_some_and tail journal_timestamps_non_monotonic,
       m1 ++ m2)
  | kernel, tail =>
      (None, false,
       [redacted_collection_failure
          ("prior boot journal unavailable: "
           +:+ match kernel with Err e => e | Ok _ => EmptyString end
           +:+ match tail with Err e => " " +:+ e | Ok _ => EmptyString end) host])
  end.

Definition live_outcome (operation : Operation) (state_file : Path) (host : option string) : IO Outcome :=
  let* boot_id_text := read_regular_text (true, ["proc"; "sys"; "kernel"; "random"; "boot_id"]) in
  let* current_boot_id := of_result (normalize_live_boot_id boot_id_text) in
  let* snapshot := of_result (collect_sysfs_snapshot read_dir current_boot_id) in
  let (inventory, m1) := live_inventory host in
  let (current_journal, m2) := live_current_journal current_boot_id host in
  let '(prior_tail, prior_timing_unreliable, m3) :=
    match (let! value := inventory in prior_for value current_boot_id) with
    | Some prior => live_prior prior host
    | None => (None, false, [])
    end in
  run encode decode env
    {| platform := Linux; snapshot := snapshot; current_boot_id := current_boot_id;
       boot_inventory := inventory; current_journal := current_journal; prior_tail := prior_tail;
       prior_timing_unreliable := prior_timing_unreliable;
       collection_missing := m1 ++ m2 ++ m3; host := host |}
    operation state_file.

(** ** The command *)

(** The offline branch of [cli_outcome], after its refusals. *)
Definition offline_outcome (options : CliOptions) (pci : Path) (operation : Operation) (state_file : Path)
  : IO Outcome :=
  let* snapshot_text := read_regular_text pci in
  let* snapshot := of_result (parse_pci_snapshot snapshot_text) in
  let* current_boot_id := of_result (match o_current_boot_id options with
                                     | Some id => normalize_boot_id id
                                     | None => Ok (ps_boot_id snapshot)
                                     end) in
  let* boot_inventory_source := optionally (boot_list options) read_regular_text in
  let* boot_inventory := optionally boot_inventory_source (λ s, of_result (parse_boot_inventory s)) in
  let* (current_journal, m1) :=
    read_offline_journal_option (journal_current options) false "same-boot journal" in
  let* (prior_kernel, m2) :=
    read_offline_journal_option (journal_prior_kernel options) true "prior boot kernel journal" in
  let* (prior_tail, m3) :=
    read_offline_journal_option (journal_prior_tail options) false "prior boot journal tail" in
  let* m4 := of_result (validate_supplied_journal_pairing boot_inventory_source current_boot_id
                          current_journal prior_kernel prior_tail) in
  let prior_timing_unreliable :=
    is_some_and prior_kernel journal_timestamps_non_monotonic
    || is_some_and prior_tail journal_timestamps_non_monotonic in
  run encode decode env
    {| platform := Linux; snapshot := snapshot; current_boot_id := current_boot_id;
       boot_inventory := boot_inventory; current_journal := current_journal;
       prior_tail := combine_prior prior_kernel prior_tail;
       prior_timing_unreliable := prior_timing_unreliable;
       collection_missing := m1 ++ m2 ++ m3 ++ m4; host := o_host options |}
    operation state_file.

Definition cli_outcome (xdg_state_home home : option Path) (options : CliOptions) : IO Outcome :=
  let* _ := of_result (check_flags options) in
  let operation := operation_of options in
  let state_file := unwrap_or (o_state_file options) (default_state_file xdg_state_home home) in
  if offline options then
    let* _ := of_result (check_offline options) in
    match pci_snapshot options with
    | Some pci => offline_outcome options pci operation state_file
    | None => of_result (Err "offline gpu-boot diagnosis requires --pci-snapshot")
    end
  else live_outcome operation state_file (o_host options).

(** ** Lemmas *)

(** The names the kernel lists, in the detector's lower case. *)
Fixpoint entry_names (entries : list (result SysfsEntry string)) : list string :=
  match entries with
  | [] => []
  | Ok e :: rest => to_ascii_lowercase (from_utf8_lossy (se_name e)) :: entry_names rest
  | Err _ :: rest => entry_names rest
  end.

Lemma sysfs_device_canonical e d :
  sysfs_device e = Ok (Some d) →
  canonical_device d ∧ pd_bdf d = to_ascii_lowercase (from_utf8_lossy (se_name e)).
Proof.
  unfold sysfs_device. destruct (valid_bdf _) eqn:Hbdf; [|done]. cbn [negb].
  destruct (se_vendor e) as [v|]; [|done]. destruct (se_device e) as [dv|]; [|done].
  destruct (se_class e) as [c|]; [|done].
  destruct (valid_hex_field _ 4) eqn:Hv; [|done].
  destruct (valid_hex_field (to_ascii_lowercase (trim dv)) 4) eqn:Hd; [|done].
  destruct (valid_hex_field _ 6) eqn:Hc; [|done]. cbn [negb orb].
  destruct (map_err _ _) as [path|]; [|done]. intros [= <-]. split; [|done].
  apply valid_bdf_lower in Hbdf. apply valid_hex_lower in Hv, Hd, Hc.
  rewrite !to_ascii_lowercase_idemp in *. split; try done.
  intros b Hb. unfold chain_upstream in Hb. apply list_elem_of_lookup_2 in Hb.
  apply list_elem_of_In, in_rev, list_elem_of_In, list_elem_of_fmap in Hb as (x & -> & Hx%list_elem_of_In).
  apply valid_bdf_lower. by apply List.filter_In in Hx as [_ ?].
Qed.

Lemma sysfs_devices_canonical es ds :
  sysfs_devices es = Ok ds →
  Forall canonical_device ds ∧ pd_bdf <$> ds `sublist_of` entry_names es.
Proof.
  revert ds. induction es as [|[e|] es IH]; intros ds; simpl; [by intros [= <-]| |done].
  destruct (sysfs_device e) as [d|] eqn:Ed; [|done].
  destruct (sysfs_devices es) as [ds'|]; [|done]. intros [= <-].
  destruct (IH _ eq_refl) as [Hc Hs]. destruct d as [d|].
  - apply sysfs_device_canonical in Ed as [Hd Hn]. split; [by constructor|].
    rewrite fmap_cons, Hn. by apply sublist_skip.
  - split; [done|]. by apply sublist_cons.
Qed.

(** Distinct directory names. *)
Definition distinct_entries : Prop := ∀ es, read_dir = Ok es → NoDup (entry_names es).

Lemma collect_sysfs_good boot s :
  distinct_entries → collect_sysfs_snapshot read_dir boot = Ok s →
  Forall canonical_device (ps_devices s) ∧ NoDup (pd_bdf <$> ps_devices s) ∧ ps_boot_id s = boot.
Proof.
  unfold distinct_entries, collect_sysfs_snapshot. intros Hdis. destruct read_dir as [es|]; [|done]. simpl.
  destruct (sysfs_devices es) as [ds|] eqn:E; [|done]. destruct (is_nil ds); [done|]. intros [= <-].
  destruct (sysfs_devices_canonical _ _ E) as [Hc Hs]. split_and!; [done| |done].
  eapply sublist_NoDup; [by apply Hdis|done].
Qed.

Section one_file.
Context (p : Path) (node : option Node) (I : FS → Prop) (HI : ∀ fs, untouched p node fs → I fs).

Lemma read_limited_untouched limit oversize q :
  triple I (untouched p node) (read_limited limit oversize q) (λ _, untouched p node) (untouched p node).
Proof.
  unfold read_limited. bind_keeping (untouched p node).
  { apply triple_call. intros fs Hfs. simpl. split; [auto|]. by destruct (fails _ _). }
  intros [[c| |d]|]; try by apply triple_result.
  destruct (_ <? _); [by apply triple_result|].
  apply triple_call. intros fs Hfs. simpl. split; [auto|]. by destruct (_ && _).
Qed.

Lemma journal_option_untouched q retain label :
  triple I (untouched p node) (read_offline_journal_option q retain label) (λ _, untouched p node)
    (untouched p node).
Proof.
  unfold read_offline_journal_option. destruct q as [q|]; [|by apply triple_ret].
  bind_keeping (untouched p node); [by apply read_limited_untouched|].
  intros s. destruct (journal_has_no_entries s); by apply triple_ret.
Qed.

Lemma optionally_untouched {A B : Type} (o : option A) (f : A → IO B) :
  (∀ a, triple I (untouched p node) (f a) (λ _, untouched p node) (untouched p node)) →
  triple I (untouched p node) (optionally o f) (λ _, untouched p node) (untouched p node).
Proof.
  intros Hf. destruct o as [a|]; [|by apply triple_ret].
  bind_keeping (untouched p node); [apply Hf|]. intros b. by apply triple_ret.
Qed.

Lemma result_untouched {A : Type} (r : result A string) (R : A → Prop) :
  (∀ a, r = Ok a → R a) →
  triple I (untouched p node) (of_result r) (λ a fs, R a ∧ untouched p node fs) (untouched p node).
Proof. intros HR. apply triple_result. intros fs Hfs. destruct r; [by split; [apply HR|]|done]. Qed.

End one_file.

Context (Hcodec : ∀ s c, encode s = Ok c → decode c = Ok s).

(** A run of the command on some good input. *)
Definition command_stored (p : Path) (op : Operation) (node : option Node) (o : Outcome) (fs : FS) : Prop :=
  ∃ input, good_input input ∧ stored decode env p input op node o fs.

Lemma run_command p input op node :
  proper_name env p → good_input input → platform input = Linux →
  triple (old_or_valid decode p node) (untouched p node) (run encode decode env input op p)
    (command_stored p op node) (untouched p node).
Proof.
  intros Hname Hin Hlinux. eapply triple_weaken; [by eapply run_stored|done| |done].
  intros o fs Hst. by exists input.
Qed.

Lemma offline_command options pci op p node :
  proper_name env p →
  triple (old_or_valid decode p node) (untouched p node) (offline_outcome options pci op p)
    (command_stored p op node) (untouched p node).
Proof.
  intros Hname. assert (HI : ∀ fs, untouched p node fs → old_or_valid decode p node fs) by (by left).
  unfold offline_outcome.
  bind_keeping (untouched p node); [by apply read_limited_untouched|]. intros text.
  eapply triple_bind; [by apply (result_untouched p node _ _ (λ s, parse_pci_snapshot text = Ok s))|].
  intros s. apply triple_pure. intros [[Hdev _ Hnd _] Hboot]%parse_pci_snapshot_canonical.
  bind_keeping (untouched p node); [apply triple_result; by case_match|]. intros cur.
  bind_keeping (untouched p node).
  { apply optionally_untouched. intros q. by apply read_limited_untouched. }
  intros source. bind_keeping (untouched p node).
  { apply optionally_untouched. intros q. apply triple_result. by case_match. }
  intros inventory.
  do 3 (bind_keeping (untouched p node);
    [by apply journal_option_untouched|]; intros [? ?]).
  bind_keeping (untouched p node); [apply triple_result; by case_match|]. intros m4.
  by apply run_command.
Qed.

Lemma live_command op p node host :
  proper_name env p → distinct_entries →
  triple (old_or_valid decode p node) (untouched p node) (live_outcome op p host)
    (command_stored p op node) (untouched p node).
Proof.
  intros Hname Hdis. assert (HI : ∀ fs, untouched p node fs → old_or_valid decode p node fs) by (by left).
  unfold live_outcome.
  bind_keeping (untouched p node); [by apply read_limited_untouched|]. intros text.
  eapply triple_bind; [by apply (result_untouched p node _ _ (λ id, normalize_live_boot_id text = Ok id))|].
  intros id. apply triple_pure. intros Hid%normalized_canonical.
  eapply triple_bind; [by apply (result_untouched p node _ _ (λ s, collect_sysfs_snapshot read_dir id = Ok s))|].
  intros s. apply triple_pure. intros (Hdev & Hnd & Hboot)%collect_sysfs_good; [|done].
  destruct (live_inventory host) as [inventory m1], (live_current_journal id host) as [cur m2].
  destruct (match _ with Some _ => _ | None => _ end) as [[tail unreliable] m3].
  apply run_command; [done| |done]. split_and!; [done..|]. simpl. by rewrite Hboot.
Qed.
End cli.

(** ** Properties *)

(** C21: whatever the options, the files, the journal and the faults, the
    command leaves the state file as it was or replaced by a valid state, at
    every point one can look; it fails without a change, or the state moved by
    one op_step of the requested operation on a good input.  For the live path the
    kernel's directory names are distinct. *)
Theorem cli_keeps_state_valid `{Unicode} `{Chrono} (encode : D3State → result string string)
    (decode : string → result D3State string) (env : Env) (journalctl : list string → Child)
    (read_dir : result (list (result SysfsEntry string)) string) (xdg home : option Path)
    (options : CliOptions) (fs : FS)
    (Hcodec : ∀ s c, encode s = Ok c → decode c = Ok s)
    (Hname : proper_name env (unwrap_or (o_state_file options) (default_state_file xdg home)))
    (Hsys : distinct_entries read_dir) :
  let state_file := unwrap_or (o_state_file options) (default_state_file xdg home) in
  let r := cli_outcome encode decode env journalctl read_dir xdg home options fs in
  Forall (old_or_valid decode state_file (fs !! state_file)) (visited r)
  ∧ match returned r with
    | Err _ => final r !! state_file = fs !! state_file
    | Ok o => command_stored decode env state_file (operation_of options) (fs !! state_file) o (final r)
    end.
Proof.
  cbv zeta. set (p := unwrap_or _ _) in *. set (node := fs !! p).
  assert (Ht : triple (old_or_valid decode p node) (untouched p node)
    (cli_outcome encode decode env journalctl read_dir xdg home options)
    (command_stored decode env p (operation_of options) node) (untouched p node)).
  { unfold cli_outcome. fold p.
    bind_keeping (untouched p node); [apply triple_result; by case_match|intros _].
    destruct (offline options); [|by apply live_command].
    bind_keeping (untouched p node); [apply triple_result; by case_match|intros _].
    destruct (pci_snapshot options) as [pci|]; [by apply offline_command|by apply triple_result]. }
  by apply Ht.
Qed.

(** Fixtures are never mixed with live evidence.  With any fixture flag
    given, the result and every file system on the way are the same whatever
    the journal command and the PCI directory answer; without [--offline] the
    command is refused before any call. *)
Theorem fixtures_are_isolated `{Unicode} `{Chrono} (encode : D3State → result string string)
    (decode : string → result D3State string) (env : Env) (xdg home : option Path)
    (options : CliOptions) (fs : FS) (Hfix : supplied_fixture options = true)
    (journalctl journalctl' : list string → Child)
    (read_dir read_dir' : result (list (result SysfsEntry string)) string) :
  cli_outcome encode decode env journalctl read_dir xdg home options fs
    = cli_outcome encode decode env journalctl' read_dir' xdg home options fs
  ∧ (offline options = false →
       cli_outcome encode decode env journalctl read_dir xdg home options fs
       = {| visited := []; final := fs;
            returned := Err "offline fixture flags require explicit --offline" |}).
Proof.
  unfold cli_outcome, check_flags. rewrite Hfix. destruct (offline options); [|done].
  by split.
Qed.

(** The reverse output of the journal puts a continuation line after its
    record; [journal_tail] reverses lines, so it comes out before it. *)
Definition demo_reversed : string :=
  "T++ host kernel: later" +:+ str1 nl +:+ "T+ host kernel: first" +:+ str1 nl +:+ " continued".
Definition demo_journalctl (args : list string) : Child :=
  Exited true "exit status: 0"
    (Ok (if existsb (String.eqb "--reverse") args then demo_reversed else "T++ host kernel: later"))
    (Ok EmptyString).

Lemma journal_tail_misplaces_continuations :
  journal_tail demo_journalctl "boot"
  = Ok (" continued" +:+ str1 nl +:+ "T+ host kernel: first" +:+ str1 nl +:+ "T++ host kernel: later")
  ∧ ∀ text, journal_tail demo_journalctl "boot" = Ok text →
      snd <$> @fold_journal_records tally_chrono text
      = ["host kernel: first"; "host kernel: later"].
Proof. split; [by vm_compute|]. intros text. vm_compute. by intros [= <-]. Qed.

(** Resetting the baseline from the command line, with a snapshot fixture. *)
Definition demo_options : CliOptions :=
  {| offline := true; journal_current := None; journal_prior_kernel := None; journal_prior_tail := None;
     pci_snapshot := Some (true, ["fix"; "pci"]); boot_list := None;
     o_current_boot_id := Some demo_boot; o_state_file := Some demo_file; o_slot := Some "0000:03:00.0";
     o_json := false; o_host := None; learn_baseline := true; reset_baseline := false |}.
Definition demo_snapshot_text : string :=
  "# boot_id=" +:+ demo_boot +:+ str1 nl +:+
  "0000:00:01.0 path=/sys/0000:00:01.0 vendor=0x1022 device=0x14da class=0x060400" +:+ str1 nl +:+
  "0000:03:00.0 path=/sys/0000:00:01.0/0000:03:00.0 vendor=0x1002 device=0x744C class=0x030000".
Definition demo_fs : FS :=
  <[(true, ["fix"; "pci"]) := File demo_snapshot_text]> ∅.
Definition demo_cli (options : CliOptions) : Run Outcome :=
  @cli_outcome ascii_unicode tally_chrono demo_encode demo_decode demo_env demo_journalctl (Ok [])
    None None options demo_fs.
Definition demo_cli_node (options : CliOptions) : option Node := final (demo_cli options) !! demo_file.

Lemma cli_keeps_state_valid_witness :
  is_ok (returned (demo_cli demo_options)) = true ∧ demo_cli_node demo_options = Some (File "demo")
  ∧ ∃ s', @holds ascii_unicode tally_chrono demo_decode s' (demo_cli_node demo_options)
          ∧ @valid_state ascii_unicode tally_chrono s'.
Proof.
  assert (Hok : is_ok (returned (demo_cli demo_options)) = true) by (vm_compute; reflexivity).
  split; [exact Hok|]. split; [vm_compute; reflexivity|].
  assert (Hsys : distinct_entries (Ok [])).
  { intros es Hes. injection Hes as <-. exact (NoDup_nil_2). }
  pose proof (@cli_keeps_state_valid ascii_unicode tally_chrono demo_encode demo_decode demo_env
    demo_journalctl (Ok []) None None demo_options demo_fs demo_codec demo_proper_name Hsys) as [_ Hr].
  unfold demo_cli_node. change (unwrap_or (o_state_file demo_options) (default_state_file None None))
    with demo_file in Hr.
  change (@cli_outcome ascii_unicode tally_chrono demo_encode demo_decode demo_env demo_journalctl (Ok [])
    None None demo_options demo_fs) with (demo_cli demo_options) in Hr.
  destruct (returned (demo_cli demo_options)) as [o|e]; [|discriminate Hok].
  destruct Hr as (input & _ & s & s' & _ & _ & Hval & Hh). exists s'. split; [exact Hh|exact Hval].
Defined.

Lemma fixtures_are_isolated_witness :
  supplied_fixture demo_options = true
  ∧ demo_cli demo_options
    = @cli_outcome ascii_unicode tally_chrono demo_encode demo_decode demo_env (λ _, TimedOut) (Err "gone")
        None None demo_options demo_fs.
Proof.
  assert (Hfix : supplied_fixture demo_options = true) by reflexivity.
  split; [exact Hfix|].
  exact (proj1 (@fixtures_are_isolated ascii_unicode tally_chrono demo_encode demo_decode demo_env None None
    demo_options demo_fs Hfix demo_journalctl (λ _, TimedOut) (Ok []) (Err "gone"))).
Defined.
