(* ===== verification/Spool.v ===== *)
(** * Spool recovery ([src/shipper.rs])

    File names of the spool directory, the bounded line reader, the padding of
    published files, and the recovery of a file that an earlier process left
    behind.  File-system calls are those of [FileSystem]. *)
From Stdlib Require Import Ascii.
From S2P Require Import Prelude FileSystem.

Definition RECOVERY_MAX_LINE_BYTES : Z := 1024 * 1024.
Definition MIN_PUBLISHED_SPOOL_BYTES : Z := 1024.

(** ** Names *)

(** [file_name().and_then(to_str)]. *)
Definition name_str (name : string) : option string := if is_utf8 name then Some name else None.

Definition stranded_slug (name : string) : option string :=
  let! name := name_str name in
  let! rest := strip_prefix "rigsignal-" name in
  strip_suffix ".ndjson.tmp" rest.

Definition is_recovery_staging_file (name : string) : bool :=
  is_some_and (name_str name) (ends_with ".staging").

Definition is_retained_quarantine_file (name : string) : bool :=
  let name := unwrap_or (name_str name) EmptyString in
  starts_with "rigsignal-" name && ends_with ".quarantine" name.

Definition dataset_slug (dataset : string) : string := unwrap_or (last (split_char "." dataset)) dataset.

Definition final_name (slug : string) (millis seq : Z) (extension : string) : string :=
  "rigsignal-" +:+ slug +:+ "-" +:+ show millis +:+ "-" +:+ show seq +:+ "." +:+ extension.
Definition stage_name (slug : string) (millis seq : Z) (extension : string) : string :=
  ".rigsignal-" +:+ slug +:+ "-" +:+ show millis +:+ "-" +:+ show seq +:+ "." +:+ extension +:+ ".staging".
Definition active_name (slug : string) : string := "rigsignal-" +:+ slug +:+ ".ndjson.tmp".

(** ** Reading lines for recovery *)

Record RecoveryLine := { rl_bytes : string; rl_terminated : bool; rl_oversize : bool }.

(** The bytes of [line] after one buffer's content, and whether it is oversize. *)
Definition append_bounded (line : string) (oversize : bool) (content : string) : string * bool :=
  if oversize then (line, true)
  else if RECOVERY_MAX_LINE_BYTES <? slen line + slen content then (line, true)
  else (line +:+ content, false).

(** [read_recovery_line]: [buffers] are what successive [fill_buf] calls return
    (never empty before the end of the file); the rest is left for the next
    call. *)
Fixpoint read_recovery_line (line : string) (oversize : bool) (buffers : list string)
  : option RecoveryLine * list string :=
  match buffers with
  | [] =>
      (if is_empty line && negb oversize then None
       else Some {| rl_bytes := line; rl_terminated := false; rl_oversize := oversize |}, [])
  | buffer :: rest =>
      match find_nl buffer with
      | Some i =>
          let '(line, oversize) := append_bounded line oversize (take_bytes i buffer) in
          (Some {| rl_bytes := line; rl_terminated := true; rl_oversize := oversize |},
           if is_empty (drop_bytes (S i) buffer) then rest else drop_bytes (S i) buffer :: rest)
      | None =>
          let '(line, oversize) := append_bounded line oversize buffer in
          read_recovery_line line oversize rest
      end
  end.

(** The [while let] over [read_recovery_line]; every line consumes a byte, so
    the number of bytes, plus one, bounds the iterations. *)
Fixpoint recovery_lines_fuel (fuel : nat) (buffers : list string) : list RecoveryLine :=
  match fuel with
  | O => []
  | S fuel =>
      match read_recovery_line EmptyString false buffers with
      | (None, _) => []
      | (Some line, rest) => line :: recovery_lines_fuel fuel rest
      end
  end.
Definition recovery_lines (buffers : list string) : list RecoveryLine :=
  recovery_lines_fuel (S (String.length (concat_str buffers))) buffers.

(** ** Specification of the reader *)

(** What recovery looks at: a line's text unless it is oversize, and whether it
    was terminated. *)
Definition line_view (l : RecoveryLine) : option string * bool :=
  (if rl_oversize l then None else Some (rl_bytes l), rl_terminated l).
Definition view_of (content : string) (terminated : bool) : option string * bool :=
  (if RECOVERY_MAX_LINE_BYTES <? slen content then None else Some content, terminated).

(** The lines of a text: all segments but the last are terminated, the last is
    there only when it is not empty. *)
Fixpoint views (segments : list string) : list (option string * bool) :=
  match segments with
  | [] => []
  | [last] => if is_empty last then [] else [view_of last false]
  | segment :: rest => view_of segment true :: views rest
  end.
Definition text_views (s : string) : list (option string * bool) := views (split_char nl s).

Definition filled (buffers : list string) : Prop := Forall (λ b, b ≠ EmptyString) buffers.

(** [line] and [oversize] stand for the content read so far. *)
Definition stands_for (line : string) (oversize : bool) (content : string) : Prop :=
  if oversize then RECOVERY_MAX_LINE_BYTES < slen content
  else line = content ∧ slen content ≤ RECOVERY_MAX_LINE_BYTES.

Lemma append_bounded_stands line oversize content more line' oversize' :
  stands_for line oversize content →
  append_bounded line oversize more = (line', oversize') →
  stands_for line' oversize' (content +:+ more).
Proof.
  unfold append_bounded, stands_for. intros Hs. assert (Hlen : slen (content +:+ more) = slen content + slen more)
    by (unfold slen; rewrite length_str_app; lia).
  assert (0 ≤ slen more) by (unfold slen; lia). destruct oversize; [intros [= <- <-]; lia|].
  destruct Hs as [-> Hle]. destruct (Z.ltb_spec RECOVERY_MAX_LINE_BYTES (slen content + slen more));
    intros [= <- <-]; [lia|]. split; [done|lia].
Qed.

Lemma stands_view line oversize content terminated :
  stands_for line oversize content →
  line_view {| rl_bytes := line; rl_terminated := terminated; rl_oversize := oversize |}
  = view_of content terminated.
Proof.
  unfold stands_for, line_view, view_of. simpl. destruct oversize.
  - intros H. by rewrite (proj2 (Z.ltb_lt _ _) H).
  - intros [-> H]. by rewrite (proj2 (Z.ltb_ge _ _) H).
Qed.

Lemma split_nl_at a s : has_nl a = false → split_char nl (a +:+ str1 nl +:+ s) = a :: split_char nl s.
Proof. intros Ha. rewrite (split_char_app nl) by done. simpl. by rewrite str_app_nil_r. Qed.

Lemma find_nl_split buffer i :
  find_nl buffer = Some i →
  buffer = take_bytes i buffer +:+ str1 nl +:+ drop_bytes (S i) buffer ∧ has_nl (take_bytes i buffer) = false.
Proof.
  revert i. induction buffer as [|c s IH]; intros i; [done|]. cbn [find_nl].
  destruct (Ascii.eqb c nl) eqn:E.
  - intros [= <-]. apply Ascii.eqb_eq in E as ->. split; [by destruct s|done].
  - destruct (find_nl s) as [j|]; [|done]. intros [= <-]. destruct (IH j eq_refl) as [Hs Hn]. split.
    + change (String c s = String c (take_bytes j s +:+ str1 nl +:+ drop_bytes (S j) s)). by rewrite <-Hs.
    + unfold has_nl in *. simpl. by rewrite E.
Qed.

Lemma length_concat_cons b bs : String.length (concat_str (b :: bs)) = (String.length b + String.length (concat_str bs))%nat.
Proof. apply length_str_app. Qed.

(** One call: a terminated line, the unterminated end, or nothing left. *)
Lemma read_recovery_line_spec buffers : ∀ line oversize content,
  filled buffers → stands_for line oversize content → has_nl content = false →
  match read_recovery_line line oversize buffers with
  | (Some l, rest) =>
      (∃ segment, has_nl segment = false ∧ filled rest ∧ line_view l = view_of segment true
         ∧ content +:+ concat_str buffers = segment +:+ str1 nl +:+ concat_str rest)
      ∨ (has_nl (content +:+ concat_str buffers) = false ∧ rest = []
         ∧ content +:+ concat_str buffers ≠ EmptyString
         ∧ line_view l = view_of (content +:+ concat_str buffers) false)
  | (None, rest) => content +:+ concat_str buffers = EmptyString
  end.
Proof.
  induction buffers as [|b bs IH]; intros line oversize content Hfill Hs Hn; cbn [read_recovery_line].
  - cbn [concat_str]. rewrite str_app_nil_r. destruct (is_empty line && negb oversize) eqn:E.
    + apply andb_true_iff in E as [El Eo]. destruct oversize; [done|]. destruct Hs as [-> _]. by destruct content.
    + right. split_and!; [done|done| |by apply stands_view]. intros ->. destruct oversize.
      * unfold stands_for, slen, RECOVERY_MAX_LINE_BYTES in Hs. simpl in Hs. lia.
      * destruct Hs as [-> _]. done.
  - apply Forall_cons in Hfill as [Hb Hbs]. cbn [concat_str]. destruct (find_nl b) as [i|] eqn:Ei.
    + apply find_nl_split in Ei as [Hsplit Hseg].
      destruct (append_bounded line oversize (take_bytes i b)) as [line' oversize'] eqn:Ea.
      pose proof (append_bounded_stands _ _ _ _ _ _ Hs Ea) as Hs'. left.
      exists (content +:+ take_bytes i b). split_and!.
      * unfold has_nl in *. by rewrite any_byte_app, Hn, Hseg.
      * destruct (is_empty (drop_bytes (S i) b)) eqn:Ed; [done|]. constructor; [|done].
        intros Hd. by rewrite Hd in Ed.
      * by apply stands_view.
      * rewrite Hsplit at 1. rewrite <-!str_app_assoc. f_equal. f_equal. f_equal.
        destruct (is_empty (drop_bytes (S i) b)) eqn:Ed; [|done].
        destruct (drop_bytes (S i) b); [done|discriminate].
    + destruct (append_bounded line oversize b) as [line' oversize'] eqn:Ea.
      pose proof (append_bounded_stands _ _ _ _ _ _ Hs Ea) as Hs'.
      pose proof (find_nl_spec b) as Hnb. rewrite Ei in Hnb.
      rewrite str_app_assoc. apply IH; [done|done|]. unfold has_nl in *. by rewrite any_byte_app, Hn, Hnb.
Qed.

Lemma views_cons segment rest : rest ≠ [] → views (segment :: rest) = view_of segment true :: views rest.
Proof. by destruct rest. Qed.

Lemma recovery_lines_fuel_spec fuel buffers :
  filled buffers → (String.length (concat_str buffers) < fuel)%nat →
  line_view <$> recovery_lines_fuel fuel buffers = text_views (concat_str buffers).
Proof.
  revert buffers. induction fuel as [|fuel IH]; intros buffers Hfill Hlen; [lia|]. cbn [recovery_lines_fuel].
  pose proof (read_recovery_line_spec buffers EmptyString false EmptyString Hfill) as Hr.
  assert (Hs0 : stands_for EmptyString false EmptyString) by (split; [done|by vm_compute]).
  specialize (Hr Hs0 eq_refl). destruct (read_recovery_line _ _ _) as [[l|] rest].
  - change (EmptyString +:+ concat_str buffers) with (concat_str buffers) in Hr.
    destruct Hr as [(segment & Hseg & Hrest & Hv & Heq)|(Hnone & -> & Hne & Hv)].
    + rewrite fmap_cons, Hv. unfold text_views. rewrite Heq, (split_nl_at _ _ Hseg).
      rewrite views_cons by apply split_char_nonempty. f_equal. apply IH; [done|].
      rewrite Heq, !length_str_app in Hlen. simpl in Hlen. lia.
    + rewrite fmap_cons, Hv. unfold text_views.
      assert (Hsplit : split_char nl (concat_str buffers) = [concat_str buffers]).
      { pose proof ((split_char_app nl) _ EmptyString Hnone) as H. cbn [split_char] in H. by rewrite !str_app_nil_r in H. }
      rewrite Hsplit. cbn [views]. destruct (concat_str buffers) as [|c s]; [done|]. cbn [is_empty].
      f_equal. by destruct fuel.
  - change (EmptyString +:+ concat_str buffers) with (concat_str buffers) in Hr. by rewrite Hr.
Qed.

(** ** Padding *)

Fixpoint spaces (n : nat) : string :=
  match n with O => EmptyString | S n => String " " (spaces n) end.

(** The text [pad_spool_final] leaves. *)
Definition padded (s : string) : string :=
  if MIN_PUBLISHED_SPOOL_BYTES <=? slen s then s
  else take_bytes (String.length s - 1) s
       +:+ spaces (Z.to_nat (MIN_PUBLISHED_SPOOL_BYTES - slen s)) +:+ str1 nl.

Section calls.
Context (f : Faults).

(** [remove_file_if_exists]. *)
Definition remove_file_if_exists (place : string) (p : Path) : IO unit :=
  attempt f (At place) EmptyString
    (λ fs, match fs !! p with Some Dir => false | _ => true end) (delete p) tt.

(** Rewriting the text of an open file; a failed write changes nothing. *)
Definition update_file (place prefix : string) (p : Path) (g : string → string) : IO unit :=
  attempt f (At place) prefix
    (λ fs, match fs !! p with Some (File _) => true | _ => false end)
    (λ fs, match fs !! p with Some (File c) => <[p := File (g c)]> fs | _ => fs end) tt.

(** The text of a file that is opened and read. *)
Definition read_file (place prefix : string) (p : Path) : IO string :=
  call (λ fs, (fs, match fs !! p with
                   | Some (File c) => if fails f (At place) then Err (prefix +:+ os_error f (At place)) else Ok c
                   | _ => Err (prefix +:+ os_error f (At place))
                   end)).

Definition last_byte (s : string) : option ascii := String.get (String.length s - 1) s.

Definition pad_spool_final (p : Path) : IO Z :=
  let* text := read_file "pad-size" ("reading spool file size: ") p in
  let size := slen text in
  if MIN_PUBLISHED_SPOOL_BYTES <=? size then ret size
  else if size =? 0 then of_result (Err "cannot pad empty spool file")
  else
    let* text := read_file "pad-open" "opening spool file for padding: " p in
    if negb (bool_decide (last_byte text = Some nl)) then
      of_result (Err "spool file does not end in a newline")
    else
      let* _ := update_file "pad-set-len" EmptyString p (take_bytes (Z.to_nat (size - 1))) in
      let* _ := update_file "pad-spaces" EmptyString p
                  (λ s, s +:+ spaces (Z.to_nat (MIN_PUBLISHED_SPOOL_BYTES - size))) in
      let* _ := update_file "pad-newline" EmptyString p (λ s, s +:+ str1 nl) in
      ret MIN_PUBLISHED_SPOOL_BYTES.

(** ** Reserving a name *)

Definition u32_seq_next (seq : Z) : Z := sat_add_u32 seq 1.

(** [create_new]: [Ok false] for [AlreadyExists]. *)
Definition reserve_name (p : Path) : IO bool :=
  call (λ fs,
    match fs !! p with
    | Some _ => (fs, Ok false)
    | None =>
        if negb (fails f (At "reserve")) && can_hold fs p then (<[p := File EmptyString]> fs, Ok true)
        else (fs, Err ("reserving recovered spool filename: " +:+ os_error f (At "reserve")))
    end).

(** The loop over sequence numbers, up to the first free name. *)
Fixpoint reserve_from (fuel : nat) (dir : Path) (slug extension : string) (millis seq : Z)
  : IO (Path * Z) :=
  match fuel with
  | O => of_result (Err "no free spool name")
  | S fuel =>
      let target := path_join dir (final_name slug millis seq extension) in
      let* created := reserve_name target in
      if created then ret (target, seq)
      else reserve_from fuel dir slug extension millis (u32_seq_next seq)
  end.

(** One more attempt than there are entries. *)
Definition reserve (dir : Path) (slug extension : string) (millis : result Z string) (seq : Z)
  : IO (Path * Z) :=
  let* millis := of_result millis in
  λ fs, reserve_from (S (size fs)) dir slug extension millis seq fs.

(** [RecoveryPublisher::reserve] and [publish]; both return the next sequence
    number. *)
Definition publisher_reserve (dir : Path) (slug extension : string) (millis : result Z string) (seq : Z)
  : IO (Path * Z) :=
  let* (target, seq) := reserve dir slug extension millis seq in
  ret (target, u32_seq_next seq).
Definition publisher_publish (dir source : Path) (slug extension : string) (millis : result Z string) (seq : Z)
  : IO (Path * Z) :=
  let* (target, seq) := reserve dir slug extension millis seq in
  let* _ := or_cleanup (rename f (At "publish") "publishing recovered spool file: " source target)
              (remove_file_if_exists "unreserve" target) in
  ret (target, u32_seq_next seq).

Definition cleanup_stages (first second : option Path) : IO unit :=
  let remove (p : option Path) :=
    match p with Some p => or_cleanup (remove_file_if_exists "cleanup" p) (ret tt) | None => ret tt end in
  λ fs,
    let r1 := remove first fs in
    let r2 := remove second (final r1) in
    {| visited := visited r1 ++ visited r2; final := final r2; returned := Ok tt |}.
End calls.

(** ** Recovery of one stranded file *)

(** Whether bytes parse as JSON, how a reader's buffers cut a text, and the
    three clock readings (staging, reservation, publication). *)
Record RecoveryEnv := {
  re_faults : Faults;
  re_is_json : string → bool;
  re_buffers : string → list string;
  re_stage_millis : result Z string;
  re_reserve_millis : result Z string;
  re_publish_millis : result Z string;
}.

(** The loop's variables. *)
Record Recovery := { rc_stage : option Path; rc_malformed : bool; rc_partial : bool }.
Definition no_recovery : Recovery := {| rc_stage := None; rc_malformed := false; rc_partial := false |}.

Section recovery.
Context (env : RecoveryEnv).

(** [create_recovery_stage]. *)
Definition create_recovery_stage (dir : Path) (slug : string) (millis seq : Z) (extension : string) : IO Path :=
  let stage := path_join dir (stage_name slug millis seq extension) in
  let* _ := create_new (re_faults env) (At "stage") "creating recovery staging file: " stage in
  ret stage.

Definition recover_line (dir : Path) (slug : string) (millis seq : Z) (st : Recovery) (line : RecoveryLine)
  : IO Recovery :=
  if negb (rl_terminated line) then
    ret {| rc_stage := rc_stage st; rc_malformed := rc_malformed st || rl_oversize line; rc_partial := true |}
  else if rl_oversize line || is_empty (rl_bytes line) then
    ret {| rc_stage := rc_stage st; rc_malformed := rc_malformed st || rl_oversize line;
           rc_partial := rc_partial st |}
  else if re_is_json env (rl_bytes line) then
    let* stage := match rc_stage st with
                  | Some stage => ret stage
                  | None => create_recovery_stage dir slug millis seq "ndjson"
                  end in
    let* _ := update_file (re_faults env) "record" "writing recovered spool record: " stage
                (λ s, s +:+ rl_bytes line +:+ str1 nl) in
    ret {| rc_stage := Some stage; rc_malformed := rc_malformed st; rc_partial := rc_partial st |}
  else
    ret {| rc_stage := rc_stage st; rc_malformed := true; rc_partial := rc_partial st |}.

Fixpoint recover_lines (dir : Path) (slug : string) (millis seq : Z) (st : Recovery)
    (ls : list RecoveryLine) : IO Recovery :=
  match ls with
  | [] => ret st
  | line :: rest =>
      let* st := recover_line dir slug millis seq st line in
      recover_lines dir slug millis seq st rest
  end.

(** A read that fails part of the way has seen the first lines only. *)
Definition recover_text (dir : Path) (slug : string) (millis seq : Z) (text : string) : IO Recovery :=
  let ls := recovery_lines (re_buffers env text) in
  if fails (re_faults env) (At "read-line") then
    let* _ := recover_lines dir slug millis seq no_recovery (take (written (re_faults env)) ls) in
    of_result (Err (os_error (re_faults env) (At "read-line")))
  else recover_lines dir slug millis seq no_recovery ls.

(** From the reservation on: publication, then disposal of the source. *)
Definition publish_recovered (dir source : Path) (slug : string) (seq : Z) (st : Recovery)
    (before_publish : result unit string) : IO Z :=
  let* (reservation, seq) :=
    if rc_malformed st || rc_partial st then
      let* (target, seq) :=
        or_cleanup (publisher_reserve (re_faults env) dir slug "quarantine" (re_reserve_millis env) seq)
          (cleanup_stages (re_faults env) (rc_stage st) None) in
      ret (Some target, seq)
    else ret (None, seq) in
  let* _ := or_cleanup (of_result before_publish)
              (cleanup_stages (re_faults env) (rc_stage st) reservation) in
  let* seq :=
    match rc_stage st with
    | Some stage =>
        let* (_, seq) :=
          or_cleanup (publisher_publish (re_faults env) dir stage slug "ndjson" (re_publish_millis env) seq)
            (cleanup_stages (re_faults env) (Some stage) reservation) in
        ret seq
    | None => ret seq
    end in
  let* _ :=
    match reservation with
    | Some target =>
        or_cleanup (rename (re_faults env) (At "quarantine") "quarantining recovered spool input at " source target)
          (remove_file_if_exists (re_faults env) "unquarantine" target)
    | None => remove_file_if_exists (re_faults env) "dispose" source
    end in
  ret seq.

(** Returns the next sequence number. *)
Definition recover_stranded_file (dir : Path) (name slug : string) (seq : Z)
    (before_publish : result unit string) : IO Z :=
  let source := path_join dir name in
  let* text := read_file (re_faults env) "open-source" "opening stranded spool file: " source in
  let* millis := of_result (re_stage_millis env) in
  let* st := recover_text dir slug millis seq text in
  match rc_stage st with
  | None =>
      if negb (rc_malformed st) && negb (rc_partial st) then ret seq
      else publish_recovered dir source slug seq st before_publish
  | Some stage =>
      let* _ := attempt (re_faults env) (At "flush") "flushing recovery staging file before publication: "
                  (λ _, true) id tt in
      let* _ := pad_spool_final (re_faults env) stage in
      publish_recovered dir source slug seq st before_publish
  end.

(** [recover_stranded_files]: first the orphaned staging files, then every
    stranded file.  The two listings are those of [read_dir]. *)
Fixpoint remove_staging (dir : Path) (names : list string) : IO unit :=
  match names with
  | [] => ret tt
  | name :: rest =>
      let* _ := (if is_recovery_staging_file name
                 then remove_file_if_exists (re_faults env) "orphan" (path_join dir name) else ret tt) in
      remove_staging dir rest
  end.
Fixpoint recover_each (dir : Path) (names : list string) (seq : Z) (before_publish : result unit string) : IO Z :=
  match names with
  | [] => ret seq
  | name :: rest =>
      let* seq := match stranded_slug name with
                  | Some slug => recover_stranded_file dir name slug seq before_publish
                  | None => ret seq
                  end in
      recover_each dir rest seq before_publish
  end.
Definition recover_stranded_files (list_dir : FS → Path → list string) (dir : Path) (seq : Z)
    (before_publish : result unit string) : IO Z :=
  let* _ := (λ fs, remove_staging dir (list_dir fs dir) fs) in
  λ fs, recover_each dir (list_dir fs dir) seq before_publish fs.
End recovery.

(** ** Specification of recovery *)

Definition record_of (is_json : string → bool) (v : option string * bool) : option string :=
  match v with
  | (Some b, true) => if negb (is_empty b) && is_json b then Some b else None
  | _ => None
  end.
Definition malformed_view (is_json : string → bool) (v : option string * bool) : bool :=
  match v with
  | (None, _) => true
  | (Some b, true) => negb (is_empty b) && negb (is_json b)
  | (Some _, false) => false
  end.
Definition partial_view (v : option string * bool) : bool := negb (snd v).

(** The records a stranded text still holds, and whether it holds anything
    else. *)
Definition records (is_json : string → bool) (text : string) : list string :=
  filter_map (record_of is_json) (text_views text).
Definition damaged (is_json : string → bool) (text : string) : bool :=
  existsb (malformed_view is_json) (text_views text) || existsb partial_view (text_views text).

Definition records_text (rs : list string) : string := concat_str ((λ r, r +:+ str1 nl) <$> rs).

(** The text of a published file: the records, one a line, with trailing
    spaces on the last to reach the floor. *)
Definition published_as (rs : list string) (text : string) : Prop :=
  MIN_PUBLISHED_SPOOL_BYTES ≤ slen text
  ∧ ∃ rs' r k, rs = rs' ++ [r] ∧ split_char nl text = rs' ++ [r +:+ spaces k; EmptyString].

(** ** Padding *)

Lemma slen_spaces n : slen (spaces n) = Z.of_nat n.
Proof. unfold slen. f_equal. induction n; simpl; congruence. Qed.

Lemma records_text_app rs rs' : records_text (rs ++ rs') = records_text rs +:+ records_text rs'.
Proof. unfold records_text. by rewrite fmap_app, concat_str_app. Qed.
Lemma records_text_one r : records_text [r] = r +:+ str1 nl.
Proof. unfold records_text. simpl. apply str_app_nil_r. Qed.

Lemma split_records rs s :
  Forall (λ r, has_nl r = false) rs → split_char nl (records_text rs +:+ s) = rs ++ split_char nl s.
Proof.
  induction 1 as [|r rs Hr _ IH]; [done|]. change (r :: rs) with ([r] ++ rs).
  rewrite records_text_app, records_text_one, <-!str_app_assoc. rewrite split_nl_at by done. by rewrite IH.
Qed.

Lemma has_nl_spaces n : has_nl (spaces n) = false.
Proof. induction n; [done|]. unfold has_nl in *. simpl. done. Qed.

Lemma last_byte_app_nl s : last_byte (s +:+ str1 nl) = Some nl.
Proof.
  unfold last_byte. rewrite length_str_app. simpl.
  replace (String.length s + 1 - 1)%nat with (String.length s) by lia.
  induction s as [|c s IH]; [done|]. exact IH.
Qed.

Lemma padded_published rs :
  rs ≠ [] → Forall (λ r, has_nl r = false) rs → published_as rs (padded (records_text rs)).
Proof.
  intros Hne Hn. destruct (exists_last Hne) as (rs' & r & ->). unfold padded, published_as.
  apply Forall_app in Hn as [Hn Hr]. apply Forall_cons in Hr as [Hr _].
  rewrite records_text_app, records_text_one, str_app_assoc.
  set (s := records_text rs' +:+ r).
  assert (Hsplit : ∀ x, has_nl x = false →
    split_char nl (s +:+ x +:+ str1 nl) = rs' ++ [r +:+ x; EmptyString]).
  { intros x Hx. unfold s. rewrite <-!str_app_assoc. rewrite split_records by done. f_equal.
    rewrite str_app_assoc. apply (split_nl_at (r +:+ x) EmptyString).
    unfold has_nl in *. by rewrite any_byte_app, Hr, Hx. }
  destruct (Z.leb_spec MIN_PUBLISHED_SPOOL_BYTES (slen (s +:+ str1 nl))) as [Hle|Hgt].
  - split; [done|]. exists rs', r, 0%nat. split; [done|exact (Hsplit EmptyString eq_refl)].
  - rewrite length_str_app. simpl (String.length (str1 nl)).
    replace (String.length s + 1 - 1)%nat with (String.length s) by lia. rewrite take_bytes_app. split.
    + rewrite !slen_app, slen_spaces. rewrite slen_app in Hgt.
      change (slen (str1 nl)) with 1 in *. pose proof (slen_nonneg s). lia.
    + eexists rs', r, _. split; [done|]. by apply Hsplit, has_nl_spaces.
Qed.

(** The segments of a text break no line. *)
Lemma split_char_no_nl s : Forall (λ r, has_nl r = false) (split_char nl s).
Proof.
  induction s as [|c s IH]; simpl; [by repeat constructor|].
  destruct (Ascii.eqb c nl) eqn:E; [by constructor|].
  destruct (split_char nl s) as [|x l]; [by repeat constructor; unfold has_nl; simpl; rewrite E|].
  apply Forall_cons in IH as [Hx Hl]. constructor; [|done]. unfold has_nl in *. simpl. by rewrite E.
Qed.

Lemma records_no_nl is_json text : Forall (λ r, has_nl r = false) (records is_json text).
Proof.
  unfold records, text_views. pose proof (split_char_no_nl text) as Hn.
  induction Hn as [|x l Hx Hn IH]; [constructor|]. destruct l as [|y l].
  - simpl. destruct (is_empty x); [constructor|]. unfold view_of. simpl.
    by destruct (RECOVERY_MAX_LINE_BYTES <? slen x).
  - rewrite views_cons by done. simpl. unfold view_of.
    destruct (RECOVERY_MAX_LINE_BYTES <? slen x); [exact IH|].
    destruct (negb (is_empty x) && is_json x); [by constructor|exact IH].
Qed.

(** ** Lower bounds

    The calls below are described by maps the file system contains: a new name is
    outside the map, so what the map holds is kept. *)

Section lower.
Context {I : FS → Prop} (f : Faults).

Lemma delete_lower (m fs : FS) (p : Path) : m !! p = None → m ⊆ fs → m ⊆ delete p fs.
Proof.
  rewrite !map_subseteq_spec. intros Hp Hfs i x Hi. rewrite lookup_delete_ne; [by apply Hfs|congruence].
Qed.

Lemma remove_lower (place : string) (p : Path) (m : FS) :
  (∀ fs, m ⊆ fs → I fs) → m !! p = None →
  triple I (λ fs, m ⊆ fs) (remove_file_if_exists f place p) (λ _ fs, m ⊆ fs) (λ fs, m ⊆ fs).
Proof.
  intros HI Hp. apply triple_attempt; [by intros fs Hfs; auto|]. intros fs Hfs _.
  pose proof (delete_lower _ _ _ Hp Hfs). auto.
Qed.

Definition named (dir : Path) (slug extension : string) (p : Path) : Prop :=
  ∃ millis seq, p = path_join dir (final_name slug millis seq extension).

Lemma reserve_from_lower (fuel : nat) (dir : Path) (slug extension : string) (millis seq : Z) (m : FS) :
  (∀ fs, m ⊆ fs → I fs) →
  triple I (λ fs, m ⊆ fs) (reserve_from f fuel dir slug extension millis seq)
    (λ r fs, named dir slug extension (fst r) ∧ m !! fst r = None ∧ <[fst r := File EmptyString]> m ⊆ fs)
    (λ fs, m ⊆ fs).
Proof.
  intros HI. revert seq. induction fuel as [|fuel IH]; intros seq; [by apply triple_result|].
  cbn [reserve_from]. set (target := path_join dir _).
  eapply triple_bind with (R := λ (created : bool) fs,
    if created then m !! target = None ∧ <[target := File EmptyString]> m ⊆ fs else m ⊆ fs).
  - apply triple_call. intros fs Hfs. destruct (fs !! target) eqn:E; simpl; [by auto|].
    destruct (_ && _); simpl; [|by auto].
    assert (Hm : m !! target = None) by (by eapply lookup_weaken_None). split.
    + apply HI. by apply insert_subseteq_r.
    + split; [done|]. by apply insert_mono.
  - intros [|]; [|apply IH]. apply triple_ret. intros fs [? ?]. split_and!; [|done..].
    by exists millis, seq.
Qed.

Lemma reserve_lower (dir : Path) (slug extension : string) (millis : result Z string) (seq : Z) (m : FS) :
  (∀ fs, m ⊆ fs → I fs) →
  triple I (λ fs, m ⊆ fs) (reserve f dir slug extension millis seq)
    (λ r fs, named dir slug extension (fst r) ∧ m !! fst r = None ∧ <[fst r := File EmptyString]> m ⊆ fs)
    (λ fs, m ⊆ fs).
Proof.
  intros HI. unfold reserve. eapply triple_bind with (R := λ _ fs, m ⊆ fs).
  - apply triple_result. intros fs Hfs. by destruct millis.
  - intros ms fs Hfs. by apply (reserve_from_lower (S (size fs))).
Qed.

Lemma publisher_reserve_lower (dir : Path) (slug extension : string) (millis : result Z string) (seq : Z) (m : FS) :
  (∀ fs, m ⊆ fs → I fs) →
  triple I (λ fs, m ⊆ fs) (publisher_reserve f dir slug extension millis seq)
    (λ r fs, named dir slug extension (fst r) ∧ m !! fst r = None ∧ <[fst r := File EmptyString]> m ⊆ fs)
    (λ fs, m ⊆ fs).
Proof.
  intros HI. unfold publisher_reserve. eapply triple_bind; [by apply reserve_lower|].
  intros [target seq']. apply triple_ret. by intros fs Hfs.
Qed.

(** Moving a file over a reserved name. *)
Lemma rename_lower (place prefix : string) (from to : Path) (node : Node) (m : FS) :
  (∀ fs, <[to := File EmptyString]> m ⊆ fs → I fs) →
  (∀ fs, <[to := node]> (delete from m) ⊆ fs → fs !! from = None → I fs) →
  m !! from = Some node → m !! to = None →
  triple I (λ fs, <[to := File EmptyString]> m ⊆ fs) (rename f (At place) prefix from to)
    (λ _ fs, <[to := node]> (delete from m) ⊆ fs ∧ fs !! from = None)
    (λ fs, <[to := File EmptyString]> m ⊆ fs).
Proof.
  intros HI HI' Hfrom Hto. assert (Hne : from ≠ to) by congruence. apply triple_call. intros fs Hfs.
  assert (Hf : fs !! from = Some node) by (eapply lookup_weaken; [|exact Hfs]; by rewrite lookup_insert_ne).
  assert (Ht : fs !! to = Some (File EmptyString)) by (eapply lookup_weaken; [|exact Hfs]; apply lookup_insert_eq).
  rewrite Hf, Ht. destruct (fails _ _); simpl; [by auto|].
  assert (Hnew : <[to := node]> (delete from m) ⊆ <[to:=node]> (delete from fs)).
  { apply insert_mono, delete_mono. etrans; [|exact Hfs]. by apply insert_subseteq. }
  assert (Hgone : <[to:=node]> (delete from fs) !! from = None).
  { rewrite lookup_insert_ne by done. apply lookup_delete_eq. }
  auto.
Qed.

Lemma move_lower (place prefix place' : string) (from to : Path) (node : Node) (m : FS) :
  (∀ fs, m ⊆ fs → I fs) →
  (∀ fs, <[to := node]> (delete from m) ⊆ fs → fs !! from = None → I fs) →
  m !! from = Some node → m !! to = None →
  triple I (λ fs, <[to := File EmptyString]> m ⊆ fs)
    (or_cleanup (rename f (At place) prefix from to) (remove_file_if_exists f place' to))
    (λ _ fs, <[to := node]> (delete from m) ⊆ fs ∧ fs !! from = None) (λ fs, m ⊆ fs).
Proof.
  intros HI HI' Hfrom Hto. assert (Hsub : ∀ fs, <[to := File EmptyString]> m ⊆ fs → m ⊆ fs).
  { intros fs Hfs. etrans; [|exact Hfs]. by apply insert_subseteq. }
  eapply triple_or_cleanup; [by apply rename_lower; auto|].
  eapply triple_weaken; [by apply (remove_lower place' to m)|by apply Hsub|done|done].
Qed.

Lemma publisher_publish_lower (dir stage : Path) (slug extension : string) (millis : result Z string) (seq : Z)
    (node : Node) (m : FS) :
  (∀ fs, m ⊆ fs → I fs) →
  (∀ to fs, m !! to = None → <[to := node]> (delete stage m) ⊆ fs → I fs) →
  m !! stage = Some node →
  triple I (λ fs, m ⊆ fs) (publisher_publish f dir stage slug extension millis seq)
    (λ r fs, named dir slug extension (fst r) ∧ m !! fst r = None
             ∧ <[fst r := node]> (delete stage m) ⊆ fs)
    (λ fs, m ⊆ fs).
Proof.
  intros HI HI' Hstage. unfold publisher_publish. eapply triple_bind; [by apply reserve_lower|].
  intros [target seq']. cbn [fst].
  intros fs (Hname & Hm & Hfs).
  assert (Ht : triple I (λ fs, <[target := File EmptyString]> m ⊆ fs)
    (let* _ := or_cleanup (rename f (At "publish") "publishing recovered spool file: " stage target)
                 (remove_file_if_exists f "unreserve" target) in ret (target, u32_seq_next seq'))
    (λ r fs, named dir slug extension (fst r) ∧ m !! fst r = None ∧ <[fst r := node]> (delete stage m) ⊆ fs)
    (λ fs, m ⊆ fs)).
  { eapply triple_bind; [apply move_lower; [done| |done|done]|].
    - intros fs' Hfs' _. by apply (HI' target).
    - intros []. apply triple_ret. by intros fs' [Hfs' _]. }
  by apply Ht.
Qed.

(** Cleaning up removes new names only, and always succeeds. *)
Lemma cleanup_lower (first second : option Path) (m : FS) :
  (∀ fs, m ⊆ fs → I fs) →
  (∀ p, first = Some p → m !! p = None) → (∀ p, second = Some p → m !! p = None) →
  triple I (λ fs, m ⊆ fs) (cleanup_stages f first second) (λ _ fs, m ⊆ fs) (λ fs, m ⊆ fs).
Proof.
  intros HI H1 H2.
  assert (Hr : ∀ (o : option Path) fs, (∀ p, o = Some p → m !! p = None) → m ⊆ fs →
    let r := match o with Some p => or_cleanup (remove_file_if_exists f "cleanup" p) (ret tt) | None => ret tt end fs in
    Forall I (visited r) ∧ m ⊆ final r).
  { intros o fs Ho Hfs. destruct o as [p|]; simpl; [|by split].
    assert (Hp : triple I (λ fs, m ⊆ fs) (or_cleanup (remove_file_if_exists f "cleanup" p) (ret tt))
      (λ _ fs, m ⊆ fs) (λ fs, m ⊆ fs)).
    { eapply triple_or_cleanup; [apply remove_lower; [done|by apply Ho]|by apply triple_ret]. }
    destruct (Hp fs Hfs) as [Hv Hf]. split; [done|]. by destruct (returned _). }
  intros fs Hfs. unfold cleanup_stages. cbn [visited final returned].
  destruct (Hr first fs H1 Hfs) as [Hv1 Hf1]. destruct (Hr second _ H2 Hf1) as [Hv2 Hf2].
  split; [by apply Forall_app|exact Hf2].
Qed.
End lower.

(** ** Recovery, step by step *)

Section safety.
Context (env : RecoveryEnv) (fs0 : FS) (dir : Path) (name text : string).
Abbreviation source := (path_join dir name).
Context (Hsource : fs0 !! source = Some (File text)).

(** A new file: absent at the start. *)
Definition fresh (p : Path) : Prop := fs0 !! p = None.

(** Everything the start held is still there. *)
Definition intact (fs : FS) : Prop := fs0 ⊆ fs.

(** Everything but the source is, and what the source held is published or
    quarantined. *)
Definition recovered_to (slug : string) (fs : FS) : Prop :=
  delete source fs0 ⊆ fs ∧ fs !! source = None
  ∧ (records (re_is_json env) text ≠ [] →
       ∃ millis seq published, fresh (path_join dir (final_name slug millis seq "ndjson"))
         ∧ fs !! path_join dir (final_name slug millis seq "ndjson") = Some (File published)
         ∧ published_as (records (re_is_json env) text) published)
  ∧ (damaged (re_is_json env) text = true →
       ∃ millis seq, fresh (path_join dir (final_name slug millis seq "quarantine"))
         ∧ fs !! path_join dir (final_name slug millis seq "quarantine") = Some (File text)).

Context (slug : string).
Definition safe (fs : FS) : Prop := intact fs ∨ recovered_to slug fs.

Lemma intact_insert p node fs : fresh p → intact fs → intact (<[p := node]> fs).
Proof. intros Hp Hfs. by apply insert_subseteq_r. Qed.
Lemma intact_delete p fs : fresh p → intact fs → intact (delete p fs).
Proof.
  unfold fresh, intact. rewrite !map_subseteq_spec. intros Hp Hfs i x Hi.
  rewrite lookup_delete_ne; [by apply Hfs|congruence].
Qed.
Lemma intact_source fs : intact fs → fs !! source = Some (File text).
Proof. intros Hfs. by eapply lookup_weaken. Qed.

(** The loop's variables after the views [vs], and the staging file. *)
Definition staged (vs : list (option string * bool)) (st : Recovery) (fs : FS) : Prop :=
  rc_malformed st = existsb (malformed_view (re_is_json env)) vs
  ∧ rc_partial st = existsb partial_view vs
  ∧ match rc_stage st with
    | None => filter_map (record_of (re_is_json env)) vs = []
    | Some stage =>
        filter_map (record_of (re_is_json env)) vs ≠ [] ∧ fresh stage
        ∧ fs !! stage = Some (File (records_text (filter_map (record_of (re_is_json env)) vs)))
    end.
Definition progress (vs : list (option string * bool)) (st : Recovery) (fs : FS) : Prop :=
  intact fs ∧ staged vs st fs.

Lemma safe_intact fs : intact fs → safe fs.
Proof. by left. Qed.
#[local] Hint Resolve safe_intact : core.

Lemma recover_line_progress millis seq vs st l :
  triple safe (progress vs st) (recover_line env dir slug millis seq st l)
    (progress (vs ++ [line_view l])) intact.
Proof.
  unfold recover_line. destruct l as [b term over]. cbn [rl_terminated rl_oversize rl_bytes line_view].
  assert (Hskip : ∀ m p,
    rc_malformed st || malformed_view (re_is_json env) (line_view {| rl_bytes := b; rl_terminated := term; rl_oversize := over |}) = m →
    rc_partial st || negb term = p →
    record_of (re_is_json env) (line_view {| rl_bytes := b; rl_terminated := term; rl_oversize := over |}) = None →
    triple safe (progress vs st) (ret {| rc_stage := rc_stage st; rc_malformed := m; rc_partial := p |})
      (progress (vs ++ [line_view {| rl_bytes := b; rl_terminated := term; rl_oversize := over |}])) intact).
  { intros m p Hm Hp Hr. apply triple_ret. intros fs (Hfs & Hmal & Hpar & Hst). split; [done|].
    unfold staged. cbn [rc_stage rc_malformed rc_partial]. rewrite !existsb_app, <-Hmal, <-Hpar. simpl.
    rewrite !orb_false_r. split_and!; [by rewrite <-Hm|by rewrite <-Hp|].
    rewrite filter_map_app. cbn [filter_map]. rewrite Hr, app_nil_r. done. }
  destruct term; cbn [negb].
  2: { apply Hskip; unfold line_view; simpl; [by destruct over|by rewrite orb_true_r|by destruct over]. }
  destruct over; cbn [orb].
  { apply Hskip; unfold line_view; simpl; [done|by rewrite orb_false_r|done]. }
  destruct (is_empty b) eqn:Eb.
  { apply Hskip; unfold line_view; simpl; rewrite ?Eb; simpl; [done|by rewrite orb_false_r|done]. }
  destruct (re_is_json env b) eqn:Ej.
  2: { apply (Hskip true); unfold line_view; simpl; rewrite ?Eb, ?Ej; simpl;
         [by rewrite orb_true_r|by rewrite orb_false_r|done]. }
  set (rs := filter_map (record_of (re_is_json env)) vs).
  eapply triple_bind with (R := λ stage fs, intact fs ∧ fresh stage ∧ fs !! stage = Some (File (records_text rs))
    ∧ rc_malformed st = existsb (malformed_view (re_is_json env)) vs ∧ rc_partial st = existsb partial_view vs).
  - destruct (rc_stage st) as [stage|] eqn:Es.
    + apply triple_ret. intros fs (Hfs & Hm & Hp & Hst). rewrite Es in Hst. naive_solver.
    + unfold create_recovery_stage. set (stage := path_join dir _).
      eapply triple_bind with (R := λ _ fs, intact fs ∧ fresh stage ∧ fs !! stage = Some (File (records_text rs))
        ∧ rc_malformed st = existsb (malformed_view (re_is_json env)) vs ∧ rc_partial st = existsb partial_view vs).
      * apply triple_attempt; [by intros fs (Hfs & _); auto|]. intros fs (Hfs & Hm & Hp & Hst) Hok.
        rewrite Es in Hst. unfold rs. rewrite Hst. destruct (fs !! stage) eqn:E; [done|].
        assert (Hfresh : fresh stage) by (by eapply lookup_weaken_None).
        assert (intact (<[stage:=File ""]> fs)) by (by apply intact_insert).
        split; [auto|]. split_and!; [done..|apply lookup_insert_eq|done|done].
      * intros _. apply triple_ret. by intros fs H'.
  - intros stage. eapply triple_bind with (R := λ _ fs, progress (vs ++ [(Some b, true)])
      {| rc_stage := Some stage; rc_malformed := rc_malformed st; rc_partial := rc_partial st |} fs).
    + apply triple_attempt; [by intros fs (Hfs & _); auto|]. intros fs (Hfs & Hfresh & Hst & Hm & Hp) _. rewrite Hst.
      assert (intact (<[stage:=File (records_text rs +:+ b +:+ str1 nl)]> fs)) by (by apply intact_insert).
      split; [auto|]. split; [done|]. unfold staged. cbn [rc_stage rc_malformed rc_partial].
      rewrite !existsb_app, filter_map_app, Hm, Hp. simpl. rewrite Eb, Ej. simpl. rewrite !orb_false_r.
      split_and!; [done|done|by destruct (filter_map _ vs)|done|].
      rewrite lookup_insert_eq, records_text_app, records_text_one. done.
    + intros _. apply triple_ret. intros fs H'. exact H'.
Qed.

Lemma recover_lines_progress millis seq ls vs st :
  triple safe (progress vs st) (recover_lines env dir slug millis seq st ls)
    (progress (vs ++ (line_view <$> ls))) intact.
Proof.
  revert vs st. induction ls as [|l ls IH]; intros vs st; cbn [recover_lines].
  - apply triple_ret. intros fs. by rewrite app_nil_r.
  - eapply triple_bind; [apply recover_line_progress|]. intros st'.
    change (line_view <$> l :: ls) with ([line_view l] ++ (line_view <$> ls)). rewrite app_assoc. apply IH.
Qed.

Context (Hbuffers : filled (re_buffers env text) ∧ concat_str (re_buffers env text) = text).

Lemma recover_text_progress millis seq :
  triple safe intact (recover_text env dir slug millis seq text) (progress (text_views text)) intact.
Proof.
  unfold recover_text. destruct Hbuffers as [Hfill Hconcat].
  assert (Hall : line_view <$> recovery_lines (re_buffers env text) = text_views text).
  { unfold recovery_lines. rewrite recovery_lines_fuel_spec by (done || lia). by rewrite Hconcat. }
  assert (Hstart : ∀ fs, intact fs → progress [] no_recovery fs) by (by intros fs Hfs; split).
  destruct (fails _ _).
  - eapply triple_bind.
    + eapply triple_weaken; [apply (recover_lines_progress millis seq _ [])|exact Hstart| |done].
      intros st fs Hst. exact Hst.
    + intros st. apply triple_result. by intros fs [Hfs _].
  - eapply triple_weaken; [apply (recover_lines_progress millis seq _ [])|exact Hstart| |done].
    intros st fs. by rewrite app_nil_l, Hall.
Qed.

(** A staging file of complete lines is padded in place. *)
Lemma pad_stage stage rs :
  rs ≠ [] → fresh stage →
  triple safe (λ fs, intact fs ∧ fs !! stage = Some (File (records_text rs)))
    (pad_spool_final (re_faults env) stage)
    (λ _ fs, intact fs ∧ fs !! stage = Some (File (padded (records_text rs)))) intact.
Proof.
  intros Hne Hfresh. set (s := records_text rs).
  assert (Hlast : last_byte s = Some nl).
  { destruct (exists_last Hne) as (rs' & r & ->). unfold s. rewrite records_text_app, records_text_one, str_app_assoc.
    apply last_byte_app_nl. }
  assert (Hread : ∀ place prefix, triple safe (λ fs, intact fs ∧ fs !! stage = Some (File s))
    (read_file (re_faults env) place prefix stage) (λ x fs, x = s ∧ intact fs ∧ fs !! stage = Some (File s)) intact).
  { intros place prefix. apply triple_call. intros fs [Hfs Hst]. simpl. rewrite Hst.
    split; [auto|]. by destruct (fails _ _). }
  assert (Hupd : ∀ place prefix x g, triple safe (λ fs, intact fs ∧ fs !! stage = Some (File x))
    (update_file (re_faults env) place prefix stage g) (λ _ fs, intact fs ∧ fs !! stage = Some (File (g x))) intact).
  { intros place prefix x g. apply triple_attempt; [by intros fs [Hfs _]; auto|]. intros fs [Hfs Hst] _. rewrite Hst.
    pose proof (intact_insert _ (File (g x)) _ Hfresh Hfs).
    split; [auto|]. split; [done|apply lookup_insert_eq]. }
  unfold pad_spool_final, padded. eapply triple_bind; [apply Hread|]. intros x. apply triple_pure. intros ->.
  destruct (Z.leb_spec MIN_PUBLISHED_SPOOL_BYTES (slen s)) as [Hle|Hgt]; [by apply triple_ret|].
  destruct (slen s =? 0); [apply triple_result; by intros fs [Hfs _]|].
  eapply triple_bind; [apply Hread|]. intros x. apply triple_pure. intros ->.
  rewrite bool_decide_eq_true_2 by done. cbn [negb].
  eapply triple_bind; [apply Hupd|]. intros []. eapply triple_bind; [apply Hupd|]. intros [].
  eapply triple_bind; [apply Hupd|]. intros []. apply triple_ret. intros fs [Hfs Hst]. split; [done|].
  rewrite Hst. do 2 f_equal. rewrite <-str_app_assoc. f_equal. f_equal. unfold slen. lia.
Qed.

(** *** From the reservation on *)

Definition publication (m : FS) : Prop :=
  records (re_is_json env) text ≠ [] →
  ∃ target published, named dir slug "ndjson" target ∧ fresh target
    ∧ m !! target = Some (File published) ∧ published_as (records (re_is_json env) text) published.

Lemma publication_fresh m p : publication m → m !! p = None →
  publication m ∧ ∀ x, publication (<[p := x]> m).
Proof.
  intros Hpub Hp. split; [done|]. intros x Hr. destruct (Hpub Hr) as (t & pub & Hn & Hf & Ht & Hp').
  exists t, pub. rewrite lookup_insert_ne by congruence. done.
Qed.

Lemma fresh_not_source p : fresh p → p ≠ source.
Proof. unfold fresh. congruence. Qed.

Lemma recovered_from (m fs : FS) :
  fs0 ⊆ m → publication m → delete source m ⊆ fs → fs !! source = None →
  (damaged (re_is_json env) text = true →
     ∃ q, named dir slug "quarantine" q ∧ fresh q ∧ fs !! q = Some (File text)) →
  recovered_to slug fs.
Proof.
  intros Hm Hpub Hfs Hgone Hq. split_and!; [|done| |].
  - etrans; [by apply delete_mono|done].
  - intros Hr. destruct (Hpub Hr) as (t & pub & (ms & seq & ->) & Hf & Ht & Hp). exists ms, seq, pub.
    split_and!; [done| |done]. eapply lookup_weaken; [|exact Hfs].
    rewrite lookup_delete_ne; [done|]. by apply not_eq_sym, fresh_not_source.
  - intros Hd. destruct (Hq Hd) as (q & (ms & seq & ->) & Hf & Hfile). by exists ms, seq.
Qed.

Lemma dispose_quarantine (q : Path) (m : FS) :
  fs0 ⊆ m → fresh q → named dir slug "quarantine" q → m !! q = Some (File EmptyString) → publication m →
  triple safe (λ fs, m ⊆ fs)
    (or_cleanup (rename (re_faults env) (At "quarantine") "quarantining recovered spool input at " source q)
       (remove_file_if_exists (re_faults env) "unquarantine" q))
    (λ _ fs, recovered_to slug fs) intact.
Proof.
  intros Hm Hq Hname Hmq Hpub. assert (Hin : ∀ fs, m ⊆ fs → intact fs) by (intros fs Hfs; exact (transitivity Hm Hfs)).
  eapply triple_or_cleanup with (E' := λ fs, m ⊆ fs).
  - apply triple_call. intros fs Hfs. rewrite (intact_source fs) by auto.
    rewrite (lookup_weaken _ _ _ _ Hmq Hfs). destruct (fails _ _); simpl; [by auto|].
    assert (Hrec : recovered_to slug (<[q:=File text]> (delete source fs))).
    { apply (recovered_from (delete q m)); try done.
      - by apply delete_lower.
      - intros Hr. destruct (Hpub Hr) as (t & pub & Hn & Hf & Ht & Hp). exists t, pub.
        split_and!; [done|done| |done]. rewrite lookup_delete_ne; [done|]. intros <-.
        rewrite Hmq in Ht. injection Ht as <-. destruct Hp as [Hp _]. by vm_compute in Hp.
      - apply insert_subseteq_r.
        { rewrite lookup_delete_ne by (by apply not_eq_sym, fresh_not_source). apply lookup_delete_eq. }
        apply delete_mono. etrans; [apply delete_subseteq|done].
      - rewrite lookup_insert_ne; [apply lookup_delete_eq|]. by apply fresh_not_source.
      - intros _. exists q. split_and!; [done..|apply lookup_insert_eq]. }
    split; [by right|done].
  - apply triple_attempt; [by intros fs Hfs; auto|]. intros fs Hfs _.
    pose proof (intact_delete _ _ Hq (Hin _ Hfs)). auto.
Qed.

Lemma dispose_remove (m : FS) :
  fs0 ⊆ m → publication m → damaged (re_is_json env) text = false →
  triple safe (λ fs, m ⊆ fs) (remove_file_if_exists (re_faults env) "dispose" source)
    (λ _ fs, recovered_to slug fs) intact.
Proof.
  intros Hm Hpub Hd. apply triple_attempt.
  - intros fs Hfs. assert (intact fs) by exact (transitivity Hm Hfs). auto.
  - intros fs Hfs _. assert (recovered_to slug (delete source fs)).
    { apply (recovered_from m); [done|done|by apply delete_mono|apply lookup_delete_eq|congruence]. }
    split; [by right|done].
Qed.

Lemma cleanup_intact first second :
  (∀ p, first = Some p → fresh p) → (∀ p, second = Some p → fresh p) →
  triple safe intact (cleanup_stages (re_faults env) first second) (λ _, intact) intact.
Proof. intros H1 H2. apply (cleanup_lower (re_faults env) first second fs0); [by left|exact H1|exact H2]. Qed.

(** What the loop left behind, ready for publication. *)
Definition ready (st : Recovery) (fs : FS) : Prop :=
  intact fs ∧ rc_malformed st || rc_partial st = damaged (re_is_json env) text
  ∧ match rc_stage st with
    | None => records (re_is_json env) text = []
    | Some stage => fresh stage ∧ ∃ published, fs !! stage = Some (File published)
                      ∧ published_as (records (re_is_json env) text) published
    end.

(** The reservation of the quarantine name, if one is needed. *)
Definition reserved (m : FS) (r : option Path) (fs : FS) : Prop :=
  match r with
  | None => damaged (re_is_json env) text = false ∧ m ⊆ fs
  | Some q => named dir slug "quarantine" q ∧ fresh q ∧ m !! q = None ∧ <[q := File EmptyString]> m ⊆ fs
  end.

Lemma reserve_step st seq (m : FS) :
  fs0 ⊆ m → rc_malformed st || rc_partial st = damaged (re_is_json env) text →
  (∀ p, rc_stage st = Some p → fresh p) →
  triple safe (λ fs, m ⊆ fs)
    (if rc_malformed st || rc_partial st then
       let* (target, seq) :=
         or_cleanup (publisher_reserve (re_faults env) dir slug "quarantine" (re_reserve_millis env) seq)
           (cleanup_stages (re_faults env) (rc_stage st) None) in
       ret (Some target, seq)
     else ret (None, seq))
    (λ r fs, reserved m (fst r) fs) intact.
Proof.
  intros Hm Hd Hst. assert (Hin : ∀ fs, m ⊆ fs → intact fs) by (intros fs Hfs; exact (transitivity Hm Hfs)).
  rewrite Hd. destruct (damaged _ _) eqn:Ed; [|apply triple_ret; by intros fs Hfs].
  eapply triple_bind with (R := λ r fs, named dir slug "quarantine" (fst r) ∧ m !! fst r = None
    ∧ <[fst r := File EmptyString]> m ⊆ fs).
  - eapply triple_or_cleanup with (E' := intact).
    + eapply triple_weaken; [apply (publisher_reserve_lower (re_faults env) dir slug "quarantine" _ _ m)|..]; auto.
    + by apply cleanup_intact.
  - intros [q s]. apply triple_ret. intros fs (Hn & Hmq & Hfs). split_and!; [done| |done|done].
    by eapply lookup_weaken_None.
Qed.

Lemma reserved_intact m r fs : fs0 ⊆ m → reserved m r fs → intact fs.
Proof.
  intros Hm. destruct r as [q|]; simpl.
  - intros (_ & Hq & Hmq & Hfs). exact (transitivity Hm (transitivity (insert_subseteq m q _ Hmq) Hfs)).
  - intros [_ Hfs]. exact (transitivity Hm Hfs).
Qed.
Lemma reserved_fresh m r fs p : reserved m r fs → r = Some p → fresh p.
Proof. intros Hr ->. by destruct Hr as (_ & ? & _). Qed.

(** Publishing the staging file moves its text to a final name. *)
Lemma publish_step stage published r seq (m : FS) :
  fs0 ⊆ m → fresh stage → m !! stage = Some (File published) →
  published_as (records (re_is_json env) text) published →
  triple safe (reserved m r)
    (let* (_, seq) :=
       or_cleanup (publisher_publish (re_faults env) dir stage slug "ndjson" (re_publish_millis env) seq)
         (cleanup_stages (re_faults env) (Some stage) r) in
     ret seq)
    (λ _ fs, ∃ m', fs0 ⊆ m' ∧ publication m' ∧ reserved m' r fs) intact.
Proof.
  intros Hm Hfresh Hstage Hpub fs Hres.
  set (m1 := match r with Some q => <[q := File EmptyString]> m | None => m end).
  assert (Hrnew : ∀ q, r = Some q → fresh q ∧ m !! q = None) by (intros q ->; by destruct Hres as (_ & ? & ? & _)).
  assert (Hm1 : fs0 ⊆ m1).
  { unfold m1. destruct r as [q|]; [|done]. apply insert_subseteq_r; [|done]. by apply Hrnew. }
  assert (Hfs : m1 ⊆ fs) by (unfold m1; destruct r; simpl in Hres; tauto).
  assert (Hst1 : m1 !! stage = Some (File published)).
  { unfold m1. destruct r as [q|]; [|done]. rewrite lookup_insert_ne; [done|]. intros ->.
    destruct (Hrnew stage eq_refl). congruence. }
  assert (Hsafe : ∀ fs', m1 ⊆ fs' → safe fs') by (intros fs' Hfs'; left; exact (transitivity Hm1 Hfs')).
  assert (Hbase : ∀ to, m1 !! to = None → fs0 ⊆ <[to := File published]> (delete stage m1)).
  { intros to Hto. apply insert_subseteq_r; [by eapply lookup_weaken_None|]. by apply delete_lower. }
  assert (Ht : triple safe (λ fs, m1 ⊆ fs)
    (let* (_, seq) :=
       or_cleanup (publisher_publish (re_faults env) dir stage slug "ndjson" (re_publish_millis env) seq)
         (cleanup_stages (re_faults env) (Some stage) r) in ret seq)
    (λ _ fs, ∃ m', fs0 ⊆ m' ∧ publication m' ∧ reserved m' r fs) intact).
  { eapply triple_bind with (R := λ r fs, named dir slug "ndjson" (fst r) ∧ m1 !! fst r = None
      ∧ <[fst r := File published]> (delete stage m1) ⊆ fs).
    - eapply triple_or_cleanup with (E' := intact).
      + eapply triple_weaken; [eapply (publisher_publish_lower (re_faults env) dir stage slug "ndjson" _ _ _ m1)|..].
        * exact Hsafe.
        * intros to fs' Hto Hfs'. left. exact (transitivity (Hbase to Hto) Hfs').
        * exact Hst1.
        * done.
        * intros [to s] fs' H'. exact H'.
        * intros fs' Hfs'. exact (transitivity Hm1 Hfs').
      + apply cleanup_intact; [by intros p [= <-]|]. intros p Hp. by apply Hrnew.
    - intros [to s]. apply triple_ret. cbn [fst]. intros fs' (Hn & Hto & Hfs').
      exists (<[to := File published]> (delete stage m)).
      assert (Htom : m !! to = None ∧ ∀ q, r = Some q → q ≠ to).
      { unfold m1 in Hto. destruct r as [q|]; [|by split].
        rewrite lookup_insert_None in Hto. destruct Hto. split; [done|]. by intros ? [= ->]. }
      destruct Htom as [Htom Hqto]. split_and!.
      + apply insert_subseteq_r; [by eapply lookup_weaken_None|]. by apply delete_lower.
      + intros _. exists to, published. split_and!; [done|by eapply lookup_weaken_None|apply lookup_insert_eq|done].
      + unfold reserved, m1 in *. destruct r as [q|].
        * destruct Hres as (Hnq & Hq & Hmq & _). split_and!; [done|done| |].
          -- rewrite lookup_insert_ne by (by apply not_eq_sym, Hqto).
             rewrite lookup_delete_ne; [done|congruence].
          -- rewrite insert_insert_ne by (by apply Hqto). rewrite <-delete_insert_ne; [done|congruence].
        * by destruct Hres as [Hd _]. }
  exact (Ht fs Hfs).
Qed.

(** Disposal of the source by either way. *)
Lemma dispose_step r (m : FS) :
  fs0 ⊆ m → publication m →
  triple safe (reserved m r)
    (match r with
     | Some target =>
         or_cleanup (rename (re_faults env) (At "quarantine") "quarantining recovered spool input at " source target)
           (remove_file_if_exists (re_faults env) "unquarantine" target)
     | None => remove_file_if_exists (re_faults env) "dispose" source
     end) (λ _ fs, recovered_to slug fs) intact.
Proof.
  intros Hm Hpub fs Hres. destruct r as [q|]; simpl in Hres.
  - destruct Hres as (Hn & Hq & Hmq & Hfs).
    apply (dispose_quarantine q (<[q := File EmptyString]> m)); [by apply insert_subseteq_r|done|done|
      apply lookup_insert_eq|by apply publication_fresh|done].
  - destruct Hres as [Hd Hfs]. by apply (dispose_remove m).
Qed.

Lemma publish_recovered_safe st seq bp :
  triple safe (ready st) (publish_recovered env dir source slug seq st bp)
    (λ _ fs, recovered_to slug fs) intact.
Proof.
  intros fs (Hfs & Hd & Hst).
  assert (Hm : ∃ m : FS, fs0 ⊆ m ∧ m ⊆ fs ∧ match rc_stage st with
    | None => publication m
    | Some stage => fresh stage ∧ ∃ published, m !! stage = Some (File published)
                      ∧ published_as (records (re_is_json env) text) published end).
  { destruct (rc_stage st) as [stage|].
    - destruct Hst as (Hfresh & pub & Hpub & Hp). exists (<[stage := File pub]> fs0). split_and!.
      + by apply insert_subseteq.
      + by apply insert_subseteq_l.
      + done.
      + exists pub. split; [apply lookup_insert_eq|done].
    - exists fs0. split_and!; [done|done|]. intros Hr. by rewrite Hst in Hr. }
  destruct Hm as (m & Hm & Hmfs & Hstage).
  assert (Hfresh : ∀ p, rc_stage st = Some p → fresh p).
  { intros p Hp. rewrite Hp in Hstage. by destruct Hstage. }
  assert (Ht : triple safe (λ fs, m ⊆ fs) (publish_recovered env dir source slug seq st bp)
    (λ _ fs, recovered_to slug fs) intact).
  { unfold publish_recovered. eapply triple_bind; [by apply reserve_step|]. intros [r seq']. cbn [fst].
    eapply triple_bind with (R := λ _, reserved m r).
    - intros fs' Hres.
      assert (Hb : triple safe (reserved m r) (or_cleanup (of_result bp)
        (cleanup_stages (re_faults env) (rc_stage st) r)) (λ _, reserved m r) intact).
      { eapply triple_or_cleanup with (E' := λ fs, intact fs).
        - apply triple_result. intros fs'' Hres'. destruct bp; [done|by eapply reserved_intact].
        - apply cleanup_intact; [done|]. intros p Hp. by eapply reserved_fresh. }
      by apply Hb.
    - intros []. eapply triple_bind with (R := λ _ fs, ∃ m', fs0 ⊆ m' ∧ publication m' ∧ reserved m' r fs).
      + destruct (rc_stage st) as [stage|].
        * destruct Hstage as (Hf & pub & Hpub & Hp). by eapply publish_step.
        * apply triple_ret. intros fs' Hres. by exists m.
      + intros seq''. intros fs' (m' & Hm' & Hpub & Hres).
        assert (Hfin : triple safe (reserved m' r)
          (let* _ := match r with
             | Some target =>
                 or_cleanup (rename (re_faults env) (At "quarantine") "quarantining recovered spool input at " source target)
                   (remove_file_if_exists (re_faults env) "unquarantine" target)
             | None => remove_file_if_exists (re_faults env) "dispose" source
             end in ret seq'') (λ _ fs, recovered_to slug fs) intact).
        { eapply triple_bind; [by apply dispose_step|]. intros []. by apply triple_ret. }
        by apply Hfin. }
  by apply Ht.
Qed.

(** Nothing to recover, or recovered. *)
Definition settled (fs : FS) : Prop :=
  (records (re_is_json env) text = [] ∧ damaged (re_is_json env) text = false ∧ intact fs)
  ∨ recovered_to slug fs.

Lemma progress_damaged st fs :
  progress (text_views text) st fs → rc_malformed st || rc_partial st = damaged (re_is_json env) text.
Proof. by intros (_ & -> & -> & _). Qed.

Lemma recover_stranded_settles seq bp :
  triple safe intact (recover_stranded_file env dir name slug seq bp) (λ _, settled) intact.
Proof.
  unfold recover_stranded_file. eapply triple_bind with (R := λ x fs, x = text ∧ intact fs).
  { apply triple_call. intros fs Hfs. simpl. rewrite (intact_source _ Hfs). split; [auto|].
    by destruct (fails _ _). }
  intros x. apply triple_pure. intros ->. bind_keeping intact; [apply triple_result; by case_match|]. intros millis.
  eapply triple_bind; [apply recover_text_progress|]. intros st. destruct (rc_stage st) as [stage|] eqn:Es.
  - set (rs := records (re_is_json env) text).
    assert (Hstaged : ∀ fs, progress (text_views text) st fs → rs ≠ [] ∧ fresh stage ∧ intact fs
      ∧ fs !! stage = Some (File (records_text rs))).
    { intros fs (Hfs & _ & _ & Hst). rewrite Es in Hst. naive_solver. }
    intros fs0' Hprog. pose proof (progress_damaged _ _ Hprog) as Hd.
    destruct (Hstaged _ Hprog) as (Hne & Hfresh & Hfs & Hst).
    assert (Ht : triple safe (λ fs, intact fs ∧ fs !! stage = Some (File (records_text rs)))
      (let* _ := attempt (re_faults env) (At "flush") "flushing recovery staging file before publication: "
                   (λ _, true) id tt in
       let* _ := pad_spool_final (re_faults env) stage in
       publish_recovered env dir source slug seq st bp) (λ _, settled) intact).
    { bind_keeping (λ fs, intact fs ∧ fs !! stage = Some (File (records_text rs))).
      - apply triple_attempt; [by intros fs [? ?]; auto|]. intros fs [? ?] _. by auto.
      - intros []. eapply triple_bind; [by apply pad_stage|]. intros z.
        eapply triple_weaken; [apply (publish_recovered_safe st seq bp)| |by right|done].
        intros fs [Hfs' Hst']. split_and!; [done|done|]. rewrite Es. split; [done|].
        exists (padded (records_text rs)). split; [done|]. by apply padded_published, records_no_nl. }
    by apply Ht.
  - destruct (negb (rc_malformed st) && negb (rc_partial st)) eqn:En.
    + apply triple_ret. intros fs Hprog. left. pose proof (progress_damaged _ _ Hprog) as Hd.
      destruct Hprog as (Hfs & _ & _ & Hst). rewrite Es in Hst. split_and!; [done| |done].
      rewrite <-Hd. by destruct (rc_malformed st), (rc_partial st).
    + eapply triple_weaken; [apply (publish_recovered_safe st seq bp)| |by right|done].
      intros fs Hprog. pose proof (progress_damaged _ _ Hprog) as Hd.
      destruct Hprog as (Hfs & _ & _ & Hst). rewrite Es in Hst. split_and!; [done|done|]. by rewrite Es.
Qed.
End safety.

(** ** Properties *)

(** C6: the recovery of a stranded spool file loses nothing.  Whatever calls
    fail, and at every point one can look, either everything the directory held
    is still there, the stranded file included, or everything else is and the
    stranded file's content has moved: its complete JSON records, in order, to a
    new final file (padded by trailing spaces to the floor of the reader that
    picks it up), and, if it held anything else, its whole text to a new
    quarantine file.  A failure leaves everything in place; a success leaves the
    content moved, unless there was nothing to move. *)
Theorem recovery_is_safe (env : RecoveryEnv) (dir : Path) (name slug text : string) (seq : Z)
    (before_publish : result unit string) (fs : FS)
    (Hsource : fs !! path_join dir name = Some (File text))
    (Hbuffers : filled (re_buffers env text) ∧ concat_str (re_buffers env text) = text) :
  let r := recover_stranded_file env dir name slug seq before_publish fs in
  Forall (safe env fs dir name text slug) (visited r)
  ∧ match returned r with
    | Ok _ => settled env fs dir name text slug (final r)
    | Err _ => fs ⊆ final r
    end.
Proof. by apply recover_stranded_settles. Qed.

(** The recovery reader sees a text's lines whatever buffers it arrives in:
    each line's bytes up to the limit, a longer line as oversize, and whether it
    was terminated; it never stops early and never splits a line. *)
Theorem recovery_lines_buffering (buffers : list string) (Hfilled : filled buffers) :
  line_view <$> recovery_lines buffers = text_views (concat_str buffers).
Proof. unfold recovery_lines. apply recovery_lines_fuel_spec; [done|lia]. Qed.

(** A stranded file of one record, garbage, and a cut record. *)
Definition demo_spool_text : string :=
  "{}" +:+ str1 nl +:+ "garbage" +:+ str1 nl +:+ "[1" .
Definition demo_spool_fs : FS :=
  <[(true, ["spool"]) := Dir]> (<[(true, ["spool"; "rigsignal-cpu.ndjson.tmp"]) := File demo_spool_text]> ∅).
Definition demo_recovery : RecoveryEnv :=
  {| re_faults := {| fails _ := false; os_error _ := EmptyString; written := 0 |};
     re_is_json s := String.eqb s "{}";
     re_buffers s := [take_bytes 4 s; drop_bytes 4 s];
     re_stage_millis := Ok 5; re_reserve_millis := Ok 6; re_publish_millis := Ok 7 |}.
Definition demo_recover : Run Z :=
  recover_stranded_file demo_recovery (true, ["spool"]) "rigsignal-cpu.ndjson.tmp" "cpu" 1 (Ok tt) demo_spool_fs.
Definition demo_recovered (name : string) : option Node := final demo_recover !! (true, ["spool"; name]).

Lemma recovery_is_safe_witness :
  returned demo_recover = Ok 3
  ∧ demo_recovered "rigsignal-cpu-6-1.quarantine" = Some (File demo_spool_text)
  ∧ demo_recovered "rigsignal-cpu-7-2.ndjson" = Some (File ("{}" +:+ spaces 1021 +:+ str1 nl))
  ∧ demo_recovered "rigsignal-cpu.ndjson.tmp" = None
  ∧ settled demo_recovery demo_spool_fs (true, ["spool"]) "rigsignal-cpu.ndjson.tmp" demo_spool_text "cpu"
      (final demo_recover).
Proof.
  assert (Hok : returned demo_recover = Ok 3) by (vm_compute; reflexivity).
  split; [exact Hok|]. split; [vm_compute; reflexivity|]. split; [vm_compute; reflexivity|].
  split; [vm_compute; reflexivity|].
  assert (Hsrc : demo_spool_fs !! path_join (true, ["spool"]) "rigsignal-cpu.ndjson.tmp" = Some (File demo_spool_text))
    by (vm_compute; reflexivity).
  assert (Hbuf : filled (re_buffers demo_recovery demo_spool_text)
    ∧ concat_str (re_buffers demo_recovery demo_spool_text) = demo_spool_text).
  { split; [repeat constructor; discriminate|vm_compute; reflexivity]. }
  pose proof (recovery_is_safe demo_recovery (true, ["spool"]) "rigsignal-cpu.ndjson.tmp" "cpu" demo_spool_text 1
    (Ok tt) demo_spool_fs Hsrc Hbuf) as [_ Hr].
  change (recover_stranded_file demo_recovery (true, ["spool"]) "rigsignal-cpu.ndjson.tmp" "cpu" 1 (Ok tt)
    demo_spool_fs) with demo_recover in Hr.
  rewrite Hok in Hr. exact Hr.
Defined.

Lemma recovery_lines_buffering_witness :
  line_view <$> recovery_lines ["{}"; str1 nl +:+ "gar"; "bage"]
  = [(Some "{}", true); (Some "garbage", false)]
  ∧ line_view <$> recovery_lines ["{}"; str1 nl +:+ "gar"; "bage"]
    = text_views ("{}" +:+ str1 nl +:+ "garbage").
Proof.
  split; [vm_compute; reflexivity|].
  assert (Hf : filled ["{}"; str1 nl +:+ "gar"; "bage"]) by (repeat constructor; discriminate).
  exact (recovery_lines_buffering _ Hf).
Defined.
