(* ===== verification/Bulk.v ===== *)
(** * Bulk requests of the agent ([src/shipper.rs])

    The action lines and the body of a bulk request, the accounting of its
    response, the basic-authentication header, and the retry of the spool
    lock.  JSON documents are those of [Json]; their text and the HTTP
    exchange are arguments. *)
From Stdlib Require Import Ascii.
From S2P Require Import Prelude Float64 Json DiagnosisEvent Delivery.

(** ** Request *)

Record ShipDocument := { document : json; sd_id : option string }.

Definition bulk_action (doc : json) (id : option string) : result json string :=
  let? data_stream := ok_or (and_then (json_get "data_stream" doc) as_object)
                        "bulk document missing data_stream" in
  let? stream_type := ok_or (and_then (json_get "type" data_stream) as_str)
                        "bulk document missing data_stream.type" in
  if negb (String.eqb stream_type "metrics") && negb (String.eqb stream_type "logs") then
    Err ("unsupported data_stream.type; expected metrics or logs")
  else
    let? dataset := ok_or (and_then (json_get "dataset" data_stream) as_str)
                      "bulk document missing data_stream.dataset" in
    Ok (JObject [("create",
      JObject (("_index", JString (stream_type +:+ "-" +:+ dataset +:+ "-default"))
               :: match id with Some id => [("_id", JString id)] | None => [] end))]).

Section body.
(** [serde_json::to_string]. *)
Context (to_string : json → result string string).

Fixpoint request_body (docs : list ShipDocument) : result string string :=
  match docs with
  | [] => Ok EmptyString
  | doc :: rest =>
      let? action := bulk_action (document doc) (sd_id doc) in
      let? action_line := map_err (λ e, "serialising action line: " +:+ e) (to_string action) in
      let? doc_line := map_err (λ e, "serialising doc: " +:+ e) (to_string (document doc)) in
      let? body := request_body rest in
      Ok (action_line +:+ str1 nl +:+ doc_line +:+ str1 nl +:+ body)
  end.
End body.

(** ** Response *)

Definition item_status (item : option json) : option Z :=
  and_then item (λ action, and_then (json_get "status" action) as_u64).
Definition item_error (item : option json) : option json := and_then item (json_get "error").

Definition bulk_item_success (id : option string) (item : option json) : bool :=
  let keyed := match id with Some _ => true | None => false end in
  if keyed && bool_decide (item_status item = Some 201) then true
  else if keyed && bool_decide (item_status item = Some 409)
       && bool_decide (and_then (item_error item) (λ e, and_then (json_get "type" e) as_str)
                       = Some "version_conflict_engine_exception") then true
  else negb keyed && match item_error item with None => true | Some _ => false end.

(** [item.get("create").or_else(|| item.get("index"))]. *)
Definition create_of (item : json) : option json :=
  match json_get "create" item with Some c => Some c | None => json_get "index" item end.

Definition item_ok (has_errors : bool) (docs : list ShipDocument) (position : nat) (item : json) : bool :=
  let keyed := and_then (docs !! position) sd_id in
  let create := create_of item in
  match keyed with
  | Some _ => bulk_item_success keyed create
  | None => negb has_errors || bulk_item_success keyed create
  end.

(** The loop over the response's items, from a position on. *)
Fixpoint count_failed (has_errors : bool) (docs : list ShipDocument) (position : nat) (items : list json) : Z :=
  match items with
  | [] => 0
  | item :: rest =>
      (if item_ok has_errors docs position item then 0 else 1) + count_failed has_errors docs (S position) rest
  end.

Definition has_errors_of (resp_body : json) : bool :=
  unwrap_or (and_then (json_get "errors" resp_body) as_bool) false.

(** The accounting of a successful response; the subtraction is [usize]'s. *)
Definition ship_result (docs : list ShipDocument) (resp_body : json) : ShipResult :=
  let attempted := Z.of_nat (length docs) in
  let has_errors := has_errors_of resp_body in
  let failed :=
    if has_errors || existsb (λ d, match sd_id d with Some _ => true | None => false end) docs then
      match and_then (json_get "items" resp_body) as_array with
      | Some items => count_failed has_errors docs 0 items
      | None => attempted
      end
    else 0 in
  {| attempted := attempted; succeeded := wrap 64 (attempted - failed); failed := failed |}.

(** What came back for a bulk request. *)
Inductive Reply :=
| NotSent (error : string)
| Refused (message : string)
| Unparsable (error : string)
| Answered (body : json).

Definition ship_documents (to_string : json → result string string) (send : string → Reply)
    (docs : list ShipDocument) : result ShipResult string :=
  match docs with
  | [] => Ok {| attempted := 0; succeeded := 0; failed := 0 |}
  | _ =>
      let? body := request_body to_string docs in
      match send body with
      | NotSent error => Err ("sending bulk request: " +:+ error)
      | Refused message => Err message
      | Unparsable error => Err ("parsing bulk response: " +:+ error)
      | Answered resp_body => Ok (ship_result docs resp_body)
      end
  end.

Definition ship (to_string : json → result string string) (send : string → Reply) (docs : list json)
  : result ShipResult string :=
  ship_documents to_string send ((λ d, {| document := d; sd_id := None |}) <$> docs).

(** ** Basic authentication *)

Definition ALPHABET : string := "ABCDEFGHIJKLMNOPQRSTUVWXYZabcdefghijklmnopqrstuvwxyz0123456789+/".
Definition alphabet_at (n : Z) : ascii := unwrap_or (String.get (Z.to_nat n) ALPHABET) "="%char.

(** The four characters of one chunk of one to three bytes. *)
Definition encode_chunk (b0 : ascii) (b1 b2 : option ascii) : string :=
  let byte (b : option ascii) := match b with Some c => byte_val c | None => 0 end in
  let n := Z.lor (Z.lor (Z.shiftl (byte_val b0) 16) (Z.shiftl (byte b1) 8)) (byte b2) in
  String (alphabet_at (Z.shiftr n 18))
    (String (alphabet_at (Z.land (Z.shiftr n 12) 63))
      (String (match b1 with Some _ => alphabet_at (Z.land (Z.shiftr n 6) 63) | None => "="%char end)
        (str1 (match b2 with Some _ => alphabet_at (Z.land n 63) | None => "="%char end)))).

Fixpoint encode_base64 (input : string) : string :=
  match input with
  | EmptyString => EmptyString
  | String b0 EmptyString => encode_chunk b0 None None
  | String b0 (String b1 EmptyString) => encode_chunk b0 (Some b1) None
  | String b0 (String b1 (String b2 rest)) => encode_chunk b0 (Some b1) (Some b2) +:+ encode_base64 rest
  end.

(** The [Authorization] header. *)
Definition auth_header (api_key username password : option string) : option string :=
  match api_key, username, password with
  | Some key, _, _ => Some ("ApiKey " +:+ key)
  | None, Some user, Some pass => Some ("Basic " +:+ encode_base64 (user +:+ ":" +:+ pass))
  | None, _, _ => None
  end.

(** ** The spool lock *)

(** Milliseconds. *)
Definition SPOOL_LOCK_RETRY_CAP : Z := 2000.
Definition SPOOL_LOCK_BACKOFF_MS : list Z := [5; 10; 20; 40; 80; 160; 320].

(** The answer of one attempt: locked, contended, or another error. *)
Inductive LockTry := Locked | Contended | LockError.

Record LockRetryFailure := { lf_attempts : Z; lf_exhausted : bool }.

(** [try_spool_lock_with_retry]: [tries i] is the answer of the [i]-th attempt,
    [clock k] the [k]-th reading of the elapsed time; the result comes with the
    sleeps made. *)
Fixpoint try_lock_from (tries : nat → LockTry) (clock : nat → Z) (cap : Z) (attempt k : nat) (backoffs : list Z)
  : result unit LockRetryFailure * list Z :=
  let failure exhausted := Err {| lf_attempts := Z.of_nat (S attempt); lf_exhausted := exhausted |} in
  match tries attempt with
  | Locked => (Ok tt, [])
  | LockError => (failure false, [])
  | Contended =>
      match backoffs with
      | [] => (failure true, [])
      | backoff :: rest =>
          let remaining := Z.max 0 (cap - clock k) in
          if remaining =? 0 then (failure true, [])
          else
            let pause := Z.min backoff remaining in
            if cap <=? clock (S k) then (failure true, [pause])
            else
              let (r, sleeps) := try_lock_from tries clock cap (S attempt) (S (S k)) rest in
              (r, pause :: sleeps)
      end
  end.
Definition try_spool_lock_with_retry (tries : nat → LockTry) (clock : nat → Z) : result unit LockRetryFailure * list Z :=
  try_lock_from tries clock SPOOL_LOCK_RETRY_CAP 0 0 SPOOL_LOCK_BACKOFF_MS.

(** ** Accounting *)

(** Did the response acknowledge document [i]? *)
Definition acknowledged (docs : list ShipDocument) (resp_body : json) (items : list json) (i : nat) : bool :=
  match docs !! i, items !! i with
  | Some doc, Some item =>
      match sd_id doc with
      | Some _ =>
          bool_decide (item_status (create_of item) = Some 201)
          || (bool_decide (item_status (create_of item) = Some 409)
              && bool_decide (and_then (item_error (create_of item)) (λ e, and_then (json_get "type" e) as_str)
                              = Some "version_conflict_engine_exception"))
      | None => negb (has_errors_of resp_body) || negb (match item_error (create_of item) with Some _ => true | None => false end)
      end
  | _, _ => false
  end.

Lemma item_ok_acknowledged docs resp_body items i doc item :
  docs !! i = Some doc → items !! i = Some item →
  item_ok (has_errors_of resp_body) docs i item = acknowledged docs resp_body items i.
Proof.
  intros Hd Hi. unfold item_ok, acknowledged. rewrite Hd, Hi. simpl. destruct (sd_id doc) as [id|].
  - unfold bulk_item_success. cbn [negb andb].
    repeat match goal with |- context [bool_decide ?P] => destruct (bool_decide P) end; done.
  - unfold bulk_item_success. cbn [andb negb]. by destruct (item_error (create_of item)).
Qed.

Lemma count_failed_from docs resp_body items0 items i :
  length docs = length items0 → drop i items0 = items →
  count_failed (has_errors_of resp_body) docs i items
  = Z.of_nat (count (λ j, negb (acknowledged docs resp_body items0 j)) (seq i (length items))).
Proof.
  intros Hlen. revert i. induction items as [|item items IH]; intros i Hdrop; [done|]. cbn [count_failed length seq].
  assert (Hi : items0 !! i = Some item).
  { rewrite <-(Nat.add_0_r i), <-lookup_drop, Hdrop. done. }
  destruct (lookup_lt_is_Some_2 docs i) as [doc Hd].
  { rewrite Hlen. by eapply lookup_lt_Some. }
  rewrite (item_ok_acknowledged docs resp_body items0 i doc item Hd Hi), count_cons.
  rewrite (IH (S i)).
  - destruct (acknowledged _ _ _ _); simpl; lia.
  - by rewrite <-(Nat.add_1_r i), <-drop_drop, Hdrop.
Qed.

(** ** Base64 decoding, the reference *)

Fixpoint index_of (c : ascii) (s : string) : option Z :=
  match s with
  | EmptyString => None
  | String d s' => if Ascii.eqb c d then Some 0 else (λ n, n + 1) <$> index_of c s'
  end.
Definition byte_chr (z : Z) : ascii := ascii_of_N (Z.to_N (z mod 256)).

Definition decode_chunk (c0 c1 c2 c3 : ascii) : option string :=
  let! v0 := index_of c0 ALPHABET in
  let! v1 := index_of c1 ALPHABET in
  if Ascii.eqb c2 "=" then Some (str1 (byte_chr (v0 * 4 + v1 / 16)))
  else
    let! v2 := index_of c2 ALPHABET in
    let b0 := byte_chr (v0 * 4 + v1 / 16) in
    let b1 := byte_chr (v1 mod 16 * 16 + v2 / 4) in
    if Ascii.eqb c3 "=" then Some (String b0 (str1 b1))
    else
      let! v3 := index_of c3 ALPHABET in
      Some (String b0 (String b1 (str1 (byte_chr (v2 mod 4 * 64 + v3))))).

Fixpoint decode_base64 (s : string) : option string :=
  match s with
  | EmptyString => Some EmptyString
  | String c0 (String c1 (String c2 (String c3 rest))) =>
      let! head := decode_chunk c0 c1 c2 c3 in
      let! tail := decode_base64 rest in
      Some (head +:+ tail)
  | _ => None
  end.

Lemma alphabet_index n : 0 ≤ n < 64 → index_of (alphabet_at n) ALPHABET = Some n ∧ Ascii.eqb (alphabet_at n) "=" = false.
Proof.
  intros Hn.
  assert (Hall : forallb (λ k, bool_decide (index_of (alphabet_at (Z.of_nat k)) ALPHABET = Some (Z.of_nat k))
    && negb (Ascii.eqb (alphabet_at (Z.of_nat k)) "=")) (seq 0 64) = true) by (by vm_compute).
  rewrite forallb_forall in Hall. specialize (Hall (Z.to_nat n)). rewrite Z2Nat.id in Hall by lia.
  rewrite andb_true_iff, bool_decide_eq_true, negb_true_iff in Hall. apply Hall, in_seq. lia.
Qed.

Lemma byte_chr_val c : byte_chr (byte_val c) = c.
Proof.
  unfold byte_chr. rewrite Z.mod_small by apply byte_val_range. unfold byte_val.
  by rewrite N2Z.id, ascii_N_embedding.
Qed.

Lemma lor_disjoint a b k : 0 ≤ k → 0 ≤ b < 2 ^ k → Z.lor (a * 2 ^ k) b = a * 2 ^ k + b.
Proof.
  intros Hk Hb. rewrite <-Z.shiftl_mul_pow2 by done.
  pose proof (Z.add_lor_land (Z.shiftl a k) b) as Hadd.
  assert (Hland : Z.land (Z.shiftl a k) b = 0); [|lia].
  apply Z.bits_inj'. intros i Hi. rewrite Z.land_spec, Z.bits_0, Z.shiftl_spec by done.
  destruct (Z.ltb_spec i k); [by rewrite Z.testbit_neg_r by lia|].
  rewrite <-(Z.mod_small b (2 ^ k)), Z.mod_pow2_bits_high by lia. apply andb_false_r.
Qed.

(** The 24 bits of a chunk, as arithmetic. *)
Lemma chunk_bits x y z :
  0 ≤ x < 256 → 0 ≤ y < 256 → 0 ≤ z < 256 →
  Z.lor (Z.lor (Z.shiftl x 16) (Z.shiftl y 8)) z = x * 65536 + y * 256 + z.
Proof.
  intros Hx Hy Hz. rewrite !Z.shiftl_mul_pow2 by lia.
  rewrite (lor_disjoint x (y * 2 ^ 8) 16) by lia.
  replace (x * 2 ^ 16 + y * 2 ^ 8) with ((x * 256 + y) * 2 ^ 8) by lia.
  rewrite lor_disjoint by lia. lia.
Qed.

Lemma decode_encode_chunk b0 b1 b2 rest :
  (b1 = None → b2 = None) →
  decode_base64 (encode_chunk b0 b1 b2 +:+ rest)
  = let! tail := decode_base64 rest in
    Some (String b0 (match b1 with Some c => str1 c | None => EmptyString end
                     +:+ match b2 with Some c => str1 c | None => EmptyString end) +:+ tail).
Proof.
  intros Hb. unfold encode_chunk. set (x := byte_val b0).
  set (y := match b1 with Some c => byte_val c | None => 0 end).
  set (z := match b2 with Some c => byte_val c | None => 0 end).
  assert (Hx : 0 ≤ x < 256) by apply byte_val_range.
  assert (Hy : 0 ≤ y < 256) by (unfold y; destruct b1; [apply byte_val_range|lia]).
  assert (Hz : 0 ≤ z < 256) by (unfold z; destruct b2; [apply byte_val_range|lia]).
  rewrite (chunk_bits x y z) by done. set (n := x * 65536 + y * 256 + z).
  rewrite !Z.shiftr_div_pow2 by lia. change 63 with (Z.ones 6). rewrite !Z.land_ones by lia.
  assert (H0 : n / 2 ^ 18 = x / 4) by (unfold n; Z.div_mod_to_equations; lia).
  assert (H1 : n / 2 ^ 12 mod 2 ^ 6 = x mod 4 * 16 + y / 16) by (unfold n; Z.div_mod_to_equations; lia).
  assert (H2 : n / 2 ^ 6 mod 2 ^ 6 = y mod 16 * 4 + z / 64) by (unfold n; Z.div_mod_to_equations; lia).
  assert (H3 : n mod 2 ^ 6 = z mod 64) by (unfold n; Z.div_mod_to_equations; lia).
  rewrite H0, H1, H2, H3. clearbody n.
  destruct (alphabet_index (x / 4)) as [A0 _]; [Z.div_mod_to_equations; lia|].
  destruct (alphabet_index (x mod 4 * 16 + y / 16)) as [A1 _]; [Z.div_mod_to_equations; lia|].
  destruct (alphabet_index (y mod 16 * 4 + z / 64)) as [A2 E2]; [Z.div_mod_to_equations; lia|].
  destruct (alphabet_index (z mod 64)) as [A3 E3]; [Z.div_mod_to_equations; lia|].
  set (c2 := match b1 with Some _ => _ | None => _ end). set (c3 := match b2 with Some _ => _ | None => _ end).
  change (String (alphabet_at (x / 4)) (String (alphabet_at (x mod 4 * 16 + y / 16)) (String c2 (str1 c3))) +:+ rest)
    with (String (alphabet_at (x / 4)) (String (alphabet_at (x mod 4 * 16 + y / 16)) (String c2 (String c3 rest)))).
  cbn [decode_base64]. unfold decode_chunk. rewrite A0, A1.
  assert (B0 : byte_chr (x / 4 * 4 + (x mod 4 * 16 + y / 16) / 16) = b0).
  { rewrite <-(byte_chr_val b0). fold x. f_equal. Z.div_mod_to_equations; lia. }
  rewrite B0. unfold c2, c3. destruct b1 as [c1|].
  - rewrite E2, A2.
    assert (B1 : byte_chr ((x mod 4 * 16 + y / 16) mod 16 * 16 + (y mod 16 * 4 + z / 64) / 4) = c1).
    { rewrite <-(byte_chr_val c1). change (byte_val c1) with y. f_equal. Z.div_mod_to_equations; lia. }
    rewrite B1. destruct b2 as [d|]; [|by destruct (decode_base64 rest)].
    rewrite E3, A3.
    assert (B2 : byte_chr ((y mod 16 * 4 + z / 64) mod 4 * 64 + z mod 64) = d).
    { rewrite <-(byte_chr_val d). change (byte_val d) with z. f_equal. Z.div_mod_to_equations; lia. }
    rewrite B2. by destruct (decode_base64 rest).
  - rewrite Hb by done. by destruct (decode_base64 rest).
Qed.

Lemma base64_decodes (n : nat) (s : string) : (String.length s < n)%nat → decode_base64 (encode_base64 s) = Some s.
Proof.
  revert s. induction n as [|n IH]; intros s Hn; [lia|].
  destruct s as [|b0 [|b1 [|b2 rest]]]; [done|..].
  - pose proof (decode_encode_chunk b0 None None EmptyString (λ _, eq_refl)) as H.
    rewrite str_app_nil_r in H. exact H.
  - pose proof (decode_encode_chunk b0 (Some b1) None EmptyString (λ _, eq_refl)) as H.
    rewrite str_app_nil_r in H. exact H.
  - cbn [encode_base64]. rewrite decode_encode_chunk by done. rewrite IH; [done|]. simpl in Hn. lia.
Qed.

(** ** The lock *)

Lemma try_lock_from_spec tries clock cap attempt k backoffs :
  Forall (Z.le 0) backoffs →
  let '(r, sleeps) := try_lock_from tries clock cap attempt k backoffs in
  0 ≤ sumZ sleeps ≤ sumZ backoffs ∧ (length sleeps ≤ length backoffs)%nat ∧
  match r with
  | Ok _ => ∃ i, (attempt ≤ i ≤ attempt + length backoffs)%nat ∧ tries i = Locked
              ∧ (∀ j, (attempt ≤ j < i)%nat → tries j = Contended)
  | Err e => ∃ i, (attempt ≤ i ≤ attempt + length backoffs)%nat ∧ lf_attempts e = Z.of_nat (S i)
              ∧ (∀ j, (attempt ≤ j < i)%nat → tries j = Contended)
              ∧ tries i = (if lf_exhausted e then Contended else LockError)
  end.
Proof.
  intros Hb. revert attempt k. induction Hb as [|b bs Hb Hbs IH]; intros attempt k; cbn [try_lock_from].
  - destruct (tries attempt) eqn:E; simpl; (split; [unfold sumZ; simpl; lia|]; split; [lia|]);
      exists attempt; split_and!; try done; try lia; intros; lia.
  - assert (Hstop : ∀ r, r ≠ Locked → tries attempt = r →
      ∃ i, (attempt ≤ i ≤ attempt + length (b :: bs))%nat ∧ Z.of_nat (S attempt) = Z.of_nat (S i)
        ∧ (∀ j, (attempt ≤ j < i)%nat → tries j = Contended) ∧ tries i = r).
    { intros r _ Hr. exists attempt. split_and!; simpl; [lia..|intros; lia|done]. }
    pose proof (sumZ_nonneg bs Hbs) as Hs. rewrite sumZ_cons.
    destruct (tries attempt) eqn:E.
    + split; [unfold sumZ at 1 2; simpl; lia|]. split; [simpl; lia|].
      exists attempt. split_and!; simpl; [lia..|done|intros; lia].
    + destruct (Z.max 0 (cap - clock k) =? 0); [split; [unfold sumZ at 1 2; simpl; lia|]; split; [simpl; lia|];
        by apply (Hstop Contended)|].
      destruct (cap <=? clock (S k)); [split; [rewrite sumZ_cons; unfold sumZ at 1 2; simpl; lia|]; split; [simpl; lia|];
        by apply (Hstop Contended)|].
      specialize (IH (S attempt) (S (S k))). destruct (try_lock_from _ _ _ _ _ _) as [r sleeps].
      destruct IH as (Hsum & Hlen & Hr). rewrite sumZ_cons. split; [lia|]. split; [simpl; lia|].
      destruct r as [[]|e].
      * destruct Hr as (i & Hi & Hl & Hj). exists i. split_and!; simpl; [lia..|done|].
        intros j Hj'. destruct (decide (j = attempt)) as [->|]; [done|]. apply Hj. lia.
      * destruct Hr as (i & Hi & Ha & Hj & Ht). exists i. split_and!; simpl; [lia..|done| |done].
        intros j Hj'. destruct (decide (j = attempt)) as [->|]; [done|]. apply Hj. lia.
    + split; [unfold sumZ at 1 2; simpl; lia|]. split; [simpl; lia|]. by apply (Hstop LockError).
Qed.

(** ** Properties *)

(** The accounting of a bulk response.  When the response has one item per
    document, as many documents count as failed as it does not acknowledge (a
    keyed document is acknowledged by a 201 or by the version conflict of its own
    id; any other unless the response reports errors and its item has one), and
    the counts add up without wrapping. *)
Theorem ship_accounting (docs : list ShipDocument) (resp_body : json) (items : list json)
    (Hitems : and_then (json_get "items" resp_body) as_array = Some items)
    (Hlen : length items = length docs) (Hsize : Z.of_nat (length docs) ≤ u64_max) :
  let r := ship_result docs resp_body in
  failed r = Z.of_nat (count (λ i, negb (acknowledged docs resp_body items i)) (seq 0 (length docs)))
  ∧ succeeded r = Z.of_nat (count (acknowledged docs resp_body items) (seq 0 (length docs)))
  ∧ attempted r = Z.of_nat (length docs).
Proof.
  cbv zeta. unfold ship_result. rewrite Hitems. cbn [failed succeeded attempted].
  set (n := length docs). set (nack := λ i, negb (acknowledged docs resp_body items i)).
  set (keyed := existsb _ docs).
  assert (Hfailed : (if has_errors_of resp_body || keyed then count_failed (has_errors_of resp_body) docs 0 items else 0)
    = Z.of_nat (count nack (seq 0 n))).
  { destruct (has_errors_of resp_body || keyed) eqn:E.
    - unfold n. rewrite <-Hlen. by apply count_failed_from.
    - apply orb_false_iff in E as [He Hk]. enough (count nack (seq 0 n) = 0%nat) by lia.
      assert (Hall : Forall (λ i, nack i = false) (seq 0 n)).
      { apply Forall_forall. intros i Hi. apply elem_of_seq in Hi. unfold nack, acknowledged.
        destruct (lookup_lt_is_Some_2 docs i) as [doc Hd]; [lia|].
        destruct (lookup_lt_is_Some_2 items i) as [item Hit]; [lia|]. rewrite Hd, Hit, He.
        assert (Hdoc : sd_id doc = None); [|by rewrite Hdoc].
        destruct (sd_id doc) eqn:Ei; [|done]. exfalso. apply not_true_iff_false in Hk. apply Hk. apply existsb_exists.
        exists doc. rewrite Ei. split; [|done]. apply list_elem_of_In. by eapply list_elem_of_lookup_2. }
      clear -Hall. induction Hall as [|i l Hi _ IH]; [done|]. by rewrite count_cons, Hi, IH. }
  assert (Hsplit : (count nack (seq 0 n) + count (acknowledged docs resp_body items) (seq 0 n) = n)%nat).
  { rewrite <-(length_seq n 0) at 3. generalize (seq 0 n). unfold nack. induction l as [|i l IH]; [done|].
    rewrite !count_cons. destruct (acknowledged docs resp_body items i); simpl; lia. }
  rewrite Hfailed. split_and!; [done| |done]. rewrite wrap_small; [lia|].
  unfold u64_max in Hsize. fold n in Hsize. lia.
Qed.

(** Base64 is decodable: the encoding of any bytes, decoded by the reference
    decoder, is the bytes themselves. *)
Theorem base64_roundtrip (s : string) : decode_base64 (encode_base64 s) = Some s.
Proof. by apply (base64_decodes (S (String.length s))); lia. Qed.

(** Taking the spool lock is bounded whatever the clock: at most eight
    attempts and 635 ms of sleep.  It succeeds at the first attempt that is not
    contended if that one locks, reports exhaustion only after contention, and
    gives up at once on any other error. *)
Theorem spool_lock_bounded (tries : nat → LockTry) (clock : nat → Z) :
  let '(r, sleeps) := try_spool_lock_with_retry tries clock in
  0 ≤ sumZ sleeps ≤ 635 ∧ (length sleeps ≤ 7)%nat
  ∧ match r with
    | Ok _ => ∃ i, (i ≤ 7)%nat ∧ tries i = Locked ∧ ∀ j, (j < i)%nat → tries j = Contended
    | Err e => ∃ i, (i ≤ 7)%nat ∧ lf_attempts e = Z.of_nat (S i) ∧ (∀ j, (j < i)%nat → tries j = Contended)
                 ∧ tries i = (if lf_exhausted e then Contended else LockError)
    end.
Proof.
  unfold try_spool_lock_with_retry.
  pose proof (try_lock_from_spec tries clock SPOOL_LOCK_RETRY_CAP 0 0 SPOOL_LOCK_BACKOFF_MS) as H.
  assert (Hb : Forall (Z.le 0) SPOOL_LOCK_BACKOFF_MS) by (repeat constructor; lia). specialize (H Hb).
  destruct (try_lock_from _ _ _ _ _ _) as [r sleeps]. destruct H as (Hs & Hl & Hr).
  split; [exact Hs|]. split; [exact Hl|]. destruct r as [[]|e].
  - destruct Hr as (i & Hi & Hlock & Hj). exists i. simpl in Hi. split_and!; [lia|done|]. intros j ?. apply Hj. lia.
  - destruct Hr as (i & Hi & Ha & Hj & Ht). exists i. simpl in Hi. split_and!; [lia|done| |done].
    intros j ?. apply Hj. lia.
Qed.

(** A response without an item for a document counts it as shipped. *)
Definition demo_doc (id : option string) : ShipDocument := {| document := JNull; sd_id := id |}.
Lemma missing_item_counts_as_shipped :
  succeeded (ship_result [demo_doc (Some "a"); demo_doc (Some "b")]
               (JObject [("errors", JBool false);
                         ("items", JArray [JObject [("create", JObject [("status", JNumber (PosInt 201))])]])])) = 2.
Proof. by vm_compute. Qed.

Definition demo_conflict : json :=
  JObject [("create", JObject [("status", JNumber (PosInt 409));
    ("error", JObject [("type", JString "version_conflict_engine_exception")])])].
Definition demo_rejection : json :=
  JObject [("create", JObject [("status", JNumber (PosInt 400)); ("error", JObject [("type", JString "mapping")])])].
Definition demo_response : json :=
  JObject [("errors", JBool true); ("items", JArray [demo_conflict; demo_rejection])].

Lemma ship_accounting_witness :
  let docs := [demo_doc (Some "a"); demo_doc None] in
  succeeded (ship_result docs demo_response) = 1 ∧ failed (ship_result docs demo_response) = 1
  ∧ succeeded (ship_result docs demo_response)
    = Z.of_nat (count (acknowledged docs demo_response [demo_conflict; demo_rejection]) (seq 0 2)).
Proof.
  cbv zeta. split; [vm_compute; reflexivity|]. split; [vm_compute; reflexivity|].
  assert (Hsize : Z.of_nat (length [demo_doc (Some "a"); demo_doc None]) ≤ u64_max) by (vm_compute; discriminate).
  exact (proj1 (proj2 (ship_accounting [demo_doc (Some "a"); demo_doc None] demo_response
    [demo_conflict; demo_rejection] eq_refl eq_refl Hsize))).
Defined.
