(* ===== verification/SpoolWriter.v ===== *)
(** * Spool writer ([src/shipper.rs], [SpoolWriter])

    The active file of each dataset, writing through a buffer, rotation by size
    and age, publication, finalization and the pruning of old quarantine files.
    Every operation leaves a world whatever its result; faults and clocks are
    functions of the world, so they may differ from call to call. *)
From Stdlib Require Import Ascii.
From S2P Require Import Prelude Float64 Json DiagnosisEvent FileSystem StateOp Spool Bulk.

(** ** State *)

(** [BufWriter]'s capacity. *)
Definition BUFFER_BYTES : Z := 8192.

(** An active file: its path, the bytes its writer still holds, its size and
    when it was opened (nanoseconds). *)
Record DatasetSpool := {
  active_path : Path;
  buffer : string;
  current_file_bytes : Z;
  current_file_started : Z;
}.

(** The age limit is in seconds, the retention in seconds; the retention scan
    is what the directory iterator still has to give. *)
Record SpoolWriter := {
  sw_dir : Path;
  max_file_bytes : Z;
  max_file_age : Z;
  retention : Z;
  spools : gmap string DatasetSpool;
  next_seq : Z;
  retention_scan : option (list (result string string));
}.

Definition with_buffer (s : DatasetSpool) (b : string) : DatasetSpool :=
  {| active_path := active_path s; buffer := b; current_file_bytes := current_file_bytes s;
     current_file_started := current_file_started s |}.
Definition with_bytes (s : DatasetSpool) (n : Z) : DatasetSpool :=
  {| active_path := active_path s; buffer := buffer s; current_file_bytes := n;
     current_file_started := current_file_started s |}.
Definition with_spools (w : SpoolWriter) (m : gmap string DatasetSpool) : SpoolWriter :=
  {| sw_dir := sw_dir w; max_file_bytes := max_file_bytes w; max_file_age := max_file_age w;
     retention := retention w; spools := m; next_seq := next_seq w; retention_scan := retention_scan w |}.
Definition with_seq (w : SpoolWriter) (seq : Z) : SpoolWriter :=
  {| sw_dir := sw_dir w; max_file_bytes := max_file_bytes w; max_file_age := max_file_age w;
     retention := retention w; spools := spools w; next_seq := seq; retention_scan := retention_scan w |}.
Definition with_scan (w : SpoolWriter) (scan : option (list (result string string))) : SpoolWriter :=
  {| sw_dir := sw_dir w; max_file_bytes := max_file_bytes w; max_file_age := max_file_age w;
     retention := retention w; spools := spools w; next_seq := next_seq w; retention_scan := scan |}.

(** The writer, the file system, and the finals published so far, latest
    first. *)
Record World := { writer : SpoolWriter; files : FS; finals : list (string * Path) }.
Definition set_writer (w : World) (s : SpoolWriter) : World :=
  {| writer := s; files := files w; finals := finals w |}.
Definition set_files (w : World) (fs : FS) : World :=
  {| writer := writer w; files := fs; finals := finals w |}.
Definition put_spool (w : World) (slug : string) (s : DatasetSpool) : World :=
  set_writer w (with_spools (writer w) (<[slug := s]> (spools (writer w)))).

(** What a call can observe of its surroundings: the faults that hit it, the
    time since the epoch (milliseconds) and the monotonic clock (nanoseconds). *)
Record CallEnv := { env_faults : Faults; unix_millis : result Z string; now : Z }.

(** ** Operations *)

Abbreviation Op A := (StateOp World A).

Definition get_writer : Op SpoolWriter := λ w, (w, Ok (writer w)).
Definition modify_writer (g : SpoolWriter → SpoolWriter) : Op unit := λ w, (set_writer w (g (writer w)), Ok tt).
(** Records a publication. *)
Definition published (slug : string) (target : Path) : Op unit :=
  λ w, ({| writer := writer w; files := files w; finals := (slug, target) :: finals w |}, Ok tt).
Section writer.
Context (env : World → CallEnv).

Definition lift {A : Type} (m : Faults → IO A) : Op A :=
  λ w, let r := m (env_faults (env w)) (files w) in (set_files w (final r), returned r).
Definition read_env : Op CallEnv := λ w, (w, Ok (env w)).

Definition spool_of (slug : string) : Op (option DatasetSpool) :=
  do* w := get_writer in op_ret (spools w !! slug).
Definition insert_spool (slug : string) (s : DatasetSpool) : Op unit :=
  modify_writer (λ w, with_spools w (<[slug := s]> (spools w))).
(** [self.spools.remove(slug).expect(..)]. *)
Definition remove_spool (slug : string) : Op DatasetSpool :=
  do* w := get_writer in
  match spools w !! slug with
  | Some s => do* _ := modify_writer (λ w, with_spools w (delete slug (spools w))) in op_ret s
  | None => op_fail "dataset spool exists"
  end.

(** ** Files *)

(** [DatasetSpool::new]: [create(true).write(true).truncate(true)]. *)
Definition dataset_spool_new (dir : Path) (slug : string) (started : Z) (f : Faults) : IO DatasetSpool :=
  let p := path_join dir (active_name slug) in
  let* _ := attempt f (At "active-open") "opening active spool file: "
              (λ fs, match fs !! p with Some (File _) => true | Some _ => false | None => can_hold fs p end)
              (λ fs, <[p := File EmptyString]> fs) tt in
  ret {| active_path := p; buffer := EmptyString; current_file_bytes := 0; current_file_started := started |}.

(** [DatasetSpool::reopen] for append. *)
Definition dataset_spool_reopen (p : Path) (bytes started : Z) (f : Faults) : IO DatasetSpool :=
  let* _ := attempt f (At "active-reopen") "re-opening active spool file: "
              (λ fs, match fs !! p with Some (File _) => true | _ => false end) id tt in
  ret {| active_path := p; buffer := EmptyString; current_file_bytes := bytes; current_file_started := started |}.

(** Appending to the open file; a failure has written a prefix. *)
Definition append_file (place : string) (p : Path) (data : string) (f : Faults) : IO (result unit string) :=
  call (λ fs,
    match fs !! p with
    | Some (File c) =>
        if fails f (At place) then (<[p := File (c +:+ take_bytes (written f) data)]> fs, Ok (Err (os_error f (At place))))
        else (<[p := File (c +:+ data)]> fs, Ok (Ok tt))
    | _ => (fs, Ok (Err (os_error f (At place))))
    end).

(** [BufWriter::flush]: what was written leaves the buffer, on failure too. *)
Definition flush_spool (place : string) (s : DatasetSpool) (f : Faults) : IO (DatasetSpool * result unit string) :=
  if is_empty (buffer s) then ret (s, Ok tt)
  else
    let* r := append_file place (active_path s) (buffer s) f in
    ret (with_buffer s (match r with Ok _ => EmptyString | Err _ => drop_bytes (written f) (buffer s) end), r).

(** [BufWriter::write_all]: a full buffer is flushed first, and what does not
    fit an empty one goes to the file at once. *)
Definition write_all (s : DatasetSpool) (data : string) (f : Faults) : IO (DatasetSpool * result unit string) :=
  let* (s, r) := if BUFFER_BYTES <? slen (buffer s) + slen data then flush_spool "spill" s f else ret (s, Ok tt) in
  match r with
  | Err e => ret (s, Err e)
  | Ok _ =>
      if BUFFER_BYTES <=? slen data then
        let* r := append_file "direct" (active_path s) data f in ret (s, r)
      else ret (with_buffer s (buffer s +:+ data), Ok tt)
  end.

(** One document and its newline; only then does the size change. *)
Definition write_record (s : DatasetSpool) (line : string) (f : Faults) : IO (DatasetSpool * result unit string) :=
  let* (s, r) := write_all s line f in
  match r with
  | Err e => ret (s, Err e)
  | Ok _ =>
      let* (s, r) := write_all s (str1 nl) f in
      match r with
      | Err e => ret (s, Err e)
      | Ok _ => ret (with_bytes s (current_file_bytes s + (slen line + 1)), Ok tt)
      end
  end.

(** ** Publication *)

(** One turn of [publish_closed_file_at]'s loop: [None] when the name is taken.
    The next sequence number is kept on both paths. *)
Definition publish_attempt (source : Path) (slug extension : string) (millis : Z) : Op (option Path) :=
  do* w := get_writer in
  let target := path_join (sw_dir w) (final_name slug millis (next_seq w) extension) in
  do* created := lift (λ f, reserve_name f target) in
  if created then
    do* _ := lift (λ f, or_cleanup (rename f (At "publish") "publishing spool file: " source target)
                          (remove_file_if_exists f "unreserve" target)) in
    do* _ := published slug target in
    do* _ := modify_writer (λ w, with_seq w (u32_seq_next (next_seq w))) in
    op_ret (Some target)
  else
    do* _ := modify_writer (λ w, with_seq w (u32_seq_next (next_seq w))) in
    op_ret None.

(** The loop: as many names are tried as there are entries, and one more. *)
Fixpoint publish_from (fuel : nat) (source : Path) (slug extension : string) (millis : Z) : Op Path :=
  match fuel with
  | O => op_fail "no free spool name"
  | S fuel =>
      do* name := publish_attempt source slug extension millis in
      match name with
      | Some target => op_ret target
      | None => publish_from fuel source slug extension millis
      end
  end.
Definition publish_closed_file_at (source : Path) (slug extension : string) (millis : Z) : Op Path :=
  λ w, publish_from (S (size (files w))) source slug extension millis w.
Definition publish_closed_file (source : Path) (slug extension : string) : Op Path :=
  do* e := read_env in
  do* millis := op_result (unix_millis e) in
  publish_closed_file_at source slug extension millis.

(** Putting the spool back after a failure, re-opened for append. *)
Definition restore (slug : string) (p : Path) (bytes started : Z) : Op unit :=
  do* restored := lift (dataset_spool_reopen p bytes started) in
  insert_spool slug restored.
Definition fresh_spool (slug : string) : Op unit :=
  do* w := get_writer in
  do* e := read_env in
  do* fresh := lift (dataset_spool_new (sw_dir w) slug (now e)) in
  insert_spool slug fresh.

(** What happens to the closed file: an empty one is removed. *)
Definition publish_spool (slug : string) (s : DatasetSpool) : Op unit :=
  if current_file_bytes s =? 0 then lift (λ f, remove_file_if_exists f "remove-empty" (active_path s))
  else
    do* published_file_bytes :=
      op_catch (lift (λ f, pad_spool_final f (active_path s)))
        (restore slug (active_path s) (current_file_bytes s) (current_file_started s)) in
    do* _ := op_catch (publish_closed_file (active_path s) slug "ndjson")
               (restore slug (active_path s) published_file_bytes (current_file_started s)) in
    op_ret tt.

Definition close_publish_and_replace (slug : string) (spool : DatasetSpool) (replace_active : bool) : Op unit :=
  do* (spool, flushed) := lift (flush_spool "publish-flush" spool) in
  match flushed with
  | Err e => do* _ := insert_spool slug spool in op_fail e
  | Ok _ =>
      do* _ := publish_spool slug spool in
      if replace_active then fresh_spool slug else op_ret tt
  end.

Definition rotate (slug : string) : Op unit :=
  do* spool := remove_spool slug in
  close_publish_and_replace slug spool true.

(** [elapsed() >= max_file_age]. *)
Definition aged (w : SpoolWriter) (t : Z) (s : DatasetSpool) : bool :=
  max_file_age w * 10 ^ 9 <=? Z.max 0 (t - current_file_started s).

Definition rotate_if_needed (slug : string) : Op unit :=
  do* w := get_writer in
  do* e := read_env in
  match spools w !! slug with
  | None => op_fail "dataset spool exists before rotation check"
  | Some spool =>
      let size_exceeded := (0 <? max_file_bytes w) && (max_file_bytes w <? current_file_bytes spool) in
      let age_exceeded := (0 <? max_file_age w) && aged w (now e) spool in
      if size_exceeded || age_exceeded then rotate slug else op_ret tt
  end.

(** ** Writing *)

Definition ensure_spool (slug : string) : Op unit :=
  do* w := get_writer in
  match spools w !! slug with
  | Some _ => op_ret tt
  | None => fresh_spool slug
  end.

(** One document of a dataset: [line] is its text. *)
Definition write_line (slug line : string) : Op unit :=
  do* spool := spool_of slug in
  match spool with
  | None => op_fail "dataset spool exists after ensure_spool"
  | Some spool =>
      do* (spool, r) := lift (write_record spool line) in
      do* _ := insert_spool slug spool in
      do* _ := op_result r in
      rotate_if_needed slug
  end.

Fixpoint write_lines (slug : string) (lines : list string) : Op unit :=
  match lines with
  | [] => op_ret tt
  | line :: rest => do* _ := write_line slug line in write_lines slug rest
  end.

Definition flush_group (slug : string) : Op unit :=
  do* spool := spool_of slug in
  match spool with
  | None => op_fail "dataset spool exists after writes"
  | Some spool =>
      do* (spool, r) := lift (flush_spool "group-flush" spool) in
      do* _ := insert_spool slug spool in
      op_result r
  end.
Definition write_group (slug : string) (lines : list string) : Op unit :=
  do* _ := ensure_spool slug in
  do* _ := write_lines slug lines in
  flush_group slug.

Fixpoint write_groups (groups : list (string * list string)) : Op unit :=
  match groups with
  | [] => op_ret tt
  | (slug, lines) :: rest => do* _ := write_group slug lines in write_groups rest
  end.

(** The slug a document routes to. *)
Definition doc_slug (doc : json) : string :=
  match and_then (and_then (json_get "data_stream" doc) (json_get "dataset")) as_str with
  | Some dataset => dataset_slug dataset
  | None => "unknown"
  end.

Definition group_docs (to_string : json → string) (docs : list json) : gmap string (list string) :=
  foldl (λ m doc, <[doc_slug doc := unwrap_or (m !! doc_slug doc) [] ++ [to_string doc]]> m) ∅ docs.

(** [write_docs]; [order] is the iteration order of the hash map. *)
Definition write_docs (to_string : json → string)
    (order : gmap string (list string) → list (string * list string)) (docs : list json) : Op unit :=
  match docs with
  | [] => op_ret tt
  | _ => write_groups (order (group_docs to_string docs))
  end.

(** ** Finalization *)

(** The loop of [finalize_all] keeps going after an error and reports the first. *)
Fixpoint finalize_slugs (slugs : list string) (first_error : option string) : Op unit :=
  match slugs with
  | [] => match first_error with Some e => op_fail e | None => op_ret tt end
  | slug :: rest =>
      λ w,
        let (w', r) := (do* spool := remove_spool slug in close_publish_and_replace slug spool false) w in
        finalize_slugs rest
          (match first_error, r with None, Err e => Some e | _, _ => first_error end) w'
  end.
Definition finalize_all (key_order : gmap string DatasetSpool → list string) : Op unit :=
  do* w := get_writer in finalize_slugs (key_order (spools w)) None.

(** ** Retention *)

Definition RETENTION_SCAN_BATCH : nat := 1000.
Definition RETENTION_PRUNE_BATCH : nat := 1000.

(** What the retention reads: the directory's entries, and whether an entry was
    modified before the cutoff. *)
Record Retention := {
  read_dir : FS → Path → result (list (result string string)) string;
  before_cutoff : FS → Path → result bool string;
}.

(** The loop over at most [budget] entries; the iterator advances whatever
    happens to the entry. *)
Fixpoint prune_entries (ret : Retention) (prune_batch budget deletions : nat) : Op unit :=
  match budget with
  | O => op_ret tt
  | S budget =>
      do* w := get_writer in
      match retention_scan w with
      | None | Some [] => modify_writer (λ w, with_scan w None)
      | Some (entry :: rest) =>
          do* _ := modify_writer (λ w, with_scan w (Some rest)) in
          do* name := op_result entry in
          let p := path_join (sw_dir w) name in
          do* old := (if (deletions <? prune_batch)%nat && is_retained_quarantine_file name
                      then λ w, (w, before_cutoff ret (files w) p) else op_ret false) in
          if old then
            do* _ := lift (λ f, remove_file_if_exists f "prune" p) in
            prune_entries ret prune_batch budget (S deletions)
          else prune_entries ret prune_batch budget deletions
      end
  end.
Definition prune_retained_quarantines_with_limits (ret : Retention) (scan_batch prune_batch : nat) : Op unit :=
  do* w := get_writer in
  if retention w =? 0 then op_ret tt
  else
    do* _ := match retention_scan w with
             | Some _ => op_ret tt
             | None =>
                 do* entries := (λ w', (w', read_dir ret (files w') (sw_dir w))) in
                 modify_writer (λ w, with_scan w (Some entries))
             end in
    prune_entries ret prune_batch scan_batch 0.
Definition prune_retained_quarantines (ret : Retention) : Op unit :=
  prune_retained_quarantines_with_limits ret RETENTION_SCAN_BATCH RETENTION_PRUNE_BATCH.

Definition is_stale (w : SpoolWriter) (t : Z) (s : DatasetSpool) : bool :=
  (0 <? current_file_bytes s) && aged w t s.
Fixpoint rotate_each (slugs : list string) : Op unit :=
  match slugs with
  | [] => op_ret tt
  | slug :: rest => do* _ := rotate slug in rotate_each rest
  end.
Definition rotate_stale_files (ret : Retention) (key_order : gmap string DatasetSpool → list string) : Op unit :=
  do* _ := prune_retained_quarantines ret in
  do* w := get_writer in
  if max_file_age w =? 0 then op_ret tt
  else
    do* e := read_env in
    rotate_each (List.filter (λ slug, is_some_and (spools w !! slug) (is_stale w (now e))) (key_order (spools w))).
End writer.

(** [SpoolWriter::new]: the directory, the lock, the recovery, an empty writer.
    [lock_error] is the text of a lock that was not obtained. *)
Definition LOCK_NAME : string := ".rigsignal-spool.lock".
Definition spool_writer_new (f : Faults) (recovery : RecoveryEnv) (list_dir : FS → Path → list string)
    (tries : nat → LockTry) (clock : nat → Z) (lock_error : LockRetryFailure → string)
    (dir : Path) (file_bytes file_age_secs retention_hours : Z) : IO SpoolWriter :=
  let* _ := create_dir_all f "creating spool directory: " dir in
  let* _ := open_or_create f OpenLock "opening spool lockfile: " (path_join dir LOCK_NAME) in
  let* _ := of_result (map_err lock_error (fst (try_spool_lock_with_retry tries clock))) in
  let* seq := recover_stranded_files recovery list_dir dir 1 (Ok tt) in
  ret {| sw_dir := dir; max_file_bytes := file_bytes; max_file_age := file_age_secs;
         retention := Z.min u64_max (retention_hours * (60 * 60)); spools := ∅; next_seq := seq;
         retention_scan := None |}.

(** ** Specification *)

(** [ds] in order, one a line, with trailing spaces where a file was padded. *)
Definition holds (ds : list string) (text : string) : Prop :=
  ∃ ls, Forall2 (λ d l, ∃ n, l = d +:+ spaces n) ds ls ∧ text = records_text ls.

Definition text_at (fs : FS) (p : Path) : string := match fs !! p with Some (File c) => c | _ => EmptyString end.
(** The finals of a dataset, in order of publication. *)
Definition finals_of (w : World) (slug : string) : list Path :=
  rev (filter_map (λ '(s, p), if String.eqb s slug then Some p else None) (finals w)).
Definition published_text (w : World) (slug : string) : string :=
  concat_str (text_at (files w) <$> finals_of w slug).
(** The active file and what its writer has yet to write. *)
Definition active_text (w : World) (slug : string) : string :=
  match spools (writer w) !! slug with
  | Some s => text_at (files w) (active_path s) +:+ buffer s
  | None => EmptyString
  end.

(** [ds] are the documents of a dataset: the first ones in its finals, the
    others in its active file. *)
Definition kept (w : World) (slug : string) (ds : list string) : Prop :=
  ∃ d1 d2, ds = d1 ++ d2 ∧ holds d1 (published_text w slug) ∧ holds d2 (active_text w slug).

(** An active file has its dataset's name and the size the writer believes;
    finals are files with
    final names that the delivery agent does not pass over as too small. *)
Record wf (w : World) : Prop := {
  wf_active : ∀ slug s, spools (writer w) !! slug = Some s →
    active_path s = path_join (sw_dir (writer w)) (active_name slug)
    ∧ ∃ c, files w !! active_path s = Some (File c) ∧ current_file_bytes s = slen (c +:+ buffer s);
  wf_finals : ∀ slug p, (slug, p) ∈ finals w →
    (∃ c, files w !! p = Some (File c) ∧ MIN_PUBLISHED_SPOOL_BYTES ≤ slen c)
    ∧ named (sw_dir (writer w)) slug "ndjson" p;
}.

(** The writes to an active file that are under way, the padding of one, and
    re-opening one do not fail; anything else may. *)
Definition steady (f : Faults) : Prop :=
  fails f (At "spill") = false ∧ fails f (At "direct") = false
  ∧ fails f (At "pad-spaces") = false ∧ fails f (At "pad-newline") = false
  ∧ fails f (At "active-reopen") = false.

Definition of_slug (slug : string) (log : list (string * string)) : list string :=
  filter_map (λ '(s, d), if String.eqb s slug then Some d else None) log.

(** From [w0] to [w] the documents of [log] were added and nothing else
    changed hands. *)
Record since (w0 : World) (log : list (string * string)) (w : World) : Prop := {
  since_wf : wf w;
  since_dir : sw_dir (writer w) = sw_dir (writer w0);
  since_kept : ∀ slug ds, kept w0 slug ds → kept w slug (ds ++ of_slug slug log);
}.

(** ** Texts *)

Lemma holds_nil : holds [] EmptyString.
Proof. exists []. by split. Qed.

Lemma holds_app d1 d2 t1 t2 : holds d1 t1 → holds d2 t2 → holds (d1 ++ d2) (t1 +:+ t2).
Proof.
  intros (l1 & H1 & ->) (l2 & H2 & ->). exists (l1 ++ l2). split; [by apply Forall2_app|].
  by rewrite records_text_app.
Qed.

Lemma holds_line d : holds [d] (d +:+ str1 nl).
Proof.
  exists [d]. rewrite records_text_one. split; [|done]. constructor; [|done].
  exists 0%nat. simpl. by rewrite str_app_nil_r.
Qed.

Lemma holds_empty ds t : holds ds t → t = EmptyString → ds = [].
Proof.
  intros (ls & Hf & ->) Ht. destruct Hf as [|d l ds ls]; [done|]. exfalso.
  apply (f_equal String.length) in Ht. unfold records_text in Ht. cbn [fmap list_fmap concat_str] in Ht.
  rewrite !length_str_app in Ht. simpl in Ht. lia.
Qed.

Lemma spaces_add a b : spaces (a + b) = spaces a +:+ spaces b.
Proof. induction a as [|a IH]; [done|]. simpl. by rewrite IH. Qed.

(** Padding adds spaces to the last line. *)
Lemma padded_snoc s : padded (s +:+ str1 nl) = s +:+ spaces (Z.to_nat (MIN_PUBLISHED_SPOOL_BYTES - slen (s +:+ str1 nl))) +:+ str1 nl.
Proof.
  unfold padded. destruct (Z.leb_spec MIN_PUBLISHED_SPOOL_BYTES (slen (s +:+ str1 nl))) as [H|H].
  - replace (Z.to_nat _) with 0%nat by lia. done.
  - rewrite length_str_app. simpl (String.length (str1 nl)).
    replace (String.length s + 1 - 1)%nat with (String.length s) by lia. by rewrite take_bytes_app.
Qed.

Lemma holds_snoc ds t : holds ds t → t ≠ EmptyString → ∃ s, t = s +:+ str1 nl ∧ ∀ n, holds ds (s +:+ spaces n +:+ str1 nl).
Proof.
  intros (ls & Hf & ->) Hne. destruct (decide (ls = [])) as [->|Hls]; [by destruct Hne|].
  destruct (exists_last Hls) as (ls' & l & ->).
  apply Forall2_app_inv_r in Hf as (ds' & dl & Hf' & Hl & ->).
  apply Forall2_cons_inv_r in Hl as (d & ? & (k & ->) & ->%Forall2_nil_inv_r & ->).
  rewrite records_text_app, records_text_one. exists (records_text ls' +:+ d +:+ spaces k). split; [by rewrite !str_app_assoc|].
  intros n. exists (ls' ++ [d +:+ spaces (k + n)]). split.
  - apply Forall2_app; [done|]. constructor; [by eexists|done].
  - by rewrite records_text_app, records_text_one, spaces_add, !str_app_assoc.
Qed.

Lemma holds_padded ds t : holds ds t → t ≠ EmptyString → holds ds (padded t).
Proof. intros Hh Hne. destruct (holds_snoc _ _ Hh Hne) as (s & -> & Hs). rewrite padded_snoc. apply Hs. Qed.

Lemma slen_zero s : slen s = 0 → s = EmptyString.
Proof. destruct s; [done|]. unfold slen. simpl. lia. Qed.

(** ** Names *)

Lemma last_byte_app a b : b ≠ EmptyString → last_byte (a +:+ b) = last_byte b.
Proof.
  intros Hb. induction a as [|c a IH]; [done|]. rewrite <-IH. unfold last_byte.
  change (String c a +:+ b) with (String c (a +:+ b)). cbn [String.length].
  assert (Hlen : (0 < String.length (a +:+ b))%nat) by (rewrite length_str_app; destruct b; simpl; [done|lia]).
  destruct (String.length (a +:+ b)) as [|n]; [lia|]. cbn [Nat.sub String.get]. by rewrite Nat.sub_0_r.
Qed.

Lemma str_app_cancel_r a b t : a +:+ t = b +:+ t → a = b.
Proof.
  intros H. destruct (str_app_split _ _ _ _ H) as [(m & -> & Ht)|(m & -> & Ht)];
    apply (f_equal String.length) in Ht; rewrite length_str_app in Ht;
    (destruct m; [by rewrite str_app_nil_r|simpl in Ht; lia]).
Qed.

Lemma path_join_inj dir a b : path_join dir a = path_join dir b → a = b.
Proof. unfold path_join. intros [= H]. by apply app_inj_2 in H as [_ [= ->]]. Qed.

Lemma active_name_inj a b : active_name a = active_name b → a = b.
Proof.
  unfold active_name. intros [= H].
  change (a +:+ ".ndjson.tmp" = b +:+ ".ndjson.tmp") in H. by apply str_app_cancel_r in H.
Qed.

Lemma app_ne_r a b : b ≠ EmptyString → a +:+ b ≠ EmptyString.
Proof. destruct a; [done|]. intros _. discriminate. Qed.
Ltac last_of := repeat (rewrite last_byte_app; [|repeat apply app_ne_r; discriminate]); reflexivity.

Lemma active_name_last slug : last_byte (active_name slug) = Some "p"%char.
Proof. unfold active_name. last_of. Qed.
Lemma final_name_last slug millis seq : last_byte (final_name slug millis seq "ndjson") = Some "n"%char.
Proof. unfold final_name. last_of. Qed.

Lemma ends_with_inv suffix s : ends_with suffix s = true → ∃ a, s = a +:+ suffix.
Proof.
  unfold ends_with. induction s as [|c s IH]; cbn [strip_suffix].
  - destruct (String.eqb_spec EmptyString suffix) as [<-|]; [|done]. by exists EmptyString.
  - destruct (String.eqb_spec (String c s) suffix) as [<-|]; [by exists EmptyString|].
    destruct (strip_suffix suffix s); [|done]. intros _. destruct (IH eq_refl) as [a ->]. by exists (String c a).
Qed.

Lemma quarantine_last name : is_retained_quarantine_file name = true → last_byte name = Some "e"%char.
Proof.
  unfold is_retained_quarantine_file, name_str. destruct (is_utf8 name); cbn [unwrap_or]; [|done].
  intros [_ Hq]%andb_true_iff. apply ends_with_inv in Hq as [a ->]. by rewrite last_byte_app.
Qed.

Lemma named_not_active dir slug slug' p : named dir slug "ndjson" p → p ≠ path_join dir (active_name slug').
Proof.
  intros (m & q & ->) H%path_join_inj. pose proof (final_name_last slug m q) as Hl.
  rewrite H, active_name_last in Hl. done.
Qed.

(** ** Frames *)

(** The paths the writer owns. *)
Definition known (w : World) (p : Path) : Prop :=
  (∃ slug s, spools (writer w) !! slug = Some s ∧ active_path s = p) ∨ (∃ slug, (slug, p) ∈ finals w).

Lemma elem_of_finals_of w slug p : p ∈ finals_of w slug ↔ (slug, p) ∈ finals w.
Proof.
  unfold finals_of. rewrite list_elem_of_In, <-in_rev, <-list_elem_of_In, elem_of_filter_map. split.
  - intros ([s q] & Hin & H). destruct (String.eqb_spec s slug) as [->|]; [|done]. by injection H as ->.
  - intros Hin. exists (slug, p). by rewrite String.eqb_refl.
Qed.

Lemma of_slug_app slug l l' : of_slug slug (l ++ l') = of_slug slug l ++ of_slug slug l'.
Proof. apply filter_map_app. Qed.

Lemma of_slug_cons slug slug' d log :
  of_slug slug ((slug', d) :: log) = if String.eqb slug' slug then d :: of_slug slug log else of_slug slug log.
Proof. unfold of_slug. simpl. by destruct (String.eqb slug' slug). Qed.
Lemma of_slug_same slug ds : of_slug slug (pair slug <$> ds) = ds.
Proof. induction ds as [|d ds IH]; [done|]. by rewrite fmap_cons, of_slug_cons, String.eqb_refl, IH. Qed.
Lemma of_slug_other slug slug' ds : slug ≠ slug' → of_slug slug (pair slug' <$> ds) = [].
Proof.
  intros Hne. induction ds as [|d ds IH]; [done|]. rewrite fmap_cons, of_slug_cons.
  by rewrite (proj2 (String.eqb_neq slug' slug) (not_eq_sym Hne)).
Qed.

Lemma since_refl w : wf w → since w [] w.
Proof. intros Hw. split; [done..|]. intros slug ds. by rewrite app_nil_r. Qed.

Lemma since_trans w0 l w1 l' w2 : since w0 l w1 → since w1 l' w2 → since w0 (l ++ l') w2.
Proof.
  intros [H1 D1 K1] [H2 D2 K2]. split; [done|congruence|].
  intros slug ds Hk%K1%K2. by rewrite of_slug_app, app_assoc.
Qed.

(** A step that leaves the writer's files, names and buffers alone. *)
Lemma since_frame w0 log w w' :
  since w0 log w → finals w' = finals w → sw_dir (writer w') = sw_dir (writer w) →
  spools (writer w') = spools (writer w) →
  (∀ p, known w p → files w' !! p = files w !! p) → since w0 log w'.
Proof.
  intros [Hwf Hd Hk] Hf Hdir Hsp Hfiles. split; [|congruence|].
  - split; rewrite Hdir.
    + rewrite Hsp. intros slug s Hs. destruct (wf_active w Hwf slug s Hs) as (Hp & c & Hc & Hb).
      split; [done|]. exists c. split; [|done]. rewrite Hfiles; [done|]. left. by exists slug, s.
    + rewrite Hf. intros slug p Hp. destruct (wf_finals w Hwf slug p Hp) as ((c & Hc & Hmin) & Hn).
      split; [|done]. exists c. rewrite Hfiles; [done|]. right. by exists slug.
  - intros slug ds Hds. destruct (Hk slug ds Hds) as (d1 & d2 & -> & H1 & H2). exists d1, d2. split; [done|].
    assert (Hat : ∀ p, known w p → text_at (files w') p = text_at (files w) p).
    { intros p Hp. unfold text_at. by rewrite Hfiles. }
    split.
    + replace (published_text w' slug) with (published_text w slug); [done|]. unfold published_text.
      replace (finals_of w' slug) with (finals_of w slug) by (unfold finals_of; by rewrite Hf).
      f_equal. apply list_fmap_ext. intros i p Hp%list_elem_of_lookup_2. rewrite Hat; [done|].
      right. exists slug. by apply elem_of_finals_of.
    + unfold active_text in *. rewrite Hsp. destruct (spools (writer w) !! slug) as [s|] eqn:Es; [|done].
      rewrite Hat; [done|]. left. by exists slug, s.
Qed.

(** The published text does not depend on an active file. *)
Lemma published_text_active w slug p fs :
  wf w → (∀ q, q ≠ p → fs !! q = files w !! q) → (∃ slug', p = path_join (sw_dir (writer w)) (active_name slug')) →
  concat_str (text_at fs <$> finals_of w slug) = published_text w slug.
Proof.
  intros Hwf Hfs [slug' ->]. unfold published_text. f_equal. apply list_fmap_ext.
  intros i q Hq%list_elem_of_lookup_2. unfold text_at. rewrite Hfs; [done|].
  apply elem_of_finals_of in Hq. destruct (wf_finals w Hwf slug q Hq) as [_ Hn]. by eapply named_not_active.
Qed.

(** A step on one active file and its buffer: [extra] documents more. *)
Lemma since_active w0 log w slug s s' c' extra (fs : FS) :
  since w0 log (put_spool w slug s) →
  active_path s' = active_path s → current_file_bytes s' = slen (c' +:+ buffer s') →
  fs !! active_path s = Some (File c') → (∀ q, q ≠ active_path s → fs !! q = files w !! q) →
  (∀ ds, holds ds (text_at (files w) (active_path s) +:+ buffer s) → holds (ds ++ extra) (c' +:+ buffer s')) →
  since w0 (log ++ (pair slug <$> extra)) (put_spool (set_files w fs) slug s').
Proof.
  intros [Hwf Hd Hk] Hp' Hb' Hc' Hfs Hh.
  assert (Hs : spools (writer (put_spool w slug s)) !! slug = Some s) by apply lookup_insert_eq.
  destruct (wf_active _ Hwf slug s Hs) as (Hp & c & Hc & Hb). cbn [put_spool set_writer writer with_spools sw_dir files] in *.
  assert (Hother : ∀ slug1 s1, slug1 ≠ slug → spools (writer w) !! slug1 = Some s1 →
    active_path s1 ≠ active_path s ∧ fs !! active_path s1 = files w !! active_path s1).
  { intros slug1 s1 Hne H1. assert (Hl : spools (writer (put_spool w slug s)) !! slug1 = Some s1).
    { simpl. by rewrite lookup_insert_ne. }
    destruct (wf_active _ Hwf slug1 s1 Hl) as (Hp1 & _). simpl in Hp1.
    assert (active_path s1 ≠ active_path s).
    { rewrite Hp1, Hp. intros H%path_join_inj%active_name_inj. by apply Hne. }
    split; [done|by apply Hfs]. }
  split; [split|done|].
  - simpl. intros slug1 s1. destruct (decide (slug1 = slug)) as [->|Hne].
    + rewrite lookup_insert_eq. intros [= <-]. split; [congruence|]. exists c'. split; [congruence|done].
    + rewrite lookup_insert_ne by done. intros H1. destruct (Hother slug1 s1 Hne H1) as [_ Hf].
      assert (Hl : spools (writer (put_spool w slug s)) !! slug1 = Some s1) by (simpl; by rewrite lookup_insert_ne).
      destruct (wf_active _ Hwf slug1 s1 Hl) as (Hp1 & c1 & Hc1 & Hb1). simpl in *.
      split; [done|]. exists c1. split; [congruence|done].
  - simpl. intros slug1 p Hin. destruct (wf_finals _ Hwf slug1 p Hin) as ((c1 & Hc1 & Hmin) & Hn). simpl in *.
    split; [|done]. exists c1. rewrite Hfs; [done|]. rewrite Hp. by eapply named_not_active.
  - intros slug1 ds Hds. destruct (Hk slug1 ds Hds) as (d1 & d2 & Heq & H1 & H2).
    rewrite of_slug_app, app_assoc, Heq, <-app_assoc. eexists d1, _. split; [done|]. split.
    + replace (published_text (put_spool (set_files w fs) slug s') slug1)
        with (published_text (put_spool w slug s) slug1); [done|]. symmetry.
      apply (published_text_active (put_spool w slug s) slug1 (active_path s) fs); [done|done|by exists slug].
    + unfold active_text in *. cbn [put_spool set_writer writer with_spools spools files set_files] in *.
      destruct (decide (slug1 = slug)) as [->|Hne].
      * rewrite lookup_insert_eq in *. rewrite of_slug_same, Hp'. unfold text_at. rewrite Hc'. by apply Hh.
      * rewrite lookup_insert_ne in * by done. rewrite of_slug_other, app_nil_r by done.
        destruct (spools (writer w) !! slug1) as [s1|] eqn:E1; [|done].
        destruct (Hother slug1 s1 Hne E1) as [_ Hf]. unfold text_at. rewrite Hf. exact H2.
Qed.

(** ** Writing through the buffer *)

(** [extra] more bytes are in the file or in the buffer, and nothing else
    changes. *)
Record writes (s s' : DatasetSpool) (extra : string) (fs fs' : FS) : Prop := {
  writes_path : active_path s' = active_path s;
  writes_bytes : current_file_bytes s' = current_file_bytes s;
  writes_other : ∀ q, q ≠ active_path s → fs' !! q = fs !! q;
  writes_text : ∀ c, fs !! active_path s = Some (File c) →
    ∃ c', fs' !! active_path s = Some (File c') ∧ c' +:+ buffer s' = c +:+ buffer s +:+ extra;
}.

Lemma writes_refl s fs : writes s s EmptyString fs fs.
Proof. split; [done..|]. intros c Hc. exists c. by rewrite str_app_nil_r. Qed.

Lemma writes_trans s1 s2 s3 a b fs1 fs2 fs3 :
  writes s1 s2 a fs1 fs2 → writes s2 s3 b fs2 fs3 → writes s1 s3 (a +:+ b) fs1 fs3.
Proof.
  intros [P1 B1 O1 T1] [P2 B2 O2 T2]. rewrite P1 in *. split; [congruence..| |].
  - intros q Hq. by rewrite O2, O1.
  - intros c Hc. destruct (T1 c Hc) as (c1 & Hc1 & E1). destruct (T2 c1 Hc1) as (c2 & Hc2 & E2).
    exists c2. split; [done|]. by rewrite E2, str_app_assoc, E1, !str_app_assoc.
Qed.

Lemma insert_elsewhere (fs : FS) p node : ∀ q, q ≠ p → <[p := node]> fs !! q = fs !! q.
Proof. intros q Hq. by rewrite lookup_insert_ne by (by apply not_eq_sym). Qed.

Lemma flush_writes f place s fs :
  ∃ s' r, returned (flush_spool place s f fs) = Ok (s', r)
    ∧ writes s s' EmptyString fs (final (flush_spool place s f fs))
    ∧ (r = Ok tt → buffer s' = EmptyString)
    ∧ (fails f (At place) = false → (∃ c, fs !! active_path s = Some (File c)) → r = Ok tt).
Proof.
  unfold flush_spool. destruct (is_empty (buffer s)) eqn:Eb.
  { exists s, (Ok tt). split_and!; [done|apply writes_refl| |done]. by destruct (buffer s). }
  unfold bind, append_file, call. destruct (fs !! active_path s) as [node|] eqn:Ec; [destruct node as [c| |]|];
    simpl; [|eexists _, _; (split; [done|]); split_and!; [split|..]; naive_solver..].
  destruct (fails f (At place)); simpl; eexists _, _; (split; [done|]); split_and!; try done;
    (split; [done..|by apply insert_elsewhere|]); intros c0 Hc0; assert (c0 = c) as -> by congruence;
    (eexists; split; [apply lookup_insert_eq|]); simpl.
  - by rewrite str_app_nil_r, <-str_app_assoc, take_drop_bytes.
  - by rewrite !str_app_nil_r.
Qed.

(** Nothing cuts short the write of a record. *)
Lemma write_all_writes f s data fs :
  steady f → (∃ c, fs !! active_path s = Some (File c)) →
  ∃ s', returned (write_all s data f fs) = Ok (s', Ok tt)
    ∧ writes s s' data fs (final (write_all s data f fs)).
Proof.
  intros (Hspill & Hdirect & _) Hc. unfold write_all.
  set (m := if BUFFER_BYTES <? slen (buffer s) + slen data then flush_spool "spill" s f else ret (s, Ok tt)).
  assert (Hm : ∃ s1, returned (m fs) = Ok (s1, Ok tt) ∧ writes s s1 EmptyString fs (final (m fs))
    ∧ (BUFFER_BYTES ≤ slen data → buffer s1 = EmptyString)).
  { unfold m. destruct (Z.ltb_spec BUFFER_BYTES (slen (buffer s) + slen data)) as [H|H].
    - destruct (flush_writes f "spill" s fs) as (s1 & r & Hr & Hw & He & Hok).
      specialize (Hok Hspill Hc) as ->. exists s1. split_and!; [done..|]. intros _. by apply He.
    - exists s. split_and!; [done|apply writes_refl|]. intros Hd. apply slen_zero.
      pose proof (slen_nonneg (buffer s)). lia. }
  destruct Hm as (s1 & Hr & Hw & Hempty). clearbody m. destruct Hc as [c Hc].
  destruct (writes_text _ _ _ _ _ Hw c Hc) as (c1 & Hc1 & _). rewrite <-(writes_path _ _ _ _ _ Hw) in Hc1.
  run_first Hr.
  assert (Hstep : ∀ s2 fs2, writes s1 s2 data (final (m fs)) fs2 → writes s s2 data fs fs2).
  { intros s2 fs2 H2. exact (writes_trans _ _ _ _ _ _ _ _ Hw H2). }
  generalize dependent (final (m fs)). intros fs1 Hw Hc1 Hstep.
  destruct (Z.leb_spec BUFFER_BYTES (slen data)) as [H|H].
  - unfold bind, append_file, call. rewrite Hc1, Hdirect. simpl. exists s1. split; [done|]. apply Hstep.
    split; [done..|by apply insert_elsewhere|]. intros c2 Hc2. assert (c2 = c1) as -> by congruence.
    eexists. split; [apply lookup_insert_eq|]. rewrite (Hempty H). by rewrite str_app_nil_r.
  - simpl. eexists. split; [done|]. apply Hstep. split; [done..|]. intros c2 Hc2. exists c2. split; [done|].
    simpl. by rewrite !str_app_assoc.
Qed.

Lemma write_record_writes f s line fs :
  steady f → (∃ c, fs !! active_path s = Some (File c)) →
  ∃ s', returned (write_record s line f fs) = Ok (s', Ok tt)
    ∧ current_file_bytes s' = current_file_bytes s + (slen line + 1)
    ∧ writes s (with_bytes s' (current_file_bytes s)) (line +:+ str1 nl) fs (final (write_record s line f fs)).
Proof.
  intros Hf Hc. unfold write_record.
  destruct (write_all_writes f s line fs Hf Hc) as (s1 & Hr1 & Hw1).
  run_first Hr1.
  destruct Hc as [c Hc]. destruct (writes_text _ _ _ _ _ Hw1 c Hc) as (c1 & Hc1 & _).
  rewrite <-(writes_path _ _ _ _ _ Hw1) in Hc1.
  destruct (write_all_writes f s1 (str1 nl) _ Hf (ex_intro _ c1 Hc1)) as (s2 & Hr2 & Hw2).
  run_first Hr2.
  pose proof (writes_trans _ _ _ _ _ _ _ _ Hw1 Hw2) as Hw.
  exists (with_bytes s2 (current_file_bytes s2 + (slen line + 1))). split; [done|]. split; simpl.
  - by rewrite (writes_bytes _ _ _ _ _ Hw).
  - destruct Hw as [P B O T]. by split.
Qed.

(** ** Padding and publishing *)

Lemma last_byte_inv t c : last_byte t = Some c → ∃ s, t = s +:+ str1 c.
Proof.
  induction t as [|d t IH]; [done|]. destruct t as [|d' t].
  - intros [= ->]. by exists EmptyString.
  - unfold last_byte in *. cbn [String.length Nat.sub String.get] in *. rewrite Nat.sub_0_r in IH. intros H.
    destruct (IH H) as [s Hs]. exists (String d s). by rewrite Hs.
Qed.

Lemma update_file_run f place prefix p g c fs :
  fails f (At place) = false → fs !! p = Some (File c) →
  returned (update_file f place prefix p g fs) = Ok tt
  ∧ final (update_file f place prefix p g fs) = <[p := File (g c)]> fs.
Proof. intros Hok Hc. unfold update_file, attempt, call. by rewrite Hok, Hc. Qed.
Lemma update_file_fails f place prefix p g fs :
  fails f (At place) = true →
  (∃ e, returned (update_file f place prefix p g fs) = Err e) ∧ final (update_file f place prefix p g fs) = fs.
Proof. intros Hf. unfold update_file, attempt, call. rewrite Hf. simpl. eauto. Qed.

Lemma padded_min t : MIN_PUBLISHED_SPOOL_BYTES ≤ slen (padded t).
Proof.
  unfold padded. destruct (Z.leb_spec MIN_PUBLISHED_SPOOL_BYTES (slen t)) as [H|H]; [done|].
  rewrite !slen_app, slen_spaces. change (slen (str1 nl)) with 1.
  assert (slen t - 1 ≤ slen (take_bytes (String.length t - 1) t)).
  { unfold slen. rewrite length_take_bytes. lia. }
  lia.
Qed.

(** A failed padding leaves the text; it fails before it changes anything. *)
Lemma pad_spool_final_text f p t fs :
  steady f → fs !! p = Some (File t) →
  let r := pad_spool_final f p fs in
  ∃ t', (∀ q, q ≠ p → final r !! q = fs !! q) ∧ final r !! p = Some (File t')
    ∧ match returned r with Ok n => t' = padded t ∧ n = slen t' | Err _ => t' = t end.
Proof.
  intros (_ & _ & Hsp & Hnl & _) Ht. cbv zeta. unfold pad_spool_final.
  assert (Hread : ∀ place prefix (fs1 : FS), fs1 !! p = Some (File t) →
    final (read_file f place prefix p fs1) = fs1
    ∧ (returned (read_file f place prefix p fs1) = Ok t ∨ ∃ e, returned (read_file f place prefix p fs1) = Err e)).
  { intros place prefix fs1 H1. unfold read_file, call. rewrite H1. destruct (fails f (At place)); simpl; eauto. }
  assert (Hkeep : ∀ e : string, ∃ t', (∀ q, q ≠ p → fs !! q = fs !! q) ∧ fs !! p = Some (File t')
    ∧ match @Err Z string e with Ok n => t' = padded t ∧ n = slen t' | Err _ => t' = t end).
  { intros e. by exists t. }
  destruct (Hread "pad-size" "reading spool file size: " fs Ht) as [Hf [Hr|[e Hr]]].
  2: { run_first Hr.
 rewrite Hf.
 apply (Hkeep e). }
  run_first Hr. rewrite Hf.
  destruct (Z.leb_spec MIN_PUBLISHED_SPOOL_BYTES (slen t)) as [Hbig|Hsmall].
  { simpl. exists t. split_and!; [done..| |done]. unfold padded. by rewrite (proj2 (Z.leb_le _ _) Hbig). }
  destruct (slen t =? 0) eqn:E0; [exact (Hkeep EmptyString)|].
  destruct (Hread "pad-open" "opening spool file for padding: " fs Ht) as [Hf2 [Hr2|[e Hr2]]].
  2: { run_first Hr2. rewrite Hf2. apply (Hkeep e). }
  run_first Hr2. rewrite Hf2.
  destruct (bool_decide_reflect (last_byte t = Some nl)) as [Hlast|Hlast]; simpl; [|exact (Hkeep EmptyString)].
  apply last_byte_inv in Hlast as [s ->]. rewrite (padded_snoc s).
  replace (Z.to_nat (slen (s +:+ str1 nl) - 1)) with (String.length s)
    by (unfold slen; rewrite length_str_app; simpl; lia).
  destruct (fails f (At "pad-set-len")) eqn:Eset.
  { destruct (update_file_fails f "pad-set-len" EmptyString p (take_bytes (String.length s)) fs Eset) as [[e Hr3] Hf3].
    run_first Hr3. rewrite Hf3. apply (Hkeep e). }
  assert (Hup : ∀ place prefix g c (fs1 : FS), fails f (At place) = false → fs1 !! p = Some (File c) →
    ∀ B (k : unit → IO B), let m := bind (update_file f place prefix p g) k in
      returned (m fs1) = returned (k tt (<[p := File (g c)]> fs1)) ∧ final (m fs1) = final (k tt (<[p := File (g c)]> fs1))).
  { intros place prefix g c fs1 Hok Hc B k. destruct (update_file_run f place prefix p g c fs1 Hok Hc) as [Hr3 <-].
    by apply bind_from. }
  edestruct Hup as [-> ->]; [exact Eset|exact Ht|]. rewrite take_bytes_app.
  edestruct Hup as [-> ->]; [exact Hsp|apply lookup_insert_eq|].
  edestruct Hup as [-> ->]; [exact Hnl|apply lookup_insert_eq|]. simpl. rewrite !insert_insert_eq.
  eexists. split; [by apply insert_elsewhere|]. split; [apply lookup_insert_eq|]. split; [by rewrite str_app_assoc|].
  rewrite !slen_app, slen_spaces. rewrite slen_app in Hsmall. pose proof (slen_nonneg s).
  change (slen (str1 nl)) with 1 in *. lia.
Qed.

(** The active text of a closed spool moves to a new final. *)
Lemma since_publish w0 log w slug s c target fs :
  since w0 log (put_spool w slug s) → spools (writer w) !! slug = None → buffer s = EmptyString →
  files w !! active_path s = Some (File c) → MIN_PUBLISHED_SPOOL_BYTES ≤ slen c → files w !! target = None →
  named (sw_dir (writer w)) slug "ndjson" target →
  fs !! target = Some (File c) → (∀ q, q ≠ target → q ≠ active_path s → fs !! q = files w !! q) →
  since w0 log {| writer := writer w; files := fs; finals := (slug, target) :: finals w |}.
Proof.
  intros [Hwf Hd Hk] HM He Hc Hmin Htarget Hn Hct Hfs.
  assert (Hs : spools (writer (put_spool w slug s)) !! slug = Some s) by apply lookup_insert_eq.
  destruct (wf_active _ Hwf slug s Hs) as (Hp & _).
  assert (Hsp : ∀ slug1 s1, spools (writer w) !! slug1 = Some s1 →
    slug1 ≠ slug ∧ spools (writer (put_spool w slug s)) !! slug1 = Some s1).
  { intros slug1 s1 H1. assert (slug1 ≠ slug) by (intros ->; congruence). split; [done|]. simpl. by rewrite lookup_insert_ne. }
  cbn [put_spool set_writer writer with_spools sw_dir files finals] in *.
  assert (Hfinal : ∀ slug1 p, (slug1, p) ∈ finals w → fs !! p = files w !! p).
  { intros slug1 p Hin. destruct (wf_finals _ Hwf slug1 p Hin) as ((c1 & Hc1 & _) & Hn1). simpl in Hc1. apply Hfs; [congruence|].
    rewrite Hp. by eapply named_not_active. }
  assert (Hact : ∀ slug1 s1, spools (writer w) !! slug1 = Some s1 → fs !! active_path s1 = files w !! active_path s1).
  { intros slug1 s1 H1. destruct (Hsp slug1 s1 H1) as [Hne H2].
    destruct (wf_active _ Hwf slug1 s1 H2) as (Hp1 & c1 & Hc1 & _). simpl in *. apply Hfs; [congruence|].
    rewrite Hp1, Hp. by intros ?%path_join_inj%active_name_inj. }
  split; [split|done|]; cbn [writer files finals].
  - intros slug1 s1 H1. destruct (Hsp slug1 s1 H1) as [_ H2].
    destruct (wf_active _ Hwf slug1 s1 H2) as (Hp1 & c1 & Hc1 & Hb1). split; [done|]. exists c1.
    by rewrite (Hact _ _ H1).
  - intros slug1 p [[= -> ->]|Hin]%elem_of_cons; [eauto|].
    destruct (wf_finals _ Hwf slug1 p Hin) as (Hex & Hn1). by rewrite (Hfinal _ _ Hin).
  - intros slug1 ds Hds. destruct (Hk slug1 ds Hds) as (d1 & d2 & -> & H1 & H2).
    assert (Hpub : concat_str (text_at fs <$> finals_of w slug1) = published_text (put_spool w slug s) slug1).
    { unfold published_text. f_equal. apply list_fmap_ext. intros i q Hq%list_elem_of_lookup_2%elem_of_finals_of.
      unfold text_at. by rewrite (Hfinal _ _ Hq). }
    unfold active_text in H2. cbn [put_spool set_writer writer with_spools spools files] in H2.
    destruct (decide (slug1 = slug)) as [->|Hne].
    + rewrite lookup_insert_eq, He, str_app_nil_r in H2. unfold text_at in H2. rewrite Hc in H2.
      exists (d1 ++ d2), []. split; [by rewrite app_nil_r|]. split; [|unfold active_text; simpl; rewrite HM; apply holds_nil].
      unfold published_text, finals_of. cbn [finals files filter_map]. rewrite String.eqb_refl. cbn [rev].
      rewrite fmap_app, concat_str_app. change (rev _) with (finals_of w slug). rewrite Hpub.
      apply holds_app; [done|]. simpl. unfold text_at. by rewrite Hct, str_app_nil_r.
    + exists d1, d2. split; [done|]. split.
      * unfold published_text, finals_of. cbn [finals files filter_map].
        rewrite (proj2 (String.eqb_neq slug slug1) (not_eq_sym Hne)).
        change (rev _) with (finals_of w slug1). by rewrite Hpub.
      * rewrite lookup_insert_ne in H2 by done. unfold active_text. simpl.
        destruct (spools (writer w) !! slug1) as [s1|] eqn:E1; [|done].
        unfold text_at in *. by rewrite (Hact _ _ E1).
Qed.
