(* ===== verification/SpoolConserve.v ===== *)
(** * The spool writer keeps every document

    Triples for the operations of [SpoolWriter], the relation of two worlds
    between which documents were added, and what holds of whole runs. *)
From Stdlib Require Import Ascii.
From S2P Require Import Prelude Float64 Json DiagnosisEvent FileSystem StateOp Spool Bulk SpoolWriter.

(** ** Conservation *)

Section conservation.
Context (env : World → CallEnv) (Hsteady : ∀ w, steady (env_faults (env w))).
Context (w0 : World).

(** [w] with the spool [s] back in the map, which has [M] without it. *)
Definition holding (log : list (string * string)) (M : gmap string DatasetSpool) (slug : string) (s : DatasetSpool) (w : World) : Prop :=
  spools (writer w) = M ∧ since w0 log (put_spool w slug s).
(** The spool is closed for good. *)
Definition closed (log : list (string * string)) (M : gmap string DatasetSpool) (w : World) : Prop :=
  spools (writer w) = M ∧ since w0 log w.

Section one_spool.
Context (log : list (string * string)) (M : gmap string DatasetSpool) (slug : string) (HM : M !! slug = None).

Lemma holding_file s w : holding log M slug s w →
  active_path s = path_join (sw_dir (writer w)) (active_name slug)
  ∧ ∃ c, files w !! active_path s = Some (File c) ∧ current_file_bytes s = slen (c +:+ buffer s).
Proof. intros [_ [Hwf _ _]]. apply (wf_active _ Hwf slug s). apply lookup_insert_eq. Qed.

Lemma flush_rule place s :
  op_triple (holding log M slug s) (lift env (flush_spool place s))
    (λ '(s', r) w, holding log M slug s' w ∧ (r = Ok tt → buffer s' = EmptyString)) (λ _, False).
Proof.
  intros w Hw. destruct (holding_file s w Hw) as (_ & c & Hc & Hb). destruct Hw as [Hm Hs].
  unfold lift. destruct (flush_writes (env_faults (env w)) place s (files w)) as (s' & r & -> & [P B O T] & He & _).
  destruct (T c Hc) as (c' & Hc' & E). rewrite str_app_nil_r in E. split; [|done]. split; [done|].
  rewrite <-(app_nil_r log). apply (since_active w0 log w slug s s' c' []); [done..| | | |].
  - by rewrite B, Hb, E.
  - done.
  - done.
  - intros ds. unfold text_at. by rewrite Hc, app_nil_r, E.
Qed.

Lemma pad_rule s :
  buffer s = EmptyString → current_file_bytes s ≠ 0 →
  op_triple (holding log M slug s) (lift env (λ f, pad_spool_final f (active_path s)))
    (λ n w, holding log M slug (with_bytes s n) w ∧ MIN_PUBLISHED_SPOOL_BYTES ≤ n) (holding log M slug s).
Proof.
  intros He Hn w Hw. destruct (holding_file s w Hw) as (_ & c & Hc & Hb). destruct Hw as [Hm Hs].
  rewrite He, str_app_nil_r in Hb. unfold lift.
  destruct (pad_spool_final_text (env_faults (env w)) (active_path s) c (files w) (Hsteady w) Hc) as (c' & O & Hc' & Hr).
  destruct (returned _) as [n|e].
  - destruct Hr as [-> ->]. split.
    + split; [done|]. rewrite <-(app_nil_r log).
      apply (since_active w0 log w slug s (with_bytes s (slen (padded c))) (padded c) []); [done..| | | |]; simpl; try done.
      * by rewrite He, str_app_nil_r.
      * intros ds. unfold text_at. rewrite Hc, He, !str_app_nil_r, app_nil_r. intros H.
        apply holds_padded; [done|]. intros ->. done.
    + apply padded_min.
  - subst c'. split; [done|]. rewrite <-(app_nil_r log).
    apply (since_active w0 log w slug s s c []); try done; [by rewrite He, str_app_nil_r|].
    intros ds. unfold text_at. by rewrite Hc, app_nil_r.
Qed.

(** A spool whose buffer is empty, put back. *)
Lemma restore_rule s (E : World → Prop) :
  buffer s = EmptyString →
  op_triple (holding log M slug s) (restore env slug (active_path s) (current_file_bytes s) (current_file_started s))
    (λ _, since w0 log) E.
Proof.
  intros He w Hw. destruct (holding_file s w Hw) as (_ & c & Hc & _). destruct Hw as [Hm Hs].
  unfold restore, op_bind, lift, dataset_spool_reopen, bind, attempt, call.
  rewrite Hc. rewrite (proj2 (proj2 (proj2 (proj2 (Hsteady w))))). simpl.
  destruct s as [p b n t]. simpl in *. subst b. exact Hs.
Qed.

(** A step on files the writer does not own, or on its counters. *)
Lemma holding_frame s w w' :
  holding log M slug s w → finals w' = finals w → sw_dir (writer w') = sw_dir (writer w) →
  spools (writer w') = spools (writer w) →
  (∀ p node, files w !! p = Some node → files w' !! p = Some node) → holding log M slug s w'.
Proof.
  intros [Hm Hs] Hf Hd Hsp Hfiles. split; [congruence|]. eapply since_frame; [exact Hs|done|done|simpl; congruence|].
  intros p Hp. assert (Hex : ∃ c, files w !! p = Some (File c)).
  { destruct Hp as [(slug1 & s1 & H1 & <-)|(slug1 & H1)].
    - destruct (wf_active _ (since_wf _ _ _ Hs) slug1 s1 H1) as (_ & c & Hc & _). by exists c.
    - destruct (wf_finals _ (since_wf _ _ _ Hs) slug1 p H1) as ((c & Hc & _) & _). by exists c. }
  destruct Hex as [c Hc]. simpl. rewrite Hc. by apply Hfiles.
Qed.

(** Either the file moves to its final name or everything stays. *)
Lemma move_to_final f (source target : Path) c (fs : FS) :
  fs !! source = Some (File c) → fs !! target = None →
  let r := or_cleanup (rename f (At "publish") "publishing spool file: " source target)
             (remove_file_if_exists f "unreserve" target) (<[target := File EmptyString]> fs) in
  match returned r with
  | Ok _ => final r !! target = Some (File c) ∧ ∀ q, q ≠ target → q ≠ source → final r !! q = fs !! q
  | Err _ => ∀ p node, fs !! p = Some node → final r !! p = Some node
  end.
Proof.
  intros Hs Ht. assert (Hne : source ≠ target) by congruence. cbv zeta.
  unfold or_cleanup, rename, call. rewrite lookup_insert_eq, lookup_insert_ne, Hs by done.
  destruct (fails f (At "publish")); simpl.
  - intros p node Hp. assert (p ≠ target) by congruence. unfold remove_file_if_exists, attempt, call.
    destruct (_ && _); simpl; [rewrite lookup_delete_ne by done|]; by rewrite lookup_insert_ne.
  - split; [apply lookup_insert_eq|]. intros q Hq Hqs.
    by rewrite lookup_insert_ne, lookup_delete_ne, lookup_insert_ne by done.
Qed.

Lemma publish_attempt_rule s millis :
  buffer s = EmptyString → MIN_PUBLISHED_SPOOL_BYTES ≤ current_file_bytes s →
  op_triple (holding log M slug s) (publish_attempt env (active_path s) slug "ndjson" millis)
    (λ name w, match name with Some _ => closed log M w | None => holding log M slug s w end) (holding log M slug s).
Proof.
  intros He Hmin w Hw. unfold publish_attempt.
  unfold op_bind at 1, get_writer. cbn beta iota. set (target := path_join _ _).
  unfold op_bind at 1, lift at 1, reserve_name, call.
  destruct (holding_file s w Hw) as (_ & c & Hc & Hb).
  rewrite He, str_app_nil_r in Hb. destruct (files w !! target) as [node|] eqn:Et; [by eapply holding_frame|].
  destruct (_ && _); [|by eapply holding_frame]. cbn [returned final fst snd].
  unfold op_bind at 1, lift. cbn [files set_files].
  pose proof (move_to_final (env_faults (env (set_files w (<[target := File EmptyString]> (files w)))))
    (active_path s) target c (files w) Hc Et) as Hmove. cbv zeta in Hmove.
  destruct (returned _) as [[]|e] eqn:Er; [|by eapply holding_frame].
  simpl. destruct Hw as [Hm Hs]. split; [done|].
  eapply since_frame with (w := {| writer := writer w; files := _; finals := (slug, target) :: finals w |});
    [|done|done|done|by intros].
  eapply since_publish; [exact Hs|by rewrite Hm|done|exact Hc|by rewrite <-Hb|done|by eexists _, _|apply Hmove|apply Hmove].
Qed.

Lemma publish_from_rule fuel s millis :
  buffer s = EmptyString → MIN_PUBLISHED_SPOOL_BYTES ≤ current_file_bytes s →
  op_triple (holding log M slug s) (publish_from env fuel (active_path s) slug "ndjson" millis)
    (λ _, closed log M) (holding log M slug s).
Proof.
  intros He Hmin. induction fuel as [|fuel IH]; [by apply op_result_rule|]. cbn [publish_from].
  eapply op_bind_rule; [by apply publish_attempt_rule|]. intros [target|]; [by apply op_result_rule|exact IH].
Qed.

Lemma publish_closed_rule s :
  buffer s = EmptyString → MIN_PUBLISHED_SPOOL_BYTES ≤ current_file_bytes s →
  op_triple (holding log M slug s) (publish_closed_file env (active_path s) slug "ndjson")
    (λ _, closed log M) (holding log M slug s).
Proof.
  intros He Hmin. apply op_get_rule. intros w1 _. apply op_weaken with (P' := holding log M slug s)
    (Q' := λ _, closed log M) (E' := holding log M slug s); [|by intros w []|done|done].
  apply op_bind_rule with (R := λ _, holding log M slug s); [apply op_result_rule; by case_match|].
  intros millis w Hw. exact (publish_from_rule _ s millis He Hmin w Hw).
Qed.

(** The spool with what padding made of its size is what is restored. *)
Lemma publish_spool_rule s :
  buffer s = EmptyString →
  op_triple (holding log M slug s) (publish_spool env slug s) (λ _, closed log M) (since w0 log).
Proof.
  intros He. unfold publish_spool. destruct (Z.eqb_spec (current_file_bytes s) 0) as [Hz|Hnz].
  - intros w Hw. destruct (holding_file s w Hw) as (Hp & c & Hc & Hb). destruct Hw as [Hm Hs].
    rewrite He, str_app_nil_r, Hz in Hb. assert (c = EmptyString) as -> by (by apply slen_zero).
    assert (Hcl : since w0 log w).
    { destruct Hs as [Hwf Hd Hk]. split; [|done|].
      - split; [|exact (wf_finals _ Hwf)]. intros slug1 s1 H1. apply (wf_active _ Hwf). simpl.
        rewrite lookup_insert_ne; [done|]. intros ->. congruence.
      - intros slug1 ds Hds. destruct (Hk slug1 ds Hds) as (d1 & d2 & -> & H1 & H2).
        exists d1, d2. split_and!; [done|exact H1|]. unfold active_text in *.
        destruct (decide (slug1 = slug)) as [->|Hne].
        + simpl in H2. rewrite lookup_insert_eq in H2. unfold text_at in H2. simpl in H2.
          rewrite Hc, He in H2. by rewrite Hm, HM.
        + simpl in H2. by rewrite lookup_insert_ne in H2 by done. }
    unfold lift, remove_file_if_exists, attempt, call. destruct (_ && _); simpl; [|by destruct w].
    split; [done|]. eapply since_frame; [exact Hcl|done..|]. intros p Hk. simpl. rewrite lookup_delete_ne; [done|].
    intros <-. destruct Hk as [(slug1 & s1 & H1 & Hp1)|(slug1 & H1)].
    + destruct (wf_active _ (since_wf _ _ _ Hcl) slug1 s1 H1) as (Hp2 & _).
      rewrite Hp1, Hp in Hp2. apply path_join_inj, active_name_inj in Hp2. congruence.
    + destruct (wf_finals _ (since_wf _ _ _ Hcl) slug1 _ H1) as [_ Hn]. by eapply named_not_active.
  - eapply op_bind_rule.
    + eapply op_catch_rule; [by apply pad_rule|by apply restore_rule].
    + intros n w [Hw Hn].
      assert (Ht : op_triple (holding log M slug (with_bytes s n))
        (do* _ := op_catch (publish_closed_file env (active_path s) slug "ndjson")
                    (restore env slug (active_path s) n (current_file_started s)) in op_ret tt)
        (λ _, closed log M) (since w0 log)).
      { eapply op_bind_rule; [|intros ?; apply op_result_rule; intros ? H; exact H].
        eapply op_catch_rule; [by apply (publish_closed_rule (with_bytes s n))|].
        by apply (restore_rule (with_bytes s n)). }
      exact (Ht w Hw).
Qed.

Lemma fresh_spool_rule :
  op_triple (closed log M) (fresh_spool env slug)
    (λ _ w, since w0 log w ∧ ∃ s, spools (writer w) = <[slug := s]> M) (since w0 log).
Proof.
  intros w [Hm Hs]. unfold fresh_spool, op_bind at 1 2, get_writer, read_env. cbn beta iota.
  set (p := path_join (sw_dir (writer w)) (active_name slug)).
  unfold dataset_spool_new, op_bind, lift, bind, attempt, call. fold p.
  destruct (_ && _); simpl; [|by destruct w].
  assert (Hfs : ∀ q, known w q → <[p := File EmptyString]> (files w) !! q = files w !! q).
  { intros q Hq. apply insert_elsewhere. destruct Hq as [(slug1 & s1 & H1 & <-)|(slug1 & H1)].
    - destruct (wf_active _ (since_wf _ _ _ Hs) slug1 s1 H1) as (-> & _). unfold p.
      intros ?%path_join_inj%active_name_inj. congruence.
    - destruct (wf_finals _ (since_wf _ _ _ Hs) slug1 _ H1) as [_ Hn]. by eapply named_not_active. }
  pose proof (since_frame w0 log w (set_files w (<[p := File EmptyString]> (files w))) Hs eq_refl eq_refl eq_refl Hfs)
    as [Hwf Hd Hk]. split; [|eexists; by rewrite Hm]. split; [|done|].
  - split; [|exact (wf_finals _ Hwf)]. simpl. intros slug1 s1. destruct (decide (slug1 = slug)) as [->|Hne].
    + rewrite lookup_insert_eq. intros [= <-]. split; [done|]. exists EmptyString. by rewrite lookup_insert_eq.
    + rewrite lookup_insert_ne by done. exact (wf_active _ Hwf slug1 s1).
  - intros slug1 ds Hds. destruct (Hk slug1 ds Hds) as (d1 & d2 & -> & H1 & H2). exists d1, d2.
    split_and!; [done|exact H1|]. unfold active_text in *. simpl in *.
    destruct (decide (slug1 = slug)) as [->|Hne].
    + rewrite lookup_insert_eq. simpl. unfold text_at. rewrite lookup_insert_eq. by rewrite Hm, HM in H2.
    + by rewrite lookup_insert_ne by done.
Qed.

Lemma close_publish_rule s replace :
  op_triple (holding log M slug s) (close_publish_and_replace env slug s replace)
    (λ _ w, since w0 log w ∧ if replace then ∃ s, spools (writer w) = <[slug := s]> M else spools (writer w) = M)
    (since w0 log).
Proof.
  eapply op_bind_rule; [eapply op_weaken; [apply flush_rule|by intros|by intros|by intros]|].
  intros [s' [[]|e]].
  - intros w [Hw He]. specialize (He eq_refl).
    assert (Ht : op_triple (holding log M slug s')
      (do* _ := publish_spool env slug s' in if replace then fresh_spool env slug else op_ret tt)
      (λ _ w, since w0 log w ∧ if replace then ∃ s, spools (writer w) = <[slug := s]> M else spools (writer w) = M)
      (since w0 log)); [|exact (Ht w Hw)].
    eapply op_bind_rule; [by apply publish_spool_rule|]. intros [].
    destruct replace; [apply fresh_spool_rule|]. apply op_result_rule. by intros ? [? ?].
  - intros w [[_ Hw] _]. exact Hw.
Qed.
End one_spool.

Lemma put_back w slug s : spools (writer w) !! slug = Some s →
  put_spool (set_writer w (with_spools (writer w) (delete slug (spools (writer w))))) slug s = w.
Proof.
  intros Hs. destruct w as [[dir mb ma r sp q sc] fs fin]. simpl in *. unfold put_spool, set_writer, with_spools. simpl.
  by rewrite insert_delete_id.
Qed.

(** A spool is taken out of the map and closed. *)
Lemma take_and_close_rule log slug replace (M : gmap string DatasetSpool) :
  op_triple (λ w, spools (writer w) = M ∧ since w0 log w)
    (do* spool := remove_spool slug in close_publish_and_replace env slug spool replace)
    (λ _ w, since w0 log w
       ∧ if replace then ∃ s, spools (writer w) = <[slug := s]> (delete slug M) else spools (writer w) = delete slug M)
    (since w0 log).
Proof.
  intros w [Hm Hs]. unfold op_bind at 1, remove_spool, get_writer, op_bind at 1. cbn beta iota.
  destruct (spools (writer w) !! slug) as [s|] eqn:Es; [|done]. simpl.
  apply (close_publish_rule log (delete slug M) slug (lookup_delete_eq M slug) s replace).
  split; simpl; [by rewrite Hm|]. by rewrite put_back.
Qed.

Definition writing (log : list (string * string)) (slug : string) (w : World) : Prop :=
  since w0 log w ∧ is_Some (spools (writer w) !! slug).

Lemma rotate_rule log slug :
  op_triple (since w0 log) (rotate env slug) (λ _, writing log slug) (since w0 log).
Proof.
  intros w Hw. pose proof (take_and_close_rule log slug true _ w (conj eq_refl Hw)) as Hc.
  unfold rotate. destruct (op_bind _ _ w) as [w1 [[]|e]]; [|done].
  destruct Hc as [Hs [s Hm]]. split; [done|]. rewrite Hm. exists s. apply lookup_insert_eq.
Qed.

Lemma rotate_if_needed_rule log slug :
  op_triple (writing log slug) (rotate_if_needed env slug) (λ _, writing log slug) (since w0 log).
Proof.
  apply op_get_rule. intros w1 [Hs [s Hsome]]. apply op_get_rule. intros w2 [-> _]. rewrite Hsome. cbv zeta.
  destruct (_ || _).
  - eapply op_weaken; [apply rotate_rule|by intros w (-> & _)|done..].
  - apply op_result_rule. by intros w (-> & _).
Qed.

Lemma ensure_spool_rule log slug :
  op_triple (since w0 log) (ensure_spool env slug) (λ _, writing log slug) (since w0 log).
Proof.
  apply op_get_rule. intros w1 Hs. destruct (spools (writer w1) !! slug) as [s|] eqn:Es.
  - apply op_result_rule. intros w [-> _]. by split.
  - eapply op_weaken; [apply (fresh_spool_rule log (spools (writer w1)) slug Es)|by intros w [-> _]| |done].
    intros [] w [Hw [s Hm]]. split; [done|]. rewrite Hm. exists s. apply lookup_insert_eq.
Qed.

Lemma insert_same w slug s : spools (writer w) !! slug = Some s → put_spool w slug s = w.
Proof.
  intros Hs. destruct w as [[dir mb ma r sp q sc] fs fin]. simpl in *. unfold put_spool, set_writer, with_spools. simpl.
  by rewrite insert_id.
Qed.

Lemma write_line_rule log slug line :
  op_triple (writing log slug) (write_line env slug line) (λ _, writing (log ++ [(slug, line)]) slug)
    (λ w, since w0 log w ∨ since w0 (log ++ [(slug, line)]) w).
Proof.
  intros w [Hs [s Hsome]]. unfold write_line, op_bind at 1, spool_of, op_bind at 1, get_writer. cbn beta iota.
  unfold op_ret, op_result at 1. rewrite Hsome.
  destruct (wf_active w (since_wf _ _ _ Hs) slug s Hsome) as (_ & c & Hc & Hb).
  destruct (write_record_writes (env_faults (env w)) s line (files w) (Hsteady w) (ex_intro _ c Hc))
    as (s' & Hr & Hn & [P B O T]).
  unfold op_bind at 1, lift at 1. rewrite Hr. unfold op_bind at 1, insert_spool, modify_writer at 1. cbn beta iota.
  unfold op_bind at 1, op_result at 1. cbn beta iota. destruct (T c Hc) as (c' & Hc' & E). simpl in E, P.
  eapply (op_weaken (writing (log ++ [(slug, line)]) slug)); [apply rotate_if_needed_rule|by intros|by intros|by right|].
  split; [|exists s'; apply lookup_insert_eq].
  apply (since_active w0 log w slug s s' c' [line]); [by rewrite insert_same|done| |done|done|].
  - rewrite E, Hn, Hb, !slen_app. change (slen (str1 nl)) with 1. lia.
  - intros ds. unfold text_at. rewrite Hc, E. intros H. rewrite (str_app_assoc c). apply holds_app; [done|apply holds_line].
Qed.

(** A first part of [more] was added. *)
Definition partly (log more : list (string * string)) (w : World) : Prop :=
  ∃ l, l `prefix_of` more ∧ since w0 (log ++ l) w.

Lemma partly_nil log more w : since w0 log w → partly log more w.
Proof. intros Hs. exists []. rewrite app_nil_r. split; [apply prefix_nil|done]. Qed.
Lemma partly_all log more w : since w0 (log ++ more) w → partly log more w.
Proof. intros Hs. by exists more. Qed.
Lemma partly_app log a b w : partly (log ++ a) b w → partly log (a ++ b) w.
Proof.
  intros (l & Hl & Hs). exists (a ++ l). split; [by apply prefix_app|]. by rewrite app_assoc.
Qed.
Lemma partly_weaken log a b w : partly log a w → partly log (a ++ b) w.
Proof. intros (l & Hl & Hs). exists l. split; [by apply prefix_app_r|done]. Qed.

Lemma write_lines_rule log slug lines :
  op_triple (writing log slug) (write_lines env slug lines)
    (λ _, writing (log ++ (pair slug <$> lines)) slug) (partly log (pair slug <$> lines)).
Proof.
  revert log. induction lines as [|line lines IH]; intros log; cbn [write_lines].
  - apply op_result_rule. intros w Hw. by rewrite app_nil_r.
  - rewrite fmap_cons. change ((slug, line) :: (pair slug <$> lines)) with ([(slug, line)] ++ (pair slug <$> lines)).
    eapply op_bind_rule with (R := λ _, writing (log ++ [(slug, line)]) slug).
    + eapply op_weaken; [apply write_line_rule|done|done|]. intros w [Hs|Hs].
      * by apply partly_nil.
      * apply partly_weaken. by apply partly_all.
    + intros []. rewrite app_assoc. eapply op_weaken; [apply IH|done|done|]. intros w. apply partly_app.
Qed.

Lemma flush_group_rule log slug :
  op_triple (writing log slug) (flush_group env slug) (λ _, since w0 log) (since w0 log).
Proof.
  intros w [Hs [s Hsome]]. unfold flush_group, op_bind at 1, spool_of, op_bind at 1, get_writer. cbn beta iota.
  unfold op_ret, op_result at 1. rewrite Hsome.
  destruct (wf_active w (since_wf _ _ _ Hs) slug s Hsome) as (_ & c & Hc & Hb).
  destruct (flush_writes (env_faults (env w)) "group-flush" s (files w)) as (s' & r & Hr & [P B O T] & _).
  unfold op_bind at 1, lift at 1. rewrite Hr. unfold op_bind at 1, insert_spool, modify_writer at 1. cbn beta iota.
  destruct (T c Hc) as (c' & Hc' & E). rewrite str_app_nil_r in E.
  assert (Hd : since w0 log (put_spool (set_files w (final (flush_spool "group-flush" s (env_faults (env w)) (files w)))) slug s')).
  { rewrite <-(app_nil_r log). apply (since_active w0 log w slug s s' c' []); [by rewrite insert_same|done| |done|done|].
    - by rewrite B, Hb, E.
    - intros ds. unfold text_at. by rewrite Hc, app_nil_r, E. }
  unfold op_result. by destruct r.
Qed.

Lemma write_group_rule log slug lines :
  op_triple (since w0 log) (write_group env slug lines)
    (λ _, since w0 (log ++ (pair slug <$> lines))) (partly log (pair slug <$> lines)).
Proof.
  eapply op_bind_rule; [eapply op_weaken; [apply ensure_spool_rule|done|done|intros; by apply partly_nil]|].
  intros []. eapply op_bind_rule; [apply write_lines_rule|]. intros [].
  eapply op_weaken; [apply flush_group_rule|done|done|intros; by apply partly_all].
Qed.

Definition group_log (groups : list (string * list string)) : list (string * string) :=
  foldr (λ (g : string * list string) log, (pair (fst g) <$> snd g) ++ log) [] groups.

Lemma write_groups_rule log groups :
  op_triple (since w0 log) (write_groups env groups)
    (λ _, since w0 (log ++ group_log groups)) (partly log (group_log groups)).
Proof.
  revert log. induction groups as [|[slug lines] groups IH]; intros log; cbn [write_groups].
  - apply op_result_rule. intros w Hw. by rewrite app_nil_r.
  - change (group_log ((slug, lines) :: groups)) with ((pair slug <$> lines) ++ group_log groups).
    eapply op_bind_rule with (R := λ _, since w0 (log ++ (pair slug <$> lines))).
    + eapply op_weaken; [apply write_group_rule|done|done|intros; by apply partly_weaken].
    + intros []. rewrite app_assoc. eapply op_weaken; [apply IH|done|done|]. intros w. apply partly_app.
Qed.

(** [finalize_all] leaves no spool open when it succeeds. *)
Lemma finalize_slugs_rule log slugs first_error :
  op_triple (λ w, since w0 log w ∧ (first_error = None → ∀ slug, is_Some (spools (writer w) !! slug) → slug ∈ slugs))
    (finalize_slugs env slugs first_error) (λ _ w, since w0 log w ∧ spools (writer w) = ∅) (since w0 log).
Proof.
  revert first_error. induction slugs as [|slug slugs IH]; intros first_error; cbn [finalize_slugs].
  - destruct first_error; apply op_result_rule; intros w [Hs Hall]; [done|]. split; [done|].
    apply map_eq. intros slug. rewrite lookup_empty. specialize (Hall eq_refl slug).
    destruct (spools (writer w) !! slug); [|done]. exfalso. by apply (not_elem_of_nil slug), Hall.
  - intros w [Hs Hall]. pose proof (take_and_close_rule log slug false _ w (conj eq_refl Hs)) as Hc.
    destruct (op_bind _ _ w) as [w1 [[]|e]].
    + destruct Hc as [Hs1 Hm]. apply IH. split; [done|]. intros He slug1. rewrite Hm.
      destruct (decide (slug1 = slug)) as [->|Hne]; [rewrite lookup_delete_eq; by intros [? ?]|].
      rewrite lookup_delete_ne by done. intros H1.
      assert (Hin : slug1 ∈ slug :: slugs) by (apply Hall; [by destruct first_error|done]). set_solver.
    + apply IH. split; [done|]. by destruct first_error.
Qed.

Lemma rotate_each_rule log slugs :
  op_triple (since w0 log) (rotate_each env slugs) (λ _, since w0 log) (since w0 log).
Proof.
  induction slugs as [|slug slugs IH]; [by apply op_result_rule|].
  eapply op_bind_rule; [apply rotate_rule|]. intros []. eapply op_weaken; [apply IH|by intros w []|done|done].
Qed.

(** ** Retention *)

(** Quarantine files are none of the writer's. *)
Lemma quarantine_unknown w name : wf w → is_retained_quarantine_file name = true →
  ¬ known w (path_join (sw_dir (writer w)) name).
Proof.
  intros Hwf Hq%quarantine_last [(slug & s & Hs & Hp)|(slug & Hin)].
  - destruct (wf_active w Hwf slug s Hs) as (Hp' & _). rewrite Hp' in Hp. apply path_join_inj in Hp. subst name.
    by rewrite active_name_last in Hq.
  - destruct (wf_finals w Hwf slug _ Hin) as (_ & m & q & Hp). apply path_join_inj in Hp. subst name.
    by rewrite final_name_last in Hq.
Qed.

Lemma since_scan log w scan : since w0 log w → since w0 log (set_writer w (with_scan (writer w) scan)).
Proof. intros Hs. by eapply since_frame. Qed.

Lemma modify_scan_rule log (g : SpoolWriter → option (list (result string string))) E :
  op_triple (since w0 log) (modify_writer (λ w, with_scan w (g w))) (λ _, since w0 log) E.
Proof. intros w Hw. by apply since_scan. Qed.

Lemma remove_quarantine_rule log name place :
  is_retained_quarantine_file name = true → ∀ w, since w0 log w →
  let (w', r) := lift env (λ f, remove_file_if_exists f place (path_join (sw_dir (writer w)) name)) w in
  match r with Ok _ | Err _ => since w0 log w' end.
Proof.
  intros Hq w Hs. unfold lift, remove_file_if_exists, attempt, call.
  destruct (_ && _); simpl; eapply since_frame; try done. intros p Hp. simpl. rewrite lookup_delete_ne; [done|].
  intros <-. by apply (quarantine_unknown w name (since_wf _ _ _ Hs) Hq).
Qed.

Lemma prune_entries_rule log ret prune_batch budget deletions :
  op_triple (since w0 log) (prune_entries env ret prune_batch budget deletions) (λ _, since w0 log) (since w0 log).
Proof.
  revert deletions. induction budget as [|budget IH]; intros deletions; [by apply op_result_rule|]. cbn [prune_entries].
  intros w Hs. unfold op_bind at 1, get_writer. cbn beta iota.
  destruct (retention_scan (writer w)) as [[|entry rest]|]; [by apply since_scan| |by apply since_scan].
  unfold op_bind at 1, modify_writer. cbn beta iota. pose proof (since_scan log w (Some rest) Hs) as Hs1.
  set (w1 := set_writer w (with_scan (writer w) (Some rest))) in *.
  unfold op_bind at 1, op_result at 1. destruct entry as [name|]; [|done].
  destruct (_ && _) eqn:Eq; unfold op_bind at 1; cbn beta iota.
  - destruct (before_cutoff _ _ _) as [[|]|]; [|by apply IH|done].
    apply andb_true_iff in Eq as [_ Eq].
    eapply op_bind_rule with (P := λ w2, w2 = w1) (R := λ _, since w0 log); [|intros []; apply IH|done].
    intros w2 ->. exact (remove_quarantine_rule log name "prune" Eq w1 Hs1).
  - by apply IH.
Qed.

Lemma prune_rule log ret scan_batch prune_batch :
  op_triple (since w0 log) (prune_retained_quarantines_with_limits env ret scan_batch prune_batch)
    (λ _, since w0 log) (since w0 log).
Proof.
  intros w Hs. unfold prune_retained_quarantines_with_limits, op_bind at 1, get_writer. cbn beta iota.
  destruct (_ =? _); [done|]. unfold op_bind at 1.
  destruct (retention_scan (writer w)) as [scan|]; [by apply prune_entries_rule|].
  unfold op_bind. destruct (read_dir _ _ _) as [entries|]; [|done]. apply prune_entries_rule. by apply since_scan.
Qed.

Lemma rotate_stale_files_rule log ret key_order :
  op_triple (since w0 log) (rotate_stale_files env ret key_order) (λ _, since w0 log) (since w0 log).
Proof.
  eapply op_bind_rule; [apply prune_rule|]. intros []. apply op_get_rule. intros w1 _.
  destruct (_ =? _); [apply op_result_rule; by intros w [_ Hs]|].
  apply op_get_rule. intros w2 _. eapply op_weaken; [apply rotate_each_rule|by intros w (_ & _ & Hs)|done|done].
Qed.
End conservation.

(** ** Publication finds a name *)

Lemma str_app_cancel_l a b t : t +:+ a = t +:+ b → a = b.
Proof. induction t as [|c t IH]; [done|]. intros H. apply IH. by injection H. Qed.

Lemma show_inj a b : 0 ≤ a → 0 ≤ b → show a = show b → a = b.
Proof. unfold show. intros Ha Hb H%(inj (pretty (A:=N))). lia. Qed.

Lemma final_name_inj slug millis extension s s' :
  0 ≤ s → 0 ≤ s' → final_name slug millis s extension = final_name slug millis s' extension → s = s'.
Proof.
  intros Hs Hs' H. unfold final_name in H. do 5 apply str_app_cancel_l in H.
  apply str_app_cancel_r in H. by apply show_inj.
Qed.

(** [w] when the counter has moved on to [seq]. *)
Definition at_seq (w : World) (seq : Z) : World := set_writer w (with_seq (writer w) seq).
Definition final_path (w : World) (slug extension : string) (millis seq : Z) : Path :=
  path_join (sw_dir (writer w)) (final_name slug millis seq extension).

Lemma publish_attempt_taken env source slug extension millis w :
  is_Some (files w !! final_path w slug extension millis (next_seq (writer w))) →
  publish_attempt env source slug extension millis w = (at_seq w (u32_seq_next (next_seq (writer w))), Ok None).
Proof.
  intros [node Hn]. unfold publish_attempt, op_bind, get_writer, lift, reserve_name, call, final_path in *.
  rewrite Hn. by destruct w.
Qed.

Lemma publish_from_skips env source slug extension millis k : ∀ fuel w,
  next_seq (writer w) + Z.of_nat k ≤ u32_max →
  (∀ j, (j < k)%nat → is_Some (files w !! final_path w slug extension millis (next_seq (writer w) + Z.of_nat j))) →
  publish_from env (k + fuel) source slug extension millis w
  = publish_from env fuel source slug extension millis (at_seq w (next_seq (writer w) + Z.of_nat k)).
Proof.
  induction k as [|k IH]; intros fuel w Hmax Htaken.
  - f_equal. unfold at_seq, set_writer, with_seq. simpl. rewrite Z.add_0_r. by destruct w as [[] ? ?].
  - cbn [Nat.add publish_from]. unfold op_bind. rewrite publish_attempt_taken.
    2: { specialize (Htaken 0%nat ltac:(lia)). by rewrite Z.add_0_r in Htaken. }
    assert (Hnext : u32_seq_next (next_seq (writer w)) = next_seq (writer w) + 1).
    { unfold u32_seq_next, sat_add_u32. lia. }
    rewrite Hnext. rewrite IH; [|simpl; lia|].
    + unfold at_seq, set_writer, with_seq. simpl. do 3 f_equal. lia.
    + intros j Hj. specialize (Htaken (S j) ltac:(lia)). unfold final_path in *. simpl in *.
      by replace (next_seq (writer w) + 1 + Z.of_nat j) with (next_seq (writer w) + Z.of_nat (S j)) by lia.
Qed.

Lemma publish_attempt_free env source slug extension millis w :
  files w !! final_path w slug extension millis (next_seq (writer w)) = None →
  snd (publish_attempt env source slug extension millis w) ≠ Ok None.
Proof.
  intros Hn. unfold publish_attempt, op_bind, get_writer, lift, reserve_name, call, final_path in *. rewrite Hn.
  destruct (_ && _); [|done]. cbn [returned final]. by destruct (returned _) as [[]|].
Qed.

(** ** Grouping *)

Lemma group_log_of_slug groups slug :
  NoDup groups.*1 → of_slug slug (group_log groups) = unwrap_or (list_to_map (M := gmap string (list string)) groups !! slug) [].
Proof.
  intros Hnd. induction groups as [|[slug' lines] groups IH]; [done|].
  rewrite fmap_cons in Hnd. apply NoDup_cons in Hnd as [Hni Hnd].
  change (group_log ((slug', lines) :: groups)) with ((pair slug' <$> lines) ++ group_log groups).
  rewrite of_slug_app, (IH Hnd). cbn [list_to_map foldr]. change (foldr _ _ groups) with (list_to_map (M := gmap string (list string)) groups).
  simpl. destruct (decide (slug' = slug)) as [->|Hne].
  - rewrite of_slug_same, lookup_insert_eq, (not_elem_of_list_to_map_1 _ _ Hni). apply app_nil_r.
  - rewrite of_slug_other, lookup_insert_ne by done. done.
Qed.

(** The documents of a dataset among [docs], as text. *)
Definition docs_for (to_string : json → string) (slug : string) (docs : list json) : list string :=
  to_string <$> List.filter (λ d, String.eqb (doc_slug d) slug) docs.

Lemma group_docs_lookup to_string docs slug :
  unwrap_or (group_docs to_string docs !! slug) [] = docs_for to_string slug docs.
Proof.
  unfold group_docs. assert (Hgen : ∀ m : gmap string (list string),
    unwrap_or (foldl (λ m doc, <[doc_slug doc := unwrap_or (m !! doc_slug doc) [] ++ [to_string doc]]> m) m docs !! slug) []
    = unwrap_or (m !! slug) [] ++ docs_for to_string slug docs).
  { unfold docs_for. induction docs as [|doc docs IH]; intros m; [by rewrite app_nil_r|]. cbn [foldl List.filter]. rewrite IH.
    destruct (String.eqb_spec (doc_slug doc) slug) as [->|Hne].
    - rewrite lookup_insert_eq, fmap_cons. cbn [unwrap_or]. by rewrite <-app_assoc.
    - by rewrite lookup_insert_ne. }
  by rewrite Hgen.
Qed.

Lemma write_docs_log to_string (order : gmap string (list string) → list (string * list string)) docs slug :
  (∀ m, order m ≡ₚ map_to_list m) →
  of_slug slug (group_log (order (group_docs to_string docs))) = docs_for to_string slug docs.
Proof.
  intros Ho. assert (Hnd : NoDup (order (group_docs to_string docs)).*1).
  { rewrite (Ho _). apply NoDup_fst_map_to_list. }
  rewrite group_log_of_slug by done. rewrite <-group_docs_lookup. f_equal.
  rewrite (list_to_map_proper _ _ Hnd (Ho _)). by rewrite list_to_map_to_list.
Qed.

(** ** Runs *)

(** What the main loop asks of the writer. *)
Inductive Command := WriteDocs (docs : list json) | RotateStaleFiles | FinalizeAll.

(** Serialization, hash-map orders and directory reads. *)
Record Calls := {
  to_string : json → string;
  group_order : gmap string (list string) → list (string * list string);
  key_order : gmap string DatasetSpool → list string;
  retention_reads : Retention;
}.
(** Iterating a hash map gives each entry once. *)
Definition orders (calls : Calls) : Prop :=
  (∀ m, group_order calls m ≡ₚ map_to_list m) ∧ (∀ m, key_order calls m ≡ₚ (map_to_list m).*1).

Section runs.
Context (env : World → CallEnv) (calls : Calls).

Definition perform (c : Command) : Op unit :=
  match c with
  | WriteDocs docs => write_docs env (to_string calls) (group_order calls) docs
  | RotateStaleFiles => rotate_stale_files env (retention_reads calls) (key_order calls)
  | FinalizeAll => finalize_all env (key_order calls)
  end.
Fixpoint run_commands (cs : list Command) (w : World) : World * list (result unit string) :=
  match cs with
  | [] => (w, [])
  | c :: rest =>
      let (w', r) := perform c w in
      let (w'', rs) := run_commands rest w' in (w'', r :: rs)
  end.

(** What a call adds to a dataset: all its documents, or the first ones when it
    fails. *)
Definition adds (slug : string) (c : Command) (r : result unit string) (ds : list string) : Prop :=
  match c, r with
  | WriteDocs docs, Ok _ => ds = docs_for (to_string calls) slug docs
  | WriteDocs docs, Err _ => ds `prefix_of` docs_for (to_string calls) slug docs
  | _, _ => ds = []
  end.
End runs.

Lemma of_slug_prefix slug l l' : l `prefix_of` l' → of_slug slug l `prefix_of` of_slug slug l'.
Proof. intros [k ->]. rewrite of_slug_app. by apply prefix_app_r. Qed.

Lemma of_slug_mjoin slug (logs : list (list (string * string))) :
  of_slug slug (mjoin logs) = mjoin (of_slug slug <$> logs).
Proof.
  induction logs as [|log logs IH]; [done|]. rewrite fmap_cons.
  change (of_slug slug (log ++ mjoin logs) = of_slug slug log ++ mjoin (of_slug slug <$> logs)).
  by rewrite of_slug_app, IH.
Qed.

Section run_proofs.
Context (env : World → CallEnv) (calls : Calls).
Context (Hsteady : ∀ w, steady (env_faults (env w))) (Horders : orders calls).

Lemma perform_spec c w :
  wf w →
  let (w', r) := perform env calls c w in
  ∃ log, since w log w' ∧ (∀ slug, adds calls slug c r (of_slug slug log))
    ∧ (c = FinalizeAll → r = Ok tt → spools (writer w') = ∅).
Proof.
  destruct Horders as [Hgroup Hkey]. intros Hwf%since_refl. destruct c as [docs| |]; cbn [perform].
  - unfold write_docs. destruct docs as [|doc docs]; [by exists []|].
    pose proof (write_groups_rule env Hsteady w [] (group_order calls (group_docs (to_string calls) (doc :: docs))) w Hwf) as H.
    destruct (write_groups _ _ _) as [w' [[]|e]].
    + eexists. split; [exact H|]. split; [|done]. intros slug. cbn [adds app]. by apply write_docs_log.
    + destruct H as (l & Hl & H). exists l. split; [exact H|]. split; [|done]. intros slug. cbn [adds].
      rewrite <-(write_docs_log _ (group_order calls)) by done. by apply of_slug_prefix.
  - pose proof (rotate_stale_files_rule env Hsteady w [] (retention_reads calls) (key_order calls) w Hwf) as H.
    destruct (rotate_stale_files _ _ _ _) as [w' r]. exists []. split; [by destruct r|]. split; [by destruct r|done].
  - pose proof (finalize_slugs_rule env Hsteady w [] (key_order calls (spools (writer w))) None w) as H.
    unfold finalize_all, op_bind, get_writer. destruct (finalize_slugs _ _ _ _) as [w' r]. exists [].
    assert (Hpre : since w [] w ∧ (None = None (A := string) → ∀ slug, is_Some (spools (writer w) !! slug) →
      slug ∈ key_order calls (spools (writer w)))).
    { split; [done|]. intros _ slug [s Hs]. rewrite (Hkey _). apply list_elem_of_fmap. exists (slug, s).
      split; [done|]. by apply elem_of_map_to_list. }
    specialize (H Hpre). split; [by destruct r as [[]|]; [destruct H|]|]. split; [by destruct r|].
    intros _ ->. by destruct H.
Qed.

Lemma run_spec cs : ∀ w, wf w →
  let (w', rs) := run_commands env calls cs w in
  ∃ logs, since w (mjoin logs) w' ∧ length rs = length cs
    ∧ Forall2 (λ '(c, r) log, ∀ slug, adds calls slug c r (of_slug slug log)) (zip cs rs) logs
    ∧ (last (zip cs rs) = Some (FinalizeAll, Ok tt) → spools (writer w') = ∅).
Proof.
  induction cs as [|c cs IH]; intros w Hwf; cbn [run_commands].
  - exists []. split_and!; [by apply since_refl|done|constructor|done].
  - pose proof (perform_spec c w Hwf) as Hc. destruct (perform env calls c w) as [w1 r].
    destruct Hc as (log & Hs & Ha & Hfin). specialize (IH w1 (since_wf _ _ _ Hs)).
    destruct (run_commands env calls cs w1) as [w2 rs] eqn:Er. destruct IH as (logs & Hs2 & Hlen & Hall & Hlast).
    exists (log :: logs). split_and!; [by eapply since_trans|by simpl; f_equal|by constructor|].
    cbn [zip zip_with]. intros Hl. destruct cs as [|c' cs], rs as [|r' rs]; try discriminate Hlen.
    + injection Hl as -> ->. injection Er as <-. by apply Hfin.
    + by apply Hlast.
Qed.
End run_proofs.

(** ** Properties *)

(** C7: no document is lost, duplicated or reordered by the spool writer.  Over
    any sequence of writes, periodic rotations and finalizations, from a writer
    with no file open, and whatever calls fail at whatever moment (opening a
    file, reserving a name, renaming, removing, flushing before a publication,
    reading a directory), the documents of each dataset are, in the order they
    were written, the lines of its published files in order of publication
    followed by those of its active file (with trailing spaces where a file was
    padded): all the documents of a write that succeeded, a first part of those
    of one that failed.  Every published file reaches the size below which the
    delivery agent ignores it, and after a successful finalization every
    document is in a published file.  Failing writes to an active file, failing
    padding and failing to re-open a file are excluded: see
    [reopen_failure_loses] for why. *)
Theorem spool_conserves (env : World → CallEnv) (calls : Calls) (cs : list Command) (w : World)
    (Hsteady : ∀ w, steady (env_faults (env w))) (Horders : orders calls)
    (Hfresh : spools (writer w) = ∅ ∧ finals w = []) :
  let (w', rs) := run_commands env calls cs w in
  ∀ slug, ∃ added : list (list string),
    length rs = length cs
    ∧ Forall2 (λ '(c, r) ds, adds calls slug c r ds) (zip cs rs) added
    ∧ kept w' slug (mjoin added)
    ∧ Forall (λ p, MIN_PUBLISHED_SPOOL_BYTES ≤ slen (text_at (files w') p)) (finals_of w' slug)
    ∧ (last (zip cs rs) = Some (FinalizeAll, Ok tt) → holds (mjoin added) (published_text w' slug)).
Proof.
  destruct Hfresh as [Hsp Hfin].
  assert (Hwf : wf w) by (split; [rewrite Hsp|rewrite Hfin]; [done|by intros ? ? ?%not_elem_of_nil]).
  pose proof (run_spec env calls Hsteady Horders cs w Hwf) as H. destruct (run_commands env calls cs w) as [w' rs].
  destruct H as (logs & Hs & Hlen & Hall & Hlast). intros slug. exists (of_slug slug <$> logs).
  assert (Hkept : kept w' slug (mjoin (of_slug slug <$> logs))).
  { replace (mjoin (of_slug slug <$> logs)) with ([] ++ of_slug slug (mjoin logs)).
    - apply (since_kept _ _ _ Hs). exists [], []. unfold published_text, finals_of, active_text.
      rewrite Hsp, Hfin. split_and!; [done|apply holds_nil..].
    - apply of_slug_mjoin. }
  split_and!; [done| |done| |].
  - clear -Hall. induction Hall as [|[c r] log l logs H _ IH]; constructor; [apply H|exact IH].
  - apply Forall_forall. intros p Hp%elem_of_finals_of.
    destruct (wf_finals _ (since_wf _ _ _ Hs) slug p Hp) as ((c & Hc & Hmin) & _). unfold text_at. by rewrite Hc.
  - intros Hl. destruct Hkept as (d1 & d2 & -> & H1 & H2). unfold active_text in H2. rewrite (Hlast Hl) in H2.
    apply holds_empty in H2 as ->; [|done]. by rewrite app_nil_r.
Qed.

(** Publishing a closed file ends: however many names are taken, as long as
    the sequence counter has room for one more than there are files, the loop
    stops at the first free name, and the result is that of the attempt on that
    name. *)
Theorem publication_ends (env : World → CallEnv) (source : Path) (slug extension : string) (millis : Z) (w : World)
    (Hseq : 0 ≤ next_seq (writer w) ∧ next_seq (writer w) + Z.of_nat (size (files w)) ≤ u32_max) :
  ∃ k, (k ≤ size (files w))%nat
    ∧ (∀ j, (j < k)%nat → is_Some (files w !! final_path w slug extension millis (next_seq (writer w) + Z.of_nat j)))
    ∧ files w !! final_path w slug extension millis (next_seq (writer w) + Z.of_nat k) = None
    ∧ ∃ w' r, publish_attempt env source slug extension millis (at_seq w (next_seq (writer w) + Z.of_nat k))
                = (w', map_ok Some r)
              ∧ ∀ fuel, (k < fuel)%nat → publish_from env fuel source slug extension millis w = (w', r).
Proof.
  destruct Hseq as [H0 Hmax].
  destruct (free_name (files w) (λ k, final_path w slug extension millis (next_seq (writer w) + Z.of_nat k)))
    as (k & Hk & Hfree & Htaken).
  { intros i j _ _ H%path_join_inj%final_name_inj; lia. }
  exists k. split_and!; [done..|].
  set (w1 := at_seq w (next_seq (writer w) + Z.of_nat k)).
  pose proof (publish_attempt_free env source slug extension millis w1 Hfree) as Hne.
  destruct (publish_attempt env source slug extension millis w1) as [w' r] eqn:Ea. simpl in Hne.
  assert (Hr : ∃ r', r = map_ok Some r' ∧ (match r with Ok (Some t) => Ok t | Ok None => Err EmptyString | Err e => Err e end) = r').
  { destruct r as [[t|]|e]; [by exists (Ok t)|done|by exists (Err e)]. }
  destruct Hr as (r' & -> & Hr'). exists w', r'. split; [done|]. intros fuel Hfuel.
  replace fuel with (k + S (fuel - k - 1))%nat by lia. rewrite publish_from_skips; [|lia|done].
  fold w1. cbn [publish_from]. unfold op_bind. rewrite Ea. by destruct r'.
Qed.

(** ** Concrete runs *)

Definition demo_doc (dataset text : string) : json :=
  JObject [("data_stream", JObject [("dataset", JString dataset)]); ("text", JString text)].
Definition demo_text (doc : json) : string :=
  unwrap_or (and_then (json_get "text" doc) as_str) EmptyString.
Definition demo_calls : Calls :=
  {| to_string := demo_text; group_order m := map_to_list m; key_order m := (map_to_list m).*1;
     retention_reads := {| read_dir _ _ := Ok []; before_cutoff _ _ := Ok false |} |}.
Definition demo_env (broken : list string) (t : Z) (w : World) : CallEnv :=
  {| env_faults := {| fails s := match s with At place => existsb (String.eqb place) broken | _ => false end;
                      os_error _ := EmptyString; written := 0 |};
     unix_millis := Ok 7; now := t |}.
Definition demo_world : World :=
  {| writer := {| sw_dir := (true, ["spool"]); max_file_bytes := 0; max_file_age := 60; retention := 0;
                  spools := ∅; next_seq := 1; retention_scan := None |};
     files := <[(true, ["spool"]) := Dir]> ∅; finals := [] |}.
Definition demo_commands : list Command :=
  [WriteDocs [demo_doc "rigsignal.cpu" "a"; demo_doc "rigsignal.cpu" "b"]; FinalizeAll].

Lemma demo_orders : orders demo_calls.
Proof. by split. Qed.

Lemma spool_conserves_witness :
  let '(w', rs) := run_commands (demo_env [] 0) demo_calls demo_commands demo_world in
  rs = [Ok tt; Ok tt] ∧
  ∃ added : list (list string),
    mjoin added = ["a"; "b"] ∧ holds (mjoin added) (published_text w' "cpu").
Proof.
  pose proof (spool_conserves (demo_env [] 0) demo_calls demo_commands demo_world
    (λ w, conj eq_refl (conj eq_refl (conj eq_refl (conj eq_refl eq_refl)))) demo_orders (conj eq_refl eq_refl)) as H.
  destruct (run_commands _ _ _ _) as [w' rs] eqn:Er.
  assert (Hrs : rs = [Ok tt; Ok tt]).
  { apply (f_equal snd) in Er. change rs with (snd (w', rs)). rewrite <-Er. vm_compute. reflexivity. }
  split; [exact Hrs|]. subst rs. destruct (H "cpu") as (added & _ & Hall & _ & _ & Hlast). exists added. split; [|by apply Hlast].
  inversion Hall as [|? d1 ? ? H1 Hall2]; subst. inversion Hall2 as [|? d2 ? ? H2 Hall3]; subst. inversion Hall3; subst.
  cbn [adds] in H1, H2. subst d1 d2. vm_compute. reflexivity.
Defined.

Lemma publication_ends_witness :
  0 ≤ next_seq (writer demo_world) ∧ next_seq (writer demo_world) + Z.of_nat (size (files demo_world)) ≤ u32_max
  ∧ ∃ k, (k ≤ size (files demo_world))%nat
      ∧ files demo_world !! final_path demo_world "cpu" "ndjson" 7 (next_seq (writer demo_world) + Z.of_nat k) = None.
Proof.
  assert (Hs : 0 ≤ next_seq (writer demo_world)
    ∧ next_seq (writer demo_world) + Z.of_nat (size (files demo_world)) ≤ u32_max) by (vm_compute; split; discriminate).
  split; [apply Hs|]. split; [apply Hs|].
  destruct (publication_ends (demo_env [] 0) (true, ["spool"; "x"]) "cpu" "ndjson" 7 demo_world Hs) as (k & Hk & _ & Hf & _).
  exists k. split; [exact Hk|exact Hf].
Defined.

(** When the publication fails and re-opening the file fails too, the dataset is
    forgotten while its file stays; the next write truncates it.  Two documents
    are written and accepted; only the second is published. *)
Definition demo_loss : World * list (result unit string) :=
  let (w1, r1) := run_commands (demo_env [] 0) demo_calls [WriteDocs [demo_doc "rigsignal.cpu" "first"]] demo_world in
  let (w2, r2) := run_commands (demo_env ["publish"; "active-reopen"] (61 * 10 ^ 9)) demo_calls [RotateStaleFiles] w1 in
  let (w3, r3) := run_commands (demo_env [] (61 * 10 ^ 9)) demo_calls [WriteDocs [demo_doc "rigsignal.cpu" "second"]; FinalizeAll] w2 in
  (w3, r1 ++ r2 ++ r3).
Lemma reopen_failure_loses :
  map is_ok (snd demo_loss) = [true; false; true; true]
  ∧ published_text (fst demo_loss) "cpu" = "second" +:+ spaces 1017 +:+ str1 nl.
Proof. vm_compute. by split. Qed.

(** A write cut short leaves its bytes in the file, without a newline: the next
    document, which is accepted, continues that line. *)
Definition demo_cut : World * list (result unit string) :=
  let long := spaces (Z.to_nat 9000) in
  let (w1, r1) := run_commands (demo_env [] 0) demo_calls [WriteDocs []] demo_world in
  let broken w := {| env_faults := {| fails s := match s with At "direct" => true | _ => false end;
                                      os_error _ := "ENOSPC"; written := 100 |}; unix_millis := Ok 7; now := 0 |} in
  let (w2, r2) := run_commands broken demo_calls [WriteDocs [demo_doc "rigsignal.cpu" long]] w1 in
  let (w3, r3) := run_commands (demo_env [] 0) demo_calls [WriteDocs [demo_doc "rigsignal.cpu" "next"]; FinalizeAll] w2 in
  (w3, r2 ++ r3).
Lemma cut_write_glues_records :
  map is_ok (snd demo_cut) = [false; true; true]
  ∧ String.length (published_text (fst demo_cut) "cpu") = 1024%nat
  ∧ take_bytes 105 (published_text (fst demo_cut) "cpu") = spaces 100 +:+ "next" +:+ " ".
Proof. vm_compute. by split. Qed.
