(* ===== verification/GameScan.v ===== *)
(** * Game detection ([src/session.rs], [src/dllscan.rs])

    The chain of scanners that looks for a running game: Steam, Lutris, Heroic
    and Bottles, with what they read from process environments, mapped
    libraries, Steam's manifests and the launchers' files.  The machine is read
    through [Machine]; YAML and JSON texts are parsed by arguments.  A [None]
    result of a scanner is [Ok None]; [Err] is a panic. *)
From Stdlib Require Import Ascii.
From S2P Require Import Prelude Float64 EsModel Json FileSystem.

(** ** Targets *)

Inductive TargetSource :=
| Steam | EpicGames | GogGalaxy | Lutris | Heroic | Bottles | UserSpecified | AutoDetected.
#[export] Instance TargetSource_eq_dec : EqDecision TargetSource.
Proof. solve_decision. Defined.

Record Target := {
  t_source : TargetSource;
  t_display_name : string;
  t_pid : Z;
  t_all_pids : list Z;
  t_steam_app_id : option Z;
  t_launcher : option string;
  t_graphics_api : option string;
  t_proton_version : option string;
  t_dxvk_version : option string;
}.

Definition from_steam (name : string) (steam_app_id pid : Z) (all_pids : list Z)
    (graphics_api proton_version dxvk_version : option string) : Target :=
  {| t_source := Steam; t_display_name := name; t_pid := pid; t_all_pids := all_pids;
     t_steam_app_id := Some steam_app_id; t_launcher := Some "Steam"; t_graphics_api := graphics_api;
     t_proton_version := proton_version; t_dxvk_version := dxvk_version |}.

Definition target_source_str (s : TargetSource) : string :=
  match s with
  | Steam => "steam" | EpicGames => "epic_games" | GogGalaxy => "gog_galaxy" | Lutris => "lutris"
  | Heroic => "heroic" | Bottles => "bottles" | UserSpecified => "user_specified"
  | AutoDetected => "auto_detected"
  end.

(** [target_to_game_doc]: the [rigsignal.game] members. *)
Definition target_to_game_doc (t : Target) : list (string * json) :=
  map_of ([("name", JString (t_display_name t)); ("source", JString (target_source_str (t_source t)))]
          ++ when_some "steam_app_id" json_u64 (t_steam_app_id t)
          ++ when_some "launcher" JString (t_launcher t)
          ++ when_some "graphics_api" JString (t_graphics_api t)).

(** ** Texts *)

(** [str::split(c).nth(n)]. *)
Definition nth_piece (sep : ascii) (n : nat) (s : string) : option string := split_char sep s !! n.

(** [str::replace] of two backslashes by one. *)
Fixpoint unescape_backslashes (s : string) : string :=
  match s with
  | String "\" (String "\" rest) => String "\" (unescape_backslashes rest)
  | String c rest => String c (unescape_backslashes rest)
  | EmptyString => EmptyString
  end.

Definition quote : ascii := "034"%char.

Definition parse_vdf_paths (content : string) : list string :=
  filter_map (λ line,
    let trimmed := trim line in
    if starts_with (dq +:+ "path" +:+ dq) trimmed then
      unescape_backslashes <$> nth_piece quote 3 trimmed
    else None) (lines content).

(** The value of the first line that starts with the quoted key and has one. *)
Definition acf_value (key line : string) : option string :=
  let trimmed := trim line in
  if starts_with (dq +:+ key +:+ dq) trimmed then
    match nth_piece quote 3 trimmed with
    | Some value => if is_empty (trim value) then None else Some (trim value)
    | None => None
    end
  else None.
Definition parse_acf_field (content key : string) : option string := head (filter_map (acf_value key) (lines content)).

(** The version in the first line of [dxvk.log]: the digits and dots after a
    [v]. *)
Fixpoint dxvk_scan (in_v : bool) (version : string) (cs : list string) : option string :=
  match cs with
  | [] => if is_empty version then None else Some version
  | ch :: rest =>
      if String.eqb ch "v" && negb in_v then dxvk_scan true EmptyString rest
      else if in_v && (char_is is_ascii_digit ch || String.eqb ch ".") then dxvk_scan true (version +:+ ch) rest
      else if in_v then
        if negb (is_empty version) then Some version else dxvk_scan false version rest
      else dxvk_scan in_v version rest
  end.

(** [LutrisGameSection] and [LutrisGameConfig]; the Wine section is only
    compared with null. *)
Record LutrisGameConfig := {
  lutris_exe : option string;
  lutris_prefix : option string;
  lutris_is_wine : bool;
}.

(** [BottleProgram], [BottleConfig]; the programs in the order the map gives
    them. *)
Record BottleProgram := {
  bp_name : option string;
  bp_executable : option string;
  bp_removed : option json;
}.
Record BottleConfig := { bottle_name : string; bottle_programs : list (string * BottleProgram) }.

(** [BottleProgram::is_active]. *)
Definition is_active (p : BottleProgram) : bool :=
  match bp_removed p with
  | None | Some JNull => true
  | Some (JBool b) => negb b
  | Some (JString s) => is_empty s
  | Some _ => false
  end.

Inductive HeroicStore := Epic | Gog.

(** ** The machine *)

(** What the scanners ask of the operating system, with [.ok()] applied: file
    contents, link targets, directory listings (file names), and the
    environment of the agent itself. *)
Record Machine := {
  read_bytes : string → option string;
  read_link : string → option string;
  list_dir : string → option (list string);
  path_exists : string → bool;
  path_is_dir : string → bool;
  canonicalize : string → option string;
  var : string → option string;
}.

(** The readers of third-party formats, and the map entry a [HashMap] happens
    to yield first. *)
Record Readers := {
  json_from_str : string → option json;
  lutris_from_str : string → option LutrisGameConfig;
  bottle_from_str : string → option BottleConfig;
  any_key : gmap Z (list Z) → option Z;
}.
(** [any_key] yields a key unless there is none. *)
Definition fair_keys (r : Readers) : Prop :=
  ∀ m, match any_key r m with Some k => is_Some (m !! k) | None => m = ∅ end.

(** [entry(k).or_default().push(pid)], and the loop over the processes that
    does it with the key of each. *)
Definition push_pid {K : Type} `{Countable K} (k : K) (pid : Z) (pids : gmap K (list Z)) : gmap K (list Z) :=
  <[k := unwrap_or (pids !! k) [] ++ [pid]]> pids.
Definition group_pids {K : Type} `{Countable K} (key : Z → option K) (pids : list Z) : gmap K (list Z) :=
  foldl (λ m pid, match key pid with Some k => push_pid k pid m | None => m end) ∅ pids.

Section scan.
Context `{Unicode} (r : Readers) (m : Machine).

(** [fs::read_to_string(path).ok()]. *)
Definition read_text (p : string) : option string :=
  and_then (read_bytes m p) (λ s, if is_utf8 s then Some s else None).

Definition proc_path (pid : Z) (file : string) : string := "/proc/" +:+ show pid +:+ "/" +:+ file.

(** The entries of [/proc] that are numbers. *)
Definition proc_pids : option (list Z) := filter_map parse_u32 <$> list_dir m "/proc".

(** ** Mapped libraries *)

(** What follows the [n]th white space. *)
Fixpoint after_spaces (n : nat) (cs : list string) : option (list string) :=
  match n, cs with
  | O, _ => Some cs
  | S _, [] => None
  | S n', c :: rest => if is_whitespace c then after_spaces n' rest else after_spaces n rest
  end.

Definition mapped_path (line : string) : option string :=
  match after_spaces 5 (chars line) with
  | Some cs =>
      let path := trim (concat_str cs) in
      if starts_with "/" path then Some (uc_to_lowercase path) else None
  | None => None
  end.
Definition read_mapped_paths (pid : Z) : list string :=
  match read_text (proc_path pid "maps") with
  | Some content => filter_map mapped_path (lines content)
  | None => []
  end.

Definition any_path (paths : list string) (fragment : string) : bool := existsb (contains fragment) paths.

Definition detect_graphics_api_from_paths (paths : list string) : option string :=
  let any := any_path paths in
  if any "vkd3d" then Some "dx12_via_vkd3d"
  else if any "libdxvk_d3d9" || any "dxvk_d3d9.dll" then Some "dx9_via_dxvk"
  else if any "dxvk" then Some "dx11_via_dxvk"
  else if any "d3d12.dll" then Some "dx12"
  else if any "d3d11.dll" then Some "dx11"
  else if any "libvulkan" || any "vulkan-1.dll" then Some "vulkan"
  else if any "libgl.so" || any "libglx.so" || any "opengl32.dll" then Some "opengl"
  else None.

Definition detect_upscaler_from_paths (paths : list string) : option string :=
  let any := any_path paths in
  if any "nvngx_dlss" then Some "dlss"
  else if any "xess" then Some "xess"
  else if any "ffx_fsr" || any "libffx_fsr" || any "amd_fidelityfx_vk" || any "openfsr" then Some "fsr"
  else None.

Definition detect_frame_gen_from_paths (paths : list string) : option string :=
  let any := any_path paths in
  if any "nvngx_dlssg" || any "dlss_fg" || any "dlssg.dll" then Some "dlss3"
  else if any "ffx_framegeneration" || any "ffx_fsr3framegen" then Some "fsr3"
  else if any "afmf" then Some "afmf"
  else None.

Definition settings_overlay_from_paths (paths : list string) : json :=
  let tech t := object [("tech", JString t)] in
  let settings := map_of (when_some "upscaler" tech (detect_upscaler_from_paths paths)
                          ++ when_some "frame_gen" tech (detect_frame_gen_from_paths paths)) in
  match settings with
  | [] => JNull
  | _ =>
      let settings := map_insert "confidence" (JString "medium")
                        (map_insert "source" (JString "auto_detected") settings) in
      object [("rigsignal", object [("settings", JObject settings)])]
  end.
Definition settings_overlay_from_maps (pid : Z) : json := settings_overlay_from_paths (read_mapped_paths pid).
Definition graphics_api_from_maps (pid : Z) : option string := detect_graphics_api_from_paths (read_mapped_paths pid).

(** ** Process environments *)

Definition environ_entry (entry : string) : option (string * string) :=
  match split_once "=" entry with
  | Some (key, value) => Some (from_utf8_lossy key, from_utf8_lossy value)
  | None => None
  end.
Definition environ_map (bytes : string) : gmap string string :=
  foldl (λ env kv, <[fst kv := snd kv]> env) ∅ (filter_map environ_entry (split_char "000" bytes)).
Definition read_environ (pid : Z) : option (gmap string string) :=
  match read_bytes m (proc_path pid "environ") with
  | Some bytes =>
      let env := environ_map bytes in
      if is_empty bytes || bool_decide (env = ∅) then None else Some env
  | None => None
  end.

Definition has (env : gmap string string) (key : string) : bool :=
  match env !! key with Some _ => true | None => false end.

Definition detect_graphics_api (env : gmap string string) : option string * bool :=
  let uses_proton := has env "PROTON_VERSION" || has env "STEAM_COMPAT_DATA_PATH" in
  let dll_overrides := unwrap_or (uc_to_lowercase <$> env !! "WINEDLLOVERRIDES") EmptyString in
  if contains "vkd3d" dll_overrides || has env "VKD3D_CONFIG" then (Some "dx12_via_vkd3d", uses_proton)
  else if contains "dxvk" dll_overrides || has env "DXVK_CONFIG_FILE" then (Some "dx11_via_dxvk", uses_proton)
  else if has env "VULKAN_DEVICE_INDEX" || has env "VK_ICD_FILENAMES" then (Some "vulkan", uses_proton)
  else if uses_proton then (Some "dx_via_proton", uses_proton)
  else (None, false).

Definition graphics_api_with_maps_fallback (env : gmap string string) (pid : Z) : option string * bool :=
  let (api, uses_proton) := detect_graphics_api env in
  match api with
  | Some _ => (api, uses_proton)
  | None => (graphics_api_from_maps pid, false)
  end.

Definition compat_tool_version (part : string) : option string :=
  match read_text (join_path part "version") with
  | Some v => if is_empty (trim v) then None else Some (trim v)
  | None => None
  end.
Definition proton_version_from_env (env : gmap string string) : option string :=
  match env !! "PROTON_VERSION" with
  | Some v => Some v
  | None =>
      let! compat_path := env !! "STEAM_COMPAT_TOOL_PATHS" in
      head (filter_map compat_tool_version (split_char ":" compat_path))
  end.

Definition dxvk_version_from_env (env : gmap string string) : option string :=
  let! log_path := env !! "DXVK_LOG_PATH" in
  let! content := read_text (join_path log_path "dxvk.log") in
  let! first_line := head (lines content) in
  dxvk_scan false EmptyString (chars first_line).

(** The three pieces of metadata every scanner reads of its target. *)
Definition enrich (pid : Z) (env : gmap string string) (build : option string → option string → option string → Target)
  : Target :=
  build (fst (graphics_api_with_maps_fallback env pid)) (proton_version_from_env env) (dxvk_version_from_env env).

(** ** Steam *)

Definition home_dir : option string :=
  let sudo :=
    match var m "SUDO_USER" with
    | Some user =>
        if is_empty user then None
        else let p := join_path "/home" user in if path_exists m p then Some p else None
    | None => None
    end in
  match var m "HOME" with
  | Some home => if is_empty home then sudo else Some home
  | None => sudo
  end.

Definition game_name_from_appid (app_id : Z) : option string :=
  let! home := home_dir in
  let roots := [join_path home ".steam/steam/steamapps"; join_path home ".local/share/Steam/steamapps";
                join_path home ".var/app/com.valvesoftware.Steam/data/Steam/steamapps"] in
  let extra := concat ((λ root,
    match read_text (join_path root "libraryfolders.vdf") with
    | Some content => (λ p, join_path p "steamapps") <$> parse_vdf_paths content
    | None => []
    end) <$> roots) in
  head (filter_map (λ root,
    let! content := read_text (join_path root ("appmanifest_" +:+ show app_id +:+ ".acf")) in
    parse_acf_field content "name") (roots ++ extra)).

(** The app id of an environment; the second part of the scan takes 0 for
    none. *)
Definition environ_app_id (env : gmap string string) : option Z :=
  and_then (match env !! "SteamAppId" with Some s => Some s | None => env !! "STEAM_APP_ID" end)
    (λ s, parse_u32 (trim s)).
Definition steam_app_id_of (env : gmap string string) : option Z :=
  match environ_app_id env with
  | Some id => if id =? 0 then None else Some id
  | None => None
  end.

Definition SKIP_CONTAINS : list string := ["proton"; "wine"; "steam"; "reaper"].
Definition SKIP_BASENAME : list string :=
  ["sh"; "bash"; "dash"; "zsh"; "fish"; "ksh"; "python"; "python3"; "perl"; "ruby"; "node"].

(** A process whose metadata is the game's: neither a helper nor a shell. *)
Definition represents_game (pid : Z) : bool :=
  let exe_path := unwrap_or (uc_to_lowercase <$> (from_utf8_lossy <$> read_link m (proc_path pid "exe"))) EmptyString in
  let exe_basename := unwrap_or (path_file_name (path_from exe_path)) EmptyString in
  negb (existsb (λ w, contains w exe_path) SKIP_CONTAINS) && negb (existsb (String.eqb exe_basename) SKIP_BASENAME).

Record SteamScan := {
  representative : option (Z * gmap string string);
  all_pids_by_appid : gmap Z (list Z);
}.
Definition steam_step (s : SteamScan) (pid : Z) : SteamScan :=
  match read_environ pid with
  | None => s
  | Some env =>
      match steam_app_id_of env with
      | None => s
      | Some app_id =>
          {| representative :=
               match representative s with
               | Some _ => representative s
               | None => if represents_game pid then Some (pid, env) else None
               end;
             all_pids_by_appid := push_pid app_id pid (all_pids_by_appid s) |}
      end
  end.

(** The representative, or the first process of some app. *)
Definition steam_subject (s : SteamScan) : option (Z * gmap string string * Z) :=
  match representative s with
  | Some (pid, env) => Some (pid, env, unwrap_or (environ_app_id env) 0)
  | None =>
      let! app_id := any_key r (all_pids_by_appid s) in
      let! first_pid := and_then (all_pids_by_appid s !! app_id) head in
      Some (first_pid, unwrap_or (read_environ first_pid) ∅, app_id)
  end.

Definition scan_for_steam_game : option Target :=
  let! pids := proc_pids in
  let s := foldl steam_step {| representative := None; all_pids_by_appid := ∅ |} pids in
  if bool_decide (all_pids_by_appid s = ∅) then None
  else
    let! (pid, env, app_id) := steam_subject s in
    let name := unwrap_or (game_name_from_appid app_id) ("App " +:+ show app_id) in
    let all_pids := unwrap_or (all_pids_by_appid s !! app_id) [pid] in
    Some (enrich pid env (from_steam name app_id pid all_pids)).

(** A target of another launcher. *)
Definition launched (source : TargetSource) (display_name launcher : string) (pid : Z) (all_pids : list Z)
    (graphics_api proton_version dxvk_version : option string) : Target :=
  {| t_source := source; t_display_name := display_name; t_pid := pid; t_all_pids := all_pids;
     t_steam_app_id := None; t_launcher := Some launcher; t_graphics_api := graphics_api;
     t_proton_version := proton_version; t_dxvk_version := dxvk_version |}.

(** ** Lutris *)

Definition title_word (w : string) : string :=
  match chars w with
  | [] => EmptyString
  | f :: c => uc_char_uppercase f +:+ concat_str c
  end.

(** The slice of the stem before its time stamp; a stem that is all time stamp
    is cut at a negative length, which panics. *)
Definition lutris_slug (stem : string) : result string string :=
  match last (split_char "-" stem) with
  | Some stamp =>
      if (10 <=? slen stamp) && all_bytes is_ascii_digit stamp then
        if slen stem - slen stamp - 1 <? 0 then Err "byte index out of range"
        else Ok (take_bytes (String.length stem - String.length stamp - 1) stem)
      else Ok stem
  | None => Ok stem
  end.
Definition lutris_slug_to_title (stem : string) : result string string :=
  map_ok (λ slug, join " " (title_word <$> split_char "-" slug)) (lutris_slug stem).

(** [Path::file_stem] and [Path::extension] of a file name. *)
Definition split_extension (name : string) : string * option string :=
  match rsplit_once "." name with
  | Some (EmptyString, _) | None => (name, None)
  | Some (stem, extension) => (stem, Some extension)
  end.

Definition lutris_config (games_dir name : string) : result (option (string * LutrisGameConfig)) string :=
  let (stem, extension) := split_extension name in
  if bool_decide (extension = Some "yml") then
    let? display_name := lutris_slug_to_title (if is_utf8 stem then stem else EmptyString) in
    Ok (pair display_name <$> and_then (read_text (join_path games_dir name)) (lutris_from_str r))
  else Ok None.
Fixpoint lutris_configs (games_dir : string) (names : list string)
  : result (list (string * LutrisGameConfig)) string :=
  match names with
  | [] => Ok []
  | name :: rest =>
      let? config := lutris_config games_dir name in
      let? configs := lutris_configs games_dir rest in
      Ok (match config with Some c => c :: configs | None => configs end)
  end.

Definition exe_map (pids : list Z) : gmap Path (list Z) :=
  group_pids (λ pid, path_from <$> read_link m (proc_path pid "exe")) pids.

Definition has_prefix (prefix : string) (pid : Z) : bool :=
  match read_environ pid with
  | Some env => bool_decide (env !! "WINEPREFIX" = Some prefix)
  | None => false
  end.

(** The processes of a configuration: by executable, else by prefix. *)
Definition lutris_pids (pids : list Z) (config : LutrisGameConfig) : list Z :=
  let by_exe :=
    unwrap_or (and_then (and_then (lutris_exe config) (canonicalize m)) (λ exe, exe_map pids !! path_from exe)) [] in
  match by_exe, lutris_prefix config with
  | [], Some prefix => List.filter (has_prefix prefix) pids
  | _, _ => by_exe
  end.

Definition lutris_target (pids : list Z) (config : string * LutrisGameConfig) : option Target :=
  match lutris_pids pids (snd config) with
  | [] => None
  | (pid :: _) as matched =>
      let launcher := if lutris_is_wine (snd config) then "Lutris — Wine" else "Lutris — Native" in
      Some (enrich pid (unwrap_or (read_environ pid) ∅) (launched Lutris (fst config) launcher pid matched))
  end.

Definition scan_for_lutris_game : result (option Target) string :=
  match var m "HOME" with
  | None => Ok None
  | Some home =>
      let games_dir := join_path home ".local/share/lutris/games" in
      match list_dir m games_dir with
      | None => Ok None
      | Some names =>
          let? configs := lutris_configs games_dir names in
          match configs, proc_pids with
          | [], _ | _, None => Ok None
          | _, Some pids => Ok (head (filter_map (lutris_target pids) configs))
          end
      end
  end.

(** ** Heroic *)

Definition HEROIC_CANDIDATES : list (string * HeroicStore) :=
  [(".config/heroic/legendaryConfig/legendary/installed.json", Epic);
   (".var/app/com.heroicgameslauncher.hgl/config/heroic/legendaryConfig/legendary/installed.json", Epic);
   (".config/heroic/gog_store/installed.json", Gog);
   (".var/app/com.heroicgameslauncher.hgl/config/heroic/gog_store/installed.json", Gog)].

Definition is_dlc (val : json) : bool := unwrap_or (and_then (json_get "is_dlc" val) as_bool) false.

(** An entry of the object form, of the array form. *)
Definition heroic_member (kv : string * json) : option (string * string) :=
  let (key, val) := kv in
  let app_name := unwrap_or (and_then (json_get "app_name" val) as_str) key in
  let! title := and_then (json_get "title" val) as_str in
  if is_dlc val then None else Some (app_name, title).
Definition heroic_element (val : json) : option (string * string) :=
  let named := match json_get "appName" val with Some v => Some v | None => json_get "app_name" val end in
  let! app_name := and_then named as_str in
  let! title := and_then (json_get "title" val) as_str in
  if is_dlc val then None else Some (app_name, title).

Definition heroic_entries (v : json) : list (string * string) :=
  match v with
  | JObject members => filter_map heroic_member members
  | JArray elements => filter_map heroic_element elements
  | _ => []
  end.

Definition heroic_file (home rel : string) : list (string * string) :=
  let p := join_path home rel in
  if path_exists m p then
    match read_text p with
    | Some content =>
        if is_empty (trim content) then []
        else match json_from_str r content with Some v => heroic_entries v | None => [] end
    | None => []
    end
  else [].

(** [seen.insert(..)] and the push, in order. *)
Fixpoint dedup_apps (seen : gset string) (games : list (string * string * HeroicStore))
  : list (string * string * HeroicStore) :=
  match games with
  | [] => []
  | (app_name, title, store) :: rest =>
      if bool_decide (app_name ∈ seen) then dedup_apps seen rest
      else (app_name, title, store) :: dedup_apps ({[app_name]} ∪ seen) rest
  end.

Definition heroic_installed_games : list (string * string * HeroicStore) :=
  match var m "HOME" with
  | None => []
  | Some home =>
      dedup_apps ∅ (concat ((λ c, (λ g, (g, snd c)) <$> heroic_file home (fst c)) <$> HEROIC_CANDIDATES))
  end.

Definition heroic_pids (pids : list Z) : gmap string (list Z) :=
  group_pids (λ pid, and_then (read_environ pid) (λ env, and_then (env !! "SteamGameId") (strip_prefix "heroic-")))
    pids.

(** The first process in order of number, with all of them. *)
Definition first_sorted (pids : list Z) : option (Z * list Z) :=
  match merge_sort Z.le pids with
  | [] => None
  | (pid :: _) as sorted => Some (pid, sorted)
  end.

Definition heroic_target (pids_of : gmap string (list Z)) (game : string * string * HeroicStore) : option Target :=
  let '(app_name, title, store) := game in
  let! pids := pids_of !! app_name in
  let! (pid, all_pids) := first_sorted pids in
  let launcher := match store with Epic => "Heroic — Epic" | Gog => "Heroic — GOG" end in
  Some (enrich pid (unwrap_or (read_environ pid) ∅) (launched Heroic title launcher pid all_pids)).

Definition scan_for_heroic_game : option Target :=
  match heroic_installed_games with
  | [] => None
  | installed =>
      let! pids := proc_pids in
      head (filter_map (heroic_target (heroic_pids pids)) installed)
  end.

(** ** Bottles *)

Definition bottle_roots (home : string) : list string :=
  List.filter (path_exists m)
    [home +:+ "/.local/share/bottles/bottles"; home +:+ "/.var/app/com.usebottles.bottles/data/bottles/bottles"].

Definition bottle_at (root name : string) : option (string * BottleConfig) :=
  let bottle_dir := join_path root name in
  let yml_path := join_path bottle_dir "bottle.yml" in
  if path_is_dir m bottle_dir && path_exists m yml_path then
    pair bottle_dir <$> and_then (read_text yml_path) (bottle_from_str r)
  else None.
Definition bottles_in (root : string) : list (string * BottleConfig) :=
  match list_dir m root with Some names => filter_map (bottle_at root) names | None => [] end.

Definition prefix_pids (pids : list Z) : gmap Path (list Z) :=
  group_pids (λ pid, path_from <$> and_then (read_environ pid) (λ env, env !! "WINEPREFIX")) pids.

Definition runs (exe_base : string) (program : string * BottleProgram) : bool :=
  is_active (snd program)
  && match bp_executable (snd program) with
     | Some e => String.eqb (uc_to_lowercase e) exe_base
     | None => false
     end.

Definition exe_base_name (pid : Z) : option string :=
  let! exe := read_link m (proc_path pid "exe") in
  (λ n, uc_to_lowercase (from_utf8_lossy n)) <$> path_file_name (path_from exe).

Definition bottle_display_name (pid : Z) (config : BottleConfig) : string :=
  unwrap_or
    (let! exe_base := exe_base_name pid in
     (λ p, unwrap_or (bp_name (snd p)) (fst p)) <$> List.find (runs exe_base) (bottle_programs config))
    (bottle_name config).

Definition bottle_target (pids_of : gmap Path (list Z)) (bottle : string * BottleConfig) : option Target :=
  let! pids := pids_of !! path_from (fst bottle) in
  let! (pid, all_pids) := first_sorted pids in
  Some (enrich pid (unwrap_or (read_environ pid) ∅)
          (launched Bottles (bottle_display_name pid (snd bottle)) "Bottles" pid all_pids)).

Definition scan_for_bottles_game : option Target :=
  let! home := var m "HOME" in
  match concat (bottles_in <$> bottle_roots home) with
  | [] => None
  | bottles =>
      let! pids := proc_pids in
      head (filter_map (bottle_target (prefix_pids pids)) bottles)
  end.

(** ** The chain *)

(** [Option::or_else]. *)
Definition or_else {A : Type} (a b : option A) : option A := match a with Some _ => a | None => b end.

Definition scan_for_game : result (option Target) string :=
  match scan_for_steam_game with
  | Some t => Ok (Some t)
  | None =>
      let? lutris := scan_for_lutris_game in
      Ok (or_else lutris (or_else scan_for_heroic_game scan_for_bottles_game))
  end.

(** ** A target named by the user *)

(** What [sysinfo] knows of a process, by its number; the table in the order it
    is walked. *)
Record SysProcess := { sp_name : string; sp_exe : option string }.
Abbreviation ProcessTable := (list (Z * SysProcess)).
Definition process_at (system : ProcessTable) (pid : Z) : option SysProcess :=
  snd <$> List.find (λ p, fst p =? pid) system.

Definition sys_file_name (p : SysProcess) : option string :=
  and_then (sp_exe p) (λ exe, from_utf8_lossy <$> path_file_name (path_from exe)).
Definition process_matches_name (p : SysProcess) (wanted : string) : bool :=
  String.eqb (uc_to_lowercase (from_utf8_lossy (sp_name p))) wanted
  || match sys_file_name p with Some n => String.eqb (uc_to_lowercase n) wanted | None => false end.
Definition process_display_name (p : SysProcess) (pid : Z) : string :=
  let name := trim (from_utf8_lossy (sp_name p)) in
  if negb (is_empty name) then name
  else match sys_file_name p with
       | Some s => if is_empty s then "pid-" +:+ show pid else s
       | None => "pid-" +:+ show pid
       end.

Definition resolve_user_target (system : ProcessTable) (pid_override : option Z) (name_override : option string)
  : option Target :=
  let! pid :=
    match pid_override, name_override with
    | Some p, _ => match process_at system p with Some _ => Some p | None => None end
    | None, Some name =>
        fst <$> List.find (λ p, process_matches_name (snd p) (uc_to_lowercase name)) system
    | None, None => None
    end in
  let! process := process_at system pid in
  Some (enrich pid (unwrap_or (read_environ pid) ∅)
          (launched UserSpecified (process_display_name process pid) "User-specified" pid [pid])).
End scan.

(** ** Lemmas *)

Lemma head_filter_map {A B : Type} (f : A → option B) (l : list A) (b : B) :
  head (filter_map f l) = Some b → ∃ a, a ∈ l ∧ f a = Some b.
Proof.
  induction l as [|a l IH]; simpl; [done|]. destruct (f a) eqn:E; simpl.
  - intros [= <-]. exists a. split; [by left|done].
  - intros (a' & Hin & Ha)%IH. exists a'. split; [by right|done].
Qed.

Section grouping.
Context {K : Type} `{Countable K} (key : Z → option K).

(** The processes with a key, in order. *)
Definition keyed (k : K) (pids : list Z) : list Z := List.filter (λ pid, bool_decide (key pid = Some k)) pids.

Lemma group_pids_snoc pids pid :
  group_pids key (pids ++ [pid])
  = match key pid with Some k => push_pid k pid (group_pids key pids) | None => group_pids key pids end.
Proof. unfold group_pids. by rewrite foldl_app. Qed.

Lemma group_pids_lookup pids k :
  group_pids key pids !! k = match keyed k pids with [] => None | l => Some l end.
Proof.
  induction pids as [|pid pids IH] using rev_ind; [done|].
  rewrite group_pids_snoc. unfold keyed in *. rewrite List.filter_app. simpl.
  destruct (key pid) as [k'|] eqn:E; simpl.
  - unfold push_pid. destruct (decide (k' = k)) as [->|Hne].
    + rewrite bool_decide_true by done. rewrite lookup_insert_eq, IH. by destruct (List.filter _ _).
    + rewrite bool_decide_false by congruence. rewrite lookup_insert_ne, IH by done. by rewrite app_nil_r.
  - rewrite IH. by rewrite app_nil_r.
Qed.

Lemma group_pids_Some pids k l : group_pids key pids !! k = Some l → l = keyed k pids ∧ l ≠ [].
Proof. rewrite group_pids_lookup. by destruct (keyed k pids) as [|p l'] eqn:E; [|intros [= <-]]. Qed.

Lemma keyed_elem k pids pid : pid ∈ keyed k pids ↔ pid ∈ pids ∧ key pid = Some k.
Proof.
  unfold keyed. rewrite !list_elem_of_In, List.filter_In, bool_decide_eq_true. done.
Qed.

Lemma group_pids_empty pids : group_pids key pids = ∅ ↔ ∀ pid, pid ∈ pids → key pid = None.
Proof.
  split.
  - intros Hm pid Hin. destruct (key pid) as [k|] eqn:E; [|done].
    pose proof (group_pids_lookup pids k) as Hk. rewrite Hm, lookup_empty in Hk.
    assert (Hp : pid ∈ keyed k pids) by by apply keyed_elem. destruct (keyed k pids); [by apply elem_of_nil in Hp|done].
  - intros Hno. apply map_eq. intros k. rewrite group_pids_lookup, lookup_empty.
    destruct (keyed k pids) as [|p l] eqn:E; [done|].
    assert (Hp : p ∈ keyed k pids) by (rewrite E; by left). apply keyed_elem in Hp as [Hin Hk].
    by rewrite (Hno p Hin) in Hk.
Qed.
End grouping.

Lemma first_sorted_Some pids pid l :
  first_sorted pids = Some (pid, l) → pid ∈ l ∧ l ≡ₚ pids ∧ ∀ p, p ∈ l → pid ≤ p.
Proof.
  unfold first_sorted. pose proof (merge_sort_Permutation Z.le pids) as Hp.
  pose proof (StronglySorted_merge_sort Z.le pids) as Hs.
  destruct (merge_sort Z.le pids) as [|p q]; [done|]. intros [= <- <-].
  split_and!; [by left|done|]. intros x [->|Hx]%elem_of_cons; [done|].
  apply StronglySorted_inv in Hs as [_ Hs]. by eapply Forall_forall in Hs.
Qed.

Section steam.
Context `{Unicode} (r : Readers) (m : Machine).

(** The app id of a process. *)
Definition pid_app (pid : Z) : option Z := and_then (read_environ m pid) steam_app_id_of.
Definition may_represent (pid : Z) : bool :=
  match pid_app pid with Some _ => represents_game m pid | None => false end.

Definition steam_init : SteamScan := {| representative := None; all_pids_by_appid := ∅ |}.
Definition subject_of (pid : Z) : Z * gmap string string := (pid, unwrap_or (read_environ m pid) ∅).

Lemma steam_scan_fold pids :
  foldl (steam_step m) steam_init pids
  = {| representative := subject_of <$> List.find may_represent pids;
       all_pids_by_appid := group_pids pid_app pids |}.
Proof.
  induction pids as [|pid pids IH] using rev_ind; [done|].
  rewrite foldl_app, IH, group_pids_snoc. clear IH. simpl.
  assert (Hfind : ∀ l, List.find may_represent (l ++ [pid])
    = match List.find may_represent l with Some p => Some p | None => if may_represent pid then Some pid else None end).
  { induction l as [|q l IHl]; simpl; [done|]. by destruct (may_represent q). }
  rewrite Hfind. unfold steam_step, subject_of. simpl.
  assert (Hp : pid_app pid = and_then (read_environ m pid) steam_app_id_of) by done.
  assert (Hr : may_represent pid = if is_some_and (pid_app pid) (λ _, true) then represents_game m pid else false)
    by (unfold may_represent; by destruct (pid_app pid)).
  rewrite Hr, Hp. destruct (read_environ m pid) as [env|] eqn:Ee; simpl.
  - destruct (steam_app_id_of env) as [id|]; [|by destruct (List.find may_represent pids)].
    destruct (List.find may_represent pids); [done|]. destruct (represents_game m pid); simpl; by rewrite ?Ee.
  - by destruct (List.find may_represent pids).
Qed.

Lemma pid_app_env pid id :
  pid_app pid = Some id →
  ∃ env, read_environ m pid = Some env ∧ environ_app_id env = Some id ∧ id ≠ 0.
Proof.
  unfold pid_app, and_then, steam_app_id_of. destruct (read_environ m pid) as [env|]; [|done].
  destruct (environ_app_id env) as [id'|] eqn:E; [|done]. destruct (Z.eqb_spec id' 0) as [->|Hne]; [done|].
  intros [= <-]. by exists env.
Qed.

Lemma steam_subject_exact pids :
  fair_keys r → group_pids pid_app pids ≠ ∅ →
  ∃ pid env id,
    steam_subject r m (foldl (steam_step m) steam_init pids) = Some (pid, env, id)
    ∧ pid_app pid = Some id ∧ pid ∈ pids
    ∧ match List.find may_represent pids with
      | Some p => pid = p
      | None => head (keyed pid_app id pids) = Some pid
      end.
Proof.
  intros Hfair Hne. rewrite steam_scan_fold. unfold steam_subject. simpl.
  destruct (List.find may_represent pids) as [p|] eqn:Ef; simpl.
  - apply List.find_some in Ef as [Hin%list_elem_of_In Hrep]. unfold may_represent in Hrep.
    destruct (pid_app p) as [id|] eqn:Ei; [|done].
    destruct (pid_app_env p id Ei) as (env & He & Hid & _).
    exists p, env, id. rewrite He. simpl. by rewrite Hid.
  - specialize (Hfair (group_pids pid_app pids)).
    destruct (any_key r (group_pids pid_app pids)) as [id|]; [|done]. destruct Hfair as [l Hl]. rewrite Hl.
    apply group_pids_Some in Hl as [-> Hl]. destruct (keyed pid_app id pids) as [|pid rest] eqn:Ek; [done|].
    assert (Hp : pid ∈ keyed pid_app id pids) by (rewrite Ek; by left).
    apply keyed_elem in Hp as [Hin Hid]. eexists _, _, _. split_and!; [done..|by rewrite Ek].
Qed.
End steam.

(** ** What every target satisfies *)

(** The runtime invariants of [Target] that the scanners establish. *)
Definition launcher_mirrors (t : Target) : Prop :=
  match t_source t with
  | Steam => t_launcher t = Some "Steam"
  | Lutris => t_launcher t = Some "Lutris — Wine" ∨ t_launcher t = Some "Lutris — Native"
  | Heroic => t_launcher t = Some "Heroic — Epic" ∨ t_launcher t = Some "Heroic — GOG"
  | Bottles => t_launcher t = Some "Bottles"
  | _ => False
  end.
Record target_ok (pids : list Z) (t : Target) : Prop := {
  ok_app_id : t_source t = Steam ↔ is_Some (t_steam_app_id t);
  ok_launcher : launcher_mirrors t;
  ok_pid : t_pid t ∈ t_all_pids t;
  ok_pids : ∀ p, p ∈ t_all_pids t → p ∈ pids;
}.

Lemma launched_ok source name launcher pid all_pids pids g p d :
  source ≠ Steam → launcher_mirrors (launched source name launcher pid all_pids g p d) →
  pid ∈ all_pids → (∀ q, q ∈ all_pids → q ∈ pids) →
  target_ok pids (launched source name launcher pid all_pids g p d).
Proof. intros Hs Hl Hp Hq. split; [|done..]. split; [done|]. by intros [? ?]. Qed.

Section targets.
Context `{Unicode} (r : Readers) (m : Machine) (pids : list Z).

Lemma group_pids_elem {K : Type} `{Countable K} (key : Z → option K) k l :
  group_pids key pids !! k = Some l → ∀ p, p ∈ l → p ∈ pids.
Proof. intros [-> _]%group_pids_Some p Hp. by apply keyed_elem in Hp as [? _]. Qed.

Lemma lutris_target_ok config t : lutris_target m pids config = Some t → target_ok pids t.
Proof.
  unfold lutris_target, lutris_pids.
  destruct (unwrap_or _ []) as [|pid rest] eqn:E.
  - destruct (lutris_prefix (snd config)) as [prefix|]; [|done].
    destruct (List.filter (has_prefix m prefix) pids) as [|pid rest] eqn:Ef; [done|]. intros [= <-].
    apply launched_ok; [done|by simpl; destruct (lutris_is_wine (snd config)); [left|right]|by left|].
    intros q Hq. rewrite <-Ef in Hq. by apply list_elem_of_In, List.filter_In in Hq as [?%list_elem_of_In _].
  - intros [= <-].
    apply launched_ok; [done|by simpl; destruct (lutris_is_wine (snd config)); [left|right]|by left|].
    unfold and_then in E. destruct (lutris_exe (snd config)); [|done]. destruct (canonicalize m _) as [exe|]; [|done].
    destruct (exe_map m pids !! path_from exe) as [l|] eqn:El; [|done]. simpl in E. subst l.
    by eapply group_pids_elem.
Qed.

Lemma sorted_group_ok {K : Type} `{Countable K} (key : Z → option K) k l pid l' :
  group_pids key pids !! k = Some l → first_sorted l = Some (pid, l') → pid ∈ l' ∧ ∀ q, q ∈ l' → q ∈ pids.
Proof.
  intros Hl (Hin & Hp & _)%first_sorted_Some. split; [done|]. intros q Hq. rewrite Hp in Hq.
  by eapply group_pids_elem.
Qed.

Lemma heroic_target_ok game t : heroic_target m (heroic_pids m pids) game = Some t → target_ok pids t.
Proof.
  destruct game as [[app title] store]. unfold heroic_target.
  destruct (heroic_pids m pids !! app) as [l|] eqn:El; [|done]. simpl.
  destruct (first_sorted l) as [[pid l']|] eqn:Es; [|done]. intros [= <-].
  destruct (sorted_group_ok _ _ _ _ _ El Es) as [Hp Hq].
  apply launched_ok; [done| |done|done]. destruct store; [by left|by right].
Qed.

Lemma bottle_target_ok bottle t : bottle_target m (prefix_pids m pids) bottle = Some t → target_ok pids t.
Proof.
  unfold bottle_target. destruct (prefix_pids m pids !! _) as [l|] eqn:El; [|done]. simpl.
  destruct (first_sorted l) as [[pid l']|] eqn:Es; [|done]. intros [= <-].
  destruct (sorted_group_ok _ _ _ _ _ El Es) as [Hp Hq]. by apply launched_ok.
Qed.

(** The chain after Steam. *)
Lemma chain_ok lutris t :
  proc_pids m = Some pids → scan_for_lutris_game r m = Ok lutris →
  or_else lutris (or_else (scan_for_heroic_game r m) (scan_for_bottles_game r m)) = Some t →
  target_ok pids t ∧ t_source t ≠ Steam.
Proof.
  intros Hproc Hl Hchain.
  assert (Hlut : lutris = Some t → target_ok pids t ∧ t_source t ≠ Steam).
  { intros ->. unfold scan_for_lutris_game in Hl. destruct (var m "HOME"); [|done].
    destruct (list_dir m _); [|done]. destruct (lutris_configs r m _ _) as [[|c configs]|]; [done| |done].
    rewrite Hproc in Hl.
    assert (Hh : head (filter_map (lutris_target m pids) (c :: configs)) = Some t) by by injection Hl.
    apply head_filter_map in Hh as (config & _ & Ht). split; [by eapply lutris_target_ok|].
    unfold lutris_target in Ht. by destruct (lutris_pids m pids (snd config)); [|injection Ht as <-]. }
  assert (Hher : scan_for_heroic_game r m = Some t → target_ok pids t ∧ t_source t ≠ Steam).
  { unfold scan_for_heroic_game. destruct (heroic_installed_games r m); [done|]. rewrite Hproc.
    intros (game & _ & Ht)%head_filter_map. split; [by eapply heroic_target_ok|].
    destruct game as [[app title] store]. unfold heroic_target in Ht.
    destruct (heroic_pids m pids !! app) as [grp|]; [|done]. simpl in Ht.
    by destruct (first_sorted grp) as [[? ?]|]; [injection Ht as <-|]. }
  destruct lutris; [by apply Hlut|]. destruct (scan_for_heroic_game r m); [by apply Hher|].
  unfold or_else, scan_for_bottles_game in Hchain. destruct (var m "HOME"); [|done]. simpl in Hchain.
  destruct (concat _) as [|p l]; [done|]. rewrite Hproc in Hchain.
  apply (head_filter_map (bottle_target m (prefix_pids m pids)) (p :: l)) in Hchain as (bottle & _ & Ht).
  split; [by eapply bottle_target_ok|]. unfold bottle_target in Ht.
  destruct (prefix_pids m pids !! _) as [grp|]; [|done]. simpl in Ht.
  by destruct (first_sorted grp) as [[? ?]|]; [injection Ht as <-|].
Qed.
End targets.

(** ** Theorems *)

(** The Steam scan: a target is found if and only if some process
    carries a non-zero app id; its processes are exactly, and in order, those
    with its app id, and the process its metadata comes from is the first one
    that is neither a helper nor a shell, if there is one. *)
Theorem steam_scan_exact `{Unicode} (r : Readers) (m : Machine) (pids : list Z)
    (Hfair : fair_keys r) (Hproc : proc_pids m = Some pids) :
  match scan_for_steam_game r m with
  | None => ∀ pid, pid ∈ pids → pid_app m pid = None
  | Some t =>
      ∃ id,
        t_source t = Steam ∧ t_launcher t = Some "Steam" ∧ t_steam_app_id t = Some id ∧ id ≠ 0
        ∧ t_all_pids t = keyed (pid_app m) id pids ∧ t_pid t ∈ t_all_pids t
        ∧ match List.find (may_represent m) pids with
          | Some p => t_pid t = p
          | None => head (t_all_pids t) = Some (t_pid t)
          end
  end.
Proof.
  unfold scan_for_steam_game. rewrite Hproc. fold steam_init.
  pose proof (steam_scan_fold m pids) as Hs. pose proof (steam_subject_exact r m pids Hfair) as Hx.
  rewrite Hs in Hx |- *. simpl in Hx |- *. case_bool_decide as Hempty.
  - by apply group_pids_empty.
  - destruct (Hx Hempty) as (pid & env & id & -> & Hid & Hin & Hrep).
    destruct (pid_app_env m pid id Hid) as (_ & _ & _ & Hnz).
    assert (Hk : pid ∈ keyed (pid_app m) id pids) by by apply keyed_elem.
    rewrite group_pids_lookup. exists id. simpl.
    destruct (keyed (pid_app m) id pids) as [|p l]; [by apply elem_of_nil in Hk|].
    by split_and!.
Qed.

Lemma steam_scan_found `{Unicode} (r : Readers) (m : Machine) (pids : list Z) :
  fair_keys r → proc_pids m = Some pids →
  match scan_for_steam_game r m with
  | None => ∀ pid, pid ∈ pids → pid_app m pid = None
  | Some t =>
      ∃ id, t_source t = Steam ∧ t_launcher t = Some "Steam" ∧ t_steam_app_id t = Some id
        ∧ t_all_pids t = keyed (pid_app m) id pids ∧ t_pid t ∈ t_all_pids t
  end.
Proof.
  intros Hfair Hproc. unfold scan_for_steam_game. rewrite Hproc. fold steam_init.
  pose proof (steam_subject_exact r m pids Hfair) as Hx. rewrite (steam_scan_fold m pids) in Hx |- *.
  simpl in Hx |- *. case_bool_decide as Hempty; [by apply group_pids_empty|].
  destruct (Hx Hempty) as (pid & env & id & -> & Hid & Hin & _).
  assert (Hk : pid ∈ keyed (pid_app m) id pids) by by apply keyed_elem.
  rewrite group_pids_lookup. exists id. destruct (keyed (pid_app m) id pids) as [|p l]; [by apply elem_of_nil in Hk|]. by split_and!.
Qed.


(** A stem that is only a time stamp makes the Lutris scan panic; a stem
    without a name before its time stamp gives a target without a name. *)
Lemma lutris_stamp_panics : lutris_slug "1683316261" = Err "byte index out of range".
Proof. reflexivity. Qed.
Lemma lutris_empty_title : @lutris_slug_to_title ascii_unicode "-1683316261" = Ok EmptyString.
Proof. reflexivity. Qed.

(** ** Examples *)

Example vdf_unescaped :
  parse_vdf_paths (dq +:+ "path" +:+ dq +:+ "  " +:+ dq +:+ "D:\\SteamLibrary" +:+ dq) = ["D:\SteamLibrary"].
Proof. reflexivity. Qed.
Example lutris_title : @lutris_slug_to_title ascii_unicode "cyberpunk-2077-1683316261" = Ok "Cyberpunk 2077".
Proof. reflexivity. Qed.
Example dxvk_version : dxvk_scan false EmptyString (chars "info:  DXVK: v2.3.1") = Some "2.3.1".
Proof. reflexivity. Qed.

(** A machine with a shell, a helper and a game of app 570, and a process of
    another app. *)
Definition nul : string := str1 "000"%char.
Definition demo_machine : Machine := {|
  read_bytes p :=
    if String.eqb p "/proc/12/environ" then Some ("SteamAppId=570" +:+ nul +:+ "HOME=/h")
    else if String.eqb p "/proc/11/environ" then Some "SteamAppId=570"
    else if String.eqb p "/proc/13/environ" then Some "STEAM_APP_ID= 570 "
    else if String.eqb p "/proc/9/environ" then Some "SteamAppId=0"
    else if String.eqb p "/home/p/.steam/steam/steamapps/appmanifest_570.acf" then
      Some (dq +:+ "name" +:+ dq +:+ " " +:+ dq +:+ "Dota 2" +:+ dq)
    else None;
  read_link p :=
    if String.eqb p "/proc/11/exe" then Some "/usr/bin/bash"
    else if String.eqb p "/proc/12/exe" then Some "/games/dota/dota2"
    else if String.eqb p "/proc/13/exe" then Some "/games/Proton/wineserver" else None;
  list_dir p := if String.eqb p "/proc" then Some ["self"; "9"; "11"; "12"; "13"] else None;
  path_exists p := false;
  path_is_dir p := false;
  canonicalize p := None;
  var v := if String.eqb v "HOME" then Some "/home/p" else None;
|}.
Definition demo_readers : Readers := {|
  json_from_str _ := None; lutris_from_str _ := None; bottle_from_str _ := None;
  any_key g := fst <$> head (map_to_list g) |}.

Lemma demo_fair : fair_keys demo_readers.
Proof.
  intros g. simpl. destruct (map_to_list g) as [|[k l] rest] eqn:E; simpl.
  - by apply map_to_list_empty_iff.
  - exists l. apply elem_of_map_to_list. rewrite E. by left.
Qed.

Definition demo_target : Target := {|
  t_source := Steam; t_display_name := "Dota 2"; t_pid := 12; t_all_pids := [11; 12; 13];
  t_steam_app_id := Some 570; t_launcher := Some "Steam"; t_graphics_api := None;
  t_proton_version := None; t_dxvk_version := None |}.

Lemma steam_scan_exact_witness :
  @scan_for_steam_game ascii_unicode demo_readers demo_machine = Some demo_target
  ∧ ∃ id, t_all_pids demo_target = keyed (pid_app demo_machine) id [9; 11; 12; 13].
Proof.
  pose proof (@steam_scan_exact ascii_unicode demo_readers demo_machine [9; 11; 12; 13] demo_fair
    ltac:(vm_compute; reflexivity)) as H.
  assert (E : @scan_for_steam_game ascii_unicode demo_readers demo_machine = Some demo_target)
    by (vm_compute; reflexivity).
  rewrite E in H. destruct H as (id & _ & _ & _ & _ & Hall & _). split; [exact E|]. exists id. exact Hall.
Defined.

