(* ===== verification/Session.v ===== *)
(** * Sessions ([src/session.rs])

    [SessionManager]: the polling state machine, the session file the eBPF
    daemon reads, the labels, and the per-game per-day counter with its file.
    Time stamps already formatted by [chrono], JSON texts and the new session's
    identifier are arguments. *)
From Stdlib Require Import Ascii.
From S2P Require Import Prelude Float64 EsModel Json FileSystem GameScan.

(** ** State *)

Inductive SessionEvent :=
| NoChange
| GameStarted (t : Target)
| GameEnded (t : Target).

(** Instants are nanoseconds. *)
Record SessionManager := {
  session_id : string;
  current_game : option Target;
  label : option string;
  label_is_manual : bool;
  label_source : string;
  sequence_number : option Z;
  settings_overlay : option json;
  session_json_path : Path;
  last_scan : option Z;
  last_no_game_log : option Z;
}.

Definition with_game (s : SessionManager) (g : option Target) : SessionManager :=
  {| session_id := session_id s; current_game := g; label := label s; label_is_manual := label_is_manual s;
     label_source := label_source s; sequence_number := sequence_number s; settings_overlay := settings_overlay s;
     session_json_path := session_json_path s; last_scan := last_scan s; last_no_game_log := last_no_game_log s |}.
Definition with_label (s : SessionManager) (l : string) (n : Z) : SessionManager :=
  {| session_id := session_id s; current_game := current_game s; label := Some l;
     label_is_manual := label_is_manual s; label_source := label_source s; sequence_number := Some n;
     settings_overlay := settings_overlay s; session_json_path := session_json_path s;
     last_scan := last_scan s; last_no_game_log := last_no_game_log s |}.
Definition with_times (s : SessionManager) (scan log : option Z) : SessionManager :=
  {| session_id := session_id s; current_game := current_game s; label := label s;
     label_is_manual := label_is_manual s; label_source := label_source s; sequence_number := sequence_number s;
     settings_overlay := settings_overlay s; session_json_path := session_json_path s;
     last_scan := scan; last_no_game_log := log |}.

(** [session_json_file_path] on Unix. *)
Definition session_json_file_path : Path := (true, ["tmp"; "rigsignal"; "session.json"]).

(** [auto_label_idle] of a formatted time. *)
Definition auto_label_idle (timestamp : string) : string := "idle-" +:+ timestamp.

Definition new_with_label_and_settings (uuid timestamp : string) (manual_label : option string)
    (settings : option json) : SessionManager :=
  let '(label, manual, source) :=
    match manual_label with
    | Some s => if is_empty s then (Some (auto_label_idle timestamp), false, "auto") else (Some s, true, "manual")
    | None => (Some (auto_label_idle timestamp), false, "auto")
    end in
  {| session_id := uuid; current_game := None; label := label; label_is_manual := manual; label_source := source;
     sequence_number := None; settings_overlay := settings; session_json_path := session_json_file_path;
     last_scan := None; last_no_game_log := None |}.

(** [auto_label_game_n] of a formatted day. *)
Definition auto_label_game_n (slug day : string) (n : Z) : string := slug +:+ "-" +:+ day +:+ "-" +:+ show n.

Section session.
Context `{Unicode}.

(** ** Labels *)

Definition slug_char (c : string) : bool := char_is is_ascii_alphanumeric c || String.eqb c "-".
Definition slug_from_game_name (name : string) : string :=
  concat_str (take 32 (List.filter slug_char
    ((λ c, if String.eqb c " " then "-" else c) <$> chars (uc_to_lowercase name)))).

(** ** Counter *)

(** What surrounds one update of the counter: the faults that hit it, today's
    date and the date thirty days ago ([%Y-%m-%d]), what the counter file points
    to when it is a link, and [serde_json]. *)
Record CounterEnv := {
  ce_faults : Faults;
  ce_today : string;
  ce_cutoff : string;
  ce_linked : string;
  ce_parse : string → option json;
  ce_pretty : json → result string string;
}.
Context (env : CounterEnv).

(** The map a text holds: the empty one when it is blank or no object. *)
Definition counters_of (contents : string) : list (string * json) :=
  if is_empty (trim contents) then []
  else match ce_parse env contents with Some (JObject counters) => counters | _ => [] end.

Definition keeps_counter (k : string) : bool :=
  String.eqb k "_last_pruned"
  || match split_char ":" k !! 1%nat with
     | Some d => negb (String.ltb d (ce_cutoff env))
     | None => true
     end.
Definition prune (counters : list (string * json)) : list (string * json) :=
  let last_pruned := unwrap_or (and_then (map_get "_last_pruned" counters) as_str) EmptyString in
  if String.eqb last_pruned (ce_today env) then counters
  else map_insert "_last_pruned" (JString (ce_today env)) (map_retain keeps_counter counters).

Definition counter_key (slug : string) : string := slug +:+ ":" +:+ ce_today env.
Definition count_at (counters : list (string * json)) (key : string) : Z :=
  unwrap_or (and_then (map_get key counters) as_u64) 0.
(** The next number, in 64 bits, and the map that records it. *)
Definition count_session (slug : string) (counters : list (string * json)) : Z * list (string * json) :=
  let counters := prune counters in
  let n := add_u64 (count_at counters (counter_key slug)) 1 in
  (n, map_insert (counter_key slug) (json_u64 n) counters).

(** The text of the file opened at [p]. *)
Definition content_at (fs : FS) (p : Path) : string :=
  match fs !! p with
  | Some (File c) => c
  | Some (Symlink _) => ce_linked env
  | _ => EmptyString
  end.

Definition tmp_path (dir p : Path) : Path :=
  path_join dir (unwrap_or (path_file_name p) EmptyString +:+ ".tmp").

(** From the lock on: read, prune, count, write aside and rename. *)
Definition update_counter (slug : string) (dir p : Path) : IO Z :=
  let f := ce_faults env in
  let* contents := catch (call (λ fs,
    let c := content_at fs p in
    (fs, if negb (fails f (At "counter-read")) && is_utf8 c then Ok c else Err (os_error f (At "counter-read"))))) in
  let counters := counters_of (match contents with Ok c => c | Err _ => EmptyString end) in
  let (n, counters) := count_session slug counters in
  let serialised := match ce_pretty env (JObject counters) with Ok s => s | Err _ => "{}" end in
  let* written := catch (fs_write f "counter-write" EmptyString (tmp_path dir p) serialised) in
  let* _ := match written with
            | Ok _ => catch (rename f (At "counter-rename") EmptyString (tmp_path dir p) p)
            | Err e => ret (Err e)
            end in
  ret (wrap 32 n).

Definition increment_counter_at (slug : string) (p : Path) : IO Z :=
  let f := ce_faults env in
  match parent p with
  | None => ret 1
  | Some dir =>
      let* there := call (λ fs, (fs, Ok (exists_at fs dir))) in
      let* made :=
        if there : bool then ret (Ok tt)
        else
          let* made := catch (create_dir_all f EmptyString dir) in
          match made with
          | Ok _ => let* _ := catch (set_permissions f ChmodDir EmptyString dir) in ret (Ok tt)
          | Err e => ret (Err e)
          end in
      match made with
      | Err _ => ret 1
      | Ok _ =>
          let* opened := catch (open_or_create f OpenLock EmptyString p) in
          match opened with
          | Err _ => ret 1
          | Ok _ =>
              let* locked := catch (attempt f (At "counter-lock") EmptyString (λ _, true) id tt) in
              match locked with
              | Err _ => ret 1
              | Ok _ => update_counter slug dir p
              end
          end
      end
  end.
End session.

(** [counter_file_path] on Unix: [$XDG_STATE_HOME], else the home directory,
    else [/var/lib/rigsignal]. *)
Definition counter_file_path (m : Machine) : Path :=
  let state_dir :=
    match var m "XDG_STATE_HOME" with
    | Some dir => dir
    | None => match home_dir m with Some home => join_path home ".local/state" | None => "/var/lib/rigsignal" end
    end in
  path_from (join_path state_dir "rigsignal/session-counters.json").

(** ** The session file *)

Section poll.
Context `{Unicode} (to_string : json → result string string).

Definition session_doc (s : SessionManager) (t : Target) : json :=
  object ([("session_id", JString (session_id s)); ("game_pid", json_u64 (t_pid t));
           ("game_name", JString (t_display_name t)); ("game_pids", JArray (json_u64 <$> t_all_pids t));
           ("target_source", JString (target_source_str (t_source t)))]
          ++ when_some "steam_app_id" json_u64 (t_steam_app_id t)).

(** [write_session_json]; [parent().unwrap()] panics on a path without one. *)
Definition write_session_json (f : Faults) (s : SessionManager) (t : Target) : IO unit :=
  match parent (session_json_path s) with
  | None => of_result (Err "called `Option::unwrap()` on a `None` value")
  | Some dir =>
      let* _ := create_dir_all f EmptyString dir in
      let* _ := catch (set_permissions f ChmodDir EmptyString dir) in
      let* text := of_result (to_string (session_doc s t)) in
      fs_write f "session-write" EmptyString (session_json_path s) text
  end.

(** [remove_session_json]: every result is only logged. *)
Definition remove_session_json (f : Faults) (s : SessionManager) : IO unit :=
  let* _ := catch (remove_file f (At "session-remove") (session_json_path s)) in
  ret tt.

(** ** Polling *)

(** What one poll sees: the clock, the scan, the counter's surroundings and
    file, the day of the label. *)
Record PollEnv := {
  pe_now : Z;
  pe_detected : option Target;
  pe_counter : CounterEnv;
  pe_counter_file : Path;
  pe_day : string;
}.
Definition pe_faults (e : PollEnv) : Faults := ce_faults (pe_counter e).

Definition FIVE_SECONDS : Z := 5000000000.
Definition THIRTY_SECONDS : Z := 30000000000.

(** [duration_since]: zero when the clock is behind. *)
Definition elapsed (now since : Z) : Z := Z.max 0 (now - since).

(** The scan is due: five seconds after the last one. *)
Definition scan_due (now : Z) (last : option Z) : bool :=
  match last with Some last => negb (elapsed now last <? FIVE_SECONDS) | None => true end.
Definition log_due (now : Z) (last : option Z) : bool :=
  match last with Some t => THIRTY_SECONDS <=? elapsed now t | None => true end.

(** A new game gets its label and number, unless the user chose the label. *)
Definition relabel (e : PollEnv) (s : SessionManager) (t : Target) : IO SessionManager :=
  if label_is_manual s then ret s
  else
    let slug := slug_from_game_name (t_display_name t) in
    let* n := increment_counter_at (pe_counter e) slug (pe_counter_file e) in
    ret (with_label s (auto_label_game_n slug (pe_day e) n) n).

Definition same_target (old new : Target) : bool :=
  (t_pid old =? t_pid new) && bool_decide (t_steam_app_id old = t_steam_app_id new).

Definition poll (e : PollEnv) (s : SessionManager) : IO (SessionManager * SessionEvent) :=
  let now := pe_now e in
  if negb (scan_due now (last_scan s)) then ret (s, NoChange)
  else
    let s := with_times s (Some now) (last_no_game_log s) in
    match current_game s, pe_detected e with
    | None, None =>
        ret (if log_due now (last_no_game_log s) then with_times s (last_scan s) (Some now) else s, NoChange)
    | None, Some target =>
        let* s := relabel e s target in
        let* _ := catch (write_session_json (pe_faults e) s target) in
        ret (with_times (with_game s (Some target)) (last_scan s) None, GameStarted target)
    | Some old, None =>
        let* _ := remove_session_json (pe_faults e) s in
        ret (with_game s None, GameEnded old)
    | Some old, Some new_target =>
        if negb (same_target old new_target) then
          let* _ := catch (write_session_json (pe_faults e) s new_target) in
          ret (with_game s (Some new_target), GameStarted new_target)
        else ret (with_game s (Some new_target), NoChange)
    end.

(** [poll_pinned_target] ([src/main.rs]): a target pinned by the user, while its
    process is there. *)
Definition poll_pinned_target (alive : bool) (pinned : Target) (s : SessionManager)
  : SessionManager * SessionEvent :=
  match alive, current_game s with
  | true, None => (with_game s (Some pinned), GameStarted pinned)
  | false, Some old => (with_game s None, GameEnded old)
  | _, _ => (s, NoChange)
  end.

(** ** Documents *)

Context (agent_version : string).

Definition base_doc (s : SessionManager) (hostname : string) : json :=
  let session := object ([("id", JString (session_id s)); ("agent_version", JString agent_version);
                          ("opt_in_public", JBool false)]
                         ++ when_some "label" JString (label s)
                         ++ [("label_source", JString (label_source s))]
                         ++ when_some "sequence_number" json_u64 (sequence_number s)) in
  object [("host", object [("name", JString (normalize_hostname hostname))]);
          ("rigsignal", object (("session", session)
             :: when_some "game" (λ t, JObject (target_to_game_doc t)) (current_game s)))].

Definition stream_client_base_doc (s : SessionManager) (hostname : string) : json :=
  object (("host", object [("name", JString (normalize_hostname hostname))])
    :: when_some "rigsignal" (λ t,
         object [("session", object [("id", JString (session_id s)); ("label", json_opt JString (label s));
                                     ("agent_version", JString agent_version)]);
                 ("game", JObject (target_to_game_doc t))]) (current_game s)).
End poll.

(** ** The counter *)

(** Nothing fails, and the date thirty days ago is not after today's. *)
Record calm (env : CounterEnv) : Prop := {
  calm_faults site : fails (ce_faults env) site = false;
  calm_dates : String.ltb (ce_today env) (ce_cutoff env) = false;
}.

(** What the agent writes into the counter file: numbers and dates. *)
Definition plain (counters : list (string * json)) : Prop :=
  Forall (λ kv, match snd kv with JString _ | JNumber (PosInt _) => True | _ => False end) counters.
(** [serde_json] reads back the maps it has written. *)
Definition codec (env : CounterEnv) : Prop :=
  ∀ counters, plain counters → ∃ text,
    ce_pretty env (JObject counters) = Ok text ∧ is_utf8 text = true
    ∧ is_empty (trim text) = false ∧ ce_parse env text = Some (JObject counters).

(** The file at [p] holds the map. *)
Definition holds_counters (env : CounterEnv) (fs : FS) (p : Path) (counters : list (string * json)) : Prop :=
  match fs !! p with
  | Some (File c) => is_utf8 c = true ∧ counters_of env c = counters
  | None => counters = []
  | _ => False
  end.

Lemma map_insert_Forall (P : string * json → Prop) k v m :
  P (k, v) → Forall P m → Forall P (map_insert k v m).
Proof.
  intros Hv. induction m as [|m0 m IH]; intros Hm; simpl; [by constructor|].
  apply Forall_cons_1 in Hm as [H0 Hm]. destruct (String.compare k (fst m0)); repeat constructor; auto.
Qed.

Lemma retain_Forall (P : string * json → Prop) keep m : Forall P m → Forall P (map_retain keep m).
Proof.
  unfold map_retain. induction 1 as [|kv m Hkv _ IH]; simpl; [done|]. destruct (keep (fst kv)); by try constructor.
Qed.

Lemma bump_plain env slug m : plain m → plain (snd (count_session env slug m)).
Proof.
  intros Hm. unfold count_session. simpl. apply map_insert_Forall; [done|]. unfold prune. case_match; [done|].
  apply map_insert_Forall; [done|]. by apply retain_Forall.
Qed.

(** A key of today survives the pruning. *)
Lemma today_kept env slug :
  calm env → any_byte (λ c, Ascii.eqb c ":") slug = false → any_byte (λ c, Ascii.eqb c ":") (ce_today env) = false →
  keeps_counter env (counter_key env slug) = true.
Proof.
  intros Hcalm Hslug Htoday. unfold keeps_counter, counter_key.
  change (slug +:+ ":" +:+ ce_today env) with (slug +:+ String ":" (ce_today env)).
  rewrite split_char_at, split_char_whole by done. simpl. rewrite (calm_dates _ Hcalm). apply orb_true_r.
Qed.

Lemma key_not_pruned env slug :
  any_byte (λ c, Ascii.eqb c ":") slug = false → counter_key env slug ≠ "_last_pruned".
Proof.
  intros _ Heq. assert (H : any_byte (λ c, Ascii.eqb c ":") (counter_key env slug) = false) by by rewrite Heq.
  unfold counter_key in H. rewrite any_byte_app in H. simpl in H. by rewrite orb_true_r in H.
Qed.

Lemma prune_get env m key :
  key ≠ "_last_pruned" → keeps_counter env key = true → map_get key (prune env m) = map_get key m.
Proof.
  intros Hne Hk. unfold prune. case_match; [done|].
  rewrite map_get_insert_ne by done. by rewrite map_get_retain, Hk.
Qed.

Lemma fs_write_calm (f : Faults) place prefix p content fs :
  (∀ site, fails f site = false) → can_hold fs p = true → match fs !! p with None | Some (File _) => True | _ => False end →
  exec (fs_write f place prefix p content) fs = (Ok tt, <[p := File content]> fs).
Proof.
  intros Hf Hc Hp. unfold fs_write. rewrite exec_call, !Hf.
  destruct (fs !! p) as [[| |b]|]; [done..|]. by rewrite Hc.
Qed.

Section counter_file.
Context (env : CounterEnv) (Hcalm : calm env) (Hcodec : codec env).
Context (dir : Path) (name : string) (Hname : path_file_name (path_join dir name) = Some name).

Definition counter_file : Path := path_join dir name.
(** The directory is there, and neither the file nor its temporary is anything
    but a file. *)
Definition plain_entry (fs : FS) (p : Path) : Prop := match fs !! p with None | Some (File _) => True | _ => False end.
Definition ready (fs : FS) : Prop :=
  is_dir fs dir = true ∧ plain_entry fs counter_file ∧ plain_entry fs (tmp_path dir counter_file).

Lemma tmp_path_eq : tmp_path dir counter_file = path_join dir (name +:+ ".tmp").
Proof. unfold tmp_path, counter_file. by rewrite Hname. Qed.
Lemma joined_not_dir n : path_join dir n ≠ dir.
Proof. intros H. apply (f_equal (length ∘ snd)) in H. simpl in H. rewrite length_app in H. simpl in H. lia. Qed.
Lemma tmp_not_file : tmp_path dir counter_file ≠ counter_file.
Proof.
  rewrite tmp_path_eq. unfold counter_file, path_join. intros [= H]. simplify_list_eq.
  apply (f_equal String.length) in H. rewrite length_str_app in H. simpl in H. lia.
Qed.
Lemma is_dir_insert fs n node : is_dir (<[path_join dir n := node]> fs) dir = is_dir fs dir.
Proof. unfold is_dir. by rewrite lookup_insert_ne by apply joined_not_dir. Qed.
Lemma is_dir_delete fs n : is_dir (delete (path_join dir n) fs) dir = is_dir fs dir.
Proof. unfold is_dir. by rewrite lookup_delete_ne by apply joined_not_dir. Qed.
Lemma can_hold_joined fs n : is_dir fs dir = true → can_hold fs (path_join dir n) = true.
Proof. intros Hd. unfold can_hold. rewrite parent_path_join, Hd. apply orb_true_r. Qed.

Lemma update_run slug fs m :
  ready fs → is_Some (fs !! counter_file) → holds_counters env fs counter_file m → plain m →
  ∃ fs',
    exec (update_counter env slug dir counter_file) fs = (Ok (wrap 32 (fst (count_session env slug m))), fs')
    ∧ ready fs' ∧ holds_counters env fs' counter_file (snd (count_session env slug m)).
Proof.
  intros (Hd & Hp & Ht) [node Hnode] Hh Hm. unfold update_counter.
  unfold plain_entry in Hp. unfold holds_counters in Hh. rewrite Hnode in Hp, Hh. destruct node as [c| |]; [|done..].
  destruct Hh as [Hutf Hcount]. pose proof tmp_not_file as Hne.
  assert (Hf : ∀ site, fails (ce_faults env) site = false) by apply Hcalm.
  assert (Hc : content_at env fs counter_file = c) by (unfold content_at; by rewrite Hnode).
  rewrite exec_bind, exec_catch, exec_call. cbn [fst snd]. rewrite Hc, Hf, Hutf. cbn [negb andb]. rewrite Hcount.
  destruct (count_session env slug m) as [n m'] eqn:Eb. cbn [fst snd].
  assert (Hm' : plain m') by (pose proof (bump_plain env slug m Hm) as Hb; by rewrite Eb in Hb).
  destruct (Hcodec m' Hm') as (text & -> & Hutf' & Hblank & Hparse).
  rewrite exec_bind, exec_catch, fs_write_calm by (try done; rewrite tmp_path_eq; by apply can_hold_joined).
  cbn [fst snd]. rewrite exec_bind, exec_catch. unfold rename. rewrite exec_call.
  rewrite lookup_insert_eq, lookup_insert_ne, Hnode, Hf by done. cbn [fst snd]. rewrite exec_ret.
  eexists. split; [done|]. rewrite tmp_path_eq in *. split; [split_and!|]; unfold counter_file, plain_entry in *.
  - by rewrite is_dir_insert, is_dir_delete, is_dir_insert.
  - by rewrite lookup_insert_eq.
  - unfold tmp_path. rewrite Hname. simpl. rewrite lookup_insert_ne by congruence. by rewrite lookup_delete_eq.
  - unfold holds_counters. rewrite lookup_insert_eq. split; [done|]. unfold counters_of. by rewrite Hblank, Hparse.
Qed.

Lemma increment_run slug fs m :
  ready fs → holds_counters env fs counter_file m → plain m →
  ∃ fs',
    exec (increment_counter_at env slug counter_file) fs = (Ok (wrap 32 (fst (count_session env slug m))), fs')
    ∧ ready fs' ∧ holds_counters env fs' counter_file (snd (count_session env slug m)).
Proof.
  intros Hr Hh Hm. destruct Hr as (Hd & Hp & Ht). unfold increment_counter_at, counter_file. rewrite parent_path_join.
  assert (Hf : ∀ site, fails (ce_faults env) site = false) by apply Hcalm.
  rewrite exec_bind, exec_call. cbn [fst snd]. unfold exists_at. rewrite Hd. cbn [orb].
  rewrite exec_bind, exec_ret, exec_bind, exec_catch. unfold open_or_create, attempt. rewrite exec_call, Hf. fold counter_file.
  unfold plain_entry in Hp. unfold holds_counters in Hh.
  assert (Hgo : ∀ fs0, ready fs0 → is_Some (fs0 !! counter_file) → holds_counters env fs0 counter_file m → ∃ fs',
    exec (let* locked := catch (call (λ fs, if negb (fails (ce_faults env) (At "counter-lock")) && true then (id fs, Ok tt)
           else (fs, Err (EmptyString +:+ os_error (ce_faults env) (At "counter-lock"))))) in
         match locked with Ok _ => update_counter env slug dir counter_file | Err _ => ret 1 end) fs0
    = (Ok (wrap 32 (fst (count_session env slug m))), fs') ∧ ready fs' ∧ holds_counters env fs' counter_file (snd (count_session env slug m))).
  { intros fs0 Hr0 Hs0 Hh0. rewrite exec_bind, exec_catch, exec_call, Hf. cbn [negb andb fst snd].
    by apply update_run. }
  destruct (fs !! counter_file) as [[c| |]|] eqn:Ec; [| done..|].
  - cbn [negb andb fst snd]. apply Hgo; [|by rewrite Ec|unfold holds_counters; by rewrite Ec].
    split_and!; [done|unfold plain_entry; by rewrite Ec|done].
  - rewrite (can_hold_joined fs name Hd : can_hold fs counter_file = true). cbn [negb andb fst snd].
    pose proof tmp_not_file as Hne. apply Hgo.
    + split_and!; unfold plain_entry; [by unfold counter_file; rewrite is_dir_insert|by rewrite lookup_insert_eq|].
      by rewrite lookup_insert_ne by congruence.
    + by rewrite lookup_insert_eq.
    + unfold holds_counters. rewrite lookup_insert_eq. by subst m.
Qed.

(** Sessions of these games, one after another. *)
Fixpoint increments (slugs : list string) (p : Path) : IO (list Z) :=
  match slugs with
  | [] => ret []
  | slug :: rest =>
      let* n := increment_counter_at env slug p in
      let* ns := increments rest p in
      ret (n :: ns)
  end.
Definition occurrences (slug : string) (slugs : list string) : Z := Z.of_nat (count (String.eqb slug) slugs).
Definition colon_free (s : string) : Prop := any_byte (λ c, Ascii.eqb c ":") s = false.

Lemma counter_key_inj s s' : counter_key env s = counter_key env s' → s = s'.
Proof.
  unfold counter_key. generalize (":" +:+ ce_today env). intros t. revert s'.
  assert (Hl : ∀ a b : string, String.length (a +:+ t) = String.length (b +:+ t) → String.length a = String.length b)
    by (intros a b; rewrite !length_str_app; lia).
  induction s as [|c s IH]; intros [|c' s'] Heq; [done|..].
  - apply (f_equal String.length), Hl in Heq. done.
  - apply (f_equal String.length), Hl in Heq. done.
  - change (String c s +:+ t) with (String c (s +:+ t)) in Heq.
    change (String c' s' +:+ t) with (String c' (s' +:+ t)) in Heq. injection Heq as -> Heq. by rewrite (IH _ Heq).
Qed.

Lemma count_bump s s' m :
  colon_free s → colon_free s' → colon_free (ce_today env) → 0 ≤ count_at m (counter_key env s) < u64_max →
  count_at (snd (count_session env s m)) (counter_key env s') = count_at m (counter_key env s') + (if String.eqb s' s then 1 else 0)
  ∧ fst (count_session env s m) = count_at m (counter_key env s) + 1.
Proof.
  intros Hs Hs' Ht Hb. unfold count_session. cbn [fst snd].
  assert (Hp : ∀ x, colon_free x → count_at (prune env m) (counter_key env x) = count_at m (counter_key env x)).
  { intros x Hx. unfold count_at. rewrite prune_get; [done|by apply key_not_pruned|by apply today_kept]. }
  rewrite (Hp s Hs). unfold add_u64, wrap. rewrite (Z.mod_small (_ + 1)) by (unfold u64_max in Hb; lia).
  split; [|done]. unfold count_at at 1. destruct (String.eqb_spec s' s) as [->|Hne].
  - by rewrite map_get_insert_eq.
  - rewrite map_get_insert_ne by (intros ?%counter_key_inj; done).
    fold (count_at (prune env m) (counter_key env s')). rewrite (Hp s' Hs'). lia.
Qed.
End counter_file.

(** ** Slugs *)

Definition slug_byte (c : ascii) : bool := is_ascii_alphanumeric c || Ascii.eqb c "-".

Lemma slug_char_byte c : slug_char c = true → ∃ b, c = str1 b ∧ slug_byte b = true.
Proof.
  unfold slug_char, char_is. destruct c as [|b [|b' r]]; simpl; [done| |].
  - intros Hc. exists b. split; [done|]. unfold slug_byte. destruct (is_ascii_alphanumeric b); [done|]. simpl in *.
    by destruct (Ascii.eqb b "-").
  - by destruct (Ascii.eqb b "-").
Qed.

Lemma slug_shape `{Unicode} name :
  all_bytes slug_byte (slug_from_game_name name) = true ∧ (String.length (slug_from_game_name name) ≤ 32)%nat.
Proof.
  unfold slug_from_game_name.
  assert (Hall : ∀ l, Forall (λ c, slug_char c = true) (take 32 (List.filter slug_char l))).
  { intros l. apply Forall_take, List.Forall_forall. by intros c [_ Hc]%List.filter_In. }
  set (cs := (λ c, if String.eqb c " " then "-" else c) <$> _). specialize (Hall cs).
  assert (Hlen : (length (take 32 (List.filter slug_char cs)) ≤ 32)%nat) by (rewrite length_take; lia).
  revert Hall Hlen. generalize (take 32 (List.filter slug_char cs)).
  intros l Hall Hlen. enough (all_bytes slug_byte (concat_str l) = true ∧ String.length (concat_str l) = length l) as [? ->] by done.
  clear Hlen. induction Hall as [|c l Hc _ [IHa IHl]]; [done|]. cbn [concat_str].
  destruct (slug_char_byte c Hc) as (b & -> & Hb). rewrite all_bytes_app, length_str_app, IHa, IHl. simpl. by rewrite Hb.
Qed.

Lemma slug_colon_free `{Unicode} name : colon_free (slug_from_game_name name).
Proof.
  destruct (slug_shape name) as [Ha _]. unfold colon_free. revert Ha. generalize (slug_from_game_name name).
  induction s as [|c s IH]; simpl; [done|]. intros [Hc Hs]%andb_true_iff. rewrite (IH Hs).
  destruct (Ascii.eqb_spec c ":") as [->|]; [done|done].
Qed.

(** ** Theorems: the counter *)

Lemma occurrences_cons s s' l : occurrences s (s' :: l) = (if String.eqb s s' then 1 else 0) + occurrences s l.
Proof. unfold occurrences, count. simpl. destruct (String.eqb s s'); simpl; lia. Qed.

Lemma increments_run (env : CounterEnv) (Hcalm : calm env) (Hcodec : codec env) (Htoday : colon_free (ce_today env))
    (dir : Path) (name : string) (Hname : path_file_name (path_join dir name) = Some name)
    (slugs : list string) (m : list (string * json)) (fs : FS) :
  ready dir name fs → holds_counters env fs (counter_file dir name) m → plain m → Forall colon_free slugs →
  (∀ s, colon_free s → 0 ≤ count_at m (counter_key env s) ∧ count_at m (counter_key env s) + Z.of_nat (length slugs) ≤ u32_max) →
  ∃ numbers fs',
    exec (increments env slugs (counter_file dir name)) fs = (Ok numbers, fs') ∧ length numbers = length slugs
    ∧ ∀ i s, slugs !! i = Some s →
        numbers !! i = Some (count_at m (counter_key env s) + occurrences s (take i slugs) + 1).
Proof.
  revert m fs. induction slugs as [|s slugs IH]; intros m fs Hr Hh Hm Hs Hb; [by exists [], fs|].
  apply Forall_cons_1 in Hs as [Hs0 Hs]. cbn [increments].
  destruct (increment_run env Hcalm Hcodec dir name Hname s fs m Hr Hh Hm) as (fs1 & Hrun & Hr1 & Hh1).
  rewrite exec_bind, Hrun.
  assert (Hb0 : ∀ x, colon_free x → 0 ≤ count_at m (counter_key env x) ∧ count_at m (counter_key env x) + Z.of_nat (length slugs) + 1 ≤ u32_max).
  { intros x Hx. destruct (Hb x Hx). simpl length in *. split; lia. }
  assert (Hc : ∀ x, colon_free x → count_at (snd (count_session env s m)) (counter_key env x)
      = count_at m (counter_key env x) + (if String.eqb x s then 1 else 0)
    ∧ fst (count_session env s m) = count_at m (counter_key env s) + 1).
  { intros x Hx. apply count_bump; [done..|]. destruct (Hb0 s Hs0). unfold u32_max, u64_max in *. lia. }
  destruct (IH (snd (count_session env s m)) fs1 Hr1 Hh1) as (numbers & fs2 & Hrun2 & Hlen & Hall);
    [by apply bump_plain|done| |].
  { intros x Hx. destruct (Hc x Hx) as [-> _]. destruct (Hb0 x Hx). destruct (String.eqb x s); lia. }
  rewrite exec_bind, Hrun2, exec_ret. eexists _, _. split; [done|]. split; [simpl; by rewrite Hlen|].
  destruct (Hc s Hs0) as [_ Hn]. destruct (Hb0 s Hs0) as [Hlo Hhi].
  revert Hn. generalize (fst (count_session env s m)). intros n Hn.
  intros [|i] x; simpl.
  - intros [= <-]. subst n. unfold wrap. rewrite Z.mod_small by (unfold u32_max in Hhi; lia).
    f_equal. unfold occurrences, count. simpl. lia.
  - intros Hx. rewrite (Hall i x Hx), occurrences_cons.
    assert (Hcx : colon_free x) by (rewrite Forall_lookup in Hs; by eapply Hs).
    destruct (Hc x Hcx) as [-> _]. f_equal. lia.
Qed.

(** Game sessions on one day are numbered consecutively per game: from a counter
    file that records [m], the sessions of the named games get, one after
    another, the count of their game in [m] plus the number of earlier sessions
    of the same game plus one; other days' entries and other games do not
    matter. *)
Theorem counter_sequence `{Unicode} (env : CounterEnv) (dir : Path) (name : string) (games : list string)
    (m : list (string * json)) (fs : FS)
    (Hcalm : calm env) (Hcodec : codec env) (Htoday : colon_free (ce_today env))
    (Hname : path_file_name (path_join dir name) = Some name)
    (Hready : ready dir name fs) (Hholds : holds_counters env fs (path_join dir name) m) (Hplain : plain m)
    (Hbound : ∀ slug, 0 ≤ count_at m (counter_key env slug)
                      ∧ count_at m (counter_key env slug) + Z.of_nat (length games) ≤ u32_max) :
  ∃ numbers,
    returned (increments env (slug_from_game_name <$> games) (path_join dir name) fs) = Ok numbers
    ∧ length numbers = length games
    ∧ ∀ i game, games !! i = Some game →
        numbers !! i = Some (count_at m (counter_key env (slug_from_game_name game))
                             + occurrences (slug_from_game_name game) (slug_from_game_name <$> take i games) + 1).
Proof.
  destruct (increments_run env Hcalm Hcodec Htoday dir name Hname (slug_from_game_name <$> games) m fs)
    as (numbers & fs' & Hrun & Hlen & Hall); [done..| | |].
  - apply Forall_fmap, Forall_true. intros g. apply slug_colon_free.
  - intros s _. rewrite length_fmap. apply Hbound.
  - exists numbers. rewrite length_fmap in Hlen. split; [by injection Hrun|]. split; [done|].
    intros i game Hg. rewrite fmap_take. apply Hall. by rewrite list_lookup_fmap, Hg.
Qed.

Definition demo_counter_env : CounterEnv := {|
  ce_faults := {| fails _ := false; os_error _ := EmptyString; written := 0 |};
  ce_today := "2026-05-02"; ce_cutoff := "2026-04-02"; ce_linked := EmptyString;
  ce_parse := parse_flat; ce_pretty := print_flat |}.
Definition demo_state_dir : Path := (true, ["state"]).
Definition demo_fs : FS := {[demo_state_dir := Dir]}.

Lemma demo_calm : calm demo_counter_env.
Proof. split; [done|]. vm_compute. reflexivity. Qed.
Lemma demo_counter_codec : codec demo_counter_env.
Proof.
  intros m Hm. destruct (print_flat_total m Hm) as [p Hp]. exists (bits p). split; [exact Hp|].
  destruct (bits_text p) as [Hutf Hblank]. split; [unfold is_utf8; rewrite Hutf; apply String.eqb_refl|].
  split; [done|]. by apply parse_print_flat.
Qed.

Lemma counter_sequence_witness :
  ∃ numbers,
    returned (increments demo_counter_env (@slug_from_game_name ascii_unicode <$> ["Dota 2"; "Portal"; "Dota 2"])
                (path_join demo_state_dir "counters.json") demo_fs) = Ok numbers
    ∧ numbers !! 2%nat = Some 2.
Proof.
  destruct (@counter_sequence ascii_unicode demo_counter_env demo_state_dir "counters.json" ["Dota 2"; "Portal"; "Dota 2"] []
    demo_fs demo_calm demo_counter_codec ltac:(vm_compute; reflexivity) ltac:(vm_compute; reflexivity)
    ltac:(split; [vm_compute; reflexivity|split; vm_compute; exact I]) ltac:(vm_compute; reflexivity)
    ltac:(constructor) ltac:(intros slug; split; vm_compute; discriminate)) as (numbers & Hret & _ & Hall).
  exists numbers. split; [exact Hret|]. rewrite (Hall 2%nat "Dota 2" eq_refl). vm_compute. reflexivity.
Defined.

(** A fault while writing leaves the recorded number, and the returned one is
    not 1. *)
Definition failing_write : Faults :=
  {| fails s := bool_decide (s = At "counter-write-open"); os_error _ := EmptyString; written := 0 |}.
Definition full_disk : CounterEnv := {|
  ce_faults := failing_write; ce_today := "2026-05-02"; ce_cutoff := "2026-04-02"; ce_linked := EmptyString;
  ce_parse := parse_flat; ce_pretty := print_flat |}.
Definition demo_counted : FS :=
  snd (exec (increment_counter_at demo_counter_env "dota-2" (path_join demo_state_dir "counters.json")) demo_fs).
Lemma failed_write_repeats_number :
  returned (increments full_disk ["dota-2"; "dota-2"] (path_join demo_state_dir "counters.json") demo_counted)
  = Ok [2; 2].
Proof. vm_compute. reflexivity. Qed.

(** ** Polling *)

(** Successive polls, with the events they report. *)
Fixpoint polls `{Unicode} (to_string : json → result string string) (es : list PollEnv) (s : SessionManager)
  : IO (SessionManager * list SessionEvent) :=
  match es with
  | [] => ret (s, [])
  | e :: rest =>
      let* (s, ev) := poll to_string e s in
      let* (s, evs) := polls to_string rest s in
      ret (s, ev :: evs)
  end.

(** What an observer of the events knows: the game that is on.  [None]: an
    event that cannot follow. *)
Definition observe_event (open : option Target) (ev : SessionEvent) : option (option Target) :=
  match open, ev with
  | _, NoChange => Some open
  | None, GameStarted t => Some (Some t)
  | Some old, GameStarted t => if same_target old t then None else Some (Some t)
  | Some old, GameEnded t => if same_target old t then Some None else None
  | None, GameEnded _ => None
  end.
Fixpoint observe_all (open : option Target) (evs : list SessionEvent) : option (option Target) :=
  match evs with
  | [] => Some open
  | ev :: rest => let! open := observe_event open ev in observe_all open rest
  end.

Definition same_game (a b : option Target) : Prop :=
  match a, b with
  | Some a, Some b => same_target a b = true
  | None, None => True
  | _, _ => False
  end.

Lemma same_target_iff a b : same_target a b = true ↔ t_pid a = t_pid b ∧ t_steam_app_id a = t_steam_app_id b.
Proof. unfold same_target. by rewrite andb_true_iff, Z.eqb_eq, bool_decide_eq_true. Qed.
Lemma same_target_refl a : same_target a a = true.
Proof. by apply same_target_iff. Qed.
Lemma same_target_congr a a' b : same_target a a' = true → same_target a b = same_target a' b.
Proof. intros [Hp Hi]%same_target_iff. unfold same_target. by rewrite Hp, Hi. Qed.

(** What the manager keeps through a poll. *)
Definition same_session (s s' : SessionManager) : Prop :=
  session_id s' = session_id s ∧ label_is_manual s' = label_is_manual s ∧ label_source s' = label_source s
  ∧ settings_overlay s' = settings_overlay s ∧ session_json_path s' = session_json_path s.
Definition same_label (s s' : SessionManager) : Prop := label s' = label s ∧ sequence_number s' = sequence_number s.
(** The label of a game that starts when none is on. *)
Definition labelled `{Unicode} (e : PollEnv) (t : Target) (s' : SessionManager) : Prop :=
  ∃ n, sequence_number s' = Some n
       ∧ label s' = Some (auto_label_game_n (slug_from_game_name (t_display_name t)) (pe_day e) n).

(** One poll: the manager it leaves, its event and its label. *)
Record polled `{Unicode} (e : PollEnv) (s s' : SessionManager) (ev : SessionEvent) : Prop := {
  polled_session : same_session s s';
  polled_event : ∀ open, same_game open (current_game s) →
                   ∃ open', observe_event open ev = Some open' ∧ same_game open' (current_game s');
  polled_label : match current_game s, ev with
                 | None, GameStarted t => if label_is_manual s then same_label s s' else labelled e t s'
                 | _, _ => same_label s s'
                 end;
}.

Section polling.
Context `{Unicode} (to_string : json → result string string).

Lemma increment_total env slug p fs : ∃ n fs', exec (increment_counter_at env slug p) fs = (Ok n, fs').
Proof.
  unfold increment_counter_at. destruct (parent p) as [dir|]; [|by eexists _, _].
  assert (Hupdate : ∀ fs0, ∃ n fs', exec (update_counter env slug dir p) fs0 = (Ok n, fs')).
  { intros fs0. unfold update_counter. rewrite exec_bind, exec_catch. destruct (count_session env slug _) as [n m].
    rewrite exec_bind, exec_catch. destruct (fst (exec (fs_write _ _ _ _ _) _)); rewrite exec_bind; by eexists _, _. }
  rewrite exec_bind, exec_call. cbn [fst snd]. rewrite exec_bind.
  assert (Hrest : ∀ (made : result unit string) fs0, ∃ n fs',
    exec (match made with
         | Err _ => ret 1
         | Ok _ => let* opened := catch (open_or_create (ce_faults env) OpenLock EmptyString p) in
                   match opened with
                   | Err _ => ret 1
                   | Ok _ => let* locked := catch (attempt (ce_faults env) (At "counter-lock") EmptyString (λ _, true) id tt) in
                             match locked with Err _ => ret 1 | Ok _ => update_counter env slug dir p end
                   end
         end) fs0 = (Ok n, fs')).
  { intros [[]|e] fs0; [|by eexists _, _]. rewrite exec_bind, exec_catch.
    destruct (fst (exec (open_or_create _ _ _ _) _)); [|by eexists _, _]. rewrite exec_bind, exec_catch.
    destruct (fst (exec (attempt _ _ _ _ _ _) _)); [apply Hupdate|by eexists _, _]. }
  destruct (exists_at fs dir); [apply (Hrest (Ok tt))|]. rewrite exec_bind, exec_catch.
  destruct (fst (exec (create_dir_all _ _ _) _)) as [[]|err]; [|apply (Hrest (Err err))].
  rewrite exec_bind, exec_catch, exec_ret. apply (Hrest (Ok tt)).
Qed.

Lemma same_session_refl s : same_session s s.
Proof. by repeat split. Qed.

Lemma relabel_run e s t fs :
  ∃ s' fs', exec (relabel e s t) fs = (Ok s', fs') ∧ same_session s s' ∧ current_game s' = current_game s
            ∧ last_scan s' = last_scan s
            ∧ if label_is_manual s then same_label s s' else labelled e t s'.
Proof.
  unfold relabel. destruct (label_is_manual s) eqn:E; [by eexists _, _|].
  destruct (increment_total (pe_counter e) (slug_from_game_name (t_display_name t)) (pe_counter_file e) fs)
    as (n & fs' & Hn).
  rewrite exec_bind, Hn, exec_ret. eexists _, _. split; [done|]. split_and!; [by repeat split|done|done|].
  by exists n.
Qed.

Lemma poll_polled e s fs : ∃ s' ev fs', exec (poll to_string e s) fs = (Ok (s', ev), fs') ∧ polled e s s' ev.
Proof.
  unfold poll. destruct (scan_due (pe_now e) (last_scan s)); cbn [negb].
  2:{ eexists _, _, _. split; [apply exec_ret|]. split; [apply same_session_refl| |by destruct (current_game s)].
      intros o Ho. exists o. by destruct o. }
  cbn [current_game with_times last_no_game_log].
  destruct (current_game s) as [old|] eqn:Eg, (pe_detected e) as [t|].
  - destruct (same_target old t) eqn:Et; cbn [negb].
    + eexists _, _, _. split; [apply exec_ret|]. split; [by repeat split| |by rewrite Eg].
      rewrite Eg. intros [o|] Ho; [|done]. eexists. split; [done|]. simpl in *. by rewrite (same_target_congr o old).
    + rewrite exec_bind, exec_catch, exec_ret. eexists _, _, _. split; [done|]. split; [by repeat split| |by rewrite Eg].
      rewrite Eg. intros [o|] Ho; [|done]. simpl in *. rewrite (same_target_congr o old), Et by done.
      eexists. split; [done|]. apply same_target_refl.
  - unfold remove_session_json. rewrite !exec_bind, exec_catch, !exec_ret. eexists _, _, _. split; [done|].
    split; [by repeat split| |by rewrite Eg]. rewrite Eg. intros [o|] Ho; [|done]. simpl in *. rewrite Ho. by eexists.
  - destruct (relabel_run e (with_times s (Some (pe_now e)) (last_no_game_log s)) t fs) as (s1 & fs1 & Hr & Hs & Hg & _ & Hl).
    rewrite exec_bind, Hr, exec_bind, exec_catch, exec_ret. eexists _, _, _. split; [done|].
    split; [exact Hs| |rewrite Eg; exact Hl]. rewrite Eg. intros [o|] Ho; [done|]. eexists. split; [done|].
    apply same_target_refl.
  - eexists _, _, _. split; [apply exec_ret|].
    destruct (log_due _ _); (split; [by repeat split| |by rewrite Eg]);
      simpl; rewrite Eg; intros [o|] Ho; try done; by exists None.
Qed.
End polling.

Lemma same_session_trans s1 s2 s3 : same_session s1 s2 → same_session s2 s3 → same_session s1 s3.
Proof. intros (?&?&?&?&?) (?&?&?&?&?). split_and!; congruence. Qed.
Lemma same_label_trans s1 s2 s3 : same_label s1 s2 → same_label s2 s3 → same_label s1 s3.
Proof. intros [? ?] [? ?]. split; congruence. Qed.

Lemma polls_run `{Unicode} to_string es s fs open :
  same_game open (current_game s) →
  ∃ s' evs fs' open',
    exec (polls to_string es s) fs = (Ok (s', evs), fs') ∧ length evs = length es
    ∧ observe_all open evs = Some open' ∧ same_game open' (current_game s')
    ∧ same_session s s' ∧ (label_is_manual s = true → same_label s s').
Proof.
  revert s fs open. induction es as [|e es IH]; intros s fs open Ho; cbn [polls].
  { eexists _, _, _, _. split; [apply exec_ret|]. by split_and!. }
  destruct (poll_polled to_string e s fs) as (s1 & ev & fs1 & Hr & [Hs He Hl]).
  destruct (He open Ho) as (open1 & Ho1 & Hg1).
  destruct (IH s1 fs1 open1 Hg1) as (s2 & evs & fs2 & open2 & Hr2 & Hlen & Ho2 & Hg2 & Hs2 & Hl2).
  rewrite exec_bind, Hr, exec_bind, Hr2, exec_ret. eexists _, _, _, _. split; [done|].
  split_and!; [simpl; by rewrite Hlen|simpl; rewrite Ho1; exact Ho2|done|by eapply same_session_trans|].
  intros Hm. eapply same_label_trans; [|apply Hl2; by destruct Hs as (_ & -> & _)].
  destruct (current_game s), ev; try done. by rewrite Hm in Hl.
Qed.

(** ** Theorems: the state machine *)

(** C23: Every poll returns, whatever fails around it, and the events of a run are
    well paired: a game starts only when none is on or when it differs in
    process or app id from the one that is, and the game that ends is the one
    that is on; the manager's current game is then the observer's.  The session
    id, the origin of the label and a label chosen by the user never change. *)
Theorem session_protocol `{Unicode} (to_string : json → result string string) (es : list PollEnv)
    (s : SessionManager) (fs : FS) :
  ∃ s' evs open,
    returned (polls to_string es s fs) = Ok (s', evs) ∧ length evs = length es
    ∧ observe_all (current_game s) evs = Some open ∧ same_game open (current_game s')
    ∧ session_id s' = session_id s ∧ label_source s' = label_source s
    ∧ (label_is_manual s = true → label s' = label s ∧ sequence_number s' = sequence_number s).
Proof.
  destruct (polls_run to_string es s fs (current_game s)) as (s' & evs & fs' & open & Hr & Hlen & Ho & Hg & Hs & Hl).
  { destruct (current_game s); [apply same_target_refl|done]. }
  exists s', evs, open. split; [by injection Hr|]. destruct Hs as (? & ? & ? & _). by split_and!.
Qed.

(** ** The session file *)

Definition session_dir : Path := (true, ["tmp"; "rigsignal"]).
(** The directory of the session file is there. *)
Definition session_ready (fs : FS) : Prop := fs !! (true, ["tmp"]) = Some Dir ∧ fs !! session_dir = Some Dir.
(** The file describes the current game, as it was when it was announced. *)
Definition session_file (to_string : json → result string string) (s : SessionManager) (fs : FS) : Prop :=
  match current_game s with
  | None => fs !! session_json_file_path = None
  | Some t =>
      ∃ t0 text, same_target t0 t = true ∧ to_string (session_doc s t0) = Ok text
                 ∧ fs !! session_json_file_path = Some (File text)
  end.
(** A poll without faults whose counter file is elsewhere. *)
Record undisturbed (e : PollEnv) : Prop := {
  und_faults site : fails (pe_faults e) site = false;
  und_place : ∃ dir name, pe_counter_file e = path_join dir name
              ∧ ∀ q, q ∈ [(true, ["tmp"]); session_dir; session_json_file_path] →
                  q ≠ path_join dir name ∧ q ≠ tmp_path dir (path_join dir name) ∧ session_json_file_path ∉ ancestors dir;
}.

Lemma make_dirs_present (ps : list Path) (fs : FS) (p : Path) (node : Node) :
  fs !! p = Some node → fst (make_dirs ps fs) !! p = Some node.
Proof.
  revert fs. induction ps as [|q ps IH]; intros fs Hp; simpl; [done|].
  destruct (is_dir fs q); [by apply IH|]. destruct (fs !! q) eqn:Eq; [done|]. apply IH.
  rewrite lookup_insert_ne; [done|]. intros ->. congruence.
Qed.

Section elsewhere.
Context (q : Path) (node : option Node).
Definition at_node (fs : FS) : Prop := fs !! q = node.

Lemma create_dirs_keep f prefix dir :
  (node = None → q ∉ ancestors dir) →
  triple (λ _, True) at_node (create_dir_all f prefix dir) (λ _, at_node) at_node.
Proof.
  intros Hq. apply triple_call. intros fs Hfs.
  assert (Hk : ∀ ps, ps `sublist_of` ancestors dir → fst (make_dirs ps fs) !! q = node).
  { intros ps Hps. unfold at_node in Hfs. destruct node as [n|].
    - by apply make_dirs_present.
    - rewrite make_dirs_lookup; [done|]. intros Hin. apply (Hq eq_refl). by eapply elem_of_sublist. }
  destruct (fails f CreateDirs); simpl; [split; [done|]; by apply Hk, sublist_take|].
  specialize (Hk (ancestors dir) (reflexivity _)). destruct (make_dirs (ancestors dir) fs) as [fs' [|]]; by simpl in *.
Qed.

Lemma fs_write_keeps f place prefix p content :
  q ≠ p → triple (λ _, True) at_node (fs_write f place prefix p content) (λ _, at_node) at_node.
Proof.
  intros Hne. apply triple_call. intros fs Hfs. unfold at_node in *.
  assert (Hi : ∀ n, <[p := n]> fs !! q = node) by (intros n; by rewrite lookup_insert_ne).
  destruct (fs !! p) as [[| |[|]]|]; simpl; repeat case_match; simpl; auto.
Qed.

Lemma attempt_keeps {A : Type} f site prefix ok effect (value : A) :
  (∀ fs, at_node fs → at_node (effect fs)) →
  triple (λ _, True) at_node (attempt f site prefix ok effect value) (λ _, at_node) at_node.
Proof. intros He. apply triple_attempt; [done|]. intros fs Hfs _. split; [done|]. by apply He. Qed.

Lemma rename_keeps f site prefix from to :
  q ≠ from → q ≠ to → triple (λ _, True) at_node (rename f site prefix from to) (λ _, at_node) at_node.
Proof.
  intros Hf Ht. apply triple_call. intros fs Hfs. unfold at_node in *.
  destruct (fs !! from); [|done]. destruct (fs !! to) as [[| |]|]; repeat case_match; simpl; try done;
  (split; [done|]); by rewrite lookup_insert_ne, lookup_delete_ne.
Qed.

Lemma catch_keeps {A : Type} (m : IO A) :
  triple (λ _, True) at_node m (λ _, at_node) at_node →
  triple (λ _, True) at_node (catch m) (λ _, at_node) at_node.
Proof. intros Hm. apply triple_catch. eapply triple_weaken; [exact Hm|done|done|by intros fs ? _]. Qed.

Lemma look_keeps {A : Type} (g : FS → FS * result A string) :
  (∀ fs, fst (g fs) = fs) → triple (λ _, True) at_node (call g) (λ _, at_node) at_node.
Proof. intros Hg. apply triple_call. intros fs Hfs. split; [done|]. rewrite Hg. by destruct (snd (g fs)). Qed.

Lemma increment_keeps env slug dir name :
  (node = None → q ∉ ancestors dir) → q ≠ path_join dir name → q ≠ tmp_path dir (path_join dir name) →
  triple (λ _, True) at_node (increment_counter_at env slug (path_join dir name)) (λ _, at_node) at_node.
Proof.
  intros Ha Hp Ht. unfold increment_counter_at. rewrite parent_path_join.
  assert (Hu : triple (λ _, True) at_node (update_counter env slug dir (path_join dir name)) (λ _, at_node) at_node).
  { unfold update_counter. bind_keeping at_node; [by apply catch_keeps, look_keeps|]. intros c.
    destruct (count_session env slug _) as [n m]. bind_keeping at_node; [by apply catch_keeps, fs_write_keeps|]. intros w.
    bind_keeping at_node; [|intros _; by apply triple_ret].
    destruct w; [by apply catch_keeps, rename_keeps|by apply triple_ret]. }
  bind_keeping at_node; [by apply look_keeps|]. intros there. bind_keeping at_node.
  { destruct there; [by apply triple_ret|]. bind_keeping at_node; [by apply catch_keeps, create_dirs_keep|].
    intros [[]|err]; [|by apply triple_ret].
    bind_keeping at_node; [|intros _; by apply triple_ret]. by apply catch_keeps, attempt_keeps. }
  intros [[]|err]; [|by apply triple_ret]. bind_keeping at_node.
  { apply catch_keeps, attempt_keeps. intros fs Hfs. unfold at_node in *. destruct (fs !! path_join dir name); [done|].
    by rewrite lookup_insert_ne. }
  intros [[]|err]; [|by apply triple_ret]. bind_keeping at_node; [by apply catch_keeps, attempt_keeps|].
  intros [[]|err]; [exact Hu|by apply triple_ret].
Qed.
End elsewhere.

Section following.
Context `{Unicode} (to_string : json → result string string).
Context (Htext : ∀ s t, ∃ text, to_string (session_doc s t) = Ok text).

(** The manager is at its place, and file and directory are as they should. *)
Definition followed (s : SessionManager) (fs : FS) : Prop :=
  session_json_path s = session_json_file_path ∧ session_ready fs ∧ session_file to_string s fs.

Lemma session_doc_id s s' t : session_id s' = session_id s → session_doc s' t = session_doc s t.
Proof. intros Hs. unfold session_doc. by rewrite Hs. Qed.

Lemma session_entry s fs : session_file to_string s fs → plain_entry fs session_json_file_path.
Proof.
  unfold session_file, plain_entry. destruct (current_game s); [intros (? & ? & _ & _ & ->)|intros ->]; done.
Qed.

Lemma ready_insert fs node :
  session_ready fs → session_ready (<[session_json_file_path := node]> fs).
Proof. intros [H1 H2]. by split; rewrite lookup_insert_ne by done. Qed.

Lemma write_session_run f s t fs :
  (∀ site, fails f site = false) → session_json_path s = session_json_file_path → session_ready fs →
  plain_entry fs session_json_file_path →
  ∃ text, to_string (session_doc s t) = Ok text
          ∧ exec (write_session_json to_string f s t) fs = (Ok tt, <[session_json_file_path := File text]> fs).
Proof.
  intros Hf Hp [H1 H2] He. destruct (Htext s t) as [text Ht]. exists text. split; [done|].
  unfold write_session_json. rewrite Hp.
  change (parent session_json_file_path) with (Some session_dir). cbn beta iota.
  rewrite exec_bind. unfold create_dir_all. rewrite exec_call, Hf.
  change (ancestors session_dir) with [(true, ["tmp"]); session_dir].
  assert (make_dirs [(true, ["tmp"]); session_dir] fs = (fs, true)) as ->.
  { cbn [make_dirs]. unfold is_dir. by rewrite H1, H2. }
  cbn beta iota delta [fst snd]. rewrite exec_bind, exec_catch. cbn beta iota. rewrite exec_bind, exec_of_result, Ht.
  assert (Hfs : snd (exec (set_permissions f ChmodDir EmptyString session_dir) fs) = fs).
  { unfold set_permissions, attempt. rewrite exec_call. by destruct (negb _ && _). }
  rewrite Hfs. apply fs_write_calm; [done| |exact He].
  unfold can_hold. change (parent session_json_file_path) with (Some session_dir). unfold is_dir. rewrite H2. apply orb_true_r.
Qed.

Lemma announce e s t fs :
  undisturbed e → session_json_path s = session_json_file_path → session_ready fs → plain_entry fs session_json_file_path →
  ∃ fs', exec (catch (write_session_json to_string (pe_faults e) s t)) fs = (Ok (Ok tt), fs')
         ∧ session_ready fs' ∧ ∀ s', same_session s s' → current_game s' = Some t → session_file to_string s' fs'.
Proof.
  intros He Hp Hr Hn.
  destruct (write_session_run (pe_faults e) s t fs (und_faults e He) Hp Hr Hn) as (text & Ht & Hrun).
  rewrite exec_catch, Hrun. cbn [fst snd]. eexists. split; [done|]. split; [by apply ready_insert|].
  intros s' (Hid & _) Hg. unfold session_file. rewrite Hg. exists t, text. rewrite (session_doc_id s s' t Hid).
  split; [apply same_target_refl|]. split; [done|]. by rewrite lookup_insert_eq.
Qed.

Lemma relabel_keeps e s t q node :
  undisturbed e → q ∈ [(true, ["tmp"]); session_dir; session_json_file_path] →
  (node = None → q = session_json_file_path) →
  triple (λ _, True) (at_node q node) (relabel e s t) (λ _, at_node q node) (at_node q node).
Proof.
  intros He Hq Hn. destruct (und_place e He) as (dir & name & Hfile & Hplace). destruct (Hplace q Hq) as (H1 & H2 & H3).
  unfold relabel. destruct (label_is_manual s); [by apply triple_ret|]. rewrite Hfile.
  bind_keeping (at_node q node); [|intros n; by apply triple_ret].
  apply increment_keeps; [|done|done]. intros ->. by rewrite Hn.
Qed.

Lemma run_keeps {A : Type} (m : IO A) q node fs r fs' :
  triple (λ _, True) (at_node q node) m (λ _, at_node q node) (at_node q node) →
  exec m fs = (r, fs') → fs !! q = node → fs' !! q = node.
Proof. intros Hm [= <- <-] Hq. destruct (Hm fs Hq) as [_ Hr]. by destruct (returned (m fs)). Qed.

Lemma poll_follows e s fs s' ev fs' :
  undisturbed e → followed s fs → exec (poll to_string e s) fs = (Ok (s', ev), fs') → followed s' fs'.
Proof.
  intros He (Hp & Hr & Hf) Hrun.
  destruct (poll_polled to_string e s fs) as (s1 & ev1 & fs1 & Hrun1 & [Hs _ _]).
  rewrite Hrun in Hrun1. injection Hrun1 as <- <- <-. destruct Hs as (Hid & _ & _ & _ & Hpath).
  split; [congruence|]. unfold poll in Hrun.
  destruct (scan_due (pe_now e) (last_scan s)); cbn [negb] in Hrun; [|by injection Hrun as <- <- <-].
  cbn [current_game with_times last_no_game_log] in Hrun. unfold session_file in Hf.
  destruct (current_game s) as [old|] eqn:Eg, (pe_detected e) as [t|].
  - destruct (same_target old t) eqn:Et; cbn [negb] in Hrun.
    + injection Hrun as <- <- <-. split; [done|]. destruct Hf as (t0 & text & Ht0 & Htx & Hfile).
      exists t0, text. rewrite (same_target_congr t0 old) by done. split; [done|]. split; [exact Htx|done].
    + destruct (announce e (with_times s (Some (pe_now e)) (last_no_game_log s)) t fs He Hp Hr) as (fs2 & H2 & Hr2 & Hf2).
      { apply (session_entry s). unfold session_file. by rewrite Eg. }
      rewrite exec_bind, H2, exec_ret in Hrun. injection Hrun as <- <- <-. split; [done|]. by apply Hf2.
  - unfold remove_session_json in Hrun. rewrite !exec_bind, exec_catch, !exec_ret in Hrun.
    destruct Hf as (t0 & text & _ & _ & Hfile). unfold remove_file, attempt in Hrun.
    change (session_json_path (with_times s (Some (pe_now e)) (last_no_game_log s))) with (session_json_path s) in Hrun.
    rewrite Hp, exec_call, (und_faults e He), Hfile in Hrun. cbn [negb andb fst snd] in Hrun.
    injection Hrun as <- <- <-. destruct Hr as [H1 H2]. split; [by split; rewrite lookup_delete_ne|].
    unfold session_file. simpl. apply lookup_delete_eq.
  - destruct (relabel_run e (with_times s (Some (pe_now e)) (last_no_game_log s)) t fs) as (s2 & fs2 & Hl & Hs2 & _ & _ & _).
    assert (Hk : ∀ q node, q ∈ [(true, ["tmp"]); session_dir; session_json_file_path] →
      (node = None → q = session_json_file_path) → fs !! q = node → fs2 !! q = node).
    { intros q node Hq Hn Hfs. eapply run_keeps; [by apply relabel_keeps|exact Hl|done]. }
    destruct Hr as [H1 H2].
    destruct (announce e s2 t fs2 He) as (fs3 & H3 & Hr3 & Hf3).
    { destruct Hs2 as (_ & _ & _ & _ & ->). done. }
    { split; apply Hk; try done; [by left|by right; left]. }
    { unfold plain_entry. rewrite (Hk session_json_file_path None); [done| |done|done]. by right; right; left. }
    rewrite exec_bind, Hl, exec_bind, H3, exec_ret in Hrun. injection Hrun as <- <- <-. split; [done|]. by apply Hf3.
  - injection Hrun as <- <- <-. split; [done|]. unfold session_file. by destruct (log_due _ _); simpl; rewrite Eg.
Qed.

Lemma polls_follow es s fs s' evs fs' :
  Forall undisturbed es → followed s fs → exec (polls to_string es s) fs = (Ok (s', evs), fs') → followed s' fs'.
Proof.
  intros He. revert s fs evs. induction He as [|e es He _ IH]; intros s fs evs Hf Hrun; cbn [polls] in Hrun.
  { by injection Hrun as <- <- <-. }
  destruct (poll_polled to_string e s fs) as (s1 & ev & fs1 & Hr1 & _). rewrite exec_bind, Hr1 in Hrun.
  destruct (polls_run to_string es s1 fs1 (current_game s1)) as (s2 & evs2 & fs2 & _ & Hr2 & _).
  { destruct (current_game s1); [apply same_target_refl|done]. }
  rewrite exec_bind, Hr2, exec_ret in Hrun. injection Hrun as <- <- <-.
  eapply IH; [by eapply poll_follows|exact Hr2].
Qed.
End following.


(** ** Examples *)

Definition demo_pid_text (v : json) : result string string :=
  Ok (match json_get "game_pid" v with Some (JNumber (PosInt n)) => show n | _ => EmptyString end).
Definition demo_poll (now : Z) (detected : option Target) : PollEnv := {|
  pe_now := now; pe_detected := detected; pe_counter := demo_counter_env;
  pe_counter_file := path_join demo_state_dir "counters.json"; pe_day := "20260502" |}.
Definition demo_session_fs : FS := <[(true, ["tmp"]) := Dir]> (<[session_dir := Dir]> demo_fs).

Lemma demo_undisturbed now d : undisturbed (demo_poll now d).
Proof.
  split; [done|]. exists demo_state_dir, "counters.json". split; [done|].
  intros q Hq. rewrite !elem_of_cons, elem_of_nil in Hq.
  assert (Ha : session_json_file_path ∉ ancestors demo_state_dir).
  { apply (bool_decide_unpack _). vm_compute. exact I. }
  destruct Hq as [->|[->|[->|[]]]]; by split_and!.
Qed.


(** A switch from one game to another leaves the label and the number of the
    first, and reports no end. *)
Definition demo_other : Target := launched Lutris "Portal" "Lutris — Native" 77 [77] None None None.
Lemma switch_keeps_label :
  match returned (@polls ascii_unicode demo_pid_text [demo_poll 0 (Some demo_target); demo_poll 6000000000 (Some demo_other)]
      (new_with_label_and_settings "id" "t" None None) demo_session_fs) with
  | Ok (s', evs) => evs = [GameStarted demo_target; GameStarted demo_other]
                    ∧ current_game s' = Some demo_other ∧ label s' = Some "dota-2-20260502-1"
  | Err _ => False
  end.
Proof. vm_compute. by split_and!. Qed.

Example slug_examples :
  @slug_from_game_name ascii_unicode "The Elder Scrolls V: Skyrim" = "the-elder-scrolls-v-skyrim".
Proof. reflexivity. Qed.
