(* ===== verification/CounterRace.v ===== *)
(** * Two agents and one counter file ([src/session.rs], [increment_counter_at])

    The counter file is locked through the descriptor that was opened, and
    replaced by a rename.  The steps of several agents interleave over a
    directory entry, the contents of the inodes it has pointed to, and the locks
    the inodes carry. *)
From S2P Require Import Prelude Float64 Json FileSystem GameScan Session.

(** ** Steps *)

(** Where an agent is: the file is opened, locked, read; the new text is
    written aside; the entry renamed; the descriptor closed. *)
Inductive Progress :=
| Starting
| Opened (inode : nat)
| Locked (inode : nat)
| Counted (inode : nat) (n : Z) (counters : list (string * json))
| Renamed (inode : nat) (n : Z)
| Finished (n : Z).

Record Shared := {
  entry : option nat;
  contents : gmap nat (list (string * json));
  locks : gmap nat nat;
  next_inode : nat;
  agents : gmap nat Progress;
}.
Definition at_progress (s : Shared) (a : nat) (p : Progress) : Shared :=
  {| entry := entry s; contents := contents s; locks := locks s; next_inode := next_inode s;
     agents := <[a := p]> (agents s) |}.

(** One step of agent [a], which counts a session of [slug]. *)
Definition agent_step (env : CounterEnv) (slug : string) (a : nat) (s : Shared) : option Shared :=
  match agents s !! a with
  | Some Starting =>
      match entry s with
      | Some inode => Some (at_progress s a (Opened inode))
      | None =>
          let inode := next_inode s in
          Some {| entry := Some inode; contents := <[inode := []]> (contents s); locks := locks s;
                  next_inode := S inode; agents := <[a := Opened inode]> (agents s) |}
      end
  | Some (Opened inode) =>
      match locks s !! inode with
      | Some _ => None
      | None =>
          Some {| entry := entry s; contents := contents s; locks := <[inode := a]> (locks s);
                  next_inode := next_inode s; agents := <[a := Locked inode]> (agents s) |}
      end
  | Some (Locked inode) =>
      let (n, counters) := count_session env slug (unwrap_or (contents s !! inode) []) in
      Some (at_progress s a (Counted inode n counters))
  | Some (Counted inode n counters) =>
      let fresh := next_inode s in
      Some {| entry := Some fresh; contents := <[fresh := counters]> (contents s); locks := locks s;
              next_inode := S fresh; agents := <[a := Renamed inode n]> (agents s) |}
  | Some (Renamed inode n) =>
      Some {| entry := entry s; contents := contents s; locks := delete inode (locks s);
              next_inode := next_inode s; agents := <[a := Finished (wrap 32 n)]> (agents s) |}
  | Some (Finished _) | None => None
  end.

(** A schedule: which agent moves next. *)
Fixpoint schedule (env : CounterEnv) (slug : string) (turns : list nat) (s : Shared) : option Shared :=
  match turns with
  | [] => Some s
  | a :: rest => let! s := agent_step env slug a s in schedule env slug rest s
  end.

Definition recorded (s : Shared) : list (string * json) :=
  unwrap_or (and_then (entry s) (λ inode, contents s !! inode)) [].

(** ** Alone *)

(** An agent whose steps nobody interrupts counts one more than the file
    records, and records it. *)
Lemma alone_counts (env : CounterEnv) (slug : string) (a : nat) (s : Shared) :
  agents s !! a = Some Starting → locks s = ∅ →
  (∀ inode, entry s = Some inode → is_Some (contents s !! inode)) →
  ∃ s', schedule env slug [a; a; a; a; a] s = Some s'
        ∧ agents s' !! a = Some (Finished (wrap 32 (fst (count_session env slug (recorded s)))))
        ∧ recorded s' = snd (count_session env slug (recorded s)) ∧ locks s' = ∅.
Proof.
  intros Ha Hl Hc. cbn [schedule]. unfold agent_step at 1. rewrite Ha.
  destruct (entry s) as [inode|] eqn:Ee.
  - destruct (Hc inode eq_refl) as [m Hm]. 
    assert (recorded s = m) as -> by (unfold recorded; by rewrite Ee; simpl; rewrite Hm).
    unfold agent_step at 1, at_progress. cbn [agents locks]. rewrite lookup_insert_eq, Hl, lookup_empty.
    unfold agent_step at 1. cbn [agents contents]. rewrite lookup_insert_eq, Hm. simpl.
    destruct (count_session env slug m) as [n m'].
    unfold agent_step at 1, at_progress. cbn [agents contents]. rewrite lookup_insert_eq.
    unfold agent_step at 1. cbn [agents contents]. rewrite lookup_insert_eq.
    eexists. split; [done|]. unfold recorded. cbn [agents entry contents locks and_then]. rewrite !lookup_insert_eq.
    split_and!; [done|done|]. by rewrite insert_empty, delete_singleton_eq.
  - assert (recorded s = []) as -> by (unfold recorded; by rewrite Ee).
    unfold agent_step at 1. cbn [agents locks]. rewrite lookup_insert_eq, Hl, lookup_empty.
    unfold agent_step at 1. cbn [agents contents]. rewrite !lookup_insert_eq. simpl.
    destruct (count_session env slug []) as [n m'].
    unfold agent_step at 1, at_progress. cbn [agents contents]. rewrite lookup_insert_eq.
    unfold agent_step at 1. cbn [agents contents]. rewrite lookup_insert_eq.
    eexists. split; [done|]. unfold recorded. cbn [agents entry contents locks and_then]. rewrite !lookup_insert_eq.
    split_and!; [done|done|]. by rewrite insert_empty, delete_singleton_eq.
Qed.

(** ** Together *)

Definition two_agents : Shared := {|
  entry := None; contents := ∅; locks := ∅; next_inode := 0;
  agents := {[0%nat := Starting; 1%nat := Starting]} |}.

(** The second agent opens the file before the first renames it, waits for the
    lock of the replaced inode, and counts from the old contents: both sessions
    get the number 1, and one count is lost. *)
Lemma lock_follows_old_inode :
  match schedule demo_counter_env "dota-2" [0; 1; 0; 0; 0; 0; 1; 1; 1; 1]%nat two_agents with
  | Some s => agents s = {[0%nat := Finished 1; 1%nat := Finished 1]}
              ∧ count_at (recorded s) (counter_key demo_counter_env "dota-2") = 1
  | None => False
  end.
Proof. vm_compute. by split. Qed.
