(* ===== verification/SessionWatch.v ===== *)
(** * The daemon's session watcher ([ebpf/rigsignal-ebpf/src/session.rs])

    Reading the session file, discovering the threads of the game, and the
    watcher's reactions to file events and to the thirty-second timeout.  The
    process tree is read through [ProcTree]; the text of the file is parsed by an
    argument, the derived deserialization of the record is [session_info_of]. *)
From Stdlib Require Import Ascii.
From S2P Require Import Prelude Float64 Json FileSystem GameScan Session.

(** ** Data *)

Definition MAX_GAME_TIDS : nat := 1024.
Definition MAX_PROC_SCAN_PIDS : Z := 32768.

Record SessionInfo := {
  si_session_id : string;
  si_game_pid : Z;
  si_game_name : string;
  si_steam_app_id : option Z;
  si_game_pids : list Z;
}.
Definition with_pids (i : SessionInfo) (pids : list Z) : SessionInfo :=
  {| si_session_id := si_session_id i; si_game_pid := si_game_pid i; si_game_name := si_game_name i;
     si_steam_app_id := si_steam_app_id i; si_game_pids := pids |}.

Record SessionState := { active : bool; info : option SessionInfo; tids : list Z }.
Definition no_session : SessionState := {| active := false; info := None; tids := [] |}.

(** [session_file_path]: the agent writes [Session.session_json_file_path]. *)
Definition session_file_path (xdg_runtime_dir : option string) : Path :=
  match xdg_runtime_dir with
  | Some dir => path_from (join_path dir "rigsignal/session.json")
  | None => (true, ["tmp"; "rigsignal"; "session.json"])
  end.

(** The derived [Deserialize]: a [u32] is a number in range; an absent option is
    [None], absent pids are none. *)
Definition json_u32 (v : json) : option Z :=
  match v with JNumber (PosInt n) => if (0 <=? n) && (n <=? u32_max) then Some n else None | _ => None end.
Definition session_info_of (v : json) : option SessionInfo :=
  let! session_id := and_then (json_get "session_id" v) as_str in
  let! game_pid := and_then (json_get "game_pid" v) json_u32 in
  let! game_name := and_then (json_get "game_name" v) as_str in
  let! steam_app_id :=
    match json_get "steam_app_id" v with
    | None | Some JNull => Some None
    | Some id => Some <$> json_u32 id
    end in
  let! game_pids :=
    match json_get "game_pids" v with
    | None => Some []
    | Some (JArray l) => mapM json_u32 l
    | Some _ => None
    end in
  Some {| si_session_id := session_id; si_game_pid := game_pid; si_game_name := game_name;
          si_steam_app_id := steam_app_id; si_game_pids := game_pids |}.

(** ** Threads *)

(** The entries of [/proc], the entries of a process's [task] directory, the
    [children] file of a thread, and the environment of an entry. *)
Record ProcTree := {
  proc_entries : option (list string);
  task_entries : Z → option (list string);
  children_of : Z → Z → option string;
  environ_of : string → option string;
}.

Section discovery.
Context (proc : ProcTree).

(** Sorted, without repetitions. *)
Fixpoint dedup_adjacent (l : list Z) : list Z :=
  match l with
  | x :: ((y :: _) as rest) => if x =? y then dedup_adjacent rest else x :: dedup_adjacent rest
  | _ => l
  end.
Definition thread_ids (pid : Z) : list Z :=
  dedup_adjacent (merge_sort Z.le (filter_map parse_u32 (unwrap_or (task_entries proc pid) []))).

Record Walk := { w_tids : gset Z; w_visited : gset Z }.
Definition full (w : Walk) : bool := (MAX_GAME_TIDS <=? size (w_tids w))%nat.

(** The loop that adds the threads, up to the limit. *)
Definition add_tid (w : Walk) (tid : Z) : Walk :=
  if full w then w else {| w_tids := {[tid]} ∪ w_tids w; w_visited := w_visited w |}.

Definition child_pids (pid tid : Z) : list Z :=
  match children_of proc pid tid with Some content => filter_map parse_u32 (split_whitespace content) | None => [] end.

(** [collect_tids_recursive] at depth [5 - fuel]: the depth check is the fuel's
    end. *)
Fixpoint collect_tids_recursive (fuel : nat) (pid : Z) (w : Walk) : Walk :=
  match fuel with
  | O => w
  | S fuel =>
      if full w || bool_decide (pid ∈ w_visited w) then w
      else
        let w := {| w_tids := w_tids w; w_visited := {[pid]} ∪ w_visited w |} in
        let threads := thread_ids pid in
        let w := foldl add_tid w threads in
        foldl (λ w tid,
          if full w then w else foldl (λ w child, collect_tids_recursive fuel child w) w (child_pids pid tid))
          w threads
  end.
Definition MAX_DEPTH : nat := 5.

Definition collect_game_tids_from_proc (root_pids : list Z) : list Z :=
  let w := foldl (λ w pid, collect_tids_recursive MAX_DEPTH pid w) {| w_tids := ∅; w_visited := ∅ |} root_pids in
  merge_sort Z.le (elements (w_tids w)).

Definition environ_matches (steam_app_id : Z) (environ : string) : bool :=
  existsb (λ entry, String.eqb entry ("SteamGameId=" +:+ show steam_app_id)
                    || String.eqb entry ("SteamAppId=" +:+ show steam_app_id)) (split_char "000" environ).
(** The scan stops after [MAX_PROC_SCAN_PIDS] numbered entries. *)
Fixpoint scan_entries (steam_app_id scanned : Z) (entries : list string) : list Z :=
  match entries with
  | [] => []
  | entry :: rest =>
      match parse_u32 (from_utf8_lossy entry) with
      | None => scan_entries steam_app_id scanned rest
      | Some pid =>
          if MAX_PROC_SCAN_PIDS <=? scanned then []
          else match environ_of proc entry with
               | Some environ =>
                   (if environ_matches steam_app_id environ then [pid] else [])
                   ++ scan_entries steam_app_id (scanned + 1) rest
               | None => scan_entries steam_app_id (scanned + 1) rest
               end
      end
  end.
Definition find_steam_processes (steam_app_id : Z) : list Z :=
  match proc_entries proc with
  | Some entries => merge_sort Z.le (scan_entries steam_app_id 0 entries)
  | None => []
  end.

Inductive TidSource := RecordedPids | EnvironScan | Union.
Definition discover_game_tids_from_proc (i : SessionInfo) : list Z * TidSource :=
  let recorded := collect_game_tids_from_proc (si_game_pids i) in
  match si_steam_app_id i with
  | None => (recorded, RecordedPids)
  | Some id =>
      match find_steam_processes id, recorded with
      | [], _ => (recorded, RecordedPids)
      | environ_pids, [] => (collect_game_tids_from_proc environ_pids, EnvironScan)
      | environ_pids, _ => (collect_game_tids_from_proc (si_game_pids i ++ environ_pids), Union)
      end
  end.

(** ** The file *)

Context (from_str : string → option json).

Definition read_session (content : option string) : option (SessionInfo * list Z) :=
  let! content := content in
  let! i := and_then (from_str content) session_info_of in
  let i := match si_game_pids i with [] => with_pids i [si_game_pid i] | _ => i end in
  Some (i, fst (discover_game_tids_from_proc i)).
Definition active_session_state (content : option string) : option SessionState :=
  (λ '(i, t), {| active := true; info := Some i; tids := t |}) <$> read_session content.

Definition refreshed_active_session_state (current : SessionState) : option SessionState :=
  let! i := info current in
  let found := fst (discover_game_tids_from_proc i) in
  if bool_decide (found = tids current) then None
  else Some {| active := true; info := Some i; tids := found |}.
End discovery.

(** ** The watcher *)

Inductive EventKind := Create | Modify | Remove | Other.
(** What wakes the loop: the timeout, or a file event, which may be about
    another file. *)
Inductive Wake := Timeout | FileEvent (affects_session : bool) (kind : EventKind).

(** The shared state, and the states sent to the loader that it has not taken
    yet; the channel holds 16. *)
Record Watcher := { shared : SessionState; channel : list SessionState }.
Definition CHANNEL_CAPACITY : nat := 16.
Definition publish_state (w : Watcher) (s : SessionState) : Watcher :=
  {| shared := s;
     channel := if (length (channel w) <? CHANNEL_CAPACITY)%nat then channel w ++ [s] else channel w |}.

(** The file when it is looked at: [content] is [None] when it cannot be read. *)
Record Look := { file_exists : bool; file_content : option string; proc_now : ProcTree }.

Section watcher.
Context (from_str : string → option json).

Definition look (l : Look) : option SessionState := active_session_state (proc_now l) from_str (file_content l).

Definition initial_watcher (l : Look) : Watcher :=
  let s := if file_exists l then unwrap_or (look l) no_session else no_session in
  {| shared := s; channel := if active s then [s] else [] |}.

Definition wake (w : Watcher) (ev : Wake) (l : Look) : Watcher :=
  match ev with
  | Timeout =>
      if active (shared w) then
        match refreshed_active_session_state (proc_now l) (shared w) with
        | Some s => publish_state w s
        | None => w
        end
      else if file_exists l then match look l with Some s => publish_state w s | None => w end
      else w
  | FileEvent false _ => w
  | FileEvent true (Create | Modify) => match look l with Some s => publish_state w s | None => w end
  | FileEvent true Remove =>
      if file_exists l then match look l with Some s => publish_state w s | None => w end
      else publish_state w no_session
  | FileEvent true Other => w
  end.
End watcher.

(** ** Lemmas *)

Section walk.
Context (proc : ProcTree) (roots : list Z).

(** A process [n] generations below the roots. *)
Inductive descends : nat → Z → Prop :=
| descends_root pid : pid ∈ roots → descends 0 pid
| descends_child n pid tid child :
    descends n pid → tid ∈ thread_ids proc pid → child ∈ child_pids proc pid tid → descends (S n) child.

(** What the walk keeps: the threads found are threads of near descendants,
    never more than the limit, and a visited process has all its threads in
    unless the limit is reached. *)
Record walk_ok (w : Walk) : Prop := {
  walk_size : (size (w_tids w) ≤ MAX_GAME_TIDS)%nat;
  walk_sound tid : tid ∈ w_tids w → ∃ n pid, (n < MAX_DEPTH)%nat ∧ descends n pid ∧ tid ∈ thread_ids proc pid;
  walk_complete : full w = false → ∀ pid tid, pid ∈ w_visited w → tid ∈ thread_ids proc pid → tid ∈ w_tids w;
}.
(** The walk only adds. *)
Definition grows (w w' : Walk) : Prop := w_tids w ⊆ w_tids w' ∧ w_visited w ⊆ w_visited w'.

#[local] Instance grows_preorder : PreOrder grows.
Proof. split; [by intros w; split|]. intros w1 w2 w3 [? ?] [? ?]. split; by etrans. Qed.

Lemma full_grows w w' : grows w w' → full w = true → full w' = true.
Proof.
  intros [Ht _]. unfold full. rewrite !Nat.leb_le. intros Hf. etrans; [exact Hf|]. by apply subseteq_size.
Qed.

(** Adding the threads of a near process. *)
Lemma add_tids_ok n pid w threads :
  (n < MAX_DEPTH)%nat → descends n pid → (∀ tid, tid ∈ threads → tid ∈ thread_ids proc pid) →
  (size (w_tids w) ≤ MAX_GAME_TIDS)%nat →
  (∀ tid, tid ∈ w_tids w → ∃ n pid, (n < MAX_DEPTH)%nat ∧ descends n pid ∧ tid ∈ thread_ids proc pid) →
  let w' := foldl add_tid w threads in
  grows w w' ∧ w_visited w' = w_visited w ∧ (size (w_tids w') ≤ MAX_GAME_TIDS)%nat
  ∧ (∀ tid, tid ∈ w_tids w' → ∃ n pid, (n < MAX_DEPTH)%nat ∧ descends n pid ∧ tid ∈ thread_ids proc pid)
  ∧ (full w' = false → ∀ tid, tid ∈ threads → tid ∈ w_tids w').
Proof.
  intros Hn Hd. revert w. induction threads as [|t threads IH]; intros w Hin Hsize Hsound; cbv zeta; simpl.
  { split_and!; [reflexivity|done..|]. by intros _ tid ?%elem_of_nil. }
  assert (Hstep : grows w (add_tid w t) ∧ w_visited (add_tid w t) = w_visited w
    ∧ (size (w_tids (add_tid w t)) ≤ MAX_GAME_TIDS)%nat
    ∧ (full w = false → t ∈ w_tids (add_tid w t))
    ∧ ∀ tid, tid ∈ w_tids (add_tid w t) → tid ∈ w_tids w ∨ tid = t).
  { unfold add_tid. destruct (full w) eqn:Ef; [split_and!; try done; by left|]. simpl.
    split_and!; [split; [set_solver|done]|done| |set_solver|set_solver].
    apply Nat.leb_gt in Ef. rewrite size_union_alt, size_singleton.
    assert (size (w_tids w ∖ {[t]}) ≤ size (w_tids w))%nat by (apply subseteq_size; set_solver). lia. }
  destruct Hstep as (Hg & Hv & Hs & Ht & Hf).
  destruct (IH (add_tid w t)) as (Hg' & Hv' & Hs' & Hsound' & Hc').
  { intros tid Htid. apply Hin. by right. } { done. }
  { intros tid [Hold| ->]%Hf; [by apply Hsound|]. exists n, pid. split_and!; [done..|]. apply Hin. by left. }
  split_and!; [by etrans|by rewrite Hv'|done|done|].
  intros Hnf tid [->|Htid]%elem_of_cons; [|by apply Hc'].
  apply Hg'. apply Ht. destruct (full w) eqn:Ef; [|done]. rewrite (full_grows w) in Hnf; [done| |done]. by etrans.
Qed.

Lemma foldl_walk {X : Type} (f : Walk → X → Walk) (l : list X) (w : Walk) :
  (∀ w x, x ∈ l → walk_ok w → walk_ok (f w x) ∧ grows w (f w x)) → walk_ok w →
  walk_ok (foldl f w l) ∧ grows w (foldl f w l).
Proof.
  revert w. induction l as [|x l IH]; intros w Hf Hw; simpl; [split; [done|reflexivity]|].
  destruct (Hf w x) as [Hw1 Hg1]; [by left|done|].
  destruct (IH (f w x)) as [Hw2 Hg2]; [|done|split; [done|by etrans]].
  intros w' y Hy. apply Hf. by right.
Qed.

Lemma collect_ok fuel n pid w :
  (n + fuel = MAX_DEPTH)%nat → descends n pid → walk_ok w →
  let w' := collect_tids_recursive proc fuel pid w in
  walk_ok w' ∧ grows w w' ∧ ((0 < fuel)%nat → full w' = false → pid ∈ w_visited w').
Proof.
  revert n pid w. induction fuel as [|fuel IH]; intros n pid w Hn Hd Hw; cbv zeta; cbn [collect_tids_recursive].
  { split_and!; [done|reflexivity|lia]. }
  destruct (full w || bool_decide (pid ∈ w_visited w)) eqn:Estop.
  { split_and!; [done|reflexivity|]. intros _ Hf. rewrite Hf in Estop. by apply bool_decide_eq_true in Estop. }
  apply orb_false_iff in Estop as [Ef Ev].
  set (w1 := {| w_tids := w_tids w; w_visited := {[pid]} ∪ w_visited w |}).
  destruct (add_tids_ok n pid w1 (thread_ids proc pid)) as (Hg & Hv & Hsize & Hsound & Hc);
    [lia|done|done|apply Hw|apply Hw|].
  set (w2 := foldl add_tid w1 (thread_ids proc pid)) in *.
  assert (Hw2 : walk_ok w2).
  { split; [done|done|]. intros Hf p tid. rewrite Hv. simpl. intros [->%elem_of_singleton|Hp]%elem_of_union Htid.
    - by apply Hc.
    - apply Hg. simpl. by apply (walk_complete _ Hw Ef p). }
  assert (Hg2 : grows w w2) by (etrans; [|exact Hg]; split; simpl; set_solver).
  destruct (foldl_walk (λ w tid, if full w then w
      else foldl (λ w child, collect_tids_recursive proc fuel child w) w (child_pids proc pid tid))
    (thread_ids proc pid) w2) as [Hw3 Hg3]; [|done|].
  - intros w' tid Htid Hw'. destruct (full w'); [split; [done|reflexivity]|]. apply foldl_walk; [|done].
    intros w'' child Hchild Hw''. destruct (IH (S n) child w'') as (? & ? & _); [lia|by eapply descends_child|done|].
    done.
  - split; [done|]. split; [by etrans|]. intros _ _. apply Hg3. rewrite Hv. simpl. set_solver.
Qed.
End walk.

(** All roots, and the sorted result. *)
Lemma collect_all_ok proc roots :
  let w := foldl (λ w pid, collect_tids_recursive proc MAX_DEPTH pid w) {| w_tids := ∅; w_visited := ∅ |} roots in
  walk_ok proc roots w ∧ (full w = false → ∀ pid, pid ∈ roots → pid ∈ w_visited w).
Proof.
  cbv zeta. set (w0 := {| w_tids := ∅; w_visited := ∅ |}).
  assert (Hw0 : walk_ok proc roots w0).
  { assert (size (w_tids w0) = 0%nat) as Hs by apply (size_empty (C := gset Z)).
    split; [rewrite Hs; unfold MAX_GAME_TIDS; lia|set_solver|set_solver]. }
  assert (Hgen : ∀ l w, (∀ pid, pid ∈ l → pid ∈ roots) → walk_ok proc roots w →
    let w' := foldl (λ w pid, collect_tids_recursive proc MAX_DEPTH pid w) w l in
    walk_ok proc roots w' ∧ grows w w' ∧ (full w' = false → ∀ pid, pid ∈ l → pid ∈ w_visited w')).
  { induction l as [|p l IH]; intros w Hl Hw; cbv zeta; cbn [foldl].
    { split_and!; [done|split; done|]. by intros _ pid ?%elem_of_nil. }
    destruct (collect_ok proc roots MAX_DEPTH 0 p w) as (Hw1 & Hg1 & Hv1); [done|apply descends_root, Hl; by left|done|].
    destruct (IH (collect_tids_recursive proc MAX_DEPTH p w)) as (Hw2 & Hg2 & Hv2); [|done|].
    { intros pid Hp. apply Hl. by right. }
    split; [done|]. split; [destruct Hg1, Hg2; split; by etrans|].
    intros Hf pid [->|Hp]%elem_of_cons; [|by apply Hv2]. apply Hg2, Hv1; [unfold MAX_DEPTH; lia|].
    destruct (full (collect_tids_recursive proc MAX_DEPTH p w)) eqn:E; [|done].
    by rewrite (full_grows _ _ Hg2 E) in Hf. }
  destruct (Hgen roots w0) as (? & _ & ?); done.
Qed.

Lemma u32_range n : is_u32 n → (0 <=? n) && (n <=? u32_max) = true.
Proof. unfold is_u32. rewrite andb_true_iff, !Z.leb_le. lia. Qed.
Lemma json_u32_u64 n : is_u32 n → json_u32 (json_u64 n) = Some n.
Proof. intros Hn. simpl. by rewrite u32_range. Qed.
Lemma u32_members l : Forall is_u32 l → mapM json_u32 (json_u64 <$> l) = Some l.
Proof.
  intros Hl. apply mapM_fmap_Forall_Some. eapply Forall_impl; [exact Hl|]. intros x. apply json_u32_u64.
Qed.

(** ** Theorems *)

(** What the agent writes is what the daemon reads: the derived reader, applied
    to the agent's session document, gives its session id, process, name, app
    id and processes, whatever else the document says. *)
Theorem session_doc_roundtrip (s : SessionManager) (t : Target)
    (Hpid : is_u32 (t_pid t)) (Hpids : Forall is_u32 (t_all_pids t))
    (Happ : ∀ id, t_steam_app_id t = Some id → is_u32 id) :
  session_info_of (session_doc s t)
  = Some {| si_session_id := session_id s; si_game_pid := t_pid t; si_game_name := t_display_name t;
            si_steam_app_id := t_steam_app_id t; si_game_pids := t_all_pids t |}.
Proof.
  unfold session_info_of, session_doc, object, json_get.
  destruct (t_steam_app_id t) as [id|]; simpl when_some; unfold map_of; simpl foldl;
    unfold map_insert, map_get; simpl;
    rewrite (u32_range (t_pid t) Hpid), ?u32_members by done; try done.
  by rewrite (u32_range id) by by apply Happ.
Qed.

(** The threads the daemon hands to the kernel filter: sorted, without
    repetitions, never more than the map holds, each the thread of a process at
    most four generations below a recorded one; and unless the limit is
    reached, every thread of every recorded process. *)
Theorem game_tids_exact (proc : ProcTree) (roots : list Z) :
  let l := collect_game_tids_from_proc proc roots in
  Sorted Z.lt l ∧ (length l ≤ MAX_GAME_TIDS)%nat
  ∧ (∀ tid, tid ∈ l → ∃ n pid, (n ≤ 4)%nat ∧ descends proc roots n pid ∧ tid ∈ thread_ids proc pid)
  ∧ ((length l < MAX_GAME_TIDS)%nat → ∀ pid tid, pid ∈ roots → tid ∈ thread_ids proc pid → tid ∈ l).
Proof.
  cbv zeta. unfold collect_game_tids_from_proc.
  destruct (collect_all_ok proc roots) as [[Hsize Hsound Hcomplete] Hroots].
  set (w := foldl _ _ roots) in *.
  assert (Hperm := merge_sort_Permutation Z.le (elements (w_tids w))).
  assert (Hlen : length (merge_sort Z.le (elements (w_tids w))) = size (w_tids w)) by (by rewrite Hperm).
  assert (Hin : ∀ tid, tid ∈ merge_sort Z.le (elements (w_tids w)) ↔ tid ∈ w_tids w)
    by (intros tid; rewrite Hperm; apply elem_of_elements).
  rewrite Hlen. split_and!.
  - pose proof (Sorted_merge_sort Z.le (elements (w_tids w))) as Hs.
    assert (Hnd : NoDup (merge_sort Z.le (elements (w_tids w)))) by (rewrite Hperm; apply NoDup_elements).
    revert Hs Hnd. generalize (merge_sort Z.le (elements (w_tids w))). clear.
    induction 1 as [|x l Hl IH Hx]; [constructor|]. intros [Hni Hnd]%NoDup_cons. constructor; [by apply IH|].
    destruct Hx as [|y l Hxy]; constructor. assert (x ≠ y) by (intros ->; apply Hni; by left). lia.
  - done.
  - intros tid (n & pid & Hn & Hd & Ht)%Hin%Hsound. exists n, pid. unfold MAX_DEPTH in Hn. split_and!; [lia|done..].
  - intros Hlt pid tid Hp Ht. apply Hin. assert (full w = false) as Hf by by apply Nat.leb_gt.
    by apply (Hcomplete Hf pid); [apply Hroots|].
Qed.

(** C19: The agent's session reaches the daemon: once the file holds the text of the
    document written for a target, the next event about the file, or the
    timeout while no session is active, makes the shared state this session, and
    hands it to the loader unless its channel is full; an event about the file
    while it is gone ends the session. *)
Theorem session_reaches_daemon (from_str : string → option json) (w : Watcher) (l : Look)
    (s : SessionManager) (t : Target) (text : string) (kind : EventKind)
    (Hpid : is_u32 (t_pid t)) (Hpids : Forall is_u32 (t_all_pids t))
    (Happ : ∀ id, t_steam_app_id t = Some id → is_u32 id)
    (Hthere : file_exists l = true) (Hcontent : file_content l = Some text)
    (Htext : from_str text = Some (session_doc s t)) (Hkind : kind ≠ Other) (ev : Wake)
    (Hev : ev = FileEvent true kind ∨ ev = Timeout ∧ active (shared w) = false) :
  let w' := wake from_str w ev l in
  (active (shared w') = true
   ∧ ∃ i, info (shared w') = Some i ∧ si_session_id i = session_id s ∧ si_game_pid i = t_pid t
          ∧ si_steam_app_id i = t_steam_app_id t
          ∧ si_game_pids i = (match t_all_pids t with [] => [t_pid t] | pids => pids end)
          ∧ tids (shared w') = fst (discover_game_tids_from_proc (proc_now l) i))
  ∧ ((length (channel w) < CHANNEL_CAPACITY)%nat → last (channel w') = Some (shared w')).
Proof.
  pose (i0 := {| si_session_id := session_id s; si_game_pid := t_pid t; si_game_name := t_display_name t;
                si_steam_app_id := t_steam_app_id t; si_game_pids := t_all_pids t |}).
  pose (i := match si_game_pids i0 with [] => with_pids i0 [si_game_pid i0] | _ => i0 end).
  assert (Hlook : look from_str l
    = Some {| active := true; info := Some i; tids := fst (discover_game_tids_from_proc (proc_now l) i) |}).
  { unfold look, active_session_state, read_session. rewrite Hcontent. simpl. rewrite Htext. simpl.
    by rewrite (session_doc_roundtrip s t Hpid Hpids Happ). }
  assert (Hw : wake from_str w ev l
    = publish_state w {| active := true; info := Some i; tids := fst (discover_game_tids_from_proc (proc_now l) i) |}).
  { destruct Hev as [->|[-> Hidle]]; unfold wake; rewrite ?Hidle, ?Hthere, Hlook; by destruct kind. }
  cbv zeta. rewrite Hw. split.
  - split; [done|]. exists i. unfold i, i0. by destruct (t_all_pids t).
  - intros Hc. unfold publish_state. simpl. rewrite (proj2 (Nat.ltb_lt _ _) Hc). by rewrite last_snoc.
Qed.

(** The two programs agree on the file only when the daemon's environment has
    no runtime directory. *)
Lemma runtime_dir_elsewhere :
  session_file_path None = session_json_file_path
  ∧ session_file_path (Some "/run/user/1000") ≠ session_json_file_path.
Proof. split; [reflexivity|]. vm_compute. discriminate. Qed.

(** A recorded process that is first met four generations below another one is
    not expanded: its children are not found, although they are one generation
    below a recorded process. *)
Definition chain_proc : ProcTree := {|
  proc_entries := None;
  task_entries pid := Some [show pid];
  children_of pid tid := if (1 <=? pid) && (pid <=? 5) then Some (show (pid + 1)) else None;
  environ_of _ := None |}.
Lemma descendant_root_not_expanded :
  collect_game_tids_from_proc chain_proc [1; 5] = [1; 2; 3; 4; 5]
  ∧ collect_game_tids_from_proc chain_proc [5; 1] = [1; 2; 3; 4; 5; 6].
Proof. split; vm_compute; reflexivity. Qed.

(** ** Examples *)

Definition demo_session : SessionManager := new_with_label_and_settings "id-1" "t" None None.

Lemma session_doc_roundtrip_witness :
  is_u32 (t_pid demo_target)
  ∧ session_info_of (session_doc demo_session demo_target)
    = Some {| si_session_id := "id-1"; si_game_pid := 12; si_game_name := "Dota 2"; si_steam_app_id := Some 570;
              si_game_pids := [11; 12; 13] |}.
Proof.
  assert (Hp : is_u32 (t_pid demo_target)) by (vm_compute; split; discriminate).
  split; [exact Hp|]. apply (session_doc_roundtrip demo_session demo_target Hp).
  - repeat constructor; discriminate.
  - intros id [= <-]. vm_compute. split; discriminate.
Defined.

Definition demo_look : Look := {|
  file_exists := true; file_content := Some "doc"; proc_now := chain_proc |}.
Definition demo_reader (text : string) : option json :=
  if String.eqb text "doc" then Some (session_doc demo_session demo_target) else None.
Definition idle_watcher : Watcher := {| shared := no_session; channel := [] |}.

Lemma session_reaches_daemon_witness :
  let w := wake demo_reader idle_watcher Timeout demo_look in
  active (shared w) = true ∧ last (channel w) = Some (shared w).
Proof.
  destruct (session_reaches_daemon demo_reader idle_watcher demo_look demo_session demo_target "doc" Modify
    ltac:(vm_compute; split; discriminate) ltac:(repeat constructor; discriminate)
    ltac:(intros id [= <-]; vm_compute; split; discriminate) eq_refl eq_refl eq_refl ltac:(discriminate)
    Timeout ltac:(right; split; reflexivity)) as [[Hactive _] Hlast].
  split; [exact Hactive|]. apply Hlast. vm_compute. lia.
Defined.
