(* ===== verification/ConnectionLog.v ===== *)
(** * Lines of the remote-connections log ([src/remote_connections.rs])

    Parsing a line of Steam's connection log, the document it becomes, and the
    identifier it gets, with the peer's id and name replaced by pseudonyms or
    left out.  Calendar and time zone are arguments. *)
From Stdlib Require Import Ascii.
From S2P Require Import Prelude Sha256 Float64 EsModel Json FileSystem GameScan Session.

(** ** Fields *)

(** The slices of a line; of the two that are redacted, also where they are. *)
Record ParsedFields := {
  pf_timestamp : string;
  pf_peer_id : string;
  pf_peer_id_start : nat;
  pf_peer_name : string;
  pf_peer_name_start : nat;
  pf_transition : string;
  pf_via : option string;
}.

(** [line.get(1..end)] of the text before [end]: [None] unless the first
    character is one byte. *)
Definition after_first_byte (before : string) : option string :=
  match before with
  | EmptyString => None
  | String _ rest =>
      match rest with
      | String c _ => if is_continuation c then None else Some rest
      | EmptyString => Some rest
      end
  end.

Definition CLIENT_MARK : string := "] Client ".

(** The transition and the transport, after the peer. *)
Definition transition_of (rest : string) : option (string * option string) :=
  match split_once " via " rest with
  | Some (transition, via) => if is_empty via then None else Some (transition, Some via)
  | None =>
      let transition := match split_once ":" rest with Some (t, _) => t | None => rest end in
      Some (trim_end transition, None)
  end.

Definition parse_fields (line : string) : option ParsedFields :=
  let! (before, rest) := split_once CLIENT_MARK line in
  let! timestamp := after_first_byte before in
  let! (peer_id, rest) := split_once " (" rest in
  if is_empty peer_id || negb (all_bytes is_ascii_digit peer_id) then None
  else
    let peer_id_start := (String.length before + String.length CLIENT_MARK)%nat in
    let! (peer_name, rest) := split_once ") " rest in
    let! (transition, via) := transition_of rest in
    if String.eqb transition "connected" || String.eqb transition "disconnected" then
      Some {| pf_timestamp := timestamp; pf_peer_id := peer_id; pf_peer_id_start := peer_id_start;
              pf_peer_name := peer_name; pf_peer_name_start := peer_id_start + String.length peer_id + 2;
              pf_transition := transition; pf_via := via |}
    else None.

(** ** Identity *)

Definition PEER_ID_DOMAIN : bytes := bytes_of ("rigsignal.peer.id" +:+ str1 "000"%char).
Definition PEER_NAME_DOMAIN : bytes := bytes_of ("rigsignal.peer.name" +:+ str1 "000"%char).
Definition REDACTED : string := "[peer-redacted]".
Definition UNPARSEABLE : string := "[unparseable-remote-connections-line]".

(** The peer's id and name as the line's identity sees them. *)
Definition peer_marks (peer_key : option bytes) (p : ParsedFields) : string * string :=
  match peer_key with
  | Some key => (peer_pseudonym key PEER_ID_DOMAIN (bytes_of (pf_peer_id p)),
                 peer_pseudonym key PEER_NAME_DOMAIN (bytes_of (pf_peer_name p)))
  | None => (REDACTED, REDACTED)
  end.

Definition identity_line_source (raw : string) (peer_key : option bytes) : string :=
  let line := from_utf8_lossy raw in
  match parse_fields line with
  | None => UNPARSEABLE
  | Some p =>
      let peer_id_end := (pf_peer_id_start p + String.length (pf_peer_id p))%nat in
      let peer_name_end := (pf_peer_name_start p + String.length (pf_peer_name p))%nat in
      let (peer_id, peer_name) := peer_marks peer_key p in
      take_bytes (pf_peer_id_start p) line +:+ peer_id
      +:+ take_bytes (pf_peer_name_start p - peer_id_end) (drop_bytes peer_id_end line) +:+ peer_name
      +:+ drop_bytes peer_name_end line
  end.

(** [u64::to_ne_bytes] on a little-endian machine. *)
Definition ne_bytes (x : Z) : bytes := (λ i, Z.land (Z.shiftr x (8 * Z.of_nat i)) 255) <$> seq 0 8.

Definition line_identity (host : string) (dev ino offset : Z) (raw : string) (peer_key : option bytes) : string :=
  rc_sha256_hex (bytes_of host ++ ne_bytes dev ++ ne_bytes ino ++ ne_bytes offset
                 ++ bytes_of (identity_line_source raw peer_key)).

(** ** Document *)

(** [LocalResult]. *)
Inductive LocalResult := Single (utc : Z) | Ambiguous (first second : Z) | NoSuchTime.

(** [chrono]: parsing a naive time, placing it in the local zone, rendering an
    instant. *)
Record Calendar := {
  parse_naive : string → option Z;
  from_local : Z → LocalResult;
  render_millis : Z → string;
}.

Definition earlier_utc (first second : Z) : Z := if first <=? second then first else second.

Definition transport_of (via : string) : string :=
  if String.eqb via "direct connection" then "direct"
  else if String.eqb via "relay connection" then "relay"
  else "unknown".

(** [trim_end_matches('\r')]. *)
Definition trim_cr (line : string) : string := trim_end_matches (String.eqb (str1 "013"%char)) line.

Section document.
Context `{Unicode} (calendar : Calendar) (agent_version hostname : string) (peer_key : option bytes).

Definition client_doc (p : ParsedFields) : json :=
  object ([("event", JString (pf_transition p))]
          ++ match pf_via p with
             | Some via => if is_empty via then [] else [("transport", JString (transport_of via))]
             | None => []
             end
          ++ when_some "peer" (λ key,
               object [("id", JString (peer_pseudonym key PEER_ID_DOMAIN (bytes_of (pf_peer_id p))));
                       ("name", JString (peer_pseudonym key PEER_NAME_DOMAIN (bytes_of (pf_peer_name p))))]) peer_key).

Definition session_members (s : SessionManager) : list (string * json) :=
  match current_game s with
  | None => []
  | Some game =>
      [("session", object ([("id", JString (session_id s))] ++ when_some "label" JString (label s)
                           ++ [("agent_version", JString agent_version)]));
       ("game", JObject (target_to_game_doc game))]
  end.

Definition event_types (transition : string) : json :=
  JArray [JString "connection"; JString (if String.eqb transition "connected" then "start" else "end")].

Definition event_doc (timestamp : string) (p : ParsedFields) (s : SessionManager) : json :=
  object [("@timestamp", JString timestamp);
          ("data_stream", object [("type", JString "logs"); ("dataset", JString "rigsignal.events");
                                  ("namespace", JString "default")]);
          ("host", object [("name", JString (normalize_hostname hostname))]);
          ("event", object [("kind", JString "event"); ("category", JArray [JString "network"]);
                            ("type", event_types (pf_transition p))]);
          ("rigsignal", object (("stream", object [("client", client_doc p)]) :: session_members s))].

(** The fields of a line and the instant of its time; the session has no part
    in them. *)
Definition dated_fields (raw : string) : option (Z * ParsedFields) :=
  let! p := parse_fields (trim_cr (from_utf8_lossy raw)) in
  let! local := parse_naive calendar (pf_timestamp p) in
  match from_local calendar local with
  | Single value => Some (value, p)
  | Ambiguous first second => Some (earlier_utc first second, p)
  | NoSuchTime => None
  end.
Definition parse_document (raw : string) (s : SessionManager) : option json :=
  let! (timestamp, p) := dated_fields raw in
  Some (event_doc (render_millis calendar timestamp) p s).
End document.

(** ** Well-formed lines *)

(** The separator is first found after [a]. *)
Lemma split_once_at sep a b :
  (∀ a1 a2, a = a1 +:+ a2 → a2 ≠ EmptyString → strip_prefix sep (a2 +:+ sep +:+ b) = None) →
  split_once sep (a +:+ sep +:+ b) = Some (a, b).
Proof.
  induction a as [|c a IH]; intros Hno.
  - change (EmptyString +:+ sep +:+ b) with (sep +:+ b). pose proof (strip_prefix_app sep b) as Hs.
    destruct (sep +:+ b) as [|d r]; cbn [split_once]; by rewrite Hs.
  - change (String c a +:+ sep +:+ b) with (String c (a +:+ sep +:+ b)). cbn [split_once].
    pose proof (Hno EmptyString (String c a) eq_refl) as Hc.
    change (String c a +:+ sep +:+ b) with (String c (a +:+ sep +:+ b)) in Hc. rewrite Hc by done.
    rewrite IH; [done|]. intros a1 a2 -> Hne. by apply (Hno (String c a1) a2).
Qed.

(** ... when its first byte is not in [a]. *)
Lemma split_once_byte c sep a b :
  any_byte (Ascii.eqb c) a = false → split_once (String c sep) (a +:+ String c sep +:+ b) = Some (a, b).
Proof.
  intros Ha. apply split_once_at. intros a1 [|d a2] -> Hne; [done|].
  rewrite any_byte_app in Ha. apply orb_false_iff in Ha as [_ Ha]. simpl in Ha. apply orb_false_iff in Ha as [Hd _].
  change (String d a2 +:+ String c sep +:+ b) with (String d (a2 +:+ String c sep +:+ b)).
  unfold strip_prefix. by rewrite Hd.
Qed.

(** ... or when the two bytes of the separator differ and do not occur in [a]. *)
Lemma split_once_pair c d a b :
  c ≠ d → contains (String c (str1 d)) a = false →
  split_once (String c (str1 d)) (a +:+ String c (str1 d) +:+ b) = Some (a, b).
Proof.
  intros Hcd Ha. apply split_once_at. intros a1 [|x [|y a2]] -> Hne; [done| |].
  - change (String x EmptyString +:+ String c (str1 d) +:+ b) with (String x (String c (String d b))).
    unfold strip_prefix, str1. destruct (Ascii.eqb_spec c x); [|done]. by destruct (Ascii.eqb_spec d c).
  - assert (Hs : contains (String c (str1 d)) (String x (String y a2)) = false).
    { clear Hne. induction a1 as [|z a1 IH]; [done|]. apply IH.
      change (String z a1 +:+ String x (String y a2)) with (String z (a1 +:+ String x (String y a2))) in Ha.
      cbn [contains] in Ha. by apply orb_false_iff in Ha as [_ Ha]. }
    cbn [contains] in Hs. apply orb_false_iff in Hs as [Hs _]. unfold starts_with in Hs.
    change (String x (String y a2) +:+ String c (str1 d) +:+ b) with (String x (String y (a2 +:+ String c (str1 d) +:+ b))).
    unfold strip_prefix, str1 in *. destruct (Ascii.eqb c x); [|done]. by destruct (Ascii.eqb d y).
Qed.

(** A line as Steam writes it: time, peer id and name, and what happened. *)
Definition log_line (timestamp peer_id peer_name what : string) : string :=
  "[" +:+ timestamp +:+ CLIENT_MARK +:+ peer_id +:+ " (" +:+ peer_name +:+ ") " +:+ what.

(** Its parts: the time has no bracket, the id is digits, the name does not
    hold what ends it. *)
Record proper_parts (timestamp peer_id peer_name : string) : Prop := {
  proper_timestamp : any_byte (Ascii.eqb "]") timestamp = false ∧ (∀ c r, timestamp = String c r → is_continuation c = false);
  proper_id : is_empty peer_id = false ∧ all_bytes is_ascii_digit peer_id = true;
  proper_name : contains ") " peer_name = false;
}.

Lemma digits_no_space s : all_bytes is_ascii_digit s = true → any_byte (Ascii.eqb " ") s = false.
Proof.
  induction s as [|c s IH]; cbn [all_bytes any_byte]; [done|]. intros [Hc Hs]%andb_true_iff.
  rewrite (IH Hs), orb_false_r. destruct (Ascii.eqb_spec " " c) as [<-|]; [discriminate Hc|done].
Qed.

Definition id_start (timestamp : string) : nat := (1 + String.length timestamp + String.length CLIENT_MARK)%nat.

Lemma parse_log_line timestamp peer_id peer_name what :
  proper_parts timestamp peer_id peer_name →
  parse_fields (log_line timestamp peer_id peer_name what)
  = match transition_of what with
    | Some (transition, via) =>
        if String.eqb transition "connected" || String.eqb transition "disconnected" then
          Some {| pf_timestamp := timestamp; pf_peer_id := peer_id; pf_peer_id_start := id_start timestamp;
                  pf_peer_name := peer_name;
                  pf_peer_name_start := id_start timestamp + String.length peer_id + 2;
                  pf_transition := transition; pf_via := via |}
        else None
    | None => None
    end.
Proof.
  intros [[Ht Hc] [Hi Hd] Hn]. unfold parse_fields, log_line, CLIENT_MARK.
  change ("[" +:+ timestamp +:+ "] Client " +:+ peer_id +:+ " (" +:+ peer_name +:+ ") " +:+ what)
    with (String "[" timestamp +:+ String "]" " Client " +:+ (peer_id +:+ String " " "(" +:+ (peer_name +:+ String ")" (str1 " ") +:+ what))).
  rewrite split_once_byte by (simpl; by rewrite Ht).
  assert (after_first_byte (String "[" timestamp) = Some timestamp) as ->.
  { unfold after_first_byte. destruct timestamp as [|c r]; [done|]. by rewrite (Hc c r eq_refl). }
  rewrite split_once_byte by by apply digits_no_space. rewrite Hi, Hd. cbn [orb negb].
  change ") " with (String ")" (str1 " ")). rewrite (split_once_pair ")" " " peer_name what) by (discriminate || exact Hn).
  destruct (transition_of what) as [[transition via]|]; [|done]. done.
Qed.

(** The identity of such a line is that of the line with the peer's id and name
    replaced. *)
Lemma identity_log_line timestamp peer_id peer_name what key :
  proper_parts timestamp peer_id peer_name → is_utf8 (log_line timestamp peer_id peer_name what) = true →
  identity_line_source (log_line timestamp peer_id peer_name what) key
  = match parse_fields (log_line timestamp peer_id peer_name what) with
    | Some p => let (i, n) := peer_marks key p in log_line timestamp i n what
    | None => UNPARSEABLE
    end.
Proof.
  intros Hp Hutf. apply String.eqb_eq in Hutf. unfold identity_line_source. rewrite Hutf.
  rewrite (parse_log_line _ _ _ _ Hp). destruct (transition_of what) as [[transition via]|]; [|done].
  destruct (_ || _); [|done]. cbn [pf_peer_id pf_peer_id_start pf_peer_name pf_peer_name_start].
  destruct (peer_marks key _) as [i n]. unfold log_line.
  set (head := "[" +:+ timestamp +:+ CLIENT_MARK).
  assert (Hhead : ∀ x, "[" +:+ timestamp +:+ CLIENT_MARK +:+ x = head +:+ x) by (intros x; unfold head; by rewrite !str_app_assoc).
  rewrite !Hhead. assert (Hlen : id_start timestamp = String.length head).
  { unfold id_start, head. rewrite !length_str_app. simpl. lia. }
  rewrite Hlen, take_bytes_app. f_equal. f_equal.
  replace (String.length head + String.length peer_id + 2 - (String.length head + String.length peer_id))%nat with 2%nat by lia.
  rewrite <-drop_drop_bytes, drop_bytes_app, drop_bytes_app.
  rewrite <-(drop_drop_bytes _ (String.length head + String.length peer_id + 2)), <-Nat.add_assoc, <-drop_drop_bytes, drop_bytes_app.
  change 2%nat with (String.length " ("). rewrite take_bytes_app. f_equal. f_equal.
  rewrite <-drop_drop_bytes, drop_bytes_app, drop_bytes_app. by rewrite drop_bytes_app.
Qed.

Lemma trim_cr_none line : any_byte (Ascii.eqb "013") line = false → trim_cr line = line.
Proof.
  intros Hcr. unfold trim_cr, trim_end_matches, drop_while_end.
  rewrite drop_while_none, rev_involutive; [apply concat_chars|]. apply Forall_rev.
  rewrite <-(concat_chars line), any_byte_concat in Hcr. revert Hcr. generalize (chars line).
  induction l as [|c l IH]; [constructor|]. cbn [existsb]. intros [Hc Hl]%orb_false_iff. constructor; [|by apply IH].
  destruct (String.eqb_spec (str1 "013") c) as [<-|]; [discriminate Hc|done].
Qed.

(** ** Theorems *)

(** C33: What the peer is called does not get out: two well-formed lines that differ
    only in the peer's id and name give the same document and the same document
    identifier when there is no key, and also with a key whenever their
    pseudonyms agree; the id and the name enter through nothing else. *)
Theorem peer_only_by_pseudonym `{Unicode} (calendar : Calendar) (agent_version hostname : string)
    (key : option bytes) (s : SessionManager) (dev ino offset : Z) (timestamp what : string)
    (id1 name1 id2 name2 : string)
    (H1 : proper_parts timestamp id1 name1) (H2 : proper_parts timestamp id2 name2)
    (Hutf1 : is_utf8 (log_line timestamp id1 name1 what) = true)
    (Hutf2 : is_utf8 (log_line timestamp id2 name2 what) = true)
    (Hcr1 : any_byte (Ascii.eqb "013") (log_line timestamp id1 name1 what) = false)
    (Hcr2 : any_byte (Ascii.eqb "013") (log_line timestamp id2 name2 what) = false)
    (Hkey : match key with
            | Some k => peer_pseudonym k PEER_ID_DOMAIN (bytes_of id1) = peer_pseudonym k PEER_ID_DOMAIN (bytes_of id2)
                        ∧ peer_pseudonym k PEER_NAME_DOMAIN (bytes_of name1)
                          = peer_pseudonym k PEER_NAME_DOMAIN (bytes_of name2)
            | None => True
            end) :
  parse_document calendar agent_version hostname key (log_line timestamp id1 name1 what) s
  = parse_document calendar agent_version hostname key (log_line timestamp id2 name2 what) s
  ∧ line_identity hostname dev ino offset (log_line timestamp id1 name1 what) key
    = line_identity hostname dev ino offset (log_line timestamp id2 name2 what) key.
Proof.
  assert (Hl1 := Hutf1). assert (Hl2 := Hutf2). apply String.eqb_eq in Hl1, Hl2. split.
  - unfold parse_document, dated_fields. rewrite Hl1, Hl2, !trim_cr_none, !parse_log_line by done.
    destruct (transition_of what) as [[transition via]|]; [|done]. destruct (_ || _); [|done]. simpl.
    destruct (parse_naive calendar timestamp) as [local|]; [|done]. simpl.
    destruct (from_local calendar local); simpl; try done; unfold event_doc, client_doc; simpl;
      (destruct key as [k|]; simpl; [|done]); by destruct Hkey as [-> ->].
  - unfold line_identity. rewrite !identity_log_line, !parse_log_line by done.
    destruct (transition_of what) as [[transition via]|]; [|done]. destruct (_ || _); [|done].
    unfold peer_marks. simpl. destruct key as [k|]; [|done]. by destruct Hkey as [-> ->].
Qed.

(** A name that holds a parenthesis and a space hides the line: nothing is
    recognised in it. *)
Lemma parenthesised_name_unrecognised :
  parse_fields (log_line "2026-05-02 10:00:00" "123" "Bob (x) y" "connected via direct connection") = None.
Proof. reflexivity. Qed.

Example parse_disconnect :
  pf_transition <$> parse_fields (log_line "2026-05-02 10:00:00" "123" "Bob" "disconnected: disconnecting all")
  = Some "disconnected".
Proof. reflexivity. Qed.

Definition demo_calendar : Calendar := {|
  parse_naive s := if String.eqb s "2026-05-02 10:00:00" then Some 0 else None;
  from_local := Single; render_millis := show |}.
Definition demo_manager : SessionManager := new_with_label_and_settings "id-1" "t" None None.

Lemma peer_only_by_pseudonym_witness :
  @parse_document ascii_unicode demo_calendar "1" "host" None
    (log_line "2026-05-02 10:00:00" "123" "Bob" "connected via direct connection") demo_manager
  = @parse_document ascii_unicode demo_calendar "1" "host" None
    (log_line "2026-05-02 10:00:00" "77" "Eve" "connected via direct connection") demo_manager.
Proof.
  refine (proj1 (@peer_only_by_pseudonym ascii_unicode demo_calendar "1" "host" None demo_manager 1 2 3
    "2026-05-02 10:00:00" "connected via direct connection" "123" "Bob" "77" "Eve" _ _ _ _ _ _ _));
    try (vm_compute; reflexivity); try exact I;
    (split; [split; [reflexivity|intros c r Hcr; injection Hcr as <- _; reflexivity]|split; reflexivity|reflexivity]).
Defined.
