(* ===== verification/Tailer.v ===== *)
(** * The remote-connections tailer ([src/remote_connections.rs])

    [RemoteConnectionsTailer]: polling the log and its rotated generations,
    the batch in flight, its acknowledgement, and the checkpoint file; and the
    tick of the main loop that ships a batch.  What a poll sees of the log
    directory is an argument per round, like the faults that hit it. *)
From Stdlib Require Import Ascii.
From S2P Require Import Prelude Sha256 Float64 EsModel Json FileSystem StateOp GameScan Session Delivery Bulk ConnectionLog.

(** ** State *)

Definition MAX_LINE_BYTES : Z := 65536.
Definition MAX_BATCH_LINES : Z := 100.
Definition MAX_BATCH_BYTES : Z := 262144.

Record TailToken := { tk_dev : Z; tk_ino : Z; tk_start : Z; tk_end : Z }.
#[export] Instance TailToken_eq_dec : EqDecision TailToken.
Proof. solve_decision. Defined.

Record EventEnvelope := { en_document : json; en_id : string; en_token : TailToken }.

Record TailState := { ts_path : Path; ts_dev : Z; ts_ino : Z; ts_offset : Z }.
Definition with_offset (s : TailState) (offset : Z) : TailState :=
  {| ts_path := ts_path s; ts_dev := ts_dev s; ts_ino := ts_ino s; ts_offset := offset |}.

Record Tailer := {
  log_path : Path;
  state_path : Path;
  tl_hostname : string;
  peer_key : option bytes;
  tl_state : option TailState;
  inflight : option TailToken;
  oversize_warned : bool;
}.
Definition with_state (t : Tailer) (s : option TailState) : Tailer :=
  {| log_path := log_path t; state_path := state_path t; tl_hostname := tl_hostname t; peer_key := peer_key t;
     tl_state := s; inflight := inflight t; oversize_warned := oversize_warned t |}.
Definition with_inflight (t : Tailer) (i : option TailToken) : Tailer :=
  {| log_path := log_path t; state_path := state_path t; tl_hostname := tl_hostname t; peer_key := peer_key t;
     tl_state := tl_state t; inflight := i; oversize_warned := oversize_warned t |}.
Definition with_warned (t : Tailer) (b : bool) : Tailer :=
  {| log_path := log_path t; state_path := state_path t; tl_hostname := tl_hostname t; peer_key := peer_key t;
     tl_state := tl_state t; inflight := inflight t; oversize_warned := b |}.

(** The tailer, the file system of its checkpoint, and every file system that
    was there to be seen, latest first. *)
Record TailWorld := { tailer : Tailer; disk : FS; seen : list FS }.
Definition set_tailer (w : TailWorld) (t : Tailer) : TailWorld := {| tailer := t; disk := disk w; seen := seen w |}.
Abbreviation TailOp A := (StateOp TailWorld A).

(** ** The pseudonymization key *)

(** What is found where the key is kept. *)
Inductive KeyView :=
| NoKey (error : string)
| KeyError (error : string)
| KeyFile (is_file : bool) (mode uid : Z) (content : result bytes string).

Definition key_metadata_is_acceptable (is_file : bool) (mode uid euid : Z) : bool :=
  is_file && (Z.land mode 511 =? 384) && (uid =? euid).

(** The error says whether it is [NotFound]. *)
Definition read_peer_key (euid : Z) (view : KeyView) : result bytes (bool * string) :=
  match view with
  | NoKey e => Err (true, e)
  | KeyError e => Err (false, e)
  | KeyFile is_file mode uid content =>
      if negb (key_metadata_is_acceptable is_file mode uid euid) then
        Err (false, "peer pseudonymization key is not an owner-only regular file")
      else
        match content with
        | Err e => Err (false, e)
        | Ok key =>
            if (length key <? 32)%nat then Err (false, "failed to fill whole buffer")
            else if (32 <? length key)%nat then Err (false, "peer pseudonymization key has invalid length")
            else Ok key
        end
  end.

(** The creation of an entry that must be new. *)
Inductive Creation := Created | AlreadyThere | NotCreated (error : string).

(** What happens on the way, step by step. *)
Record KeySetup := {
  first_look : KeyView;
  key_parent : option (option unit);
  parents_made : result unit string;
  directory_made : Creation;
  directory_restricted : result unit string;
  random_bytes : result bytes string;
  key_made : Creation;
  other_look : KeyView;
  key_written : result unit string;
  key_restricted : result unit string;
  last_look : KeyView;
}.

Definition load_or_create_peer_key (euid : Z) (k : KeySetup) : result bytes string :=
  let reread view := map_err snd (read_peer_key euid view) in
  match read_peer_key euid (first_look k) with
  | Ok key => Ok key
  | Err (false, e) => Err e
  | Err (true, _) =>
      let? directory := ok_or (key_parent k) "peer pseudonymization key has no parent" in
      let? _ := ok_or directory "peer pseudonymization key directory has no parent" in
      let? _ := parents_made k in
      let? _ := match directory_made k with
                | Created => directory_restricted k
                | AlreadyThere => Ok tt
                | NotCreated e => Err e
                end in
      let? _ := random_bytes k in
      match key_made k with
      | AlreadyThere => reread (other_look k)
      | NotCreated e => Err e
      | Created => let? _ := key_written k in let? _ := key_restricted k in reread (last_look k)
      end
  end.

(** ** Starting *)

Definition checkpoint_path (xdg_state_home home : option string) : Path :=
  match xdg_state_home, home with
  | Some base, _ => path_from (join_path base "rigsignal/stream-client-tail.json")
  | None, Some home => path_from (join_path home ".local/state/rigsignal/stream-client-tail.json")
  | None, None => path_from "/var/lib/rigsignal/stream-client-tail.json"
  end.
Definition default_log_path (home : option string) : Path :=
  match home with
  | Some home => path_from (join_path home ".local/share/Steam/logs/remote_connections.txt")
  | None => path_from "/var/lib/rigsignal/remote_connections.txt"
  end.

(** The checkpoint file as [fs::read] finds it. *)
Inductive CheckpointView := NoCheckpoint | CheckpointBytes (content : string) | CheckpointError (error : string).

Definition with_paths_and_key (from_slice : string → result TailState string) (hostname : string) (log_path state_path : Path)
    (key : option bytes) (view : CheckpointView) : result Tailer string :=
  let? state :=
    match view with
    | CheckpointBytes content =>
        match from_slice content with Ok s => Ok (Some s) | Err e => Err ("parsing stream tail state: " +:+ e) end
    | NoCheckpoint => Ok None
    | CheckpointError e => Err e
    end in
  Ok {| log_path := log_path; state_path := state_path; tl_hostname := hostname; peer_key := key;
        tl_state := state; inflight := None; oversize_warned := false |}.

Definition new_tailer (from_slice : string → result TailState string) (euid : Z) (hostname : string)
    (xdg_state_home home : option string) (setup : KeySetup) (view : CheckpointView) : result Tailer string :=
  let key := match load_or_create_peer_key euid setup with Ok key => Some key | Err _ => None end in
  with_paths_and_key from_slice hostname (default_log_path home) (checkpoint_path xdg_state_home home) key view.

(** ** The log directory *)

Record LogFile := { lf_dev : Z; lf_ino : Z; lf_len : Z }.
Record Generation := { g_path : Path; g_dev : Z; g_ino : Z; g_len : Z }.

(** An entry of the directory: its name, whether it is a regular file, and its
    metadata. *)
Record LogEntry := {
  le_name : string;
  le_is_file : result bool string;
  le_meta : result (option LogFile) string;
}.

(** What one round sees: the metadata of the log ([None]: not there, or no
    file), the directory, the content behind a path when it is opened, and how
    much a read gives at most. *)
Record Glance := {
  stat_log : result (option LogFile) string;
  log_entries : result (list (result LogEntry string)) string;
  open_log : Path → result string string;
  read_most : nat;
}.
Record TailEnv := { te_glance : Glance; te_faults : Faults }.

Definition generation_of (p : Path) (meta : option LogFile) : option Generation :=
  (λ f, {| g_path := p; g_dev := lf_dev f; g_ino := lf_ino f; g_len := lf_len f |}) <$> meta.
Definition same_generation (dev ino : Z) (g : Generation) : bool := (dev =? g_dev g) && (ino =? g_ino g).

Section tailer.
(** [serde_json] on the checkpoint; the process id; [chrono]; the version. *)
Context (encode : TailState → result string string) (process_id : Z).
Context `{Unicode} (calendar : Calendar) (agent_version : string).

Definition get_tailer : TailOp Tailer := op_get tailer.
Definition modify_tailer (g : Tailer → Tailer) : TailOp unit := op_modify (λ w, set_tailer w (g (tailer w))).
Definition lift_io {A : Type} (m : IO A) : TailOp A :=
  λ w, let r := m (disk w) in
       ({| tailer := tailer w; disk := final r; seen := rev (visited r) ++ seen w |}, returned r).

(** ** Checkpoint *)

Definition temporary_path (dir : Path) : Path := path_join dir (".stream-client-tail-" +:+ show process_id +:+ ".tmp").

Definition write_checkpoint (f : Faults) (t : Tailer) : IO unit :=
  match tl_state t, parent (state_path t) with
  | None, _ => of_result (Err "persisting absent stream tail state")
  | _, None => of_result (Err "stream tail state has no parent")
  | Some state, Some dir =>
      let* _ := create_dir_all f "creating: " dir in
      let* _ := set_permissions f ChmodDir EmptyString dir in
      let* data := of_result (encode state) in
      let tmp := temporary_path dir in
      let* _ := fs_write f "tail-write" EmptyString tmp data in
      let* _ := attempt f (At "tail-sync") EmptyString (λ _, true) id tt in
      let* _ := set_permissions f ChmodTemp EmptyString tmp in
      let* _ := rename f Rename EmptyString tmp (state_path t) in
      attempt f (At "tail-dir-sync") EmptyString (λ _, true) id tt
  end.
Definition persist (f : Faults) : TailOp unit :=
  do* t := get_tailer in lift_io (write_checkpoint f t).
(** Moving the checkpoint in memory, then on disk. *)
Definition move_to (f : Faults) (s : TailState) : TailOp unit :=
  do* _ := modify_tailer (λ t, with_state t (Some s)) in persist f.

(** ** Rotation *)

Fixpoint search_entries (dir : Path) (name : string) (dev ino : Z) (entries : list (result LogEntry string))
  : result (option Generation) string :=
  match entries with
  | [] => Ok None
  | Err e :: _ => Err e
  | Ok entry :: rest =>
      if negb (is_utf8 (le_name entry) && starts_with (name +:+ ".") (le_name entry)) then
        search_entries dir name dev ino rest
      else
        let? is_file := le_is_file entry in
        if negb is_file then search_entries dir name dev ino rest
        else
          let? meta := le_meta entry in
          match generation_of (path_join dir (le_name entry)) meta with
          | Some g => if same_generation dev ino g then Ok (Some g) else search_entries dir name dev ino rest
          | None => search_entries dir name dev ino rest
          end
  end.
Definition find_rotated (glance : Glance) (t : Tailer) (dev ino : Z) : result (option Generation) string :=
  match parent (log_path t), path_file_name (log_path t) with
  | Some dir, Some name =>
      if is_utf8 name then
        let? entries := log_entries glance in search_entries dir name dev ino entries
      else Ok None
  | _, _ => Ok None
  end.

(** ** Reading *)

Definition READ_BUFFER : nat := Z.to_nat (MAX_BATCH_BYTES + MAX_LINE_BYTES + 1).

(** The lines that enter the batch, with their offsets in the buffer: complete
    lines, until either limit. *)
Fixpoint batch_lines (cursor lines : Z) (complete : list string) : list (Z * string) :=
  match complete with
  | [] => []
  | raw :: rest =>
      let next := cursor + slen raw + 1 in
      if (lines =? MAX_BATCH_LINES) || ((MAX_BATCH_BYTES <? next) && (0 <? lines)) then []
      else (cursor, raw) :: batch_lines next (lines + 1) rest
  end.
(** The complete lines of a buffer. *)
Definition complete_lines (buffer : string) : list string := removelast (split_char nl buffer).
(** Where the batch ends in the buffer. *)
Definition batch_end (lines : list (Z * string)) : Z :=
  match last lines with Some (cursor, raw) => cursor + slen raw + 1 | None => 0 end.

Definition oversize (line : Z * string) : bool := MAX_LINE_BYTES <? slen (snd line).

(** The envelope of a recognised line. *)
Definition line_event (t : Tailer) (source : Generation) (token : TailToken) (s : SessionManager) (line : Z * string)
  : option EventEnvelope :=
  if oversize line then None
  else
    (λ document,
      {| en_document := document;
         en_id := line_identity (tl_hostname t) (g_dev source) (g_ino source) (tk_start token + fst line) (snd line) (peer_key t);
         en_token := token |})
    <$> parse_document calendar agent_version (tl_hostname t) (peer_key t) (snd line) s.

Definition read_batch (env : TailEnv) (source : Generation) (state : TailState) (s : SessionManager)
  : TailOp (list EventEnvelope) :=
  do* content := op_result (open_log (te_glance env) (g_path source)) in
  let buffer := take_bytes (Nat.min READ_BUFFER (read_most (te_glance env)))
                  (drop_bytes (Z.to_nat (ts_offset state)) content) in
  let lines := batch_lines 0 0 (complete_lines buffer) in
  do* _ := modify_tailer (λ t, with_warned t (oversize_warned t || existsb oversize lines)) in
  match lines with
  | [] => op_ret []
  | _ =>
      let token := {| tk_dev := g_dev source; tk_ino := g_ino source; tk_start := ts_offset state;
                      tk_end := ts_offset state + batch_end lines |} in
      do* t := get_tailer in
      let envelopes := filter_map (line_event t source token s) lines in
      match envelopes with
      | [] =>
          match tl_state t with
          | Some state =>
              do* _ := op_catch (move_to (te_faults env) (with_offset state (tk_end token)))
                         (modify_tailer (λ t, with_state t (Some state))) in
              op_ret []
          | None => op_fail "state exists"
          end
      | _ =>
          do* _ := modify_tailer (λ t, with_inflight t (Some token)) in
          op_ret envelopes
      end
  end.

(** ** Polling *)

(** One round up to the choice of the source; [None]: the rounds goes on with
    the current generation from its start. *)
Definition poll_round (env : TailEnv) (s : SessionManager) : TailOp (option (list EventEnvelope)) :=
  let f := te_faults env in
  do* t := get_tailer in
  match inflight t with
  | Some _ => op_ret (Some [])
  | None =>
      do* meta := op_result (stat_log (te_glance env)) in
      match generation_of (log_path t) meta, tl_state t with
      | None, _ => op_ret (Some [])
      | Some current, None =>
          do* _ := move_to f {| ts_path := log_path t; ts_dev := g_dev current; ts_ino := g_ino current;
                                ts_offset := g_len current |} in
          op_ret (Some [])
      | Some current, Some state =>
          let fresh := {| ts_path := log_path t; ts_dev := g_dev current; ts_ino := g_ino current; ts_offset := 0 |} in
          do* _ := if same_generation (ts_dev state) (ts_ino state) current && (g_len current <? ts_offset state)
                   then move_to f (with_offset state 0) else op_ret tt in
          do* source :=
            if same_generation (ts_dev state) (ts_ino state) current then op_ret current
            else
              do* rotated := op_result (find_rotated (te_glance env) t (ts_dev state) (ts_ino state)) in
              match rotated with
              | Some g => op_ret g
              | None => do* _ := move_to f fresh in op_ret current
              end in
          do* t := get_tailer in
          match tl_state t with
          | None => op_fail "state set before source selection"
          | Some state =>
              if negb (same_generation (g_dev source) (g_ino source) current) && (g_len source <=? ts_offset state) then
                do* _ := move_to f fresh in op_ret None
              else
                do* events := read_batch env source state s in op_ret (Some events)
          end
      end
  end.

(** [poll]: each time the old generation is drained it starts over; [fuel]
    bounds how often. *)
Fixpoint poll (envs : nat → TailEnv) (fuel round : nat) (s : SessionManager) : TailOp (list EventEnvelope) :=
  match fuel with
  | O => op_fail "out of rounds"
  | S fuel =>
      do* events := poll_round (envs round) s in
      match events with
      | Some events => op_ret events
      | None => poll envs fuel (S round) s
      end
  end.

(** ** Acknowledgement *)

Definition ack_success (f : Faults) (token : TailToken) : TailOp unit :=
  do* t := get_tailer in
  match inflight t with
  | None => op_fail "remote_connections acknowledgement without an inflight batch"
  | Some current =>
      if negb (bool_decide (current = token)) then op_fail "remote_connections acknowledgement is out of order"
      else
        match tl_state t with
        | None => op_fail "inflight requires state"
        | Some state =>
            if negb ((ts_dev state =? tk_dev token) && (ts_ino state =? tk_ino token) && (ts_offset state =? tk_start token)) then
              op_fail "remote_connections acknowledgement does not match checkpoint generation"
            else
              do* _ := op_catch (move_to f (with_offset state (tk_end token)))
                         (modify_tailer (λ t, with_state t (Some state))) in
              modify_tailer (λ t, with_inflight t None)
        end
  end.

Definition nack : TailOp unit := modify_tailer (λ t, with_inflight t None).

(** ** The tick of the main loop *)

(** A result that is only logged. *)
Definition op_ignore {A : Type} (m : TailOp A) : TailOp (option A) :=
  λ w, let (w', r) := m w in (w', Ok (match r with Ok a => Some a | Err _ => None end)).

(** Poll, ship, and acknowledge a batch of which nothing failed; what was
    accepted is the result. *)
Definition tail_tick (to_string : json → result string string) (send : string → Reply)
    (envs : nat → TailEnv) (fuel : nat) (ack_faults : Faults) (s : SessionManager) : TailOp (list EventEnvelope) :=
  do* polled := op_ignore (poll envs fuel 0 s) in
  match polled with
  | Some ((first :: _) as events) =>
      let docs := (λ e, {| document := en_document e; sd_id := Some (en_id e) |}) <$> events in
      match ship_documents to_string send docs with
      | Ok r =>
          if failed r =? 0 then
            do* _ := op_ignore (ack_success ack_faults (en_token first)) in op_ret events
          else do* _ := nack in op_ret []
      | Err _ => do* _ := nack in op_ret []
      end
  | _ => op_ret []
  end.
End tailer.
