(* ===== verification/TailerSpec.v ===== *)
(** * The tailer delivers each line once ([src/remote_connections.rs])

    The lines of a growing log, what is accepted of them, and where the
    checkpoint may be, in memory and at every point on disk. *)
From Stdlib Require Import Ascii.
From S2P Require Import Prelude Sha256 Float64 EsModel Json FileSystem StateOp GameScan Session Delivery Bulk.
From S2P Require Import ConnectionLog Tailer.

(** ** Lines of a text *)

Definition text_of (lines : list string) : string := concat_str ((λ l, l +:+ str1 nl) <$> lines).
(** Lines with the offset of their first byte. *)
Fixpoint at_offsets (start : Z) (lines : list string) : list (Z * string) :=
  match lines with [] => [] | l :: rest => (start, l) :: at_offsets (start + slen l + 1) rest end.

Lemma text_of_app l1 l2 : text_of (l1 ++ l2) = text_of l1 +:+ text_of l2.
Proof. unfold text_of. by rewrite fmap_app, concat_str_app. Qed.
Lemma text_of_cons l ls : text_of (l :: ls) = l +:+ String nl (text_of ls).
Proof. unfold text_of. cbn [fmap list_fmap concat_str]. by rewrite <-str_app_assoc. Qed.
Lemma slen_text_cons l ls : slen (text_of (l :: ls)) = slen l + 1 + slen (text_of ls).
Proof.
  rewrite text_of_cons, slen_app. change (String nl (text_of ls)) with (str1 nl +:+ text_of ls).
  rewrite slen_app. change (slen (str1 nl)) with 1. lia.
Qed.

Lemma numbered_app start l1 l2 : at_offsets start (l1 ++ l2) = at_offsets start l1 ++ at_offsets (start + slen (text_of l1)) l2.
Proof.
  revert start. induction l1 as [|l l1 IH]; intros start; simpl.
  - unfold text_of, slen. simpl. by rewrite Z.add_0_r.
  - rewrite IH, slen_text_cons. do 2 f_equal. f_equal. lia.
Qed.
Lemma numbered_shift start d lines : at_offsets (d + start) lines = (λ p, (d + fst p, snd p)) <$> at_offsets start lines.
Proof.
  revert start. induction lines as [|l lines IH]; intros start; [done|]. simpl. f_equal.
  rewrite <-IH. f_equal. lia.
Qed.
Lemma take_at_offsets n start lines : take n (at_offsets start lines) = at_offsets start (take n lines).
Proof.
  revert n start. induction lines as [|l lines IH]; intros [|n] start; [done..|]. simpl. by rewrite IH.
Qed.

(** The complete lines of a text are where it starts. *)
Lemma complete_lines_prefix s : ∃ rest, s = text_of (complete_lines s) +:+ rest.
Proof.
  unfold complete_lines. induction s as [|c s [rest IH]]; [by exists EmptyString|]. cbn [split_char].
  pose proof (split_char_nonempty nl s) as Hne. destruct (Ascii.eqb_spec c nl) as [->|Hc].
  - exists rest. destruct (split_char nl s) as [|x l]; [done|].
    change (removelast (EmptyString :: x :: l)) with (EmptyString :: removelast (x :: l)).
    rewrite text_of_cons, IH at 1. done.
  - destruct (split_char nl s) as [|x l]; [done|]. destruct l as [|y l].
    + by exists (String c s).
    + exists rest. change (removelast (String c x :: y :: l)) with (String c x :: removelast (y :: l)).
      change (removelast (x :: y :: l)) with (x :: removelast (y :: l)) in IH.
      rewrite text_of_cons in IH |- *. rewrite IH at 1. done.
Qed.

(** A batch is a first part of the complete lines, not empty if there is one. *)
Lemma batch_lines_take cursor lines ls :
  ∃ n, batch_lines cursor lines ls = at_offsets cursor (take n ls) ∧ (lines = 0 → ls ≠ [] → (0 < n)%nat).
Proof.
  revert cursor lines. induction ls as [|l ls IH]; intros cursor lines; cbn [batch_lines].
  { by exists 0%nat. }
  destruct ((lines =? MAX_BATCH_LINES) || _) eqn:E.
  - exists 0%nat. split; [done|]. intros ->. by rewrite andb_false_r in E.
  - destruct (IH (cursor + slen l + 1) (lines + 1)) as (n & -> & _). exists (S n). split; [done|lia].
Qed.

Lemma batch_end_at_offsets lines : batch_end (at_offsets 0 lines) = slen (text_of lines).
Proof.
  destruct lines as [|l lines _] using rev_ind; [done|]. unfold batch_end.
  rewrite numbered_app, text_of_app, slen_app, slen_text_cons. cbn [at_offsets].
  rewrite last_snoc. change (slen (text_of [])) with 0. lia.
Qed.

(** ** The checkpoint file *)

Section checkpoint.
Context (encode : TailState → result string string) (process_id : Z) (f : Faults) (t : Tailer) (st : TailState) (dir : Path).
Context (Hst : tl_state t = Some st) (Hparent : parent (state_path t) = Some dir).
Context (Htmp : temporary_path process_id dir ≠ state_path t).

(** No link stands where the temporary file is written. *)
Definition no_link (fs : FS) : Prop := ∀ b, fs !! temporary_path process_id dir ≠ Some (Symlink b).
Definition old_node (node : option Node) (fs : FS) : Prop := fs !! state_path t = node ∧ no_link fs.
Definition new_node (fs : FS) : Prop := ∃ c, encode st = Ok c ∧ fs !! state_path t = Some (File c) ∧ no_link fs.

Lemma parent_not_ancestor : state_path t ∉ ancestors dir.
Proof. by apply parent_ancestors. Qed.

Lemma tmp_set node x fs : (∀ b, x ≠ Symlink b) → old_node node fs → old_node node (<[temporary_path process_id dir := x]> fs).
Proof.
  intros Hx [Hn Hl]. split; [by rewrite lookup_insert_ne|]. intros b. rewrite lookup_insert_eq. intros [= ->]. by apply (Hx b).
Qed.

Lemma attempt_old {A : Type} site prefix (ok : FS → bool) (v : A) node I :
  (∀ fs, old_node node fs → I fs) →
  triple I (old_node node) (attempt f site prefix ok id v) (λ _, old_node node) (old_node node).
Proof. intros HI. apply triple_attempt; intros fs Hfs; [auto|intros _; auto]. Qed.

(** At every point the checkpoint file is what it was or the new checkpoint,
    and after a success it is the new one. *)
Lemma checkpoint_replaces node :
  triple (λ fs, old_node node fs ∨ new_node fs) (old_node node) (write_checkpoint encode process_id f t)
    (λ _, new_node) (λ fs, old_node node fs ∨ new_node fs).
Proof.
  unfold write_checkpoint. rewrite Hst, Hparent.
  eapply triple_bind with (R := λ _, old_node node).
  { apply triple_call. intros fs [Hn Hl].
    assert (Hk : ∀ ps, ps `sublist_of` ancestors dir → old_node node (fst (make_dirs ps fs))).
    { intros ps Hps. split.
      - rewrite make_dirs_lookup; [done|]. intros Hin. apply parent_not_ancestor. by eapply elem_of_sublist.
      - intros b. rewrite make_dirs_lookup; [apply Hl|]. intros Hin.
        assert (Hin' : temporary_path process_id dir ∈ ancestors dir) by by eapply elem_of_sublist.
        apply ancestors_shorter in Hin'. unfold temporary_path, path_join in Hin'. simpl in Hin'.
        rewrite length_app in Hin'. simpl in Hin'. lia. }
    destruct (fails f CreateDirs); simpl; [split; left; by apply Hk, sublist_take|].
    specialize (Hk (ancestors dir) (reflexivity _)). destruct (make_dirs (ancestors dir) fs) as [fs' [|]]; simpl in *; auto. }
  intros _. eapply triple_bind with (R := λ _, old_node node).
  { eapply triple_weaken; [by apply (attempt_old _ _ _ tt node); auto|auto..]. }
  intros _. eapply triple_bind with (R := λ data fs, encode st = Ok data ∧ old_node node fs).
  { apply triple_result. intros fs Hfs. destruct (encode st); auto. }
  intros data. apply triple_pure. intros Henc.
  eapply triple_bind with (R := λ _ fs, old_node node fs ∧ fs !! temporary_path process_id dir = Some (File data)).
  { apply triple_call. intros fs Hfs. assert (Hset := λ x Hx, tmp_set node x fs Hx Hfs). destruct Hfs as [Hn Hl].
    destruct (fs !! temporary_path process_id dir) as [[c| |b]|] eqn:E; [|simpl; by repeat split; auto; left|by destruct (Hl b)|].
    all: assert (old_node node fs) by (by split).
    all: destruct (fails f (At ("tail-write" +:+ "-open")) || _); simpl; [by auto|].
    all: destruct (fails f (At "tail-write")); simpl; (split; [left; by apply Hset|]).
    all: first [left; by apply Hset|split; [by apply Hset|apply lookup_insert_eq]]. }
  intros _. set (ready := λ fs : FS, old_node node fs ∧ fs !! temporary_path process_id dir = Some (File data)).
  assert (Hready : ∀ {A : Type} site prefix (ok : FS → bool) (v : A),
    triple (λ fs, old_node node fs ∨ new_node fs) ready (attempt f site prefix ok id v) (λ _, ready)
      (λ fs, old_node node fs ∨ new_node fs)).
  { intros A site prefix ok v. apply triple_attempt; intros fs [Hfs Hd]; [auto|intros _; split; [auto|by split]]. }
  eapply triple_bind with (R := λ _, ready); [apply Hready|]. intros _.
  eapply triple_bind with (R := λ _, ready); [apply Hready|]. intros _.
  eapply triple_bind with (R := λ _, new_node).
  { apply triple_call. intros fs [[Hn Hl] Hd]. rewrite Hd.
    assert (Hdone : new_node (<[state_path t := File data]> (delete (temporary_path process_id dir) fs))).
    { exists data. split; [done|]. split; [apply lookup_insert_eq|]. intros b.
      rewrite lookup_insert_ne by done. by rewrite lookup_delete_eq. }
    assert (old_node node fs) by (by split).
    destruct (fs !! state_path t) as [[]|]; try destruct (fails f Rename); simpl; auto. }
  intros _. apply triple_attempt; intros fs Hfs; auto.
Qed.

(** Where the checkpoint can be written: the directories are there, and no
    directory or link stands where the files go. *)
Definition workable (fs : FS) : Prop :=
  Forall (λ p, is_dir fs p = true) (dir :: ancestors dir)
  ∧ (fs !! temporary_path process_id dir = None ∨ ∃ c, fs !! temporary_path process_id dir = Some (File c))
  ∧ ∃ c, fs !! state_path t = Some (File c).

Lemma make_dirs_there ps fs : Forall (λ p, is_dir fs p = true) ps → make_dirs ps fs = (fs, true).
Proof. induction ps as [|p ps IH]; [done|]. intros [Hp Hps]%Forall_cons. cbn [make_dirs]. rewrite Hp. by apply IH. Qed.

Lemma child_not_dir p : parent p = Some dir → p ∉ dir :: ancestors dir.
Proof.
  intros Hp. apply not_elem_of_cons. split; [|by apply parent_ancestors].
  intros ->. unfold parent in Hp. destruct dir as [a [|x l]]; [done|]. injection Hp as Hp.
  apply (f_equal length) in Hp. revert Hp. generalize x. clear. induction l as [|y l IH]; intros x; [done|].
  change (removelast (x :: y :: l)) with (x :: removelast (y :: l)). intros [= H]. by apply (IH y).
Qed.

Lemma dirs_set q node fs : q ∉ dir :: ancestors dir →
  Forall (λ p, is_dir (<[q := node]> fs) p = true) (dir :: ancestors dir) ↔ Forall (λ p, is_dir fs p = true) (dir :: ancestors dir).
Proof.
  intros Hq. rewrite !Forall_forall. split; intros Hall p Hp; specialize (Hall p Hp); revert Hall;
    unfold is_dir; rewrite lookup_insert_ne; [done| |done|]; by intros ->.
Qed.

Lemma checkpoint_succeeds c fs :
  (∀ s, fails f s = false) → encode st = Ok c → workable fs →
  returned (write_checkpoint encode process_id f t fs) = Ok tt ∧ workable (final (write_checkpoint encode process_id f t fs)).
Proof.
  intros Hf Henc (Hdirs & Hfree & stored & Hstored). set (tmp := temporary_path process_id dir) in *.
  assert (Hptmp : parent tmp = Some dir) by apply parent_path_join.
  pose proof (child_not_dir _ Hptmp) as Htmpd. pose proof (child_not_dir _ Hparent) as Hstd.
  pose proof Hdirs as [Hd Ha]%Forall_cons.
  assert (Hrun : exec (write_checkpoint encode process_id f t) fs
    = (Ok tt, <[state_path t := File c]> (delete tmp (<[tmp := File c]> fs)))).
  { unfold write_checkpoint. rewrite Hst, Hparent. unfold create_dir_all, set_permissions, fs_write, rename, attempt.
    rewrite exec_bind, exec_call, !Hf, (make_dirs_there _ _ Ha). cbn beta iota zeta. cbn [fst snd].
    assert (Hex : ∀ fs' p node, fs' !! p = Some node ∨ is_dir fs' p = true → exists_at fs' p = true).
    { intros fs' p node Hp. unfold exists_at. destruct Hp as [-> | ->]; [apply orb_true_r|done]. }
    rewrite exec_bind, exec_call, (Hex _ _ Dir) by auto. cbn beta iota. cbn [negb andb orb fst snd id].
    rewrite exec_bind, exec_of_result, Henc. cbn beta iota. rewrite exec_bind, exec_call. fold tmp.
    assert (Hcan : can_hold fs tmp = true) by (unfold can_hold; rewrite Hptmp, Hd; apply orb_true_r).
    destruct Hfree as [Hfree|[old Hfree]]; rewrite Hfree; rewrite ?Hcan, ?Hf; cbn beta iota; cbn [negb andb orb fst snd].
    all: rewrite exec_bind, exec_call, ?Hf; cbn beta iota; cbn [negb andb orb fst snd id].
    all: rewrite exec_bind, exec_call, (Hex _ _ (File c)) by (left; apply lookup_insert_eq); cbn beta iota; cbn [negb andb orb fst snd id].
    all: rewrite exec_bind, exec_call, lookup_insert_eq, lookup_insert_ne, Hstored, ?Hf by done; cbn beta iota; cbn [negb andb orb fst snd id].
    all: by rewrite exec_call, ?Hf. }
  assert (Hret := f_equal fst Hrun). assert (Hfin := f_equal snd Hrun). unfold exec in Hret, Hfin. cbn [fst snd] in Hret, Hfin.
  rewrite Hret, Hfin. split; [done|]. rewrite delete_insert_eq. split_and!.
  - apply dirs_set; [done|]. destruct Hfree as [Hfree|[old Hfree]].
    + by rewrite delete_id.
    + apply (dirs_set tmp (File old)); [done|]. by rewrite insert_delete_id.
  - left. rewrite lookup_insert_ne by done. apply lookup_delete_eq.
  - exists c. apply lookup_insert_eq.
Qed.
End checkpoint.

(** ** One generation that only grows *)

Definition str_prefix (a b : string) : Prop := ∃ r, b = a +:+ r.
#[export] Instance str_prefix_preorder : PreOrder str_prefix.
Proof.
  split; [intros a; exists EmptyString; by rewrite str_app_nil_r|].
  intros a b c [r ->] [r' ->]. exists (r +:+ r'). by rewrite str_app_assoc.
Qed.

(** A tick of the main loop, and the content of the log it sees. *)
Record Tick := {
  tick_envs : nat → TailEnv;
  tick_fuel : nat;
  tick_ack : Faults;
  tick_send : string → Reply;
  tick_session : SessionManager;
  tick_text : string;
}.

Section stable.
Context (encode : TailState → result string string) (decode : string → option TailState) (process_id : Z).
Context (Hcodec : ∀ s c, encode s = Ok c → decode c = Some s).
Context `{Unicode} (calendar : Calendar) (agent_version : string).
(** The tailer's configuration, its checkpoint directory, the generation, and
    where it was first read. *)
Context (t0 : Tailer) (dir : Path) (Hparent : parent (state_path t0) = Some dir).
Context (Htmp : temporary_path process_id dir ≠ state_path t0).
Context (dev ino start : Z) (Hstart : 0 ≤ start).

(** The identifier a line is delivered under, if it is recognised. *)
Definition line_id (line : Z * string) : option string :=
  if oversize line then None
  else (λ _, line_identity (tl_hostname t0) dev ino (fst line) (snd line) (peer_key t0))
       <$> dated_fields calendar (snd line).
Definition ids (lines : list string) : list string := filter_map line_id (at_offsets start lines).
(** The text goes on, from the start, with these lines. *)
Definition holds_lines (text : string) (lines : list string) : Prop :=
  start ≤ slen text ∧ Forall (λ l, has_nl l = false) lines
  ∧ ∃ rest, drop_bytes (Z.to_nat start) text = text_of lines +:+ rest.
Definition reach (lines : list string) : Z := start + slen (text_of lines).

(** A checkpoint after some lines whose recognised ones are accepted. *)
Definition covered (text : string) (accepted : list string) (st : TailState) : Prop :=
  ts_dev st = dev ∧ ts_ino st = ino
  ∧ ∃ lines, holds_lines text lines ∧ ts_offset st = reach lines ∧ ids lines `prefix_of` accepted.
Definition good_disk (text : string) (accepted : list string) (fs : FS) : Prop :=
  no_link process_id dir fs
  ∧ ∃ c st, fs !! state_path t0 = Some (File c) ∧ decode c = Some st ∧ covered text accepted st.
Definition configured (t : Tailer) : Prop :=
  log_path t = log_path t0 ∧ state_path t = state_path t0 ∧ tl_hostname t = tl_hostname t0 ∧ peer_key t = peer_key t0.

(** The accepted identifiers are those of the lines read; memory and disk are
    covered, and memory is at the end of the lines unless a batch is in flight. *)
Record tail_inv (text : string) (lines accepted : list string) (w : TailWorld) : Prop := {
  inv_config : configured (tailer w);
  inv_lines : holds_lines text lines;
  inv_accepted : accepted = ids lines;
  inv_state : ∃ st, tl_state (tailer w) = Some st ∧ covered text accepted st
                    ∧ (inflight (tailer w) = None → ts_offset st = reach lines);
  inv_disk : Forall (good_disk text accepted) (disk w :: seen w);
}.

Lemma drop_bytes_in n a b : (n ≤ String.length a)%nat → drop_bytes n (a +:+ b) = drop_bytes n a +:+ b.
Proof.
  revert n. induction a as [|c a IH]; intros [|n] Hn; try done; [simpl in Hn; lia|]. simpl in Hn.
  change (String c a +:+ b) with (String c (a +:+ b)). cbn [drop_bytes]. apply IH. lia.
Qed.

Lemma holds_lines_mono text text' lines : str_prefix text text' → holds_lines text lines → holds_lines text' lines.
Proof.
  intros [r ->] (Hs & Hn & rest & Hd). split; [rewrite slen_app; pose proof (slen_nonneg r); lia|].
  split; [done|]. exists (rest +:+ r). rewrite drop_bytes_in by (unfold slen in Hs; lia). by rewrite Hd, str_app_assoc.
Qed.

Lemma covered_mono text text' acc acc' st :
  str_prefix text text' → acc `prefix_of` acc' → covered text acc st → covered text' acc' st.
Proof.
  intros Ht Ha (Hd & Hi & lines & Hl & Ho & Hp). split; [done|]. split; [done|]. exists lines.
  split; [by eapply holds_lines_mono|]. split; [done|]. by etrans.
Qed.
Lemma good_disk_mono text text' acc acc' fs :
  str_prefix text text' → acc `prefix_of` acc' → good_disk text acc fs → good_disk text' acc' fs.
Proof.
  intros Ht Ha (Hn & c & st & Hf & Hd & Hc). split; [done|]. exists c, st. split_and!; [done..|].
  by eapply covered_mono.
Qed.
Lemma tail_inv_mono text text' lines acc w :
  str_prefix text text' → tail_inv text lines acc w → tail_inv text' lines acc w.
Proof.
  intros Ht [Hc Hl Ha (st & Hs & Hv & Hr) Hd]. split; [done|by eapply holds_lines_mono|done| |].
  - exists st. split_and!; [done| |done]. by eapply covered_mono.
  - eapply Forall_impl; [exact Hd|]. intros fs. by apply good_disk_mono.
Qed.

Lemma ids_app l1 l2 : ids (l1 ++ l2) = ids l1 ++ filter_map line_id (at_offsets (reach l1) l2).
Proof. unfold ids. rewrite numbered_app. apply filter_map_app. Qed.
Lemma reach_app l1 l2 : reach (l1 ++ l2) = reach l1 + slen (text_of l2).
Proof. unfold reach. rewrite text_of_app, slen_app. lia. Qed.

(** Reading on from the end of the lines read so far. *)
Lemma holds_more text lines n m :
  holds_lines text lines →
  let buffer := take_bytes n (drop_bytes (Z.to_nat (reach lines)) text) in
  holds_lines text (lines ++ take m (complete_lines buffer)).
Proof.
  intros (Hs & Hn & rest & Hd). cbv zeta. set (buffer := take_bytes n _).
  split; [done|]. split.
  - apply Forall_app. split; [done|]. apply Forall_take. unfold complete_lines.
    assert (Hall : ∀ s, Forall (λ l, has_nl l = false) (split_char nl s)).
    { induction s as [|c s IH]; cbn [split_char]; [by repeat constructor|].
      destruct (Ascii.eqb_spec c nl) as [->|Hc]; [by constructor|].
      pose proof (split_char_nonempty nl s). destruct (split_char nl s) as [|x l]; [done|].
      apply Forall_cons in IH as [Hx Hl]. constructor; [|done]. unfold has_nl in *. cbn [any_byte].
      rewrite Hx. by destruct (Ascii.eqb_spec c nl). }
    specialize (Hall buffer). revert Hall. generalize (split_char nl buffer).
    induction l as [|x l IH]; [done|]. intros [Hx Hl]%Forall_cons. destruct l; [constructor|].
    cbn [removelast]. constructor; [done|by apply IH].
  - assert (Hdrop : drop_bytes (Z.to_nat (reach lines)) text = rest).
    { unfold reach. replace (Z.to_nat (start + slen (text_of lines)))
        with (Z.to_nat start + String.length (text_of lines))%nat by (unfold slen; lia).
      rewrite <-drop_drop_bytes, Hd. apply drop_bytes_app. }
    destruct (complete_lines_prefix buffer) as [r Hr].
    assert (Hbuf : rest = buffer +:+ drop_bytes n rest) by (unfold buffer; rewrite Hdrop; by rewrite take_drop_bytes).
    exists (text_of (drop m (complete_lines buffer)) +:+ r +:+ drop_bytes n rest).
    rewrite Hd, Hbuf at 1. rewrite text_of_app, <-!str_app_assoc. f_equal. rewrite !str_app_assoc, <-text_of_app, take_drop.
    by rewrite <-Hr.
Qed.

(** ** Steps *)

Lemma move_step f st text acc w :
  configured (tailer w) → Forall (good_disk text acc) (disk w :: seen w) → covered text acc st →
  let (w', r) := move_to encode process_id f st w in
  tailer w' = with_state (tailer w) (Some st) ∧ Forall (good_disk text acc) (disk w' :: seen w').
Proof.
  intros (_ & Hsp & _) Hd Hc. apply Forall_cons in Hd as [Hg Hseen].
  unfold move_to, modify_tailer, op_modify, op_bind, persist, get_tailer, op_get, lift_io. simpl.
  set (t := with_state (tailer w) (Some st)).
  assert (Hpt : parent (state_path t) = Some dir) by (unfold t; simpl; by rewrite Hsp).
  assert (Htt : temporary_path process_id dir ≠ state_path t) by (unfold t; simpl; by rewrite Hsp).
  destruct Hg as (Hl & c & stc & Hfile & Hdec & Hcov).
  pose proof (checkpoint_replaces encode process_id f t st dir eq_refl Hpt Htt (Some (File c)) (disk w)) as Hrun.
  assert (Hold : ∀ fs, old_node process_id t dir (Some (File c)) fs → good_disk text acc fs).
  { intros fs [Hf Hn]. split; [done|]. exists c, stc. split_and!; [|done..].
    unfold t in Hf. simpl in Hf. by rewrite Hsp in Hf. }
  assert (Hnew : ∀ fs, new_node encode process_id t st dir fs → good_disk text acc fs).
  { intros fs (c' & Henc & Hf & Hn). split; [done|]. exists c', st. split_and!; [|by apply Hcodec|done].
    unfold t in Hf. simpl in Hf. by rewrite Hsp in Hf. }
  destruct Hrun as [Hv Hr]. { split; [|done]. unfold t. simpl. by rewrite Hsp. }
  split; [done|]. apply Forall_cons. split.
  - destruct (returned _); [by apply Hnew|destruct Hr; [by apply Hold|by apply Hnew]].
  - apply Forall_app. split; [|done]. apply Forall_rev. eapply Forall_impl; [exact Hv|].
    intros fs [?|?]; [by apply Hold|by apply Hnew].
Qed.

(** Nothing fails: no fault is injected, the checkpoint encodes, and the
    directory is in order. *)
Definition checkpointable (fs : FS) : Prop := workable process_id t0 dir fs.
Definition smooth (f : Faults) (w : TailWorld) : Prop :=
  (∀ site, fails f site = false) ∧ (∀ st, ∃ c, encode st = Ok c) ∧ checkpointable (disk w).

Lemma move_smooth f st w : configured (tailer w) → smooth f w →
  let (w', r) := move_to encode process_id f st w in r = Ok tt ∧ checkpointable (disk w').
Proof.
  intros (_ & Hsp & _) (Hf & Henc & Hw). destruct (Henc st) as [c Hc].
  unfold move_to, modify_tailer, op_modify, op_bind, persist, get_tailer, op_get, lift_io. simpl.
  unfold checkpointable, workable in *. rewrite <-Hsp in Hparent, Htmp, Hw.
  rewrite <-Hsp.
  exact (checkpoint_succeeds encode process_id f (with_state (tailer w) (Some st)) st dir eq_refl Hparent Htmp c (disk w) Hf Hc Hw).
Qed.

(** The next line can be read: the content holds it whole, and it fits. *)
Definition next_line (env : TailEnv) (text : string) (lines : list string) : Prop :=
  ∃ l rest, drop_bytes (Z.to_nat (reach lines)) text = l +:+ String nl rest
    ∧ has_nl l = false ∧ (String.length l < Nat.min READ_BUFFER (read_most (te_glance env)))%nat.

Lemma next_line_complete env text lines :
  next_line env text lines →
  complete_lines (take_bytes (Nat.min READ_BUFFER (read_most (te_glance env))) (drop_bytes (Z.to_nat (reach lines)) text)) ≠ [].
Proof.
  intros (l & rest & -> & Hl & Hlen). remember (Nat.min _ _) as n eqn:En. clear En.
  assert (∃ rest', take_bytes n (l +:+ String nl rest) = l +:+ String nl rest') as [rest' ->].
  { clear Hl. revert n Hlen. induction l as [|c l IH]; intros [|n] Hlen; simpl in Hlen; try lia.
    - by exists (take_bytes n rest).
    - destruct (IH n) as [r Hr]; [lia|]. exists r. change (String c l +:+ String nl rest) with (String c (l +:+ String nl rest)).
      cbn [take_bytes]. by rewrite Hr. }
  unfold complete_lines. rewrite split_char_at by done.
  pose proof (split_char_nonempty nl rest'). by destruct (split_char nl rest').
Qed.

(** The tailer is idle and in order, and has read on if it could. *)
Definition moved_on (env : TailEnv) (text : string) (lines lines' : list string) (w' : TailWorld) : Prop :=
  inflight (tailer w') = None ∧ checkpointable (disk w')
  ∧ (next_line env text lines → (length lines < length lines')%nat).

(** A bulk action can be made for the event. *)
Definition shippable (e : EventEnvelope) : Prop := ∀ id, ∃ action, bulk_action (en_document e) id = Ok action.

(** What a round with an open snapshot [text] of the generation does to a tailer
    without a batch in flight. *)
Definition batch_in_flight (text : string) (lines : list string) (w0 w : TailWorld) (events : list EventEnvelope) : Prop :=
  ∃ more st,
    holds_lines text (lines ++ more) ∧ tl_state (tailer w0) = Some st ∧ tl_state (tailer w) = Some st
    ∧ configured (tailer w) ∧ disk w = disk w0 ∧ seen w = seen w0
    ∧ inflight (tailer w) = Some {| tk_dev := dev; tk_ino := ino; tk_start := reach lines; tk_end := reach (lines ++ more) |}
    ∧ Forall (λ e, Some (en_token e) = inflight (tailer w)) events
    ∧ en_id <$> events = filter_map line_id (at_offsets (reach lines) more)
    ∧ Forall shippable events.

Lemma line_event_id t source token s line :
  configured t → g_dev source = dev → g_ino source = ino →
  en_id <$> line_event calendar agent_version t source token s line = line_id (tk_start token + fst line, snd line)
  ∧ ∀ e, line_event calendar agent_version t source token s line = Some e → en_token e = token ∧ shippable e.
Proof.
  intros (_ & _ & Hh & Hk) Hd Hi. unfold line_event, line_id, oversize. simpl.
  destruct (MAX_LINE_BYTES <? slen (snd line)); [done|]. unfold parse_document.
  destruct (dated_fields calendar (snd line)) as [[timestamp p]|]; simpl; [|done].
  rewrite Hh, Hk, Hd, Hi. split; [done|]. intros e [= <-]. split; [done|]. by eexists.
Qed.

Lemma envelopes_ids t source token s lines :
  configured t → g_dev source = dev → g_ino source = ino →
  let events := filter_map (line_event calendar agent_version t source token s) (at_offsets 0 lines) in
  en_id <$> events = filter_map line_id (at_offsets (tk_start token) lines)
  ∧ Forall (λ e, en_token e = token) events ∧ Forall shippable events.
Proof.
  intros Hc Hd Hi. cbv zeta. rewrite <-(Z.add_0_r (tk_start token)), numbered_shift.
  induction (at_offsets 0 lines) as [|l ls (IHi & IHt & IHs)]; [done|]. rewrite fmap_cons. cbn [filter_map].
  destruct (line_event_id t source token s l Hc Hd Hi) as [He Ht]. rewrite <-He.
  destruct (line_event calendar agent_version t source token s l) as [e|]; cbn [fmap option_fmap option_map]; [|done].
  rewrite fmap_cons, IHi. destruct (Ht e eq_refl). by repeat constructor.
Qed.

Lemma read_step env source st s text lines acc w :
  tail_inv text lines acc w → inflight (tailer w) = None → tl_state (tailer w) = Some st →
  g_dev source = dev → g_ino source = ino → open_log (te_glance env) (g_path source) = Ok text →
  let (w', r) := read_batch encode process_id calendar agent_version env source st s w in
  match r with
  | Ok (e :: es) => batch_in_flight text lines w w' (e :: es)
  | _ => ∃ lines', tail_inv text lines' acc w' ∧ inflight (tailer w') = None ∧ (length lines ≤ length lines')%nat
         ∧ (smooth (te_faults env) w → moved_on env text lines lines' w')
  end.
Proof.
  intros Hinv Hidle Hst Hd Hi Hopen. pose proof Hinv as [Hconf Hlines Hacc (st' & Hst' & Hcov & Hreach) Hdisk].
  rewrite Hst in Hst'. injection Hst' as <-. specialize (Hreach Hidle).
  unfold read_batch. rewrite Hopen. unfold op_bind at 1, op_result. cbn beta iota.
  rewrite Hreach. set (buffer := take_bytes _ _).
  destruct (batch_lines_take 0 0 (complete_lines buffer)) as (n & Hbatch & Hpos). rewrite Hbatch.
  pose proof (holds_more text lines _ n Hlines : holds_lines text (lines ++ take n (complete_lines buffer))) as Hmore.
  assert (Hprog : next_line env text lines → take n (complete_lines buffer) ≠ []).
  { intros Hnext%next_line_complete. change (complete_lines buffer ≠ []) in Hnext. specialize (Hpos eq_refl Hnext).
    by destruct n, (complete_lines buffer); [lia..| |]. }
  revert Hmore Hprog. generalize (take n (complete_lines buffer)). clear n Hbatch Hpos. intros more Hmore Hprog.
  set (w1 := set_tailer w (with_warned (tailer w) (oversize_warned (tailer w) || existsb oversize (at_offsets 0 more)))).
  assert (Hinv1 : tail_inv text lines acc w1) by (split; [exact Hconf|done|done|by exists st|done]).
  unfold op_bind at 1, modify_tailer at 1, op_modify. fold w1. cbn beta iota.
  destruct (at_offsets 0 more) as [|l0 ls] eqn:Enum.
  { exists lines. split_and!; [done..|]. intros (_ & _ & Hw). split_and!; [done..|].
    intros Hnext. by destruct more; [destruct (Hprog Hnext)|]. }
  assert (Hne : more ≠ []) by by destruct more.
  rewrite <-Enum, batch_end_at_offsets. clear Enum.
  set (token := {| tk_dev := g_dev source; tk_ino := g_ino source; tk_start := reach lines; tk_end := _ |}).
  assert (Hend : tk_end token = reach (lines ++ more)) by (by rewrite reach_app).
  unfold op_bind at 1, get_tailer, op_get. cbn beta iota.
  destruct (envelopes_ids (tailer w1) source token s more) as (Hids & Htok & Hship); [exact Hconf|done|done|].
  destruct (filter_map (line_event calendar agent_version (tailer w1) source token s) (at_offsets 0 more)) as [|e es].
  - change (tl_state (tailer w1)) with (tl_state (tailer w)). rewrite Hst.
    assert (Hsame : ids (lines ++ more) = acc) by (rewrite ids_app, <-Hacc; simpl in Hids; by rewrite <-Hids, app_nil_r).
    assert (Hnew : covered text acc (with_offset st (tk_end token))).
    { destruct Hcov as (Hdv & Hin & _). split; [done|]. split; [done|]. exists (lines ++ more). by rewrite Hsame. }
    pose proof (move_step (te_faults env) _ text acc w1 Hconf Hdisk Hnew) as Hmove.
    pose proof (move_smooth (te_faults env) (with_offset st (tk_end token)) w1 Hconf) as Hmove2.
    unfold op_bind at 1, op_catch.
    destruct (move_to encode process_id (te_faults env) (with_offset st (tk_end token)) w1) as [w2 [[]|e]];
      destruct Hmove as [Ht2 Hd2]; cbn.
    + exists (lines ++ more). split_and!; [|by rewrite Ht2|rewrite length_app; lia|].
      * split; rewrite ?Ht2; [exact Hconf|done|done| |done].
        exists (with_offset st (tk_end token)). by split_and!.
      * intros Hsm. destruct (Hmove2 Hsm) as [_ Hw2]. split_and!; [by rewrite Ht2|done|].
        intros _. rewrite length_app. destruct more; [done|simpl; lia].
    + exists lines. split_and!; [|by rewrite Ht2|done|].
      * split; cbn; rewrite ?Ht2; [exact Hconf|done|done|by exists st|done].
      * intros Hsm. by destruct (Hmove2 Hsm).
  - unfold op_bind, modify_tailer, op_modify. cbn. exists more, st. split_and!; try done.
    + change (Some token = Some {| tk_dev := dev; tk_ino := ino; tk_start := reach lines; tk_end := reach (lines ++ more) |}).
      rewrite <-Hend. unfold token. simpl. by rewrite Hd, Hi.
    + eapply Forall_impl; [exact Htok|]. by intros e' ->.
Qed.

Lemma reach_le text lines : holds_lines text lines → reach lines ≤ slen text.
Proof.
  intros (Hs & _ & rest & Hd). apply (f_equal String.length) in Hd.
  rewrite length_drop_bytes, length_str_app in Hd. unfold reach, slen in *. lia.
Qed.

(** A tick's first look at the log: the generation is the same one, not shorter
    than what was read before, and the content behind the path has only grown,
    if it opens. *)
Definition sees_growth (text : string) (env : TailEnv) (text' : string) : Prop :=
  ∃ len, stat_log (te_glance env) = Ok (Some {| lf_dev := dev; lf_ino := ino; lf_len := len |})
         ∧ slen text ≤ len ∧ str_prefix text text'
         ∧ (open_log (te_glance env) (log_path t0) = Ok text' ∨ ∃ e, open_log (te_glance env) (log_path t0) = Err e).

Lemma round_reads env s st text lines acc w text' :
  tail_inv text lines acc w → inflight (tailer w) = None → tl_state (tailer w) = Some st → sees_growth text env text' →
  ∃ source, g_dev source = dev ∧ g_ino source = ino ∧ g_path source = log_path t0
    ∧ poll_round encode process_id calendar agent_version env s w
      = op_bind (read_batch encode process_id calendar agent_version env source st s) (λ events, op_ret (Some events)) w.
Proof.
  intros [Hconf Hlines _ (st' & Hst' & (Hd & Hi & _) & Hreach) _] Hidle Hst (len & Hstat & Hlen & _ & _).
  rewrite Hst in Hst'. injection Hst' as <-. specialize (Hreach Hidle).
  exists {| g_path := log_path (tailer w); g_dev := dev; g_ino := ino; g_len := len |}.
  split_and!; [done|done|by destruct Hconf|].
  unfold poll_round, op_bind at 1, get_tailer at 1, op_get. cbn beta iota. rewrite Hidle.
  unfold op_bind at 1, op_result. rewrite Hstat. cbn beta iota. unfold generation_of. cbn [fmap option_fmap option_map lf_dev lf_ino lf_len].
  rewrite Hst. unfold same_generation at 1 2. cbn [g_dev g_ino g_len]. rewrite Hd, Hi, !Z.eqb_refl. cbn [andb].
  assert ((len <? ts_offset st) = false) as -> by (apply Z.ltb_ge; pose proof (reach_le _ _ Hlines); lia).
  unfold op_bind at 1, op_ret at 1, op_result. cbn beta iota.
  unfold op_bind at 1, op_ret at 1, op_result. cbn beta iota.
  unfold op_bind at 1, get_tailer, op_get. cbn beta iota. rewrite Hst. unfold same_generation. cbn [g_dev g_ino].
  by rewrite !Z.eqb_refl.
Qed.

(** Nothing keeps a poll from reading. *)
Definition steady_poll (env : TailEnv) (fuel : nat) (text : string) (w : TailWorld) : Prop :=
  inflight (tailer w) = None ∧ fuel ≠ 0%nat ∧ open_log (te_glance env) (log_path t0) = Ok text ∧ smooth (te_faults env) w.

(** A poll in a tick: with a batch in flight, or nothing to read, nothing new;
    otherwise a batch. *)
Lemma poll_step envs fuel s text lines acc w text' :
  tail_inv text lines acc w → sees_growth text (envs 0%nat) text' →
  let (w', r) := poll encode process_id calendar agent_version envs fuel 0 s w in
  match r with
  | Ok (e :: es) => inflight (tailer w) = None ∧ batch_in_flight text' lines w w' (e :: es)
  | _ => ∃ lines', tail_inv text' lines' acc w' ∧ (length lines ≤ length lines')%nat
         ∧ (steady_poll (envs 0%nat) fuel text' w → moved_on (envs 0%nat) text' lines lines' w')
  end.
Proof.
  intros Hinv Hg. destruct fuel as [|fuel]; cbn [poll].
  { exists lines. split_and!; [|done|by intros (_ & [] & _)]. eapply tail_inv_mono; [|done]. by destruct Hg as (? & _ & _ & ? & _). }
  assert (Hmono : tail_inv text' lines acc w) by (eapply tail_inv_mono; [|done]; by destruct Hg as (? & _ & _ & ? & _)).
  destruct (inflight (tailer w)) as [tok|] eqn:Ei.
  { unfold op_bind at 1, poll_round, op_bind at 1, get_tailer, op_get. cbn beta iota. rewrite Ei. exists lines.
    split_and!; [done..|]. intros (Hidle & _). by rewrite Hidle in Ei. }
  pose proof (inv_state _ _ _ _ Hinv) as (st & Hst & _).
  destruct (round_reads (envs 0%nat) s st text lines acc w text' Hinv Ei Hst Hg) as (source & Hd & Hi & Hp & Hround).
  unfold op_bind at 1. rewrite Hround. unfold op_bind at 1.
  destruct Hg as (len & _ & _ & _ & [Hopen|[e Hopen]]); rewrite <-Hp in Hopen.
  - pose proof (read_step (envs 0%nat) source st s text' lines acc w Hmono Ei Hst Hd Hi Hopen) as Hread.
    assert (Hsteady : ∀ w' lines', (smooth (te_faults (envs 0%nat)) w → moved_on (envs 0%nat) text' lines lines' w') →
      steady_poll (envs 0%nat) (S fuel) text' w → moved_on (envs 0%nat) text' lines lines' w').
    { intros w' lines' Hm (_ & _ & _ & Hsm). by apply Hm. }
    destruct (read_batch _ _ _ _ _ _ _ _ w) as [w' [[|e es]|err]]; cbn; [|done|].
    all: destruct Hread as (lines' & ? & _ & ? & ?); exists lines'; auto.
  - unfold read_batch, op_bind, op_result. rewrite Hopen. cbn. exists lines. split_and!; [done..|].
    intros (_ & _ & Hok & _). by rewrite <-Hp, Hopen in Hok.
Qed.

Lemma ack_step f text lines acc w0 w e es :
  tail_inv text lines acc w0 → inflight (tailer w0) = None → batch_in_flight text lines w0 w (e :: es) →
  let (w', r) := ack_success encode process_id f (en_token e) w in
  ∃ lines', tail_inv text lines' (acc ++ (en_id <$> (e :: es))) w' ∧ (length lines < length lines')%nat
            ∧ (smooth f w → inflight (tailer w') = None ∧ checkpointable (disk w')).
Proof.
  intros [Hconf0 Hlines Hacc (st' & Hst' & Hcov & Hreach) Hdisk] Hidle
    (more & st & Hmore & Hst0 & Hst & Hconf & Hdw & Hsw & Hin & Htok & Hids & _).
  rewrite Hst0 in Hst'. injection Hst' as <-. specialize (Hreach Hidle).
  apply Forall_cons in Htok as [Htok _]. rewrite Hin in Htok. injection Htok as Htok.
  set (acc' := acc ++ (en_id <$> (e :: es))).
  assert (Hacc' : acc' = ids (lines ++ more)) by (unfold acc'; by rewrite Hids, ids_app, Hacc).
  assert (Hpre : acc `prefix_of` acc') by by eexists.
  pose proof Hcov as (Hd & Hi & _).
  assert (Hdisk' : Forall (good_disk text acc') (disk w :: seen w)).
  { rewrite Hdw, Hsw. eapply Forall_impl; [exact Hdisk|]. intros fs. by apply good_disk_mono. }
  unfold ack_success, op_bind at 1, get_tailer, op_get. cbn beta iota. rewrite Hin, Htok.
  rewrite bool_decide_true by done. cbn [negb]. rewrite Hst. cbn [tk_dev tk_ino tk_start tk_end].
  rewrite Hd, Hi, Hreach, !Z.eqb_refl. cbn [andb negb].
  assert (Hnew : covered text acc' (with_offset st (reach (lines ++ more)))).
  { split; [done|]. split; [done|]. exists (lines ++ more). split; [done|]. split; [done|]. by rewrite Hacc'. }
  pose proof (move_step f _ text acc' w Hconf Hdisk' Hnew) as Hmove.
  pose proof (move_smooth f (with_offset st (reach (lines ++ more))) w Hconf) as Hmove2.
  assert (Hlen : (length lines < length (lines ++ more))%nat).
  { rewrite length_app. destruct more; [done|simpl; lia]. }
  unfold op_bind at 1, op_catch. destruct (move_to encode process_id f _ w) as [w2 [[]|err]]; destruct Hmove as [Ht2 Hd2]; cbn.
  all: exists (lines ++ more); split_and!; [|done|intros Hsm; by destruct (Hmove2 Hsm)].
  all: split; cbn; rewrite ?Ht2; [exact Hconf|done|done| |done].
  - exists (with_offset st (reach (lines ++ more))). by split_and!.
  - exists st. split; [done|]. split; [|intros Hn; change (inflight (tailer w) = None) in Hn; by rewrite Hn in Hin].
    by apply (covered_mono text text acc).
Qed.

Lemma nack_step text lines acc w0 w events :
  tail_inv text lines acc w0 → inflight (tailer w0) = None → batch_in_flight text lines w0 w events →
  tail_inv text lines acc (fst (nack w)).
Proof.
  intros [Hconf0 Hlines Hacc (st' & Hst' & Hcov & Hreach) Hdisk] Hidle
    (more & st & Hmore & Hst0 & Hst & Hconf & Hdw & Hsw & Hin & _).
  rewrite Hst0 in Hst'. injection Hst' as <-.
  split; cbn; [exact Hconf|done|done| |by rewrite Hdw, Hsw]. exists st. split_and!; [done|done|]. intros _. by apply Hreach.
Qed.

(** The service takes every document that can be sent. *)
Definition delivers (to_string : json → result string string) (send : string → Reply) : Prop :=
  (∀ v, ∃ s, to_string v = Ok s)
  ∧ ∀ body, ∃ resp items, send body = Answered resp ∧ has_errors_of resp = false
      ∧ and_then (json_get "items" resp) as_array = Some items ∧ Forall (λ i, item_status (create_of i) = Some 201) items.

Lemma delivers_ships to_string send events : delivers to_string send → Forall shippable events →
  let docs := (λ e, {| document := en_document e; sd_id := Some (en_id e) |}) <$> events in
  ∃ r, ship_documents to_string send docs = Ok r ∧ failed r = 0.
Proof.
  intros [Htext Hsend] Hship. cbv zeta. set (docs := _ <$> events).
  assert (∃ body, request_body to_string docs = Ok body) as [body Hbody].
  { unfold docs. clear docs. induction Hship as [|e es He _ [body IH]]; [by eexists|]. rewrite fmap_cons. cbn [request_body document sd_id].
    destruct (He (Some (en_id e))) as [action ->]. cbn beta iota.
    destruct (Htext action) as [? ->], (Htext (en_document e)) as [? ->]. cbn [map_err]. rewrite IH. by eexists. }
  unfold ship_documents. destruct docs as [|d ds] eqn:Ed; [by eexists|]. rewrite <-Ed in *. rewrite Hbody. cbn beta iota.
  destruct (Hsend body) as (resp & items & -> & Herr & Hitems & Hall). eexists. split; [done|].
  unfold ship_result. cbn [failed]. rewrite Herr, Hitems. destruct (false || _); [|done]. clear Hitems.
  generalize 0%nat. induction Hall as [|i others Hi _ IH]; intros n; [done|]. cbn [count_failed]. rewrite IH.
  unfold item_ok, bulk_item_success. rewrite Hi, bool_decide_true by done. by destruct (and_then _ sd_id).
Qed.

(** A tick adds to the accepted identifiers those of the lines it read. *)
Lemma tick_step to_string send envs fuel f s text lines acc w text' :
  tail_inv text lines acc w → sees_growth text (envs 0%nat) text' →
  let (w', r) := tail_tick encode process_id calendar agent_version to_string send envs fuel f s w in
  ∃ events lines', r = Ok events ∧ tail_inv text' lines' (acc ++ (en_id <$> events)) w' ∧ (length lines ≤ length lines')%nat
    ∧ (steady_poll (envs 0%nat) fuel text' w → (∀ site, fails f site = false) → delivers to_string send →
       moved_on (envs 0%nat) text' lines lines' w').
Proof.
  intros Hinv Hg. pose proof (poll_step envs fuel s text lines acc w text' Hinv Hg) as Hpoll.
  assert (Hmono : tail_inv text' lines acc w) by (eapply tail_inv_mono; [|done]; by destruct Hg as (? & _ & _ & ? & _)).
  unfold tail_tick, op_bind at 1, op_ignore at 1.
  destruct (poll _ _ _ _ _ _ _ _ w) as [w' [[|e es]|err]]; cbn beta iota.
  1, 3: destruct Hpoll as (lines' & Hinv' & Hle & Hm); exists [], lines'; rewrite app_nil_r; auto.
  destruct Hpoll as [Hidle Hflight].
  pose proof (nack_step text' lines acc w w' (e :: es) Hmono Hidle Hflight) as Hnack.
  pose proof (ack_step f text' lines acc w w' e es Hmono Hidle Hflight) as Hack.
  destruct Hflight as (more & st & _ & _ & _ & _ & Hdisk & _ & _ & _ & _ & Hship).
  pose proof (λ Hd, delivers_ships to_string send (e :: es) Hd Hship) as Hsent. cbv zeta in Hsent.
  set (docs := (λ e, {| document := _ |}) <$> _) in *.
  destruct (ship_documents _ _ docs) as [r|err]; [destruct (failed r =? 0) eqn:Ef|].
  - unfold op_bind, op_ignore. destruct (ack_success _ _ _ _ w') as [w2 r2]. cbn.
    destruct Hack as (lines' & Hack & Hlt & Hsm). exists (e :: es), lines'. split_and!; [done..|lia|].
    intros (_ & _ & _ & _ & Henc & Hw) Hf _. destruct Hsm as [? ?]; [|by split_and!].
    split_and!; [done|done|by rewrite Hdisk].
  - exists [], lines. rewrite app_nil_r. split_and!; [done|exact Hnack|done|].
    intros _ _ (r' & [= <-] & H0)%Hsent. by rewrite H0 in Ef.
  - exists [], lines. rewrite app_nil_r. split_and!; [done|exact Hnack|done|]. by intros _ _ (r & ? & _)%Hsent.
Qed.

(** ** Runs *)

Section run.
Context (to_string : json → result string string).

(** The identifiers accepted tick by tick. *)
Fixpoint run_ticks (ticks : list Tick) (w : TailWorld) : TailWorld * list string :=
  match ticks with
  | [] => (w, [])
  | k :: rest =>
      let (w1, r) := tail_tick encode process_id calendar agent_version to_string (tick_send k) (tick_envs k) (tick_fuel k)
                       (tick_ack k) (tick_session k) w in
      let (w2, later) := run_ticks rest w1 in
      (w2, match r with Ok events => en_id <$> events | Err _ => [] end ++ later)
  end.

(** Each tick sees the content the previous one saw, or more. *)
Fixpoint grows (text : string) (ticks : list Tick) : Prop :=
  match ticks with
  | [] => True
  | k :: rest => sees_growth text (tick_envs k 0%nat) (tick_text k) ∧ grows (tick_text k) rest
  end.
Definition last_text (text : string) (ticks : list Tick) : string := unwrap_or (tick_text <$> last ticks) text.

(** A tailer whose checkpoint, in memory and on disk, is the start. *)
Definition starts (text : string) (w : TailWorld) : Prop :=
  configured (tailer w) ∧ start ≤ slen text ∧ inflight (tailer w) = None ∧ seen w = [] ∧ no_link process_id dir (disk w)
  ∧ ∃ st c, tl_state (tailer w) = Some st ∧ ts_dev st = dev ∧ ts_ino st = ino ∧ ts_offset st = start
      ∧ disk w !! state_path t0 = Some (File c) ∧ decode c = Some st.

Lemma starts_inv text w : starts text w → tail_inv text [] [] w.
Proof.
  intros (Hconf & Hs & Hidle & Hseen & Hlink & st & c & Hst & Hd & Hi & Ho & Hf & Hdec).
  assert (Hlines : holds_lines text []) by (split_and!; [done|constructor|by eexists]).
  assert (Hreach : ts_offset st = reach []) by (unfold reach; change (slen (text_of [])) with 0; lia).
  assert (Hcov : covered text [] st) by (split_and!; [done..|]; by exists []).
  split; [done..|by exists st|]. rewrite Hseen. repeat constructor; [done|]. by exists c, st.
Qed.

Lemma last_text_cons text k rest : last_text text (k :: rest) = last_text (tick_text k) rest.
Proof. unfold last_text. rewrite last_cons. by destruct (last rest). Qed.

Lemma run_ticks_inv ticks text lines acc w :
  tail_inv text lines acc w → grows text ticks →
  let (w', accepted) := run_ticks ticks w in ∃ lines', tail_inv (last_text text ticks) lines' (acc ++ accepted) w'.
Proof.
  revert text lines acc w. induction ticks as [|k rest IH]; intros text lines acc w Hinv Hg; cbn [run_ticks].
  { exists lines. by rewrite app_nil_r. }
  destruct Hg as [Hg Hrest].
  pose proof (tick_step to_string (tick_send k) (tick_envs k) (tick_fuel k) (tick_ack k) (tick_session k)
                text lines acc w _ Hinv Hg) as Htick.
  destruct (tail_tick _ _ _ _ _ _ _ _ _ _ w) as [w1 r]. destruct Htick as (events & lines1 & -> & Hinv1 & _).
  specialize (IH _ _ _ _ Hinv1 Hrest). destruct (run_ticks rest w1) as [w2 later].
  rewrite last_text_cons, app_assoc. exact IH.
Qed.

(** C5: As long as the log only grows, whatever fails in reading, sending or
    writing the checkpoint, the batches accepted tick after tick are together
    the recognised lines from the start, each once and in the order of the log;
    and at every point a crash could leave the checkpoint file at, it holds a
    position up to which every recognised line has been accepted. *)
Theorem tailer_exactly_once ticks text w :
  starts text w → grows text ticks →
  let (w', accepted) := run_ticks ticks w in
  let text' := last_text text ticks in
  (∃ lines, holds_lines text' lines ∧ accepted = ids lines)
  ∧ ∀ fs, fs ∈ disk w' :: seen w' →
      ∃ c st, fs !! state_path t0 = Some (File c) ∧ decode c = Some st ∧ covered text' accepted st.
Proof.
  intros Hs Hg. pose proof (run_ticks_inv ticks text [] [] w (starts_inv _ _ Hs) Hg) as Hrun.
  destruct (run_ticks ticks w) as [w' accepted]. destruct Hrun as [lines [_ Hlines Hacc _ Hdisk]].
  split; [by exists lines|]. intros fs Hfs. rewrite Forall_forall in Hdisk. by destruct (Hdisk fs Hfs).
Qed.

(** ** Catching up *)

Lemma complete_lines_app l rest : Forall (λ l, has_nl l = false) l → complete_lines (text_of l +:+ rest) = l ++ complete_lines rest.
Proof.
  intros Hl. unfold complete_lines. induction Hl as [|x l Hx _ IH]; [done|].
  rewrite text_of_cons, <-str_app_assoc. change (String nl (text_of l) +:+ rest) with (String nl (text_of l +:+ rest)).
  rewrite split_char_at by done. pose proof (split_char_nonempty nl (text_of l +:+ rest)) as Hne.
  cbn [app]. rewrite <-IH. by destruct (split_char nl (text_of l +:+ rest)).
Qed.

Lemma complete_lines_first s l ls : complete_lines s = l :: ls → ∃ rest, s = l +:+ String nl rest ∧ has_nl l = false.
Proof.
  revert l ls. unfold complete_lines. induction s as [|c s IH]; intros l ls; cbn [split_char]; [done|].
  pose proof (split_char_nonempty nl s) as Hne. destruct (Ascii.eqb_spec c nl) as [->|Hc].
  - destruct (split_char nl s) as [|x xs] eqn:E; [done|].
    change (removelast (EmptyString :: x :: xs)) with (EmptyString :: removelast (x :: xs)). intros [= <- <-]. by exists s.
  - destruct (split_char nl s) as [|x [|y ys]]; [done..|].
    change (removelast (String c x :: y :: ys)) with (String c x :: removelast (y :: ys)). intros [= <- _].
    destruct (IH x (removelast (y :: ys)) eq_refl) as (rest & -> & Hx). exists rest. split; [done|].
    unfold has_nl in *. cbn [any_byte]. rewrite Hx. by destruct (Ascii.eqb_spec c nl).
Qed.

(** A tick that sees the whole log and in which nothing fails. *)
Definition attentive (text : string) (k : Tick) : Prop :=
  let env := tick_envs k 0%nat in
  stat_log (te_glance env) = Ok (Some {| lf_dev := dev; lf_ino := ino; lf_len := slen text |})
  ∧ open_log (te_glance env) (log_path t0) = Ok text ∧ (READ_BUFFER ≤ read_most (te_glance env))%nat
  ∧ tick_fuel k ≠ 0%nat ∧ (∀ site, fails (te_faults env) site = false) ∧ (∀ site, fails (tick_ack k) site = false)
  ∧ delivers to_string (tick_send k).

(** The complete lines from the start. *)
Definition backlog (text : string) : list string := complete_lines (drop_bytes (Z.to_nat start) text).

Lemma lines_of_backlog text lines : holds_lines text lines →
  backlog text = lines ++ complete_lines (drop_bytes (Z.to_nat (reach lines)) text).
Proof.
  intros (Hs & Hn & rest & Hd). unfold backlog. rewrite Hd, complete_lines_app by done. do 2 f_equal.
  unfold reach. replace (Z.to_nat (start + slen (text_of lines)))
    with (Z.to_nat start + String.length (text_of lines))%nat by (unfold slen; lia).
  rewrite <-drop_drop_bytes, Hd. symmetry. apply drop_bytes_app.
Qed.

Lemma run_ticks_reads ticks text lines acc w :
  (∀ st, ∃ c, encode st = Ok c) → Forall (λ l, (String.length l < READ_BUFFER)%nat) (backlog text) →
  Forall (attentive text) ticks → tail_inv text lines acc w → inflight (tailer w) = None → checkpointable (disk w) →
  (length (backlog text) ≤ length lines + length ticks)%nat →
  let (w', accepted) := run_ticks ticks w in tail_inv text (backlog text) (acc ++ accepted) w'.
Proof.
  intros Henc Hshort Hticks. revert lines acc w.
  induction Hticks as [|k rest (Hstat & Hopen & Hmost & Hfuel & Hf & Hfa & Hsend) _ IH]; intros lines acc w Hinv Hidle Hwork Hlen;
    cbn [run_ticks]; pose proof (lines_of_backlog _ _ (inv_lines _ _ _ _ Hinv)) as Hback.
  { rewrite app_nil_r. rewrite Hback in Hlen. rewrite length_app in Hlen. simpl in Hlen.
    assert (Hnil : complete_lines (drop_bytes (Z.to_nat (reach lines)) text) = []) by (apply length_zero_iff_nil; lia).
    by rewrite Hback, Hnil, app_nil_r. }
  assert (Hg : sees_growth text (tick_envs k 0%nat) text) by (exists (slen text); split_and!; [done..|auto]).
  pose proof (tick_step to_string (tick_send k) (tick_envs k) (tick_fuel k) (tick_ack k) (tick_session k)
                text lines acc w _ Hinv Hg) as Htick.
  destruct (tail_tick _ _ _ _ _ _ _ _ _ _ w) as [w1 r]. destruct Htick as (events & lines1 & -> & Hinv1 & Hle & Hgo).
  destruct Hgo as (Hidle1 & Hwork1 & Hnext); [by split_and!|done..|].
  specialize (IH lines1 _ _ Hinv1 Hidle1 Hwork1). destruct (run_ticks rest w1) as [w2 later]. rewrite app_assoc. apply IH.
  cbn [length] in Hlen. destruct (complete_lines (drop_bytes (Z.to_nat (reach lines)) text)) as [|l ls] eqn:El.
  { rewrite Hback, app_nil_r in *. lia. }
  destruct (complete_lines_first _ _ _ El) as (after & Hdrop & Hl). enough (length lines < length lines1)%nat by lia.
  apply Hnext. exists l, after. split; [done|]. split; [done|].
  rewrite Hback in Hshort. apply Forall_app in Hshort as [_ [Hl' _]%Forall_cons]. lia.
Qed.

End run.
End stable.

(** ** Stalls *)

Section stalls.
Context (encode : TailState → result string string) (process_id : Z).
Context `{Unicode} (calendar : Calendar) (agent_version : string) (to_string : json → result string string).

(** While a batch is in flight nothing more is accepted. *)
Lemma in_flight_blocks ticks w token :
  inflight (tailer w) = Some token → run_ticks encode process_id calendar agent_version to_string ticks w = (w, []).
Proof.
  intros Hin. induction ticks as [|k rest IH]; [done|]. cbn [run_ticks].
  assert (Hpoll : ∃ r, poll encode process_id calendar agent_version (tick_envs k) (tick_fuel k) 0 (tick_session k) w = (w, r)
                       ∧ ∀ e es, r ≠ Ok (e :: es)).
  { destruct (tick_fuel k) as [|fuel]; cbn [poll]; [by eexists|].
    unfold op_bind at 1, poll_round, op_bind at 1, get_tailer, op_get. cbn beta iota. rewrite Hin. by eexists. }
  destruct Hpoll as (r & Hpoll & Hr). unfold tail_tick, op_bind at 1, op_ignore at 1. rewrite Hpoll.
  destruct r as [[|e es]|err]; [|by destruct (Hr e es)|]; cbn beta iota; unfold op_ret, op_result; by rewrite IH.
Qed.

(** When an acknowledgement fails, the batch stays in flight, and the main loop
    only logs the failure: no later tick delivers anything. *)
Lemma failed_ack_stalls f token w w' e ticks :
  inflight (tailer w) = Some token → ack_success encode process_id f token w = (w', Err e) →
  run_ticks encode process_id calendar agent_version to_string ticks w' = (w', []).
Proof.
  intros Hin Hack. apply in_flight_blocks with token. revert Hack.
  unfold ack_success, op_bind at 1, get_tailer, op_get. cbn beta iota. rewrite Hin.
  destruct (negb _); [by intros [= <- _]|]. destruct (tl_state (tailer w)) as [st|]; [|by intros [= <- _]].
  destruct (negb _); [by intros [= <- _]|].
  unfold op_bind at 1, op_catch, move_to, op_bind at 1, modify_tailer, op_modify, persist, op_bind at 1, get_tailer, op_get, lift_io.
  cbn beta iota zeta. destruct (returned _) as [[]|err]; cbn; [done|]. by intros [= <- _].
Qed.

(** A rotated log whose rest has no line end is never left: the new log waits
    behind it, whatever it holds. *)
Lemma unterminated_rotation_stalls envs fuel s w st current rotated content :
  inflight (tailer w) = None → tl_state (tailer w) = Some st →
  stat_log (te_glance (envs 0%nat)) = Ok (Some current) →
  (ts_dev st =? lf_dev current) && (ts_ino st =? lf_ino current) = false →
  find_rotated (te_glance (envs 0%nat)) (tailer w) (ts_dev st) (ts_ino st) = Ok (Some rotated) → ts_offset st < g_len rotated →
  open_log (te_glance (envs 0%nat)) (g_path rotated) = Ok content →
  has_nl (drop_bytes (Z.to_nat (ts_offset st)) content) = false →
  ∃ w', poll encode process_id calendar agent_version envs (S fuel) 0 s w = (w', Ok [])
        ∧ tl_state (tailer w') = Some st ∧ disk w' = disk w.
Proof.
  intros Hin Hst Hstat Hother Hfind Hlen Hopen Hnl.
  cbn [poll]. unfold op_bind at 1, poll_round, op_bind at 1, get_tailer at 1, op_get. cbn beta iota. rewrite Hin.
  unfold op_bind at 1, op_result at 1. rewrite Hstat. cbn beta iota. unfold generation_of. cbn [fmap option_fmap option_map].
  rewrite Hst. unfold same_generation at 1 2 3. cbn [g_dev g_ino g_len]. rewrite !Hother. cbn [andb]. unfold op_bind at 1, op_ret at 1, op_result at 1. cbn beta iota.
  unfold op_bind at 1, op_bind at 1, op_result at 1. rewrite Hfind. cbn beta iota.
  unfold op_ret at 1, op_result at 1. cbn beta iota. unfold op_bind at 1, get_tailer at 1, op_get. cbn beta iota. rewrite Hst.
  replace (g_len rotated <=? ts_offset st) with false by (symmetry; apply Z.leb_gt; lia). rewrite andb_false_r.
  unfold op_bind at 1, read_batch, op_bind at 1, op_result at 1. rewrite Hopen. cbn beta iota zeta.
  unfold complete_lines. rewrite split_char_whole.
  - unfold op_bind at 1. cbn. by eexists.
  - clear Hopen. generalize (Nat.min READ_BUFFER (read_most (te_glance (envs 0%nat)))). intros n. revert n Hnl. unfold has_nl.
    generalize (drop_bytes (Z.to_nat (ts_offset st)) content).
    induction s0 as [|c r IH]; intros [|n]; cbn [take_bytes any_byte]; try done.
    intros [-> Hr]%orb_false_iff. by apply IH.
Qed.
End stalls.

(** ** The key *)

(** A key that is used was read, whole, from a regular file no one else may
    read or write. *)
Lemma peer_key_is_private euid k key :
  load_or_create_peer_key euid k = Ok key →
  length key = 32%nat
  ∧ ∃ view mode, (view = first_look k ∨ view = other_look k ∨ view = last_look k)
      ∧ view = KeyFile true mode euid (Ok key) ∧ Z.land mode 511 = 384.
Proof.
  assert (Hread : ∀ view, read_peer_key euid view = Ok key →
    length key = 32%nat ∧ ∃ mode, view = KeyFile true mode euid (Ok key) ∧ Z.land mode 511 = 384).
  { intros [| |is_file mode uid [content|]]; unfold read_peer_key; [done..| |by destruct (negb _)].
    unfold key_metadata_is_acceptable. destruct is_file; [|done]. simpl.
    destruct (Z.land mode 511 =? 384) eqn:Em; [|done]. destruct (uid =? euid) eqn:Eu; [|done]. simpl.
    destruct (Nat.ltb_spec (length content) 32); [done|]. destruct (Nat.ltb_spec 32 (length content)); [done|].
    intros [= <-]. apply Z.eqb_eq in Em, Eu. subst. split; [lia|]. by exists mode. }
  assert (Hagain : ∀ view, map_err snd (read_peer_key euid view) = Ok key → read_peer_key euid view = Ok key).
  { intros view. destruct (read_peer_key euid view); [by intros [= ->]|done]. }
  unfold load_or_create_peer_key. destruct (read_peer_key euid (first_look k)) as [key'|[[] e]] eqn:E; [| |done].
  { intros [= ->]. destruct (Hread _ E) as (Hl & mode & Hv & Hm). split; [done|]. exists (first_look k), mode. auto. }
  destruct (key_parent k) as [[[]|]|]; [|done..]. simpl. destruct (parents_made k); [|done].
  destruct (match directory_made k with Created => _ | _ => _ end); [|done]. destruct (random_bytes k); [|done].
  destruct (key_made k); [destruct (key_written k); [|intros [=]]; destruct (key_restricted k); [|intros [=]]| |intros [=]].
  all: intros (Hl & mode & Hv & Hm)%Hagain%Hread; split; [done|]; eexists _, mode; eauto.
Qed.

(** ** Examples *)

Definition demo_encode (s : TailState) : result string string :=
  Ok (bits (encode (ts_path s, ts_dev s, ts_ino s, ts_offset s))).
Definition demo_decode (c : string) : option TailState :=
  let! p := unbits c in
  (λ q : Path * Z * Z * Z, let '(path, dev, ino, offset) := q in
     {| ts_path := path; ts_dev := dev; ts_ino := ino; ts_offset := offset |}) <$> decode p.
Lemma demo_tail_codec s c : demo_encode s = Ok c → demo_decode c = Some s.
Proof. intros [= <-]. unfold demo_decode. rewrite unbits_bits, decode_encode. by destruct s. Qed.

Definition demo_dir : Path := (true, ["state"]).
Definition demo_tailer : Tailer := {|
  log_path := (true, ["log"]); state_path := (true, ["state"; "tail.json"]); tl_hostname := "host"; peer_key := None;
  tl_state := Some {| ts_path := (true, ["log"]); ts_dev := 1; ts_ino := 2; ts_offset := 0 |};
  inflight := None; oversize_warned := false |}.
Definition demo_checkpoint : string := bits (encode ((true, ["log"]) : Path, 1, 2, 0)).
Definition demo_world : TailWorld := {|
  tailer := demo_tailer;
  disk := <[state_path demo_tailer := File demo_checkpoint]> (<[demo_dir := Dir]> ∅);
  seen := [] |}.
Definition demo_log : string :=
  text_of [log_line "2026-05-02 10:00:00" "123" "Bob" "connected via direct connection"; "noise"].
Definition demo_faults (fails : Site → bool) : Faults := {| fails := fails; os_error _ := "error"; written := 3 |}.
Definition demo_tick (failing : Site → bool) : Tick := {|
  tick_envs _ :=
    {| te_glance := {| stat_log := Ok (Some {| lf_dev := 1; lf_ino := 2; lf_len := slen demo_log |});
                       log_entries := Ok []; open_log _ := Ok demo_log; read_most := READ_BUFFER |};
       te_faults := demo_faults (λ _, false) |};
  tick_fuel := 1;
  tick_ack := demo_faults failing;
  tick_send _ := Answered (JObject [("errors", JBool false); ("items", JArray [])]);
  tick_session := demo_manager;
  tick_text := demo_log |}.

Definition demo_starts := starts demo_decode 7 demo_tailer demo_dir 1 2 0 demo_log.
Lemma demo_world_starts : demo_starts demo_world.
Proof.
  split_and!; [by split_and!|vm_compute; discriminate|done|done|intros b; vm_compute; discriminate|].
  exists {| ts_path := (true, ["log"]); ts_dev := 1; ts_ino := 2; ts_offset := 0 |}, demo_checkpoint.
  split_and!; vm_compute; reflexivity.
Qed.
Lemma demo_world_checkpointable : checkpointable 7 demo_tailer demo_dir (disk demo_world).
Proof. split_and!; [repeat constructor|by left|by eexists]. Qed.
Lemma demo_sees failing : sees_growth demo_tailer 1 2 demo_log (tick_envs (demo_tick failing) 0%nat) demo_log.
Proof. exists (slen demo_log). split_and!; [done..|by left]. Qed.
Definition demo_to_string (_ : json) : result string string := Ok EmptyString.
Lemma demo_attentive : attentive demo_tailer 1 2 demo_to_string demo_log (demo_tick (λ _, false)).
Proof.
  split_and!; try done. split; [by eexists|]. intros body. by exists (JObject [("errors", JBool false); ("items", JArray [])]), [].
Qed.

(** The rename of the first acknowledgement fails. *)
Definition demo_ticks : list Tick := [demo_tick (λ site, bool_decide (site = Rename)); demo_tick (λ _, false)].

Lemma tailer_exactly_once_witness :
  let (w', accepted) := @run_ticks demo_encode 7 ascii_unicode demo_calendar "1" demo_to_string demo_ticks demo_world in
  (∃ lines, holds_lines 0 demo_log lines ∧ accepted = ids demo_calendar demo_tailer 1 2 0 lines)
  ∧ ∀ fs, fs ∈ disk w' :: seen w' →
      ∃ c st, fs !! state_path demo_tailer = Some (File c) ∧ demo_decode c = Some st
              ∧ covered demo_calendar demo_tailer 1 2 0 demo_log accepted st.
Proof.
  refine (@tailer_exactly_once demo_encode demo_decode 7 demo_tail_codec ascii_unicode demo_calendar "1" demo_tailer demo_dir
           eq_refl _ 1 2 0 _ demo_to_string demo_ticks demo_log demo_world demo_world_starts _); try discriminate.
  repeat split; apply demo_sees.
Defined.


Example demo_backlog_accepted :
  length (snd (@run_ticks demo_encode 7 ascii_unicode demo_calendar "1" demo_to_string [demo_tick (λ _, false)] demo_world)) = 1%nat.
Proof. vm_compute. reflexivity. Qed.
