(* ===== verification/HandshakeJson.v ===== *)
(** * Trusted JSON of the handshake ([src/handshake.rs])

    The bounded scanner that runs before [serde_json], the walk that rejects
    ambiguous members after it, and what the three responses are read for.  A
    cursor into the body is what remains of the body behind it. *)
From Stdlib Require Import Ascii.
From S2P Require Import Prelude Sha256 Float64 Json DiagnosisEvent FileSystem.

(** ** Strings *)

Definition is_json_ws (c : ascii) : bool :=
  Ascii.eqb c " " || Ascii.eqb c nl || Ascii.eqb c "013" || Ascii.eqb c "009".
Definition ends_scalar (c : ascii) : bool :=
  is_json_ws c || Ascii.eqb c "," || Ascii.eqb c "]" || Ascii.eqb c "}".

(** [u16::from_str_radix] in base sixteen: an optional [+]. *)
Fixpoint hex_digits (acc : Z) (s : string) : option Z :=
  match s with
  | EmptyString => Some acc
  | String c rest =>
      if is_ascii_digit c then hex_digits (16 * acc + (byte_val c - 48)) rest
      else if ascii_in 97 102 c then hex_digits (16 * acc + (byte_val c - 87)) rest
      else if ascii_in 65 70 c then hex_digits (16 * acc + (byte_val c - 55)) rest
      else None
  end.
Definition hex_number (s : string) : option Z :=
  let body := match strip_prefix "+" s with Some r => r | None => s end in
  if is_empty body then None else hex_digits 0 body.
(** [bytes.get(i..i + 4)] and its number. *)
Definition hex4 (s : string) : option Z :=
  if (String.length s <? 4)%nat then None else hex_number (take_bytes 4 s).

(** [char::len_utf8]. *)
Definition len_utf8 (scalar : Z) : Z :=
  if scalar <? 128 then 1 else if scalar <? 2048 then 2 else if scalar <? 65536 then 3 else 4.

(** Behind [\u]: how many bytes are decoded, and how many are read. *)
Definition unicode_escape (s : string) : option (Z * nat) :=
  let! value := hex4 s in
  if (55296 <=? value) && (value <=? 56319) then
    let! s := strip_prefix "\u" (drop_bytes 4 s) in
    let! low := hex4 s in
    if negb ((56320 <=? low) && (low <=? 57343)) then None
    else Some (len_utf8 (65536 + Z.lor (Z.shiftl (value - 55296) 10) (low - 56320)), 10%nat)
  else if (56320 <=? value) && (value <=? 57343) then None
  else Some (len_utf8 value, 4%nat).

Definition simple_escapes : string := dq +:+ "\/bfnrt".

(** One character or escape at [c]: how many bytes it decodes to, and how many
    bytes behind [c] belong to it. *)
Definition string_item (c : ascii) (rest : string) : option (Z * nat) :=
  if Ascii.eqb c "\" then
    match rest with
    | EmptyString => None
    | String escape rest =>
        if any_byte (Ascii.eqb escape) simple_escapes then Some (1, 1%nat)
        else if Ascii.eqb escape "u" then (λ '(decoded, read), (decoded, S read)) <$> unicode_escape rest
        else None
    end
  else if 32 <=? byte_val c then
    if is_utf8 (String c rest) then Some (utf8_width c, Z.to_nat (utf8_width c - 1)) else None
  else None.

Definition STRING_LIMIT : Z := 4096.

(** [scan_string]: what remains behind the closing quote.  [skip] bytes belong
    to the last item. *)
Fixpoint scan_string (skip : nat) (decoded : Z) (s : string) : option string :=
  match s with
  | EmptyString => None
  | String c rest =>
      match skip with
      | S skip => scan_string skip decoded rest
      | O =>
          if Ascii.eqb c "034" then (if decoded <=? STRING_LIMIT then Some rest else None)
          else
            let! (more, read) := string_item c rest in
            if STRING_LIMIT <? decoded + more then None else scan_string read (decoded + more) rest
      end
  end.

(** ** The scanner *)

Fixpoint skip_scalar (s : string) : string :=
  match s with
  | EmptyString => EmptyString
  | String c rest => if ends_scalar c then s else skip_scalar rest
  end.

Definition is_number_start (c : ascii) : bool := Ascii.eqb c "-" || is_ascii_digit c.
Definition is_open (c : ascii) : bool := Ascii.eqb c "{" || Ascii.eqb c "[".
Definition is_close (c : ascii) : bool := Ascii.eqb c "}" || Ascii.eqb c "]".

Definition DEPTH_LIMIT : Z := 32.
Definition TOKEN_LIMIT : Z := 4096.

(** One token at [c]: the depth behind it, and what remains. *)
Definition token (depth : Z) (c : ascii) (rest : string) : option (Z * string) :=
  if is_open c then if DEPTH_LIMIT <? depth + 1 then None else Some (depth + 1, rest)
  else if is_close c then if depth =? 0 then None else Some (depth - 1, rest)
  else if Ascii.eqb c ":" || Ascii.eqb c "," then Some (depth, rest)
  else if Ascii.eqb c "034" then (λ rest, (depth, rest)) <$> scan_string 0 0 rest
  else if is_number_start c then Some (depth, skip_scalar rest)
  else if Ascii.eqb c "t" then (λ rest, (depth, rest)) <$> strip_prefix "rue" rest
  else if Ascii.eqb c "f" then (λ rest, (depth, rest)) <$> strip_prefix "alse" rest
  else if Ascii.eqb c "n" then (λ rest, (depth, rest)) <$> strip_prefix "ull" rest
  else None.

(** Every round reads a byte or more: [fuel] above the length is enough. *)
Fixpoint scan_from (fuel : nat) (depth tokens : Z) (s : string) : option unit :=
  match fuel with
  | O => None
  | S fuel =>
      match s with
      | EmptyString => if depth =? 0 then Some tt else None
      | String c rest =>
          if is_json_ws c then scan_from fuel depth tokens rest
          else
            let! (depth, rest) := token depth c rest in
            if TOKEN_LIMIT <? tokens + 1 then None else scan_from fuel depth (tokens + 1) rest
      end
  end.
Definition scan_json (s : string) : option unit := scan_from (S (String.length s)) 0 0 s.

(** ** The walk *)

Inductive ProtectedStage := Root | Template | Mapping.
Inductive PathSegment := Key (name : string) | ArrayElement.
#[export] Instance PathSegment_eq_dec : EqDecision PathSegment.
Proof. solve_decision. Defined.

(** [path.len() == suffix.len() + 2 && ..]. *)
Definition template_path (path : list PathSegment) (suffix : list string) : bool :=
  bool_decide (path = [Key "component_templates"; ArrayElement] ++ (Key <$> suffix)).

Definition protected_member (stage : ProtectedStage) (path : list PathSegment) (key : string) : bool :=
  match stage with
  | Root => bool_decide (path = []) && String.eqb key "cluster_uuid"
  | Template =>
      bool_decide (path = []) && String.eqb key "component_templates"
      || template_path path [] && (String.eqb key "name" || String.eqb key "component_template")
      || template_path path ["component_template"] && String.eqb key "_meta"
      || template_path path ["component_template"; "_meta"] && String.eqb key "accepted_schema_versions"
  | Mapping => false
  end.

Fixpoint skip_ws (s : string) : string :=
  match s with
  | EmptyString => EmptyString
  | String c rest => if is_json_ws c then skip_ws rest else s
  end.
(** The next byte is [c]: what remains behind it. *)
Definition expect (c : ascii) (s : string) : option string :=
  match s with
  | EmptyString => None
  | String d rest => if Ascii.eqb c d then Some rest else None
  end.

Section walk.
(** [serde_json::from_slice::<String>] of a string literal. *)
Context (string_from_slice : string → option string) (stage : ProtectedStage).

(** [DuplicateParser::string]: the key, and what remains. *)
Definition walk_string (s : string) : option (string * string) :=
  let s := skip_ws s in
  let! body := expect "034" s in
  let! rest := scan_string 0 0 body in
  let! key := string_from_slice (take_bytes (String.length s - String.length rest) s) in
  Some (key, rest).

(** [value], and the loops of [object] and [array]: what remains behind. *)
Fixpoint walk_value (fuel : nat) (path : list PathSegment) (s : string) : option string :=
  match fuel with
  | O => None
  | S fuel =>
      match skip_ws s with
      | EmptyString => None
      | String c rest as s =>
          if Ascii.eqb c "{" then
            match expect "}" (skip_ws rest) with
            | Some rest => Some rest
            | None => walk_members fuel [] path (skip_ws rest)
            end
          else if Ascii.eqb c "[" then
            match expect "]" (skip_ws rest) with
            | Some rest => Some rest
            | None => walk_elements fuel (path ++ [ArrayElement]) (skip_ws rest)
            end
          else if Ascii.eqb c "034" then snd <$> walk_string s
          else if is_number_start c then Some (skip_scalar s)
          else if Ascii.eqb c "t" then strip_prefix "true" s
          else if Ascii.eqb c "f" then strip_prefix "false" s
          else if Ascii.eqb c "n" then strip_prefix "null" s
          else None
      end
  end
with walk_members (fuel : nat) (seen : list string) (path : list PathSegment) (s : string) : option string :=
  match fuel with
  | O => None
  | S fuel =>
      let! (key, rest) := walk_string s in
      let protected := protected_member stage path key in
      if protected && bool_decide (key ∈ seen) then None
      else
        let! rest := expect ":" (skip_ws rest) in
        let! rest := walk_value fuel (path ++ [Key key]) rest in
        match skip_ws rest with
        | EmptyString => None
        | String c rest =>
            if Ascii.eqb c "," then
              walk_members fuel (if protected then key :: seen else seen) path (skip_ws rest)
            else if Ascii.eqb c "}" then Some rest
            else None
        end
  end
with walk_elements (fuel : nat) (path : list PathSegment) (s : string) : option string :=
  match fuel with
  | O => None
  | S fuel =>
      let! rest := walk_value fuel path s in
      match skip_ws rest with
      | EmptyString => None
      | String c rest =>
          if Ascii.eqb c "," then walk_elements fuel path rest
          else if Ascii.eqb c "]" then Some rest
          else None
      end
  end.

(** Every byte takes two calls at most. *)
Definition walk_fuel (s : string) : nat := 2 * S (String.length s).
Definition walk (s : string) : bool :=
  match walk_value (walk_fuel s) [] s with Some rest => is_empty (skip_ws rest) | None => false end.
End walk.

(** ** Reading the responses *)

Section reading.
(** [serde_json::from_slice], for any value and for a string. *)
Context (from_slice : string → option json) (string_from_slice : string → option string).

Definition checked_json (body : string) : option json :=
  let! _ := scan_json body in from_slice body.
Definition checked_json_stage (body : string) (stage : ProtectedStage) : option json :=
  let! value := checked_json body in
  if walk string_from_slice stage body then Some value else None.

(** [ElasticsearchClusterUuid::parse]: the value itself. *)
Definition is_uuid_byte (c : ascii) : bool := is_ascii_alphanumeric c || Ascii.eqb c "_" || Ascii.eqb c "-".
Definition parse_cluster_uuid (value : string) : option string :=
  if (String.length value =? 22)%nat && all_bytes is_uuid_byte value then Some value else None.

Definition root_uuid (body : string) : option string :=
  let! value := checked_json_stage body Root in
  let! value := as_object value in
  let! uuid := json_get "cluster_uuid" value in
  let! uuid := as_str uuid in
  parse_cluster_uuid uuid.

Definition is_json_object (body : string) : bool :=
  is_some_and (checked_json_stage body Mapping) (λ v, match v with JObject _ => true | _ => false end).
End reading.

(** ** Accepted schema versions *)

Definition valid_version (value : string) : bool :=
  negb (is_empty value) && (slen value <=? 10) && all_bytes is_ascii_digit value && negb (starts_with "0" value)
  && match parse_u32 value with Some _ => true | None => false end.

(** [Vec::dedup]. *)
Fixpoint dedup (l : list string) : list string :=
  match l with
  | [] => []
  | x :: rest =>
      match dedup rest with
      | (y :: _) as kept => if String.eqb x y then kept else x :: kept
      | [] => [x]
      end
  end.

Definition FRAME_HEAD : string := "rigsignal:w1:accepted-schema-versions:digest:v1" +:+ str1 "000".
Definition frame (entries : list string) : bytes :=
  bytes_of FRAME_HEAD ++ be_bytes 4 (wrap 32 (Z.of_nat (length entries)))
  ++ mjoin ((λ entry, be_bytes 4 (wrap 32 (slen entry)) ++ bytes_of entry) <$> entries).
Definition digest_entries (entries : list string) : string := hs_sha256_hex (frame entries).

Definition accepted_set (values : list string) : option (string * bool) :=
  if (length values =? 0)%nat || (256 <? length values)%nat then None
  else if existsb (λ v, negb (valid_version v)) values then None
  else
    let entries := dedup (stable_sort str_leb values) in
    Some (digest_entries entries, existsb (String.eqb (show DIAGNOSIS_SCHEMA_VERSION)) entries).

Definition TEMPLATE_NAME : string := "logs-rigsignal.diagnosis-mappings".

(** The versions of the one template, in a parsed response. *)
Definition template_versions (value : json) : option (list string) :=
  let! templates := and_then (json_get "component_templates" value) as_array in
  match templates with
  | [template] =>
      let! name := and_then (json_get "name" template) as_str in
      if String.eqb name TEMPLATE_NAME then
        let! versions := and_then (and_then (and_then (json_get "component_template" template) (json_get "_meta"))
                           (json_get "accepted_schema_versions")) as_array in
        mapM as_str versions
      else None
  | _ => None
  end.

Definition template_set (from_slice : string → option json) (string_from_slice : string → option string) (body : string)
  : option (string * bool) :=
  let! value := checked_json_stage from_slice string_from_slice body Template in
  let! versions := template_versions value in
  accepted_set versions.
