(* ===== verification/HandshakeJsonSpec.v ===== *)
(** * What the guarded JSON of the handshake accepts ([src/handshake.rs])

    The texts of a JSON tree, members repeated or not; the scanner bounds the
    tree, the walk rejects repeated members that drive a decision, and so the
    decision does not depend on how a parser resolves repetitions. *)
From Stdlib Require Import Ascii.
From S2P Require Import Prelude Sha256 Float64 Json DiagnosisEvent FileSystem HandshakeJson.

(** ** Trees and their texts *)

(** Strings and numbers by their text, members in order. *)
#[warnings="-register-all"]
Inductive raw :=
| RNull
| RBool (b : bool)
| RNumber (text : string)
| RString (body : string)
| RArray (elements : list raw)
| RObject (members : list (string * raw)).

Definition quote : ascii := "034".
Definition quoted (body : string) : string := String quote (body +:+ str1 quote).
Definition spaces (w : string) : Prop := all_bytes is_json_ws w = true.

Definition number_text (n : string) : Prop :=
  ∃ c rest, n = String c rest ∧ is_number_start c = true
            ∧ all_bytes (λ c, is_ascii c && negb (ends_scalar c)) rest = true.

Section spelling.
Context (string_from_slice : string → option string).

(** The scanner and the deserializer both take the literal, whatever comes
    behind it. *)
Definition literal (body : string) : Prop :=
  (∀ rest, is_utf8 rest = true →
     is_utf8 (body +:+ String quote rest) = true ∧ scan_string 0 0 (body +:+ String quote rest) = Some rest)
  ∧ is_Some (string_from_slice (quoted body)).
Definition key_text (body : string) : string := unwrap_or (string_from_slice (quoted body)) EmptyString.

Inductive spelled : raw → string → Prop :=
| spelled_null : spelled RNull "null"
| spelled_true : spelled (RBool true) "true"
| spelled_false : spelled (RBool false) "false"
| spelled_number n : number_text n → spelled (RNumber n) n
| spelled_string b : literal b → spelled (RString b) (quoted b)
| spelled_no_elements w : spaces w → spelled (RArray []) ("[" +:+ w +:+ "]")
| spelled_array l s : spelled_elements l s → spelled (RArray l) ("[" +:+ s +:+ "]")
| spelled_no_members w : spaces w → spelled (RObject []) ("{" +:+ w +:+ "}")
| spelled_object ms s : spelled_members ms s → spelled (RObject ms) ("{" +:+ s +:+ "}")
with spelled_elements : list raw → string → Prop :=
| spelled_last_element v w1 s w2 :
    spaces w1 → spelled v s → spaces w2 → spelled_elements [v] (w1 +:+ s +:+ w2)
| spelled_next_element v w1 s w2 rest s' :
    spaces w1 → spelled v s → spaces w2 → spelled_elements rest s' →
    spelled_elements (v :: rest) (w1 +:+ s +:+ w2 +:+ "," +:+ s')
with spelled_members : list (string * raw) → string → Prop :=
| spelled_last_member b v w1 w2 w3 s w4 :
    spaces w1 → literal b → spaces w2 → spaces w3 → spelled v s → spaces w4 →
    spelled_members [(b, v)] (w1 +:+ quoted b +:+ w2 +:+ ":" +:+ w3 +:+ s +:+ w4)
| spelled_next_member b v w1 w2 w3 s w4 rest s' :
    spaces w1 → literal b → spaces w2 → spaces w3 → spelled v s → spaces w4 → spelled_members rest s' →
    spelled_members ((b, v) :: rest) (w1 +:+ quoted b +:+ w2 +:+ ":" +:+ w3 +:+ s +:+ w4 +:+ "," +:+ s').
Scheme spelled_mut := Induction for spelled Sort Prop
with spelled_elements_mut := Induction for spelled_elements Sort Prop
with spelled_members_mut := Induction for spelled_members Sort Prop.
Combined Scheme spelled_all_ind from spelled_mut, spelled_elements_mut, spelled_members_mut.

(** The text of a document. *)
Definition document (t : raw) (body : string) : Prop :=
  ∃ w1 s w2, spaces w1 ∧ spelled t s ∧ spaces w2 ∧ body = w1 +:+ s +:+ w2.
End spelling.

(** ** Its bounds *)

Definition max_of (l : list Z) : Z := foldr Z.max 0 l.
Fixpoint height (t : raw) : Z :=
  match t with
  | RArray l => 1 + max_of (List.map height l)
  | RObject ms => 1 + max_of (List.map (λ m, height (snd m)) ms)
  | _ => 0
  end.
(** Tokens: a comma between two elements, a key and a colon with every member. *)
Definition commas {A : Type} (l : list A) : Z := Z.max 0 (Z.of_nat (length l) - 1).
Fixpoint tokens_of (t : raw) : Z :=
  match t with
  | RArray l => 2 + commas l + sumZ (List.map tokens_of l)
  | RObject ms => 2 + commas ms + sumZ (List.map (λ m, 2 + tokens_of (snd m)) ms)
  | _ => 1
  end.
Definition fits (depth tokens : Z) (height count : Z) : bool :=
  (depth + height <=? DEPTH_LIMIT) && (tokens + count <=? TOKEN_LIMIT).

(** ** Repeated members *)

Section repetition.
Context (string_from_slice : string → option string) (stage : ProtectedStage).

(** The names that drive a decision, as they come. *)
Definition protected_names (path : list PathSegment) (members : list (string * raw)) : list string :=
  List.filter (protected_member stage path) (List.map (λ m, key_text string_from_slice (fst m)) members).

(** No object below [path] repeats such a name. *)
Fixpoint distinct (path : list PathSegment) (t : raw) : bool :=
  match t with
  | RArray l => forallb (distinct (path ++ [ArrayElement])) l
  | RObject ms =>
      bool_decide (NoDup (protected_names path ms))
      && forallb (λ m, distinct (path ++ [Key (key_text string_from_slice (fst m))]) (snd m)) ms
  | _ => true
  end.

(** The same, with the names seen so far. *)
Fixpoint fresh_names (seen : list string) (path : list PathSegment) (members : list (string * raw)) : bool :=
  match members with
  | [] => true
  | (b, _) :: rest =>
      let key := key_text string_from_slice b in
      let protected := protected_member stage path key in
      negb (protected && bool_decide (key ∈ seen))
      && fresh_names (if protected then key :: seen else seen) path rest
  end.
End repetition.

(** ** UTF-8 *)

Lemma is_utf8_ascii c s : is_ascii c = true → is_utf8 (String c s) = is_utf8 s.
Proof.
  intros Hc. unfold is_utf8. cbn [from_utf8_lossy]. unfold is_ascii in Hc. rewrite Hc. cbn [String.eqb].
  by rewrite Ascii.eqb_refl.
Qed.
Lemma is_utf8_ascii_app a s : all_bytes is_ascii a = true → is_utf8 (a +:+ s) = is_utf8 s.
Proof.
  induction a as [|c a IH]; [done|]. intros [Hc Ha]%andb_true_iff.
  change (String c a +:+ s) with (String c (a +:+ s)). by rewrite is_utf8_ascii, IH.
Qed.
Lemma ws_ascii c : is_json_ws c = true → is_ascii c = true.
Proof. unfold is_json_ws. rewrite !orb_true_iff, !Ascii.eqb_eq. by intros [[[->| ->]| ->]| ->]. Qed.
Lemma spaces_utf8 w s : spaces w → is_utf8 (w +:+ s) = is_utf8 s.
Proof. intros Hw. apply is_utf8_ascii_app. eapply all_bytes_impl; [|exact Hw]. apply ws_ascii. Qed.

(** ** The scanner, step by step *)

Definition scan (depth tokens : Z) (s : string) : option unit := scan_from (S (String.length s)) depth tokens s.

Lemma strip_prefix_shorter p s r : strip_prefix p s = Some r → (String.length r ≤ String.length s)%nat.
Proof. intros ->%strip_prefix_Some. rewrite length_str_app. lia. Qed.
Lemma scan_string_shorter skip decoded s r : scan_string skip decoded s = Some r → (String.length r < String.length s)%nat.
Proof.
  revert skip decoded. induction s as [|c s IH]; intros skip decoded; [done|]. cbn [scan_string String.length].
  destruct skip; [|intros H%IH; lia]. destruct (Ascii.eqb c "034").
  - destruct (decoded <=? STRING_LIMIT); [intros [= ->]; lia|done].
  - destruct (string_item c s) as [[more read]|]; [|done]. destruct (STRING_LIMIT <? _); [done|]. intros H%IH. lia.
Qed.
Lemma skip_scalar_shorter s : (String.length (skip_scalar s) ≤ String.length s)%nat.
Proof. induction s as [|c s IH]; [done|]. cbn [skip_scalar String.length]. destruct (ends_scalar c); simpl; lia. Qed.

Lemma token_shorter depth c s depth' s' : token depth c s = Some (depth', s') → (String.length s' ≤ String.length s)%nat.
Proof.
  unfold token. pose proof (skip_scalar_shorter s) as Hs.
  repeat match goal with
    | |- (if ?b then _ else _) = _ → _ => destruct b
    | |- Some _ = Some _ → _ => intros [= <- <-]; lia
    | |- None = _ → _ => done
    end.
  - intros (r & Hr%scan_string_shorter & [= -> ->])%fmap_Some. lia.
  - intros (r & Hr%strip_prefix_shorter & [= -> ->])%fmap_Some. lia.
  - intros (r & Hr%strip_prefix_shorter & [= -> ->])%fmap_Some. lia.
  - intros (r & Hr%strip_prefix_shorter & [= -> ->])%fmap_Some. lia.
Qed.

Lemma scan_from_cons fuel depth tokens c s :
  scan_from (S fuel) depth tokens (String c s)
  = if is_json_ws c then scan_from fuel depth tokens s
    else let! (depth, s) := token depth c s in
         if TOKEN_LIMIT <? tokens + 1 then None else scan_from fuel depth (tokens + 1) s.
Proof. done. Qed.

(** More fuel than bytes changes nothing. *)
Lemma scan_fuel f1 f2 depth tokens s :
  (String.length s < f1)%nat → (String.length s < f2)%nat → scan_from f1 depth tokens s = scan_from f2 depth tokens s.
Proof.
  revert f2 depth tokens s. induction f1 as [|f1 IH]; intros [|f2] depth tokens s H1 H2; try lia.
  destruct s as [|c s]; [done|]. cbn [scan_from String.length] in *.
  destruct (is_json_ws c); [apply IH; lia|].
  destruct (token depth c s) as [[depth' s']|] eqn:Et; [|done]. apply token_shorter in Et.
  destruct (TOKEN_LIMIT <? tokens + 1); [done|]. apply IH; lia.
Qed.

Lemma scan_ws depth tokens c s : is_json_ws c = true → scan depth tokens (String c s) = scan depth tokens s.
Proof. intros Hc. unfold scan. cbn [String.length]. by rewrite scan_from_cons, Hc. Qed.
Lemma scan_spaces depth tokens w s : spaces w → scan depth tokens (w +:+ s) = scan depth tokens s.
Proof.
  induction w as [|c w IH]; [done|]. intros [Hc Hw]%andb_true_iff.
  change (String c w +:+ s) with (String c (w +:+ s)). by rewrite scan_ws, IH.
Qed.
Lemma scan_token depth tokens c s :
  is_json_ws c = false →
  scan depth tokens (String c s)
  = let! (depth, s) := token depth c s in if TOKEN_LIMIT <? tokens + 1 then None else scan depth (tokens + 1) s.
Proof.
  intros Hc. unfold scan. cbn [String.length]. rewrite scan_from_cons, Hc.
  destruct (token depth c s) as [[depth' s']|] eqn:Et; [|done]. apply token_shorter in Et.
  destruct (TOKEN_LIMIT <? tokens + 1); [done|]. apply scan_fuel; lia.
Qed.

Lemma fits_cases depth tokens h n :
  fits depth tokens h n = true ∧ (depth + h ≤ 32 ∧ tokens + n ≤ 4096)
  ∨ fits depth tokens h n = false ∧ ¬ (depth + h ≤ 32 ∧ tokens + n ≤ 4096).
Proof.
  unfold fits, DEPTH_LIMIT, TOKEN_LIMIT. destruct (Z.leb_spec (depth + h) 32), (Z.leb_spec (tokens + n) 4096); simpl; lia.
Qed.
(** Decide every [fits] of the goal. *)
Ltac case_fits :=
  repeat match goal with
    | |- context [fits ?d ?k ?h ?n] => destruct (fits_cases d k h n) as [[-> ?]|[-> ?]]
    end.

(** One token that leaves the depth as it is. *)
Lemma scan_flat depth tokens c s s' :
  depth ≤ 32 → is_json_ws c = false → token depth c s = Some (depth, s') →
  scan depth tokens (String c s) = if fits depth tokens 0 1 then scan depth (tokens + 1) s' else None.
Proof.
  intros Hd Hc Ht. rewrite scan_token, Ht by done. unfold TOKEN_LIMIT.
  case_fits; destruct (Z.ltb_spec 4096 (tokens + 1)); try done; lia.
Qed.
Lemma scan_open depth tokens c s :
  depth ≤ 32 → is_open c = true →
  scan depth tokens (String c s) = if fits depth tokens 1 1 then scan (depth + 1) (tokens + 1) s else None.
Proof.
  intros Hd Hc. assert (Hw : is_json_ws c = false).
  { revert Hc. unfold is_open. rewrite orb_true_iff, !Ascii.eqb_eq. by intros [-> | ->]. }
  rewrite scan_token by done. unfold token. rewrite Hc. unfold DEPTH_LIMIT, TOKEN_LIMIT.
  case_fits; destruct (Z.ltb_spec 32 (depth + 1)), (Z.ltb_spec 4096 (tokens + 1)); try done; lia.
Qed.
Lemma scan_close depth tokens c s :
  0 ≤ depth < 32 → is_close c = true →
  scan (depth + 1) tokens (String c s) = if fits depth tokens 0 1 then scan depth (tokens + 1) s else None.
Proof.
  intros Hd Hc. assert (is_json_ws c = false ∧ is_open c = false) as [Hw Ho].
  { revert Hc. unfold is_close. rewrite orb_true_iff, !Ascii.eqb_eq. by intros [-> | ->]. }
  rewrite scan_token by done. unfold token. rewrite Ho, Hc.
  assert ((depth + 1 =? 0) = false) as -> by (apply Z.eqb_neq; lia). replace (depth + 1 - 1) with depth by lia.
  unfold TOKEN_LIMIT. case_fits; destruct (Z.ltb_spec 4096 (tokens + 1)); try done; lia.
Qed.

(** What may follow a number. *)
Definition boundary (s : string) : Prop := match s with EmptyString => True | String c _ => ends_scalar c = true end.
Lemma boundary_spaces w s : spaces w → boundary s → boundary (w +:+ s).
Proof. destruct w as [|c w]; [done|]. intros [Hc _]%andb_true_iff _. simpl. unfold ends_scalar. by rewrite Hc. Qed.

Lemma ws_flags c : is_json_ws c = true → is_open c = false ∧ is_close c = false ∧ is_number_start c = false.
Proof. unfold is_json_ws. rewrite !orb_true_iff, !Ascii.eqb_eq. by intros [[[->| ->]| ->]| ->]. Qed.
Lemma number_flags c : is_number_start c = true →
  is_json_ws c = false ∧ is_open c = false ∧ is_close c = false
  ∧ (Ascii.eqb c ":" || Ascii.eqb c "," = false) ∧ Ascii.eqb c "034" = false.
Proof.
  assert (Hall : negb (is_number_start c) || negb (is_json_ws c || is_open c || is_close c || Ascii.eqb c ":" || Ascii.eqb c ","
    || Ascii.eqb c "034") = true) by (revert c; by apply forall_ascii).
  intros Hn. rewrite Hn in Hall. simpl in Hall. by destruct (is_json_ws c), (is_open c), (is_close c), (Ascii.eqb c ":"),
    (Ascii.eqb c ","), (Ascii.eqb c "034").
Qed.

Lemma number_not_end c : is_number_start c = true → ends_scalar c = false.
Proof.
  intros Hc. destruct (number_flags c Hc) as (Hw & _ & Hcl & Hp & _). unfold ends_scalar. rewrite Hw.
  apply orb_false_iff in Hp as [_ Hp]. unfold is_close in Hcl. apply orb_false_iff in Hcl as [Hc1 Hc2]. by rewrite Hp, Hc1, Hc2.
Qed.
Lemma skip_number n rest : all_bytes (λ c, is_ascii c && negb (ends_scalar c)) n = true → boundary rest →
  skip_scalar (n +:+ rest) = rest.
Proof.
  induction n as [|c n IH].
  - intros _. destruct rest as [|c r]; [done|]. cbn [boundary]. intros Hc.
    change (EmptyString +:+ String c r) with (String c r). cbn [skip_scalar]. by rewrite Hc.
  - intros [[_ Hc]%andb_true_iff Hn]%andb_true_iff Hb. change (String c n +:+ rest) with (String c (n +:+ rest)).
    cbn [skip_scalar]. destruct (ends_scalar c); [done|]. by apply IH.
Qed.

Section exact.
Context (string_from_slice : string → option string).
Local Abbreviation spelled := (spelled string_from_slice).
Local Abbreviation spelled_elements := (spelled_elements string_from_slice).
Local Abbreviation spelled_members := (spelled_members string_from_slice).
Local Abbreviation literal := (literal string_from_slice).

Lemma quoted_app b rest : quoted b +:+ rest = String quote (b +:+ String quote rest).
Proof.
  unfold quoted. change (String quote (b +:+ str1 quote) +:+ rest) with (String quote ((b +:+ str1 quote) +:+ rest)).
  by rewrite <-str_app_assoc.
Qed.
Lemma quoted_utf8 b rest : literal b → is_utf8 rest = true → is_utf8 (quoted b +:+ rest) = true.
Proof. intros [Hb _] Hr. rewrite quoted_app, is_utf8_ascii by done. by apply Hb. Qed.
Lemma number_ascii n : number_text n → all_bytes is_ascii n = true.
Proof.
  intros (c & r & -> & Hc & Hr). simpl. apply andb_true_iff. split.
  - revert Hc. unfold is_number_start, is_ascii_digit, ascii_in, is_ascii. rewrite orb_true_iff, Ascii.eqb_eq.
    intros [->|Hc]; [done|]. apply andb_true_iff in Hc as [_ Hc]. apply Z.leb_le in Hc. apply Z.ltb_lt. lia.
  - eapply all_bytes_impl; [|exact Hr]. by intros d [? _]%andb_true_iff.
Qed.

Lemma spelled_utf8 :
  (∀ t s, spelled t s → ∀ rest, is_utf8 rest = true → is_utf8 (s +:+ rest) = true)
  ∧ (∀ l s, spelled_elements l s → ∀ rest, is_utf8 rest = true → is_utf8 (s +:+ rest) = true)
  ∧ (∀ ms s, spelled_members ms s → ∀ rest, is_utf8 rest = true → is_utf8 (s +:+ rest) = true).
Proof.
  apply spelled_all_ind; intros; rewrite <-?str_app_assoc.
  all: repeat first
    [ done
    | assumption
    | rewrite spaces_utf8 by assumption
    | rewrite is_utf8_ascii_app by (first [reflexivity | by apply number_ascii])
    | apply quoted_utf8; [assumption|]
    | match goal with IH : ∀ rest, _ → is_utf8 (?s +:+ rest) = true |- is_utf8 (?s +:+ _) = true => apply IH end ].
Qed.

(** From any state with room, [s] is scanned like something of height [h] and
    [n] tokens, before whatever satisfies [B]. *)
Definition scans (B : string → Prop) (h n : Z) (s : string) : Prop :=
  0 ≤ h ∧ 0 ≤ n ∧ ∀ depth tokens rest, 0 ≤ depth ≤ 32 → tokens ≤ 4096 → is_utf8 rest = true → B rest →
    scan depth tokens (s +:+ rest) = if fits depth tokens h n then scan depth (tokens + n) rest else None.
Definition anything : string → Prop := λ _, True.

Lemma scans_flat (B : string → Prop) c s0 :
  is_json_ws c = false →
  (∀ depth rest, is_utf8 rest = true → B rest → token depth c (s0 +:+ rest) = Some (depth, rest)) →
  scans B 0 1 (String c s0).
Proof.
  intros Hc Ht. split; [done|]. split; [done|]. intros depth tokens rest Hd Hk Hu Hb.
  change (String c s0 +:+ rest) with (String c (s0 +:+ rest)). apply scan_flat; [lia|done|by apply Ht].
Qed.

Lemma scans_quoted b : literal b → scans anything 0 1 (quoted b).
Proof.
  intros [Hb _]. apply scans_flat; [done|]. intros depth rest Hu _. rewrite <-str_app_assoc.
  change (str1 quote +:+ rest) with (String quote rest). destruct (Hb rest Hu) as [_ Hs].
  change (token depth quote ?s) with ((λ rest, (depth, rest)) <$> scan_string 0 0 s). by rewrite Hs.
Qed.
Lemma scans_number n : number_text n → scans boundary 0 1 n.
Proof.
  intros (c & r & -> & Hc & Hr). destruct (number_flags c Hc) as (Hw & Ho & Hcl & Hp & Hq).
  apply scans_flat; [done|]. intros depth rest _ Hb. unfold token. rewrite Ho, Hcl, Hp, Hq, Hc. by rewrite skip_number.
Qed.
Lemma scans_mark c : is_json_ws c = false → Ascii.eqb c ":" || Ascii.eqb c "," = true → scans anything 0 1 (str1 c).
Proof.
  intros Hw Hc. apply scans_flat; [done|]. intros depth rest _ _. unfold token.
  assert (is_open c = false ∧ is_close c = false) as [-> ->]
    by (revert Hc; rewrite orb_true_iff, !Ascii.eqb_eq; by intros [-> | ->]).
  by rewrite Hc.
Qed.
Lemma scans_spaces w : spaces w → scans anything 0 0 w.
Proof.
  intros Hw. split; [done|]. split; [done|]. intros depth tokens rest Hd Hk Hu Hb. rewrite scan_spaces by done.
  case_fits; [|lia]. f_equal. lia.
Qed.

(** One after the other. *)
Lemma scans_app (B1 B2 : string → Prop) h1 n1 s1 h2 n2 s2 :
  scans B1 h1 n1 s1 → scans B2 h2 n2 s2 → (∀ rest, is_utf8 rest = true → is_utf8 (s2 +:+ rest) = true) →
  (∀ rest, B2 rest → B1 (s2 +:+ rest)) → scans B2 (Z.max h1 h2) (n1 + n2) (s1 +:+ s2).
Proof.
  intros (Hh1 & Hn1 & H1) (Hh2 & Hn2 & H2) Hu2 Hb2. split; [lia|]. split; [lia|].
  intros depth tokens rest Hd Hk Hu Hb. rewrite <-str_app_assoc, H1 by auto.
  destruct (fits_cases depth tokens h1 n1) as [[-> ?]|[-> ?]]; [|case_fits; [lia|done]].
  rewrite H2 by (auto; lia). case_fits; try done; try lia. f_equal. lia.
Qed.
(** What is written between the brackets of an array or an object. *)
Lemma scans_bracketed (B : string → Prop) o c s h n :
  is_open o = true → is_close c = true → (∀ rest, B (String c rest)) → scans B h n s →
  scans anything (1 + h) (2 + n) (String o (s +:+ str1 c)).
Proof.
  intros Ho Hc HB (Hh & Hn & Hs). split; [lia|]. split; [lia|]. intros depth tokens rest Hd Hk Hu Hb.
  change (String o (s +:+ str1 c) +:+ rest) with (String o ((s +:+ str1 c) +:+ rest)). rewrite <-str_app_assoc.
  change (str1 c +:+ rest) with (String c rest).
  assert (Hclose : is_ascii c = true) by (revert Hc; unfold is_close; rewrite orb_true_iff, !Ascii.eqb_eq; by intros [-> | ->]).
  rewrite scan_open by (done || lia).
  destruct (fits_cases depth tokens 1 1) as [[-> ?]|[-> ?]]; [|case_fits; [lia|done]].
  rewrite Hs by (first [lia|by rewrite is_utf8_ascii|done]).
  destruct (fits_cases (depth + 1) (tokens + 1) h n) as [[-> ?]|[-> ?]]; [|case_fits; [lia|done]].
  rewrite scan_close by (done || lia). case_fits; try done; try lia. f_equal. lia.
Qed.
Lemma scans_weaken (B B' : string → Prop) h n h' n' s :
  scans B h n s → (∀ rest, B' rest → B rest) → h = h' → n = n' → scans B' h' n' s.
Proof. intros (Hh & Hn & Hs) HB <- <-. split; [done|]. split; [done|]. intros. apply Hs; auto. Qed.

Ltac utf8_side :=
  repeat first
    [ done
    | assumption
    | rewrite <-str_app_assoc
    | rewrite spaces_utf8 by assumption
    | rewrite is_utf8_ascii_app by reflexivity
    | apply quoted_utf8; [assumption|]
    | match goal with
      | H : spelled _ ?s |- is_utf8 (?s +:+ _) = true => apply (proj1 spelled_utf8 _ _ H)
      | H : spelled_elements _ ?s |- is_utf8 (?s +:+ _) = true => apply (proj1 (proj2 spelled_utf8) _ _ H)
      | H : spelled_members _ ?s |- is_utf8 (?s +:+ _) = true => apply (proj2 (proj2 spelled_utf8) _ _ H)
      end ].
Ltac boundary_side := intros; first [exact I | rewrite <-?str_app_assoc; apply boundary_spaces; [assumption|]; first [assumption | reflexivity]].

Lemma spelled_scans :
  (∀ t s, spelled t s → scans boundary (height t) (tokens_of t) s)
  ∧ (∀ l s, spelled_elements l s →
       l ≠ [] ∧ scans boundary (max_of (List.map height l)) (commas l + sumZ (List.map tokens_of l)) s)
  ∧ (∀ ms s, spelled_members ms s →
       ms ≠ [] ∧ scans boundary (max_of (List.map (λ m, height (snd m)) ms))
                   (commas ms + sumZ (List.map (λ m, 2 + tokens_of (snd m)) ms)) s).
Proof.
  apply spelled_all_ind.
  1-3: apply scans_flat; [done|]; intros depth rest _ _; by unfold token.
  - intros n Hn. by apply scans_number.
  - intros b Hb. eapply scans_weaken; [by apply scans_quoted|done..].
  - intros w Hw. eapply scans_weaken; [apply (scans_bracketed anything "[" "]"); [done..|by apply scans_spaces]|done..].
  - intros l s _ [_ Hs]. eapply scans_weaken; [apply (scans_bracketed boundary "[" "]"); [done..|exact Hs]|done..|simpl; lia].
  - intros w Hw. eapply scans_weaken; [apply (scans_bracketed anything "{" "}"); [done..|by apply scans_spaces]|done..].
  - intros ms s _ [_ Hs]. eapply scans_weaken; [apply (scans_bracketed boundary "{" "}"); [done..|exact Hs]|done..|simpl; lia].
  - intros v w1 s w2 Hw1 Hv Hs Hw2. split; [done|].
    eapply scans_weaken; [apply (scans_app anything boundary); [by apply scans_spaces|
      apply (scans_app boundary boundary); [exact Hs|eapply scans_weaken; [by apply scans_spaces|done..]| |]| |]|done| |].
    all: try (intros; utf8_side). all: try boundary_side.
    all: destruct Hs as (? & ? & _); unfold commas; simpl; lia.
  - intros v w1 s w2 rest s' Hw1 Hv Hs Hw2 Hrest [Hne Hs']. split; [done|].
    eapply scans_weaken; [apply (scans_app anything boundary); [by apply scans_spaces|
      apply (scans_app boundary boundary); [exact Hs|
        apply (scans_app anything boundary); [by apply scans_spaces|
          apply (scans_app anything boundary); [by apply (scans_mark ",")|exact Hs'| |]| |]| |]| |]|done| |].
    all: try (intros; utf8_side). all: try boundary_side.
    all: destruct Hs as (? & ? & _), Hs' as (? & ? & _); unfold commas; simpl; destruct rest; [done|]; simpl; lia.
  - intros b v w1 w2 w3 s w4 Hw1 Hb Hw2 Hw3 Hv Hs Hw4. split; [done|].
    eapply scans_weaken; [apply (scans_app anything boundary); [by apply scans_spaces|
      apply (scans_app anything boundary); [by apply scans_quoted|
        apply (scans_app anything boundary); [by apply scans_spaces|
          apply (scans_app anything boundary); [by apply (scans_mark ":")|
            apply (scans_app anything boundary); [by apply scans_spaces|
              apply (scans_app boundary boundary); [exact Hs|eapply scans_weaken; [by apply scans_spaces|done..]| |]
              | |]| |]| |]| |]| |]|done| |].
    all: try (intros; utf8_side). all: try boundary_side.
    all: destruct Hs as (? & ? & _); unfold commas; simpl; lia.
  - intros b v w1 w2 w3 s w4 rest s' Hw1 Hb Hw2 Hw3 Hv Hs Hw4 Hrest [Hne Hs']. split; [done|].
    eapply scans_weaken; [apply (scans_app anything boundary); [by apply scans_spaces|
      apply (scans_app anything boundary); [by apply scans_quoted|
        apply (scans_app anything boundary); [by apply scans_spaces|
          apply (scans_app anything boundary); [by apply (scans_mark ":")|
            apply (scans_app anything boundary); [by apply scans_spaces|
              apply (scans_app boundary boundary); [exact Hs|
                apply (scans_app anything boundary); [by apply scans_spaces|
                  apply (scans_app anything boundary); [by apply (scans_mark ",")|exact Hs'| |]| |]
                | |]| |]| |]| |]| |]| |]|done| |].
    all: try (intros; utf8_side). all: try boundary_side.
    all: destruct Hs as (? & ? & _), Hs' as (? & ? & _); unfold commas; simpl; destruct rest; [done|]; simpl; lia.
Qed.

(** A document passes the scanner exactly within the bounds. *)
Lemma document_scans t body : document string_from_slice t body →
  scan_json body = if fits 0 0 (height t) (tokens_of t) then Some tt else None.
Proof.
  intros (w1 & s & w2 & Hw1 & Hs & Hw2 & ->). change (scan_json ?b) with (scan 0 0 b).
  rewrite scan_spaces by done. destruct (proj1 spelled_scans t s Hs) as (_ & _ & Hscan).
  rewrite Hscan; [|lia|lia| |].
  - by rewrite <-(str_app_nil_r w2), scan_spaces.
  - by rewrite <-(str_app_nil_r w2), spaces_utf8.
  - rewrite <-(str_app_nil_r w2). by apply boundary_spaces.
Qed.

(** ** The walk, step by step *)

Context (stage : ProtectedStage).
Local Abbreviation walk_value := (walk_value string_from_slice stage).
Local Abbreviation walk_members := (walk_members string_from_slice stage).
Local Abbreviation walk_elements := (walk_elements string_from_slice stage).
Local Abbreviation key_text := (key_text string_from_slice).
Local Abbreviation distinct := (distinct string_from_slice stage).
Local Abbreviation fresh_names := (fresh_names string_from_slice stage).

Lemma fresh_names_spec seen path ms :
  fresh_names seen path ms = true
  ↔ NoDup (protected_names string_from_slice stage path ms)
    ∧ Forall (λ k, k ∉ seen) (protected_names string_from_slice stage path ms).
Proof.
  revert seen. induction ms as [|[b v] ms IH]; intros seen; [by repeat constructor|].
  cbn [HandshakeJsonSpec.fresh_names]. unfold protected_names in *. cbn [List.map fst List.filter].
  destruct (protected_member stage path (key_text b)); cbn [andb negb]; [|apply IH].
  rewrite andb_true_iff, negb_true_iff, bool_decide_eq_false, IH, NoDup_cons, Forall_cons, !Forall_forall. split.
  - intros (Hk & Hn & Hs). split_and!; [|done|done|].
    + intros Hin. apply (Hs _ Hin). left.
    + intros k Hin Hseen. apply (Hs k Hin). by right.
  - intros ((Hk & Hn) & Hkey & Hs). split_and!; [done..|]. intros k Hin [->|Hseen]%elem_of_cons; [done|]. by apply (Hs k).
Qed.
Lemma fresh_names_start path ms :
  fresh_names [] path ms = bool_decide (NoDup (protected_names string_from_slice stage path ms)).
Proof.
  apply eq_true_iff_eq. rewrite fresh_names_spec, bool_decide_eq_true. split; [by intros [? _]|].
  intros H. split; [done|]. apply Forall_forall. intros k _ Hk. by apply elem_of_nil in Hk.
Qed.

Lemma skip_spaces w s : spaces w → skip_ws (w +:+ s) = skip_ws s.
Proof.
  induction w as [|c w IH]; [done|]. intros [Hc Hw]%andb_true_iff. change (String c w +:+ s) with (String c (w +:+ s)).
  cbn [skip_ws]. rewrite Hc. by apply IH.
Qed.
Lemma skip_ws_idem s : skip_ws (skip_ws s) = skip_ws s.
Proof. induction s as [|c s IH]; [done|]. cbn [skip_ws]. destruct (is_json_ws c) eqn:E; [done|]. cbn [skip_ws]. by rewrite E. Qed.
Lemma skip_ws_done c s : is_json_ws c = false → skip_ws (String c s) = String c s.
Proof. cbn [skip_ws]. by intros ->. Qed.

Lemma walk_string_quoted w b rest :
  spaces w → literal b → is_utf8 rest = true →
  walk_string string_from_slice (w +:+ quoted b +:+ rest) = Some (key_text b, rest).
Proof.
  intros Hw [Hb [k Hk]] Hr. unfold walk_string. rewrite skip_spaces, quoted_app, skip_ws_done by done. cbn [expect].
  change (Ascii.eqb "034" quote) with true. cbn iota. destruct (Hb rest Hr) as [_ ->].
  rewrite <-quoted_app. replace (String.length (quoted b +:+ rest) - String.length rest)%nat with (String.length (quoted b))
    by (rewrite length_str_app; lia).
  rewrite take_bytes_app. unfold HandshakeJsonSpec.key_text. by rewrite Hk.
Qed.

(** A value starts with a byte that closes nothing. *)
Lemma spelled_start t s : spelled t s → ∃ c r, s = String c r ∧ is_json_ws c = false ∧ is_close c = false.
Proof.
  destruct 1 as [| | |n (c & r & -> & Hc & _)| | | | |]; try (by eexists _, _).
  destruct (number_flags c Hc) as (? & _ & ? & _). by exists c, r.
Qed.

Lemma walk_value_spaces fuel path w s : spaces w → walk_value fuel path (w +:+ s) = walk_value fuel path s.
Proof. intros Hw. destruct fuel; [done|]. cbn [HandshakeJson.walk_value]. by rewrite skip_spaces. Qed.
Lemma walk_string_skip s : walk_string string_from_slice (skip_ws s) = walk_string string_from_slice s.
Proof. unfold walk_string. by rewrite skip_ws_idem. Qed.
Lemma walk_members_skip fuel seen path s : walk_members fuel seen path (skip_ws s) = walk_members fuel seen path s.
Proof. destruct fuel; [done|]. cbn [HandshakeJson.walk_members]. by rewrite walk_string_skip. Qed.
Lemma walk_elements_skip fuel path s : walk_elements fuel path (skip_ws s) = walk_elements fuel path s.
Proof.
  destruct fuel as [|fuel]; [done|]. cbn [HandshakeJson.walk_elements]. destruct fuel as [|fuel]; [done|].
  cbn [HandshakeJson.walk_value]. by rewrite skip_ws_idem.
Qed.

Lemma walk_array fuel path s :
  walk_value (S fuel) path (String "[" s)
  = match expect "]" (skip_ws s) with Some rest => Some rest | None => walk_elements fuel (path ++ [ArrayElement]) s end.
Proof. rewrite <-walk_elements_skip. done. Qed.
Lemma walk_object fuel path s :
  walk_value (S fuel) path (String "{" s)
  = match expect "}" (skip_ws s) with Some rest => Some rest | None => walk_members fuel [] path s end.
Proof. rewrite <-walk_members_skip. done. Qed.
Lemma elements_start l s r : spelled_elements l s → expect "]" (skip_ws (s +:+ r)) = None.
Proof.
  destruct 1 as [v w1 s w2 Hw1 Hs _|v w1 s w2 rest s' Hw1 Hs _ _]; rewrite <-str_app_assoc, skip_spaces by done.
  all: destruct (spelled_start _ _ Hs) as (c & r' & -> & Hw & Hc).
  all: rewrite <-!str_app_assoc; change (String c r' +:+ ?x) with (String c (r' +:+ x)); rewrite skip_ws_done by done; cbn [expect].
  all: revert Hc; unfold is_close; intros [_ Hc]%orb_false_iff; by rewrite Ascii.eqb_sym, Hc.
Qed.
Lemma members_start ms s r : spelled_members ms s → expect "}" (skip_ws (s +:+ r)) = None.
Proof. destruct 1; rewrite <-str_app_assoc, skip_spaces by done; reflexivity. Qed.

Lemma walk_elements_unfold fuel path s :
  walk_elements (S fuel) path s
  = let! rest := walk_value fuel path s in
    match skip_ws rest with
    | EmptyString => None
    | String c rest =>
        if Ascii.eqb c "," then walk_elements fuel path rest else if Ascii.eqb c "]" then Some rest else None
    end.
Proof. done. Qed.
Lemma walk_members_unfold fuel seen path s :
  walk_members (S fuel) seen path s
  = let! (key, rest) := walk_string string_from_slice s in
    let protected := protected_member stage path key in
    if protected && bool_decide (key ∈ seen) then None
    else
      let! rest := expect ":" (skip_ws rest) in
      let! rest := walk_value fuel (path ++ [Key key]) rest in
      match skip_ws rest with
      | EmptyString => None
      | String c rest =>
          if Ascii.eqb c "," then walk_members fuel (if protected then key :: seen else seen) path (skip_ws rest)
          else if Ascii.eqb c "}" then Some rest
          else None
      end.
Proof. done. Qed.

Lemma walk_elements_spaces fuel path w s : spaces w → walk_elements fuel path (w +:+ s) = walk_elements fuel path s.
Proof. intros Hw. rewrite <-(walk_elements_skip _ _ (w +:+ s)), <-(walk_elements_skip _ _ s). by rewrite skip_spaces. Qed.

(** The loops, behind a value. *)
Lemma walk_elements_step fuel path v s w2 c r :
  walk_value fuel path (s +:+ w2 +:+ String c r) = (if distinct path v then Some (w2 +:+ String c r) else None) →
  spaces w2 → is_json_ws c = false →
  walk_elements (S fuel) path (s +:+ w2 +:+ String c r)
  = if distinct path v
    then if Ascii.eqb c "," then walk_elements fuel path r else if Ascii.eqb c "]" then Some r else None
    else None.
Proof.
  intros Hv Hw Hc. rewrite walk_elements_unfold, Hv. destruct (distinct path v); [|done].
  by rewrite skip_spaces, skip_ws_done.
Qed.
Lemma walk_members_step fuel seen path b v w1 w2 w3 s w4 c r :
  let key := key_text b in
  let protected := protected_member stage path key in
  walk_value fuel (path ++ [Key key]) (s +:+ w4 +:+ String c r)
    = (if distinct (path ++ [Key key]) v then Some (w4 +:+ String c r) else None) →
  spaces w1 → literal b → spaces w2 → spaces w3 → spaces w4 → is_json_ws c = false →
  is_utf8 (s +:+ w4 +:+ String c r) = true →
  walk_members (S fuel) seen path (w1 +:+ quoted b +:+ w2 +:+ String ":" (w3 +:+ s +:+ w4 +:+ String c r))
  = if negb (protected && bool_decide (key ∈ seen)) && distinct (path ++ [Key key]) v
    then if Ascii.eqb c "," then walk_members fuel (if protected then key :: seen else seen) path r
         else if Ascii.eqb c "}" then Some r else None
    else None.
Proof.
  intros key protected Hv Hw1 Hb Hw2 Hw3 Hw4 Hc Hu. rewrite walk_members_unfold.
  rewrite walk_string_quoted by (done || by rewrite spaces_utf8, is_utf8_ascii, spaces_utf8).
  cbv zeta. fold key. fold protected. destruct (protected && bool_decide (key ∈ seen)); [done|]. cbn [negb andb].
  rewrite skip_spaces, skip_ws_done by done. cbn [expect]. rewrite Ascii.eqb_refl.
  rewrite walk_value_spaces, Hv by done. destruct (distinct (path ++ [Key key]) v); [|done].
  rewrite skip_spaces, skip_ws_done by done. by rewrite walk_members_skip.
Qed.

Lemma boundary_mark w c r : spaces w → ends_scalar c = true → boundary (w +:+ String c r).
Proof. intros Hw Hc. by apply boundary_spaces. Qed.

Ltac shape :=
  rewrite <-?str_app_assoc;
  repeat match goal with |- context [String ?c EmptyString +:+ ?x] => change (String c EmptyString +:+ x) with (String c x) end.
Ltac fuel_side := repeat (rewrite ?length_str_app in *; cbn [String.length String.append quoted str1] in * ); lia.

Lemma spelled_walks :
  (∀ t s, spelled t s → ∀ fuel path rest, (2 * String.length s ≤ fuel)%nat → is_utf8 rest = true → boundary rest →
     walk_value fuel path (s +:+ rest) = if distinct path t then Some rest else None)
  ∧ (∀ l s, spelled_elements l s → ∀ fuel path rest, (2 * String.length s + 1 ≤ fuel)%nat → is_utf8 rest = true →
     walk_elements fuel path (s +:+ String "]" rest) = if forallb (distinct path) l then Some rest else None)
  ∧ (∀ ms s, spelled_members ms s → ∀ fuel seen path rest, (2 * String.length s + 1 ≤ fuel)%nat → is_utf8 rest = true →
     walk_members fuel seen path (s +:+ String "}" rest)
     = if fresh_names seen path ms && forallb (λ m, distinct (path ++ [Key (key_text (fst m))]) (snd m)) ms
       then Some rest else None).
Proof.
  apply spelled_all_ind.
  1-3: intros [|fuel] path rest Hf Hu Hb; [simpl in Hf; lia|]; reflexivity.
  - intros n (c & r & -> & Hc & Hr) [|fuel] path rest Hf Hu Hb; [simpl in Hf; lia|].
    destruct (number_flags c Hc) as (Hw & Ho & Hcl & _ & Hq). unfold is_open in Ho. apply orb_false_iff in Ho as [Ho1 Ho2].
    change (String c r +:+ rest) with (String c (r +:+ rest)). cbn [HandshakeJson.walk_value].
    rewrite skip_ws_done by done. rewrite Ho1, Ho2, Hq, Hc. cbn [HandshakeJsonSpec.distinct skip_scalar].
    rewrite (number_not_end c Hc). by rewrite skip_number.
  - intros b Hb [|fuel] path rest Hf Hu _; [simpl in Hf; lia|].
    change (snd <$> walk_string string_from_slice (EmptyString +:+ quoted b +:+ rest) = Some rest).
    by rewrite walk_string_quoted.
  - intros w Hw [|fuel] path rest Hf Hu _; [simpl in Hf; lia|]. shape. rewrite walk_array, skip_spaces by done. done.
  - intros l s Hl IH [|fuel] path rest Hf Hu _; [simpl in Hf; lia|]. shape. rewrite walk_array.
    rewrite (elements_start l) by done. apply IH; [|done]. fuel_side.
  - intros w Hw [|fuel] path rest Hf Hu _; [simpl in Hf; lia|]. shape. rewrite walk_object, skip_spaces by done. done.
  - intros ms s Hms IH [|fuel] path rest Hf Hu _; [simpl in Hf; lia|]. shape. rewrite walk_object.
    rewrite (members_start ms) by done. rewrite IH; [|fuel_side|done]. by rewrite fresh_names_start.
  - intros v w1 s w2 Hw1 Hv IH Hw2 [|fuel] path rest Hf Hu; [lia|]. shape. rewrite walk_elements_spaces by done.
    rewrite walk_elements_step with (v := v) by (first [done|apply IH; [fuel_side|by rewrite spaces_utf8|by apply boundary_mark]]).
    cbn [forallb]. by rewrite andb_true_r.
  - intros v w1 s w2 l s' Hw1 Hv IH Hw2 Hl IHl [|fuel] path rest Hf Hu; [lia|]. shape. rewrite walk_elements_spaces by done.
    rewrite walk_elements_step with (v := v).
    + cbn [forallb]. change (Ascii.eqb "," ",") with true. cbn iota.
      destruct (distinct path v); [|done]. apply IHl; [fuel_side|done].
    + apply IH; [fuel_side| |by apply boundary_mark].
      rewrite spaces_utf8, is_utf8_ascii by done. by apply (proj1 (proj2 spelled_utf8) _ _ Hl).
    + done.
    + done.
  - intros b v w1 w2 w3 s w4 Hw1 Hb Hw2 Hw3 Hv IH Hw4 [|fuel] seen path rest Hf Hu; [lia|]. shape.
    rewrite walk_members_step with (v := v); try done.
    + cbn [HandshakeJsonSpec.fresh_names forallb fst snd]. by rewrite !andb_true_r.
    + apply IH; [fuel_side|by rewrite spaces_utf8|by apply boundary_mark].
    + apply (proj1 spelled_utf8 _ _ Hv). by rewrite spaces_utf8.
  - intros b v w1 w2 w3 s w4 ms s' Hw1 Hb Hw2 Hw3 Hv IH Hw4 Hms IHms [|fuel] seen path rest Hf Hu; [lia|]. shape.
    assert (Hu' : is_utf8 (s' +:+ String "}" rest) = true) by by apply (proj2 (proj2 spelled_utf8) _ _ Hms).
    rewrite walk_members_step with (v := v); try done.
    + cbn [HandshakeJsonSpec.fresh_names forallb fst snd]. change (Ascii.eqb "," ",") with true. cbn iota.
      destruct (negb _); [|done]. destruct (distinct _ v); cbn [andb]; [|by rewrite andb_false_r].
      apply IHms; [fuel_side|done].
    + apply IH; [fuel_side|by rewrite spaces_utf8, is_utf8_ascii|by apply boundary_mark].
    + apply (proj1 spelled_utf8 _ _ Hv). by rewrite spaces_utf8, is_utf8_ascii.
Qed.

(** A document passes the walk exactly if it repeats no name that drives a
    decision. *)
Lemma document_walks t body : document string_from_slice t body → walk string_from_slice stage body = distinct [] t.
Proof.
  intros (w1 & s & w2 & Hw1 & Hs & Hw2 & ->). unfold walk. rewrite walk_value_spaces by done.
  rewrite (proj1 spelled_walks t s Hs).
  - destruct (distinct [] t); [|done]. by rewrite <-(str_app_nil_r w2), skip_spaces.
  - unfold walk_fuel. rewrite !length_str_app. lia.
  - by rewrite <-(str_app_nil_r w2), spaces_utf8.
  - rewrite <-(str_app_nil_r w2). by apply boundary_spaces.
Qed.
End exact.

(** ** Reading with any resolution of repeated members *)

(** How a parser chooses among the values of one name. *)
Record resolution (choose : list raw → option raw) : Prop := {
  chosen : ∀ l v, choose l = Some v → v ∈ l;
  choice : ∀ l, l ≠ [] → is_Some (choose l);
}.

Section readings.
Context (string_from_slice : string → option string) (number_of : string → number).
Local Abbreviation key_text := (key_text string_from_slice).

Definition values_of (key : string) (members : list (string * raw)) : list raw :=
  List.map snd (List.filter (λ m, String.eqb (key_text (fst m)) key) members).

(** [serde_json]'s value of a tree: a later member replaces an earlier one. *)
Fixpoint value_of (t : raw) : json :=
  match t with
  | RNull => JNull
  | RBool b => JBool b
  | RNumber n => JNumber (number_of n)
  | RString b => JString (key_text b)
  | RArray l => JArray (List.map value_of l)
  | RObject ms => object (List.map (λ m, (key_text (fst m), value_of (snd m))) ms)
  end.

Section by_choice.
Context (choose : list raw → option raw).
Definition member_by (key : string) (t : raw) : option raw :=
  match t with RObject ms => choose (values_of key ms) | _ => None end.
Definition text_of_raw (t : raw) : option string := match t with RString b => Some (key_text b) | _ => None end.
Definition elements_of (t : raw) : option (list raw) := match t with RArray l => Some l | _ => None end.

Definition uuid_by (t : raw) : option string :=
  let! value := member_by "cluster_uuid" t in let! uuid := text_of_raw value in parse_cluster_uuid uuid.
Definition versions_by (t : raw) : option (list string) :=
  let! templates := and_then (member_by "component_templates" t) elements_of in
  match templates with
  | [template] =>
      let! name := and_then (member_by "name" template) text_of_raw in
      if String.eqb name TEMPLATE_NAME then
        let! versions := and_then (and_then (and_then (member_by "component_template" template) (member_by "_meta"))
                           (member_by "accepted_schema_versions")) elements_of in
        mapM text_of_raw versions
      else None
  | _ => None
  end.
End by_choice.

Lemma map_get_map_of key l :
  map_get key (map_of l) = last (List.map snd (List.filter (λ m, String.eqb (fst m) key) l)).
Proof.
  induction l as [|m l IH] using rev_ind; [done|].
  rewrite map_get_snoc, List.filter_app, List.map_app. cbn [List.filter].
  destruct (String.eqb (fst m) key); cbn [List.map]; [by rewrite last_snoc|]. by rewrite app_nil_r.
Qed.

Lemma value_member key ms : json_get key (value_of (RObject ms)) = value_of <$> last (values_of key ms).
Proof.
  cbn [value_of]. unfold object, json_get. rewrite map_get_map_of. unfold values_of.
  assert (Hmap : List.map snd (List.filter (λ m, String.eqb (fst m) key) (List.map (λ m, (key_text (fst m), value_of (snd m))) ms))
    = List.map value_of (List.map snd (List.filter (λ m, String.eqb (key_text (fst m)) key) ms))).
  { induction ms as [|[b v] ms IH]; [done|]. cbn [List.map List.filter fst snd]. destruct (String.eqb (key_text b) key); cbn [List.map]; by rewrite IH. }
  rewrite Hmap. by rewrite fmap_last.
Qed.

(** With no repetition there is nothing to choose. *)
Lemma member_agrees stage choose path key t :
  resolution choose → distinct string_from_slice stage path t = true → protected_member stage path key = true →
  json_get key (value_of t) = value_of <$> member_by choose key t
  ∧ ∀ v, member_by choose key t = Some v → distinct string_from_slice stage (path ++ [Key key]) v = true.
Proof.
  intros [Hin Hsome] Hd Hp. destruct t as [| | | | |ms]; try done.
  rewrite value_member. cbn [member_by HandshakeJsonSpec.distinct] in *.
  apply andb_true_iff in Hd as [Hn Hall]. apply bool_decide_eq_true in Hn. rewrite forallb_forall in Hall.
  split.
  - f_equal. assert (Hshort : (length (values_of key ms) ≤ 1)%nat).
    { unfold values_of. rewrite List.length_map. clear Hall Hin Hsome.
      induction ms as [|[b v] ms IH]; [simpl; lia|]. unfold protected_names in *. cbn [List.map List.filter fst] in *.
      destruct (String.eqb_spec (key_text b) key) as [Heq|Hne].
      - rewrite Heq, Hp in Hn. apply NoDup_cons in Hn as [Hk _]. cbn [length].
        enough (List.filter (λ m, String.eqb (key_text (fst m)) key) ms = []) as -> by done.
        destruct (List.filter _ ms) as [|[b' v'] l] eqn:E; [done|]. destruct Hk.
        assert (Hm : List.In (b', v') (List.filter (λ m, String.eqb (key_text (fst m)) key) ms)) by (rewrite E; by left).
        apply List.filter_In in Hm as [Hm Hk%String.eqb_eq]. apply list_elem_of_In, List.filter_In. split; [|done].
        apply List.in_map_iff. by exists (b', v').
      - apply IH. destruct (protected_member stage path (key_text b)); [by apply NoDup_cons in Hn as [_ ?]|done]. }
    destruct (values_of key ms) as [|x [|y l]]; cbn [length] in Hshort; [|..|lia].
    + destruct (choose []) as [v|] eqn:E; [|done]. apply Hin in E. by apply elem_of_nil in E.
    + destruct (Hsome [x]) as [v E]; [done|]. pose proof (Hin _ _ E) as ->%list_elem_of_singleton. by rewrite E.
  - intros v Hv%Hin. unfold values_of in Hv. apply list_elem_of_In, List.in_map_iff in Hv as ([b v'] & <- & Hm).
    apply List.filter_In in Hm as [Hm Hk%String.eqb_eq]. specialize (Hall _ Hm). cbn [fst snd] in *. by rewrite Hk in Hall.
Qed.

Lemma text_agrees v : as_str (value_of v) = text_of_raw v.
Proof. by destruct v. Qed.
Lemma texts_agree l : mapM as_str (List.map value_of l) = mapM text_of_raw l.
Proof. induction l as [|v l IH]; [done|]. cbn [List.map mapM]. by rewrite text_agrees, IH. Qed.
Lemma elements_agree v : as_array (value_of v) = List.map value_of <$> elements_of v.
Proof. by destruct v. Qed.

(** Following one name: [Hd] of the object gives the value and [Hd] of it. *)
Ltac follow Hch Hd key :=
  let Ha := fresh in let Hn := fresh in
  destruct (member_agrees _ _ _ key _ Hch Hd) as [Ha Hn]; [reflexivity|]; rewrite Ha; clear Ha;
  let v := fresh "v" in
  match goal with |- context [member_by ?c key ?t] => destruct (member_by c key t) as [v|] eqn:?; [|done] end;
  specialize (Hn v eq_refl); clear Hd; rename Hn into Hd; cbn [fmap option_fmap option_map and_then].

Lemma uuid_agrees choose t :
  resolution choose → distinct string_from_slice Root [] t = true →
  (let! value := as_object (value_of t) in let! uuid := json_get "cluster_uuid" value in let! uuid := as_str uuid in
   parse_cluster_uuid uuid) = uuid_by choose t.
Proof.
  intros Hch Hd. unfold uuid_by. destruct (member_agrees Root choose [] "cluster_uuid" t Hch Hd eq_refl) as [Ha _].
  destruct t as [| | | | |ms]; try done.
  change (as_object (value_of (RObject ms))) with (Some (value_of (RObject ms))). cbv beta iota. rewrite Ha.
  destruct (member_by _ _ _) as [v|]; [|done]. cbn [fmap option_fmap option_map]. by rewrite text_agrees.
Qed.

Lemma versions_agree choose t :
  resolution choose → distinct string_from_slice Template [] t = true → template_versions (value_of t) = versions_by choose t.
Proof.
  intros Hch Hd. unfold template_versions, versions_by.
  follow Hch Hd "component_templates". rewrite elements_agree.
  destruct (elements_of v) as [l|] eqn:El; [|done]. destruct v as [| | | |l'|]; try done. injection El as ->.
  destruct l as [|x [|y l]]; [done| |done]. cbn [fmap option_fmap option_map List.map].
  cbn [HandshakeJsonSpec.distinct forallb app] in Hd. rewrite andb_true_r in Hd.
  destruct (member_agrees Template choose _ "name" x Hch Hd eq_refl) as [Hname _]. rewrite Hname.
  destruct (member_by choose "name" x) as [n|]; [|done]. cbn [fmap option_fmap option_map and_then]. rewrite text_agrees.
  destruct (text_of_raw n) as [name|]; [|done]. destruct (String.eqb name TEMPLATE_NAME); [|done].
  follow Hch Hd "component_template". follow Hch Hd "_meta". follow Hch Hd "accepted_schema_versions".
  rewrite elements_agree. destruct (elements_of _) as [vs|]; [|done]. cbn [fmap option_fmap option_map].
  apply texts_agree.
Qed.

Context (from_slice : string → option json).

(** C34: On the text of any JSON document the guarded parser answers exactly if
    the document is at most 32 deep, has at most 4,096 tokens, and no object
    repeats a name that drives the decision of the stage; it then answers what
    the deserializer does. *)
Theorem guarded_json_exact stage t body :
  document string_from_slice t body →
  checked_json_stage from_slice string_from_slice body stage
  = if fits 0 0 (height t) (tokens_of t) && distinct string_from_slice stage [] t then from_slice body else None.
Proof.
  intros Hdoc. unfold checked_json_stage, checked_json. rewrite (document_scans _ _ _ Hdoc), (document_walks _ _ _ _ Hdoc).
  destruct (fits _ _ _ _); [|done]. simpl. by destruct (distinct _ _ _ _), (from_slice body).
Qed.

End readings.

(** ** Accepted versions *)

Lemma compare_cons c d a b :
  String.compare (String c a) (String d b) = match Ascii.compare c d with Eq => String.compare a b | r => r end.
Proof. done. Qed.

#[local] Instance str_leb_trans : Transitive (le_rel str_leb).
Proof.
  unfold le_rel, str_leb. intros a. induction a as [|x a IH]; intros [|y b] [|z c]; try done.
  rewrite !compare_cons. unfold Ascii.compare.
  destruct (N.compare_spec (N_of_ascii x) (N_of_ascii y)) as [Exy|Exy|Exy]; [|..|done];
    destruct (N.compare_spec (N_of_ascii y) (N_of_ascii z)) as [Eyz|Eyz|Eyz]; try done;
    destruct (N.compare_spec (N_of_ascii x) (N_of_ascii z)) as [Exz|Exz|Exz]; try done; try lia.
  apply IH.
Qed.
#[local] Instance str_leb_antisymm : AntiSymm (=) (le_rel str_leb).
Proof.
  intros a b. unfold le_rel, str_leb. rewrite String.compare_antisym.
  destruct (String.compare b a) eqn:E; simpl; [|done..]. intros _ _. symmetry. by apply String.compare_eq_iff.
Qed.
Lemma str_leb_total a b : str_leb a b = false → str_leb b a = true.
Proof. unfold str_leb. rewrite (String.compare_antisym b a). by destruct (String.compare a b). Qed.

(** Deduplication keeps the elements, and what is sorted becomes distinct. *)
Lemma elem_of_dedup v l : v ∈ dedup l ↔ v ∈ l.
Proof.
  induction l as [|x l IH]; [done|]. rewrite elem_of_cons, <-IH. cbn [dedup].
  destruct (dedup l) as [|y kept]; [by rewrite elem_of_cons|].
  destruct (String.eqb_spec x y) as [->|]; rewrite !elem_of_cons; tauto.
Qed.
Lemma dedup_sorted l : Sorted (le_rel str_leb) l → Sorted (le_rel str_leb) (dedup l) ∧ NoDup (dedup l).
Proof.
  intros Hs%Sorted_StronglySorted; [|apply _]. induction Hs as [|x l Hs [IHs IHn] Hall]; [by repeat constructor|].
  assert (Hkept : ∀ y, y ∈ dedup l → le_rel str_leb x y) by (intros y Hy%(proj1 (elem_of_dedup _ _)); rewrite Forall_forall in Hall; by apply Hall).
  cbn [dedup]. destruct (dedup l) as [|y kept] eqn:E; [split; [by repeat constructor|apply NoDup_singleton]|].
  destruct (String.eqb_spec x y) as [->|Hne]; [done|]. split.
  - constructor; [done|]. constructor. apply Hkept. left.
  - constructor; [|done]. intros Hin. apply Hne. apply Sorted_StronglySorted in IHs; [|apply _].
    apply StronglySorted_inv in IHs as [_ Hy]. apply elem_of_cons in Hin as [->|Hin]; [done|].
    rewrite Forall_forall in Hy. specialize (Hy x Hin). apply (anti_symm (le_rel str_leb)); [|done]. apply Hkept. left.
Qed.

Definition canonical (values : list string) : list string := dedup (stable_sort str_leb values).
Lemma elem_of_canonical v l : v ∈ canonical l ↔ v ∈ l.
Proof. unfold canonical. by rewrite elem_of_dedup, (stable_sort_perm str_leb l). Qed.
Lemma canonical_set l1 l2 : (∀ v, v ∈ l1 ↔ v ∈ l2) → canonical l1 = canonical l2.
Proof.
  intros Hl. assert (Hc : ∀ l, Sorted (le_rel str_leb) (canonical l) ∧ NoDup (canonical l)).
  { intros l. apply dedup_sorted, stable_sort_sorted, str_leb_total. }
  apply (Sorted_unique (le_rel str_leb)); [apply Hc..|]. apply NoDup_Permutation; [apply Hc..|].
  intros v. by rewrite !elem_of_canonical.
Qed.

(** The frame spells out its entries: none shorter than 256 bytes can be taken
    for others. *)
Lemma be_bytes_small x y : 0 ≤ x < 256 → 0 ≤ y < 256 → be_bytes 4 (wrap 32 x) = be_bytes 4 (wrap 32 y) → x = y.
Proof.
  intros Hx Hy. unfold wrap. rewrite !Z.mod_small by lia. unfold be_bytes. cbn [seq rev app fmap list_fmap].
  change (8 * Z.of_nat 0) with 0. rewrite !Z.shiftr_0_r. intros [= _ _ _ H]. rewrite !Z.mod_small in H by lia. done.
Qed.
Lemma bytes_of_inj a b : bytes_of a = bytes_of b → a = b.
Proof.
  unfold bytes_of. revert b. induction a as [|c a IH]; intros [|d b]; try done. cbn [String.list_ascii_of_string fmap list_fmap].
  intros [= Hc Hab]. f_equal; [|by apply IH]. unfold byte_val in Hc. apply (f_equal ascii_of_N) in Hc || idtac.
  assert (N_of_ascii c = N_of_ascii d) as Hn by lia. by rewrite <-(ascii_N_embedding c), Hn, ascii_N_embedding.
Qed.
Lemma length_bytes_of s : Z.of_nat (length (bytes_of s)) = slen s.
Proof. unfold bytes_of, slen. rewrite length_fmap. f_equal. by induction s as [|c s IH]; [|cbn; rewrite IH]. Qed.
Lemma frame_entries_inj l1 l2 :
  Forall (λ v, slen v < 256) l1 → Forall (λ v, slen v < 256) l2 →
  mjoin ((λ entry, be_bytes 4 (wrap 32 (slen entry)) ++ bytes_of entry) <$> l1)
  = mjoin ((λ entry, be_bytes 4 (wrap 32 (slen entry)) ++ bytes_of entry) <$> l2) → l1 = l2.
Proof.
  intros H1. revert l2. induction H1 as [|a l1 Ha _ IH]; intros l2 H2; (destruct H2 as [|b l2 Hb H2]; [done|]); try done.
  rewrite !fmap_cons. cbn [mjoin list_join]. rewrite <-!app_assoc. intros Heq.
  pose proof (slen_nonneg a). pose proof (slen_nonneg b).
  apply app_inj_1 in Heq as [Hlen Heq]; [|done]. apply be_bytes_small in Hlen; [|lia..].
  apply app_inj_1 in Heq as [Hab Heq].
  - apply bytes_of_inj in Hab as ->. f_equal. by apply IH.
  - apply Nat2Z.inj. by rewrite !length_bytes_of.
Qed.

Lemma accepted_set_Some values digest member :
  accepted_set values = Some (digest, member) →
  Forall (λ v, valid_version v = true) values ∧ digest = hs_sha256_hex (frame (canonical values))
  ∧ (member = true ↔ show DIAGNOSIS_SCHEMA_VERSION ∈ values).
Proof.
  unfold accepted_set. generalize (show DIAGNOSIS_SCHEMA_VERSION). intros own.
  destruct (_ || _); [done|]. destruct (existsb _ values) eqn:Ev; [done|].
  intros [= <- <-]. fold (canonical values). split_and!; [|done|].
  - apply Forall_forall. intros v Hv. destruct (valid_version v) eqn:E; [done|].
    enough (existsb (λ v, negb (valid_version v)) values = true) by congruence.
    apply existsb_exists. exists v. split; [by apply list_elem_of_In|by rewrite E].
  - rewrite existsb_exists. split.
    + intros (v & Hv%list_elem_of_In & ->%String.eqb_eq). by apply elem_of_canonical.
    + intros Hv. exists own. split; [|apply String.eqb_refl].
      by apply list_elem_of_In, elem_of_canonical.
Qed.

(** The digest is that of a frame which two accepted lists share exactly if
    they hold the same versions, whatever their order and repetitions, and the
    agent's own schema version is a member exactly if it is in the list. *)
Theorem accepted_set_by_set values1 values2 digest1 digest2 member1 member2 :
  accepted_set values1 = Some (digest1, member1) → accepted_set values2 = Some (digest2, member2) →
  digest1 = hs_sha256_hex (frame (canonical values1)) ∧ digest2 = hs_sha256_hex (frame (canonical values2))
  ∧ (frame (canonical values1) = frame (canonical values2) ↔ ∀ v, v ∈ values1 ↔ v ∈ values2)
  ∧ (member1 = true ↔ show DIAGNOSIS_SCHEMA_VERSION ∈ values1).
Proof.
  intros (Hv1 & Hd1 & Hm1)%accepted_set_Some (Hv2 & Hd2 & _)%accepted_set_Some.
  split_and!; [done..| |done].
  assert (Hshort : ∀ l, Forall (λ v, valid_version v = true) l → Forall (λ v, slen v < 256) (canonical l)).
  { intros l Hl. apply Forall_forall. intros v Hv%(proj1 (elem_of_canonical _ _)). rewrite Forall_forall in Hl. specialize (Hl v Hv).
    cbv beta in Hl. unfold valid_version in Hl. destruct (slen v <=? 10) eqn:E; [apply Z.leb_le in E; lia|by rewrite andb_false_r in Hl]. }
  split; [|by intros ->%canonical_set].
  unfold frame. intros Heq. apply app_inj_1 in Heq as [_ Heq]; [|done]. apply app_inj_1 in Heq as [_ Heq]; [|done].
  apply frame_entries_inj in Heq; [|by apply Hshort..]. intros v. by rewrite <-(elem_of_canonical v values1), Heq, elem_of_canonical.
Qed.

(** ** Examples *)

(** Printable ASCII without quotes and escapes is a literal. *)
Definition is_plain (c : ascii) : bool := ascii_in 32 126 c && negb (Ascii.eqb c quote) && negb (Ascii.eqb c "\").

Lemma plain_item c rest : is_plain c = true → is_utf8 rest = true →
  is_ascii c = true ∧ Ascii.eqb c "034" = false ∧ string_item c rest = Some (1, 0%nat).
Proof.
  intros [[Hc Hq]%andb_true_iff Hb]%andb_true_iff Hr. unfold ascii_in in Hc. apply andb_true_iff in Hc as [H1 H2].
  apply Z.leb_le in H1, H2. apply negb_true_iff in Hq, Hb. assert (Ha : is_ascii c = true) by (apply Z.ltb_lt; lia).
  split_and!; [done|done|]. unfold string_item. rewrite Hb, is_utf8_ascii, Hr by done.
  assert ((32 <=? byte_val c) = true) as -> by (apply Z.leb_le; lia).
  unfold is_ascii in Ha. unfold utf8_width. by rewrite Ha.
Qed.
Lemma plain_literal string_from_slice b :
  all_bytes is_plain b = true → slen b ≤ STRING_LIMIT → is_Some (string_from_slice (quoted b)) → literal string_from_slice b.
Proof.
  intros Hb Hlen Hs. split; [|done]. intros rest Hr.
  assert (Hu : is_utf8 (String quote rest) = true) by by rewrite is_utf8_ascii.
  split.
  - rewrite is_utf8_ascii_app; [done|]. eapply all_bytes_impl; [|exact Hb]. intros c Hc. by apply (plain_item c rest).
  - assert (Hdec : 0 + slen b ≤ STRING_LIMIT) by lia. revert Hdec. generalize 0. clear Hlen Hs.
    induction b as [|c b IH]; intros decoded Hdec.
    + change (scan_string 0 decoded (String quote rest) = Some rest). cbn [scan_string].
      rewrite Ascii.eqb_refl. change (slen EmptyString) with 0 in Hdec. by assert ((decoded <=? STRING_LIMIT) = true) as -> by (apply Z.leb_le; lia).
    + cbn [all_bytes] in Hb. apply andb_true_iff in Hb as [Hc Hb].
      assert (Hu' : is_utf8 (b +:+ String quote rest) = true).
      { rewrite is_utf8_ascii_app; [done|]. eapply all_bytes_impl; [|exact Hb]. intros d Hd. by apply (plain_item d rest). }
      destruct (plain_item c _ Hc Hu') as (_ & Hq & Hi). change (String c b +:+ ?x) with (String c (b +:+ x)).
      cbn [scan_string]. rewrite Hq, Hi. change (slen (String c b)) with (Z.of_nat (S (String.length b))) in Hdec.
      assert ((STRING_LIMIT <? decoded + 1) = false) as -> by (apply Z.ltb_ge; lia).
      apply IH; [done|]. unfold slen. lia.
Qed.

Definition demo_string_from_slice (s : string) : option string :=
  Some (take_bytes (String.length s - 2) (drop_bytes 1 s)).
Definition demo_uuid : string := "KUrXRgwRRQu-RikmIJhm0Q".
Definition demo_root : raw := RObject [("cluster_uuid", RString demo_uuid); ("name", RNull)].
Definition demo_body : string :=
  "{ " +:+ quoted "cluster_uuid" +:+ ":" +:+ quoted demo_uuid +:+ ", " +:+ quoted "name" +:+ " : null }".
Definition demo_number (_ : string) : number := PosInt 0.
Definition demo_from_slice (s : string) : option json :=
  if String.eqb s demo_body then Some (value_of demo_string_from_slice demo_number demo_root) else None.

Lemma demo_document : document demo_string_from_slice demo_root demo_body.
Proof.
  exists EmptyString, demo_body, EmptyString. split_and!; [done| |done|done].
  apply (spelled_object _ _ (" " +:+ quoted "cluster_uuid" +:+ ":" +:+ quoted demo_uuid +:+ ", " +:+ quoted "name" +:+ " : null ")).
  apply (spelled_next_member _ "cluster_uuid" _ " " "" "" (quoted demo_uuid) "" _ (" " +:+ quoted "name" +:+ " : null "));
    try reflexivity.
  - by apply plain_literal.
  - constructor. by apply plain_literal.
  - apply (spelled_last_member _ "name" _ " " " " " " "null" " "); try reflexivity; [by apply plain_literal|constructor].
Qed.

Lemma guarded_json_exact_witness :
  checked_json_stage demo_from_slice demo_string_from_slice demo_body Root
  = if fits 0 0 (height demo_root) (tokens_of demo_root) && distinct demo_string_from_slice Root [] demo_root
    then demo_from_slice demo_body else None.
Proof. exact (guarded_json_exact _ demo_from_slice Root _ _ demo_document). Defined.

Definition first_value (l : list raw) : option raw := head l.
Lemma demo_resolution : resolution first_value.
Proof. split; [intros [|x l] v; [done|]; intros [= ->]; left|intros [|x l] H; [done|by eexists]]. Qed.
Example demo_root_read : root_uuid demo_from_slice demo_string_from_slice demo_body = Some demo_uuid.
Proof. vm_compute. reflexivity. Qed.
(** A repeated name that decides is refused, another is not. *)
Example repeated_uuid_refused :
  walk demo_string_from_slice Root ("{" +:+ quoted "cluster_uuid" +:+ ":1," +:+ quoted "cluster_uuid" +:+ ":2}") = false
  ∧ walk demo_string_from_slice Root ("{" +:+ quoted "name" +:+ ":1," +:+ quoted "name" +:+ ":2}") = true.
Proof. vm_compute. done. Qed.

Definition demo_digest (values : list string) : string := unwrap_or (fst <$> accepted_set values) EmptyString.
Lemma accepted_set_by_set_witness :
  demo_digest ["2"; "1"] = hs_sha256_hex (frame (canonical ["2"; "1"]))
  ∧ demo_digest ["1"; "2"; "1"] = hs_sha256_hex (frame (canonical ["1"; "2"; "1"]))
  ∧ (frame (canonical ["2"; "1"]) = frame (canonical ["1"; "2"; "1"]) ↔ ∀ v, v ∈ ["2"; "1"] ↔ v ∈ ["1"; "2"; "1"])
  ∧ (true = true ↔ show DIAGNOSIS_SCHEMA_VERSION ∈ ["2"; "1"]).
Proof. apply (accepted_set_by_set ["2"; "1"] ["1"; "2"; "1"] _ _ true true); vm_compute; reflexivity. Defined.
