(* ===== verification/Handshake.v ===== *)
(** * The feature handshake ([src/handshake.rs])

    The read-only probe: its inputs and their precedence, the endpoint and the
    credentials it accepts, its three requests, and the closed report it makes
    of what comes back.  The transport is an interface; the one over HTTP is an
    instance of it. *)
From Stdlib Require Import Ascii.
From S2P Require Import Prelude Sha256 Float64 Json DiagnosisEvent FileSystem HandshakeJson.

(** ** Identifiers *)

(** [TargetGeneration]: 32 bytes. *)
Definition hex (c : ascii) : option Z :=
  if is_ascii_digit c then Some (byte_val c - 48) else if ascii_in 97 102 c then Some (byte_val c - 97 + 10) else None.
Fixpoint hex_pairs (s : string) : option bytes :=
  match s with
  | EmptyString => Some []
  | String a (String b rest) =>
      let! high := hex a in
      let! low := hex b in
      let! bytes := hex_pairs rest in
      Some (Z.lor (Z.shiftl high 4) low :: bytes)
  | _ => None
  end.
Definition is_lower_hex (c : ascii) : bool := is_ascii_digit c || ascii_in 97 102 c.
Definition parse_generation (value : string) : option bytes :=
  if negb (String.length value =? 64)%nat || negb (all_bytes is_lower_hex value) then None else hex_pairs value.
Definition show_generation (generation : bytes) : string := concat_str (hex_of 2 <$> generation).

(** ** Reports *)

Module Probe.
Inductive Outcome := Ready | PendingEnrollment | Failed.
End Probe.
Inductive Reason :=
| IsReady | IsPending | LocalConfig | Connectivity | Auth | Destination | Compatibility | Unclassified4xx.
Inductive FailedStage := NoStage | Local | RootInfo | TemplateRead | MappingRead.
#[export] Instance FailedStage_eq_dec : EqDecision FailedStage.
Proof. solve_decision. Defined.

Record ClassifiedProbe := {
  probe_schema_version : Z;
  diagnosis_schema_version : Z;
  probe_outcome : Probe.Outcome;
  reason : Reason;
  failed_stage : FailedStage;
  target_generation : option string;
  observed_cluster_uuid : option string;
  accepted_set_digest : option string;
}.

Definition failure (why : Reason) (stage : FailedStage) (generation : option bytes) (observed digest : option string)
  : ClassifiedProbe :=
  {| probe_schema_version := 1; diagnosis_schema_version := DIAGNOSIS_SCHEMA_VERSION; probe_outcome := Probe.Failed;
     reason := why; failed_stage := stage; target_generation := show_generation <$> generation;
     observed_cluster_uuid := observed; accepted_set_digest := digest |}.
Definition success (pending : bool) (generation : bytes) (observed digest : string) : ClassifiedProbe :=
  {| probe_schema_version := 1; diagnosis_schema_version := DIAGNOSIS_SCHEMA_VERSION;
     probe_outcome := if pending then Probe.PendingEnrollment else Probe.Ready;
     reason := if pending then IsPending else IsReady; failed_stage := NoStage;
     target_generation := Some (show_generation generation);
     observed_cluster_uuid := Some observed; accepted_set_digest := Some digest |}.

Definition exit_code (p : ClassifiedProbe) : Z :=
  match reason p with
  | IsReady => 0 | IsPending => 10 | LocalConfig => 11 | Connectivity => 12 | Auth => 13
  | Destination => 14 | Compatibility => 15 | Unclassified4xx => 16
  end.

Definition outcome_name (o : Probe.Outcome) : string :=
  match o with Probe.Ready => "ready" | Probe.PendingEnrollment => "pending_enrollment" | Probe.Failed => "failed" end.
Definition reason_name (r : Reason) : string :=
  match r with
  | IsReady => "ready" | IsPending => "pending_enrollment" | LocalConfig => "local_config"
  | Connectivity => "connectivity" | Auth => "auth" | Destination => "destination"
  | Compatibility => "compatibility" | Unclassified4xx => "unclassified_4xx"
  end.
Definition stage_name (s : FailedStage) : string :=
  match s with
  | NoStage => "none" | Local => "local" | RootInfo => "root_info" | TemplateRead => "template_read" | MappingRead => "mapping_read"
  end.

(** The report as [serde] sees it, members in the order of the fields. *)
Definition probe_document (p : ClassifiedProbe) : json :=
  JObject [("probe_schema_version", json_u64 (probe_schema_version p));
           ("diagnosis_schema_version", json_u64 (diagnosis_schema_version p));
           ("outcome", JString (outcome_name (probe_outcome p)));
           ("reason", JString (reason_name (reason p)));
           ("failed_stage", JString (stage_name (failed_stage p)));
           ("target_generation", json_opt JString (target_generation p));
           ("observed_cluster_uuid", json_opt JString (observed_cluster_uuid p));
           ("accepted_set_digest", json_opt JString (accepted_set_digest p))].
Definition json_line (to_string : json → result string string) (p : ClassifiedProbe) : result string string :=
  map_ok (λ text, text +:+ str1 nl) (to_string (probe_document p)).

(** ** Inputs *)

Record CheckArgs := {
  endpoint_flag : option string;
  ca_file_flag : option Path;
  uuid_flag : option string;
  pending_flag : bool;
  generation_flag : option string;
  credentials_flag : option Path;
  config_flag : option Path;
}.

Record CredentialValues := { cv_api_key : option string; cv_username : option string; cv_password : option string }.
Record ProtectedElasticsearch := {
  es_endpoint : option string;
  es_ca_cert : option Path;
  es_api_key : option string;
  es_username : option string;
  es_password : option string;
}.
Record ProtectedShipping := {
  sh_expected_cluster_uuid : option string;
  sh_pending_enrollment : option bool;
  sh_target_generation : option string;
}.
Record ProtectedConfig := { pc_elasticsearch : option ProtectedElasticsearch; pc_shipping : option ProtectedShipping }.
Definition default_elasticsearch : ProtectedElasticsearch :=
  {| es_endpoint := None; es_ca_cert := None; es_api_key := None; es_username := None; es_password := None |}.
Definition default_shipping : ProtectedShipping :=
  {| sh_expected_cluster_uuid := None; sh_pending_enrollment := None; sh_target_generation := None |}.
Definition default_config : ProtectedConfig := {| pc_elasticsearch := None; pc_shipping := None |}.

Record ShippingPolicyV1 := {
  ship_mode : string;
  install_profile : string;
  outbox_root : Path;
  sp_target_generation : string;
  sp_expected_cluster_uuid : string;
}.

Inductive Credentials := ApiKey (key : string) | Basic (user password : string).
Inductive Affinity := Expected (uuid : string) | Pending.

(** [Result<_, ()>]. *)
Abbreviation try A := (result A unit).

(** What the probe may look at. *)
Class Environment := {
  value : string → try (option string);
  read_public : Path → try string;
  read_protected : Path → try string;
  read_optional_protected : Path → try (option string);
}.

(** [reqwest::Url], [toml], the certificates, and what a header may hold. *)
Record Url := {
  scheme : string;
  host_str : option string;
  username : string;
  password : option string;
  query : option string;
  fragment : option string;
  url_path : string;
  port : option Z;
}.
Class Parsers := {
  Certificate : Type;
  parse_url : string → option Url;
  toml_config : string → option ProtectedConfig;
  toml_policy : string → option ShippingPolicyV1;
  toml_credentials : string → option CredentialValues;
  from_pem_bundle : string → option (list Certificate);
  builds_client : list Certificate → bool;
  header_value_ok : string → bool;
}.

Record Preflight `{Parsers} := {
  origin : string;
  ca : option (list Certificate);
  credential : Credentials;
  affinity : Affinity;
  generation : bytes;
}.

Section inputs.
Context `{Parsers}.

(** *** Endpoint *)

(** [str::get(n..)]: [None] out of range or within a character. *)
Definition str_get_from (n : nat) (s : string) : option string :=
  if (String.length s <? n)%nat then None
  else match drop_bytes n s with
       | EmptyString => Some EmptyString
       | String c _ as rest => if is_continuation c then None else Some rest
       end.
(** [&s[..s.find([..]).unwrap_or(s.len())]]. *)
Fixpoint until_byte (stop : ascii → bool) (s : string) : string :=
  match s with
  | EmptyString => EmptyString
  | String c rest => if stop c then EmptyString else String c (until_byte stop rest)
  end.
Definition is_byte (set : string) (c : ascii) : bool := any_byte (Ascii.eqb c) set.

Definition url_has_userinfo (input : string) (url : Url) : bool :=
  let input := trim_matches (char_is (ascii_in 0 32)) input in
  if any_byte (λ c, Ascii.eqb c "009" || Ascii.eqb c nl || Ascii.eqb c "013") input then true
  else
    match and_then (str_get_from (S (String.length (scheme url))) input) (strip_prefix "//") with
    | None => true
    | Some authority =>
        if starts_with "/" authority || starts_with "\" authority then true
        else any_byte (λ c, Ascii.eqb c "@") (until_byte (is_byte "/?#") authority)
    end.

Definition endpoint_origin (value : string) : option string :=
  let! url := parse_url value in
  if negb (String.eqb (scheme url) "http" || String.eqb (scheme url) "https")
     || match host_str url with None => true | Some _ => false end
     || url_has_userinfo value url
     || negb (is_empty (username url))
     || match password url with Some _ => true | None => false end
     || match query url with Some _ => true | None => false end
     || match fragment url with Some _ => true | None => false end
     || negb (is_empty (url_path url) || String.eqb (url_path url) "/")
  then None
  else
    let! host := host_str url in
    Some (match port url with
          | Some port => scheme url +:+ "://" +:+ host +:+ ":" +:+ show port
          | None => scheme url +:+ "://" +:+ host
          end).

(** *** Certificates *)

Definition BEGIN_CERTIFICATE : string := "-----BEGIN CERTIFICATE-----".
Definition END_CERTIFICATE : string := "-----END CERTIFICATE-----".
(** Each round takes a marker away: [fuel] above the length is enough. *)
Fixpoint only_certificates (fuel : nat) (remainder : string) : try unit :=
  match fuel with
  | O => Err tt
  | S fuel =>
      if is_empty remainder then Ok tt
      else
        let? certificate := ok_or (strip_prefix BEGIN_CERTIFICATE remainder) tt in
        let? (_, rest) := ok_or (split_once END_CERTIFICATE certificate) tt in
        only_certificates fuel (trim rest)
  end.
Definition ca_certificate_bundle (bytes : string) : try (list Certificate) :=
  if negb (is_utf8 bytes) then Err tt
  else
    let remainder := trim bytes in
    if is_empty remainder then Err tt
    else
      let? _ := only_certificates (S (String.length remainder)) remainder in
      let? certificates := ok_or (from_pem_bundle bytes) tt in
      match certificates with [] => Err tt | _ => Ok certificates end.

(** *** Credentials *)

Definition credentials_from_values (api_key username password : option string) : try Credentials :=
  match api_key with
  | Some key =>
      if negb (is_empty key) && header_value_ok ("ApiKey " +:+ key) then Ok (ApiKey key) else Err tt
  | None =>
      match username, password with
      | Some user, Some password =>
          if negb (is_empty user) && negb (is_empty password) then Ok (Basic user password) else Err tt
      | _, _ => Err tt
      end
  end.

Section environment.
Context `{Environment}.

Definition credentials_from_file (path : Path) : try Credentials :=
  let? text := read_protected path in
  let? values := ok_or (toml_credentials text) tt in
  match cv_api_key values, cv_username values, cv_password values with
  | Some key, None, None => credentials_from_values (Some key) None None
  | None, Some user, Some password => credentials_from_values None (Some user) (Some password)
  | _, _, _ => Err tt
  end.

(** *** Affinity and policy *)

Definition affinity_pair (uuid : option string) (pending : option bool) : try (option Affinity) :=
  match uuid, pending with
  | Some _, Some _ => Err tt
  | Some value, None => ok_or ((λ uuid, Some (Expected uuid)) <$> parse_cluster_uuid value) tt
  | None, Some true => Ok (Some Pending)
  | None, Some false => Err tt
  | None, None => Ok None
  end.

Definition read_shipping_policy (config_path : Path) : try (option ShippingPolicyV1) :=
  let? dir := ok_or (parent config_path) tt in
  let? text := read_optional_protected (path_join dir "shipping-policy-v1.toml") in
  match text with
  | None => Ok None
  | Some text =>
      let? policy := ok_or (toml_policy text) tt in
      if negb (String.eqb (ship_mode policy) "on")
         || negb (String.eqb (install_profile policy) "user")
         || negb (fst (outbox_root policy))
         || match parse_generation (sp_target_generation policy) with None => true | Some _ => false end
         || match parse_cluster_uuid (sp_expected_cluster_uuid policy) with None => true | Some _ => false end
      then Err tt
      else Ok (Some policy)
  end.

Definition resolve_affinity (args : CheckArgs) (shipping : ProtectedShipping) (capsule : option ShippingPolicyV1) : try Affinity :=
  let? flag := affinity_pair (uuid_flag args) (if pending_flag args then Some true else None) in
  match flag with
  | Some a => Ok a
  | None =>
      let? pending := value "RIGSIGNAL_PENDING_ENROLLMENT" in
      let? pending := match pending with
                      | Some v => if String.eqb v "1" then Ok (Some true) else Err tt
                      | None => Ok None
                      end in
      let? uuid := value "RIGSIGNAL_EXPECTED_CLUSTER_UUID" in
      let? env := affinity_pair uuid pending in
      match env with
      | Some a => Ok a
      | None =>
          let? from_capsule := affinity_pair (sp_expected_cluster_uuid <$> capsule) None in
          let? from_config := affinity_pair (sh_expected_cluster_uuid shipping) (sh_pending_enrollment shipping) in
          ok_or (match from_capsule with Some a => Some a | None => from_config end) tt
      end
  end.

(** *** Preflight *)

(** [a.or(b)]. *)
Definition option_or {A : Type} (a b : option A) : option A := match a with Some _ => a | None => b end.

Definition parse_protected (path : Path) : try ProtectedConfig :=
  let? text := read_protected path in ok_or (toml_config text) tt.

Definition load_ca (path : option Path) : try (option (list Certificate)) :=
  match path with
  | Some path =>
      let? bytes := read_public path in
      let? ca := ca_certificate_bundle bytes in
      if builds_client ca then Ok (Some ca) else Err tt
  | None => Ok None
  end.

Definition preflight (args : CheckArgs) : try Preflight :=
  let? config := match config_flag args with Some path => parse_protected path | None => Ok default_config end in
  let es := unwrap_or (pc_elasticsearch config) default_elasticsearch in
  let shipping := unwrap_or (pc_shipping config) default_shipping in
  let? capsule := match config_flag args with Some path => read_shipping_policy path | None => Ok None end in
  let? endpoint :=
    match endpoint_flag args with
    | Some v => Ok v
    | None => let? env := value "RIGSIGNAL_ES_ENDPOINT" in ok_or (option_or env (es_endpoint es)) tt
    end in
  let? origin := ok_or (endpoint_origin endpoint) tt in
  let? text :=
    match generation_flag args with
    | Some v => Ok (Some v)
    | None =>
        let? env := value "RIGSIGNAL_TARGET_GENERATION" in
        Ok (option_or (option_or env (sp_target_generation <$> capsule)) (sh_target_generation shipping))
    end in
  let? generation := ok_or (and_then text parse_generation) tt in
  let? affinity := resolve_affinity args shipping capsule in
  let? ca_path :=
    match ca_file_flag args with
    | Some path => Ok (Some path)
    | None => let? env := value "RIGSIGNAL_ES_CA_FILE" in Ok (option_or (path_from <$> env) (es_ca_cert es))
    end in
  let? ca := load_ca ca_path in
  let? dedicated :=
    match credentials_flag args with
    | Some path => Ok (Some path)
    | None => let? env := value "RIGSIGNAL_ES_CREDENTIALS_FILE" in Ok (path_from <$> env)
    end in
  let? credential :=
    match dedicated with
    | Some path => credentials_from_file path
    | None => credentials_from_values (es_api_key es) (es_username es) (es_password es)
    end in
  Ok {| origin := origin; ca := ca; credential := credential; affinity := affinity; generation := generation |}.
End environment.
End inputs.

(** *** Protected files *)

Definition protected_metadata_valid (mode uid euid : Z) (regular : bool) : bool :=
  regular && (uid =? euid) && (Z.land mode 63 =? 0).

(** What opening the path without following links gives. *)
Inductive ProtectedView :=
| CannotOpen
| CannotStat
| Opened (mode uid : Z) (regular : bool) (content : try string).
Definition protected_read (euid : Z) (bytes : string) (view : ProtectedView) : try string :=
  if any_byte (λ c, Ascii.eqb c "000") bytes then Err tt
  else
    match view with
    | CannotOpen | CannotStat => Err tt
    | Opened mode uid regular content =>
        if negb (protected_metadata_valid (Z.land mode 4095) uid euid regular) then Err tt
        else let? text := content in if is_utf8 text then Ok text else Err tt
    end.

(** The environment of the process: its variables as bytes, what reading a file
    gives, whether a path exists, and what opening it without links gives. *)
Definition process_environment (euid : Z) (var_os : string → option string) (fs_read : Path → try string)
    (exists_now : Path → bool) (os_str : Path → string) (open_view : Path → ProtectedView) : Environment := {|
  value name := match var_os name with Some v => if is_utf8 v then Ok (Some v) else Err tt | None => Ok None end;
  read_public := fs_read;
  read_protected path := protected_read euid (os_str path) (open_view path);
  read_optional_protected path :=
    if negb (exists_now path) then Ok None else map_ok Some (protected_read euid (os_str path) (open_view path))
|}.

(** ** Responses *)

Inductive BodyRead := CapExceeded | TransportError.
Inductive TransportFailure := Dns | TlsPeer | Connect | Reset | Read | MidBody | Deadline.
Inductive ContentEncoding := AbsentOrIdentity | Unsupported.
Record Received := { status : Z; encoding : ContentEncoding; body : result string BodyRead }.

Definition status_reason (status : Z) (stage : FailedStage) : Reason :=
  if (status =? 401) || (status =? 403) then Auth
  else if (status =? 408) || (status =? 429) || (500 <=? status) && (status <=? 599) then Connectivity
  else if (300 <=? status) && (status <=? 399) then Destination
  else if (status =? 400) || (status =? 413) then Compatibility
  else if (status =? 404) && (bool_decide (stage = RootInfo) || bool_decide (stage = MappingRead)) then Destination
  else if status =? 404 then Compatibility
  else if (400 <=? status) && (status <=? 499) then Unclassified4xx
  else Compatibility.

Definition classify_http (response : result Received TransportFailure) (stage : FailedStage) (generation : bytes)
    (observed digest : option string) : result string ClassifiedProbe :=
  let fail why := Err (failure why stage (Some generation) observed digest) in
  match response with
  | Err _ => fail Connectivity
  | Ok r =>
      if negb (status r =? 200) then fail (status_reason (status r) stage)
      else
        match encoding r with
        | Unsupported => fail Compatibility
        | AbsentOrIdentity =>
            match body r with
            | Ok body => Ok body
            | Err CapExceeded => fail Compatibility
            | Err TransportError => fail Connectivity
            end
        end
  end.

(** [content_encoding]: the header's values, [None] where one is no text. *)
Fixpoint content_encoding (values : list (option string)) : ContentEncoding :=
  match values with
  | [] => AbsentOrIdentity
  | None :: _ => Unsupported
  | Some v :: rest =>
      if existsb (λ coding,
           let coding := trim_matches (char_is (λ c, Ascii.eqb c " " || Ascii.eqb c "009")) coding in
           is_empty coding || negb (eq_ignore_ascii_case coding "identity")) (split_char "," v)
      then Unsupported
      else content_encoding rest
  end.

Definition BODY_LIMIT : Z := 65536.
(** [read_body]: the chunks as they arrive, a failure among them. *)
Fixpoint read_body (body : string) (chunks : list (option string)) : result string BodyRead :=
  match chunks with
  | [] => Ok body
  | None :: _ => Err TransportError
  | Some chunk :: rest =>
      if BODY_LIMIT <? slen body + slen chunk then Err CapExceeded else read_body (body +:+ chunk) rest
  end.

(** ** Transport *)

(** The request seam: [prepare] and [exchange] of a transport of state [T]. *)
Class Transport `{Parsers} (T : Type) := {
  prepare : Preflight → T → T * try unit;
  exchange : string → Z → T → T * result Received TransportFailure;
}.

(** The transport over HTTP, in the hands of [reqwest]. *)
Record ReqwestTransport `{Parsers} := {
  client : option (option (list Certificate));
  rt_origin : string;
  rt_credentials : option Credentials;
}.
Inductive Authorization := AuthorizationHeader (value : string) | BasicAuth (user password : string).
Record Request `{Parsers} := { rq_roots : option (list Certificate); rq_url : string; rq_auth : Authorization; rq_accept_encoding : string }.
(** What sending gives: an expired deadline, an error, or a response whose
    drain may expire. *)
Inductive Sent :=
| Expired
| NotConnected
| Response (status : Z) (encodings : list (option string)) (chunks : option (list (option string))).

Definition authorization (c : Credentials) : Authorization :=
  match c with
  | ApiKey key => AuthorizationHeader ("ApiKey " +:+ key)
  | Basic user password => BasicAuth user password
  end.

#[export] Instance reqwest_transport `{Parsers} (send : Request → Z → Sent) : Transport ReqwestTransport := {|
  prepare p t :=
    if match ca p with Some roots => builds_client roots | None => builds_client [] end then
      ({| client := Some (ca p); rt_origin := origin p; rt_credentials := Some (credential p) |}, Ok tt)
    else (t, Err tt);
  exchange path deadline t :=
    (t, match client t, rt_credentials t with
        | Some roots, Some credentials =>
            match send {| rq_roots := roots; rq_url := rt_origin t +:+ path; rq_auth := authorization credentials;
                          rq_accept_encoding := "identity" |} deadline with
            | Expired => Err Deadline
            | NotConnected => Err Connect
            | Response status encodings chunks =>
                Ok {| status := status; encoding := content_encoding encodings;
                      body := match chunks with Some chunks => read_body EmptyString chunks | None => Err TransportError end |}
            end
        | _, _ => Err Connect
        end)
|}.

(** ** The probe *)

Definition TEMPLATE_PATH : string :=
  "/_component_template/logs-rigsignal.diagnosis-mappings?filter_path=component_templates.name,component_templates.component_template._meta.accepted_schema_versions".
Definition MAPPING_PATH : string := "/logs-rigsignal.diagnosis-default/_mapping".
Definition CHECK_SECONDS : Z := 10.

(** Steps over a transport's state that may end the probe with a report. *)
Definition Step (T A : Type) : Type := T → T * result A ClassifiedProbe.
Definition finish {T A : Type} (report : ClassifiedProbe) : Step T A := λ t, (t, Err report).
Definition go_on {T A : Type} (a : A) : Step T A := λ t, (t, Ok a).
Definition step_bind {T A B : Type} (m : Step T A) (k : A → Step T B) : Step T B :=
  λ t, let (t', r) := m t in match r with Ok a => k a t' | Err report => (t', Err report) end.
Notation "'step' x := m 'in' k" := (step_bind m (λ x, k)) (at level 10, x pattern, m at level 200, k at level 200) : rust_scope.

Section check.
Context `{Parsers} {T : Type} `{!Transport T}.
(** [serde_json], for any value and for a string. *)
Context (from_slice : string → option json) (string_from_slice : string → option string).

Definition local_failure : ClassifiedProbe := failure LocalConfig Local None None None.

Definition ask (path : string) (deadline : Z) (stage : FailedStage) (generation : bytes) (observed digest : option string)
  : Step T string :=
  λ t, let (t', response) := exchange path deadline t in (t', classify_http response stage generation observed digest).

(** What follows a preflight. *)
Definition probe (p : Preflight) (deadline : Z) : Step T ClassifiedProbe :=
  let g := generation p in
  step root := ask "/" deadline RootInfo g None None in
  match root_uuid from_slice string_from_slice root with
  | None => finish (failure Compatibility RootInfo (Some g) None None)
  | Some observed =>
      if match affinity p with Expected expected => negb (String.eqb expected observed) | Pending => false end then
        finish (failure Destination RootInfo (Some g) (Some observed) None)
      else
        let pending := match affinity p with Pending => true | Expected _ => false end in
        step template := ask TEMPLATE_PATH deadline TemplateRead g (Some observed) None in
        match template_set from_slice string_from_slice template with
        | None => finish (failure Compatibility TemplateRead (Some g) (Some observed) None)
        | Some (digest, member) =>
            if negb member then finish (failure Compatibility TemplateRead (Some g) (Some observed) (Some digest))
            else
              step mapping := ask MAPPING_PATH deadline MappingRead g (Some observed) (Some digest) in
              if negb (is_json_object from_slice string_from_slice mapping) then
                finish (failure Compatibility MappingRead (Some g) (Some observed) (Some digest))
              else go_on (success pending g observed digest)
        end
  end.

(** [now]: the clock when the transport is prepared, in seconds. *)
Definition run_check `{Environment} (args : CheckArgs) (now : Z) (t : T) : T * ClassifiedProbe :=
  match preflight args with
  | Err _ => (t, local_failure)
  | Ok p =>
      let (t, prepared) := prepare p t in
      match prepared with
      | Err _ => (t, local_failure)
      | Ok _ =>
          let (t, r) := probe p (now + CHECK_SECONDS) t in
          (t, match r with Ok report => report | Err report => report end)
      end
  end.
End check.
