(* ===== verification/HandshakeSpec.v ===== *)
(** * What the handshake reports ([src/handshake.rs])

    When a report is a success, what any report says, which requests were made
    for it, and which of several inputs counts. *)
From Stdlib Require Import Ascii.
From S2P Require Import Prelude Sha256 Float64 Json DiagnosisEvent FileSystem HandshakeJson HandshakeJsonSpec Handshake.

(** ** Target generations *)

Lemma hex_range c n : hex c = Some n → 0 ≤ n < 16 ∧ hex_digit n = c.
Proof.
  assert (Hall : (match hex c with Some n => (0 <=? n) && (n <? 16) && Ascii.eqb (hex_digit n) c | None => true end) = true)
    by (revert c; by apply forall_ascii).
  intros Hc. rewrite Hc in Hall. apply andb_true_iff in Hall as [[H0 H1]%andb_true_iff H2].
  apply Z.leb_le in H0. apply Z.ltb_lt in H1. by apply Ascii.eqb_eq in H2.
Qed.
Lemma hex_lower c : is_lower_hex c = true → is_Some (hex c).
Proof. unfold is_lower_hex, hex. destruct (is_ascii_digit c); [by eexists|]. cbn [orb]. intros ->. by eexists. Qed.

Lemma nibble_listed n : 0 ≤ n < 16 → List.In n (Z.of_nat <$> seq 0 16).
Proof.
  intros Hn. apply list_elem_of_In, list_elem_of_fmap. exists (Z.to_nat n). split; [by rewrite Z2Nat.id by lia|apply elem_of_seq; lia].
Qed.
Lemma pair_value high low : 0 ≤ high < 16 → 0 ≤ low < 16 → Z.lor (Z.shiftl high 4) low = 16 * high + low.
Proof.
  intros Hh Hl. assert (Hall : forallb (λ h, forallb (λ l, Z.lor (Z.shiftl h 4) l =? 16 * h + l) (Z.of_nat <$> seq 0 16))
    (Z.of_nat <$> seq 0 16) = true) by by vm_compute.
  rewrite forallb_forall in Hall. specialize (Hall high). rewrite forallb_forall in Hall. by apply Z.eqb_eq, Hall; apply nibble_listed.
Qed.
Lemma hex_of_pair high low : 0 ≤ high < 16 → 0 ≤ low < 16 →
  hex_of 2 (16 * high + low) = String (hex_digit high) (str1 (hex_digit low)).
Proof.
  intros Hh Hl. unfold hex_of. cbn [seq rev app fmap list_fmap String.string_of_list_ascii].
  rewrite !Z.shiftr_div_pow2 by lia. change (2 ^ (4 * Z.of_nat 1)) with 16. change (2 ^ (4 * Z.of_nat 0)) with 1.
  assert ((16 * high + low) / 16 = high) as -> by (symmetry; apply Z.div_unique with low; lia).
  assert ((16 * high + low) mod 16 = low) as Hlow by (symmetry; apply Z.mod_unique with high; lia).
  by rewrite Z.div_1_r, Hlow, Z.mod_small.
Qed.

Lemma hex_pairs_spec s g : hex_pairs s = Some g →
  show_generation g = s ∧ String.length s = (2 * length g)%nat ∧ Forall (λ x, 0 ≤ x < 256) g.
Proof.
  revert g. induction s as [s IH] using (induction_ltof1 _ String.length). unfold ltof in IH.
  destruct s as [|a [|b rest]]; intros g; cbn [hex_pairs]; [by intros [= <-]|done|].
  destruct (hex a) as [high|] eqn:Ha; [|done]. destruct (hex b) as [low|] eqn:Hb; [|done].
  destruct (hex_pairs rest) as [g'|] eqn:Hr; [|done]. intros [= <-].
  apply hex_range in Ha as [Hh Ha]. apply hex_range in Hb as [Hl Hb].
  destruct (IH rest) with (g := g') as (Hs & Hlen & Hall); [simpl; lia|done|].
  rewrite pair_value by done. split_and!.
  - unfold show_generation in *. rewrite fmap_cons. cbn [concat_str]. rewrite hex_of_pair, Ha, Hb, Hs by done. done.
  - simpl in *. lia.
  - constructor; [lia|done].
Qed.
Lemma show_generation_pairs g : Forall (λ x, 0 ≤ x < 256) g →
  hex_pairs (show_generation g) = Some g ∧ all_bytes is_lower_hex (show_generation g) = true.
Proof.
  induction 1 as [|x g Hx _ [IHp IHl]]; [done|]. unfold show_generation in *. rewrite fmap_cons. cbn [concat_str].
  set (high := x / 16). set (low := x mod 16).
  assert (Hh : 0 ≤ high < 16) by (unfold high; split; [apply Z.div_pos; lia|apply Z.div_lt_upper_bound; lia]).
  assert (Hl : 0 ≤ low < 16) by (apply Z.mod_pos_bound; lia).
  assert (Hxe : x = 16 * high + low) by (apply Z.div_mod; lia). rewrite Hxe.
  assert (Hdigit : ∀ n, 0 ≤ n < 16 → hex (hex_digit n) = Some n ∧ is_lower_hex (hex_digit n) = true).
  { intros n Hn. assert (Hall : forallb (λ n, bool_decide (hex (hex_digit n) = Some n) && is_lower_hex (hex_digit n))
      (Z.of_nat <$> seq 0 16) = true) by by vm_compute.
    rewrite forallb_forall in Hall. specialize (Hall n). specialize (Hall (nibble_listed n Hn)). apply andb_true_iff in Hall as [H1%bool_decide_eq_true H2]. done. }
  destruct (Hdigit high Hh) as [Hh1 Hh2], (Hdigit low Hl) as [Hl1 Hl2].
  rewrite hex_of_pair by done. change (String ?a (str1 ?b) +:+ ?s) with (String a (String b s)).
  cbn [hex_pairs all_bytes]. rewrite Hh1, Hl1, IHp, Hh2, Hl2, IHl, pair_value by done. done.
Qed.

(** Showing a target generation and parsing it are inverse to each other:
    every 32 bytes are shown as a text that parses to them, and every text that
    parses is the one its bytes are shown as. *)
Theorem generation_roundtrip g text :
  Forall (λ x, 0 ≤ x < 256) g ∧ length g = 32%nat ∧ text = show_generation g ↔ parse_generation text = Some g.
Proof.
  unfold parse_generation. split.
  - intros (Hg & Hlen & ->). destruct (show_generation_pairs g Hg) as [Hp Hl]. rewrite Hl.
    destruct (hex_pairs_spec _ _ Hp) as (_ & -> & _). by rewrite Hlen, Hp.
  - destruct (String.length text =? 64)%nat eqn:E; [|done]. apply Nat.eqb_eq in E. destruct (all_bytes is_lower_hex text); [|done].
    cbn [negb orb]. intros (Hs & Hlen & Hg)%hex_pairs_spec. split_and!; [done|lia|done].
Qed.

(** ** Success *)

Definition accepted (body : string) : result Received TransportFailure :=
  Ok {| status := 200; encoding := AbsentOrIdentity; body := Ok body |}.
Definition meets (a : Affinity) (observed : string) : Prop :=
  match a with Expected expected => expected = observed | Pending => True end.
Definition is_pending (a : Affinity) : bool := match a with Pending => true | Expected _ => false end.

Lemma classify_Ok response stage g observed digest body :
  classify_http response stage g observed digest = Ok body ↔ response = accepted body.
Proof.
  unfold classify_http, accepted. split.
  - destruct response as [[st enc b]|]; [|done]. cbn [status encoding Handshake.body].
    destruct (Z.eqb_spec st 200) as [->|]; [|done]. destruct enc, b as [b|[]]; try done. by intros [= ->].
  - by intros ->.
Qed.
Lemma classify_Err response stage g observed digest report :
  classify_http response stage g observed digest = Err report →
  ∃ why, report = failure why stage (Some g) observed digest ∧ why ≠ IsReady ∧ why ≠ IsPending ∧ why ≠ LocalConfig.
Proof.
  unfold classify_http. destruct response as [[st enc b]|]; [|intros [= <-]; by eexists]. cbn [status encoding Handshake.body].
  destruct (negb (st =? 200)).
  - intros [= <-]. exists (status_reason st stage). split; [done|]. unfold status_reason.
    repeat match goal with |- context [if ?b then _ else _] => destruct b end; by split_and!.
  - destruct enc; [|intros [= <-]; by eexists]. destruct b as [b|[]]; [done|intros [= <-]; by eexists..].
Qed.

Section check.
Context `{Parsers} {T : Type} `{!Transport T} `{!Environment}.
Context (from_slice : string → option json) (string_from_slice : string → option string).
Local Abbreviation root_uuid := (root_uuid from_slice string_from_slice).
Local Abbreviation template_set := (template_set from_slice string_from_slice).
Local Abbreviation is_json_object := (is_json_object from_slice string_from_slice).

(** The three responses a success needs, from a prepared transport. *)
Record answers (p : Preflight) (deadline : Z) (t t' : T) (observed digest : string) : Prop := {
  an_root : ∃ t1 body, exchange "/" deadline t = (t1, accepted body) ∧ root_uuid body = Some observed
              ∧ ∃ t2 body, exchange TEMPLATE_PATH deadline t1 = (t2, accepted body) ∧ template_set body = Some (digest, true)
              ∧ ∃ body, exchange MAPPING_PATH deadline t2 = (t', accepted body) ∧ is_json_object body = true;
  an_affinity : meets (affinity p) observed;
}.

Lemma probe_success p deadline t t' report :
  probe from_slice string_from_slice p deadline t = (t', Ok report) ↔
  ∃ observed digest, answers p deadline t t' observed digest
                     ∧ report = success (is_pending (affinity p)) (generation p) observed digest.
Proof.
  unfold probe, step_bind at 1, ask at 1. destruct (exchange "/" deadline t) as [t1 r1] eqn:E1. split.
  - destruct (classify_http r1 _ _ _ _) as [b1|] eqn:C1; [|done]. apply classify_Ok in C1 as ->.
    destruct (root_uuid b1) as [observed|] eqn:Hu; [|done].
    destruct (match affinity p with Expected _ => _ | Pending => _ end) eqn:Ha; [done|].
    unfold step_bind at 1, ask at 1. destruct (exchange TEMPLATE_PATH deadline t1) as [t2 r2] eqn:E2.
    destruct (classify_http r2 _ _ _ _) as [b2|] eqn:C2; [|done]. apply classify_Ok in C2 as ->.
    destruct (template_set b2) as [[digest member]|] eqn:Ht; [|done]. destruct member; [|done]. cbn [negb].
    unfold step_bind at 1, ask at 1. destruct (exchange MAPPING_PATH deadline t2) as [t3 r3] eqn:E3.
    destruct (classify_http r3 _ _ _ _) as [b3|] eqn:C3; [|done]. apply classify_Ok in C3 as ->.
    destruct (is_json_object b3) eqn:Hm; [|done]. cbn [negb]. intros [= <- <-]. exists observed, digest. split; [|done].
    split.
    + exists t1, b1. split_and!; [done..|]. exists t2, b2. split_and!; [done..|]. by exists b3.
    + destruct (affinity p) as [expected|]; [|done]. apply negb_false_iff, String.eqb_eq in Ha. exact Ha.
  - intros (observed & digest & [(t1' & b1 & E1' & Hu & t2 & b2 & E2 & Ht & b3 & E3 & Hm) Ha] & ->).
    rewrite E1 in E1'. injection E1' as -> ->.
    destruct (classify_http (accepted b1) _ _ _ _) as [b|] eqn:C1;
      [|by rewrite (proj2 (classify_Ok (accepted b1) RootInfo (generation p) None None b1) eq_refl) in C1].
    apply classify_Ok in C1. injection C1 as <-. rewrite Hu.
    assert ((match affinity p with Expected expected => negb (String.eqb expected observed) | Pending => false end) = false) as ->.
    { destruct (affinity p) as [expected|]; [|done]. simpl in Ha. subst expected. by rewrite String.eqb_refl. }
    unfold step_bind at 1, ask at 1. rewrite E2, (proj2 (classify_Ok _ _ _ _ _ b2)), Ht by done. cbn [negb].
    unfold step_bind, ask. rewrite E3, (proj2 (classify_Ok _ _ _ _ _ b3)), Hm by done. done.
Qed.

(** How much a failure knows, by the stage it happened at. *)
Inductive knows : FailedStage → option string → option string → Prop :=
| knows_nothing : knows RootInfo None None
| knows_cluster u : parse_cluster_uuid u = Some u → knows RootInfo (Some u) None
| knows_cluster_still u : parse_cluster_uuid u = Some u → knows TemplateRead (Some u) None
| knows_versions u d frame : parse_cluster_uuid u = Some u → d = hs_sha256_hex frame → knows TemplateRead (Some u) (Some d)
| knows_all u d frame : parse_cluster_uuid u = Some u → d = hs_sha256_hex frame → knows MappingRead (Some u) (Some d).

Lemma root_uuid_parsed body u : root_uuid body = Some u → parse_cluster_uuid u = Some u.
Proof.
  unfold HandshakeJson.root_uuid. destruct (checked_json_stage _ _ _ _); [|done]. destruct (as_object j); [|done].
  destruct (json_get "cluster_uuid" j0); [|done]. destruct (as_str j1) as [v|]; [|done].
  unfold parse_cluster_uuid. destruct (_ && _) eqn:E; [|done]. intros [= <-]. by rewrite E.
Qed.
Lemma template_set_digest body d m : template_set body = Some (d, m) → ∃ frame, d = hs_sha256_hex frame.
Proof.
  unfold HandshakeJson.template_set. destruct (checked_json_stage _ _ _ _); [|done]. destruct (template_versions j); [|done].
  intros (_ & -> & _)%accepted_set_Some. by eexists.
Qed.

(** The failure is this one, with what is known at its stage. *)
Ltac known := split; [done|]; split; [by econstructor|]; first [assumption | by split_and!].

Lemma probe_failure p deadline t t' report :
  probe from_slice string_from_slice p deadline t = (t', Err report) →
  ∃ why stage observed digest,
    report = failure why stage (Some (generation p)) observed digest
    ∧ knows stage observed digest ∧ why ≠ IsReady ∧ why ≠ IsPending ∧ why ≠ LocalConfig.
Proof.
  unfold probe, step_bind at 1, ask at 1. destruct (exchange "/" deadline t) as [t1 r1].
  destruct (classify_http r1 _ _ _ _) as [b1|] eqn:C1.
  2: { intros [= <- <-]. apply classify_Err in C1 as (why & -> & Hw). exists why, RootInfo, None, None; known. }
  destruct (root_uuid b1) as [u|] eqn:Hu.
  2: { intros [= <- <-]. exists Compatibility, RootInfo, None, None; known. }
  apply root_uuid_parsed in Hu. destruct (match affinity p with Expected _ => _ | Pending => _ end).
  { intros [= <- <-]. exists Destination, RootInfo, (Some u), None; known. }
  unfold step_bind at 1, ask at 1. destruct (exchange TEMPLATE_PATH deadline t1) as [t2 r2].
  destruct (classify_http r2 _ _ _ _) as [b2|] eqn:C2.
  2: { intros [= <- <-]. apply classify_Err in C2 as (why & -> & Hw). exists why, TemplateRead, (Some u), None; known. }
  destruct (template_set b2) as [[d member]|] eqn:Ht.
  2: { intros [= <- <-]. exists Compatibility, TemplateRead, (Some u), None; known. }
  apply template_set_digest in Ht as [frame Hd]. destruct member; cbn [negb].
  2: { intros [= <- <-]. exists Compatibility, TemplateRead, (Some u), (Some d); known. }
  unfold step_bind at 1, ask at 1. destruct (exchange MAPPING_PATH deadline t2) as [t3 r3].
  destruct (classify_http r3 _ _ _ _) as [b3|] eqn:C3.
  2: { intros [= <- <-]. apply classify_Err in C3 as (why & -> & Hw). exists why, MappingRead, (Some u), (Some d); known. }
  destruct (is_json_object b3); cbn [negb]; [done|].
  intros [= <- <-]. exists Compatibility, MappingRead, (Some u), (Some d); known.
Qed.

(** C9: The handshake succeeds exactly if the inputs resolve, the transport can
    be prepared, and the three requests, made in this order on one deadline, are
    answered with 200 and a readable body: a cluster that is the expected one, if
    one is expected, versions that include the agent's own, and a mapping. *)
Theorem handshake_succeeds_iff args now t t' report :
  run_check from_slice string_from_slice args now t = (t', report) ∧ probe_outcome report ≠ Probe.Failed ↔
  ∃ p t0 observed digest,
    preflight args = Ok p ∧ prepare p t = (t0, Ok tt) ∧ answers p (now + CHECK_SECONDS) t0 t' observed digest
    ∧ report = success (is_pending (affinity p)) (generation p) observed digest.
Proof.
  unfold run_check. destruct (preflight args) as [p|].
  2: { split; [by intros [[= <- <-] ?]|by intros (? & ? & ? & ? & ? & _)]. }
  destruct (prepare p t) as [t0 [[]|]] eqn:Ep.
  2: { split; [by intros [[= <- <-] ?]|]. intros (? & ? & ? & ? & [= <-] & Hp & _). by rewrite Ep in Hp. }
  destruct (probe from_slice string_from_slice p (now + CHECK_SECONDS) t0) as [t1 r] eqn:Er. split.
  - intros [[= <- <-] Ho]. exists p, t0. destruct r as [r|r].
    + apply probe_success in Er as (observed & digest & Ha & ->). exists observed, digest. by split_and!.
    + by apply probe_failure in Er as (? & ? & ? & ? & -> & _).
  - intros (p' & t0' & observed & digest & [= <-] & Hp & Ha & ->). rewrite Ep in Hp. injection Hp as <-.
    assert (Hs := proj2 (probe_success p (now + CHECK_SECONDS) t0 t' _) (ex_intro _ observed (ex_intro _ digest (conj Ha eq_refl)))).
    rewrite Er in Hs. injection Hs as -> ->. split; [done|]. unfold success. simpl. by destruct (is_pending _).
Qed.

(** What every report is. *)
Record closed_report (args : CheckArgs) (r : ClassifiedProbe) : Prop := {
  cr_versions : probe_schema_version r = 1 ∧ diagnosis_schema_version r = DIAGNOSIS_SCHEMA_VERSION;
  cr_stage : failed_stage r = NoStage ↔ probe_outcome r ≠ Probe.Failed;
  cr_exit : (exit_code r = 0 ↔ probe_outcome r = Probe.Ready) ∧ (exit_code r = 10 ↔ probe_outcome r = Probe.PendingEnrollment);
  cr_local : (exit_code r = 11 ↔ failed_stage r = Local) ∧ (failed_stage r = Local → r = local_failure);
  cr_generation : failed_stage r ≠ Local →
    ∃ p, preflight args = Ok p ∧ target_generation r = Some (show_generation (generation p));
  cr_observed : ∀ u, observed_cluster_uuid r = Some u → parse_cluster_uuid u = Some u;
  cr_digest : ∀ d, accepted_set_digest r = Some d → is_Some (observed_cluster_uuid r) ∧ ∃ frame, d = hs_sha256_hex frame;
}.

(** C35: Every report is closed: next to its fixed words it shows only the
    requested generation, a well-formed cluster id and a digest, none of them
    before the inputs have resolved; and its exit status tells success, a
    pending enrollment and a local failure from everything else. *)
Theorem every_report_closed args now t : closed_report args (snd (run_check from_slice string_from_slice args now t)).
Proof.
  assert (Hlocal : closed_report args local_failure) by (split; done).
  unfold run_check. destruct (preflight args) as [p|] eqn:Epre; [|done]. destruct (prepare p t) as [t0 [[]|]]; [|done].
  destruct (probe _ _ p _ t0) as [t1 [r|r]] eqn:Er; cbn [snd].
  - apply probe_success in Er as (u & d & [(t2 & b & _ & Hu & t3 & b' & _ & Ht & _) _] & ->).
    apply root_uuid_parsed in Hu. apply template_set_digest in Ht as [frame Hd].
    unfold success. split; cbn; try (by destruct (is_pending (affinity p))).
    + exists p. done.
    + by intros v [= <-].
    + intros v [= <-]. split; [done|by exists frame].
  - apply probe_failure in Er as (why & stage & observed & digest & -> & Hk & Hw1 & Hw2 & Hw3).
    unfold failure. split; cbn.
    + done.
    + by destruct Hk.
    + unfold exit_code. cbn. by destruct why.
    + unfold exit_code. cbn. split; [|by destruct Hk]. by destruct Hk, why.
    + intros _. exists p. done.
    + destruct Hk; intros v Hv; by simplify_eq.
    + destruct Hk; intros v Hv; simplify_eq; (split; [done|by eexists]).
Qed.
End check.

(** ** Requests *)

(** A transport that records the paths it is asked for. *)
#[local] Instance recording `{Parsers} (T : Type) `{!Transport T} : Transport (T * list string) := {|
  prepare p s := let (t, r) := prepare p (fst s) in ((t, snd s), r);
  exchange path deadline s := let (t, r) := exchange path deadline (fst s) in ((t, snd s ++ [path]), r)
|}.

Definition requests_of (stage : FailedStage) : nat :=
  match stage with Local => 0 | RootInfo => 1 | TemplateRead => 2 | MappingRead | NoStage => 3 end.

Section requests.
Context `{Parsers} {T : Type} `{!Transport T} `{!Environment}.
Context (from_slice : string → option json) (string_from_slice : string → option string).

Lemma probe_requests p deadline t :
  let (s, r) := probe (T := T * list string) from_slice string_from_slice p deadline (t, []) in
  let report := match r with Ok report => report | Err report => report end in
  snd s = take (requests_of (failed_stage report)) ["/"; TEMPLATE_PATH; MAPPING_PATH].
Proof.
  assert (Hstage : ∀ response stage g observed digest report,
    classify_http response stage g observed digest = Err report → failed_stage report = stage).
  { intros response stage g observed digest report (why & -> & _)%classify_Err. done. }
  unfold probe, step_bind at 1, ask at 1. unfold exchange at 1. cbn [recording fst snd app].
  destruct (exchange "/" deadline t) as [t1 r1].
  destruct (classify_http r1 _ _ _ _) as [b1|] eqn:C1; [|by rewrite (Hstage _ _ _ _ _ _ C1)].
  destruct (root_uuid _ _ b1) as [u|]; [|done].
  destruct (match affinity p with Expected _ => _ | Pending => _ end); [done|].
  unfold step_bind at 1, ask at 1. unfold exchange at 1. cbn [recording fst snd app].
  destruct (exchange TEMPLATE_PATH deadline t1) as [t2 r2].
  destruct (classify_http r2 _ _ _ _) as [b2|] eqn:C2; [|by rewrite (Hstage _ _ _ _ _ _ C2)].
  destruct (template_set _ _ b2) as [[d []]|]; [|done..]. cbn [negb].
  unfold step_bind at 1, ask at 1. unfold exchange at 1. cbn [recording fst snd app].
  destruct (exchange MAPPING_PATH deadline t2) as [t3 r3].
  destruct (classify_http r3 _ _ _ _) as [b3|] eqn:C3; [|by rewrite (Hstage _ _ _ _ _ _ C3)].
  by destruct (is_json_object _ _ b3).
Qed.

(** The probe makes at most its three read-only requests, in order, each at
    most once, and the failed stage of the report tells how many: none before
    the inputs have resolved, and none behind the one that failed. *)
Theorem requests_made args now t :
  let (s, report) := run_check (T := T * list string) from_slice string_from_slice args now (t, []) in
  snd s = take (requests_of (failed_stage report)) ["/"; TEMPLATE_PATH; MAPPING_PATH].
Proof.
  unfold run_check. destruct (preflight args) as [p|]; [|done]. unfold prepare. cbn [recording fst snd].
  destruct (Handshake.prepare p t) as [t0 [[]|]]; [|done].
  pose proof (probe_requests p (now + CHECK_SECONDS) t0) as Hp. by destruct (probe _ _ p _ (t0, [])) as [s [r|r]].
Qed.
End requests.


(** ** Precedence *)

Definition first_of {A : Type} (l : list (option A)) : option A := head (filter_map id l).

Section precedence.
Context `{Parsers} `{!Environment}.

(** A variable as a tier; one that cannot be read is an error of its own. *)
Definition env (name : string) : option string := match value name with Ok v => v | Err _ => None end.
Definition env_pending : option bool := (λ v, String.eqb v "1") <$> env "RIGSIGNAL_PENDING_ENROLLMENT".

(** The configuration and the policy next to it. *)
Definition loaded (args : CheckArgs) (config : ProtectedConfig) (capsule : option ShippingPolicyV1) : Prop :=
  match config_flag args with
  | Some path => parse_protected path = Ok config ∧ read_shipping_policy path = Ok capsule
  | None => config = default_config ∧ capsule = None
  end.

(** Where the expected cluster, or its absence, may be named. *)
Definition affinity_tiers (args : CheckArgs) (shipping : ProtectedShipping) (capsule : option ShippingPolicyV1)
  : list (option string * option bool) :=
  [(uuid_flag args, if pending_flag args then Some true else None);
   (env "RIGSIGNAL_EXPECTED_CLUSTER_UUID", env_pending);
   (sp_expected_cluster_uuid <$> capsule, None);
   (sh_expected_cluster_uuid shipping, sh_pending_enrollment shipping)].
Definition is_named (tier : option string * option bool) : bool :=
  match tier with (None, None) => false | _ => true end.

Lemma affinity_pair_named uuid pending a : affinity_pair uuid pending = Ok (Some a) → is_named (uuid, pending) = true.
Proof. by destruct uuid, pending as [[]|]. Qed.
Lemma affinity_pair_none uuid pending : affinity_pair uuid pending = Ok None → is_named (uuid, pending) = false.
Proof. destruct uuid as [u|], pending as [[]|]; try done. unfold affinity_pair. by destruct (parse_cluster_uuid u). Qed.

Lemma resolve_affinity_tier args shipping capsule a :
  resolve_affinity args shipping capsule = Ok a →
  ∃ uuid pending, List.find is_named (affinity_tiers args shipping capsule) = Some (uuid, pending)
                  ∧ affinity_pair uuid pending = Ok (Some a).
Proof.
  unfold resolve_affinity, affinity_tiers, env_pending, env. cbn [List.find].
  destruct (affinity_pair (uuid_flag args) _) as [[a'|]|] eqn:E1; [| |done].
  { intros [= ->]. rewrite (affinity_pair_named _ _ _ E1). by eexists _, _. }
  rewrite (affinity_pair_none _ _ E1).
  destruct (value "RIGSIGNAL_PENDING_ENROLLMENT") as [pending|]; [|done].
  assert (Hpending : ∀ q, match pending with Some v => if String.eqb v "1" then Ok (Some true) else Err tt | None => Ok None end = Ok q →
    (λ v, String.eqb v "1") <$> pending = q).
  { intros q. destruct pending as [v|]; [|by intros [= <-]]. cbn. destruct (String.eqb v "1"); by intros [= <-]. }
  destruct (match pending with Some _ => _ | None => _ end) as [q|]; [|done]. rewrite (Hpending q eq_refl).
  destruct (value "RIGSIGNAL_EXPECTED_CLUSTER_UUID") as [uuid|]; [|done].
  destruct (affinity_pair uuid q) as [[a'|]|] eqn:E2; [| |done].
  { intros [= ->]. rewrite (affinity_pair_named _ _ _ E2). by eexists _, _. }
  rewrite (affinity_pair_none _ _ E2).
  destruct (affinity_pair (_ <$> capsule) None) as [[a'|]|] eqn:E3; [| |done].
  { destruct (affinity_pair (sh_expected_cluster_uuid shipping) _); [|done]. intros [= ->].
    rewrite (affinity_pair_named _ _ _ E3). by eexists _, _. }
  rewrite (affinity_pair_none _ _ E3).
  destruct (affinity_pair (sh_expected_cluster_uuid shipping) _) as [[a'|]|] eqn:E4; [|done..].
  intros [= ->]. rewrite (affinity_pair_named _ _ _ E4). by eexists _, _.
Qed.

(** An input counts by its tier, flags before the environment before the
    shipping policy before the configuration: the endpoint, the generation and
    the affinity that pass the preflight are each read off the first tier that
    names one, and nothing falls through to a later tier when that one is bad. *)
Theorem preflight_precedence args p (Hp : preflight args = Ok p) :
  ∃ config capsule,
    loaded args config capsule
    ∧ let es := unwrap_or (pc_elasticsearch config) default_elasticsearch in
      let shipping := unwrap_or (pc_shipping config) default_shipping in
      and_then (first_of [endpoint_flag args; env "RIGSIGNAL_ES_ENDPOINT"; es_endpoint es]) endpoint_origin = Some (origin p)
      ∧ and_then (first_of [generation_flag args; env "RIGSIGNAL_TARGET_GENERATION"; sp_target_generation <$> capsule;
                            sh_target_generation shipping]) parse_generation = Some (generation p)
      ∧ ∃ uuid pending, List.find is_named (affinity_tiers args shipping capsule) = Some (uuid, pending)
                        ∧ affinity_pair uuid pending = Ok (Some (affinity p)).
Proof.
  revert Hp. unfold preflight.
  destruct (match config_flag args with Some path => parse_protected path | None => _ end) as [config|] eqn:Ec; [|done].
  destruct (match config_flag args with Some path => read_shipping_policy path | None => _ end) as [capsule|] eqn:Es; [|done].
  intros Hp. exists config, capsule. split.
  { unfold loaded. destruct (config_flag args); [done|]. by injection Ec as <-; injection Es as <-. }
  cbv zeta. set (es := unwrap_or (pc_elasticsearch config) _) in *. set (shipping := unwrap_or (pc_shipping config) _) in *.
  unfold first_of, env. revert Hp.
  destruct (match endpoint_flag args with Some v => Ok v | None => _ end) as [endpoint|] eqn:Ee; [|done].
  destruct (endpoint_origin endpoint) as [o|] eqn:Eo; [|done]. cbn [ok_or].
  destruct (match generation_flag args with Some v => Ok (Some v) | None => _ end) as [text|] eqn:Eg; [|done].
  destruct (and_then text parse_generation) as [g|] eqn:Ep; [|done]. cbn [ok_or].
  destruct (resolve_affinity args shipping capsule) as [a|] eqn:Ea; [|done].
  destruct (match ca_file_flag args with Some path => Ok (Some path) | None => _ end) as [ca_path|]; [|done].
  destruct (load_ca ca_path) as [ca'|]; [|done].
  destruct (match credentials_flag args with Some path => Ok (Some path) | None => _ end) as [dedicated|]; [|done].
  destruct (match dedicated with Some path => _ | None => _ end); [|done]. intros [= <-]. cbn [origin generation affinity]. split_and!.
  - revert Ee. destruct (endpoint_flag args) as [v|]; [by intros [= ->]|].
    destruct (value "RIGSIGNAL_ES_ENDPOINT") as [[v|]|]; [| |done]; cbn; [by intros [= ->]|].
    destruct (es_endpoint es); [|done]. by intros [= ->].
  - revert Eg. destruct (generation_flag args) as [v|]; [by intros [= <-]|].
    destruct (value "RIGSIGNAL_TARGET_GENERATION") as [[v|]|]; [| |done]; cbn; [by intros [= <-]|].
    destruct capsule as [c|]; cbn; [by intros [= <-]|]. by destruct (sh_target_generation shipping); intros [= <-].
  - by apply resolve_affinity_tier.
Qed.

(** An origin is put together from scheme, host and port, and the endpoint's own
    text names no user. *)
Lemma endpoint_origin_parts v o : endpoint_origin v = Some o →
  ∃ url host, parse_url v = Some url ∧ host_str url = Some host ∧ url_has_userinfo v url = false
    ∧ (scheme url = "http" ∨ scheme url = "https")
    ∧ o = scheme url +:+ "://" +:+ host +:+ match port url with Some port => ":" +:+ show port | None => EmptyString end.
Proof.
  unfold endpoint_origin. destruct (parse_url v) as [url|]; [|done].
  destruct (String.eqb_spec (scheme url) "http"); [|destruct (String.eqb_spec (scheme url) "https"); [|done]].
  all: cbn [negb orb]; destruct (host_str url) as [host|] eqn:Eh; [|done]; cbn [orb].
  all: destruct (url_has_userinfo v url) eqn:Eu; [done|]; cbn [orb].
  all: repeat match goal with |- (if ?b || _ then _ else _) = _ → _ => destruct b; [done|]; cbn [orb] end.
  all: destruct (negb _); [done|]; intros [= <-]; exists url, host; split_and!; auto.
  all: destruct (port url); [done|]; by rewrite str_app_nil_r.
Qed.
End precedence.

(** ** An input that passes *)

Definition example_url : Url :=
  {| scheme := "https"; host_str := Some "es.example"; username := EmptyString; password := None;
     query := None; fragment := None; url_path := "/"; port := Some 9200 |}.
#[local] Instance example_parsers : Parsers := {|
  Certificate := unit;
  parse_url v := if String.eqb v "https://es.example:9200/" then Some example_url else None;
  toml_config _ := None; toml_policy _ := None;
  toml_credentials text := if String.eqb text "api_key = 'k'" then Some {| cv_api_key := Some "k"; cv_username := None; cv_password := None |} else None;
  from_pem_bundle _ := None; builds_client _ := true; header_value_ok _ := true |}.
#[local] Instance example_environment : Environment := {|
  value name := Ok (if String.eqb name "RIGSIGNAL_EXPECTED_CLUSTER_UUID" then Some "abcdefghijklmnopqrstuv"
                    else if String.eqb name "RIGSIGNAL_ES_ENDPOINT" then Some "ftp://other/" else None);
  read_public _ := Err tt;
  read_protected _ := Ok "api_key = 'k'";
  read_optional_protected _ := Ok None |}.
Definition example_args : CheckArgs :=
  {| endpoint_flag := Some "https://es.example:9200/"; ca_file_flag := None; uuid_flag := None; pending_flag := false;
     generation_flag := Some (show_generation (repeat 7 32)); credentials_flag := Some (path_from "/etc/key.toml"); config_flag := None |}.
Definition example_preflight : Preflight :=
  {| origin := "https://es.example:9200"; ca := None; credential := ApiKey "k";
     affinity := Expected "abcdefghijklmnopqrstuv"; generation := repeat 7 32 |}.

(** An endpoint flag hides the environment's; the cluster id comes from the
    environment, there being none among the flags. *)
Lemma preflight_precedence_witness :
  preflight example_args = Ok example_preflight ∧
  ∃ config capsule,
    loaded example_args config capsule
    ∧ and_then (first_of [endpoint_flag example_args; env "RIGSIGNAL_ES_ENDPOINT"; es_endpoint (unwrap_or (pc_elasticsearch config) default_elasticsearch)])
        endpoint_origin = Some (origin example_preflight).
Proof.
  assert (Hp : preflight example_args = Ok example_preflight) by (vm_compute; reflexivity). split; [exact Hp|].
  destruct (preflight_precedence example_args example_preflight Hp) as (config & capsule & Hl & He & _).
  exists config, capsule. split; [exact Hl|exact He].
Defined.
