(* ===== verification/D6.v ===== *)
(** * D6: Gamescope mode overrides ([src/detectors/d6.rs])

    The parsers of [modes.cfg] and of [gamescopectl], the judgement of a pinned
    mode against the DRM state, the bounded reads, the bounded child process,
    the live collection and the command.  What the files, the directory and the
    child answer are arguments. *)
From Stdlib Require Import Ascii Floats.SpecFloat.
From S2P Require Import Prelude Float64 Json Contract FileSystem D3Store.

Definition CONTRACT : DetectorContract :=
  {| dc_detector_id := "D6"; dc_rule_version := "d6.2"; dc_error_prefix := "D6" |}.
Definition SUPPORTED_SCOPE : string := "Gamescope modes.cfg overrides mapped to connected external DRM connectors.".
Definition NEAREST_ALTERNATIVE : string := "A display-side issue unrelated to a Gamescope mode override.".
Definition AREA_RATIO_MAX : f64 := f64_lit 5 1.
Definition ASPECT_TOLERANCE : f64 := f64_lit 5 2.
Definition FIXTURE_FILE_LIMIT : Z := 1024 * 1024.
Definition LIVE_FILE_LIMIT : Z := 64 * 1024.
Definition EXTERNAL_EVIDENCE_LIMIT : nat := 1024.
Definition EXTERNAL_LINE_LIMIT : Z := 4096.

(** ** Numbers of the standard library *)

(** [f64::EPSILON]. *)
Definition EPSILON : f64 := S754_finite false (2 ^ 52) (-104).

(** How floats are shown: with [{}], [{:?}] and [{:.3}]. *)
Class FloatText := {
  show_f64 : f64 → string;
  debug_f64 : f64 → string;
  show_f64_3 : f64 → string;
}.

(** ** Data *)

Record ModeOverride := {
  line_number : Z;
  raw_line : string;
  key : string;
  width : Z;
  height : Z;
  hz : f64;
}.
Definition resolution (o : ModeOverride) : Z * Z := (width o, height o).
(** [{}x{}]. *)
Definition show_resolution (r : Z * Z) : string := show (fst r) +:+ "x" +:+ show (snd r).
Definition resolution_text (o : ModeOverride) : string := show_resolution (resolution o).

Record Connector := {
  c_name : string;
  c_status : string;
  edid_bytes : Z;
  modes : list string;
  active_mode : option string;
  enabled : option string;
  dpms : option string;
}.
Record GamescopeControl := {
  connector_name : string;
  display_make : string;
  display_model : string;
  valid_refresh_rates : list f64;
}.
Record DrmState := {
  connectors : list Connector;
  gamescope_control : GamescopeControl;
  collection_notes : list string;
}.

(** ** Texts *)

Fixpoint from_digit (s : string) : option string :=
  match s with
  | EmptyString => None
  | String c rest => if is_ascii_digit c then Some s else from_digit rest
  end.
Fixpoint while_digit (s : string) : string :=
  match s with
  | EmptyString => EmptyString
  | String c rest => if is_ascii_digit c then String c (while_digit rest) else EmptyString
  end.
Definition parse_resolution (value : string) : option (Z * Z) :=
  let! value := from_digit value in
  let! (width, rest) := split_once "x" value in
  let! w := parse_u32 width in
  let! h := parse_u32 (while_digit rest) in
  if (0 <? w) && (0 <? h) then Some (w, h) else None.

Definition sanitize_external (value : string) : string :=
  concat_str (take EXTERNAL_EVIDENCE_LIMIT (List.filter (λ ch, negb (is_control ch)) (chars value))).

Definition orientation_normalize (r : Z * Z) : Z * Z := (Z.max (fst r) (snd r), Z.min (fst r) (snd r)).
Definition area (r : Z * Z) : f64 := f64_mul (f64_of_Z (fst r)) (f64_of_Z (snd r)).
Definition aspect (r : Z * Z) : f64 := f64_div (f64_of_Z (fst r)) (f64_of_Z (snd r)).

Definition card_connector_short_name (name : string) : string :=
  unwrap_or
    (let! (card, rest) := split_once "-" name in
     if is_some_and (strip_prefix "card" card) (λ index, negb (is_empty index) && all_bytes is_ascii_digit index)
     then Some rest else None) name.
Definition connector_short_name (c : Connector) : string := card_connector_short_name (c_name c).
Definition is_connected_external (c : Connector) : bool :=
  String.eqb (c_status c) "connected" && (0 <? edid_bytes c) && negb (starts_with "eDP" (connector_short_name c)).
Definition mode_set (c : Connector) : gset (Z * Z) := list_to_set (filter_map parse_resolution (modes c)).
Definition preferred_resolution (c : Connector) : option (Z * Z) := and_then (head (modes c)) parse_resolution.
Definition internal_native_resolutions (state : DrmState) : gset (Z * Z) :=
  list_to_set (orientation_normalize <$>
    filter_map (λ c, and_then (head (modes c)) parse_resolution)
      (List.filter (λ c, starts_with "eDP" (connector_short_name c)) (connectors state))).

(** ** [modes.cfg] *)

Definition parse_override (line : string) : option (string * Z * Z * f64) :=
  let! (key, mode) := rsplit_once ":" line in
  let! (resolution, hz_text) := split_once "@" mode in
  let! (width, height) := parse_resolution resolution in
  let! hz := and_then (head (split_whitespace hz_text)) parse_f64 in
  if f64_is_finite hz && f64_lt f64_zero hz && negb (is_empty key) then Some (key, width, height, hz) else None.

(** The entries, the evidence and how many lines are not blank. *)
Fixpoint modes_lines (number : Z) (ls : list string) : list ModeOverride * list string * Z :=
  match ls with
  | [] => ([], [], 0)
  | raw :: rest =>
      let '(entries, evidence, nonblank) := modes_lines (number + 1) rest in
      let line := trim raw in
      if is_empty line then (entries, evidence, nonblank)
      else if EXTERNAL_LINE_LIMIT <? slen raw then
        (entries, ("modes.cfg line " +:+ show number +:+ ": ignored oversized line") :: evidence, nonblank + 1)
      else
        match parse_override line with
        | Some (key, width, height, hz) =>
            ({| line_number := number; raw_line := sanitize_external raw; key := sanitize_external key;
                width := width; height := height; hz := hz |} :: entries, evidence, nonblank + 1)
        | None =>
            (entries, ("modes.cfg line " +:+ show number +:+ ": ignored unparsable line: " +:+ sanitize_external raw) :: evidence,
             nonblank + 1)
        end
  end.
Definition parse_modes_cfg (contents : string) : result (list ModeOverride * list string) string :=
  let '(entries, evidence, nonblank) := modes_lines 1 (lines contents) in
  if is_nil entries && (0 <? nonblank) then Err "modes.cfg contains only unparsable nonblank lines"
  else Ok (entries, if is_nil entries && (nonblank =? 0) then evidence ++ ["modes.cfg: no override present (file empty)"]
                    else evidence).

(** ** Files *)

(** What a path answers: whether it is a regular file, opening it, the same
    question about the open file, and what reading it to its end gives. *)
Record FileView := {
  fv_before : result bool string;
  fv_open : result unit string;
  fv_after : result bool string;
  fv_content : result string string;
}.
Definition open_regular_file (v : FileView) : result (result string string) string :=
  let? regular := fv_before v in
  if negb regular then Err "not a regular file"
  else
    let? _ := fv_open v in
    let? regular := fv_after v in
    if negb regular then Err "not a regular file" else Ok (fv_content v).
(** [take(limit + 1)] of what is read. *)
Definition read_bounded (v : FileView) (limit : Z) : result string string :=
  let? content := open_regular_file v in
  let? text := content in
  let bytes := take_bytes (Z.to_nat (limit + 1)) text in
  if limit <? slen bytes then Err ("file exceeds " +:+ show limit +:+ "-byte limit") else Ok bytes.
Definition read_regular_text (v : FileView) (limit : Z) : result string string :=
  let? bytes := read_bounded v limit in
  if is_utf8 bytes then Ok bytes else Err "file was not UTF-8".
Definition regular_file_len (v : FileView) (limit : Z) : result Z string := map_ok slen (read_bounded v limit).

(** ** [gamescopectl] *)

Record ParsedFields := {
  pf_connector : option string;
  pf_make : option string;
  pf_model : option string;
  pf_rates : option (list f64);
}.
Definition parse_rates (value : string) : list f64 :=
  List.filter (λ rate, f64_is_finite rate && f64_lt f64_zero rate)
    (filter_map (λ rate, parse_f64 (trim_matches (char_is (Ascii.eqb ",")) rate)) (split_whitespace value)).
Definition gamescopectl_line (f : ParsedFields) (line : string) : ParsedFields :=
  let line := trim line in
  if EXTERNAL_LINE_LIMIT <? slen line then f
  else
    let field (label : string) (old : option string) :=
      match strip_prefix label line with Some value => Some (sanitize_external (trim value)) | None => old end in
    {| pf_connector := field "- Connector Name:" (pf_connector f);
       pf_make := field "- Display Make:" (pf_make f);
       pf_model := field "- Display Model:" (pf_model f);
       pf_rates := match strip_prefix "- ValidRefreshRates:" line with Some value => Some (parse_rates value) | None => pf_rates f end |}.
Definition parse_gamescopectl (stdout : string) : result GamescopeControl string :=
  let f := fold_left gamescopectl_line (lines stdout)
             {| pf_connector := None; pf_make := None; pf_model := None; pf_rates := None |} in
  let? connector := ok_or (pf_connector f) "gamescopectl output missing Connector Name" in
  let? make := ok_or (pf_make f) "gamescopectl output missing Display Make" in
  let? model := ok_or (pf_model f) "gamescopectl output missing Display Model" in
  let? rates := ok_or (pf_rates f) "gamescopectl output missing ValidRefreshRates" in
  if is_empty connector || is_empty make || is_empty model || is_nil rates then
    Err "gamescopectl output has empty required display fields"
  else Ok {| connector_name := connector; display_make := make; display_model := model; valid_refresh_rates := rates |}.

(** *** The child process *)

Definition OUTPUT_LIMIT : Z := 256 * 1024.
(** In milliseconds: the timeout, and the pause of a round. *)
Definition TIMEOUT : Z := 5000.
Definition ROUND_PAUSE : Z := 20.

Inductive Pipe := Stdout | Stderr.
Definition pipe_name (p : Pipe) : string := match p with Stdout => "stdout" | Stderr => "stderr" end.

(** What the reader of a pipe sends, when reading the pipe to its end gives
    [read]. *)
Definition reader_message (p : Pipe) (read : result string string) : result string string :=
  let? bytes := map_err (λ error, "cannot read gamescopectl " +:+ pipe_name p +:+ ": " +:+ error) read in
  let bytes := take_bytes (Z.to_nat (OUTPUT_LIMIT + 1)) bytes in
  if slen bytes <=? OUTPUT_LIMIT then Ok bytes
  else Err ("gamescopectl " +:+ pipe_name p +:+ " exceeds " +:+ show OUTPUT_LIMIT +:+ "-byte limit").

Record ExitStatus := { st_success : bool; st_text : string }.
Record Output := { out_status : ExitStatus; out_stdout : string; out_stderr : string }.
Inductive GamescopeRunError := NotFound | Failed (error : string).

(** A round of the loop: the readers whose messages are there, what waiting
    says, the time since the start; and the readers heard when the child has
    ended and the rest is waited for. *)
Record Round := {
  rd_arrived : list Pipe;
  rd_exited : result (option ExitStatus) string;
  rd_elapsed : Z;
  rd_late : list Pipe;
}.
Inductive Spawned :=
| ExecutableNotFound
| CannotExecute (error : string)
| NoStdout
| NoStderr
| Running (pipe : Pipe → result string string) (rounds : nat → Round).

(** What has been heard of the two readers. *)
Record Heard := { h_stdout : option string; h_stderr : option string; h_received : Z }.
Definition hear (pipe : Pipe → result string string) (h : Heard) (p : Pipe) : result Heard string :=
  let? bytes := reader_message p (pipe p) in
  Ok (match p with
      | Stdout => {| h_stdout := Some bytes; h_stderr := h_stderr h; h_received := h_received h + 1 |}
      | Stderr => {| h_stdout := h_stdout h; h_stderr := Some bytes; h_received := h_received h + 1 |}
      end).
Fixpoint hear_all (pipe : Pipe → result string string) (h : Heard) (ps : list Pipe) : result Heard string :=
  match ps with
  | [] => Ok h
  | p :: rest => let? h := hear pipe h p in hear_all pipe h rest
  end.
(** [while received < 2]. *)
Fixpoint hear_rest (pipe : Pipe → result string string) (h : Heard) (ps : list Pipe) : result Heard string :=
  if 2 <=? h_received h then Ok h
  else
    match ps with
    | [] => Err "gamescopectl output reader stopped unexpectedly"
    | p :: rest => let? h := hear pipe h p in hear_rest pipe h rest
    end.

(** How the loop ends: its result, and whether the child is known to be gone. *)
Record Ended := { en_result : result Output GamescopeRunError; en_reaped : bool }.
Fixpoint supervise (pipe : Pipe → result string string) (rounds : nat → Round) (fuel k : nat) (h : Heard) : option Ended :=
  match fuel with
  | O => None
  | S fuel =>
      let round := rounds k in
      match hear_all pipe h (rd_arrived round) with
      | Err error => Some {| en_result := Err (Failed error); en_reaped := true |}
      | Ok h =>
          match rd_exited round with
          | Err error => Some {| en_result := Err (Failed ("cannot wait for gamescopectl: " +:+ error)); en_reaped := false |}
          | Ok (Some status) =>
              Some {| en_result :=
                        match hear_rest pipe h (rd_late round) with
                        | Ok h => Ok {| out_status := status; out_stdout := unwrap_or (h_stdout h) EmptyString;
                                        out_stderr := unwrap_or (h_stderr h) EmptyString |}
                        | Err error => Err (Failed error)
                        end;
                      en_reaped := true |}
          | Ok None =>
              if TIMEOUT <=? rd_elapsed round then
                Some {| en_result := Err (Failed "gamescopectl timed out after 5 seconds"); en_reaped := true |}
              else supervise pipe rounds fuel (S k) h
          end
      end
  end.
(** The rounds until the timeout has passed. *)
Definition ROUNDS : nat := 251.
Definition run_gamescopectl (spawned : Spawned) : option Ended :=
  let failed error := Some {| en_result := Err error; en_reaped := false |} in
  match spawned with
  | ExecutableNotFound => failed NotFound
  | CannotExecute error => failed (Failed ("cannot execute gamescopectl: " +:+ error))
  | NoStdout => failed (Failed "cannot capture gamescopectl stdout")
  | NoStderr => failed (Failed "cannot capture gamescopectl stderr")
  | Running pipe rounds => supervise pipe rounds ROUNDS 0 {| h_stdout := None; h_stderr := None; h_received := 0 |}
  end.

(** ** The DRM directory *)

Record DrmEntry := { de_name : string; de_is_dir : bool; de_file : string → FileView }.

(** An optional attribute, and the note when it cannot be read. *)
Definition optional_attribute (e : DrmEntry) (name attribute : string) : option string * list string :=
  match read_regular_text (de_file e attribute) LIVE_FILE_LIMIT with
  | Ok value => (Some (sanitize_external (trim value)), [])
  | Err error => (None, [name +:+ ": " +:+ attribute +:+ " metadata unavailable: " +:+ error])
  end.
(** Whether [gamescopectl] names the entry and it is connected. *)
Definition is_selected (control : GamescopeControl) (name status : string) : bool :=
  String.eqb (card_connector_short_name name) (connector_name control) && String.eqb status "connected".
Definition read_edid (e : DrmEntry) (name : string) (selected : bool) : result Z string :=
  let edid := regular_file_len (de_file e "edid") LIVE_FILE_LIMIT in
  if selected then
    let? edid_bytes := map_err (λ error, "cannot read mandatory edid for " +:+ name +:+ ": " +:+ error) edid in
    if edid_bytes =? 0 then Err ("selected connector " +:+ name +:+ " has empty mandatory edid") else Ok edid_bytes
  else Ok (match edid with Ok n => n | Err _ => 0 end).
Definition read_modes (e : DrmEntry) (name : string) (selected : bool) : result (list string) string :=
  let text := read_regular_text (de_file e "modes") LIVE_FILE_LIMIT in
  let? text := if selected then map_err (λ error, "cannot read mandatory modes for " +:+ name +:+ ": " +:+ error) text
               else Ok (match text with Ok text => text | Err _ => EmptyString end) in
  Ok (sanitize_external <$> lines text).

Definition read_connector (control : GamescopeControl) (e : DrmEntry) (name : string) : result (Connector * list string) string :=
  let? status := map_err (λ error, "cannot read mandatory status for " +:+ name +:+ ": " +:+ error)
                   (read_regular_text (de_file e "status") LIVE_FILE_LIMIT) in
  let status := sanitize_external (trim status) in
  let selected := is_selected control name status in
  let? edid_bytes := read_edid e name selected in
  let? modes := read_modes e name selected in
  let (enabled, notes1) := optional_attribute e name "enabled" in
  let (dpms, notes2) := optional_attribute e name "dpms" in
  Ok ({| c_name := name; c_status := status; edid_bytes := edid_bytes; modes := modes; active_mode := None;
         enabled := enabled; dpms := dpms |}, notes1 ++ notes2).

Fixpoint read_connectors (control : GamescopeControl) (entries : list (result DrmEntry string))
  : result (list Connector * list string) string :=
  match entries with
  | [] => Ok ([], [])
  | entry :: rest =>
      let? e := map_err (λ error, "cannot enumerate /sys/class/drm entry: " +:+ error) entry in
      let name := from_utf8_lossy (de_name e) in
      if negb (starts_with "card" name) || negb (contains "-" name) || negb (de_is_dir e) then read_connectors control rest
      else
        let? (c, notes) := read_connector control e name in
        let? (cs, more) := read_connectors control rest in
        Ok (c :: cs, notes ++ more)
  end.

(** ** The judgement *)

Section judgement.
Context `{FloatText}.

Definition find_gamescope_connector (state : DrmState) (o : ModeOverride) : option Connector :=
  let control := gamescope_control state in
  let name := trim (display_make control +:+ " " +:+ display_model control) in
  if String.eqb name (key o) then
    List.find (λ c, String.eqb (connector_short_name c) (connector_name control)) (connectors state)
  else None.

Definition line_evidence (o : ModeOverride) : string := "modes.cfg line " +:+ show (line_number o) +:+ ": " +:+ raw_line o.

Definition invalid_mode (o : ModeOverride) (c : Connector) (active : option (Z * Z)) : option (list string) :=
  let modes := mode_set c in
  let missing :=
    (if bool_decide (resolution o ∈ modes) then [] else ["pinned " +:+ resolution_text o])
    ++ match active with
       | Some active => if bool_decide (active ∈ modes) then [] else ["active " +:+ show_resolution active]
       | None => []
       end in
  if is_nil missing then None
  else Some [line_evidence o;
             c_name c +:+ ": " +:+ join ", " missing +:+ " not present in resolution-only sysfs modes; Hz cannot be validated from /sys/class/drm modes data"].

(** The branches of a degraded mode that apply. *)
Definition degraded_branches (o : ModeOverride) (preferred : Z * Z) (state : DrmState) : list string :=
  let pinned_normalized := orientation_normalize (resolution o) in
  let area_ratio := f64_div (area (resolution o)) (area preferred) in
  let aspect_delta := f64_abs (f64_sub (aspect (resolution o)) (aspect preferred)) in
  (if bool_decide (pinned_normalized ∈ internal_native_resolutions state) then
     ["pinned " +:+ resolution_text o +:+ " equals orientation-normalized internal-panel native " +:+ show_resolution pinned_normalized]
   else [])
  ++ (if negb (bool_decide (resolution o = preferred)) && f64_lt area_ratio AREA_RATIO_MAX
         && f64_lt ASPECT_TOLERANCE aspect_delta then
        ["pinned area ratio " +:+ show_f64_3 area_ratio +:+ " < " +:+ show_f64 AREA_RATIO_MAX +:+ " and aspect delta "
         +:+ show_f64_3 aspect_delta +:+ " > " +:+ show_f64 ASPECT_TOLERANCE +:+ " versus preferred " +:+ show_resolution preferred]
      else []).

Definition active_evidence (o : ModeOverride) (c : Connector) (active : option (Z * Z)) : list string :=
  match active_mode c with
  | Some mode =>
      [c_name c +:+ ": active_mode " +:+ mode
       +:+ (if bool_decide (active = Some (resolution o)) then " agrees with pinned " else " differs from pinned ")
       +:+ resolution_text o]
  | None => []
  end.
Definition refresh_evidence (o : ModeOverride) (control : GamescopeControl) : list string :=
  let rates := valid_refresh_rates control in
  if negb (is_nil rates) && negb (existsb (λ rate, f64_lt (f64_abs (f64_sub rate (hz o))) EPSILON) rates) then
    ["gamescope_control.valid_refresh_rates=[" +:+ join ", " (debug_f64 <$> rates) +:+ "] diverges from pinned refresh " +:+ show_f64 (hz o)]
  else [].

Definition degraded_mode (o : ModeOverride) (c : Connector) (state : DrmState) (active : option (Z * Z))
  : option (f64 * list string) :=
  let! preferred := preferred_resolution c in
  let branches := degraded_branches o preferred state in
  if is_nil branches then None
  else
    Some (if (2 <=? length branches)%nat then f64_lit 9 1 else f64_lit 85 2,
          [line_evidence o; c_name c +:+ ": preferred resolution is " +:+ show_resolution preferred +:+ " (first sysfs mode)"]
          ++ active_evidence o c active
          ++ ((λ branch, c_name c +:+ ": degraded branch: " +:+ branch) <$> branches)
          ++ refresh_evidence o (gamescope_control state)).

Definition plain_bad (o : ModeOverride) (c : Connector) : string :=
  let native := unwrap_or (show_resolution <$> preferred_resolution c) "the display native/preferred mode" in
  "Your display is being driven at " +:+ resolution_text o +:+ "@" +:+ show_f64 (hz o) +:+ " while " +:+ c_name c +:+ " prefers " +:+ native
  +:+ ". This driven-vs-native mismatch points to a stale gamescope mode override in modes.cfg. A reboot won't help because this is a home-dir config, not an EDID cache.".

(** ** Diagnosis of captured texts *)

(** [serde_json::from_str] of the state, and the clock of [Diagnosis::build]. *)
Context (decode : string → result DrmState string) (now : string).

Definition diagnosis (disposition : Disposition) (verdict : string) (confidence : f64) (confidence_basis : string)
    (evidence : list string) (plain_language : string) (suggested_fixes : list string) (falsifier : string)
    (host : option string) : result Diagnosis string :=
  build now CONTRACT
    {| df_disposition := disposition; df_verdict := verdict; df_confidence := confidence;
       df_confidence_basis := confidence_basis; df_evidence := evidence; df_plain_language := plain_language;
       df_suggested_fixes := suggested_fixes; df_falsifier := falsifier; df_supported_scope := [SUPPORTED_SCOPE];
       df_missing_evidence := []; df_nearest_alternative := NEAREST_ALTERNATIVE; df_host := host |}.

Definition no_override_outcome (evidence : list string) (host : option string) : result Outcome string :=
  map_ok DiagnosisOutcome
    (diagnosis NonFinding "ok" (f64_lit 7 1) "No modes.cfg override was present, so D6 has no mode pin to validate." evidence
       "No gamescope display mode override is present." []
       "A parsed gamescope mode override would cause D6 to validate it against DRM state." host).

(** The candidate for a finding. *)
Record Candidate := {
  cd_override : ModeOverride;
  cd_connector : Connector;
  cd_verdict : string;
  cd_confidence : f64;
  cd_evidence : list string;
}.
Record Judgement := {
  j_evidence : list string;
  j_best : option Candidate;
  j_mapped : bool;
  j_ok_notes : list string;
}.

(** The connector an override names, when it is usable. *)
Definition usable_connector (state : DrmState) (o : ModeOverride) : option Connector :=
  let! c := find_gamescope_connector state o in if is_connected_external c then Some c else None.

Definition ok_note (o : ModeOverride) (c : Connector) : string :=
  match preferred_resolution c with
  | Some preferred =>
      if bool_decide (preferred = resolution o) then line_evidence o +:+ " -- pinned mode matches preferred resolution"
      else line_evidence o +:+ " -- below preferred " +:+ show_resolution preferred +:+ " but aspect/native checks are legitimate"
  | None => line_evidence o +:+ " -- pinned mode matches preferred resolution"
  end.

Definition judge_override (state : DrmState) (j : Judgement) (o : ModeOverride) : Judgement :=
  match usable_connector state o with
  | None =>
      {| j_evidence := j_evidence j ++ [line_evidence o +:+ " -- display not currently connected; cannot validate"];
         j_best := j_best j; j_mapped := j_mapped j; j_ok_notes := j_ok_notes j |}
  | Some c =>
      let active := and_then (active_mode c) parse_resolution in
      let with_best (best : option Candidate) (notes : list string) :=
        {| j_evidence := j_evidence j; j_best := best; j_mapped := true; j_ok_notes := notes |} in
      match invalid_mode o c active with
      | Some bad =>
          with_best (match j_best j with
                     | None => Some {| cd_override := o; cd_connector := c; cd_verdict := "mode-override-invalid";
                                       cd_confidence := f64_lit 9 1; cd_evidence := bad |}
                     | best => best
                     end) (j_ok_notes j)
      | None =>
          match degraded_mode o c state active with
          | Some (confidence, bad) =>
              with_best (if is_none_or (j_best j) (λ candidate, f64_lt (cd_confidence candidate) confidence) then
                           Some {| cd_override := o; cd_connector := c; cd_verdict := "mode-override-degraded";
                                   cd_confidence := confidence; cd_evidence := bad |}
                         else j_best j) (j_ok_notes j)
          | None => with_best (j_best j) (j_ok_notes j ++ [ok_note o c])
          end
      end
  end.

Definition finding_outcome (evidence : list string) (best : Candidate) (host : option string) : result Outcome string :=
  map_ok DiagnosisOutcome
    (diagnosis Finding (cd_verdict best) (cd_confidence best)
       (if String.eqb (cd_verdict best) "mode-override-invalid" then
          "Pinned or active resolution is absent from the selected connector's resolution-only sysfs modes."
        else "One or more D6 degraded-mode branches matched the pinned mode against preferred and internal-panel evidence.")
       (evidence ++ cd_evidence best) (plain_bad (cd_override best) (cd_connector best))
       ["Correct or delete the offending line in ~/.config/gamescope/modes.cfg.";
        "Run: systemctl --user restart gamescope-session.target"]
       "The finding is falsified if a fresh DRM snapshot shows the pinned/active resolution valid and neither degraded branch matches." host).
Definition ok_outcome (evidence : list string) (host : option string) : result Outcome string :=
  map_ok DiagnosisOutcome
    (diagnosis NonFinding "ok" (f64_lit 75 2)
       "All mapped overrides validated against the current connector modes and D6 degraded-mode checks." evidence
       "Mapped gamescope display overrides validate against the current DRM snapshot." []
       "A connector snapshot that makes an override absent or triggers a D6 degraded branch would falsify this validation." host).

Definition diagnose_inputs (modes_cfg drm_state : string) (host : option string) : result Outcome string :=
  let? (overrides, evidence) := parse_modes_cfg modes_cfg in
  let? state := map_err (λ error, "malformed DRM-state JSON: " +:+ error) (decode drm_state) in
  if is_nil overrides then no_override_outcome evidence host
  else
    let j := fold_left (judge_override state) overrides
               {| j_evidence := evidence ++ collection_notes state; j_best := None; j_mapped := false; j_ok_notes := [] |} in
    if negb (j_mapped j) then
      Ok (NotApplicableOutcome (not_applicable "Parsed overrides did not map to a connected, usable external display." (j_evidence j)))
    else
      match j_best j with
      | Some best => finding_outcome (j_evidence j) best host
      | None => ok_outcome (j_evidence j ++ j_ok_notes j) host
      end.

(** [diagnose]: [files] by their paths. *)
Definition diagnose (files : string → FileView) (modes_cfg : option string) (drm_state : string) (host : option string)
  : result Outcome string :=
  match modes_cfg with
  | None => no_override_outcome ["modes.cfg: no override present (file empty)"] host
  | Some path =>
      let? modes := map_err (λ error, "cannot read modes.cfg " +:+ from_utf8_lossy path +:+ ": " +:+ error)
                      (read_regular_text (files path) FIXTURE_FILE_LIMIT) in
      let? drm := map_err (λ error, "cannot read DRM-state " +:+ from_utf8_lossy drm_state +:+ ": " +:+ error)
                    (read_regular_text (files drm_state) FIXTURE_FILE_LIMIT) in
      diagnose_inputs modes drm host
  end.

(** ** Live collection *)

(** [serde_json::to_string] of the state. *)
Context (encode : DrmState → result string string).

(** The overrides of the user, and the note when they cannot be read. *)
Definition live_modes (files : string → FileView) (home : option string) : string * list string :=
  match home with
  | None => (EmptyString, [])
  | Some home =>
      let path := join_path home ".config/gamescope/modes.cfg" in
      match read_regular_text (files path) LIVE_FILE_LIMIT with
      | Ok modes => (modes, [])
      | Err error => (EmptyString, ["modes.cfg unavailable at " +:+ from_utf8_lossy path +:+ ": " +:+ error])
      end
  end.

Definition matching (control : GamescopeControl) (cs : list Connector) : nat :=
  count (λ c, String.eqb (connector_short_name c) (connector_name control) && is_connected_external c) cs.

(** What follows a successful [gamescopectl]. *)
Definition collect (files : string → FileView) (home : option string) (read_dir : result (list (result DrmEntry string)) string)
    (control : GamescopeControl) (host : option string) : result Outcome string :=
  let? entries := map_err (λ error, "cannot enumerate /sys/class/drm: " +:+ error) read_dir in
  let? (connectors, notes) := read_connectors control entries in
  let matches := matching control connectors in
  if (matches =? 0)%nat then
    Ok (NotApplicableOutcome (not_applicable "No connected usable external connector matches gamescopectl."
          ["gamescopectl connector=" +:+ connector_name control]))
  else if (1 <? matches)%nat then Err ("ambiguous connected connector " +:+ connector_name control +:+ " across GPU cards")
  else
    let (modes, more) := live_modes files home in
    let? text := encode {| connectors := connectors; gamescope_control := control; collection_notes := notes ++ more |} in
    diagnose_inputs modes text host.

Definition after_gamescopectl (files : string → FileView) (home : option string)
    (read_dir : result (list (result DrmEntry string)) string) (host : option string)
    (ran : result Output GamescopeRunError) : result Outcome string :=
  match ran with
  | Err NotFound =>
      Ok (NotApplicableOutcome (not_applicable "gamescopectl is not installed; no Gamescope display session is available."
            ["gamescopectl executable not found"]))
  | Err (Failed error) => Err error
  | Ok output =>
      let text := out_stdout output in
      if negb (is_utf8 text) then Err "gamescopectl stdout was not UTF-8"
      else if negb (st_success (out_status output)) then
        let lower := to_ascii_lowercase text in
        if contains "no gamescope" lower || contains "no session" lower then
          Ok (NotApplicableOutcome (not_applicable "Gamescope reports no active display session." [sanitize_external text]))
        else Err ("gamescopectl exited with " +:+ st_text (out_status output))
      else
        let? control := parse_gamescopectl text in
        collect files home read_dir control host
  end.

(** [live_outcome] on Linux: nothing when the loop over the child takes more
    than [ROUNDS] rounds. *)
Definition live_outcome (files : string → FileView) (home : option string)
    (read_dir : result (list (result DrmEntry string)) string) (spawned : Spawned) (host : option string)
  : option (result Outcome string) :=
  (λ ended, after_gamescopectl files home read_dir host (en_result ended)) <$> run_gamescopectl spawned.

(** [run_cli]. *)
Definition run_cli (to_json : Outcome → result string string) (files : string → FileView) (home : option string)
    (read_dir : result (list (result DrmEntry string)) string) (spawned : Spawned)
    (modes_cfg drm_state : option string) (json : bool) (host : option string) : option Emission :=
  let! result :=
    match modes_cfg, drm_state with
    | Some modes, Some drm => Some (diagnose files (Some modes) drm host)
    | None, None => live_outcome files home read_dir spawned host
    | _, _ => Some (Err "offline display diagnosis requires both --modes-cfg and --drm-state")
    end in
  Some (emit show_f64 to_json CONTRACT result json).
End judgement.
