(* ===== verification/D6Spec.v ===== *)
(** * What D6 reports ([src/detectors/d6.rs])

    When a pinned mode is a finding and which one is reported, what the live
    collection judges, and that the supervised child is always done with. *)
From Stdlib Require Import Ascii Floats.SpecFloat.
From S2P Require Import Prelude Float64 Json Contract FileSystem D3Store D6.

(** ** The two ways in which a pinned mode is bad *)

(** The pinned or the active resolution is none of the connector's modes. *)
Definition not_offered (o : ModeOverride) (c : Connector) : Prop :=
  let offered r := ∃ mode, mode ∈ modes c ∧ parse_resolution mode = Some r in
  ¬ offered (resolution o) ∨ ∃ active, and_then (active_mode c) parse_resolution = Some active ∧ ¬ offered active.

(** The pin is the internal panel's resolution up to orientation, or it is
    neither near the preferred area nor near its aspect. *)
Definition like_internal_panel (o : ModeOverride) (state : DrmState) : Prop :=
  ∃ panel r, panel ∈ connectors state ∧ starts_with "eDP" (connector_short_name panel) = true
    ∧ preferred_resolution panel = Some r ∧ orientation_normalize r = orientation_normalize (resolution o).
Definition far_from_preferred (o : ModeOverride) (preferred : Z * Z) : Prop :=
  resolution o ≠ preferred
  ∧ f64_lt (f64_div (area (resolution o)) (area preferred)) AREA_RATIO_MAX = true
  ∧ f64_lt ASPECT_TOLERANCE (f64_abs (f64_sub (aspect (resolution o)) (aspect preferred))) = true.
Definition poorly_chosen (o : ModeOverride) (c : Connector) (state : DrmState) : Prop :=
  ∃ preferred, preferred_resolution c = Some preferred ∧ (like_internal_panel o state ∨ far_from_preferred o preferred).

Lemma elem_of_mode_set r c : r ∈ mode_set c ↔ ∃ mode, mode ∈ modes c ∧ parse_resolution mode = Some r.
Proof. unfold mode_set. by rewrite elem_of_list_to_set, elem_of_filter_map. Qed.

Lemma elem_of_internal r state :
  r ∈ internal_native_resolutions state ↔
  ∃ panel n, panel ∈ connectors state ∧ starts_with "eDP" (connector_short_name panel) = true
    ∧ preferred_resolution panel = Some n ∧ orientation_normalize n = r.
Proof.
  unfold internal_native_resolutions. rewrite elem_of_list_to_set, list_elem_of_fmap. split.
  - intros (n & -> & (c & [Hc1 Hc2]%list_elem_of_In%List.filter_In & Hn)%elem_of_filter_map).
    exists c, n. split_and!; [by apply list_elem_of_In|done..].
  - intros (c & n & Hc & He & Hn & <-). exists n. split; [done|]. apply elem_of_filter_map. exists c. split; [|done].
    apply list_elem_of_In, List.filter_In. split; [by apply list_elem_of_In|done].
Qed.

Section judgement.
Context `{FloatText}.

Lemma invalid_mode_iff o c :
  is_Some (invalid_mode o c (and_then (active_mode c) parse_resolution)) ↔ not_offered o c.
Proof.
  unfold invalid_mode, not_offered. cbv zeta. rewrite <-elem_of_mode_set.
  destruct (bool_decide_reflect (resolution o ∈ mode_set c)) as [Hin|Hout].
  - destruct (and_then (active_mode c) parse_resolution) as [a|]; cbn [app].
    + destruct (bool_decide_reflect (a ∈ mode_set c)) as [Ha|Ha]; cbn [is_nil].
      * split; [by intros []|]. intros [|(a' & [= <-] & Hno)]; [done|]. by rewrite <-elem_of_mode_set in Hno.
      * split; [|by eexists]. intros _. right. exists a. by rewrite <-elem_of_mode_set.
    + split; [by intros []|]. by intros [|(a & ? & _)].
  - split; [by left|]. intros _. cbn [app is_nil]. by eexists.
Qed.

Lemma degraded_branches_iff o preferred state :
  degraded_branches o preferred state ≠ [] ↔ like_internal_panel o state ∨ far_from_preferred o preferred.
Proof.
  unfold degraded_branches, like_internal_panel, far_from_preferred. cbv zeta. rewrite <-elem_of_internal.
  destruct (bool_decide_reflect (orientation_normalize (resolution o) ∈ internal_native_resolutions state)) as [Hi|Hi]; cbn [app].
  { split; [by left|done]. }
  destruct (bool_decide_reflect (resolution o = preferred)) as [He|He]; cbn [negb andb].
  { split; [done|]. by intros [|[]]. }
  destruct (f64_lt _ AREA_RATIO_MAX); cbn [andb]; [|split; [done|by intros [|(_ & ? & _)]]].
  destruct (f64_lt ASPECT_TOLERANCE _); [|split; [done|by intros [|(_ & _ & ?)]]].
  split; [by right|done].
Qed.

Lemma degraded_mode_iff o c state active : is_Some (degraded_mode o c state active) ↔ poorly_chosen o c state.
Proof.
  unfold degraded_mode, poorly_chosen. destruct (preferred_resolution c) as [preferred|].
  - cbv zeta.
    transitivity (degraded_branches o preferred state ≠ []).
    + destruct (degraded_branches o preferred state); cbn [is_nil]; [split; [by intros []|done]|split; [done|by eexists]].
    + rewrite degraded_branches_iff. split; [intros Hb; by exists preferred|]. by intros (p & [= <-] & Hb).
  - split; [by intros []|]. by intros (p & ? & _).
Qed.

(** *** The candidates *)

(** What an override says against its display. *)
Definition candidate (state : DrmState) (o : ModeOverride) : option Candidate :=
  let! c := usable_connector state o in
  let active := and_then (active_mode c) parse_resolution in
  match invalid_mode o c active with
  | Some bad => Some {| cd_override := o; cd_connector := c; cd_verdict := "mode-override-invalid";
                        cd_confidence := f64_lit 9 1; cd_evidence := bad |}
  | None =>
      let! (confidence, bad) := degraded_mode o c state active in
      Some {| cd_override := o; cd_connector := c; cd_verdict := "mode-override-degraded";
              cd_confidence := confidence; cd_evidence := bad |}
  end.

Record sound_candidate (state : DrmState) (x : Candidate) : Prop := {
  sc_usable : usable_connector state (cd_override x) = Some (cd_connector x);
  sc_line : line_evidence (cd_override x) ∈ cd_evidence x;
  sc_confidence : f64_in f64_zero f64_one (cd_confidence x) = true;
  sc_verdict : cd_verdict x = "mode-override-invalid" ∧ not_offered (cd_override x) (cd_connector x)
    ∨ cd_verdict x = "mode-override-degraded" ∧ ¬ not_offered (cd_override x) (cd_connector x)
      ∧ poorly_chosen (cd_override x) (cd_connector x) state;
}.

Lemma invalid_mode_line o c active bad : invalid_mode o c active = Some bad → line_evidence o ∈ bad.
Proof. unfold invalid_mode. cbv zeta. destruct (is_nil _); [done|]. intros [= <-]. by left. Qed.
Lemma degraded_mode_line o c state active confidence bad :
  degraded_mode o c state active = Some (confidence, bad) →
  line_evidence o ∈ bad ∧ f64_in f64_zero f64_one confidence = true.
Proof.
  unfold degraded_mode. destruct (preferred_resolution c); [|done]. cbv zeta. destruct (is_nil _); [done|].
  intros [= <- <-]. split; [by left|]. by case_match.
Qed.

Lemma candidate_sound state o x : candidate state o = Some x → cd_override x = o ∧ sound_candidate state x.
Proof.
  unfold candidate. destruct (usable_connector state o) as [c|] eqn:Hc; [|done]. cbv zeta.
  pose proof (invalid_mode_iff o c) as Hinv. destruct (invalid_mode o c _) as [bad|] eqn:Hi.
  - intros [= <-]. split; [done|]. split; [done|by eapply invalid_mode_line|done|]. left. split; [done|]. by apply Hinv.
  - destruct (degraded_mode o c state _) as [[confidence bad]|] eqn:Hd; [|done]. intros [= <-]. split; [done|].
    destruct (degraded_mode_line _ _ _ _ _ _ Hd) as [Hl Hf]. split; [done..|]. right. split_and!; [done| |].
    + intros Hn. by apply Hinv in Hn as [].
    + apply (degraded_mode_iff o c state (and_then (active_mode c) parse_resolution)). by rewrite Hd.
Qed.
Lemma candidate_None state o c :
  usable_connector state o = Some c → candidate state o = None → ¬ not_offered o c ∧ ¬ poorly_chosen o c state.
Proof.
  unfold candidate. intros ->. cbv zeta. rewrite <-invalid_mode_iff.
  rewrite <-(degraded_mode_iff o c state (and_then (active_mode c) parse_resolution)).
  destruct (invalid_mode o c _); [done|]. destruct (degraded_mode o c state _) as [[]|]; [done|].
  intros _. split; by intros [].
Qed.

(** How the candidates compete. *)
Definition prefer (best : option Candidate) (x : Candidate) : option Candidate :=
  match best with
  | None => Some x
  | Some b => if String.eqb (cd_verdict x) "mode-override-degraded" && f64_lt (cd_confidence b) (cd_confidence x) then Some x else best
  end.

Lemma judge_step state j o :
  let j' := judge_override state j o in
  j_best j' = match candidate state o with Some x => prefer (j_best j) x | None => j_best j end
  ∧ j_mapped j' = j_mapped j || bool_decide (usable_connector state o ≠ None)
  ∧ j_ok_notes j `prefix_of` j_ok_notes j'
  ∧ (usable_connector state o ≠ None → candidate state o = None → j_ok_notes j' ≠ []).
Proof.
  unfold judge_override, candidate, prefer. destruct (usable_connector state o) as [c|]; cbv zeta.
  - rewrite bool_decide_true by done. rewrite orb_true_r.
    destruct (invalid_mode o c _) as [bad|]; [|destruct (degraded_mode o c state _) as [[confidence bad]|]].
    + by destruct (j_best j).
    + by destruct (j_best j).
    + cbn. split_and!; [done|done|by eexists|]. intros _ _. by destruct (j_ok_notes j).
  - rewrite bool_decide_false by (intros Hn; by apply Hn). rewrite orb_false_r. cbn. by split_and!.
Qed.

Lemma judge_all state os j :
  let j' := fold_left (judge_override state) os j in
  j_best j' = fold_left prefer (filter_map (candidate state) os) (j_best j)
  ∧ (j_mapped j' = false ↔ j_mapped j = false ∧ ∀ o, o ∈ os → usable_connector state o = None)
  ∧ j_ok_notes j `prefix_of` j_ok_notes j'
  ∧ ((∃ o, o ∈ os ∧ usable_connector state o ≠ None) → (∀ o, o ∈ os → candidate state o = None) → j_ok_notes j' ≠ []).
Proof.
  revert j. induction os as [|o os IH]; intros j; cbn [fold_left filter_map].
  - split_and!; [done| |done|by intros (o & ?%not_elem_of_nil & _)].
    split; [intros ->; split; [done|by intros o ?%not_elem_of_nil]|by intros []].
  - destruct (judge_step state j o) as (Hb & Hm & Hn & Hok). cbv zeta in Hb, Hm, Hn, Hok.
    destruct (IH (judge_override state j o)) as (Hb' & Hm' & Hn' & Hok'). cbv zeta. split_and!.
    + rewrite Hb', Hb. by destruct (candidate state o).
    + rewrite Hm', Hm, orb_false_iff, bool_decide_eq_false. split.
      * intros [[? Hu] Hall]. split; [done|]. intros o' [->|Ho]%elem_of_cons; [|by apply Hall].
        destruct (usable_connector state o); [exfalso; by apply Hu|done].
      * intros [? Hall]. split_and!; [done| |intros o' Ho; apply Hall; by right].
        rewrite Hall by left. intros Hx; by apply Hx.
    + by etransitivity.
    + intros (o' & [->|Ho]%elem_of_cons & Hu) Hnone.
      * assert (Hne : j_ok_notes (judge_override state j o) ≠ []) by (apply Hok; [done|apply Hnone; by left]).
        destruct Hn' as [more ->]. by destruct (j_ok_notes (judge_override state j o)).
      * apply Hok'; [by exists o'|]. intros o'' Ho''. apply Hnone. by right.
Qed.

Lemma prefer_source l b : fold_left prefer l b = b ∨ ∃ x, x ∈ l ∧ fold_left prefer l b = Some x.
Proof.
  revert b. induction l as [|x l IH]; intros b; cbn [fold_left]; [by left|].
  destruct (IH (prefer b x)) as [Hb|(y & Hy & Hb)]; [|right; exists y; split; [by right|done]].
  rewrite Hb. unfold prefer. destruct b as [b|]; [|right; exists x; split; [by left|done]].
  destruct (_ && _); [right; exists x; split; [by left|done]|by left].
Qed.
Lemma prefer_some l b : is_Some b → is_Some (fold_left prefer l b).
Proof.
  revert b. induction l as [|x l IH]; intros b Hb; [done|]. apply IH. destruct Hb as [b' ->]. unfold prefer. by destruct (_ && _).
Qed.
Lemma prefer_none l : fold_left prefer l None = None → l = [].
Proof. destruct l as [|x l]; [done|]. cbn [fold_left]. intros Hn. destruct (prefer_some l (prefer None x)) as [y Hy]; [by eexists|congruence]. Qed.

(** ** The diagnosis *)

Context (decode : string → result DrmState string) (now : string).

Lemma diagnosis_ok disp verdict confidence basis evidence plain fixes falsifier host :
  f64_in f64_zero f64_one confidence = true → evidence ≠ [] →
  is_empty basis = false → is_empty plain = false → is_empty falsifier = false → (disp = Finding → fixes ≠ []) →
  ∃ d, diagnosis now disp verdict confidence basis evidence plain fixes falsifier host = Ok d
       ∧ well_formed d ∧ d_disposition d = disp ∧ d_verdict d = verdict ∧ d_evidence d = evidence ∧ d_plain_language d = plain.
Proof.
  intros Hc He Hb Hp Hf Hx. unfold diagnosis, build. cbv zeta. cbn [df_disposition df_verdict df_confidence df_confidence_basis
    df_evidence df_plain_language df_suggested_fixes df_falsifier df_supported_scope df_missing_evidence df_nearest_alternative df_host].
  match goal with |- context [validate ?d CONTRACT] => set (dg := d) end.
  assert (Hw : well_formed dg) by (split; try done; by apply is_empty_false).
  rewrite (proj2 (validate_Ok dg CONTRACT) Hw). by exists dg.
Qed.

Tactic Notation "built" simple_intropattern(pat) :=
  match goal with |- context [diagnosis now ?a ?b ?c ?d ?e ?f ?g ?h ?i] =>
    let H := fresh in
    unshelve epose proof (diagnosis_ok a b c d e f g h i _ _ _ _ _ _) as H; [..|destruct H as pat]; cycle 6 end.

Lemma parse_modes_evidence modes_cfg evidence : parse_modes_cfg modes_cfg = Ok ([], evidence) → evidence ≠ [].
Proof.
  unfold parse_modes_cfg. destruct (modes_lines 1 _) as [[entries ev] nonblank] eqn:E.
  assert (Hn : 0 ≤ nonblank).
  { clear -E. revert entries ev nonblank E. generalize 1. induction (lines modes_cfg) as [|raw ls IH]; intros n entries ev nonblank; cbn [modes_lines].
    - intros [= _ _ <-]. done.
    - destruct (modes_lines (n + 1) ls) as [[es ev'] nb] eqn:E. specialize (IH _ _ _ _ E). cbv zeta.
      repeat case_match; intros [= _ _ <-]; lia. }
  destruct entries; cbn [is_nil andb]; [|by intros [= ? _]].
  destruct (Z.ltb_spec 0 nonblank); [done|]. rewrite (proj2 (Z.eqb_eq nonblank 0)) by lia. intros [= <-]. by destruct ev.
Qed.

(** Once the overrides and the state are read there is always a well-formed
    outcome: none of the overrides names a usable display and nothing is judged,
    or a mapped override is reported which its display does not offer, or which
    is poorly chosen for it, with its line; or no mapped override is either. *)
Theorem verdict_exact modes_cfg drm_state host overrides evidence state :
  parse_modes_cfg modes_cfg = Ok (overrides, evidence) → decode drm_state = Ok state →
  match diagnose_inputs decode now modes_cfg drm_state host with
  | Err _ => False
  | Ok (NotApplicableOutcome _) => overrides ≠ [] ∧ ∀ o, o ∈ overrides → usable_connector state o = None
  | Ok (DiagnosisOutcome d) =>
      well_formed d ∧
      match d_disposition d with
      | Finding =>
          ∃ o c, o ∈ overrides ∧ usable_connector state o = Some c ∧ line_evidence o ∈ d_evidence d
            ∧ d_plain_language d = plain_bad o c
            ∧ (d_verdict d = "mode-override-invalid" ∧ not_offered o c
               ∨ d_verdict d = "mode-override-degraded" ∧ ¬ not_offered o c ∧ poorly_chosen o c state)
      | NonFinding =>
          d_verdict d = "ok" ∧ (overrides = [] ∨ ∃ o, o ∈ overrides ∧ usable_connector state o ≠ None)
          ∧ ∀ o c, o ∈ overrides → usable_connector state o = Some c → ¬ not_offered o c ∧ ¬ poorly_chosen o c state
      end
  end.
Proof.
  intros Hmodes Hstate. unfold diagnose_inputs. rewrite Hmodes, Hstate. cbn [map_err].
  destruct (is_nil overrides) eqn:Hnil.
  { apply is_nil_true in Hnil as ->. apply parse_modes_evidence in Hmodes. unfold no_override_outcome.
    built (d & Hbuilt & Hw & Hdisp & Hv & _); [|done..]. rewrite Hbuilt.
    cbn [map_ok]. split; [done|]. rewrite Hdisp. split_and!; [done|by left|]. by intros o c ?%not_elem_of_nil. }
  apply is_nil_false in Hnil. cbv zeta. set (j0 := {| j_evidence := _ |}).
  destruct (judge_all state overrides j0) as (Hb & Hm & _ & Hok). cbv zeta in Hb, Hm, Hok.
  set (j := fold_left _ _ j0) in *. clearbody j. cbn [j0 j_best j_mapped] in Hb, Hm.
  destruct (j_mapped j); cbn [negb]; [|by split; [|apply Hm]].
  assert (Hused : ∃ o, o ∈ overrides ∧ usable_connector state o ≠ None).
  { destruct (existsb (λ o, is_some_and (usable_connector state o) (λ _, true)) overrides) eqn:Hex.
    - apply existsb_exists in Hex as (o & Ho%list_elem_of_In & Hu). exists o. split; [done|]. by destruct (usable_connector state o).
    - enough (true = false) by done. apply Hm. split; [done|]. intros o Ho. destruct (usable_connector state o) eqn:Hu; [|done].
      enough (existsb (λ o, is_some_and (usable_connector state o) (λ _, true)) overrides = true) by congruence.
      apply existsb_exists. exists o. split; [by apply list_elem_of_In|by rewrite Hu]. }
  destruct (j_best j) as [best|] eqn:Ebest.
  - assert (Hsound : ∃ o, o ∈ overrides ∧ candidate state o = Some best).
    { destruct (prefer_source (filter_map (candidate state) overrides) None) as [Hp|(x & Hx & Hp)]; [congruence|].
      apply elem_of_filter_map in Hx as (o & Ho & Hx). exists o. split; congruence. }
    destruct Hsound as (o & Ho & Hcand). apply candidate_sound in Hcand as [He [Hu Hl Hc Hv]]. unfold finding_outcome.
    built (d & Hbuilt & Hw & Hdisp & Hverdict & Hev & Hplain); [rewrite Hbuilt|done| |by case_match|done..].
    + cbn [map_ok]. split; [done|]. rewrite Hdisp, Hverdict, Hev, Hplain. exists (cd_override best), (cd_connector best).
      rewrite He in *. split_and!; try done. apply elem_of_app. by right.
    + intros Hnone. apply app_nil in Hnone as [_ Hnone]. rewrite Hnone in Hl. by apply elem_of_nil in Hl.
  - symmetry in Hb. apply prefer_none in Hb.
    assert (Hnone : ∀ o, o ∈ overrides → candidate state o = None).
    { intros o Ho. destruct (candidate state o) as [x|] eqn:Hx; [|done].
      assert (Hin : x ∈ filter_map (candidate state) overrides) by (apply elem_of_filter_map; by exists o).
      rewrite Hb in Hin. by apply elem_of_nil in Hin. }
    unfold ok_outcome. built (d & Hbuilt & Hw & Hdisp & Hverdict & _); [rewrite Hbuilt|done| |done..].
    + cbn [map_ok]. split; [done|]. rewrite Hdisp. split_and!; [done|by right|].
      intros o c Ho Hc. apply candidate_None; [done|by apply Hnone].
    + intros Hn. apply app_nil in Hn as [_ Hn]. by apply (Hok Hused Hnone).
Qed.
End judgement.

(** ** The live collection *)

Lemma find_unique {A : Type} (f : A → string) (l : list A) (x : A) :
  NoDup (f <$> l) → x ∈ l → List.find (λ y, String.eqb (f y) (f x)) l = Some x.
Proof.
  induction l as [|y l IH]; [by intros _ ?%not_elem_of_nil|]. rewrite fmap_cons. intros [Hy Hl]%NoDup_cons [->|Hx]%elem_of_cons; cbn [List.find].
  - by rewrite String.eqb_refl.
  - destruct (String.eqb_spec (f y) (f x)) as [Hf|]; [|by apply IH]. exfalso. apply Hy. rewrite Hf. by apply list_elem_of_fmap_2.
Qed.
Lemma filter_absent {A : Type} (f : A → string) (p : A → bool) (l : list A) (k : string) :
  k ∉ f <$> l → List.filter (λ y, String.eqb (f y) k && p y) l = [].
Proof.
  induction l as [|y l IH]; [done|]. rewrite fmap_cons, not_elem_of_cons. intros [Hy Hl]. cbn [List.filter].
  destruct (String.eqb_spec (f y) k) as [Hf|]; [by rewrite Hf in Hy|by apply IH].
Qed.
Lemma count_unique {A : Type} (f : A → string) (p : A → bool) (l : list A) (x : A) :
  NoDup (f <$> l) → x ∈ l → p x = true → count (λ y, String.eqb (f y) (f x) && p y) l = 1%nat.
Proof.
  unfold count. induction l as [|y l IH]; [by intros _ ?%not_elem_of_nil|]. rewrite fmap_cons.
  intros [Hy Hl]%NoDup_cons Hx Hp. cbn [List.filter]. apply elem_of_cons in Hx as [->|Hx].
  - rewrite String.eqb_refl, Hp, filter_absent by done. done.
  - destruct (String.eqb_spec (f y) (f x)) as [Hf|]; [|by apply IH]. exfalso. apply Hy. rewrite Hf. by apply list_elem_of_fmap_2.
Qed.

Section live.
Context `{FloatText}.
Context (decode : string → result DrmState string) (encode : DrmState → result string string) (now : string).
(** [serde_json] reads back the connectors, the names and the notes it wrote;
    the rates may come back rounded. *)
Context (Hcodec : ∀ s text, encode s = Ok text →
  ∃ rates, decode text = Ok {| connectors := connectors s; collection_notes := collection_notes s;
    gamescope_control := {| connector_name := connector_name (gamescope_control s); display_make := display_make (gamescope_control s);
                            display_model := display_model (gamescope_control s); valid_refresh_rates := rates |} |}).

(** The key under which Gamescope files the modes of the display. *)
Definition display_key (control : GamescopeControl) : string := trim (display_make control +:+ " " +:+ display_model control).

Lemma usable_display state o c :
  NoDup (connector_short_name <$> connectors state) → c ∈ connectors state →
  connector_short_name c = connector_name (gamescope_control state) → is_connected_external c = true →
  usable_connector state o = if String.eqb (display_key (gamescope_control state)) (key o) then Some c else None.
Proof.
  intros Hnd Hc Hname Hext. unfold usable_connector, find_gamescope_connector. fold (display_key (gamescope_control state)).
  destruct (String.eqb _ (key o)); [|done]. rewrite <-Hname, (find_unique connector_short_name _ c) by done. by rewrite Hext.
Qed.

Lemma like_internal_same o state state' : connectors state = connectors state' → like_internal_panel o state ↔ like_internal_panel o state'.
Proof. unfold like_internal_panel. by intros ->. Qed.

(** C14: When no two connectors share their name behind the card, the live
    diagnosis judges exactly the pins of the connected display that
    [gamescopectl] names, against that display: it reports a finding if and only
    if one of them is not offered or poorly chosen. *)
Theorem live_judges_display files home read_dir entries control cs notes c modes more overrides evidence o host text :
  read_dir = Ok entries → read_connectors control entries = Ok (cs, notes) → NoDup (connector_short_name <$> cs) →
  c ∈ cs → connector_short_name c = connector_name control → is_connected_external c = true →
  live_modes files home = (modes, more) → parse_modes_cfg modes = Ok (overrides, evidence) →
  o ∈ overrides → key o = display_key control →
  let state := {| connectors := cs; gamescope_control := control; collection_notes := notes ++ more |} in
  encode state = Ok text →
  ∃ d, collect decode now encode files home read_dir control host = Ok (DiagnosisOutcome d) ∧ well_formed d
    ∧ (d_disposition d = Finding ↔ ∃ o, o ∈ overrides ∧ key o = display_key control ∧ (not_offered o c ∨ poorly_chosen o c state)).
Proof.
  intros Hdir Hcs Hnd Hc Hname Hext Hlive Hmodes Ho Hkey state Htext. destruct (Hcodec _ _ Htext) as [rates Hdec].
  cbn [state connectors gamescope_control collection_notes] in Hdec.
  unfold collect. rewrite Hdir. cbn [map_err]. rewrite Hcs.
  assert (Hone : matching control cs = 1%nat) by (unfold matching; rewrite <-Hname; by apply count_unique).
  rewrite Hone. cbn [Nat.eqb Nat.ltb Nat.leb]. rewrite Hlive. fold state. rewrite Htext.
  set (read := {| connectors := cs |}) in Hdec.
  assert (Husable : ∀ o, usable_connector read o = if String.eqb (display_key control) (key o) then Some c else None)
    by (intros o'; by apply (usable_display read o' c)).
  pose proof (verdict_exact decode now modes text host overrides evidence read Hmodes Hdec) as Hv.
  assert (Hpoor : ∀ o, poorly_chosen o c read ↔ poorly_chosen o c state) by done.
  destruct (diagnose_inputs _ _ _ _ _) as [[d|n]|]; [|exfalso|done].
  - exists d. destruct Hv as [Hw Hd]. split_and!; [done|done|]. destruct (d_disposition d).
    + split; [done|]. intros (o' & Ho' & Hk & Hbad). destruct Hd as (_ & _ & Hd).
      destruct (Hd o' c) as [H1 H2]; [done|by rewrite Husable, Hk, String.eqb_refl|]. by destruct Hbad as [|?%Hpoor].
    + split; [|done]. intros _. destruct Hd as (o' & c' & Ho' & Hu & _ & _ & Hbad). rewrite Husable in Hu.
      destruct (String.eqb_spec (display_key control) (key o')) as [Hk|]; [|done]. injection Hu as <-.
      exists o'. split_and!; [done|done|]. destruct Hbad as [[_ ?]|(_ & _ & ?%Hpoor)]; [by left|by right].
  - destruct Hv as [_ Hv]. specialize (Hv o Ho). by rewrite Husable, Hkey, String.eqb_refl in Hv.
Qed.
End live.

(** ** The child process *)

Definition heard_text (h : Heard) (p : Pipe) : option string := match p with Stdout => h_stdout h | Stderr => h_stderr h end.
#[local] Instance Pipe_eq_dec : EqDecision Pipe.
Proof. solve_decision. Defined.

Lemma take_bytes_all n s : (String.length s ≤ n)%nat → take_bytes n s = s.
Proof. revert n. induction s as [|a s IH]; intros [|n] Hlen; cbn [take_bytes String.length] in *; [done..|lia|]. f_equal. apply IH. lia. Qed.

Section child.
Context (pipe : Pipe → result string string).

(** The readers heard so far, each with its message. *)
Definition has_heard (ps : list Pipe) (h : Heard) : Prop :=
  h_received h = Z.of_nat (length ps) ∧ ∀ p, p ∈ ps → ∃ text, reader_message p (pipe p) = Ok text ∧ heard_text h p = Some text.

Lemma hear_one ps h p h' : has_heard ps h → hear pipe h p = Ok h' → has_heard (ps ++ [p]) h'.
Proof.
  unfold hear. intros [Hn Hall]. destruct (reader_message p (pipe p)) as [text|] eqn:Hm; [|done]. intros [= <-]. split.
  - rewrite length_app. destruct p; cbn; lia.
  - intros q [Hq| ->%list_elem_of_singleton]%elem_of_app; [|exists text; by destruct p].
    destruct (decide (q = p)) as [->|Hne]; [exists text; by destruct p|].
    destruct (Hall q Hq) as (t & Ht & Hh). exists t. by destruct p, q.
Qed.
Lemma hear_all_heard ps h qs h' : has_heard ps h → hear_all pipe h qs = Ok h' → has_heard (ps ++ qs) h'.
Proof.
  revert ps h. induction qs as [|q qs IH]; intros ps h Hh; cbn [hear_all]; [intros [= <-]; by rewrite app_nil_r|].
  destruct (hear pipe h q) as [h1|] eqn:E; [|done]. intros Hr. rewrite cons_middle, app_assoc. eapply IH; [by eapply hear_one|done].
Qed.
Lemma hear_rest_heard ps h qs h' :
  has_heard ps h → hear_rest pipe h qs = Ok h' → ∃ n, has_heard (ps ++ take n qs) h' ∧ 2 ≤ h_received h'.
Proof.
  revert ps h. induction qs as [|q qs IH]; intros ps h Hh; cbn [hear_rest]; destruct (Z.leb_spec 2 (h_received h)); try done.
  - intros [= <-]. exists 0%nat. by rewrite app_nil_r.
  - intros [= <-]. exists 0%nat. by rewrite app_nil_r.
  - destruct (hear pipe h q) as [h1|] eqn:E; [|done]. intros Hr.
    destruct (IH (ps ++ [q]) h1) as (n & Hn & H2); [by eapply hear_one|done|].
    exists (S n). cbn [take]. by rewrite cons_middle, app_assoc.
Qed.

Lemma reader_message_whole p text : reader_message p (pipe p) = Ok text → pipe p = Ok text ∧ slen text ≤ OUTPUT_LIMIT.
Proof.
  unfold reader_message. generalize OUTPUT_LIMIT. intros limit. destruct (pipe p) as [bytes|]; [|done]. cbn [map_err]. cbv zeta.
  destruct (Z.leb_spec (slen (take_bytes (Z.to_nat (limit + 1)) bytes)) limit) as [Hle|]; [|done]. intros [= <-].
  enough (take_bytes (Z.to_nat (limit + 1)) bytes = bytes) as Heq by (by rewrite Heq in *).
  apply take_bytes_all. unfold slen in Hle. rewrite length_take_bytes in Hle. lia.
Qed.

(** Both readers have been heard when two messages of different readers have. *)
Lemma heard_both ps h p : NoDup ps → has_heard ps h → 2 ≤ h_received h → p ∈ ps.
Proof.
  intros Hnd [Hn _] H2. destruct ps as [|a [|b ps]]; cbn [length] in Hn; [lia|lia|].
  assert (Hab : a ≠ b) by (intros ->; apply NoDup_cons in Hnd as [Hx _]; apply Hx; by left).
  destruct p, a, b; try done; by (left || (right; left)).
Qed.

Definition arrived (rounds : nat → Round) (k : nat) : list Pipe := mjoin ((λ i, rd_arrived (rounds i)) <$> seq 0 k).

Lemma arrived_S rounds k : arrived rounds (S k) = arrived rounds k ++ rd_arrived (rounds k).
Proof. unfold arrived. rewrite seq_S, fmap_app. rewrite join_app. cbn. by rewrite app_nil_r. Qed.

Lemma supervise_spec rounds fuel k h ended :
  (∀ i, NoDup (arrived rounds (S i) ++ rd_late (rounds i))) → has_heard (arrived rounds k) h →
  supervise pipe rounds fuel k h = Some ended →
  match en_result ended with
  | Ok output => en_reaped ended = true ∧ pipe Stdout = Ok (out_stdout output) ∧ pipe Stderr = Ok (out_stderr output)
                 ∧ slen (out_stdout output) ≤ OUTPUT_LIMIT ∧ slen (out_stderr output) ≤ OUTPUT_LIMIT
  | Err NotFound => False
  | Err (Failed _) => en_reaped ended = false → ∃ i error, rd_exited (rounds i) = Err error
  end.
Proof.
  intros Honce. revert k h. induction fuel as [|fuel IH]; intros k h Hh; [done|]. cbn [supervise]. cbv zeta.
  destruct (hear_all pipe h _) as [h1|error] eqn:E1; [|by intros [= <-]].
  apply (hear_all_heard (arrived rounds k)) in E1; [|done]. rewrite <-arrived_S in E1.
  destruct (rd_exited (rounds k)) as [[status|]|error] eqn:E2.
  - destruct (hear_rest pipe h1 _) as [h2|error] eqn:E3; [|by intros [= <-]]. intros [= <-]. cbn [en_result en_reaped].
    destruct (hear_rest_heard _ _ _ _ E1 E3) as (n & [Hn Hall] & H2).
    assert (Hnd : NoDup (arrived rounds (S k) ++ take n (rd_late (rounds k)))).
    { eapply sublist_NoDup; [by apply (Honce k)|]. apply sublist_app; [done|]. rewrite <-(take_drop n (rd_late (rounds k))) at 2.
      by apply sublist_inserts_r. }
    destruct (Hall Stdout) as (out & Ho & Hho); [by eapply heard_both|]. destruct (Hall Stderr) as (err & He & Hhe); [by eapply heard_both|].
    cbn [heard_text] in Hho, Hhe. rewrite Hho, Hhe. cbn [unwrap_or out_stdout out_stderr].
    apply reader_message_whole in Ho as [-> ?], He as [-> ?]. done.
  - destruct (TIMEOUT <=? _); [by intros [= <-]|]. by apply IH.
  - intros [= <-]. cbn. intros _. by exists k, error.
Qed.

Lemma supervise_ends rounds fuel k h :
  (∀ i, ROUND_PAUSE * Z.of_nat i ≤ rd_elapsed (rounds i)) → TIMEOUT ≤ ROUND_PAUSE * Z.of_nat (k + fuel) →
  is_Some (supervise pipe rounds (S fuel) k h).
Proof.
  intros Hpace. revert k h. induction fuel as [|fuel IH]; intros k h Hf; cbn [supervise]; cbv zeta.
  all: destruct (hear_all pipe h _) as [h1|]; [|by eexists]; destruct (rd_exited (rounds k)) as [[]|]; [by eexists| |by eexists].
  - rewrite (proj2 (Z.leb_le TIMEOUT _)); [by eexists|]. specialize (Hpace k). rewrite Nat.add_0_r in Hf. lia.
  - destruct (TIMEOUT <=? _); [by eexists|]. apply IH. by rewrite Nat.add_succ_comm.
Qed.
End child.


(** ** Examples *)

#[local] Instance plain_floats : FloatText := {| show_f64 _ := "f"; debug_f64 _ := "f"; show_f64_3 _ := "f" |}.

Definition tv (name : string) : Connector :=
  {| c_name := name; c_status := "connected"; edid_bytes := 256; modes := ["3840x2160"; "1920x1080"; "1280x800"];
     active_mode := None; enabled := None; dpms := None |}.
Definition panel : Connector :=
  {| c_name := "card0-eDP-1"; c_status := "connected"; edid_bytes := 128; modes := ["800x1280"];
     active_mode := None; enabled := None; dpms := None |}.
Definition tv_control : GamescopeControl :=
  {| connector_name := "HDMI-A-1"; display_make := "ACM"; display_model := "TV 9"; valid_refresh_rates := [f64_of_Z 60] |}.
Definition state_of (cs : list Connector) : DrmState := {| connectors := cs; gamescope_control := tv_control; collection_notes := [] |}.
Definition summary_of (r : result Outcome string) : option (string * Disposition) :=
  match r with
  | Ok (DiagnosisOutcome d) => Some (d_verdict d, d_disposition d)
  | Ok (NotApplicableOutcome n) => Some (na_verdict n, na_disposition n)
  | Err _ => None
  end.
Definition diagnosed (modes_cfg : string) (cs : list Connector) : option (string * Disposition) :=
  summary_of (diagnose_inputs (λ _, Ok (state_of cs)) "now" modes_cfg EmptyString None).

Example verdicts :
  diagnosed "ACM TV 9:1280x800@60" [panel; tv "card0-HDMI-A-1"] = Some ("mode-override-degraded", Finding)
  ∧ diagnosed "ACM TV 9:1024x768@60" [panel; tv "card0-HDMI-A-1"] = Some ("mode-override-invalid", Finding)
  ∧ diagnosed "ACM TV 9:1920x1080@60" [panel; tv "card0-HDMI-A-1"] = Some ("ok", NonFinding)
  ∧ diagnosed "Other:1280x800@60" [panel; tv "card0-HDMI-A-1"] = Some ("not-applicable", NonFinding)
  ∧ diagnosed EmptyString [panel; tv "card0-HDMI-A-1"] = Some ("ok", NonFinding).
Proof. by vm_compute. Qed.

(** The branches do not compete by confidence alone: a mode that the display
    does not offer is not reported behind a degraded one, though its confidence
    is higher. *)
Lemma later_invalid_hidden :
  diagnosed ("ACM TV 9:1280x800@60" +:+ str1 nl +:+ "ACM TV 9:1024x768@60") [tv "card0-HDMI-A-1"] = Some ("mode-override-degraded", Finding)
  ∧ diagnosed ("ACM TV 9:1024x768@60" +:+ str1 nl +:+ "ACM TV 9:1280x800@60") [tv "card0-HDMI-A-1"] = Some ("mode-override-invalid", Finding).
Proof. by vm_compute. Qed.

(** Two cards with a connector of the same name, of which only the second is
    connected: the first one is found, and the display counts as absent. *)
Definition unplugged (name : string) : Connector :=
  {| c_name := name; c_status := "disconnected"; edid_bytes := 0; modes := []; active_mode := None; enabled := None; dpms := None |}.
Lemma same_name_on_two_cards :
  diagnosed "ACM TV 9:1024x768@60" [unplugged "card0-HDMI-A-1"; tv "card1-HDMI-A-1"] = Some ("not-applicable", NonFinding)
  ∧ matching tv_control [unplugged "card0-HDMI-A-1"; tv "card1-HDMI-A-1"] = 1%nat.
Proof. by vm_compute. Qed.

Definition demo_modes : string := "ACM TV 9:1280x800@60".
Definition demo_override : ModeOverride :=
  {| line_number := 1; raw_line := demo_modes; key := "ACM TV 9"; width := 1280; height := 800; hz := f64_of_Z 60 |}.

Lemma verdict_exact_witness :
  match diagnose_inputs (λ _, Ok (state_of [panel; tv "card0-HDMI-A-1"])) "now" demo_modes EmptyString None with
  | Ok (DiagnosisOutcome d) => well_formed d
  | _ => False
  end.
Proof.
  pose proof (verdict_exact (λ _, Ok (state_of [panel; tv "card0-HDMI-A-1"])) "now" demo_modes EmptyString None [demo_override] []
    (state_of [panel; tv "card0-HDMI-A-1"]) ltac:(vm_compute; reflexivity) eq_refl) as Hv.
  destruct (diagnose_inputs _ _ _ _ _) as [[d|n]|]; [exact (proj1 Hv)| |exact Hv].
  exfalso. destruct Hv as [_ Hv]. specialize (Hv demo_override (list_elem_of_here _ _)). revert Hv. vm_compute. discriminate.
Defined.

(** A directory with the panel and the television. *)
Definition text_file (content : string) : FileView :=
  {| fv_before := Ok true; fv_open := Ok tt; fv_after := Ok true; fv_content := Ok content |}.
Definition no_file : FileView := {| fv_before := Err "absent"; fv_open := Ok tt; fv_after := Ok true; fv_content := Ok EmptyString |}.
Definition demo_entry (name modes : string) : DrmEntry :=
  {| de_name := name; de_is_dir := true;
     de_file attribute := if String.eqb attribute "status" then text_file "connected"
                          else if String.eqb attribute "edid" then text_file "EDID"
                          else if String.eqb attribute "modes" then text_file modes else no_file |}.
Definition demo_dir : list (result DrmEntry string) :=
  [Ok (demo_entry "card0-eDP-1" "800x1280"); Ok (demo_entry "card0-HDMI-A-1" "1920x1080"); Ok (demo_entry "version" EmptyString)].
Definition demo_files (path : string) : FileView :=
  if String.eqb path "/home/deck/.config/gamescope/modes.cfg" then text_file demo_modes else no_file.
Definition demo_connector (name mode : string) : Connector :=
  {| c_name := name; c_status := "connected"; edid_bytes := 4; modes := [mode]; active_mode := None; enabled := None; dpms := None |}.
Definition demo_notes (name : string) : list string :=
  [name +:+ ": enabled metadata unavailable: absent"; name +:+ ": dpms metadata unavailable: absent"].
Definition demo_state : DrmState :=
  {| connectors := [demo_connector "card0-eDP-1" "800x1280"; demo_connector "card0-HDMI-A-1" "1920x1080"];
     gamescope_control := tv_control; collection_notes := demo_notes "card0-eDP-1" ++ demo_notes "card0-HDMI-A-1" |}.

(** A codec for that state. *)
#[local] Instance spec_float_eq_dec : EqDecision spec_float.
Proof. solve_decision. Defined.
#[local] Instance Connector_eq_dec : EqDecision Connector.
Proof. solve_decision. Defined.
#[local] Instance GamescopeControl_eq_dec : EqDecision GamescopeControl.
Proof. solve_decision. Defined.
#[local] Instance DrmState_eq_dec : EqDecision DrmState.
Proof. solve_decision. Defined.
Definition demo_encode (s : DrmState) : result string string := if decide (s = demo_state) then Ok "state" else Err "unsupported".
Definition demo_decode (text : string) : result DrmState string := Ok demo_state.

Lemma demo_state_codec s text : demo_encode s = Ok text →
  ∃ rates, demo_decode text = Ok {| connectors := connectors s; collection_notes := collection_notes s;
    gamescope_control := {| connector_name := connector_name (gamescope_control s); display_make := display_make (gamescope_control s);
                            display_model := display_model (gamescope_control s); valid_refresh_rates := rates |} |}.
Proof. unfold demo_encode. destruct (decide (s = demo_state)) as [->|]; [|done]. intros _. by exists [f64_of_Z 60]. Qed.

(** The pin is the panel's resolution and is not among the television's modes. *)
Lemma live_judges_display_witness :
  ∃ d, collect demo_decode "now" demo_encode demo_files (Some "/home/deck") (Ok demo_dir) tv_control None = Ok (DiagnosisOutcome d)
    ∧ d_disposition d = Finding.
Proof.
  destruct (live_judges_display demo_decode demo_encode "now" demo_state_codec demo_files (Some "/home/deck") (Ok demo_dir) demo_dir tv_control
    (connectors demo_state) (collection_notes demo_state) (demo_connector "card0-HDMI-A-1" "1920x1080") demo_modes [] [demo_override] []
    demo_override None "state") as (d & Hd & _ & Hiff); try (vm_compute; reflexivity).
  - vm_compute. repeat constructor; rewrite ?elem_of_cons, elem_of_nil; intuition discriminate.
  - right. left.
  - left.
  - exists d. split; [exact Hd|]. apply Hiff. exists demo_override. split; [left|]. split; [vm_compute; reflexivity|]. left. left.
    intros (mode & Hmode & Hr). apply list_elem_of_singleton in Hmode. subst mode. vm_compute in Hr. discriminate Hr.
Defined.

(** Both messages in the second round, and the exit with them. *)
Definition demo_pipe (p : Pipe) : result string string := Ok (pipe_name p).
Definition demo_rounds (i : nat) : Round :=
  {| rd_arrived := if (i =? 1)%nat then [Stderr; Stdout] else [];
     rd_exited := Ok (if (i =? 1)%nat then Some {| st_success := true; st_text := "exit status: 0" |} else None);
     rd_elapsed := 20 * Z.of_nat i; rd_late := [] |}.

Lemma demo_rounds_arrived i : NoDup (arrived demo_rounds (S i) ++ rd_late (demo_rounds i)).
Proof.
  rewrite app_nil_r. assert (Harr : ∀ k, arrived demo_rounds (S (S k)) = [Stderr; Stdout]).
  { induction k as [|k IH]; [done|]. by rewrite arrived_S, IH. }
  destruct i as [|i]; [constructor|]. rewrite Harr. repeat constructor; rewrite ?elem_of_cons, elem_of_nil; intuition discriminate.
Qed.

