(* ===== verification/LogSafe.v ===== *)
(** * Text for the log ([src/log_safe.rs], [src/main.rs])

    Escaping what would break or disguise a log line, cutting at a character
    boundary, and what of an error may be logged. *)
From Stdlib Require Import Ascii.
From S2P Require Import Prelude Sha256.

(** ** Escaping *)

(** The scalar value of a character. *)
Definition code_point (ch : string) : Z :=
  match ch with
  | String a EmptyString => byte_val a
  | String a (String b EmptyString) => (byte_val a - 192) * 64 + (byte_val b - 128)
  | String a (String b (String c EmptyString)) => (byte_val a - 224) * 4096 + (byte_val b - 128) * 64 + (byte_val c - 128)
  | String a (String b (String c (String d EmptyString))) =>
      (byte_val a - 240) * 262144 + (byte_val b - 128) * 4096 + (byte_val c - 128) * 64 + (byte_val d - 128)
  | _ => 0
  end.
Definition in_range (lo hi x : Z) : bool := (lo <=? x) && (x <=? hi).
Definition needs_escape (ch : string) : bool :=
  let c := code_point ch in
  (c =? 92) || in_range 0 31 c || in_range 127 159 c || (c =? 8206) || (c =? 8207) || in_range 8234 8238 c
  || (c =? 8232) || (c =? 8233) || in_range 8294 8297 c.

(** [{:x}], of at most six digits. *)
Fixpoint strip_zeros (s : string) : string :=
  match s with
  | String "0" ((String _ _) as rest) => strip_zeros rest
  | _ => s
  end.
Definition lower_hex (x : Z) : string := strip_zeros (hex_of 6 x).

Definition escape_char (ch : string) : string :=
  if String.eqb ch "\" then "\\"
  else if String.eqb ch (str1 nl) then "\n"
  else if String.eqb ch (str1 "013") then "\r"
  else if String.eqb ch (str1 "009") then "\t"
  else if needs_escape ch then "\u{" +:+ lower_hex (code_point ch) +:+ "}"
  else ch.
Definition escape_for_log (s : string) : string :=
  if existsb needs_escape (chars s) then concat_str (escape_char <$> chars s) else s.

(** [floor_char_boundary]. *)
Fixpoint floor_char_boundary (s : string) (i : nat) : nat :=
  match i with
  | O => O
  | S j => match String.get i s with
           | Some c => if is_continuation c then floor_char_boundary s j else i
           | None => i
           end
  end.
Definition truncate_chars (s : string) (max_bytes : nat) : string :=
  take_bytes (floor_char_boundary s (Nat.min max_bytes (String.length s))) s.

(** ** Errors *)

(** A cause: its message, and the text of the operating system's error when it
    is one. *)
Record Cause := { ca_message : string; ca_os_error : option string }.
Fixpoint first_os_error (depth : nat) (chain : list Cause) : option (nat * string) :=
  match chain with
  | [] => None
  | c :: rest => match ca_os_error c with Some text => Some (depth, text) | None => first_os_error (S depth) rest end
  end.
(** [error_for_log] of the chain of causes, the error itself first. *)
Definition error_for_log (chain : list Cause) : string :=
  let outer := escape_for_log (match chain with c :: _ => ca_message c | [] => EmptyString end) in
  match first_os_error 0 chain with
  | Some (O, _) => outer
  | Some (S _, io_err) => outer +:+ ": " +:+ io_err
  | None => outer
  end.

Example escapes :
  escape_for_log ("a" +:+ str1 nl +:+ "\b") = "a\n\\b"
  ∧ escape_for_log (str1 "226" +:+ str1 "128" +:+ str1 "142") = "\u{200e}"
  ∧ escape_for_log (str1 "000" +:+ str1 "031") = "\u{0}\u{1f}"
  ∧ escape_for_log "plain" = "plain".
Proof. by vm_compute. Qed.

(** ** One line, in reading order *)

(** The bytes that an escape consists of. *)
Definition escape_byte (a : ascii) : bool := is_ascii a && (Ascii.eqb a "\" || negb (needs_escape (str1 a))).

Lemma hex_digit_plain n : escape_byte (hex_digit (n mod 16)) = true.
Proof.
  assert (Hn : 0 ≤ n mod 16 < 16) by (apply Z.mod_pos_bound; lia). revert Hn. generalize (n mod 16). intros d Hd.
  assert (Hall : forallb (λ d, escape_byte (hex_digit (Z.of_nat d))) (seq 0 16) = true) by by vm_compute.
  rewrite forallb_forall in Hall. rewrite <-(Z2Nat.id d) by lia. apply Hall. apply list_elem_of_In, elem_of_seq. lia.
Qed.
Lemma strip_zeros_all p s : all_bytes p s = true → all_bytes p (strip_zeros s) = true.
Proof.
  induction s as [|c s IH]; [done|]. intros Hs. cbn [all_bytes] in Hs. apply andb_true_iff in Hs as [Hc Hs].
  assert (Hcs : all_bytes p (String c s) = true) by (cbn [all_bytes]; by rewrite Hc).
  destruct c as [[] [] [] [] [] [] [] []]; try exact Hcs. destruct s as [|d s]; [exact Hcs|]. by apply IH.
Qed.
Lemma lower_hex_plain x : all_bytes escape_byte (lower_hex x) = true.
Proof.
  unfold lower_hex. apply strip_zeros_all. unfold hex_of. induction (rev (seq 0 6)) as [|k l IH]; [done|].
  rewrite fmap_cons. cbn [String.string_of_list_ascii all_bytes]. by rewrite hex_digit_plain, IH.
Qed.

Lemma escape_char_plain ch : needs_escape ch = true → all_bytes escape_byte (escape_char ch) = true.
Proof.
  intros Hn. unfold escape_char. repeat (destruct (String.eqb ch _); [by vm_compute|]). rewrite Hn.
  change ("\u{" +:+ lower_hex (code_point ch) +:+ "}") with (String "\" (String "u" (String "{" (lower_hex (code_point ch) +:+ "}")))).
  cbn [all_bytes]. rewrite all_bytes_app, lower_hex_plain. by vm_compute.
Qed.
Lemma escape_char_same ch : needs_escape ch = false → escape_char ch = ch.
Proof.
  intros Hn. unfold escape_char. rewrite Hn.
  repeat match goal with |- context [String.eqb ch ?x] => destruct (String.eqb_spec ch x) as [->|]; [by vm_compute in Hn|] end. done.
Qed.

Lemma chars_of_group ch : char_group ch → chars ch = [ch].
Proof.
  intros Hg. rewrite <-(str_app_nil_r ch) at 1. change (ch +:+ EmptyString) with (concat_str [ch]).
  apply chars_concat. split; [by constructor|constructor].
Qed.
Lemma chars_escape_byte s : all_bytes escape_byte s = true →
  Forall (λ ch, char_start ch ∧ (needs_escape ch = true → ch = "\")) (chars s).
Proof.
  intros Hs. rewrite chars_ascii.
  - induction s as [|a s IH]; [constructor|]. cbn [all_bytes] in Hs. apply andb_true_iff in Hs as [Ha Hs].
    cbn [String.list_ascii_of_string]. rewrite fmap_cons. constructor; [|by apply IH].
    unfold escape_byte in Ha. apply andb_true_iff in Ha as [Hascii Ha]. split.
    + simpl. unfold is_continuation. unfold is_ascii in Hascii. apply Z.ltb_lt in Hascii. apply andb_false_iff. left. apply Z.leb_gt. lia.
    + intros Hn. rewrite Hn in Ha. cbn [negb] in Ha. rewrite orb_false_r in Ha. by apply Ascii.eqb_eq in Ha as ->.
  - induction s as [|a s IH]; [done|]. cbn [all_bytes] in *. apply andb_true_iff in Hs as [Ha Hs].
    unfold escape_byte in Ha. apply andb_true_iff in Ha as [-> _]. by apply IH.
Qed.

(** The characters of what an escaped character becomes. *)
Lemma chars_escape_char ch : char_group ch →
  Forall (λ x, needs_escape x = true → x = "\") (chars (escape_char ch))
  ∧ (char_start ch → Forall char_start (chars (escape_char ch))).
Proof.
  intros Hg. destruct (needs_escape ch) eqn:Hn.
  - apply escape_char_plain, chars_escape_byte in Hn. split; [|intros _]; by eapply Forall_impl; [exact Hn|intros x []].
  - rewrite escape_char_same, chars_of_group by done. split; [|by constructor]. constructor; [congruence|constructor].
Qed.

Lemma chars_escape_all cs : well_grouped cs →
  chars (concat_str (escape_char <$> cs)) = mjoin ((λ ch, chars (escape_char ch)) <$> cs).
Proof.
  intros [Hg Hs].
  assert (Heq : concat_str (escape_char <$> cs) = concat_str (mjoin ((λ ch, chars (escape_char ch)) <$> cs))).
  { clear. induction cs as [|c cs IH]; [done|]. rewrite !fmap_cons. cbn [concat_str mjoin list_join].
    by rewrite concat_str_app, concat_chars, IH. }
  rewrite Heq. apply chars_concat.
  assert (Hstarts : ∀ l, Forall char_group l → Forall char_start l → Forall char_start (mjoin ((λ ch, chars (escape_char ch)) <$> l))).
  { intros l Hgl Hsl. induction l as [|c l IH]; [constructor|]. rewrite fmap_cons. cbn [mjoin list_join].
    apply Forall_cons in Hgl as [Hc Hgl], Hsl as [Hcs Hsl]. apply Forall_app. split; [by apply chars_escape_char|by apply IH]. }
  split.
  - clear Hs Heq Hstarts. induction cs as [|c cs IH]; [constructor|]. rewrite fmap_cons. cbn [mjoin list_join].
    apply Forall_cons in Hg as [_ Hg]. apply Forall_app. split; [apply well_grouped_chars|by apply IH].
  - destruct cs as [|c cs]; [constructor|]. rewrite fmap_cons. cbn [mjoin list_join tail] in *.
    apply Forall_cons in Hg as [_ Hg]. destruct (well_grouped_chars (escape_char c)) as [_ Ht].
    destruct (chars (escape_char c)) as [|x l]; cbn [app tail] in *.
    + specialize (Hstarts cs Hg Hs). revert Hstarts.
      unfold mjoin. destruct (list_join _) as [|x l]; [done|]. by intros [_ ?]%Forall_cons.
    + apply Forall_app. split; [done|by apply Hstarts].
Qed.

(** What is escaped for the log stays on its line and reads in its order:
    none of its characters is a control, a line or paragraph separator or a
    direction mark, and a backslash is only ever the start of an escape. *)
Theorem log_line_safe s ch : ch ∈ chars (escape_for_log s) → needs_escape ch = true → ch = "\".
Proof.
  unfold escape_for_log. destruct (existsb needs_escape (chars s)) eqn:E.
  - pose proof (well_grouped_chars s) as Hw. rewrite chars_escape_all by done. rewrite list_elem_of_join.
    intros (l & Hl & (c & -> & Hc)%list_elem_of_fmap). destruct Hw as [Hg _]. rewrite Forall_forall in Hg.
    destruct (chars_escape_char c (Hg c Hc)) as [Hall _]. rewrite Forall_forall in Hall. by apply Hall.
  - intros Hch Hn. exfalso. enough (existsb needs_escape (chars s) = true) by congruence.
    apply existsb_exists. exists ch. split; [by apply list_elem_of_In|done].
Qed.
