(* ===== verification/Profiles.v ===== *)
(** * Game profiles ([src/profiles.rs])

    The directories that are searched, the profile that fits a game, and the
    settings overlay it gives.  The file system and the environment are those
    of [GameScan.Machine]; [toml] is an argument. *)
From Stdlib Require Import Ascii.
From S2P Require Import Prelude Float64 EsModel Json FileSystem GameScan.

(** ** Data *)

Record GameMeta := { gm_name : string; gm_steam_app_id : option Z; gm_aliases : list string }.
Record ProfileSettings := {
  ps_preset : option string;
  ps_upscaler_tech : option string;
  ps_upscaler_preset : option string;
  ps_frame_gen_tech : option string;
  ps_features_active : option (list string);
  ps_render_resolution_output : option string;
  ps_render_vsync : option string;
  ps_notes : option string;
}.
Record GameProfile := { gp_game : GameMeta; gp_settings : ProfileSettings }.

(** ** Overlay *)

(** The members before the two that tell where they come from. *)
Definition profile_settings (s : ProfileSettings) : list (string * json) :=
  when_some "preset" JString (ps_preset s)
  ++ match ps_upscaler_tech s with
     | Some tech => [("upscaler", object (("tech", JString tech) :: when_some "preset" JString (ps_upscaler_preset s)))]
     | None => []
     end
  ++ when_some "frame_gen" (λ fg, object [("tech", JString fg)]) (ps_frame_gen_tech s)
  ++ match ps_features_active s with
     | Some ((_ :: _) as features) => [("features_active", JArray (JString <$> features))]
     | _ => []
     end
  ++ match when_some "resolution_output" JString (ps_render_resolution_output s) ++ when_some "vsync" JString (ps_render_vsync s) with
     | [] => []
     | render => [("render", object render)]
     end
  ++ when_some "notes" JString (ps_notes s).

Definition to_overlay (p : GameProfile) : json :=
  match profile_settings (gp_settings p) with
  | [] => JNull
  | settings =>
      object [("rigsignal", object [("settings", object (settings ++ [("source", JString "profile"); ("confidence", JString "medium")]))])]
  end.

(** ** Search *)

Section profiles.
Context `{Unicode} (m : Machine).

(** [profile_dirs] on Unix, in order of priority; [exe_dir] is where the
    executable lies. *)
Definition profile_dirs (exe_dir : option string) : list string :=
  let non_empty (v : option string) := match v with Some s => if is_empty s then None else Some s | None => None end in
  let home := match non_empty (var m "SUDO_USER") with
              | Some user => Some (join_path "/home" user)
              | None => var m "HOME"
              end in
  option_list (non_empty (var m "RIGSIGNAL_PROFILES_DIR"))
  ++ option_list ((λ h, join_path h ".config/rigsignal/profiles") <$> home)
  ++ ["/etc/rigsignal/profiles"; "/usr/share/rigsignal/profiles"]
  ++ match exe_dir with
     | Some dir => List.filter (path_exists m) [join_path dir "../profiles"; join_path dir "../../profiles"]
     | None => []
     end.

(** [Path::extension] of a file name. *)
Definition extension (name : string) : option string :=
  match rsplit_once "." name with Some (stem, ext) => if is_empty stem then None else Some ext | None => None end.

Context (toml_profile : string → option GameProfile).

Definition load_profile (path : string) : option GameProfile :=
  let! text := read_bytes m path in if is_utf8 text then toml_profile text else None.
Definition load_dir (dir : string) : list GameProfile :=
  match list_dir m dir with
  | None => []
  | Some names =>
      filter_map (λ name, if bool_decide (extension name = Some "toml") then load_profile (join_path dir name) else None) names
  end.
Definition load_all (exe_dir : option string) : list GameProfile := mjoin (load_dir <$> profile_dirs exe_dir).

Definition name_matches (name_lower : string) (p : GameProfile) : bool :=
  contains (uc_to_lowercase (gm_name (gp_game p))) name_lower
  || existsb (λ a, contains (uc_to_lowercase a) name_lower) (gm_aliases (gp_game p)).
Definition find_in (all : list GameProfile) (t : Target) : option GameProfile :=
  let by_id := match t_steam_app_id t with
               | Some app_id => List.find (λ p, bool_decide (gm_steam_app_id (gp_game p) = Some app_id)) all
               | None => None
               end in
  match by_id with
  | Some p => Some p
  | None => List.find (name_matches (uc_to_lowercase (t_display_name t))) all
  end.
Definition find_profile (exe_dir : option string) (t : Target) : option GameProfile := find_in (load_all exe_dir) t.
End profiles.

(** ** What a profile gives *)

(** An overlay is absent exactly when the profile sets nothing; an upscaler
    preset alone and an empty list of features set nothing. *)
Lemma to_overlay_null p :
  to_overlay p = JNull ↔
  let s := gp_settings p in
  ps_preset s = None ∧ ps_upscaler_tech s = None ∧ ps_frame_gen_tech s = None
  ∧ (ps_features_active s = None ∨ ps_features_active s = Some []) ∧ ps_render_resolution_output s = None
  ∧ ps_render_vsync s = None ∧ ps_notes s = None.
Proof.
  unfold to_overlay, profile_settings. destruct (gp_settings p) as [[] [] up [] [[|f fs]|] [] [] []]; cbn;
    (split; [intros Hnull; try discriminate Hnull; by auto 10|intros (? & ? & ? & [?|?] & ? & ? & ?); congruence || done]).
Qed.

(** The app id decides before any name does, over all directories. *)
Lemma find_in_by_id `{Unicode} all t app_id p :
  t_steam_app_id t = Some app_id → p ∈ all → gm_steam_app_id (gp_game p) = Some app_id →
  ∃ q, find_in all t = Some q ∧ gm_steam_app_id (gp_game q) = Some app_id.
Proof.
  unfold find_in. intros -> Hp Hid.
  destruct (List.find _ all) as [q|] eqn:E.
  - apply find_some in E as [_ Hq%bool_decide_eq_true]. by exists q.
  - apply list_elem_of_In in Hp. apply (find_none _ _ E) in Hp. by rewrite bool_decide_true in Hp.
Qed.
