(* ===== verification/Summary.v ===== *)
(** * Documents of the agent ([src/main.rs])

    Merging documents, the settings overlay, the accumulators of a session, and
    the documents of its start, its game and its end.  Time stamps already
    formatted by [chrono] are arguments. *)
From Stdlib Require Import Ascii Floats.SpecFloat.
From S2P Require Import Prelude Float64 EsModel Json FileSystem GameScan Session.

(** ** Numbers *)

(** [Value::as_f64], [Value::as_i64] and [Value::from] of an [i64]. *)
Definition as_f64 (v : json) : option f64 :=
  match v with
  | JNumber (PosInt n) | JNumber (NegInt n) => Some (f64_of_Z n)
  | JNumber (Float f) => Some f
  | _ => None
  end.
Definition as_i64 (v : json) : option Z :=
  match v with
  | JNumber (PosInt n) => if n <=? i64_max then Some n else None
  | JNumber (NegInt n) => Some n
  | _ => None
  end.
Definition json_i64 (n : Z) : json := if n <? 0 then JNumber (NegInt n) else JNumber (PosInt n).

(** ** Merging *)

Definition is_object (v : json) : bool := match v with JObject _ => true | _ => false end.

Fixpoint deep_merge (base overlay : json) {struct overlay} : json :=
  match base, overlay with
  | JObject base_map, JObject overlay_map =>
      JObject ((fix merge (base_map overlay_map : list (string * json)) :=
        match overlay_map with
        | [] => base_map
        | (k, v) :: rest =>
            merge (map_insert k
              (match map_get k base_map with
               | Some existing => if is_object existing && is_object v then deep_merge existing v else v
               | None => v
               end) base_map) rest
        end) base_map overlay_map)
  | _, _ => overlay
  end.

Definition add_data_stream (doc : json) (dataset : string) : json :=
  match doc with
  | JObject members =>
      JObject (map_insert "data_stream"
        (object [("type", JString "metrics"); ("dataset", JString dataset); ("namespace", JString "default")]) members)
  | _ => doc
  end.

(** ** Settings *)

Definition build_settings_overlay (preset upscaler_tech upscaler_preset frame_gen_tech : option string)
    (features_active : option (list string)) (resolution vsync notes : option string) : option json :=
  match preset, upscaler_tech, frame_gen_tech, features_active, resolution, vsync, notes with
  | None, None, None, None, None, None, None => None
  | _, _, _, _, _, _, _ =>
      let s :=
        when_some "preset" JString preset
        ++ match upscaler_tech, upscaler_preset with
           | None, None => []
           | _, _ => [("upscaler", object (when_some "tech" JString upscaler_tech ++ when_some "preset" JString upscaler_preset))]
           end
        ++ when_some "frame_gen" (λ ft, object [("tech", JString ft)]) frame_gen_tech
        ++ when_some "features_active" (λ feats, JArray (JString <$> feats)) features_active
        ++ match resolution, vsync with
           | None, None => []
           | _, _ => [("render", object (when_some "resolution_output" JString resolution ++ when_some "vsync" JString vsync))]
           end
        ++ when_some "notes" JString notes
        ++ [("source", JString "manual"); ("confidence", JString "high")] in
      Some (object [("rigsignal", object [("settings", object s)])])
  end.

(** [parse_upscaler]: ["dlss:quality"]. *)
Definition parse_upscaler (s : string) : string * option string :=
  match split_once ":" s with
  | Some (tech, preset) => (tech, if is_empty preset then None else Some preset)
  | None => (s, None)
  end.

(** The settings of the command line over those of the configuration, as [run]
    resolves them. *)
Record SettingsFlags := {
  fl_preset : option string;
  fl_upscaler : option string;
  fl_frame_gen : option string;
  fl_features : option string;
  fl_resolution : option string;
  fl_vsync : option string;
  fl_notes : option string;
}.
Record SettingsConfig := {
  cf_preset : option string;
  cf_upscaler_tech : option string;
  cf_upscaler_preset : option string;
  cf_frame_gen_tech : option string;
  cf_features_active : option (list string);
  cf_render_resolution_output : option string;
  cf_render_vsync : option string;
  cf_notes : option string;
}.
Definition either {A : Type} (a b : option A) : option A := match a with Some _ => a | None => b end.
Definition resolve_settings (cli : SettingsFlags) (cfg : SettingsConfig) : option json :=
  let '(upscaler_tech, upscaler_preset) :=
    match fl_upscaler cli with
    | Some s => parse_upscaler s
    | None => (unwrap_or (cf_upscaler_tech cfg) EmptyString, cf_upscaler_preset cfg)
    end in
  build_settings_overlay
    (either (fl_preset cli) (cf_preset cfg))
    (if is_empty upscaler_tech then None else Some upscaler_tech) upscaler_preset
    (either (fl_frame_gen cli) (cf_frame_gen_tech cfg))
    (either ((λ s, trim <$> split_char "," s) <$> fl_features cli) (cf_features_active cfg))
    (either (fl_resolution cli) (cf_render_resolution_output cfg))
    (either (fl_vsync cli) (cf_render_vsync cfg))
    (either (fl_notes cli) (cf_notes cfg)).

(** ** Accumulators *)

Record SessionAccumulators := {
  fps_samples : list f64;
  frametime_samples : list f64;
  stutter_total : Z;
  peak_gpu_temp : option f64;
  peak_cpu_temp : option f64;
  peak_gpu_power : option f64;
  gpu_bottleneck_ticks : Z;
  cpu_bottleneck_ticks : Z;
  balanced_ticks : Z;
}.
Definition new_accumulators : SessionAccumulators :=
  {| fps_samples := []; frametime_samples := []; stutter_total := 0; peak_gpu_temp := None; peak_cpu_temp := None;
     peak_gpu_power := None; gpu_bottleneck_ticks := 0; cpu_bottleneck_ticks := 0; balanced_ticks := 0 |}.

Definition peak (old new : option f64) : option f64 :=
  match new with
  | Some t => Some (match old with Some p => f64_max p t | None => t end)
  | None => old
  end.
Definition number_at (key : string) (section : json) : option f64 := and_then (json_get key section) as_f64.
Definition section_at (key : string) (gp : json) : option json := and_then (json_get key gp) as_object.

(** The utilisations of a tick, as far as they have been seen. *)
Record TickUtil := { tick_gpu_util : option f64; tick_cpu_util : option f64 }.

Definition update_gpu (acc : SessionAccumulators) (gpu : json) : SessionAccumulators :=
  {| fps_samples := fps_samples acc; frametime_samples := frametime_samples acc; stutter_total := stutter_total acc;
     peak_gpu_temp := peak (peak_gpu_temp acc) (number_at "temperature_c" gpu); peak_cpu_temp := peak_cpu_temp acc;
     peak_gpu_power := peak (peak_gpu_power acc) (number_at "power_w" gpu);
     gpu_bottleneck_ticks := gpu_bottleneck_ticks acc; cpu_bottleneck_ticks := cpu_bottleneck_ticks acc;
     balanced_ticks := balanced_ticks acc |}.
Definition update_cpu (acc : SessionAccumulators) (cpu : json) : SessionAccumulators :=
  {| fps_samples := fps_samples acc; frametime_samples := frametime_samples acc; stutter_total := stutter_total acc;
     peak_gpu_temp := peak_gpu_temp acc; peak_cpu_temp := peak (peak_cpu_temp acc) (number_at "temperature_c" cpu);
     peak_gpu_power := peak_gpu_power acc;
     gpu_bottleneck_ticks := gpu_bottleneck_ticks acc; cpu_bottleneck_ticks := cpu_bottleneck_ticks acc;
     balanced_ticks := balanced_ticks acc |}.
Definition update_fps (acc : SessionAccumulators) (fps : json) : SessionAccumulators :=
  {| fps_samples := fps_samples acc ++ option_list (number_at "avg_1s" fps);
     frametime_samples := frametime_samples acc ++ option_list (number_at "frametime_ms" fps);
     stutter_total := match and_then (json_get "stutter_count" fps) as_i64 with
                      | Some sc => add_i64 (stutter_total acc) sc
                      | None => stutter_total acc
                      end;
     peak_gpu_temp := peak_gpu_temp acc; peak_cpu_temp := peak_cpu_temp acc; peak_gpu_power := peak_gpu_power acc;
     gpu_bottleneck_ticks := gpu_bottleneck_ticks acc; cpu_bottleneck_ticks := cpu_bottleneck_ticks acc;
     balanced_ticks := balanced_ticks acc |}.

Definition update_doc (st : SessionAccumulators * TickUtil) (doc : json) : SessionAccumulators * TickUtil :=
  match and_then (json_get "rigsignal" doc) as_object with
  | None => st
  | Some gp =>
      let '(acc, util) := st in
      let '(acc, util) :=
        match section_at "gpu" gp with
        | Some gpu => (update_gpu acc gpu, {| tick_gpu_util := number_at "utilisation_pct" gpu; tick_cpu_util := tick_cpu_util util |})
        | None => (acc, util)
        end in
      let '(acc, util) :=
        match section_at "cpu" gp with
        | Some cpu => (update_cpu acc cpu, {| tick_gpu_util := tick_gpu_util util; tick_cpu_util := number_at "total_utilisation_pct" cpu |})
        | None => (acc, util)
        end in
      (match section_at "fps" gp with Some fps => update_fps acc fps | None => acc end, util)
  end.

Definition BUSY : f64 := f64_of_Z 90.
Definition with_ticks (acc : SessionAccumulators) (gpu cpu balanced : Z) : SessionAccumulators :=
  {| fps_samples := fps_samples acc; frametime_samples := frametime_samples acc; stutter_total := stutter_total acc;
     peak_gpu_temp := peak_gpu_temp acc; peak_cpu_temp := peak_cpu_temp acc; peak_gpu_power := peak_gpu_power acc;
     gpu_bottleneck_ticks := add_i64 (gpu_bottleneck_ticks acc) gpu; cpu_bottleneck_ticks := add_i64 (cpu_bottleneck_ticks acc) cpu;
     balanced_ticks := add_i64 (balanced_ticks acc) balanced |}.
Definition update (acc : SessionAccumulators) (docs : list json) : SessionAccumulators :=
  let '(acc, util) := fold_left update_doc docs (acc, {| tick_gpu_util := None; tick_cpu_util := None |}) in
  match tick_gpu_util util, tick_cpu_util util with
  | Some gpu_util, Some cpu_util =>
      if f64_lt BUSY gpu_util then with_ticks acc 1 0 0
      else if f64_lt BUSY cpu_util then with_ticks acc 0 1 0
      else with_ticks acc 0 0 1
  | _, _ => acc
  end.

Definition bottleneck_dominant (acc : SessionAccumulators) : option string :=
  let gpu := gpu_bottleneck_ticks acc in
  let cpu := cpu_bottleneck_ticks acc in
  let balanced := balanced_ticks acc in
  if add_i64 (add_i64 gpu cpu) balanced =? 0 then None
  else if (cpu <=? gpu) && (balanced <=? gpu) then Some "gpu"
  else if balanced <=? cpu then Some "cpu"
  else Some "balanced".

(** ** Documents *)

Definition f64_ascending (a b : f64) : bool := negb (f64_lt b a).
(** [((n as f64 * q) as usize).saturating_sub(1).min(n - 1)]. *)
Definition quantile_index (n : nat) (q : f64) : nat :=
  Nat.min (Z.to_nat (Z.max 0 (as_usize (f64_mul (f64_of_Z (Z.of_nat n)) q) - 1))) (n - 1).
Definition sorted_at (samples : list f64) (index : nat) : option f64 := stable_sort f64_ascending samples !! index.

Definition ten : f64 := f64_of_Z 10.
Definition hundred : f64 := f64_of_Z 100.

Definition fps_members (samples : list f64) : list (string * json) :=
  match samples with
  | [] => []
  | _ =>
      let n := length samples in
      let avg_fps := f64_div (f64_round (f64_mul (f64_div (f64_sum samples) (f64_of_Z (Z.of_nat n))) ten)) ten in
      [("avg_fps", json_f64 avg_fps)]
      ++ when_some "low_1pct_fps" (λ x, json_i64 (as_i64_cast x)) (sorted_at samples (quantile_index n (f64_lit 1 2)))
      ++ [("total_frames", json_i64 (as_i64_cast (f64_round (f64_mul (f64_sum samples) (f64_of_Z 1)))))]
  end.
Definition frametime_members (samples : list f64) : list (string * json) :=
  match samples with
  | [] => []
  | _ =>
      when_some "p99_frametime_ms" (λ x, json_f64 (f64_div (f64_round (f64_mul x hundred)) hundred))
        (sorted_at samples (quantile_index (length samples) (f64_lit 99 2)))
  end.
Definition summary_members (duration_s : Z) (acc : SessionAccumulators) : list (string * json) :=
  [("ended", JBool true); ("duration_s", json_u64 duration_s);
   ("fps_coverage_s", json_i64 (Z.of_nat (length (fps_samples acc)))); ("stutter_count", json_i64 (stutter_total acc))]
  ++ fps_members (fps_samples acc)
  ++ frametime_members (frametime_samples acc)
  ++ when_some "peak_gpu_temp_c" json_f64 (peak_gpu_temp acc)
  ++ when_some "peak_cpu_temp_c" json_f64 (peak_cpu_temp acc)
  ++ when_some "peak_gpu_power_w" json_f64 (peak_gpu_power acc)
  ++ when_some "bottleneck_dominant" JString (bottleneck_dominant acc).

Section documents.
Context `{Unicode} (agent_version : string).

Definition stamped (now : string) (base : json) : json := deep_merge (object [("@timestamp", JString now)]) base.
Definition with_settings (s : SessionManager) (doc : json) : json :=
  match settings_overlay s with Some settings => deep_merge doc settings | None => doc end.
Definition SESSION_DATASET : string := "rigsignal.session".

Definition build_session_start_doc (now : string) (s : SessionManager) (host_snapshot : json) (hostname : string) : json :=
  add_data_stream (with_settings s (deep_merge (stamped now (base_doc agent_version s hostname)) host_snapshot)) SESSION_DATASET.

Definition compat_overlay (t : Target) : json :=
  let compat := when_some "proton_version" JString (t_proton_version t) ++ when_some "dxvk_version" JString (t_dxvk_version t) in
  match compat with
  | [] => JObject []
  | _ => object [("rigsignal", object [("compatibility", object compat)])]
  end.
Definition build_game_detected_doc (now : string) (s : SessionManager) (host_snapshot : json) (hostname : string) (t : Target) : json :=
  add_data_stream
    (with_settings s (deep_merge (deep_merge (stamped now (base_doc agent_version s hostname)) host_snapshot) (compat_overlay t)))
    SESSION_DATASET.

(** The base of a summary names the last game when none is on. *)
Definition summary_base (s : SessionManager) (hostname : string) (last_game : option Target) : json :=
  let base := base_doc agent_version s hostname in
  match last_game, current_game s with
  | Some t, None => deep_merge base (object [("rigsignal", object [("game", JObject (target_to_game_doc t))])])
  | _, _ => base
  end.
Definition build_summary_doc (now : string) (s : SessionManager) (host_snapshot : json) (hostname : string) (duration_s : Z)
    (acc : SessionAccumulators) (last_game : option Target) : json :=
  let summary_overlay := object [("rigsignal", object [("summary", object (summary_members duration_s acc))])] in
  add_data_stream
    (with_settings s (deep_merge (deep_merge (stamped now (summary_base s hostname last_game)) host_snapshot) summary_overlay))
    SESSION_DATASET.
End documents.

(** ** Laws of merging *)

(** The value at a path of member names. *)
Fixpoint json_path (p : list string) (v : json) : option json :=
  match p with [] => Some v | k :: p => and_then (json_get k v) (json_path p) end.
(** No object names a member twice. *)
Fixpoint unique_names (v : json) : Prop :=
  match v with
  | JObject members =>
      NoDup (fst <$> members) ∧ (fix all (members : list (string * json)) : Prop :=
        match members with [] => True | m :: rest => unique_names (snd m) ∧ all rest end) members
  | _ => True
  end.
(** The value stops short of the path at an absent member. *)
Fixpoint silent (p : list string) (v : json) : Prop :=
  match p with
  | [] => False
  | k :: p =>
      match v with
      | JObject members => match map_get k members with Some v => silent p v | None => True end
      | _ => False
      end
  end.

Definition merged (base_map : list (string * json)) (k : string) (v : json) : json :=
  match map_get k base_map with
  | Some existing => if is_object existing && is_object v then deep_merge existing v else v
  | None => v
  end.
Definition merge_members (base_map overlay_map : list (string * json)) : list (string * json) :=
  foldl (λ acc m, map_insert (fst m) (merged acc (fst m) (snd m)) acc) base_map overlay_map.

Lemma deep_merge_objects b o : deep_merge (JObject b) (JObject o) = JObject (merge_members b o).
Proof.
  unfold merge_members. cbn [deep_merge]. f_equal. revert b. induction o as [|[k v] o IH]; intros b; [done|].
  cbn [foldl fst snd]. rewrite <-IH. done.
Qed.
Lemma deep_merge_other b o : is_object b && is_object o = false → deep_merge b o = o.
Proof. by destruct b, o. Qed.

Lemma map_get_cons k k' v rest : map_get k ((k', v) :: rest) = if String.eqb k' k then Some v else map_get k rest.
Proof. unfold map_get. cbn [List.find fst]. by destruct (String.eqb k' k). Qed.
Lemma map_get_absent k members : k ∉ fst <$> members → map_get k members = None.
Proof.
  induction members as [|[k' v] rest IH]; [done|]. rewrite fmap_cons, not_elem_of_cons, map_get_cons. cbn [fst].
  intros [Hk Hr]. destruct (String.eqb_spec k' k) as [->|]; [done|by apply IH].
Qed.

Lemma map_get_merge k b o : NoDup (fst <$> o) →
  map_get k (merge_members b o) = match map_get k o with Some v => Some (merged b k v) | None => map_get k b end.
Proof.
  unfold merge_members. revert b. induction o as [|[k' v] o IH]; intros b; [done|].
  rewrite fmap_cons. cbn [fst foldl snd]. intros [Hk Ho]%NoDup_cons. rewrite IH, map_get_cons by done.
  destruct (String.eqb_spec k' k) as [->|Hne].
  - rewrite map_get_absent by done. by rewrite map_get_insert_eq.
  - unfold merged. by rewrite !map_get_insert_ne by congruence.
Qed.

Lemma unique_member k members v : unique_names (JObject members) → map_get k members = Some v → unique_names v.
Proof.
  intros [_ Hall]. induction members as [|[k' w] rest IH]; [done|]. destruct Hall as [Hw Hall]. rewrite map_get_cons.
  destruct (String.eqb k' k); [by intros [= <-]|by apply IH].
Qed.

(** A leaf of the overlay is the leaf of the merge. *)
Lemma merge_overlay_wins p b o v :
  unique_names o → json_path p o = Some v → is_object v = false → json_path p (deep_merge b o) = Some v.
Proof.
  revert b o. induction p as [|k p IH]; intros b o Hu.
  - cbn [json_path]. intros [= ->] Hv. rewrite deep_merge_other; [done|]. by rewrite Hv, andb_false_r.
  - destruct o as [| | | | |o]; try done. destruct b as [| | | | |b]; try (by rewrite deep_merge_other).
    cbn [json_path json_get]. intros Hp Hv. rewrite deep_merge_objects. cbn [json_get].
    rewrite map_get_merge by apply Hu. destruct (map_get k o) as [w|] eqn:Hw; [|done]. cbn [and_then] in *.
    unfold merged. destruct (map_get k b) as [e|]; [|done].
    destruct (is_object e && is_object w) eqn:He; [|done]. apply IH; [by eapply unique_member|done|done].
Qed.
(** Where the overlay is silent the base remains. *)
Lemma merge_base_kept p b o : unique_names o → silent p o → json_path p (deep_merge b o) = json_path p b.
Proof.
  revert b o. induction p as [|k p IH]; intros b o Hu Hs; [done|].
  destruct o as [| | | | |o]; try done. cbn [silent] in Hs. cbn [json_path].
  destruct b as [| | | | |b].
  all: try (rewrite deep_merge_other by done; cbn [json_get and_then]; destruct (map_get k o) as [w|] eqn:Hw; [|done];
            cbn [and_then]; clear -Hs; revert w Hs; induction p as [|k' p IH]; intros w Hs; [done|];
            destruct w as [| | | | |w]; try done; cbn [silent json_path json_get] in *; destruct (map_get k' w) as [w'|]; [by apply IH|done]).
  rewrite deep_merge_objects. cbn [json_get]. rewrite map_get_merge by apply Hu.
  destruct (map_get k o) as [w|] eqn:Hw; [|done]. cbn [and_then].
  assert (Huw : unique_names w) by by eapply unique_member.
  unfold merged. destruct (map_get k b) as [e|]; cbn [and_then].
  - destruct (is_object e && is_object w) eqn:He; [by apply IH|].
    rewrite <-(IH e w) by done. by rewrite deep_merge_other.
  - rewrite <-(deep_merge_other JNull w), (IH JNull w) by done. by destruct p.
Qed.
