(* ===== verification/SummarySpec.v ===== *)
(** * What the documents of the agent hold ([src/main.rs])

    Members in order at every depth, kept by merging; where the settings of a
    document come from; and the numbers of a summary. *)
From Stdlib Require Import Ascii Floats.SpecFloat Sorting.Sorted.
From S2P Require Import Prelude Float64 EsModel Json FileSystem GameScan Session Profiles Summary.

(** ** Objects in order *)

Lemma compare_lt_trans a b c : String.compare a b = Lt → String.compare b c = Lt → String.compare a c = Lt.
Proof.
  revert b c. induction a as [|x a IH]; intros [|y b] [|z c]; try done. cbn [String.compare]. unfold Ascii.compare.
  destruct (N.compare_spec (N_of_ascii x) (N_of_ascii y)) as [Exy|Exy|Exy]; [| |done];
    (destruct (N.compare_spec (N_of_ascii y) (N_of_ascii z)) as [Eyz|Eyz|Eyz]; [| |done]); intros H1 H2.
  - rewrite Exy, Eyz, N.compare_refl. by eapply IH.
  - rewrite Exy. by rewrite (proj2 (N.compare_lt_iff _ _) Eyz).
  - rewrite <-Eyz. by rewrite (proj2 (N.compare_lt_iff _ _) Exy).
  - assert (Exz : (N_of_ascii x < N_of_ascii z)%N) by lia. by rewrite (proj2 (N.compare_lt_iff _ _) Exz).
Qed.

Definition before (m m' : string * json) : Prop := String.compare (fst m) (fst m') = Lt.
Definition ordered (members : list (string * json)) : Prop := StronglySorted before members.

Lemma ordered_unique members : ordered members → NoDup (fst <$> members).
Proof.
  induction 1 as [|m members _ IH Hall]; [constructor|]. rewrite fmap_cons. constructor; [|done].
  intros (m' & Heq & Hm')%list_elem_of_fmap. rewrite Forall_forall in Hall. specialize (Hall m' Hm').
  unfold before in Hall. rewrite <-Heq in Hall. pose proof (String.compare_antisym (fst m) (fst m)) as Ha. by rewrite Hall in Ha.
Qed.

Lemma map_insert_ordered k v members : ordered members → ordered (map_insert k v members).
Proof.
  unfold ordered. induction 1 as [|[k' w] members Hs IH Hall]; [by repeat constructor|]. cbn [map_insert fst].
  destruct (String.compare k k') eqn:E.
  - apply String.compare_eq_iff in E as ->. by constructor.
  - constructor; [by constructor|]. constructor; [done|]. eapply Forall_impl; [exact Hall|]. intros m Hm. by eapply compare_lt_trans.
  - constructor; [done|]. apply map_insert_Forall; [|done]. unfold before. cbn [fst].
    rewrite String.compare_antisym, E. done.
Qed.

(** In order at every depth, as [serde_json]'s maps are. *)
Fixpoint well_ordered (v : json) : Prop :=
  match v with
  | JObject members =>
      ordered members ∧ (fix all (members : list (string * json)) : Prop :=
        match members with [] => True | m :: rest => well_ordered (snd m) ∧ all rest end) members
  | _ => True
  end.

Lemma well_ordered_object members : well_ordered (JObject members) ↔ ordered members ∧ Forall (λ m, well_ordered (snd m)) members.
Proof.
  cbn [well_ordered]. apply and_iff_compat_l. induction members as [|m members IH]; [by split; constructor|].
  rewrite Forall_cons, <-IH. done.
Qed.
Lemma unique_names_object members : unique_names (JObject members) ↔ NoDup (fst <$> members) ∧ Forall (λ m, unique_names (snd m)) members.
Proof.
  cbn [unique_names]. apply and_iff_compat_l. induction members as [|m members IH]; [by split; constructor|].
  rewrite Forall_cons, <-IH. done.
Qed.

(** Induction over values, through the members of objects. *)
Lemma json_members_ind (P : json → Prop) :
  (∀ v, is_object v = false → P v) → (∀ members, Forall (λ m, P (snd m)) members → P (JObject members)) → ∀ v, P v.
Proof.
  intros Hleaf Hobj. fix IH 1. intros [| | | | |members]; try by apply Hleaf.
  apply Hobj. induction members as [|[k v] members IHm]; [constructor|]. constructor; [apply IH|exact IHm].
Qed.

Lemma well_ordered_unique v : well_ordered v → unique_names v.
Proof.
  induction v as [v Hv|members IH] using json_members_ind; [by destruct v|].
  rewrite well_ordered_object, unique_names_object. intros [Ho Hall]. split; [by apply ordered_unique|].
  induction IH as [|m members Hm _ IHm]; [constructor|]. apply Forall_cons in Hall as [Hw Hall].
  constructor; [by apply Hm|]. apply IHm; [|done]. by inversion Ho.
Qed.

Lemma map_insert_well_ordered k v members :
  well_ordered v → well_ordered (JObject members) → well_ordered (JObject (map_insert k v members)).
Proof.
  rewrite !well_ordered_object. intros Hv [Ho Hall]. split; [by apply map_insert_ordered|]. by apply map_insert_Forall.
Qed.
Lemma object_well_ordered members : Forall (λ m, well_ordered (snd m)) members → well_ordered (object members).
Proof.
  unfold object, map_of. assert (Hnil : well_ordered (JObject [])) by (by split; [constructor|]).
  revert Hnil. generalize (@nil (string * json)). induction members as [|m members IH]; intros acc Hacc Hall; [done|].
  apply Forall_cons in Hall as [Hm Hall]. cbn [foldl]. apply IH; [by apply map_insert_well_ordered|done].
Qed.
Lemma well_ordered_get k members v : well_ordered (JObject members) → map_get k members = Some v → well_ordered v.
Proof.
  rewrite well_ordered_object. intros [_ Hall]. unfold map_get. destruct (List.find _ members) as [m|] eqn:E; [|done].
  intros [= <-]. apply find_some in E as [Hm%list_elem_of_In _]. rewrite Forall_forall in Hall. by apply Hall.
Qed.

(** Merging keeps documents in order. *)
Lemma deep_merge_well_ordered b o : well_ordered b → well_ordered o → well_ordered (deep_merge b o).
Proof.
  revert b. induction o as [o Ho|o IH] using json_members_ind; intros b Hb Hw.
  { rewrite deep_merge_other; [done|]. by rewrite Ho, andb_false_r. }
  destruct b as [| | | | |b]; try (by rewrite deep_merge_other). rewrite deep_merge_objects. unfold merge_members.
  apply well_ordered_object in Hw as [_ Hw]. revert b Hb Hw. induction IH as [|m o Hm _ IHo]; intros b Hb Hw; [done|].
  apply Forall_cons in Hw as [Hwm Hw]. cbn [foldl]. apply IHo; [|done]. apply map_insert_well_ordered; [|done].
  unfold merged. destruct (map_get (fst m) b) as [e|] eqn:He; [|done].
  destruct (is_object e && is_object (snd m)); [|done]. apply Hm; [by eapply well_ordered_get|done].
Qed.

(** ** Settings *)

Create HintDb docs.
#[export] Hint Resolve object_well_ordered deep_merge_well_ordered map_insert_well_ordered : docs.
#[export] Hint Extern 1 (well_ordered (JString _)) => exact I : docs.
#[export] Hint Extern 1 (well_ordered (JBool _)) => exact I : docs.
#[export] Hint Extern 1 (well_ordered (JNumber _)) => exact I : docs.
#[export] Hint Extern 1 (well_ordered (JArray _)) => exact I : docs.
#[export] Hint Extern 1 (well_ordered JNull) => exact I : docs.

Abbreviation members_ordered := (Forall (λ m : string * json, well_ordered (snd m))).
Lemma members_cons k v l : well_ordered v → members_ordered l → members_ordered ((k, v) :: l).
Proof. by constructor. Qed.
Lemma members_nil : members_ordered [].
Proof. constructor. Qed.
Lemma members_app l l' : members_ordered l → members_ordered l' → members_ordered (l ++ l').
Proof. intros. by apply Forall_app. Qed.
Lemma members_some {A : Type} name (f : A → json) o : (∀ a, well_ordered (f a)) → members_ordered (when_some name f o).
Proof. destruct o; [intros Hf; constructor; [apply Hf|constructor]|constructor]. Qed.
#[export] Hint Resolve members_cons members_nil members_app members_some : docs.

Lemma build_settings_ordered a b c d e f g h v : build_settings_overlay a b c d e f g h = Some v → well_ordered v.
Proof.
  unfold build_settings_overlay.
  assert (Hv : well_ordered (object [("rigsignal", object [("settings", object
    (when_some "preset" JString a
     ++ match b, c with None, None => [] | _, _ => [("upscaler", object (when_some "tech" JString b ++ when_some "preset" JString c))] end
     ++ when_some "frame_gen" (λ ft, object [("tech", JString ft)]) d
     ++ when_some "features_active" (λ feats, JArray (JString <$> feats)) e
     ++ match f, g with None, None => [] | _, _ => [("render", object (when_some "resolution_output" JString f ++ when_some "vsync" JString g))] end
     ++ when_some "notes" JString h ++ [("source", JString "manual"); ("confidence", JString "high")]))])])).
  { eauto 20 with docs. destruct b, c, f, g; eauto 30 with docs. }
  destruct a, b, d, e, f, g, h; intros [= <-]; exact Hv.
Qed.

(** A document that says nothing but settings. *)
Record about_settings (v : json) : Prop := {
  as_ordered : well_ordered v;
  as_top k p : k ≠ "rigsignal" → silent (k :: p) v;
  as_inner k p : k ≠ "settings" → silent ("rigsignal" :: k :: p) v;
}.

Lemma about_settings_empty : about_settings (JObject []).
Proof. split; [by split; [constructor|]|done|done]. Qed.
Lemma about_settings_doc v : well_ordered v → about_settings (object [("rigsignal", object [("settings", v)])]).
Proof.
  intros Hv. split; [eauto with docs| |].
  - intros k p Hk. cbn [silent object map_of foldl map_insert fst snd]. rewrite map_get_cons.
    by destruct (String.eqb_spec "rigsignal" k) as [<-|].
  - intros k p Hk. cbn [silent object map_of foldl map_insert fst snd]. rewrite map_get_cons, String.eqb_refl.
    cbn [object map_of foldl map_insert fst snd]. rewrite map_get_cons. by destruct (String.eqb_spec "settings" k) as [<-|].
Qed.

Lemma silent_merge p b o : unique_names o → silent p b → silent p o → silent p (deep_merge b o).
Proof.
  revert b o. induction p as [|k p IH]; intros b o Hu Hb Ho; [done|].
  destruct o as [| | | | |o]; try done. destruct b as [| | | | |b]; try done. rewrite deep_merge_objects.
  cbn [silent] in *. rewrite map_get_merge by apply Hu. destruct (map_get k o) as [w|] eqn:Hw; [|done].
  unfold merged. destruct (map_get k b) as [e|]; [|done].
  destruct (is_object e && is_object w); [|done]. apply IH; [by eapply unique_member|done|done].
Qed.
Lemma about_settings_merge b o : about_settings b → about_settings o → about_settings (deep_merge b o).
Proof.
  intros [Hb1 Hb2 Hb3] [Ho1 Ho2 Ho3]. pose proof (well_ordered_unique o Ho1).
  split; [by apply deep_merge_well_ordered|intros k p Hk..]; (apply silent_merge; auto).
Qed.

Lemma build_settings_about a b c d e f g h v : build_settings_overlay a b c d e f g h = Some v → about_settings v.
Proof.
  intros Hv. pose proof (build_settings_ordered _ _ _ _ _ _ _ _ _ Hv) as Hw.
  assert (∃ x, v = object [("rigsignal", object [("settings", x)])]) as [x ->].
  { revert Hv. unfold build_settings_overlay. destruct a, b, d, e, f, g, h; intros [= <-]; by eexists. }
  apply about_settings_doc. apply (well_ordered_get "settings" [("settings", x)]); [|done].
  apply (well_ordered_get "rigsignal" [("rigsignal", object [("settings", x)])]); [exact Hw|done].
Qed.
Lemma profile_settings_ordered s : members_ordered (profile_settings s).
Proof.
  unfold profile_settings. destruct (ps_upscaler_tech s), (ps_features_active s) as [[|]|], (ps_render_resolution_output s), (ps_render_vsync s);
    cbn [when_some app]; eauto 20 with docs.
Qed.
Lemma to_overlay_about p : to_overlay p = JNull ∨ about_settings (to_overlay p).
Proof.
  unfold to_overlay. pose proof (profile_settings_ordered (gp_settings p)) as Hs.
  destruct (profile_settings (gp_settings p)) as [|m settings]; [by left|right]. apply about_settings_doc. eauto with docs.
Qed.
Lemma maps_overlay_about paths : settings_overlay_from_paths paths = JNull ∨ about_settings (settings_overlay_from_paths paths).
Proof.
  unfold settings_overlay_from_paths. set (settings := map_of _).
  assert (Hs : well_ordered (JObject settings)) by (apply object_well_ordered; eauto 10 with docs).
  destruct settings as [|m settings]; [by left|right]. apply about_settings_doc. eauto with docs.
Qed.

(** ** Documents of the session *)

Lemma json_path_data_stream k p doc dataset : k ≠ "data_stream" → json_path (k :: p) (add_data_stream doc dataset) = json_path (k :: p) doc.
Proof. intros Hk. destruct doc; try done. cbn [add_data_stream json_path json_get]. by rewrite map_get_insert_ne. Qed.

Lemma map_of_get k v members : map_get k (map_of members) = Some v → (k, v) ∈ members.
Proof.
  induction members as [|m members IH] using rev_ind; [done|]. rewrite map_get_snoc, elem_of_app, list_elem_of_singleton.
  destruct (String.eqb_spec (fst m) k) as [<-|]; [|by left; apply IH]. intros [= <-]. right. by destruct m.
Qed.

Section summary.
Context `{Unicode} (agent_version : string).

Ltac by_some Hsome Hv Hi Hf := eapply Hsome; [|exact Hv]; intros ?; (apply Hi || apply Hf || done).

Lemma summary_members_leaf d acc k v : (k, v) ∈ summary_members d acc → is_object v = false.
Proof.
  unfold summary_members, fps_members, frametime_members. rewrite !elem_of_app.
  assert (Hsome : ∀ (A : Type) name (f : A → json) o, (∀ a, is_object (f a) = false) → (k, v) ∈ when_some name f o → is_object v = false).
  { intros A name f [a|] Hf; [|by intros ?%not_elem_of_nil]. intros [= -> ->]%list_elem_of_singleton. apply Hf. }
  assert (Hi : ∀ n, is_object (json_i64 n) = false) by (intros n; unfold json_i64; by destruct (n <? 0)).
  assert (Hf : ∀ x, is_object (json_f64 x) = false) by (intros x; unfold json_f64; by destruct (f64_is_finite x)).
  intros [Hv|[Hv|[Hv|[Hv|[Hv|[Hv|Hv]]]]]]; try (by_some Hsome Hv Hi Hf).
  - repeat (apply elem_of_cons in Hv as [[= -> ->]|Hv]; [done || apply Hi|]). by apply elem_of_nil in Hv.
  - destruct (fps_samples acc); [by apply elem_of_nil in Hv|]. cbv zeta in Hv. rewrite !elem_of_app in Hv.
    destruct Hv as [[= -> ->]%list_elem_of_singleton|[Hv|[= -> ->]%list_elem_of_singleton]]; [apply Hf|by_some Hsome Hv Hi Hf|apply Hi].
  - destruct (frametime_samples acc); [by apply elem_of_nil in Hv|]. by_some Hsome Hv Hi Hf.
Qed.

(** A summary shows the numbers of its accumulators, whatever the host and the
    settings say. *)
Lemma summary_shows now s snapshot hostname d acc last k v :
  match settings_overlay s with Some o => about_settings o | None => True end →
  json_get k (object (summary_members d acc)) = Some v →
  json_path ["rigsignal"; "summary"; k] (build_summary_doc agent_version now s snapshot hostname d acc last) = Some v.
Proof.
  intros Hs Hk. unfold build_summary_doc. rewrite json_path_data_stream by done.
  set (overlay := object [("rigsignal", _)]). set (doc := deep_merge (deep_merge _ snapshot) overlay).
  assert (Hdoc : json_path ["rigsignal"; "summary"; k] doc = Some v).
  { apply merge_overlay_wins.
    - apply well_ordered_unique. unfold overlay, summary_members, fps_members, frametime_members.
      assert (Hi : ∀ n, well_ordered (json_i64 n)) by (intros n; unfold json_i64; by destruct (n <? 0)).
      assert (Hf : ∀ x, well_ordered (json_f64 x)) by (intros x; unfold json_f64; by destruct (f64_is_finite x)).
      destruct (fps_samples acc), (frametime_samples acc); cbv zeta;
        repeat (apply object_well_ordered || apply members_cons || apply members_nil || apply members_app || apply members_some
                || apply Hi || apply Hf || exact I || intros ?).
    - cbn [json_path overlay]. change (and_then (json_get k (object (summary_members d acc))) (json_path []) = Some v). by rewrite Hk.
    - apply (summary_members_leaf d acc k), map_of_get. exact Hk. }
  unfold with_settings. destruct (settings_overlay s) as [o|]; [|done].
  rewrite merge_base_kept; [done|apply well_ordered_unique, Hs|by apply as_inner].
Qed.
End summary.
