(* ===== verification/StreamClient.v ===== *)
(** * The stream-client collector ([src/collectors/linux/stream_client.rs])

    How busy the GPU engines of Steam's [streaming_client] are: finding the
    process, its DRM counters, and the share of an interval.  [/proc] is read
    through [GameScan.Machine], one for each moment of a sample; instants are
    nanoseconds. *)
From Stdlib Require Import Ascii Floats.SpecFloat Sorting.Sorted.
From S2P Require Import Prelude Float64 EsModel Json FileSystem GameScan Summary.

Definition DISCOVERY_TTL : Z := 5000000000.
Definition DISCOVERY_BUDGET : Z := 100000000.
Definition MAX_PIDS : nat := Z.to_nat 4096.
Definition MAX_CMDLINE_BYTES : nat := Z.to_nat 4096.
Definition MAX_FDINFO_FILES : nat := 64%nat.
Definition MAX_FDINFO_BYTES : nat := Z.to_nat 16384.

(** ** Data *)

Inductive FdIdentity :=
| Client (pdev client_id : string)
| Engines (pdev : string) (dec enc gfx : option Z).
Inductive BaselineIdentity :=
| BaseClient (pdev client_id : string)
| Fallback (pdev : string) (fd : Z).
#[export] Instance FdIdentity_eq_dec : EqDecision FdIdentity.
Proof. solve_decision. Defined.
#[export] Instance BaselineIdentity_eq_dec : EqDecision BaselineIdentity.
Proof. solve_decision. Defined.

(** The derived orders. *)
Definition then_cmp (a b : comparison) : comparison := match a with Eq => b | _ => a end.
Definition option_cmp (a b : option Z) : comparison :=
  match a, b with None, None => Eq | None, Some _ => Lt | Some _, None => Gt | Some x, Some y => Z.compare x y end.
Definition fd_cmp (a b : FdIdentity) : comparison :=
  match a, b with
  | Client p c, Client p' c' => then_cmp (String.compare p p') (String.compare c c')
  | Client _ _, Engines _ _ _ _ => Lt
  | Engines _ _ _ _, Client _ _ => Gt
  | Engines p d e g, Engines p' d' e' g' =>
      then_cmp (String.compare p p') (then_cmp (option_cmp d d') (then_cmp (option_cmp e e') (option_cmp g g')))
  end.
Definition baseline_cmp (a b : BaselineIdentity) : comparison :=
  match a, b with
  | BaseClient p c, BaseClient p' c' => then_cmp (String.compare p p') (String.compare c c')
  | BaseClient _ _, Fallback _ _ => Lt
  | Fallback _ _, BaseClient _ _ => Gt
  | Fallback p f, Fallback p' f' => then_cmp (String.compare p p') (Z.compare f f')
  end.

Record FdCounters := { fc_fd : Z; fc_identity : FdIdentity; fc_dec : option Z; fc_enc : option Z; fc_gfx : option Z }.
Record SelectedProcess := { sp_pid : Z; sp_starttime : Z }.
#[export] Instance SelectedProcess_eq_dec : EqDecision SelectedProcess.
Proof. solve_decision. Defined.
Record Baseline := {
  bl_process : SelectedProcess;
  bl_identities : list BaselineIdentity;
  bl_total : Z;
  bl_sampled_at : Z;
}.
Record StreamClientCollector := {
  last_scan : option Z;
  selected : option SelectedProcess;
  video_baseline : option Baseline;
  gfx_baseline : option Baseline;
}.
Definition new_collector : StreamClientCollector :=
  {| last_scan := None; selected := None; video_baseline := None; gfx_baseline := None |}.

(** What one sample meets: [/proc] when the selected process is checked, at the
    scan and at the reading; how long the scan has taken before its [i]th
    process; the clock before and after. *)
Record SampleEnv := {
  se_check : Machine;
  se_scan : Machine;
  se_read : Machine;
  se_spent : nat → Z;
  se_now : Z;
  se_post : Z;
}.

(** ** Processes *)

Section processes.
Context (m : Machine) (proc_root : string).
Definition proc_file (pid : Z) (file : string) : string := join_path (join_path proc_root (show pid)) file.

(** Field 22 of [stat], counted behind the last parenthesis. *)
Definition starttime (pid : Z) : option Z :=
  let! stat := read_text m (proc_file pid "stat") in
  let! (_, tail) := rsplit_once ")" stat in
  let! field := split_whitespace tail !! 19%nat in
  parse_u64 field.

Definition is_newline (ch : string) : bool := String.eqb ch (str1 nl) || String.eqb ch (str1 "013"%char).
Definition candidate_name (pid : Z) : bool :=
  is_some_and (read_text m (proc_file pid "comm")) (λ comm, String.eqb (trim_end_matches is_newline comm) "streaming_client")
  || match read_bytes m (proc_file pid "cmdline") with
     | Some bytes =>
         let first_arg := unwrap_or (head (split_char "000" (take_bytes MAX_CMDLINE_BYTES bytes))) EmptyString in
         bool_decide (path_file_name (path_from first_arg) = Some "streaming_client")
     | None => false
     end.

Definition newer (candidate old : SelectedProcess) : bool :=
  (sp_starttime old <? sp_starttime candidate)
  || (sp_starttime candidate =? sp_starttime old) && (sp_pid old <? sp_pid candidate).
(** The candidates in the order of their pids, until the budget is spent. *)
Fixpoint newest_of (spent : nat → Z) (i : nat) (pids : list Z) (newest : option SelectedProcess) : option SelectedProcess :=
  match pids with
  | [] => newest
  | pid :: rest =>
      if DISCOVERY_BUDGET <=? spent i then newest
      else if negb (candidate_name pid) then newest_of spent (S i) rest newest
      else match starttime pid with
           | None => newest_of spent (S i) rest newest
           | Some t =>
               let candidate := {| sp_pid := pid; sp_starttime := t |} in
               newest_of spent (S i) rest (if is_none_or newest (newer candidate) then Some candidate else newest)
           end
  end.
Definition scan_pids : list Z :=
  stable_sort Z.leb (take MAX_PIDS (filter_map parse_u32 (unwrap_or (list_dir m proc_root) []))).
End processes.

(** ** Selection *)

Section collector.
Context (proc_root : string).

Definition clear_baselines (c : StreamClientCollector) : StreamClientCollector :=
  {| last_scan := last_scan c; selected := selected c; video_baseline := None; gfx_baseline := None |}.
Definition scan (e : SampleEnv) (c : StreamClientCollector) : StreamClientCollector :=
  let newest := newest_of (se_scan e) proc_root (se_spent e) 0 (scan_pids (se_scan e) proc_root) None in
  let c := if bool_decide (newest = selected c) then c else clear_baselines c in
  {| last_scan := Some (se_now e); selected := newest; video_baseline := video_baseline c; gfx_baseline := gfx_baseline c |}.
Definition forget_reused (e : SampleEnv) (c : StreamClientCollector) : StreamClientCollector :=
  match selected c with
  | Some p =>
      if bool_decide (starttime (se_check e) proc_root (sp_pid p) = Some (sp_starttime p)) then c
      else {| last_scan := None; selected := None; video_baseline := None; gfx_baseline := None |}
  | None => c
  end.
Definition scan_due (now : Z) (c : StreamClientCollector) : bool :=
  is_none_or (last_scan c) (λ last, DISCOVERY_TTL <=? Z.max 0 (now - last)).
Definition selected_process (e : SampleEnv) (c : StreamClientCollector) : StreamClientCollector :=
  let c := forget_reused e c in if scan_due (se_now e) c then scan e c else c.
End collector.

(** ** Counters *)

Definition is_drm_key (key : string) : bool :=
  existsb (String.eqb key) ["drm-pdev"; "drm-client-id"; "drm-engine-dec"; "drm-engine-enc"; "drm-engine-gfx"].
Definition fdinfo_member (line : string) : option (string * string) :=
  let! (key, value) := split_once ":" line in
  if is_drm_key (trim key) then Some (trim key, trim value) else None.
(** The last line of a key counts. *)
Definition fdinfo_values (contents : string) : gmap string string :=
  foldl (λ values kv, <[fst kv := snd kv]> values) ∅ (filter_map fdinfo_member (lines contents)).
Definition parse_ns (value : string) : option Z := and_then (head (split_whitespace value)) parse_u64.

Definition parse_fdinfo (fd : Z) (contents : string) : option FdCounters :=
  let values := fdinfo_values (from_utf8_lossy (take_bytes MAX_FDINFO_BYTES contents)) in
  let! pdev := values !! "drm-pdev" in
  let dec := and_then (values !! "drm-engine-dec") parse_ns in
  let enc := and_then (values !! "drm-engine-enc") parse_ns in
  let gfx := and_then (values !! "drm-engine-gfx") parse_ns in
  match dec, enc, gfx with
  | None, None, None => None
  | _, _, _ =>
      let identity := match values !! "drm-client-id" with
                      | Some client_id => Client pdev client_id
                      | None => Engines pdev dec enc gfx
                      end in
      Some {| fc_fd := fd; fc_identity := identity; fc_dec := dec; fc_enc := enc; fc_gfx := gfx |}
  end.

Definition read_fdinfo (m : Machine) (proc_root : string) (pid : Z) : list FdCounters :=
  let dir := proc_file proc_root pid "fdinfo" in
  match list_dir m dir with
  | None => []
  | Some names =>
      let fds := filter_map (λ name, (λ fd, (fd, name)) <$> parse_u32 name) names in
      let fds := stable_sort (λ a b, fst a <=? fst b) fds in
      filter_map (λ f, and_then (read_bytes m (join_path dir (snd f))) (parse_fdinfo (fst f))) (take MAX_FDINFO_FILES fds)
  end.

(** A [BTreeMap] by identity, as the list of its entries in order. *)
Fixpoint retain (entry : FdCounters) (retained : list FdCounters) : list FdCounters :=
  match retained with
  | [] => [entry]
  | old :: rest =>
      match fd_cmp (fc_identity entry) (fc_identity old) with
      | Lt => entry :: retained
      | Eq => if fc_fd old <=? fc_fd entry then retained else entry :: rest
      | Gt => old :: retain entry rest
      end
  end.
Definition deduplicate (entries : list FdCounters) : list FdCounters := foldl (λ retained entry, retain entry retained) [] entries.

Definition baseline_identity (entry : FdCounters) : BaselineIdentity :=
  match fc_identity entry with
  | Client pdev client_id => BaseClient pdev client_id
  | Engines pdev _ _ _ => Fallback pdev (fc_fd entry)
  end.

(** ** The share of an interval *)

Definition f64_clamp (lo hi x : f64) : f64 := if f64_lt x lo then lo else if f64_lt hi x then hi else x.
Definition hundred_pct : f64 := f64_of_Z 100.
(** [delta] of [elapsed] nanoseconds in per cent, to two places. *)
Definition busy_pct (delta elapsed : Z) : f64 :=
  let raw := f64_div (f64_mul hundred_pct (f64_of_Z delta)) (f64_of_Z elapsed) in
  f64_div (f64_round (f64_mul (f64_clamp f64_zero hundred_pct raw) hundred_pct)) hundred_pct.

Definition delta_percent (previous : option Baseline) (now : Baseline) : option f64 :=
  let! b := previous in
  if negb (bool_decide (bl_process b = bl_process now)) || negb (bool_decide (bl_identities b = bl_identities now))
     || (bl_total now <? bl_total b) then None
  else if bl_sampled_at now <? bl_sampled_at b then None
  else if bl_sampled_at now - bl_sampled_at b =? 0 then None
  else Some (busy_pct (bl_total now - bl_total b) (bl_sampled_at now - bl_sampled_at b)).

(** ** A sample *)

Definition engine_total (get : FdCounters → list (option Z)) (retained : list FdCounters) : option Z :=
  match filter_map id (mjoin (get <$> retained)) with
  | [] => None
  | values => Some (foldl sat_add_u64 0 values)
  end.
Definition has_engine (get : FdCounters → option Z) (retained : list FdCounters) : bool :=
  existsb (λ e, match get e with Some _ => true | None => false end) retained.
Definition video_engine (has_dec has_enc : bool) : option string :=
  match has_dec, has_enc with
  | true, true => Some "dec+enc" | true, false => Some "dec" | false, true => Some "enc" | false, false => None
  end.

Definition video_members (pct : option f64) (engine : option string) : list (string * json) :=
  match pct, engine with
  | Some value, Some engine => [("video_busy_pct", json_f64 value); ("video_engine", JString engine)]
  | _, _ => []
  end.
(** The baseline of a counter that was read, and the old one of another. *)
Definition rebased (total : option Z) (now : Z → Baseline) (old : option Baseline) : option Baseline :=
  match total with Some t => Some (now t) | None => old end.
Definition share (total : option Z) (now : Z → Baseline) (old : option Baseline) : option f64 :=
  and_then total (λ t, delta_percent old (now t)).

Definition sample_at_post (proc_root : string) (e : SampleEnv) (c : StreamClientCollector) : option json * StreamClientCollector :=
  let c := selected_process proc_root e c in
  match selected c with
  | None => (None, c)
  | Some p =>
      let retained := deduplicate (read_fdinfo (se_read e) proc_root (sp_pid p)) in
      let identities := stable_sort (λ a b, match baseline_cmp a b with Gt => false | _ => true end) (baseline_identity <$> retained) in
      let now total := {| bl_process := p; bl_identities := identities; bl_total := total; bl_sampled_at := se_post e |} in
      let video := engine_total (λ entry, [fc_dec entry; fc_enc entry]) retained in
      let gfx := engine_total (λ entry, [fc_gfx entry]) retained in
      let engine := video_engine (has_engine fc_dec retained) (has_engine fc_enc retained) in
      let client := video_members (share video now (video_baseline c)) engine
                    ++ when_some "gfx_busy_pct" json_f64 (share gfx now (gfx_baseline c)) in
      (Some (object [("rigsignal", object [("stream", object [("client", object client)])])]),
       {| last_scan := last_scan c; selected := Some p;
          video_baseline := rebased video now (video_baseline c); gfx_baseline := rebased gfx now (gfx_baseline c) |})
  end.

Definition PROC : string := "/proc".
Definition collect (e : SampleEnv) (c : StreamClientCollector) : option json * StreamClientCollector := sample_at_post PROC e c.
Fixpoint collects (es : list SampleEnv) (c : StreamClientCollector) : list (option json) * StreamClientCollector :=
  match es with
  | [] => ([], c)
  | e :: es =>
      let (doc, c) := collect e c in
      let (docs, c) := collects es c in
      (doc :: docs, c)
  end.
