(* ===== verification/StreamClientSpec.v ===== *)
(** * What the stream-client collector reports ([src/collectors/linux/stream_client.rs])

    Which process is watched, which counters are summed, and when a sample
    shows how busy an engine was. *)
From Stdlib Require Import Ascii Floats.SpecFloat Sorting.Sorted.
From S2P Require Import Prelude Float64 EsModel Json FileSystem GameScan Summary SummarySpec StreamClient.

(** ** Orders *)

(** What a derived order keeps. *)
Class Lawful {A : Type} (cmp : A → A → comparison) : Prop := {
  cmp_eq a b : cmp a b = Eq ↔ a = b;
  cmp_opp a b : cmp b a = CompOpp (cmp a b);
  cmp_trans a b c : cmp a b = Lt → cmp b c = Lt → cmp a c = Lt;
}.
#[export] Instance string_lawful : Lawful String.compare.
Proof.
  split; [|intros a b; apply String.compare_antisym|apply compare_lt_trans].
  intros a b. split; [apply String.compare_eq_iff|intros ->]. pose proof (String.compare_antisym b b) as Ha. by destruct (String.compare b b).
Qed.
#[export] Instance Z_lawful : Lawful Z.compare.
Proof. split; [apply Z.compare_eq_iff|intros a b; apply Z.compare_antisym|intros a b c; rewrite !Z.compare_lt_iff; lia]. Qed.
#[export] Instance option_lawful : Lawful option_cmp.
Proof.
  split.
  - intros [a|] [b|]; cbn; rewrite ?Z.compare_eq_iff; by naive_solver.
  - intros [a|] [b|]; try done. apply Z.compare_antisym.
  - intros [a|] [b|] [c|]; try done. cbn. rewrite !Z.compare_lt_iff. lia.
Qed.

(** Lexicographic order. *)
Definition lex {A B : Type} (f : A → A → comparison) (g : B → B → comparison) (x y : A * B) : comparison :=
  then_cmp (f (fst x) (fst y)) (g (snd x) (snd y)).
#[export] Instance lex_lawful {A B : Type} (f : A → A → comparison) (g : B → B → comparison) `{!Lawful f, !Lawful g} : Lawful (lex f g).
Proof.
  split; unfold lex.
  - intros [a b] [a' b']. cbn [fst snd]. destruct (f a a') eqn:E; cbn [then_cmp].
    + apply cmp_eq in E as ->. rewrite cmp_eq. naive_solver.
    + split; [done|]. intros [= -> ->]. by rewrite (proj2 (cmp_eq a' a') eq_refl) in E.
    + split; [done|]. intros [= -> ->]. by rewrite (proj2 (cmp_eq a' a') eq_refl) in E.
  - intros [a b] [a' b']. cbn [fst snd]. rewrite (cmp_opp a a'). destruct (f a a'); cbn; [apply cmp_opp|done..].
  - intros [a1 b1] [a2 b2] [a3 b3]. cbn [fst snd].
    destruct (f a1 a2) eqn:E1; cbn [then_cmp]; [apply cmp_eq in E1 as ->|..|done];
      (destruct (f a2 a3) eqn:E2; cbn [then_cmp]; [apply cmp_eq in E2 as ->|..|done]).
    + apply (cmp_trans (cmp := g)).
    + done.
    + by rewrite E1.
    + by rewrite (cmp_trans (cmp := f) _ _ _ E1 E2).
Qed.

#[export] Instance fd_lawful : Lawful fd_cmp.
Proof.
  pose (l1 := lex String.compare String.compare). pose (l2 := lex String.compare (lex option_cmp (lex option_cmp option_cmp))).
  assert (H1 : ∀ p c p' c', fd_cmp (Client p c) (Client p' c') = l1 (p, c) (p', c')) by done.
  assert (H2 : ∀ p d e g p' d' e' g', fd_cmp (Engines p d e g) (Engines p' d' e' g') = l2 (p, (d, (e, g))) (p', (d', (e', g')))) by done.
  assert (L1 : Lawful l1) by apply _. assert (L2 : Lawful l2) by apply _. clearbody l1 l2.
  split.
  - intros [] []; rewrite ?H1, ?H2, ?cmp_eq; naive_solver.
  - intros [] []; rewrite ?H1, ?H2; try done; apply cmp_opp.
  - intros [] [] []; rewrite ?H1, ?H2; try done; apply cmp_trans.
Qed.

(** ** One counter per identity *)

Definition id_lt (a b : FdCounters) : Prop := fd_cmp (fc_identity a) (fc_identity b) = Lt.

(** A retained list has every identity once, in order. *)
Definition retained_ok (l : list FdCounters) : Prop := StronglySorted id_lt l.
(** It has the entries of least descriptor. *)
Definition covers (l entries : list FdCounters) : Prop :=
  (∀ e, e ∈ l → e ∈ entries ∧ ∀ e', e' ∈ entries → fc_identity e' = fc_identity e → fc_fd e ≤ fc_fd e')
  ∧ ∀ e, e ∈ entries → ∃ e', e' ∈ l ∧ fc_identity e' = fc_identity e.

Lemma id_lt_ne a b : id_lt a b → fc_identity b ≠ fc_identity a.
Proof. unfold id_lt. intros Hlt Heq. rewrite Heq in Hlt. by rewrite (proj2 (cmp_eq _ _) eq_refl) in Hlt. Qed.

Lemma retain_elem entry l e : retained_ok l →
  e ∈ retain entry l ↔
  e ∈ l ∧ ¬ (fc_identity e = fc_identity entry ∧ fc_fd entry < fc_fd e)
  ∨ e = entry ∧ ∀ e', e' ∈ l → fc_identity e' = fc_identity entry → fc_fd entry < fc_fd e'.
Proof.
  unfold retained_ok. induction 1 as [|old l Hs IH Hall]; cbn [retain]; [set_solver|]. rewrite Forall_forall in Hall.
  assert (Hne : ∀ x, x ∈ l → fc_identity x ≠ fc_identity old) by (intros x Hx; by apply id_lt_ne, Hall).
  destruct (fd_cmp (fc_identity entry) (fc_identity old)) eqn:E.
  - apply cmp_eq in E. rewrite E. destruct (Z.leb_spec (fc_fd old) (fc_fd entry)) as [Hfd|Hfd]; rewrite !elem_of_cons.
    + split.
      * intros [->|He]; left; (split; [by auto|]); [lia|]. intros [Hid _]. by destruct (Hne e He).
      * intros [[He _]|[-> Hle]]; [done|]. specialize (Hle old ltac:(by left) eq_refl). lia.
    + split.
      * intros [->|He]; [right|left; split; [by auto|intros [Hid _]; by destruct (Hne e He)]].
        split; [done|]. intros e' [->|He']%elem_of_cons Hid; [done|by destruct (Hne e' He')].
      * intros [[[->|He] Hn]|[-> _]]; [by destruct Hn|by right|by left].
  - assert (Hgt : ∀ x, x ∈ old :: l → fc_identity x ≠ fc_identity entry).
    { intros x [->|Hx]%elem_of_cons; [by apply (id_lt_ne entry)|]. apply (id_lt_ne entry). unfold id_lt. eapply cmp_trans; [exact E|by apply Hall]. }
    rewrite elem_of_cons. split; [|intros [[He _]|[-> _]]; [by right|by left]]. intros [->|He]; [right|left].
    + split; [done|]. intros e' He' Hid. by destruct (Hgt e' He').
    + split; [done|]. intros [Hid _]. by destruct (Hgt e He).
  - assert (Ho : fc_identity old ≠ fc_identity entry).
    { intros Hid. rewrite Hid in E. by rewrite (proj2 (cmp_eq _ _) eq_refl) in E. }
    rewrite !elem_of_cons, IH. split.
    + intros [->|[[He Hn]|[-> Hle]]]; [left; by split; [left|intros [? _]]|left; by split; [right|]|right; split; [done|]].
      intros e' [->|He']%elem_of_cons Hid; [done|by apply Hle].
    + intros [[[->|He] Hn]|[-> Hle]]; [by left|by right; left|right; right; split; [done|]]. intros e' He'. apply Hle. by right.
Qed.
Lemma retain_sorted entry l : retained_ok l → retained_ok (retain entry l).
Proof.
  unfold retained_ok. induction 1 as [|old l Hs IH Hall]; cbn [retain]; [by repeat constructor|].
  destruct (fd_cmp (fc_identity entry) (fc_identity old)) eqn:E.
  - destruct (fc_fd old <=? fc_fd entry); [by constructor|]. constructor; [done|].
    eapply Forall_impl; [exact Hall|]. unfold id_lt. intros e. apply cmp_eq in E as ->. done.
  - constructor; [by constructor|]. constructor; [done|]. eapply Forall_impl; [exact Hall|]. intros e. by apply cmp_trans.
  - constructor; [done|]. rewrite Forall_forall. rewrite Forall_forall in Hall.
    intros e [[He _]|[-> _]]%retain_elem; [by apply Hall|unfold id_lt; by rewrite cmp_opp, E|done].
Qed.
Lemma retain_covers entry l entries : retained_ok l → covers l entries → covers (retain entry l) (entries ++ [entry]).
Proof.
  intros Hs [Hleast Hall]. split.
  - intros e [[He Hn]|[-> Hle]]%retain_elem; [| |done].
    + destruct (Hleast e He) as [Hin Hmin]. split; [by apply elem_of_app; left|].
      intros e' [He'| ->%list_elem_of_singleton]%elem_of_app Hid; [by apply Hmin|]. destruct (Z.le_gt_cases (fc_fd e) (fc_fd entry)); [done|by destruct Hn].
    + split; [by apply elem_of_app; right; left|]. intros e' [He'| ->%list_elem_of_singleton]%elem_of_app Hid; [|done].
      destruct (Hall e' He') as (x & Hx & Hxid). destruct (Hleast x Hx) as [_ Hmin]. specialize (Hmin e' He' (eq_sym Hxid)).
      specialize (Hle x Hx). rewrite Hxid in Hle. specialize (Hle Hid). lia.
  - assert (He : ∃ e', e' ∈ retain entry l ∧ fc_identity e' = fc_identity entry).
    { destruct (decide (Exists (λ x, fc_identity x = fc_identity entry ∧ fc_fd x ≤ fc_fd entry) l)) as [(x & Hx & Hid & Hfd)%Exists_exists|Hno].
      - exists x. split; [|done]. apply retain_elem; [done|]. left. split; [done|lia].
      - exists entry. split; [|done]. apply retain_elem; [done|]. right. split; [done|]. intros e' He' Hid.
        destruct (Z.le_gt_cases (fc_fd e') (fc_fd entry)); [|done]. destruct Hno. apply Exists_exists. by exists e'. }
    intros e [Hin| ->%list_elem_of_singleton]%elem_of_app; [|done]. destruct (decide (fc_identity e = fc_identity entry)) as [->|Hne]; [done|].
    destruct (Hall e Hin) as (x & Hx & Hid). exists x. split; [|done]. apply retain_elem; [done|]. left. split; [done|].
    intros [? _]. congruence.
Qed.

Lemma deduplicate_from l seen entries : retained_ok l → covers l seen →
  retained_ok (foldl (λ retained entry, retain entry retained) l entries)
  ∧ covers (foldl (λ retained entry, retain entry retained) l entries) (seen ++ entries).
Proof.
  revert l seen. induction entries as [|entry entries IH]; intros l seen Hs Hc; cbn [foldl]; [by rewrite app_nil_r|].
  rewrite (assoc_L (++) seen [entry] entries : seen ++ entry :: entries = _). apply IH; [by apply retain_sorted|by apply retain_covers].
Qed.

(** Every counter is summed once: of the descriptors that share an
    identity - client and device, or device and equal counters - exactly the
    lowest is kept, in the order of the identities. *)
Theorem deduplicate_exact entries :
  StronglySorted id_lt (deduplicate entries)
  ∧ (∀ e, e ∈ deduplicate entries → e ∈ entries ∧ ∀ e', e' ∈ entries → fc_identity e' = fc_identity e → fc_fd e ≤ fc_fd e')
  ∧ (∀ e, e ∈ entries → ∃ e', e' ∈ deduplicate entries ∧ fc_identity e' = fc_identity e).
Proof.
  destruct (deduplicate_from [] [] entries) as [Hs [Hleast Hall]]; [constructor|by split; intros ? ?%elem_of_nil|].
  by split_and!.
Qed.

(** ** The process *)

(** What a scan looks for. *)
Definition streaming (m : Machine) (root : string) (p : SelectedProcess) : Prop :=
  candidate_name m root (sp_pid p) = true ∧ starttime m root (sp_pid p) = Some (sp_starttime p).
Definition not_newer (p q : SelectedProcess) : Prop :=
  sp_starttime p < sp_starttime q ∨ sp_starttime p = sp_starttime q ∧ sp_pid p ≤ sp_pid q.

Lemma newer_false p q : newer p q = false ↔ not_newer p q.
Proof. unfold newer, not_newer. rewrite orb_false_iff, andb_false_iff, !Z.ltb_ge, Z.eqb_neq. lia. Qed.
Lemma newer_true p q : newer p q = true → not_newer q p.
Proof. unfold newer, not_newer. rewrite orb_true_iff, andb_true_iff, !Z.ltb_lt, Z.eqb_eq. lia. Qed.
Lemma not_newer_trans p q r : not_newer p q → not_newer q r → not_newer p r.
Proof. unfold not_newer. lia. Qed.

Definition candidate_at (m : Machine) (root : string) (pid : Z) : option SelectedProcess :=
  if candidate_name m root pid then (λ t, {| sp_pid := pid; sp_starttime := t |}) <$> starttime m root pid else None.
Definition pick (newest : option SelectedProcess) (candidate : SelectedProcess) : option SelectedProcess :=
  if is_none_or newest (newer candidate) then Some candidate else newest.

Lemma candidate_at_iff m root pid p : candidate_at m root pid = Some p ↔ sp_pid p = pid ∧ streaming m root p.
Proof.
  unfold candidate_at, streaming. destruct p as [pid' t]. cbn. split.
  - destruct (candidate_name m root pid) eqn:E; [|done]. intros (t' & Ht & [= -> ->])%fmap_Some. done.
  - intros (<- & -> & ->). done.
Qed.
Lemma newest_of_fold m root spent i pids old : (∀ j, (i ≤ j < i + length pids)%nat → spent j < DISCOVERY_BUDGET) →
  newest_of m root spent i pids old = foldl pick old (filter_map (candidate_at m root) pids).
Proof.
  revert i old. induction pids as [|pid pids IH]; intros i old Hb; [done|]. cbn [newest_of filter_map length] in *.
  rewrite (proj2 (Z.leb_gt _ _) (Hb i ltac:(lia))). unfold candidate_at at 1.
  assert (IH' : ∀ o, newest_of m root spent (S i) pids o = foldl pick o (filter_map (candidate_at m root) pids))
    by (intros o; apply IH; intros j Hj; apply Hb; lia).
  destruct (candidate_name m root pid); [|apply IH']. destruct (starttime m root pid); exact (IH' _).
Qed.
Lemma foldl_pick l old :
  match foldl pick old l with
  | Some p => (old = Some p ∨ p ∈ l) ∧ (∀ q, old = Some q → not_newer q p) ∧ ∀ q, q ∈ l → not_newer q p
  | None => old = None ∧ l = []
  end.
Proof.
  assert (Hrefl : ∀ p, not_newer p p) by (intros p; unfold not_newer; lia).
  revert old. induction l as [|x l IH]; intros old; cbn [foldl].
  - destruct old as [p|]; [|done]. split_and!; [by left|by intros q [= ->]|by intros q ?%elem_of_nil].
  - specialize (IH (pick old x)). assert (Hp : ∃ y, pick old x = Some y ∧ (old = Some y ∨ y = x) ∧ not_newer x y ∧ ∀ q, old = Some q → not_newer q y).
    { unfold pick. destruct old as [q|]; cbn [is_none_or]; [|exists x; split_and!; auto; done].
      destruct (newer x q) eqn:E; [exists x|exists q]; split_and!; auto; [|by apply newer_false|by intros ? [= ->]].
      intros ? [= <-]. by apply newer_true. }
    destruct Hp as (y & Hy & Hfrom & Hx & Hold). rewrite Hy in *. destruct (foldl pick (Some y) l) as [p|]; [|by destruct IH].
    destruct IH as (Hp & Hyp & Hl). specialize (Hyp y eq_refl). split_and!.
    + destruct Hp as [[= ->]|Hp]; [|right; by right]. destruct Hfrom as [->| ->]; [by left|right; by left].
    + intros q Hq. eapply not_newer_trans; [by apply Hold|done].
    + intros q [->|Hq]%elem_of_cons; [by eapply not_newer_trans|by apply Hl].
Qed.

(** A scan within its time budget selects the newest [streaming_client]
    among the processes it lists, the greater pid among equally old ones, and
    none when there is none. *)
Theorem scan_newest root e c :
  (∀ j, (j < length (scan_pids (se_scan e) root))%nat → se_spent e j < DISCOVERY_BUDGET) →
  match selected (scan root e c) with
  | Some p => sp_pid p ∈ scan_pids (se_scan e) root ∧ streaming (se_scan e) root p
              ∧ ∀ q, sp_pid q ∈ scan_pids (se_scan e) root → streaming (se_scan e) root q → not_newer q p
  | None => ∀ q, sp_pid q ∈ scan_pids (se_scan e) root → ¬ streaming (se_scan e) root q
  end.
Proof.
  intros Hb. unfold scan. cbn [selected]. set (pids := scan_pids _ _) in *. rewrite newest_of_fold by (intros j Hj; apply Hb; lia).
  assert (Hin : ∀ q, sp_pid q ∈ pids → streaming (se_scan e) root q → q ∈ filter_map (candidate_at (se_scan e) root) pids).
  { intros q Hq Hs. apply elem_of_filter_map. exists (sp_pid q). split; [done|]. by apply candidate_at_iff. }
  pose proof (foldl_pick (filter_map (candidate_at (se_scan e) root) pids) None) as Hp. destruct (foldl pick None _) as [p|].
  - destruct Hp as ([|(pid & Hpid & [<- Hs]%candidate_at_iff)%elem_of_filter_map] & _ & Hl); [done|]. split_and!; auto.
  - destruct Hp as [_ Hl]. intros q Hq Hs. specialize (Hin q Hq Hs). rewrite Hl in Hin. by apply elem_of_nil in Hin.
Qed.

(** ** The shares *)

(** What a sample reads of a process. *)
Definition kept (root : string) (e : SampleEnv) (p : SelectedProcess) : list FdCounters :=
  deduplicate (read_fdinfo (se_read e) root (sp_pid p)).
Definition identities_of (root : string) (e : SampleEnv) (p : SelectedProcess) : list BaselineIdentity :=
  stable_sort (λ a b, match baseline_cmp a b with Gt => false | _ => true end) (baseline_identity <$> kept root e p).
Inductive Engine := Video | Gfx.
Definition total_of (g : Engine) (root : string) (e : SampleEnv) (p : SelectedProcess) : option Z :=
  engine_total (λ entry, match g with Video => [fc_dec entry; fc_enc entry] | Gfx => [fc_gfx entry] end) (kept root e p).
Definition name_of (g : Engine) : string := match g with Video => "video_busy_pct" | Gfx => "gfx_busy_pct" end.
Definition baseline_of (g : Engine) (c : StreamClientCollector) : option Baseline :=
  match g with Video => video_baseline c | Gfx => gfx_baseline c end.
Definition client_member (name : string) (doc : option json) : option json :=
  and_then doc (json_path ["rigsignal"; "stream"; "client"; name]).

(** The process of the earlier sample is still there and reads the same
    counters, none of which has gone back, at a later time. *)
Definition comparable (root : string) (e1 e2 : SampleEnv) (p1 p2 : SelectedProcess) (t1 t2 : Z) : Prop :=
  p2 = p1 ∧ starttime (se_check e2) root (sp_pid p1) = Some (sp_starttime p1)
  ∧ identities_of root e2 p2 = identities_of root e1 p1 ∧ t1 ≤ t2 ∧ se_post e1 < se_post e2.
#[export] Instance comparable_dec root e1 e2 p1 p2 t1 t2 : Decision (comparable root e1 e2 p1 p2 t1 t2).
Proof. unfold comparable. apply _. Defined.

Lemma selected_process_kept root e c p : selected c = Some p → selected (selected_process root e c) = Some p →
  starttime (se_check e) root (sp_pid p) = Some (sp_starttime p) →
  video_baseline (selected_process root e c) = video_baseline c ∧ gfx_baseline (selected_process root e c) = gfx_baseline c.
Proof.
  unfold selected_process, forget_reused. intros Hc. rewrite Hc. intros Hs Ht. rewrite bool_decide_true in * by done.
  destruct (scan_due (se_now e) c); [|done]. unfold scan in *. cbn [selected video_baseline gfx_baseline] in *. rewrite Hs, Hc.
  by rewrite bool_decide_true.
Qed.
(** Without the check the baselines are gone. *)
Lemma selected_process_reused root e c p : selected c = Some p →
  starttime (se_check e) root (sp_pid p) ≠ Some (sp_starttime p) →
  video_baseline (selected_process root e c) = None ∧ gfx_baseline (selected_process root e c) = None.
Proof.
  unfold selected_process, forget_reused. intros -> Ht. rewrite bool_decide_false by done.
  destruct (scan_due _ _); [|done]. unfold scan. by case_bool_decide.
Qed.

Lemma selected_process_baseline g root e c :
  baseline_of g (selected_process root e c) = None ∨ baseline_of g (selected_process root e c) = baseline_of g c.
Proof.
  unfold selected_process, forget_reused, scan. destruct g, (selected c); cbn [baseline_of];
    repeat first [case_bool_decide|destruct (scan_due _ _)]; cbn; auto.
Qed.

Lemma video_engine_some retained t : engine_total (λ entry, [fc_dec entry; fc_enc entry]) retained = Some t →
  is_Some (video_engine (has_engine fc_dec retained) (has_engine fc_enc retained)).
Proof.
  unfold engine_total, has_engine. intros Ht.
  assert (Hn : existsb (λ e, match fc_dec e with Some _ => true | None => false end) retained = true
               ∨ existsb (λ e, match fc_enc e with Some _ => true | None => false end) retained = true).
  { induction retained as [|e l IH]; [done|]. cbn [existsb]. destruct (fc_dec e) eqn:Ed; [by left|]. destruct (fc_enc e) eqn:Ee; [by right|].
    apply IH. revert Ht. cbn. by rewrite Ed, Ee. }
  destruct (existsb _ _), (existsb _ _); try by eexists. by destruct Hn.
Qed.

(** A sample of a process: what it shows, and the baselines it leaves. *)
Lemma sample_fields root e c d c' p : sample_at_post root e c = (d, c') → selected c' = Some p →
  let c0 := selected_process root e c in
  let now t := {| bl_process := p; bl_identities := identities_of root e p; bl_total := t; bl_sampled_at := se_post e |} in
  selected c0 = Some p ∧ ∀ g, baseline_of g c' = rebased (total_of g root e p) now (baseline_of g c0)
    ∧ client_member (name_of g) d = json_f64 <$> share (total_of g root e p) now (baseline_of g c0).
Proof.
  unfold sample_at_post. cbv zeta. destruct (selected (selected_process root e c)) as [q|] eqn:Hq; [|by intros [= <- <-]; rewrite Hq].
  set (video := share _ _ (video_baseline _)). set (engine := video_engine _ _). set (gfx := share _ _ (gfx_baseline _)).
  intros [= <- <-] [= <-]. split; [done|]. intros g. split; [by destruct g|].
  transitivity (match g with Video => json_f64 <$> video | Gfx => json_f64 <$> gfx end); [|by destruct g].
  assert (He : is_Some video → is_Some engine).
  { unfold video, share. destruct (engine_total _ _) as [t|] eqn:Et; [|by intros [? ?]]. intros _. by eapply video_engine_some. }
  clearbody video engine gfx. destruct g, video, gfx, engine; try reflexivity; by destruct (He ltac:(by eexists)).
Qed.

(** How busy an engine was is shown exactly when two samples compare: after
    a sample that read the counters of a process, the next one that reads any
    shows the difference over the time between them if it is of the same process
    (by pid and start time, checked before), with the same descriptors, counters
    that have not gone back and a later clock; otherwise it shows nothing.  Both
    the decoding and encoding engines together and the graphics engine. *)
Theorem busy_exact g root e1 e2 c d1 c1 d2 c2 p1 p2 t1 t2 :
  sample_at_post root e1 c = (d1, c1) → selected c1 = Some p1 → total_of g root e1 p1 = Some t1 →
  sample_at_post root e2 c1 = (d2, c2) → selected c2 = Some p2 → total_of g root e2 p2 = Some t2 →
  client_member (name_of g) d2 =
    if decide (comparable root e1 e2 p1 p2 t1 t2) then Some (json_f64 (busy_pct (t2 - t1) (se_post e2 - se_post e1))) else None.
Proof.
  intros H1 Hs1 Ht1 H2 Hs2 Ht2. destruct (sample_fields _ _ _ _ _ _ H1 Hs1) as [_ Hb1]. destruct (Hb1 g) as [Hb _]. rewrite Ht1 in Hb.
  destruct (sample_fields _ _ _ _ _ _ H2 Hs2) as [Hs0 Hb2]. destruct (Hb2 g) as [_ ->]. rewrite Ht2. cbn [share and_then]. clear Hb1 Hb2.
  destruct (decide (starttime (se_check e2) root (sp_pid p1) = Some (sp_starttime p1))) as [Hck|Hck].
  - destruct (decide (p2 = p1)) as [->|Hne].
    + destruct (selected_process_kept root e2 c1 p1 Hs1 Hs0 Hck) as [Hv Hg].
      assert (Hbase : baseline_of g (selected_process root e2 c1) = baseline_of g c1) by by destruct g. rewrite Hbase, Hb. cbn [rebased].
      unfold delta_percent. cbn [and_then bl_process bl_identities bl_total bl_sampled_at]. rewrite bool_decide_true by done.
      case_bool_decide as Hid; cbn [negb orb].
      * destruct (Z.ltb_spec t2 t1); [by rewrite decide_False by (intros (_ & _ & _ & ? & _); lia)|].
        destruct (Z.ltb_spec (se_post e2) (se_post e1)); [by rewrite decide_False by (intros (_ & _ & _ & _ & ?); lia)|].
        destruct (Z.eqb_spec (se_post e2 - se_post e1) 0); [by rewrite decide_False by (intros (_ & _ & _ & _ & ?); lia)|].
        rewrite decide_True; [done|]. split_and!; [done..|lia|lia].
      * by rewrite decide_False by (intros (_ & _ & Hi & _); by rewrite Hi in Hid).
    + rewrite decide_False by (by intros [? _]).
      destruct (selected_process_baseline g root e2 c1) as [->| ->]; [done|]. rewrite Hb. cbn [rebased].
      unfold delta_percent. cbn [and_then bl_process]. by rewrite bool_decide_false by done.
  - destruct (selected_process_reused root e2 c1 p1 Hs1 Hck) as [Hv Hg].
    assert (Hbase : baseline_of g (selected_process root e2 c1) = None) by by destruct g. rewrite Hbase.
    by rewrite decide_False by (by intros (_ & ? & _)).
Qed.

(** ** Examples *)

Definition stream_stat (pid start : string) : string :=
  pid +:+ " (streaming_client) S 1 1 1 0 -1 4194304 1 1 1 1 1 1 1 1 20 0 1 0 " +:+ start +:+ " 1".
Definition nls : string := str1 nl.
(** A client of client 7 on one device that has spent [dec] and [gfx] nanoseconds. *)
Definition stream_machine (dec gfx : string) : Machine := {|
  read_bytes p :=
    if String.eqb p "/proc/42/comm" then Some ("streaming_client" +:+ nls)
    else if String.eqb p "/proc/42/stat" then Some (stream_stat "42" "900")
    else if String.eqb p "/proc/42/fdinfo/5" then
      Some ("drm-pdev: 0000:03:00.0" +:+ nls +:+ "drm-client-id: 7" +:+ nls +:+ "drm-engine-dec: " +:+ dec +:+ " ns" +:+ nls
            +:+ "drm-engine-gfx: " +:+ gfx +:+ " ns" +:+ nls)
    else if String.eqb p "/proc/42/fdinfo/9" then Some ("drm-pdev: 0000:03:00.0" +:+ nls +:+ "drm-client-id: 7" +:+ nls +:+ "drm-engine-dec: 1 ns")
    else None;
  read_link _ := None;
  list_dir p := if String.eqb p "/proc" then Some ["1"; "self"; "42"]
                else if String.eqb p "/proc/42/fdinfo" then Some ["9"; "5"; "x"] else None;
  path_exists _ := false; path_is_dir _ := false; canonicalize _ := None; var _ := None |}.
Definition stream_sample (sec : Z) (dec gfx : string) : SampleEnv := {|
  se_check := stream_machine dec gfx; se_scan := stream_machine dec gfx; se_read := stream_machine dec gfx; se_spent _ := 0;
  se_now := sec * 1000000000; se_post := sec * 1000000000 |}.
Definition stream_first : StreamClientCollector := snd (collect (stream_sample 1 "1000" "5") new_collector).

Lemma busy_exact_witness :
  client_member "video_busy_pct" (fst (collect (stream_sample 2 "250001000" "5") stream_first)) = Some (json_f64 (f64_of_Z 25)).
Proof.
  pose proof (busy_exact Video PROC (stream_sample 1 "1000" "5") (stream_sample 2 "250001000" "5") new_collector
    (fst (collect (stream_sample 1 "1000" "5") new_collector)) stream_first
    (fst (collect (stream_sample 2 "250001000" "5") stream_first)) (snd (collect (stream_sample 2 "250001000" "5") stream_first))
    {| sp_pid := 42; sp_starttime := 900 |} {| sp_pid := 42; sp_starttime := 900 |} 1000 250001000
    ltac:(vm_compute; reflexivity) ltac:(vm_compute; reflexivity) ltac:(vm_compute; reflexivity)
    ltac:(vm_compute; reflexivity) ltac:(vm_compute; reflexivity) ltac:(vm_compute; reflexivity)) as H.
  rewrite decide_True in H; [exact (eq_trans H ltac:(vm_compute; reflexivity))|].
  split_and!; vm_compute; done.
Defined.
Lemma scan_newest_witness :
  sp_pid <$> selected (scan PROC (stream_sample 1 "1" "1") new_collector) = Some 42
  ∧ streaming (stream_machine "1" "1") PROC {| sp_pid := 42; sp_starttime := 900 |}.
Proof.
  pose proof (scan_newest PROC (stream_sample 1 "1" "1") new_collector ltac:(intros; vm_compute; reflexivity)) as H.
  assert (E : selected (scan PROC (stream_sample 1 "1" "1") new_collector) = Some {| sp_pid := 42; sp_starttime := 900 |})
    by (vm_compute; reflexivity).
  rewrite E in *. split; [reflexivity|exact (proj1 (proj2 H))].
Defined.
