(* ===== verification/MangoHud.v ===== *)
(** * MangoHud frame logs ([src/collectors/linux/mangohud.rs])

    Choosing the newest CSV log, reading what it has grown by, and the frame
    statistics of a tick.  What the directory and the opened file show is an
    argument of each tick; instants are nanoseconds. *)
From Stdlib Require Import Ascii Floats.SpecFloat.
From S2P Require Import Prelude Float64 EsModel Json FileSystem GameScan Profiles Summary.

Definition LOG_DIR_PRIMARY : string := ".local/share/MangoHud".
Definition LOG_DIR_FALLBACK : string := "/tmp/MangoHud".
(** Five seconds. *)
Definition CHECK_INTERVAL : Z := 5000000000.

(** ** Data *)

Record MangoHudCollector := {
  mh_game_pid : option Z;
  mh_log_dir : string;
  mh_log_path : option string;
  mh_file_pos : Z;
  mh_fps_col : option nat;
  mh_ft_col : option nat;
  mh_header_done : bool;
  mh_last_check : option Z;
  mh_last_mtime : option Z;
}.

(** A directory entry: its name, whether it is a regular file itself, and when
    what it names was modified. *)
Record LogEntry := { le_name : string; le_regular : bool; le_modified : option Z }.
(** The file that was opened. *)
Record OpenedLog := { ol_regular : bool; ol_owned : bool; ol_modified : option Z; ol_content : string }.
Record LogEnv := {
  lg_now : Z;
  lg_entries : option (list LogEntry);
  lg_open : string → option OpenedLog;
}.

(** ** Discovery *)

Definition find_log_dir (m : Machine) : string :=
  let home := unwrap_or (var m "HOME") "/root" in
  let primary := home +:+ "/" +:+ LOG_DIR_PRIMARY in
  if path_is_dir m primary then primary
  else if path_is_dir m LOG_DIR_FALLBACK then LOG_DIR_FALLBACK
  else primary.

Definition is_log (e : LogEntry) : bool := bool_decide (extension (le_name e) = Some "csv") && le_regular e.
Definition UNIX_EPOCH : Z := 0.
Definition modified_at (e : LogEntry) : Z := unwrap_or (le_modified e) UNIX_EPOCH.
(** [max_by_key] keeps the last of the greatest. *)
Definition newest_log (entries : list LogEntry) : option LogEntry :=
  foldl (λ best e, if is_none_or best (λ b, modified_at b <=? modified_at e) then Some e else best) None (List.filter is_log entries).
Definition latest_log (dir : string) (entries : option (list LogEntry)) : option string :=
  and_then entries (λ entries, (λ e, join_path dir (le_name e)) <$> newest_log entries).

(** ** Collector *)

Definition with_log_dir (game_pid : option Z) (log_dir : string) : MangoHudCollector :=
  {| mh_game_pid := game_pid; mh_log_dir := log_dir; mh_log_path := None; mh_file_pos := 0; mh_fps_col := None; mh_ft_col := None;
     mh_header_done := false; mh_last_check := None; mh_last_mtime := None |}.
Definition mango_new (m : Machine) (game_pid : option Z) : MangoHudCollector := with_log_dir game_pid (find_log_dir m).
Definition mango_set_game_pid (pid : option Z) (c : MangoHudCollector) : MangoHudCollector :=
  {| mh_game_pid := pid; mh_log_dir := mh_log_dir c; mh_log_path := mh_log_path c; mh_file_pos := mh_file_pos c; mh_fps_col := mh_fps_col c;
     mh_ft_col := mh_ft_col c; mh_header_done := mh_header_done c; mh_last_check := mh_last_check c; mh_last_mtime := mh_last_mtime c |}.

Definition checked (now : Z) (c : MangoHudCollector) : MangoHudCollector :=
  {| mh_game_pid := mh_game_pid c; mh_log_dir := mh_log_dir c; mh_log_path := mh_log_path c; mh_file_pos := mh_file_pos c; mh_fps_col := mh_fps_col c;
     mh_ft_col := mh_ft_col c; mh_header_done := mh_header_done c; mh_last_check := Some now; mh_last_mtime := mh_last_mtime c |}.
Definition switched (path : option string) (c : MangoHudCollector) : MangoHudCollector :=
  {| mh_game_pid := mh_game_pid c; mh_log_dir := mh_log_dir c; mh_log_path := path; mh_file_pos := 0; mh_fps_col := None; mh_ft_col := None;
     mh_header_done := false; mh_last_check := mh_last_check c; mh_last_mtime := None |}.
Definition maybe_switch_log (e : LogEnv) (c : MangoHudCollector) : MangoHudCollector :=
  if is_some_and (mh_last_check c) (λ last, Z.max 0 (lg_now e - last) <? CHECK_INTERVAL) then c
  else
    let c := checked (lg_now e) c in
    let latest := latest_log (mh_log_dir c) (lg_entries e) in
    if bool_decide (latest = mh_log_path c) then c else switched latest c.

(** ** Rows *)

Definition csv_row (line : string) : option (list string) :=
  let row := trim <$> split_char "," line in
  if forallb is_empty row then None else Some row.

Section mangohud.
Context `{Unicode}.

(** What the header has told: whether it was seen, and its two columns. *)
Record Header := { hd_done : bool; hd_fps : option nat; hd_ft : option nat }.
Definition header_row (row : list string) (h : Header) : Header :=
  match row with
  | first :: _ =>
      if String.eqb (uc_to_lowercase first) "fps" then
        let header := uc_to_lowercase <$> row in
        {| hd_done := true; hd_fps := position (String.eqb "fps") header; hd_ft := position (String.eqb "frametime") header |}
      else h
  | [] => h
  end.
Definition take_row (st : Header * list (list string)) (line : string) : Header * list (list string) :=
  match csv_row line with
  | None => st
  | Some row => if hd_done (fst st) then (fst st, snd st ++ [row]) else (header_row row (fst st), snd st)
  end.
Definition take_rows (chunk : string) (h : Header) : Header * list (list string) := foldl take_row (h, []) (lines chunk).

Definition header_of (c : MangoHudCollector) : Header := {| hd_done := mh_header_done c; hd_fps := mh_fps_col c; hd_ft := mh_ft_col c |}.
Definition with_read (h : Header) (pos : Z) (mtime : Z) (c : MangoHudCollector) : MangoHudCollector :=
  {| mh_game_pid := mh_game_pid c; mh_log_dir := mh_log_dir c; mh_log_path := mh_log_path c; mh_file_pos := pos; mh_fps_col := hd_fps h;
     mh_ft_col := hd_ft h; mh_header_done := hd_done h; mh_last_check := mh_last_check c; mh_last_mtime := Some mtime |}.

(** Reading to a string leaves it empty when the rest is no UTF-8, behind the
    rest. *)
Definition read_from (pos : Z) (content : string) : string :=
  let rest := drop_bytes (Z.to_nat pos) content in if is_utf8 rest then rest else EmptyString.
Definition read_new_rows (e : LogEnv) (c : MangoHudCollector) : list (list string) * MangoHudCollector :=
  match and_then (mh_log_path c) (lg_open e) with
  | None => ([], c)
  | Some f =>
      if negb (ol_regular f && ol_owned f) then ([], c)
      else
        let mtime := unwrap_or (ol_modified f) UNIX_EPOCH in
        let len := slen (ol_content f) in
        if bool_decide (mh_last_mtime c = Some mtime) && (len <=? mh_file_pos c) then ([], c)
        else
          let (h, rows) := take_rows (read_from (mh_file_pos c) (ol_content f)) (header_of c) in
          (rows, with_read h (Z.max (mh_file_pos c) len) mtime c)
  end.

(** ** Statistics *)

(** Frames below 1 fps and frame times above 200 ms are left out. *)
Definition frame_fps (fps_col : nat) (row : list string) : option f64 :=
  let! fps := and_then (row !! fps_col) parse_f64 in if f64_lt fps (f64_of_Z 1) then None else Some fps.
Definition frame_ft (ft_col : option nat) (row : list string) : option f64 :=
  let! col := ft_col in
  let! ft := and_then (row !! col) parse_f64 in
  if f64_lt f64_zero ft && f64_le ft (f64_of_Z 200) then Some ft else None.
Definition mango_percentile (sorted : list f64) (pct : f64) : f64 :=
  match sorted with
  | [] => f64_zero
  | _ =>
      let raw := add_i64 (as_i64_cast (f64_div (f64_mul (f64_of_Z (Z.of_nat (length sorted))) pct) (f64_of_Z 100))) (-1) in
      unwrap_or (sorted !! Nat.min (Z.to_nat (Z.max 0 raw)) (length sorted - 1)) f64_zero
  end.
Definition mean_to (scale : f64) (l : list f64) : f64 :=
  f64_div (f64_round (f64_mul (f64_div (f64_sum l) (f64_of_Z (Z.of_nat (length l)))) scale)) scale.
Definition squared (x : f64) : f64 := f64_mul x x.
Definition thousand : f64 := f64_of_Z 1000.
Definition variance_of (avg : f64) (l : list f64) : f64 :=
  f64_div (f64_round (f64_mul (f64_div (f64_sum ((λ x, squared (f64_sub x avg)) <$> l)) (f64_of_Z (Z.of_nat (length l)))) thousand)) thousand.
(** Frames of more than twice the mean time. *)
Definition stutters (avg : f64) (l : list f64) : Z := Z.of_nat (count (f64_lt (f64_mul (f64_of_Z 2) avg)) l).
Definition one_pct : f64 := f64_of_Z 1.
Definition tenth_pct : f64 := f64_lit 1 1.

Definition frametime_stats (ft_values : list f64) : list (string * json) :=
  match ft_values with
  | [] => [("stutter_count", json_i64 0)]
  | _ =>
      let avg := mean_to thousand ft_values in
      [("frametime_ms", json_f64 avg); ("frametime_variance", json_f64 (variance_of avg ft_values));
       ("stutter_count", json_i64 (stutters avg ft_values))]
  end.
Definition frame_doc (fps_values ft_values : list f64) : option json :=
  let! current := last fps_values in
  let sorted := stable_sort f64_ascending fps_values in
  Some (object [("rigsignal", object [("fps", object (
    [("current", json_i64 (as_i64_cast current)); ("avg_1s", json_f64 (mean_to ten fps_values));
     ("low_1pct", json_i64 (as_i64_cast (mango_percentile sorted one_pct)));
     ("low_01pct", json_i64 (as_i64_cast (mango_percentile sorted tenth_pct)))]
    ++ frametime_stats ft_values))])]).

(** The frame times of frames that count. *)
Definition frames (fps_col : nat) (ft_col : option nat) (rows : list (list string)) : list f64 * list f64 :=
  let kept := filter_map (λ row, (λ fps, (fps, row)) <$> frame_fps fps_col row) rows in
  (fst <$> kept, filter_map (λ k, frame_ft ft_col (snd k)) kept).

Definition mango_collect (e : LogEnv) (c : MangoHudCollector) : option json * MangoHudCollector :=
  let c := maybe_switch_log e c in
  let (rows, c) := read_new_rows e c in
  match mh_fps_col c, rows with
  | Some fps_col, _ :: _ =>
      let (fps_values, ft_values) := frames fps_col (mh_ft_col c) rows in
      (frame_doc fps_values ft_values, c)
  | _, _ => (None, c)
  end.
End mangohud.
