(* ===== verification/MangoHudSpec.v ===== *)
(** * What is read of MangoHud's logs ([src/collectors/linux/mangohud.rs])

    Which file is chosen, and that a log that grows by whole lines is read once
    and completely, however the ticks cut it. *)
From Stdlib Require Import Ascii Floats.SpecFloat.
From S2P Require Import Prelude Float64 EsModel Json FileSystem GameScan Profiles Summary MangoHud.

(** ** The newest log *)

Lemma newest_from entries best :
  match foldl (λ best e, if is_none_or best (λ b, modified_at b <=? modified_at e) then Some e else best) best entries with
  | Some e => (best = Some e ∨ e ∈ entries) ∧ (∀ b, best = Some b → modified_at b ≤ modified_at e) ∧ ∀ e', e' ∈ entries → modified_at e' ≤ modified_at e
  | None => best = None ∧ entries = []
  end.
Proof.
  revert best. induction entries as [|x entries IH]; intros best; cbn [foldl].
  - destruct best as [b|]; [|done]. split_and!; [by left|by intros ? [= ->]|by intros ? ?%elem_of_nil].
  - set (next := if is_none_or best (λ b, modified_at b <=? modified_at x) then Some x else best). specialize (IH next).
    assert (Hn : ∃ y, next = Some y ∧ (best = Some y ∨ y = x) ∧ modified_at x ≤ modified_at y ∧ ∀ b, best = Some b → modified_at b ≤ modified_at y).
    { unfold next. destruct best as [b|]; cbn [is_none_or]; [|by exists x; split_and!; [|right| |]].
      destruct (Z.leb_spec (modified_at b) (modified_at x)); [exists x|exists b]; (split_and!; [done|by auto|lia|]); intros ? [= <-]; lia. }
    destruct Hn as (y & Hy & Hfrom & Hx & Hb). clearbody next. subst next. destruct (foldl _ (Some y) entries) as [e|]; [|by destruct IH].
    destruct IH as (He & Hye & Hall). specialize (Hye y eq_refl). split_and!.
    + destruct He as [[= ->]|He]; [|by right; right]. destruct Hfrom as [->| ->]; [by left|by right; left].
    + intros b Hbest. specialize (Hb b Hbest). lia.
    + intros e' [->|He']%elem_of_cons; [lia|by apply Hall].
Qed.

(** The log that is read is a regular file of the directory that ends in
    [.csv] and was modified last among these; there is none only when there is no
    such file. *)
Theorem latest_log_newest dir entries :
  match latest_log dir (Some entries) with
  | Some path => ∃ e, e ∈ entries ∧ is_log e = true ∧ path = join_path dir (le_name e)
                      ∧ ∀ e', e' ∈ entries → is_log e' = true → modified_at e' ≤ modified_at e
  | None => ∀ e, e ∈ entries → is_log e = false
  end.
Proof.
  unfold latest_log, newest_log. cbn [and_then]. pose proof (newest_from (List.filter is_log entries) None) as Hn.
  assert (Hf : ∀ e, e ∈ List.filter is_log entries ↔ e ∈ entries ∧ is_log e = true)
    by (intros e; by rewrite list_elem_of_In, List.filter_In, <-list_elem_of_In).
  destruct (foldl _ None _) as [e|]; cbn [fmap option_fmap option_map].
  - destruct Hn as ([|[He Hl]%Hf] & _ & Hall); [done|]. exists e. split_and!; try done. intros e' He' Hl'. apply Hall, Hf. done.
  - destruct Hn as [_ Hnil]. intros e He. destruct (is_log e) eqn:El; [|done].
    assert (Hin : e ∈ List.filter is_log entries) by (by apply Hf). rewrite Hnil in Hin. by apply elem_of_nil in Hin.
Qed.

(** ** Growing logs *)

(** A log of whole lines. *)
Definition written (rows : list string) : string := concat_str ((λ l, l +:+ str1 nl) <$> rows).

Lemma written_app a b : written (a ++ b) = written a +:+ written b.
Proof. unfold written. by rewrite fmap_app, concat_str_app. Qed.
Lemma slen_written_cons l rows : slen (written (l :: rows)) = slen l + 1 + slen (written rows).
Proof. unfold written. cbn [fmap list_fmap concat_str]. rewrite !slen_app. reflexivity. Qed.

Lemma lines_written rows : Forall (λ l, has_nl l = false) rows → lines (written rows) = strip_suffix_cr <$> rows.
Proof.
  unfold lines. induction 1 as [|l rows Hl _ IH]; [done|]. unfold written in *. cbn [fmap list_fmap concat_str].
  replace ((l +:+ str1 nl) +:+ concat_str ((λ l, l +:+ str1 nl) <$> rows))
    with (l +:+ String nl (concat_str ((λ l, l +:+ str1 nl) <$> rows))) by exact (str_app_assoc l (str1 nl) _).
  rewrite split_char_at by exact Hl. cbn [fmap] in IH. rewrite <-IH.
  pose proof (split_char_nonempty nl (concat_str ((λ l, l +:+ str1 nl) <$> rows))) as Hne. cbn [fmap] in Hne.
  by destruct (split_char nl _).
Qed.

Section mangohud.
Context `{Unicode}.

Lemma take_row_acc h rows ls :
  foldl take_row (h, rows) ls = let (h', new) := foldl take_row (h, []) ls in (h', rows ++ new).
Proof.
  revert h rows. induction ls as [|l ls IH]; intros h rows; cbn [foldl]; [by rewrite app_nil_r|].
  unfold take_row at 2 4. cbn [fst snd]. destruct (csv_row l) as [row|]; [|apply IH].
  destruct (hd_done h); [|apply IH]. rewrite (IH h (rows ++ [row])), (IH h ([] ++ [row])).
  destruct (foldl take_row (h, []) ls). by rewrite app_assoc.
Qed.
Lemma take_rows_app a b h : Forall (λ l, has_nl l = false) (a ++ b) →
  take_rows (written (a ++ b)) h =
    let (h1, r1) := take_rows (written a) h in let (h2, r2) := take_rows (written b) h1 in (h2, r1 ++ r2).
Proof.
  intros Hn. pose proof Hn as [Ha Hb]%Forall_app. unfold take_rows. rewrite !lines_written by done. rewrite fmap_app, foldl_app.
  destruct (foldl take_row (h, []) (strip_suffix_cr <$> a)) as [h1 r1]. apply take_row_acc.
Qed.

(** One tick's reading. *)
Definition log_rows (e : LogEnv) (c : MangoHudCollector) : list (list string) * MangoHudCollector := read_new_rows e (maybe_switch_log e c).
Fixpoint log_ticks (es : list LogEnv) (c : MangoHudCollector) : list (list string) :=
  match es with [] => [] | e :: es => let (rows, c) := log_rows e c in rows ++ log_ticks es c end.

(** The newest log stays the same and is ours; each tick finds it longer by some
    whole lines. *)
Inductive grows (dir path : string) : list string → list (LogEnv * list string) → Prop :=
| grows_done sofar : grows dir path sofar []
| grows_tick sofar e new rest f :
    latest_log dir (lg_entries e) = Some path → lg_open e path = Some f → ol_regular f = true → ol_owned f = true →
    ol_content f = written (sofar ++ new) → Forall (λ l, has_nl l = false) new → is_utf8 (written new) = true →
    grows dir path (sofar ++ new) rest → grows dir path sofar ((e, new) :: rest).

Definition no_header : Header := {| hd_done := false; hd_fps := None; hd_ft := None |}.
(** The collector has read so far. *)
Record at_line (dir path : string) (sofar : list string) (c : MangoHudCollector) : Prop := {
  al_dir : mh_log_dir c = dir;
  al_path : mh_log_path c = Some path;
  al_pos : mh_file_pos c = slen (written sofar);
  al_header : header_of c = fst (take_rows (written sofar) no_header);
}.

Lemma switch_at_line dir path sofar e c : latest_log dir (lg_entries e) = Some path → at_line dir path sofar c → at_line dir path sofar (maybe_switch_log e c).
Proof.
  intros Hl [Hd Hp Hpos Hh]. unfold maybe_switch_log. destruct (is_some_and _ _); [done|]. cbv zeta. cbn [mh_log_dir checked].
  rewrite Hd, Hl. rewrite bool_decide_true; [done|]. cbn [checked mh_log_path]. by rewrite Hp.
Qed.
Lemma switch_first dir path e : latest_log dir (lg_entries e) = Some path → at_line dir path [] (maybe_switch_log e (with_log_dir None dir)).
Proof. intros Hl. unfold maybe_switch_log. cbn [mh_last_check with_log_dir is_some_and]. cbv zeta. cbn [mh_log_dir checked with_log_dir]. rewrite Hl. done. Qed.

Lemma read_at_line dir path sofar e new f c : at_line dir path sofar c → Forall (λ l, has_nl l = false) (sofar ++ new) →
  lg_open e path = Some f → ol_regular f = true → ol_owned f = true → ol_content f = written (sofar ++ new) → is_utf8 (written new) = true →
  let (rows, c') := read_new_rows e c in
  at_line dir path (sofar ++ new) c' ∧ snd (take_rows (written (sofar ++ new)) no_header) = snd (take_rows (written sofar) no_header) ++ rows.
Proof.
  intros [Hd Hp Hpos Hh] Hn Ho Hr Hw Hc Hu. unfold read_new_rows. rewrite Hp. cbn [and_then]. rewrite Ho, Hr, Hw, Hc, Hpos. cbn [andb negb]. cbv zeta.
  assert (Hle : slen (written (sofar ++ new)) = slen (written sofar) + slen (written new)) by by rewrite written_app, slen_app.
  destruct (bool_decide _ && _) eqn:Eb.
  - apply andb_true_iff in Eb as [_ Hle'%Z.leb_le]. assert (new = []) as ->.
    { destruct new as [|l new]; [done|]. rewrite Hle, slen_written_cons in Hle'. unfold slen in Hle'. lia. }
    rewrite !app_nil_r. done.
  - clear Eb. assert (Hread : read_from (slen (written sofar)) (written (sofar ++ new)) = written new).
    { unfold read_from. rewrite written_app. unfold slen. by rewrite Nat2Z.id, drop_bytes_app, Hu. }
    rewrite Hread, Hh, (take_rows_app sofar new) by done. destruct (take_rows (written sofar) no_header) as [h1 r1] eqn:E1. cbn [fst].
    destruct (take_rows (written new) h1) as [h2 r2] eqn:E2. cbn [snd]. split; [|done]. split; cbn [with_read mh_log_dir mh_log_path mh_file_pos]; try done.
    + rewrite Hle. unfold slen. lia.
    + rewrite take_rows_app by done. rewrite E1, E2. by destruct h2.
Qed.

Lemma log_ticks_at_line dir path sofar ticks c : at_line dir path sofar c → Forall (λ l, has_nl l = false) sofar → grows dir path sofar ticks →
  snd (take_rows (written (sofar ++ mjoin (snd <$> ticks))) no_header)
  = snd (take_rows (written sofar) no_header) ++ log_ticks (fst <$> ticks) c.
Proof.
  intros Hc Hn Hg. revert c Hc Hn. induction Hg as [sofar|sofar e new rest f Hl Ho Hr Hw Hct Hnew Hu _ IH]; intros c Hc Hn.
  - cbn. by rewrite !app_nil_r.
  - change (mjoin (snd <$> (e, new) :: rest)) with (new ++ mjoin (snd <$> rest)). cbn [fmap list_fmap fst log_ticks]. unfold log_rows.
    pose proof (read_at_line dir path sofar e new f (maybe_switch_log e c) (switch_at_line _ _ _ _ _ Hl Hc)
      ltac:(by apply Forall_app) Ho Hr Hw Hct Hu) as Hread.
    destruct (read_new_rows e (maybe_switch_log e c)) as [rows c']. destruct Hread as [Hc' Hrows].
    rewrite (assoc_L (++) sofar new). rewrite (IH c' Hc' ltac:(by apply Forall_app)), Hrows. by rewrite app_assoc.
Qed.
End mangohud.

(** C31: A log that grows by whole lines is read once and completely: whatever
    the ticks find it grown by, the rows they read are, together and in order,
    the rows of the whole log read at once, with the columns of its header. *)
Theorem log_read_once `{Unicode} dir path first new rest :
  grows dir path [] ((first, new) :: rest) →
  log_ticks (fst <$> (first, new) :: rest) (with_log_dir None dir)
  = snd (take_rows (written (new ++ mjoin (snd <$> rest))) no_header).
Proof.
  intros Hg. inversion Hg as [|? ? ? ? f Hl Ho Hr Hw Hct Hnew Hu Hrest]; subst.
  cbn [fmap list_fmap fst log_ticks]. unfold log_rows.
  pose proof (read_at_line dir path [] first new f _ (switch_first dir path first Hl) ltac:(done) Ho Hr Hw Hct Hu) as Hread.
  destruct (read_new_rows first _) as [rows c']. destruct Hread as [Hc' Hrows].
  pose proof (log_ticks_at_line dir path new rest c' Hc' Hnew Hrest) as Hall. cbn [app] in *. by rewrite Hall, Hrows.
Qed.

(** ** Examples *)

Definition log_dir : string := "/home/p/.local/share/MangoHud".
Definition log_env (sec : Z) (content : string) : LogEnv := {|
  lg_now := sec * 1000000000;
  lg_entries := Some [{| le_name := "old.csv"; le_regular := true; le_modified := Some 1 |};
                      {| le_name := "game.csv"; le_regular := true; le_modified := Some 5 |};
                      {| le_name := "pipe.csv"; le_regular := false; le_modified := Some 9 |}];
  lg_open p := if String.eqb p (join_path log_dir "game.csv")
               then Some {| ol_regular := true; ol_owned := true; ol_modified := Some sec; ol_content := content |} else None |}.
Definition header_lines : list string := ["os,cpu"; "CachyOS,x"; "fps,frametime,cpu_load"].
Definition first_frames : list string := ["60.0,16.6,3"; "144,6.9,4"].
Definition growth : list (LogEnv * list string) :=
  [(log_env 1 (written (header_lines ++ ["30,33.3,1"])), header_lines ++ ["30,33.3,1"]);
   (log_env 2 (written ((header_lines ++ ["30,33.3,1"]) ++ first_frames)), first_frames)].

Lemma log_read_once_witness :
  @log_ticks ascii_unicode (fst <$> growth) (with_log_dir None log_dir)
  = [["30"; "33.3"; "1"]; ["60.0"; "16.6"; "3"]; ["144"; "6.9"; "4"]].
Proof.
  transitivity (snd (@take_rows ascii_unicode (written ((header_lines ++ ["30,33.3,1"]) ++ first_frames)) no_header)).
  - unfold growth. apply (@log_read_once ascii_unicode log_dir (join_path log_dir "game.csv")
      (log_env 1 (written (header_lines ++ ["30,33.3,1"]))) (header_lines ++ ["30,33.3,1"])
      [(log_env 2 (written ((header_lines ++ ["30,33.3,1"]) ++ first_frames)), first_frames)]).
    eapply grows_tick; [vm_compute; reflexivity|vm_compute; reflexivity|reflexivity|reflexivity|reflexivity|repeat constructor|vm_compute; reflexivity|].
    eapply grows_tick; [vm_compute; reflexivity|vm_compute; reflexivity|reflexivity|reflexivity|reflexivity|repeat constructor|vm_compute; reflexivity|].
    constructor.
  - vm_compute. reflexivity.
Defined.

(** A line that is still being written is read in two: the row of 144 frames is
    seen as one of 14 and one of 4. *)
Lemma torn_row :
  @log_ticks ascii_unicode [log_env 1 (written header_lines +:+ "14"); log_env 2 (written (header_lines ++ ["144,6.9,4"]))] (with_log_dir None log_dir)
  = [["14"]; ["4"; "6.9"; "4"]].
Proof. vm_compute. reflexivity. Qed.
