(* ===== verification/Gamescope.v ===== *)
(** * Frames from Gamescope ([src/collectors/linux/gamescope.rs])

    The choice of a stats pipe, the reader thread, and the collector that shares
    its samples with it.  The thread's steps and the collector's calls interleave
    over a common state: a step of the thread is what it does between two looks at
    the stop flag.  What the runtime directory and the pipe show is an argument of
    each step; instants are nanoseconds. *)
From Stdlib Require Import Ascii Floats.SpecFloat.
From S2P Require Import Prelude Float64 EsModel Json FileSystem GameScan Profiles Summary MangoHud.

Definition MILLIS : Z := 1000000.
Definition RESOLVE_INTERVAL : Z := 5000 * MILLIS.
Definition DEMOTION_WINDOW : Z := 1000 * MILLIS.
Definition REOPEN_BACKOFF_INITIAL : Z := 100 * MILLIS.
Definition REOPEN_BACKOFF_MAX : Z := 1000 * MILLIS.
Definition WRITER_RENDEZVOUS_WAIT : Z := 25 * MILLIS.
Definition WOULD_BLOCK_WAIT : Z := 25 * MILLIS.
Definition NO_CANDIDATE_WAIT : Z := 1000 * MILLIS.

(** ** The runtime directory *)

Record StatsPipeCandidate := { sc_kind : string; sc_session : string; sc_path : string }.

(** The directory itself, opened without following; [stats.pipe] in a session
    directory that could be entered without following; the link
    [gamescope-stats]; the listing. *)
Record DirMeta := { dm_is_dir : bool; dm_uid : Z }.
Record PipeMeta := { pm_is_fifo : bool; pm_uid : Z; pm_mtime : Z }.
Record RuntimeView := {
  rv_runtime : option DirMeta;
  rv_session : string → bool;
  rv_pipe : string → option PipeMeta;
  rv_link : option string;
  rv_entries : option (list (string * bool));
}.

Definition uid (m : Machine) : Z :=
  unwrap_or
    (let! status := read_text m "/proc/self/status" in
     let! line := List.find (starts_with "Uid:") (lines status) in
     and_then (split_whitespace line !! 1%nat) parse_u32) 1000.
Definition runtime_dir (m : Machine) : string :=
  match var m "XDG_RUNTIME_DIR" with Some dir => dir | None => "/run/user/" +:+ show (uid m) end.

Definition valid_session_name (name : string) : bool := is_utf8 name && starts_with "gamescope." name.
Definition valid_preferred_session_target (target : string) : bool :=
  negb (any_byte (λ c, Ascii.eqb c "/") target) && valid_session_name target.

Definition open_runtime_dir (v : RuntimeView) (expected_uid : Z) : bool :=
  is_some_and (rv_runtime v) (λ d, dm_is_dir d && (dm_uid d =? expected_uid)).
(** A name with a NUL is opened nowhere. *)
Definition has_nul (name : string) : bool := any_byte (λ c, Ascii.eqb c "000") name.
Definition enter_session (v : RuntimeView) (session : string) : bool := negb (has_nul session) && rv_session v session.

Definition open_stats_pipe (v : RuntimeView) (session : string) (expected_uid : Z) : bool :=
  valid_session_name session && open_runtime_dir v expected_uid && enter_session v session
  && is_some_and (rv_pipe v session) (λ p, pm_is_fifo p && (pm_uid p =? expected_uid)).
Definition rankable_stats_pipe (v : RuntimeView) (session : string) : option Z :=
  if enter_session v session then
    let! p := rv_pipe v session in
    if pm_is_fifo p then Some (pm_mtime p) else None
  else None.

Definition candidate (run_dir kind session : string) : StatsPipeCandidate :=
  {| sc_kind := kind; sc_session := session; sc_path := join_path (join_path run_dir session) "stats.pipe" |}.
(** The later first, then by name. *)
Definition ranks_before (a b : Z * string) : bool :=
  (fst b <? fst a) || (fst a =? fst b) && match String.compare (snd a) (snd b) with Gt => false | _ => true end.
Definition preferred_session (v : RuntimeView) : option string :=
  let! target := rv_link v in
  if valid_preferred_session_target target then
    match rankable_stats_pipe v target with Some _ => Some target | None => None end
  else None.
Definition ranked_sessions (v : RuntimeView) : list (Z * string) :=
  let preferred := preferred_session v in
  stable_sort ranks_before
    (filter_map (λ entry : string * bool,
       if valid_session_name (fst entry) && snd entry && negb (bool_decide (preferred = Some (fst entry))) then
         (λ modified, (modified, fst entry)) <$> rankable_stats_pipe v (fst entry)
       else None) (unwrap_or (rv_entries v) [])).
Definition stats_pipe_candidates (run_dir : string) (expected_uid : Z) (v : RuntimeView) : list StatsPipeCandidate :=
  if open_runtime_dir v expected_uid then
    (candidate run_dir "gamescope-stats symlink" <$> option_list (preferred_session v))
    ++ ((λ s, candidate run_dir "gamescope directory" (snd s)) <$> ranked_sessions v)
  else [].
Definition find_stats_pipe (m : Machine) (euid : Z) (v : RuntimeView) : option string :=
  sc_path <$> head (stats_pipe_candidates (runtime_dir m) euid v).

(** ** Statistics *)

Definition scope_percentile (sorted : list f64) (pct : f64) : f64 :=
  match sorted with
  | [] => f64_zero
  | _ =>
      let idx := as_usize (f64_mul (f64_div pct hundred) (f64_of_Z (Z.of_nat (length sorted)))) in
      unwrap_or (sorted !! Nat.min (Z.to_nat idx) (length sorted - 1)) f64_zero
  end.
Definition scope_frametimes (fps_values : list f64) : list f64 :=
  (λ fps, f64_div thousand fps) <$> List.filter (f64_lt f64_zero) fps_values.
Definition scope_frametime_stats (ft_values : list f64) : list (string * json) :=
  match ft_values with
  | [] => [("stutter_count", json_i64 0)]
  | _ => let avg := mean_to thousand ft_values in [("frametime_ms", json_f64 avg); ("stutter_count", json_i64 (stutters avg ft_values))]
  end.
Definition scope_doc (fps_values : list f64) : option json :=
  let! current := last fps_values in
  let sorted := stable_sort f64_ascending fps_values in
  Some (object [("rigsignal", object [("fps", object (
    [("current", json_i64 (as_i64_cast current)); ("avg_1s", json_f64 (mean_to ten fps_values));
     ("low_1pct", json_i64 (as_i64_cast (scope_percentile sorted one_pct)));
     ("low_01pct", json_i64 (as_i64_cast (scope_percentile sorted tenth_pct)))]
    ++ scope_frametime_stats (scope_frametimes fps_values)))])]).

(** ** The reader thread *)

(** Where it is: before the next look for a pipe; with a pipe open, before the
    stop flag or past it, and the frame rate that waits for its focus. *)
Inductive Phase :=
| Seeking
| Reading (c : StatsPipeCandidate) (armed : bool) (pending_fps : option f64).
Record Reader := {
  rd_phase : Phase;
  rd_demoted_until : gmap string Z;
  rd_failed : gset string;
  rd_backoff : Z;
  rd_last_attached : option string;
  (** until when it sleeps *)
  rd_wake : Z;
}.
Definition new_reader : Reader :=
  {| rd_phase := Seeking; rd_demoted_until := ∅; rd_failed := ∅; rd_backoff := REOPEN_BACKOFF_INITIAL; rd_last_attached := None; rd_wake := 0 |}.

Inductive ReadResult := Eof | Line (line : string) | WouldBlock | ReadFailed.
(** What a step of the thread meets: the clock, the directory when it looks for
    candidates and when it opens one, what a read gives. *)
Record ReaderEnv := { re_now : Z; re_euid : Z; re_view : RuntimeView; re_open : RuntimeView; re_read : ReadResult }.

Definition doubled (backoff : Z) : Z := Z.min (backoff * 2) REOPEN_BACKOFF_MAX.
Definition with_phase (phase : Phase) (wake : Z) (r : Reader) : Reader :=
  {| rd_phase := phase; rd_demoted_until := rd_demoted_until r; rd_failed := rd_failed r; rd_backoff := rd_backoff r;
     rd_last_attached := rd_last_attached r; rd_wake := wake |}.

Definition still_demoted (now : Z) (demoted : gmap string Z) : gmap string Z := base.filter (λ kv : string * Z, now < kv.2) demoted.
Definition look (run_dir : string) (e : ReaderEnv) (r : Reader) : Reader :=
  let demoted := still_demoted (re_now e) (rd_demoted_until r) in
  let r := {| rd_phase := Seeking; rd_demoted_until := demoted; rd_failed := rd_failed r; rd_backoff := rd_backoff r;
              rd_last_attached := rd_last_attached r; rd_wake := rd_wake r |} in
  match List.find (λ c, bool_decide (demoted !! sc_path c = None)) (stats_pipe_candidates run_dir (re_euid e) (re_view e)) with
  | None => with_phase Seeking (re_now e + NO_CANDIDATE_WAIT) r
  | Some c =>
      if open_stats_pipe (re_open e) (sc_session c) (re_euid e) then
        with_phase (Reading c false None) (re_now e + WRITER_RENDEZVOUS_WAIT) r
      else
        {| rd_phase := Seeking; rd_demoted_until := demoted; rd_failed := {[sc_path c]} ∪ rd_failed r; rd_backoff := doubled (rd_backoff r);
           rd_last_attached := rd_last_attached r; rd_wake := re_now e + rd_backoff r |}
  end.

(** What a line makes of the frame rate that waits, and the sample it gives. *)
Definition focus_line (app_id : option string) (pending : option f64) (line : string) : option f64 * option f64 :=
  match strip_prefix "fps=" line with
  | Some value => (parse_f64 (trim value), None)
  | None =>
      match strip_prefix "focus=" line with
      | Some focus =>
          match pending with
          | Some fps =>
              (None, if is_some_and app_id (String.eqb (trim focus)) && f64_le (f64_of_Z 1) fps then Some fps else None)
          | None => (None, None)
          end
      | None => (pending, None)
      end
  end.

Definition lost (c : StatsPipeCandidate) (demoted : gmap string Z) (now : Z) (r : Reader) : Reader :=
  {| rd_phase := Seeking; rd_demoted_until := demoted; rd_failed := {[sc_path c]} ∪ rd_failed r; rd_backoff := doubled (rd_backoff r);
     rd_last_attached := rd_last_attached r; rd_wake := now + rd_backoff r |}.
(** A read: the reader, the attachment, and the sample it adds. *)
Definition read_step (e : ReaderEnv) (app_id : option string) (c : StatsPipeCandidate) (pending : option f64) (attached : bool) (r : Reader)
  : Reader * bool * option f64 :=
  match re_read e with
  | Eof => (lost c (<[sc_path c := re_now e + DEMOTION_WINDOW]> (rd_demoted_until r)) (re_now e) r, false, None)
  | Line line =>
      let (pending, sample) := focus_line app_id pending line in
      ({| rd_phase := Reading c false pending; rd_demoted_until := rd_demoted_until r; rd_failed := rd_failed r ∖ {[sc_path c]};
          rd_backoff := REOPEN_BACKOFF_INITIAL; rd_last_attached := Some (sc_path c); rd_wake := rd_wake r |}, true, sample)
  | WouldBlock => (with_phase (Reading c false pending) (re_now e + WOULD_BLOCK_WAIT) r, attached, None)
  | ReadFailed => (lost c (rd_demoted_until r) (re_now e) r, false, None)
  end.

(** ** The collector *)

Record ReaderHandle := { rh_stop : bool; rh_finished : bool; rh_reader : Reader }.
Record FrameCollector := {
  fc_mango : MangoHudCollector;
  fc_runtime_dir : string;
  fc_app_id : option string;
  fc_samples : list f64;
  fc_attached : bool;
  fc_reader : option ReaderHandle;
  fc_game_active : bool;
  fc_candidate_present : bool;
  fc_last_resolve : option Z;
}.
Definition with_runtime_dir (mango : MangoHudCollector) (dir : string) : FrameCollector :=
  {| fc_mango := mango; fc_runtime_dir := dir; fc_app_id := None; fc_samples := []; fc_attached := false; fc_reader := None;
     fc_game_active := false; fc_candidate_present := false; fc_last_resolve := None |}.

Definition with_reader (reader : option ReaderHandle) (attached : bool) (samples : list f64) (w : FrameCollector) : FrameCollector :=
  {| fc_mango := fc_mango w; fc_runtime_dir := fc_runtime_dir w; fc_app_id := fc_app_id w; fc_samples := samples; fc_attached := attached;
     fc_reader := reader; fc_game_active := fc_game_active w; fc_candidate_present := fc_candidate_present w; fc_last_resolve := fc_last_resolve w |}.
(** A step of the thread: at the top of either loop it looks at the stop flag,
    as it does while it sleeps. *)
Definition reader_step (e : ReaderEnv) (w : FrameCollector) : FrameCollector :=
  match fc_reader w with
  | None => w
  | Some h =>
      let r := rh_reader h in
      let put r attached samples := with_reader (Some {| rh_stop := rh_stop h; rh_finished := rh_finished h; rh_reader := r |}) attached samples w in
      let finish := with_reader (Some {| rh_stop := rh_stop h; rh_finished := true; rh_reader := r |}) (fc_attached w) (fc_samples w) w in
      if rh_finished h then w
      else
        match rd_phase r with
        | Reading c true pending =>
            let '(r, attached, sample) := read_step e (fc_app_id w) c pending (fc_attached w) r in
            put r attached (fc_samples w ++ option_list sample)
        | _ =>
            if rh_stop h then finish
            else if re_now e <? rd_wake r then w
            else match rd_phase r with
                 | Reading c _ pending => put (with_phase (Reading c true pending) (rd_wake r) r) (fc_attached w) (fc_samples w)
                 | Seeking => put (look (fc_runtime_dir w) e r) (fc_attached w) (fc_samples w)
                 end
        end
  end.

Definition with_source (reader : option ReaderHandle) (present : bool) (last_resolve : option Z) (w : FrameCollector) : FrameCollector :=
  {| fc_mango := fc_mango w; fc_runtime_dir := fc_runtime_dir w; fc_app_id := fc_app_id w; fc_samples := fc_samples w;
     fc_attached := fc_attached w; fc_reader := reader; fc_game_active := fc_game_active w; fc_candidate_present := present;
     fc_last_resolve := last_resolve |}.
Definition reap_reader (w : FrameCollector) : FrameCollector :=
  if is_some_and (fc_reader w) rh_finished then with_source None (fc_candidate_present w) (fc_last_resolve w) w else w.
Definition start_reader : option ReaderHandle := Some {| rh_stop := false; rh_finished := false; rh_reader := new_reader |}.

(** What the collector meets: clock, user, directory, logs. *)
Record FrameEnv := { fe_now : Z; fe_euid : Z; fe_view : RuntimeView; fe_log : LogEnv }.
Definition maybe_resolve_source (e : FrameEnv) (force : bool) (w : FrameCollector) : FrameCollector :=
  let w := reap_reader w in
  if negb (fc_game_active w) then with_source (fc_reader w) false (fc_last_resolve w) w
  else if negb force && is_some_and (fc_last_resolve w) (λ last, Z.max 0 (fe_now e - last) <? RESOLVE_INTERVAL) then w
  else
    let present := match stats_pipe_candidates (fc_runtime_dir w) (fe_euid e) (fe_view e) with [] => false | _ => true end in
    with_source (match fc_reader w with None => if present then start_reader else None | reader => reader end)
      present (Some (fe_now e)) w.

Definition stopped (h : ReaderHandle) : ReaderHandle := {| rh_stop := true; rh_finished := rh_finished h; rh_reader := rh_reader h |}.
Definition stop_reader (w : FrameCollector) : FrameCollector := with_reader (stopped <$> fc_reader w) false (fc_samples w) w.

Definition with_game (mango : MangoHudCollector) (app_id : option string) (active : bool) (w : FrameCollector) : FrameCollector :=
  {| fc_mango := mango; fc_runtime_dir := fc_runtime_dir w; fc_app_id := app_id; fc_samples := fc_samples w; fc_attached := fc_attached w;
     fc_reader := fc_reader w; fc_game_active := active; fc_candidate_present := fc_candidate_present w; fc_last_resolve := fc_last_resolve w |}.
Definition steam_app_id (environ : option string) : option string :=
  let! entry := List.find (starts_with "SteamAppId=") (split_char "000" (unwrap_or environ EmptyString)) in strip_prefix "SteamAppId=" entry.
(** [environ]: the text of the game's environment. *)
Definition frame_set_game_pid (e : FrameEnv) (environ : option string) (game_pid : option Z) (w : FrameCollector) : FrameCollector :=
  let mango := mango_set_game_pid game_pid (fc_mango w) in
  match game_pid with
  | Some _ => maybe_resolve_source e true (with_game mango (steam_app_id environ) true w)
  | None => stop_reader (with_game mango None false w)
  end.

Definition collect_gamescope (w : FrameCollector) : option json * FrameCollector :=
  (scope_doc (fc_samples w), with_reader (fc_reader w) (fc_attached w) [] w).
Section collect.
Context `{Unicode}.
Definition frame_collect (e : FrameEnv) (w : FrameCollector) : option json * FrameCollector :=
  let w := maybe_resolve_source e false w in
  if fc_candidate_present w || fc_attached w then collect_gamescope w
  else let (doc, mango) := mango_collect (fe_log e) (fc_mango w) in (doc, with_game mango (fc_app_id w) (fc_game_active w) w).

(** ** Interleavings *)

Inductive FrameOp :=
| ReaderStep (e : ReaderEnv)
| SetGamePid (e : FrameEnv) (environ : option string) (game_pid : option Z)
| Collect (e : FrameEnv).
Definition frame_op (op : FrameOp) (w : FrameCollector) : list (option json) * FrameCollector :=
  match op with
  | ReaderStep e => ([], reader_step e w)
  | SetGamePid e environ game_pid => ([], frame_set_game_pid e environ game_pid w)
  | Collect e => let (doc, w) := frame_collect e w in ([doc], w)
  end.
Fixpoint frame_ops (ops : list FrameOp) (w : FrameCollector) : list (option json) * FrameCollector :=
  match ops with
  | [] => ([], w)
  | op :: ops =>
      let (docs, w) := frame_op op w in
      let (more, w) := frame_ops ops w in
      (docs ++ more, w)
  end.
End collect.
