(* ===== verification/GamescopeSpec.v ===== *)
(** * What the frame collector guarantees ([src/collectors/linux/gamescope.rs])

    Which pipes are candidates, that every sample of the focused game is in
    exactly one document, and how the reader waits. *)
From Stdlib Require Import Ascii Floats.SpecFloat Sorting.Sorted.
From S2P Require Import Prelude Float64 EsModel Json FileSystem GameScan Profiles Summary SummarySpec MangoHud Gamescope.

(** ** Candidates *)

Lemma ranks_before_total a b : ranks_before a b = false → ranks_before b a = true.
Proof.
  unfold ranks_before. rewrite orb_false_iff, andb_false_iff, Z.ltb_ge, Z.eqb_neq. intros [Hle Hc]. rewrite orb_true_iff, andb_true_iff, Z.ltb_lt, Z.eqb_eq.
  destruct (Z.eq_dec (fst a) (fst b)) as [He|]; [|left; lia]. right. split; [done|]. destruct Hc as [|Hc]; [done|].
  rewrite String.compare_antisym. destruct (String.compare (snd a) (snd b)); done.
Qed.

(** What a session must be to be ranked. *)
Definition rankable (v : RuntimeView) (session : string) (modified : Z) : Prop :=
  enter_session v session = true ∧ ∃ p, rv_pipe v session = Some p ∧ pm_is_fifo p = true ∧ pm_mtime p = modified.
Lemma rankable_iff v session modified : rankable_stats_pipe v session = Some modified ↔ rankable v session modified.
Proof.
  unfold rankable_stats_pipe, rankable. destruct (enter_session v session); [|by split; [|intros [? _]]].
  destruct (rv_pipe v session) as [p|]; [|by split; [|intros (_ & p & ? & _)]]. cbn [and_then]. destruct (pm_is_fifo p) eqn:E.
  - split; [intros [= <-]; split; [done|by exists p]|]. by intros (_ & q & [= <-] & _ & <-).
  - split; [done|]. intros (_ & q & [= <-] & Hq & _). by rewrite E in Hq.
Qed.

Lemma preferred_iff v session :
  preferred_session v = Some session ↔
  rv_link v = Some session ∧ valid_preferred_session_target session = true ∧ ∃ modified, rankable v session modified.
Proof.
  unfold preferred_session. split.
  - destruct (rv_link v) as [target|]; [|done]. cbn [and_then]. destruct (valid_preferred_session_target target) eqn:Ev; [|done].
    destruct (rankable_stats_pipe v target) as [t|] eqn:Et; [|done]. intros [= <-]. split_and!; [done..|]. exists t. by apply rankable_iff.
  - intros (-> & Hv & t & Ht%rankable_iff). cbn [and_then]. by rewrite Hv, Ht.
Qed.
Lemma ranked_iff v modified session :
  (modified, session) ∈ ranked_sessions v ↔
  (session, true) ∈ unwrap_or (rv_entries v) [] ∧ valid_session_name session = true ∧ preferred_session v ≠ Some session ∧ rankable v session modified.
Proof.
  unfold ranked_sessions. cbv zeta. rewrite stable_sort_perm, elem_of_filter_map. split.
  - intros ([name dir] & Hin & Hf). cbn [fst snd] in Hf. destruct (valid_session_name name) eqn:Ev; [|done]. destruct dir; [|done].
    case_bool_decide as Hp; [done|]. cbn [andb negb] in Hf. apply fmap_Some in Hf as (t & Ht & [= -> ->]). split_and!; [done..|by apply rankable_iff].
  - intros (Hin & Hv & Hp & Hr%rankable_iff). exists (session, true). split; [done|]. cbn [fst snd]. rewrite Hv, bool_decide_false by done.
    cbn [andb negb]. by rewrite Hr.
Qed.

(** The pipes that are tried are FIFOs in real session directories of an
    owned runtime directory, never reached through a link: first the one the
    compositor's own link names, then every other listed, the later modified
    first and equally late ones by name. *)
Theorem candidates_ranked run_dir euid v :
  open_runtime_dir v euid = true →
  ∃ ranked, stats_pipe_candidates run_dir euid v
            = (candidate run_dir "gamescope-stats symlink" <$> option_list (preferred_session v))
              ++ ((λ s, candidate run_dir "gamescope directory" (snd s)) <$> ranked)
    ∧ Sorted (λ a b, ranks_before a b = true) ranked
    ∧ (∀ session, preferred_session v = Some session ↔
         rv_link v = Some session ∧ valid_preferred_session_target session = true ∧ ∃ modified, rankable v session modified)
    ∧ ∀ modified session, (modified, session) ∈ ranked ↔
        (session, true) ∈ unwrap_or (rv_entries v) [] ∧ valid_session_name session = true ∧ preferred_session v ≠ Some session
        ∧ rankable v session modified.
Proof.
  intros Ho. exists (ranked_sessions v). unfold stats_pipe_candidates. rewrite Ho. split_and!; [done| |apply preferred_iff|apply ranked_iff].
  apply stable_sort_sorted, ranks_before_total.
Qed.

(** ** Samples *)

Lemma focus_line_sample app_id pending line pending' fps :
  focus_line app_id pending line = (pending', Some fps) ↔
  pending' = None ∧ pending = Some fps ∧ f64_le (f64_of_Z 1) fps = true
  ∧ strip_prefix "fps=" line = None ∧ ∃ focus, strip_prefix "focus=" line = Some focus ∧ app_id = Some (trim focus).
Proof.
  unfold focus_line. destruct (strip_prefix "fps=" line) as [value|]; [split; [done|by intros (_ & _ & _ & ? & _)]|].
  destruct (strip_prefix "focus=" line) as [focus|]; [|split; [done|by intros (_ & _ & _ & _ & ? & ? & _)]].
  destruct pending as [f|]; [|split; [done|by intros (_ & ? & _)]]. split.
  - destruct app_id as [id|]; cbn [is_some_and]; [|done]. destruct (String.eqb_spec (trim focus) id) as [<-|]; cbn [andb]; [|done].
    destruct (f64_le (f64_of_Z 1) f) eqn:E; [|done]. intros [= <- <-]. split_and!; try done. by exists focus.
  - intros (-> & [= ->] & Hf & _ & ? & [= <-] & ->). cbn [is_some_and]. by rewrite String.eqb_refl, Hf.
Qed.

(** The line a step of the thread takes in, with the rate that waits. *)
Definition line_of (e : ReaderEnv) (w : FrameCollector) : option (option f64 * string) :=
  match fc_reader w with
  | Some h =>
      if rh_finished h then None
      else match rd_phase (rh_reader h), re_read e with Reading _ true pending, Line line => Some (pending, line) | _, _ => None end
  | None => None
  end.
(** The samples that interleaved steps accept, in order. *)
Definition accepted (op : FrameOp) (w : FrameCollector) : list f64 :=
  match op with
  | ReaderStep e => match line_of e w with Some (pending, line) => option_list (snd (focus_line (fc_app_id w) pending line)) | None => [] end
  | _ => []
  end.
Section frames.
Context `{Unicode}.

Fixpoint accepted_all (ops : list FrameOp) (w : FrameCollector) : list f64 :=
  match ops with [] => [] | op :: ops => accepted op w ++ accepted_all ops (snd (frame_op op w)) end.

(** The ticks, with the state each meets. *)
Fixpoint ticks_of (ops : list FrameOp) (w : FrameCollector) : list (FrameEnv * FrameCollector) :=
  match ops with
  | [] => []
  | op :: ops => match op with Collect e => [(e, w)] | _ => [] end ++ ticks_of ops (snd (frame_op op w))
  end.
(** A document of drained samples or, when no pipe is attached, the one of MangoHud. *)
Definition made_of (doc : option json) (tick : (FrameEnv * FrameCollector) * option (list f64)) : Prop :=
  match tick with
  | (_, Some samples) => doc = scope_doc samples
  | ((e, w), None) => fc_attached w = false ∧ doc = fst (mango_collect (fe_log e) (fc_mango w))
  end.
Definition drained (batches : list (option (list f64))) : list f64 := mjoin ((λ b, unwrap_or b []) <$> batches).

Lemma resolve_same e force w : fc_attached (maybe_resolve_source e force w) = fc_attached w ∧ fc_mango (maybe_resolve_source e force w) = fc_mango w.
Proof.
  unfold maybe_resolve_source. cbv zeta.
  assert (Hr : fc_attached (reap_reader w) = fc_attached w ∧ fc_mango (reap_reader w) = fc_mango w) by (unfold reap_reader; by destruct (is_some_and _ _)).
  destruct (negb _); [done|]. by destruct (negb force && _).
Qed.
Lemma resolve_samples e force w : fc_samples (maybe_resolve_source e force w) = fc_samples w.
Proof.
  unfold maybe_resolve_source. cbv zeta. assert (Hr : fc_samples (reap_reader w) = fc_samples w) by (unfold reap_reader; by destruct (is_some_and _ _)).
  destruct (negb _); [done|]. by destruct (negb force && _).
Qed.
Lemma reader_step_samples e w : fc_samples (reader_step e w) = fc_samples w ++ accepted (ReaderStep e) w.
Proof.
  unfold reader_step, accepted, line_of. destruct (fc_reader w) as [h|]; [|by rewrite app_nil_r].
  destruct (rh_finished h); [by rewrite app_nil_r|]. destruct (rd_phase (rh_reader h)) as [|c armed pending].
  - destruct (rh_stop h); [by rewrite app_nil_r|]. by destruct (re_now e <? _); rewrite app_nil_r.
  - destruct armed.
    + unfold read_step. destruct (re_read e); try by (cbn; rewrite app_nil_r). by destruct (focus_line _ _ _).
    + destruct (rh_stop h); [by rewrite app_nil_r|]. by destruct (re_now e <? _); rewrite app_nil_r.
Qed.

Lemma frame_op_samples op w docs w' : frame_op op w = (docs, w') →
  ∃ made, fst <$> made = match op with Collect e => [(e, w)] | _ => [] end
    ∧ Forall2 made_of docs made ∧ drained (snd <$> made) ++ fc_samples w' = fc_samples w ++ accepted op w.
Proof.
  destruct op as [e|e environ pid|e]; cbn [frame_op].
  - intros [= <- <-]. exists []. split_and!; [done|constructor|]. apply reader_step_samples.
  - intros [= <- <-]. exists []. split_and!; [done|constructor|]. cbn [accepted]. rewrite app_nil_r.
    unfold frame_set_game_pid. cbv zeta. by destruct pid; [cbn; rewrite resolve_samples|].
  - unfold frame_collect. cbv zeta. cbn [accepted]. rewrite app_nil_r. pose proof (resolve_samples e false w) as Hr. revert Hr.
    destruct (resolve_same e false w) as [Ha Hm]. revert Ha Hm.
    generalize (maybe_resolve_source e false w). intros w1 Ha Hm <-. destruct (fc_candidate_present w1 || fc_attached w1) eqn:Hs.
    + intros [= <- <-]. exists [((e, w), Some (fc_samples w1))]. split_and!; [done|by repeat constructor|]. cbn. by rewrite !app_nil_r.
    + apply orb_false_iff in Hs as [_ Hs]. destruct (mango_collect (fe_log e) (fc_mango w1)) as [doc mango] eqn:E. intros [= <- <-].
      exists [((e, w), None)]. split_and!; [done| |done]. constructor; [|constructor]. split; [congruence|]. by rewrite <-Hm, E.
Qed.

Lemma accepted_frames op w : Forall (λ fps, f64_le (f64_of_Z 1) fps = true) (accepted op w).
Proof.
  destruct op as [e| |]; cbn [accepted]; [|constructor..]. destruct (line_of e w) as [[pending line]|]; [|constructor].
  destruct (focus_line _ _ _) as [pending' [fps|]] eqn:E; [|constructor]. apply focus_line_sample in E as (_ & _ & Hf & _). by repeat constructor.
Qed.
End frames.

(** C25: Every sample is in exactly one document: however the reader thread's
    steps, the changes of the game and the ticks interleave, the samples the
    thread accepts - frame rates of at least one that were read before the focus
    line of the current game - go, all of them and in their order, into the
    documents of the ticks, but for those still in the buffer; only a tick
    without an attached pipe may show what MangoHud's logs say instead. *)
Theorem samples_conserved `{Unicode} ops w docs w' :
  frame_ops ops w = (docs, w') →
  Forall (λ fps, f64_le (f64_of_Z 1) fps = true) (accepted_all ops w)
  ∧ ∃ made, fst <$> made = ticks_of ops w ∧ Forall2 made_of docs made
            ∧ drained (snd <$> made) ++ fc_samples w' = fc_samples w ++ accepted_all ops w.
Proof.
  revert w docs. induction ops as [|op ops IH]; intros w docs; cbn [frame_ops accepted_all ticks_of].
  - intros [= <- <-]. split; [constructor|]. exists []. split_and!; [done|constructor|]. cbn. by rewrite app_nil_r.
  - destruct (frame_op op w) as [docs1 w1] eqn:E1. destruct (frame_ops ops w1) as [docs2 w2] eqn:E2. intros [= <- <-].
    destruct (frame_op_samples _ _ _ _ E1) as (b1 & Hc1 & Hf1 & Hd1). destruct (IH w1 docs2 E2) as (Ha & b2 & Hc2 & Hf2 & Hd2). cbn [snd].
    split; [apply Forall_app; split; [apply accepted_frames|done]|]. exists (b1 ++ b2).
    split_and!; [by rewrite fmap_app, Hc1, Hc2|by apply Forall2_app|].
    unfold drained in *. rewrite !fmap_app, join_app, <-app_assoc, Hd2, app_assoc, Hd1. by rewrite app_assoc.
Qed.

(** ** Waiting *)

Definition patient (r : Reader) : Prop := REOPEN_BACKOFF_INITIAL ≤ rd_backoff r ≤ REOPEN_BACKOFF_MAX.
Lemma doubled_patient b : REOPEN_BACKOFF_INITIAL ≤ b ≤ REOPEN_BACKOFF_MAX → REOPEN_BACKOFF_INITIAL ≤ doubled b ≤ REOPEN_BACKOFF_MAX.
Proof. unfold doubled, REOPEN_BACKOFF_INITIAL, REOPEN_BACKOFF_MAX, MILLIS. lia. Qed.
Lemma look_patient dir e r : patient r → patient (look dir e r) ∧ (rd_wake (look dir e r) ≤ re_now e + REOPEN_BACKOFF_MAX).
Proof.
  unfold look, patient. cbv zeta. intros Hp. pose proof (doubled_patient _ Hp) as Hd. unfold NO_CANDIDATE_WAIT, WRITER_RENDEZVOUS_WAIT.
  destruct (List.find _ _) as [c|]; [destruct (open_stats_pipe _ _ _)|];
    cbn [rd_backoff rd_wake with_phase] in *; unfold REOPEN_BACKOFF_MAX, REOPEN_BACKOFF_INITIAL, MILLIS in *; lia.
Qed.
Lemma read_patient e app_id c pending attached r : patient r → patient (fst (fst (read_step e app_id c pending attached r))).
Proof.
  unfold read_step, patient. intros Hp. pose proof (doubled_patient _ Hp) as Hd.
  destruct (re_read e); [done| |done|done]. destruct (focus_line _ _ _). cbn. done.
Qed.

Definition patient_world (w : FrameCollector) : Prop := ∀ h, fc_reader w = Some h → patient (rh_reader h).
Lemma new_reader_patient : patient new_reader.
Proof. done. Qed.

(** The reader waits within its bounds, and never sleeps for more than a second. *)
Definition waiting (latest : Z) (w : FrameCollector) : Prop :=
  ∀ h, fc_reader w = Some h → patient (rh_reader h) ∧ rd_wake (rh_reader h) ≤ latest + REOPEN_BACKOFF_MAX.

Lemma read_wake e app_id c pending attached r : patient r →
  rd_wake (fst (fst (read_step e app_id c pending attached r))) ≤ Z.max (rd_wake r) (re_now e + REOPEN_BACKOFF_MAX).
Proof.
  unfold read_step, patient, REOPEN_BACKOFF_MAX. intros Hp. destruct (re_read e); cbn; [lia| |unfold WOULD_BLOCK_WAIT, MILLIS; lia|lia].
  destruct (focus_line _ _ _). cbn. lia.
Qed.
Lemma reader_step_waiting latest e w : re_now e ≤ latest → waiting latest w → waiting latest (reader_step e w).
Proof.
  intros He Hw. unfold reader_step. destruct (fc_reader w) as [h|] eqn:Eh; [|done]. destruct (Hw h Eh) as [Hp Hk].
  destruct (rh_finished h); [done|].
  assert (Hsame : ∀ f att s, waiting latest (with_reader (Some {| rh_stop := rh_stop h; rh_finished := f; rh_reader := rh_reader h |}) att s w))
    by (intros f att s h' [= <-]; done).
  destruct (rd_phase (rh_reader h)) as [|c armed pending] eqn:Ep.
  - destruct (rh_stop h); [apply Hsame|]. destruct (_ <? _); [done|]. intros h' [= <-]. cbn [rh_reader].
    destruct (look_patient (fc_runtime_dir w) e _ Hp) as [? ?]. split; [done|lia].
  - destruct armed.
    + pose proof (read_patient e (fc_app_id w) c pending (fc_attached w) _ Hp) as Hp'.
      pose proof (read_wake e (fc_app_id w) c pending (fc_attached w) _ Hp) as Hk'. destruct (read_step _ _ _ _ _ _) as [[r' att] sample].
      intros h' [= <-]. cbn [rh_reader fst] in *. split; [done|lia].
    + destruct (rh_stop h); [apply Hsame|]. destruct (_ <? _); [done|]. by intros h' [= <-].
Qed.
Lemma resolve_waiting latest e force w : 0 ≤ latest → waiting latest w → waiting latest (maybe_resolve_source e force w).
Proof.
  intros Hl Hw. unfold maybe_resolve_source. cbv zeta.
  assert (Hr : waiting latest (reap_reader w)) by (unfold reap_reader; destruct (is_some_and _ _); [by intros ? ?|done]).
  destruct (negb _); [done|]. destruct (_ && _); [done|]. intros h. cbn [fc_reader with_source].
  destruct (fc_reader (reap_reader w)) as [h'|] eqn:Eh; [by intros [= <-]; apply Hr|].
  destruct (stats_pipe_candidates _ _ _); [done|]. intros [= <-]. split; [apply new_reader_patient|]. cbn. unfold REOPEN_BACKOFF_MAX, MILLIS. lia.
Qed.
Lemma frame_op_waiting `{Unicode} latest op w : 0 ≤ latest → match op with ReaderStep e => re_now e ≤ latest | _ => True end →
  waiting latest w → waiting latest (snd (frame_op op w)).
Proof.
  intros Hl Ho Hw. destruct op as [e|e environ pid|e]; cbn [frame_op snd].
  - by apply reader_step_waiting.
  - unfold frame_set_game_pid. cbv zeta. destruct pid; [by apply resolve_waiting|]. intros h Hh. cbn in Hh.
    apply fmap_Some in Hh as (h' & Hh' & ->). by apply (Hw h').
  - unfold frame_collect. cbv zeta. pose proof (resolve_waiting latest e false w Hl Hw) as Hr.
    destruct (_ || _); [exact Hr|]. destruct (mango_collect _ _). exact Hr.
Qed.

(** The reader neither spins nor sleeps in: whatever it has met, the wait
    before it opens a pipe again is at least a tenth of a second and at most one,
    and it is never asleep for more than a second after its last step. *)
Theorem backoff_bounded `{Unicode} mango dir ops docs w latest h :
  0 ≤ latest → Forall (λ op, match op with ReaderStep e => re_now e ≤ latest | _ => True end) ops →
  frame_ops ops (with_runtime_dir mango dir) = (docs, w) → fc_reader w = Some h →
  REOPEN_BACKOFF_INITIAL ≤ rd_backoff (rh_reader h) ≤ REOPEN_BACKOFF_MAX ∧ rd_wake (rh_reader h) ≤ latest + REOPEN_BACKOFF_MAX.
Proof.
  intros Hl Hops. assert (Hw : waiting latest (with_runtime_dir mango dir)) by by intros ? ?.
  revert Hw docs. generalize (with_runtime_dir mango dir). induction Hops as [|op ops Hop _ IH]; intros w0 Hw docs; cbn [frame_ops].
  - intros [= _ <-]. by apply Hw.
  - pose proof (frame_op_waiting latest op w0 Hl Hop Hw) as Hw1. destruct (frame_op op w0) as [d1 w1].
    destruct (frame_ops ops w1) as [d2 w2] eqn:E. intros [= _ <-]. by eapply IH.
Qed.

(** ** Which pipe is tried *)

Definition tried (dir : string) (e : ReaderEnv) (r : Reader) : option string :=
  match rd_phase (look dir e r) with Reading c _ _ => Some (sc_path c) | Seeking => None end.

(** A pipe that has ended is left alone for a second. *)
Lemma demoted_not_retried dir e r path until : rd_demoted_until r !! path = Some until → re_now e < until → tried dir e r ≠ Some path.
Proof.
  intros Hd Hlt. unfold tried, look. cbv zeta. destruct (List.find _ _) as [c|] eqn:Ec; [|done].
  apply find_some in Ec as [_ Hc%bool_decide_eq_true]. destruct (open_stats_pipe _ _ _); [|done]. cbn [rd_phase with_phase]. intros [= Hp].
  rewrite Hp in Hc. unfold still_demoted in Hc. rewrite map_lookup_filter_None in Hc. destruct Hc as [Hc|Hc]; [by rewrite Hd in Hc|]. by apply (Hc until).
Qed.
(** The end of a pipe demotes it. *)
Lemma eof_demotes e app_id c pending attached r : re_read e = Eof →
  rd_demoted_until (fst (fst (read_step e app_id c pending attached r))) !! sc_path c = Some (re_now e + DEMOTION_WINDOW).
Proof. intros He. unfold read_step. rewrite He. cbn. apply lookup_insert_eq. Qed.

(** One round: a look, and the read of what it opened. *)
Definition scope_round (dir : string) (e1 e2 : ReaderEnv) (r : Reader) : Reader :=
  let r := look dir e1 r in
  match rd_phase r with
  | Reading c _ pending => fst (fst (read_step e2 None c pending false (with_phase (Reading c true pending) (rd_wake r) r)))
  | Seeking => r
  end.
Fixpoint tried_all (dir : string) (rounds : list (ReaderEnv * ReaderEnv)) (r : Reader) : list (option string) :=
  match rounds with
  | [] => []
  | (e1, e2) :: rounds => tried dir e1 r :: tried_all dir rounds (scope_round dir e1 e2 r)
  end.
(** Every look finds the same stale pipe first, and it ends at once. *)
Inductive stale_first (dir : string) (c : StatsPipeCandidate) : Reader → list (ReaderEnv * ReaderEnv) → Prop :=
| stale_done r : stale_first dir c r []
| stale_round r e1 e2 others rounds :
    stats_pipe_candidates dir (re_euid e1) (re_view e1) = c :: others → open_stats_pipe (re_open e1) (sc_session c) (re_euid e1) = true →
    re_read e2 = Eof → rd_wake r ≤ re_now e1 ≤ re_now e2 → stale_first dir c (scope_round dir e1 e2 r) rounds → stale_first dir c r ((e1, e2) :: rounds).

(** Once the wait has grown to its bound, the demotion of a pipe is over when it
    is looked for again: a stale pipe that ranks first is the only one ever
    tried, whatever live ones rank behind it. *)
Lemma stale_pins_reader dir c rounds r :
  stale_first dir c r rounds → rd_backoff r = REOPEN_BACKOFF_MAX →
  (∀ until, rd_demoted_until r !! sc_path c = Some until → until ≤ rd_wake r) →
  tried_all dir rounds r = replicate (length rounds) (Some (sc_path c)).
Proof.
  induction 1 as [|r e1 e2 others rounds Hc Ho He Ht _ IH]; intros Hb Hd; [done|]. cbn [tried_all length replicate].
  assert (Hfree : still_demoted (re_now e1) (rd_demoted_until r) !! sc_path c = None).
  { unfold still_demoted. apply map_lookup_filter_None. destruct (rd_demoted_until r !! sc_path c) as [u|] eqn:E; [right|by left].
    intros u' [= <-] Hlt. cbn in Hlt. specialize (Hd u eq_refl). lia. }
  assert (Hlook : look dir e1 r = with_phase (Reading c false None) (re_now e1 + WRITER_RENDEZVOUS_WAIT)
    {| rd_phase := Seeking; rd_demoted_until := still_demoted (re_now e1) (rd_demoted_until r); rd_failed := rd_failed r;
       rd_backoff := rd_backoff r; rd_last_attached := rd_last_attached r; rd_wake := rd_wake r |}).
  { unfold look. rewrite Hc. cbn [List.find]. rewrite bool_decide_true by done. by rewrite Ho. }
  unfold tried. rewrite Hlook at 1. cbn [rd_phase with_phase]. f_equal. apply IH; clear IH.
  - unfold scope_round. rewrite Hlook. cbn [rd_phase with_phase]. unfold read_step. rewrite He. cbn. by rewrite Hb.
  - unfold scope_round. rewrite Hlook. cbn [rd_phase with_phase]. unfold read_step. rewrite He. cbn. rewrite lookup_insert_eq, Hb.
    intros u [= <-]. unfold DEMOTION_WINDOW, REOPEN_BACKOFF_MAX. lia.
Qed.

(** ** Examples *)

Definition scope_view : RuntimeView := {|
  rv_runtime := Some {| dm_is_dir := true; dm_uid := 1000 |};
  rv_session s := bool_decide (s ∈ ["gamescope.old"; "gamescope.live"]);
  rv_pipe s := Some {| pm_is_fifo := true; pm_uid := 1000; pm_mtime := if String.eqb s "gamescope.live" then 20 else 10 |};
  rv_link := Some "gamescope.old";
  rv_entries := Some [("gamescope.live", true); ("gamescope.old", true); ("pulse", true)] |}.
Definition no_view : RuntimeView :=
  {| rv_runtime := None; rv_session _ := false; rv_pipe _ := None; rv_link := None; rv_entries := None |}.
Definition scope_env (ms : Z) (r : ReadResult) : ReaderEnv :=
  {| re_now := ms * MILLIS; re_euid := 1000; re_view := scope_view; re_open := scope_view; re_read := r |}.
Definition frame_env (ms : Z) (v : RuntimeView) (log : string) : FrameEnv :=
  {| fe_now := ms * MILLIS; fe_euid := 1000; fe_view := v;
     fe_log := {| lg_now := ms * MILLIS; lg_entries := Some [{| le_name := "g.csv"; le_regular := true; le_modified := Some 1 |}];
                  lg_open _ := Some {| ol_regular := true; ol_owned := true; ol_modified := Some ms; ol_content := log |} |} |}.
Definition frame_start : FrameCollector := with_runtime_dir (with_log_dir None "/logs") "/run/user/1000".
Definition game_env : option string := Some ("A=1" +:+ nul +:+ "SteamAppId=570").
Definition lf : string := str1 nl.
Definition attach : list FrameOp :=
  [SetGamePid (frame_env 0 scope_view "") game_env (Some 12); ReaderStep (scope_env 1 Eof); ReaderStep (scope_env 30 Eof);
   ReaderStep (scope_env 31 (Line ("fps=60.0" +:+ lf))); ReaderStep (scope_env 32 Eof); ReaderStep (scope_env 33 (Line ("focus=570" +:+ lf)))].

Lemma candidates_ranked_witness :
  sc_session <$> stats_pipe_candidates "/run/user/1000" 1000 scope_view = ["gamescope.old"; "gamescope.live"]
  ∧ ∃ ranked, Sorted (λ a b, ranks_before a b = true) ranked ∧ (20, "gamescope.live") ∈ ranked.
Proof.
  destruct (candidates_ranked "/run/user/1000" 1000 scope_view ltac:(vm_compute; reflexivity)) as (ranked & _ & Hs & _ & Hr).
  split; [vm_compute; reflexivity|]. exists ranked. split; [exact Hs|]. apply Hr. split_and!; [|vm_compute; reflexivity|vm_compute; discriminate|].
  - left.
  - split; [vm_compute; reflexivity|]. eexists. split_and!; reflexivity.
Defined.
Lemma samples_conserved_witness :
  ∃ made w', Forall2 (@made_of ascii_unicode) (fst (@frame_ops ascii_unicode (attach ++ [Collect (frame_env 1000 scope_view "")]) frame_start)) made
    ∧ drained (snd <$> made) ++ fc_samples w' = [f64_of_Z 60].
Proof.
  destruct (@frame_ops ascii_unicode (attach ++ [Collect (frame_env 1000 scope_view "")]) frame_start) as [docs w'] eqn:E.
  destruct (@samples_conserved ascii_unicode _ _ _ _ E) as [_ (made & _ & Hf & Hd)]. exists made, w'. split; [exact Hf|].
  rewrite Hd. vm_compute. reflexivity.
Defined.
Lemma backoff_bounded_witness :
  ∃ h, fc_reader (snd (@frame_ops ascii_unicode attach frame_start)) = Some h ∧ REOPEN_BACKOFF_INITIAL ≤ rd_backoff (rh_reader h) ≤ REOPEN_BACKOFF_MAX.
Proof.
  destruct (fc_reader (snd (@frame_ops ascii_unicode attach frame_start))) as [h|] eqn:Eh; [|vm_compute in Eh; discriminate].
  exists h. split; [reflexivity|].
  destruct (@frame_ops ascii_unicode attach frame_start) as [docs w] eqn:E.
  exact (proj1 (@backoff_bounded ascii_unicode (with_log_dir None "/logs") "/run/user/1000" attach docs w (40 * MILLIS) h
    ltac:(vm_compute; discriminate) ltac:(repeat constructor; vm_compute; discriminate) E Eh)).
Defined.

(** Samples that the thread adds after the last tick of a game are in the first
    document of the next one. *)
Lemma leftover_samples :
  let (docs, _) := @frame_ops ascii_unicode
    (attach ++ [SetGamePid (frame_env 900 scope_view "") None None; Collect (frame_env 1000 scope_view "");
                SetGamePid (frame_env 9000 scope_view "") (Some "SteamAppId=999") (Some 77); Collect (frame_env 9001 scope_view "")]) frame_start in
  (λ doc, and_then doc (json_path ["rigsignal"; "fps"; "current"])) <$> docs = [None; Some (JNumber (PosInt 60))].
Proof. vm_compute. reflexivity. Qed.

(** A thread that is past the stop flag when it is told to stop attaches itself
    again and ends: from then on the logs of MangoHud are not read, although there
    is no pipe. *)
Lemma attached_without_reader :
  let (docs, w) := @frame_ops ascii_unicode
    (take 5 attach ++ [SetGamePid (frame_env 900 scope_view "") None None; ReaderStep (scope_env 901 (Line ("x=1" +:+ lf)));
      ReaderStep (scope_env 902 Eof); SetGamePid (frame_env 9000 no_view "") (Some "SteamAppId=999") (Some 77);
      Collect (frame_env 9001 no_view ("fps,frametime" +:+ lf +:+ "50,20" +:+ lf))]) frame_start in
  docs = [None] ∧ fc_attached w = true ∧ fc_reader w = None.
Proof. vm_compute. by split_and!. Qed.
