(* ===== verification/Config.v ===== *)
(** * Configuration ([src/config.rs], [ebpf/rigsignal-ebpf/src/config.rs])

    The configuration of the agent and that of the daemon: where they are looked
    for, the derived reading of their tables with its defaults, the environment
    that overrides them, and what is shown of them.  [toml] between text and
    value, and [Url], are arguments; a [toml] value is a [json] one without nulls,
    and a table is never given as an array. *)
From Stdlib Require Import Ascii.
From S2P Require Import Prelude Float64 EsModel Json FileSystem GameScan Summary Handshake Bulk.

(** ** Derived reading *)

(** A field that must be there, one with a default, and an optional one. *)
Definition required {A : Type} (k : string) (f : json → option A) (v : json) : option A := and_then (json_get k v) f.
Definition with_default {A : Type} (k : string) (d : A) (f : json → option A) (v : json) : option A :=
  match json_get k v with None => Some d | Some x => f x end.
Definition optional {A : Type} (k : string) (f : json → option A) (v : json) : option (option A) :=
  match json_get k v with None => Some None | Some x => Some <$> f x end.
Definition int_upto (hi : Z) (v : json) : option Z :=
  match v with JNumber (PosInt n) => if n <=? hi then Some n else None | _ => None end.
Definition as_strings (v : json) : option (list string) := and_then (as_array v) (mapM as_str).
Definition table {A : Type} (f : json → option A) (v : json) : option A := if is_object v then f v else None.

(** ** The agent's configuration *)

Inductive OutputMode := Elasticsearch | Spool.
Record OutputConfig := {
  oc_mode : OutputMode;
  oc_spool_dir : string;
  oc_max_file_bytes : Z;
  oc_max_file_age_secs : Z;
  oc_spool_retention_hours : Z;
}.
Record SessionConfig := {
  sn_label : option string;
  sn_settings : SettingsConfig;
  sn_target_pid : option Z;
  sn_target_name : option string;
}.
Record ElasticsearchConfig := {
  es_url : string;
  es_api_key : option string;
  es_username : option string;
  es_password : option string;
  es_ca_cert : option string;
  es_index_prefix : string;
  es_flush_interval_secs : Z;
  es_batch_size : Z;
}.
Record CollectionConfig := {
  co_interval_ms : Z;
  co_cpu : bool;
  co_memory : bool;
  co_gpu : bool;
  co_storage : bool;
  co_network : bool;
  co_ebpf : bool;
  co_frame_timing : bool;
  co_game_detection : bool;
  co_sample_interval_secs : Z;
}.
Record PrivacyConfig := { pr_opt_in_public : bool; pr_share_ebpf : bool; pr_share_network : bool }.
Record Config := {
  c_elasticsearch : ElasticsearchConfig;
  c_output : OutputConfig;
  c_collection : CollectionConfig;
  c_privacy : PrivacyConfig;
  c_session : SessionConfig;
}.

Section config.
Context (m : Machine).

Definition home_dir : option string :=
  let sudo := match var m "SUDO_USER" with
              | Some user => if is_empty user then None else
                               let p := join_path "/home" user in if path_exists m p then Some p else None
              | None => None
              end in
  match sudo with Some p => Some p | None => var m "HOME" end.

(** *** Defaults *)

Definition default_spool_dir : string :=
  match home_dir with Some home => join_path home ".local/state/rigsignal/spool" | None => ".local/state/rigsignal/spool" end.
Definition default_max_file_bytes : Z := 10485760.
Definition default_max_file_age_secs : Z := 300.
Definition default_spool_retention_hours : Z := 72.
Definition default_output : OutputConfig :=
  {| oc_mode := Elasticsearch; oc_spool_dir := default_spool_dir; oc_max_file_bytes := default_max_file_bytes;
     oc_max_file_age_secs := default_max_file_age_secs; oc_spool_retention_hours := default_spool_retention_hours |}.
Definition default_index_prefix : string := "rigsignal".
Definition default_flush_interval_secs : Z := 5.
Definition default_batch_size : Z := 100.
Definition default_interval_ms : Z := 1000.
Definition default_true : bool := true.
Definition default_sample_interval : Z := 1.
Definition default_collection : CollectionConfig :=
  {| co_interval_ms := default_interval_ms; co_cpu := true; co_memory := true; co_gpu := true; co_storage := true; co_network := true;
     co_ebpf := false; co_frame_timing := true; co_game_detection := true; co_sample_interval_secs := default_sample_interval |}.
Definition default_privacy : PrivacyConfig := {| pr_opt_in_public := false; pr_share_ebpf := false; pr_share_network := false |}.
Definition default_settings : SettingsConfig :=
  {| cf_preset := None; cf_upscaler_tech := None; cf_upscaler_preset := None; cf_frame_gen_tech := None; cf_features_active := None;
     cf_render_resolution_output := None; cf_render_vsync := None; cf_notes := None |}.
Definition default_session : SessionConfig :=
  {| sn_label := None; sn_settings := default_settings; sn_target_pid := None; sn_target_name := None |}.

(** *** From a value *)

Definition output_mode_of (v : json) : option OutputMode :=
  let! s := as_str v in
  if String.eqb s "elasticsearch" then Some Elasticsearch else if String.eqb s "spool" then Some Spool else None.
Definition output_of : json → option OutputConfig := table (λ v,
  let! mode := with_default "mode" Elasticsearch output_mode_of v in
  let! spool_dir := with_default "spool_dir" default_spool_dir as_str v in
  let! max_file_bytes := with_default "max_file_bytes" default_max_file_bytes (int_upto u64_max) v in
  let! max_file_age_secs := with_default "max_file_age_secs" default_max_file_age_secs (int_upto u64_max) v in
  let! retention := with_default "spool_retention_hours" default_spool_retention_hours (int_upto u64_max) v in
  Some {| oc_mode := mode; oc_spool_dir := spool_dir; oc_max_file_bytes := max_file_bytes;
          oc_max_file_age_secs := max_file_age_secs; oc_spool_retention_hours := retention |}).
Definition settings_of : json → option SettingsConfig := table (λ v,
  let! preset := optional "preset" as_str v in
  let! upscaler_tech := optional "upscaler_tech" as_str v in
  let! upscaler_preset := optional "upscaler_preset" as_str v in
  let! frame_gen_tech := optional "frame_gen_tech" as_str v in
  let! features_active := optional "features_active" as_strings v in
  let! resolution := optional "render_resolution_output" as_str v in
  let! vsync := optional "render_vsync" as_str v in
  let! notes := optional "notes" as_str v in
  Some {| cf_preset := preset; cf_upscaler_tech := upscaler_tech; cf_upscaler_preset := upscaler_preset; cf_frame_gen_tech := frame_gen_tech;
          cf_features_active := features_active; cf_render_resolution_output := resolution; cf_render_vsync := vsync; cf_notes := notes |}).
Definition session_of : json → option SessionConfig := table (λ v,
  let! label := optional "label" as_str v in
  let! settings := with_default "settings" default_settings settings_of v in
  let! target_pid := optional "target_pid" (int_upto u32_max) v in
  let! target_name := optional "target_name" as_str v in
  Some {| sn_label := label; sn_settings := settings; sn_target_pid := target_pid; sn_target_name := target_name |}).
Definition elasticsearch_of : json → option ElasticsearchConfig := table (λ v,
  let! endpoint := required "endpoint" as_str v in
  let! api_key := optional "api_key" as_str v in
  let! username := optional "username" as_str v in
  let! password := optional "password" as_str v in
  let! ca_cert := optional "ca_cert" as_str v in
  let! index_prefix := with_default "index_prefix" default_index_prefix as_str v in
  let! flush := with_default "flush_interval_secs" default_flush_interval_secs (int_upto u64_max) v in
  let! batch_size := with_default "batch_size" default_batch_size (int_upto u64_max) v in
  Some {| es_url := endpoint; es_api_key := api_key; es_username := username; es_password := password; es_ca_cert := ca_cert;
          es_index_prefix := index_prefix; es_flush_interval_secs := flush; es_batch_size := batch_size |}).
Definition collection_of : json → option CollectionConfig := table (λ v,
  let! interval_ms := with_default "interval_ms" default_interval_ms (int_upto u64_max) v in
  let! cpu := with_default "cpu" default_true as_bool v in
  let! memory := with_default "memory" default_true as_bool v in
  let! gpu := with_default "gpu" default_true as_bool v in
  let! storage := with_default "storage" default_true as_bool v in
  let! network := with_default "network" default_true as_bool v in
  let! ebpf := with_default "ebpf" false as_bool v in
  let! frame_timing := with_default "frame_timing" default_true as_bool v in
  let! game_detection := with_default "game_detection" default_true as_bool v in
  let! sample := with_default "sample_interval_secs" default_sample_interval (int_upto u64_max) v in
  Some {| co_interval_ms := interval_ms; co_cpu := cpu; co_memory := memory; co_gpu := gpu; co_storage := storage; co_network := network;
          co_ebpf := ebpf; co_frame_timing := frame_timing; co_game_detection := game_detection; co_sample_interval_secs := sample |}).
Definition privacy_of : json → option PrivacyConfig := table (λ v,
  let! opt_in_public := with_default "opt_in_public" false as_bool v in
  let! share_ebpf := with_default "share_ebpf" false as_bool v in
  let! share_network := with_default "share_network" false as_bool v in
  Some {| pr_opt_in_public := opt_in_public; pr_share_ebpf := share_ebpf; pr_share_network := share_network |}).
Definition config_of : json → option Config := table (λ v,
  let! elasticsearch := required "elasticsearch" elasticsearch_of v in
  let! output := with_default "output" default_output output_of v in
  let! collection := with_default "collection" default_collection collection_of v in
  let! privacy := with_default "privacy" default_privacy privacy_of v in
  let! session := with_default "session" default_session session_of v in
  Some {| c_elasticsearch := elasticsearch; c_output := output; c_collection := collection; c_privacy := privacy; c_session := session |}).
End config.

(** *** To a value *)

Definition output_mode_str (mode : OutputMode) : string := match mode with Elasticsearch => "elasticsearch" | Spool => "spool" end.
Definition output_value (o : OutputConfig) : json :=
  object [("mode", JString (output_mode_str (oc_mode o))); ("spool_dir", JString (oc_spool_dir o)); ("max_file_bytes", json_u64 (oc_max_file_bytes o));
          ("max_file_age_secs", json_u64 (oc_max_file_age_secs o)); ("spool_retention_hours", json_u64 (oc_spool_retention_hours o))].
Definition settings_value (s : SettingsConfig) : json :=
  object (when_some "preset" JString (cf_preset s) ++ when_some "upscaler_tech" JString (cf_upscaler_tech s)
          ++ when_some "upscaler_preset" JString (cf_upscaler_preset s) ++ when_some "frame_gen_tech" JString (cf_frame_gen_tech s)
          ++ when_some "features_active" (λ l, JArray (JString <$> l)) (cf_features_active s)
          ++ when_some "render_resolution_output" JString (cf_render_resolution_output s) ++ when_some "render_vsync" JString (cf_render_vsync s)
          ++ when_some "notes" JString (cf_notes s)).
Definition session_value (s : SessionConfig) : json :=
  object (when_some "label" JString (sn_label s) ++ [("settings", settings_value (sn_settings s))]
          ++ when_some "target_pid" json_u64 (sn_target_pid s) ++ when_some "target_name" JString (sn_target_name s)).
Definition elasticsearch_value (e : ElasticsearchConfig) : json :=
  object ([("endpoint", JString (es_url e))] ++ when_some "api_key" JString (es_api_key e) ++ when_some "username" JString (es_username e)
          ++ when_some "password" JString (es_password e) ++ when_some "ca_cert" JString (es_ca_cert e)
          ++ [("index_prefix", JString (es_index_prefix e)); ("flush_interval_secs", json_u64 (es_flush_interval_secs e));
              ("batch_size", json_u64 (es_batch_size e))]).
Definition collection_value (c : CollectionConfig) : json :=
  object [("interval_ms", json_u64 (co_interval_ms c)); ("cpu", JBool (co_cpu c)); ("memory", JBool (co_memory c)); ("gpu", JBool (co_gpu c));
          ("storage", JBool (co_storage c)); ("network", JBool (co_network c)); ("ebpf", JBool (co_ebpf c));
          ("frame_timing", JBool (co_frame_timing c)); ("game_detection", JBool (co_game_detection c));
          ("sample_interval_secs", json_u64 (co_sample_interval_secs c))].
Definition privacy_value (p : PrivacyConfig) : json :=
  object [("opt_in_public", JBool (pr_opt_in_public p)); ("share_ebpf", JBool (pr_share_ebpf p)); ("share_network", JBool (pr_share_network p))].
Definition config_value (c : Config) : json :=
  object [("elasticsearch", elasticsearch_value (c_elasticsearch c)); ("output", output_value (c_output c));
          ("collection", collection_value (c_collection c)); ("privacy", privacy_value (c_privacy c)); ("session", session_value (c_session c))].

(** ** Loading *)

Section loading.
Context (m : Machine) (parse_toml : string → option json).

Definition non_empty_var (name : string) : option string :=
  match var m name with Some v => if is_empty v then None else Some v | None => None end.
Definition with_es (c : Config) (es : ElasticsearchConfig) : Config :=
  {| c_elasticsearch := es; c_output := c_output c; c_collection := c_collection c; c_privacy := c_privacy c; c_session := c_session c |}.
(** The environment wins. *)
Definition apply_env_overrides (c : Config) : Config :=
  let es := c_elasticsearch c in
  with_es c
    {| es_url := match non_empty_var "ES_URL" with Some url => url | None => es_url es end;
       es_api_key := match non_empty_var "ES_API_KEY" with Some key => Some key | None => es_api_key es end;
       es_username := es_username es; es_password := es_password es;
       es_ca_cert := match non_empty_var "ES_CA_CERT" with Some ca => Some ca | None => es_ca_cert es end;
       es_index_prefix := es_index_prefix es; es_flush_interval_secs := es_flush_interval_secs es; es_batch_size := es_batch_size es |}.

Definition user_config_path : option string :=
  let home := (λ home, join_path home ".config/rigsignal/rigsignal.toml") <$> home_dir m in
  match var m "XDG_CONFIG_HOME" with
  | Some config_home => if starts_with "/" config_home then Some (join_path config_home "rigsignal/rigsignal.toml") else home
  | None => home
  end.
Definition config_candidates (path : option string) : list string :=
  match path with
  | Some p => [p]
  | None =>
      match var m "RIGSIGNAL_CONFIG" with
      | Some env_path => [env_path]
      | None => option_list user_config_path ++ ["/etc/rigsignal/rigsignal.toml"]
      end
  end.

(** Whether this call warns, and that the warning has been given. *)
Definition warn_spool_retention_deprecation (warned : bool) : bool * bool := (negb warned, true).
Definition retention_set (v : json) : bool :=
  match and_then (json_get "output" v) as_object with Some output => match json_get "spool_retention_hours" output with Some _ => true | None => false end
  | None => false end.
(** Reading one file: the configuration, and whether the warning has been given. *)
Definition load_from (warned : bool) (path : string) : result Config string * bool :=
  match read_text m path with
  | None => (Err ("reading config file: " +:+ path), warned)
  | Some text =>
      match parse_toml text with
      | None => (Err ("parsing config file: " +:+ path), warned)
      | Some value =>
          match config_of m value with
          | None => (Err ("parsing config file: " +:+ path), warned)
          | Some config => (Ok config, if retention_set value then snd (warn_spool_retention_deprecation warned) else warned)
          end
      end
  end.
Definition load (warned : bool) (path : option string) : result Config string * bool :=
  let candidates := config_candidates path in
  match List.find (path_exists m) candidates with
  | Some candidate =>
      let (config, warned) := load_from warned candidate in (map_ok apply_env_overrides config, warned)
  | None => (Err ("no config file found; searched: " +:+ join ", " candidates), warned)
  end.
End loading.

(** ** What is shown and what is sent *)

Definition REDACTED : string := "<redacted>".
Definition endpoint_for_display `{Parsers} (c : Config) : string := unwrap_or (endpoint_origin (es_url (c_elasticsearch c))) REDACTED.
Definition redact {A : Type} (secret : option A) : option string := (λ _, REDACTED) <$> secret.
Definition redacted_for_display `{Parsers} (c : Config) : Config :=
  let es := c_elasticsearch c in
  with_es c
    {| es_url := endpoint_for_display c; es_api_key := redact (es_api_key es); es_username := redact (es_username es);
       es_password := redact (es_password es); es_ca_cert := es_ca_cert es; es_index_prefix := es_index_prefix es;
       es_flush_interval_secs := es_flush_interval_secs es; es_batch_size := es_batch_size es |}.
(** [--print-config]. *)
Definition print_config `{Parsers} (to_toml : json → option string) (c : Config) : option string := to_toml (config_value (redacted_for_display c)).

Definition has_delivery_credentials (es : ElasticsearchConfig) : bool :=
  is_some_and (es_api_key es) (λ key, negb (is_empty (trim key)))
  || match es_username es, es_password es with Some user, Some password => negb (is_empty user) && negb (is_empty password) | _, _ => false end.
Definition authorization (c : Config) : option string :=
  let es := c_elasticsearch c in auth_header (es_api_key es) (es_username es) (es_password es).

(** ** The daemon's configuration *)

Record DaemonElasticsearch := { de_endpoint : string; de_api_key : option string; de_ca_cert : option string }.
Record EbpfConfig := {
  eb_probe_path : string;
  eb_enabled_probes : list string;
  eb_interval_s : Z;
  eb_background_baseline : bool;
}.
Record DaemonConfig := { dn_elasticsearch : DaemonElasticsearch; dn_ebpf : EbpfConfig }.

Section daemon.
(** [exe]: the path of the running binary with its ancestors, itself first;
    [release]: the build profile. *)
Context (m : Machine) (parse_toml : string → option json) (exe_ancestors : list string) (release : bool).

Definition default_probe_path : string :=
  let workspace :=
    match List.find (λ p, path_exists m (join_path p "rigsignal-ebpf")) exe_ancestors with
    | Some p => p
    | None => unwrap_or (exe_ancestors !! 1%nat) "."
    end in
  join_path (join_path (join_path workspace "target/bpfel-unknown-none") (if release then "release" else "debug")) "rigsignal-ebpf-probes".
Definition default_enabled_probes : list string := ["schedlatency"].
Definition default_interval_s : Z := 1.
Definition default_ebpf : EbpfConfig :=
  {| eb_probe_path := default_probe_path; eb_enabled_probes := default_enabled_probes; eb_interval_s := default_interval_s; eb_background_baseline := false |}.

Definition daemon_es_of : json → option DaemonElasticsearch := table (λ v,
  let! endpoint := required "endpoint" as_str v in
  let! api_key := optional "api_key" as_str v in
  let! ca_cert := optional "ca_cert" as_str v in
  Some {| de_endpoint := endpoint; de_api_key := api_key; de_ca_cert := ca_cert |}).
Definition ebpf_of : json → option EbpfConfig := table (λ v,
  let! probe_path := with_default "probe_path" default_probe_path as_str v in
  let! enabled_probes := with_default "enabled_probes" default_enabled_probes as_strings v in
  let! interval_s := with_default "interval_s" default_interval_s (int_upto u64_max) v in
  let! background_baseline := with_default "background_baseline" false as_bool v in
  Some {| eb_probe_path := probe_path; eb_enabled_probes := enabled_probes; eb_interval_s := interval_s; eb_background_baseline := background_baseline |}).
Definition daemon_config_of : json → option DaemonConfig := table (λ v,
  let! elasticsearch := required "elasticsearch" daemon_es_of v in
  let! ebpf := with_default "ebpf" default_ebpf ebpf_of v in
  Some {| dn_elasticsearch := elasticsearch; dn_ebpf := ebpf |}).

Definition daemon_overrides (c : DaemonConfig) : DaemonConfig :=
  let es := dn_elasticsearch c in
  {| dn_elasticsearch :=
       {| de_endpoint := match non_empty_var m "ES_URL" with Some url => url | None => de_endpoint es end;
          de_api_key := match non_empty_var m "ES_API_KEY" with Some key => Some key | None => de_api_key es end;
          de_ca_cert := match non_empty_var m "ES_CA_CERT" with Some ca => Some ca | None => de_ca_cert es end |};
     dn_ebpf := dn_ebpf c |}.
(** [dirs_or_home] is the agent's [home_dir] again. *)
Definition dirs_or_home : option string := home_dir m.
Definition daemon_path : string :=
  match var m "RIGSIGNAL_CONFIG" with
  | Some env_path => env_path
  | None => match dirs_or_home with
            | Some home => join_path home ".config/rigsignal/rigsignal.toml"
            | None => "/etc/rigsignal/rigsignal.toml"
            end
  end.
Definition daemon_load_from (path : string) : result DaemonConfig string :=
  match read_text m path with
  | None => Err ("reading config file: " +:+ path)
  | Some text => map_ok daemon_overrides (ok_or (and_then (parse_toml text) daemon_config_of) ("parsing config file: " +:+ path))
  end.
Definition daemon_load : result DaemonConfig string := daemon_load_from daemon_path.
End daemon.

(** *** The endpoint in the daemon's log *)

Section log.
Context `{Parsers}.
(** Up to the first of the bytes that end an authority. *)
Fixpoint authority_of (s : string) : string :=
  match s with
  | EmptyString => EmptyString
  | String c rest => if Ascii.eqb c "/" || Ascii.eqb c "?" || Ascii.eqb c "#" then EmptyString else String c (authority_of rest)
  end.
Definition daemon_has_userinfo (input : string) (url : Url) : bool :=
  let input := trim_matches (char_is (ascii_in 0 32)) input in
  if contains (str1 "009") input || contains (str1 nl) input || contains (str1 "013") input then true
  else match and_then (str_get_from (S (String.length (scheme url))) input) (strip_prefix "//") with
       | None => true
       | Some authority =>
           if starts_with "/" authority || starts_with "\" authority then true else contains "@" (authority_of authority)
       end.
Definition endpoint_origin_for_log (value : string) : option string :=
  let! url := parse_url value in
  let! host := host_str url in
  if negb (bool_decide (scheme url ∈ ["http"; "https"])) || daemon_has_userinfo value url || negb (is_empty (username url))
     || bool_decide (is_Some (password url)) || bool_decide (is_Some (query url)) || bool_decide (is_Some (fragment url))
     || negb (bool_decide (url_path url ∈ [EmptyString; "/"])) then None
  else Some (match port url with
             | Some port => scheme url +:+ "://" +:+ host +:+ ":" +:+ show port
             | None => scheme url +:+ "://" +:+ host
             end).
Definition endpoint_for_log (value : string) : string := unwrap_or (endpoint_origin_for_log value) REDACTED.
End log.
