(* ===== verification/ConfigSpec.v ===== *)
(** * What the configuration guarantees ([src/config.rs], [ebpf/rigsignal-ebpf/src/config.rs])

    Writing and reading back, what printing it shows, which file counts, and
    that agent and daemon reduce an endpoint alike. *)
From Stdlib Require Import Ascii.
From S2P Require Import Prelude Float64 EsModel Json FileSystem GameScan Summary HandshakeJson Handshake HandshakeSpec Bulk Config.

(** ** Fields of written tables *)

(** The last member of a name counts. *)
Fixpoint last_get (k : string) (members : list (string * json)) : option json :=
  match members with
  | [] => None
  | m :: rest => match last_get k rest with Some v => Some v | None => if String.eqb (fst m) k then Some (snd m) else None end
  end.
Lemma last_get_app k a b : last_get k (a ++ b) = match last_get k b with Some v => Some v | None => last_get k a end.
Proof. induction a as [|m a IH]; cbn [last_get app]; [by destruct (last_get k b)|]. rewrite IH. by destruct (last_get k b). Qed.
Lemma get_object k members : json_get k (object members) = last_get k members.
Proof.
  unfold object, json_get. induction members as [|m members IH] using rev_ind; [done|]. rewrite map_get_snoc, last_get_app, IH. cbn [last_get].
  by destruct (String.eqb (fst m) k).
Qed.
Lemma last_get_when {A : Type} k name (f : A → json) o : last_get k (when_some name f o) = if String.eqb name k then f <$> o else None.
Proof. destruct o; cbn; [|by destruct (String.eqb name k)]. done. Qed.

Section fields.
Context {A : Type} (f : json → option A) (g : A → json) (k : string) (members : list (string * json)).
Lemma optional_object o : last_get k members = g <$> o → (∀ x, o = Some x → f (g x) = Some x) → optional k f (object members) = Some o.
Proof. unfold optional. rewrite get_object. intros -> Hf. destruct o as [x|]; [|done]. cbn. by rewrite (Hf x eq_refl). Qed.
Lemma default_object d x : last_get k members = Some (g x) → f (g x) = Some x → with_default k d f (object members) = Some x.
Proof. unfold with_default. rewrite get_object. by intros ->. Qed.
Lemma required_object x : last_get k members = Some (g x) → f (g x) = Some x → required k f (object members) = Some x.
Proof. unfold required. rewrite get_object. by intros ->. Qed.
End fields.

Lemma as_strings_back l : as_strings (JArray (JString <$> l)) = Some l.
Proof. unfold as_strings. cbn. induction l as [|x l IH]; [done|]. cbn. by rewrite IH. Qed.
Lemma int_back hi n : n <= hi → int_upto hi (json_u64 n) = Some n.
Proof. intros Hn. cbn. by rewrite (proj2 (Z.leb_le _ _) Hn). Qed.
Lemma table_object {A : Type} (f : json → option A) members : table f (object members) = f (object members).
Proof. done. Qed.

(** A member among those written, found by its name. *)
Ltac find_field :=
  repeat (rewrite last_get_app || rewrite last_get_when);
  cbn [last_get fst snd String.eqb Ascii.eqb Bool.eqb];
  first [reflexivity|match goal with |- _ = _ <$> ?o => by destruct o end].
Ltac value_back := first [reflexivity|apply as_strings_back|apply int_back; solve [lia|eauto]|idtac].
Ltac opt g o := rewrite (optional_object _ g _ _ o); [cbn [and_then]|find_field|intros; value_back].
Ltac def g x := rewrite (default_object _ g _ _ _ x); [cbn [and_then]|find_field|value_back].
Ltac req g x := rewrite (required_object _ g _ _ x); [cbn [and_then]|find_field|value_back].

Lemma settings_back s : settings_of (settings_value s) = Some s.
Proof.
  unfold settings_of, settings_value. rewrite table_object.
  opt JString (cf_preset s). opt JString (cf_upscaler_tech s). opt JString (cf_upscaler_preset s). opt JString (cf_frame_gen_tech s).
  opt (λ l, JArray (JString <$> l)) (cf_features_active s). opt JString (cf_render_resolution_output s). opt JString (cf_render_vsync s).
  opt JString (cf_notes s). by destruct s.
Qed.

(** The integers fit their types. *)
Definition fits_output (o : OutputConfig) : Prop :=
  oc_max_file_bytes o ≤ u64_max ∧ oc_max_file_age_secs o ≤ u64_max ∧ oc_spool_retention_hours o ≤ u64_max.
Definition fits (c : Config) : Prop :=
  fits_output (c_output c) ∧ es_flush_interval_secs (c_elasticsearch c) ≤ u64_max ∧ es_batch_size (c_elasticsearch c) ≤ u64_max
  ∧ co_interval_ms (c_collection c) ≤ u64_max ∧ co_sample_interval_secs (c_collection c) ≤ u64_max
  ∧ (∀ pid, sn_target_pid (c_session c) = Some pid → pid ≤ u32_max).

Section roundtrip.
Context (m : Machine).

Lemma output_back o : fits_output o → output_of m (output_value o) = Some o.
Proof.
  intros (H1 & H2 & H3). unfold output_of, output_value. rewrite table_object.
  def (λ mode, JString (output_mode_str mode)) (oc_mode o); [|by destruct (oc_mode o)]. def JString (oc_spool_dir o).
  def json_u64 (oc_max_file_bytes o). def json_u64 (oc_max_file_age_secs o). def json_u64 (oc_spool_retention_hours o). by destruct o.
Qed.
Lemma elasticsearch_back e : es_flush_interval_secs e ≤ u64_max → es_batch_size e ≤ u64_max → elasticsearch_of (elasticsearch_value e) = Some e.
Proof.
  intros H1 H2. unfold elasticsearch_of, elasticsearch_value. rewrite table_object.
  req JString (es_url e). opt JString (es_api_key e). opt JString (es_username e). opt JString (es_password e). opt JString (es_ca_cert e).
  def JString (es_index_prefix e). def json_u64 (es_flush_interval_secs e). def json_u64 (es_batch_size e). by destruct e.
Qed.
Lemma collection_back c : co_interval_ms c ≤ u64_max → co_sample_interval_secs c ≤ u64_max → collection_of (collection_value c) = Some c.
Proof.
  intros H1 H2. unfold collection_of, collection_value. rewrite table_object.
  def json_u64 (co_interval_ms c). def JBool (co_cpu c). def JBool (co_memory c). def JBool (co_gpu c). def JBool (co_storage c).
  def JBool (co_network c). def JBool (co_ebpf c). def JBool (co_frame_timing c). def JBool (co_game_detection c).
  def json_u64 (co_sample_interval_secs c). by destruct c.
Qed.
Lemma privacy_back p : privacy_of (privacy_value p) = Some p.
Proof.
  unfold privacy_of, privacy_value. rewrite table_object.
  def JBool (pr_opt_in_public p). def JBool (pr_share_ebpf p). def JBool (pr_share_network p). by destruct p.
Qed.
Lemma session_back s : (∀ pid, sn_target_pid s = Some pid → pid ≤ u32_max) → session_of (session_value s) = Some s.
Proof.
  intros Hp. unfold session_of, session_value. rewrite table_object.
  opt JString (sn_label s). def settings_value (sn_settings s); [|apply settings_back]. opt json_u64 (sn_target_pid s).
  opt JString (sn_target_name s). by destruct s.
Qed.
End roundtrip.

Lemma config_back m c : fits c → config_of m (config_value c) = Some c.
Proof.
  intros (Ho & H1 & H2 & H3 & H4 & H5). unfold config_of, config_value. rewrite table_object.
  req elasticsearch_value (c_elasticsearch c); [|by apply elasticsearch_back]. def output_value (c_output c); [|by apply output_back].
  def collection_value (c_collection c); [|by apply collection_back]. def privacy_value (c_privacy c); [|apply privacy_back].
  def session_value (c_session c); [|by apply session_back]. by destruct c.
Qed.


(** ** What is shown *)

(** Nothing but origins: scheme, host and port of an endpoint that names no
    user, or the mark. *)
Definition shown_origin `{Parsers} (endpoint shown : string) : Prop :=
  shown = REDACTED
  ∨ ∃ url host, parse_url endpoint = Some url ∧ host_str url = Some host ∧ url_has_userinfo endpoint url = false
      ∧ (scheme url = "http" ∨ scheme url = "https")
      ∧ shown = scheme url +:+ "://" +:+ host +:+ match port url with Some port => ":" +:+ show port | None => EmptyString end.

(** Two configurations that differ in their secrets alone. *)
Definition same_secret {A : Type} (a b : option A) : Prop := is_Some a ↔ is_Some b.
Record same_but_secrets `{Parsers} (c c' : Config) : Prop := {
  ss_rest : with_es c (c_elasticsearch c') = c';
  ss_origin : endpoint_origin (es_url (c_elasticsearch c)) = endpoint_origin (es_url (c_elasticsearch c'));
  ss_key : same_secret (es_api_key (c_elasticsearch c)) (es_api_key (c_elasticsearch c'));
  ss_user : same_secret (es_username (c_elasticsearch c)) (es_username (c_elasticsearch c'));
  ss_password : same_secret (es_password (c_elasticsearch c)) (es_password (c_elasticsearch c'));
  ss_public : es_ca_cert (c_elasticsearch c) = es_ca_cert (c_elasticsearch c')
              ∧ es_index_prefix (c_elasticsearch c) = es_index_prefix (c_elasticsearch c')
              ∧ es_flush_interval_secs (c_elasticsearch c) = es_flush_interval_secs (c_elasticsearch c')
              ∧ es_batch_size (c_elasticsearch c) = es_batch_size (c_elasticsearch c');
}.
Lemma redact_same {A : Type} (a b : option A) : same_secret a b → redact a = redact b.
Proof. unfold same_secret, redact. destruct a, b; try done; intros [H1 H2]; [by destruct (H1 ltac:(by eexists))|by destruct (H2 ltac:(by eexists))]. Qed.

(** What is displayed is the same, and of the endpoint it is the origin. *)
Lemma displayed_same `{Parsers} c c' : same_but_secrets c c' → redacted_for_display c = redacted_for_display c'.
Proof.
  intros [Hr Ho Hk Hu Hp (H1 & H2 & H3 & H4)]. unfold redacted_for_display, endpoint_for_display. rewrite Ho, H1, H2, H3, H4.
  rewrite (redact_same _ _ Hk), (redact_same _ _ Hu), (redact_same _ _ Hp). by rewrite <-Hr.
Qed.
Lemma shown_for_display `{Parsers} c : shown_origin (es_url (c_elasticsearch c)) (endpoint_for_display c).
Proof.
  unfold endpoint_for_display, shown_origin. destruct (endpoint_origin _) as [o|] eqn:E; [right|by left].
  by apply endpoint_origin_parts.
Qed.

(** C26: [--print-config] shows no secret: what it prints is the same for any two
    configurations that differ in api key, user name, password, or what is hidden
    of the endpoint; of the endpoint it shows scheme, host and port alone, and
    only when it names no user; and what it prints reads back as the redacted
    configuration. *)
Theorem print_config_hides `{Parsers} m to_toml c c' :
  fits c → same_but_secrets c c' →
  print_config to_toml c = print_config to_toml c'
  ∧ shown_origin (es_url (c_elasticsearch c)) (es_url (c_elasticsearch (redacted_for_display c)))
  ∧ config_of m (config_value (redacted_for_display c)) = Some (redacted_for_display c).
Proof.
  intros Hf Hs. split_and!; [|apply shown_for_display|by apply config_back].
  unfold print_config. by rewrite (displayed_same _ _ Hs).
Qed.

Lemma contains_byte c s : contains (str1 c) s = any_byte (λ d, Ascii.eqb d c) s.
Proof.
  induction s as [|d s IH]; [done|]. cbn [contains any_byte]. rewrite IH. unfold starts_with, str1. cbn [strip_prefix].
  change (strip_prefix (String c EmptyString) (String d s)) with (if Ascii.eqb c d then Some s else None).
  rewrite (Ascii.eqb_sym c d). by destruct (Ascii.eqb d c).
Qed.
Lemma any_byte_orb p q s : any_byte (λ c, p c || q c) s = any_byte p s || any_byte q s.
Proof. induction s as [|c s IH]; [done|]. cbn [any_byte]. rewrite IH. by destruct (p c), (q c), (any_byte p s), (any_byte q s). Qed.
Lemma authority_until s : authority_of s = until_byte (is_byte "/?#") s.
Proof. induction s as [|c s IH]; [done|]. cbn [authority_of until_byte]. rewrite IH. unfold is_byte. cbn [any_byte]. by rewrite orb_false_r, orb_assoc. Qed.
Lemma userinfo_alike input url : daemon_has_userinfo input url = url_has_userinfo input url.
Proof.
  unfold daemon_has_userinfo, url_has_userinfo. cbv zeta. rewrite !contains_byte, !any_byte_orb.
  destruct (_ || _); [done|]. destruct (and_then _ _) as [authority|]; [|done]. change "@" with (str1 "@"). by rewrite contains_byte, authority_until.
Qed.

(** Agent and daemon reduce an endpoint alike: the two copies of the
    redaction accept the same endpoints and show the same origin of them. *)
Theorem origins_agree `{Parsers} value : endpoint_origin_for_log value = endpoint_origin value.
Proof.
  unfold endpoint_origin_for_log, endpoint_origin. destruct (parse_url value) as [url|]; [|done]. cbn [and_then].
  destruct (host_str url) as [host|]; cbn [and_then]; [|by destruct (negb _)]. rewrite userinfo_alike, orb_false_r.
  assert (H1 : bool_decide (scheme url ∈ ["http"; "https"]) = String.eqb (scheme url) "http" || String.eqb (scheme url) "https").
  { apply eq_true_iff_eq. rewrite bool_decide_eq_true, orb_true_iff, !String.eqb_eq, !elem_of_cons, elem_of_nil. tauto. }
  assert (H2 : bool_decide (url_path url ∈ [EmptyString; "/"]) = is_empty (url_path url) || String.eqb (url_path url) "/").
  { apply eq_true_iff_eq. rewrite bool_decide_eq_true, orb_true_iff, String.eqb_eq, !elem_of_cons, elem_of_nil. destruct (url_path url); cbn; naive_solver. }
  rewrite H1, H2. assert (H3 : ∀ A (o : option A), bool_decide (is_Some o) = match o with Some _ => true | None => false end).
  { intros A [x|]; [apply bool_decide_eq_true; by eexists|apply bool_decide_eq_false; by intros [? ?]]. }
  by rewrite !H3.
Qed.

(** ** Which file counts *)

Lemma find_first {A : Type} (f : A → bool) l x :
  List.find f l = Some x ↔ ∃ before after, l = before ++ x :: after ∧ f x = true ∧ Forall (λ y, f y = false) before.
Proof.
  split.
  - induction l as [|y l IH]; [done|]. cbn [List.find]. destruct (f y) eqn:E.
    + intros [= <-]. by exists [], l.
    + intros (before & after & -> & Hx & Hb)%IH. exists (y :: before), after. split_and!; [done..|]. by constructor.
  - intros (before & after & -> & Hx & Hb). induction Hb as [|y before Hy _ IH]; cbn [app List.find]; [by rewrite Hx|]. by rewrite Hy.
Qed.

(** The first candidate that exists decides: a configuration is loaded
    exactly when that file is readable text, a table, and has the fields that are
    asked for - a broken one is never passed over for the next - and what is
    loaded is that file under the overrides of the environment.  Candidates are the
    explicit path alone, else the one of the environment alone, else the user's
    and the system's. *)
Theorem load_first m parse_toml warned path c w :
  load m parse_toml warned path = (Ok c, w) ↔
  ∃ before p after text value c0, config_candidates m path = before ++ p :: after
    ∧ Forall (λ q, path_exists m q = false) before ∧ path_exists m p = true
    ∧ read_text m p = Some text ∧ parse_toml text = Some value ∧ config_of m value = Some c0
    ∧ c = apply_env_overrides m c0 ∧ w = warned || retention_set value.
Proof.
  unfold load. cbv zeta. split.
  - destruct (List.find _ _) as [p|] eqn:E; [|done]. apply find_first in E as (before & after & Hc & Hp & Hb).
    unfold load_from. destruct (read_text m p) as [text|] eqn:Et; [|done]. destruct (parse_toml text) as [value|] eqn:Ev; [|done].
    destruct (config_of m value) as [c0|] eqn:E0; [|done]. intros [= <- <-]. exists before, p, after, text, value, c0. split_and!; try done.
    cbn. destruct (retention_set value); by rewrite ?orb_true_r, ?orb_false_r.
  - intros (before & p & after & text & value & c0 & Hc & Hb & Hp & Ht & Hv & H0 & -> & ->).
    rewrite (proj2 (find_first _ _ p)) by (by exists before, after). unfold load_from. rewrite Ht, Hv, H0. cbn.
    destruct (retention_set value); by rewrite ?orb_true_r, ?orb_false_r.
Qed.

(** ** Credentials *)

(** What counts as credentials gives a header. *)
Lemma delivery_authorized c : has_delivery_credentials (c_elasticsearch c) = true → is_Some (authorization c).
Proof.
  unfold has_delivery_credentials, authorization, auth_header. destruct (es_api_key (c_elasticsearch c)); [by eexists|]. cbn [is_some_and orb].
  destruct (es_username (c_elasticsearch c)), (es_password (c_elasticsearch c)); intros; done || by eexists.
Qed.

(** ** Examples *)

#[local] Instance config_parsers : Parsers := example_parsers.
Definition config_machine : Machine := {|
  read_bytes p := if String.eqb p "/etc/rigsignal/rigsignal.toml" then Some "system" else None;
  read_link _ := None; list_dir _ := None;
  path_exists p := String.eqb p "/etc/rigsignal/rigsignal.toml";
  path_is_dir _ := false; canonicalize _ := None;
  var v := if String.eqb v "HOME" then Some "/home/p" else if String.eqb v "ES_API_KEY" then Some "env-key" else None |}.
Definition minimal_value : json := object [("elasticsearch", object [("endpoint", JString "https://es.example:9200/"); ("api_key", JString "file-key")])].
Definition minimal_toml (text : string) : option json := if String.eqb text "system" then Some minimal_value else None.
Definition minimal_config (key user password : option string) : Config :=
  {| c_elasticsearch := {| es_url := "https://es.example:9200/"; es_api_key := key; es_username := user; es_password := password;
                           es_ca_cert := None; es_index_prefix := "rigsignal"; es_flush_interval_secs := 5; es_batch_size := 100 |};
     c_output := default_output config_machine; c_collection := default_collection; c_privacy := default_privacy; c_session := default_session |}.

Lemma minimal_fits key user password : fits (minimal_config key user password).
Proof.
  unfold fits, fits_output, u64_max. cbn [c_output c_elasticsearch c_collection c_session minimal_config default_output default_collection default_session
    oc_max_file_bytes oc_max_file_age_secs oc_spool_retention_hours es_flush_interval_secs es_batch_size co_interval_ms co_sample_interval_secs sn_target_pid].
  unfold default_max_file_bytes, default_max_file_age_secs, default_spool_retention_hours, default_interval_ms, default_sample_interval.
  split_and!; try lia. done.
Qed.
Lemma print_config_hides_witness :
  print_config (λ _, Some EmptyString) (minimal_config (Some "k1") (Some "u1") None) = print_config (λ _, Some EmptyString) (minimal_config (Some "k2") (Some "u2") None)
  ∧ es_url (c_elasticsearch (redacted_for_display (minimal_config (Some "k1") (Some "u1") None))) = "https://es.example:9200".
Proof.
  destruct (print_config_hides config_machine (λ _, Some EmptyString) (minimal_config (Some "k1") (Some "u1") None) (minimal_config (Some "k2") (Some "u2") None)
    (minimal_fits _ _ _) ltac:(split; [reflexivity|reflexivity|split; intros _; by eexists|split; intros _; by eexists|split; by intros [? ?]|by split_and!]))
    as [H _].
  split; [exact H|vm_compute; reflexivity].
Defined.
Lemma load_first_witness :
  (λ c, es_api_key (c_elasticsearch c)) <$> (match fst (load config_machine minimal_toml false None) with Ok c => Some c | Err _ => None end) = Some (Some "env-key").
Proof.
  rewrite (proj2 (load_first config_machine minimal_toml false None (apply_env_overrides config_machine (minimal_config (Some "file-key") None None)) false)
    ltac:(exists ["/home/p/.config/rigsignal/rigsignal.toml"], "/etc/rigsignal/rigsignal.toml", [], "system", minimal_value, (minimal_config (Some "file-key") None None);
          split_and!; repeat constructor)).
  reflexivity.
Defined.

(** A blank key counts as none for the tailer, but the requests carry it, in
    place of the user name and password that are there. *)
Lemma blank_key_shadows_password :
  has_delivery_credentials (c_elasticsearch (minimal_config (Some EmptyString) (Some "u") (Some "p"))) = true
  ∧ authorization (minimal_config (Some EmptyString) (Some "u") (Some "p")) = Some "ApiKey ".
Proof. vm_compute. by split. Qed.
(** Agent and daemon disagree where only the system's file is there: the agent
    reads it, the daemon asks for the user's. *)
Lemma daemon_ignores_system_file :
  is_ok (fst (load config_machine minimal_toml false None)) = true
  ∧ daemon_load config_machine minimal_toml [] true = Err "reading config file: /home/p/.config/rigsignal/rigsignal.toml".
Proof. vm_compute. by split. Qed.
