(* ===== verification/Counters.v ===== *)
(** * Collectors of counters ([src/collectors/linux/{cpu,network,storage}.rs])

    Three collectors that keep the previous reading of a [/proc] file and report
    what has changed since.  The machine is what a tick sees of the file system;
    instants are nanoseconds.  A [None] where a collector returns a pair stands
    for the panic of an [unwrap]. *)
From Stdlib Require Import Ascii Floats.SpecFloat.
From S2P Require Import Prelude Float64 EsModel Json FileSystem GameScan Summary.

(** ** Readings *)

(** [text.lines()] of a file that can be read. *)
Definition text_lines (m : Machine) (path : string) : option (list string) := lines <$> read_text m path.

(** [{ "rigsignal": { part: members } }]. *)
Definition rigsignal_doc (part : string) (members : list (string * json)) : json :=
  object [("rigsignal", object [(part, object members)])].

(** [(x * 10^k).round() / 10^k]. *)
Definition round_to (k : Z) (x : f64) : f64 := f64_div (f64_round (f64_mul x (f64_of_Z (10 ^ k)))) (f64_of_Z (10 ^ k)).

(** [Path::to_str]. *)
Definition to_str (path : string) : option string := if is_utf8 path then Some path else None.

(** ** CPU *)

(** [per_core]: idle and total jiffies of each logical processor. *)
Record ProcStatSnapshot := { per_core : list (Z * Z) }.

Definition jiffies (parts : list string) : option (Z * Z) :=
  let fields := (λ s, unwrap_or (parse_u64 s) 0) <$> take 8 parts in
  match fields with
  | _ :: _ :: _ :: idle :: iowait :: _ => Some (add_u64 idle iowait, foldl add_u64 0 fields)
  | _ => None
  end.
Fixpoint cpu_lines (ls : list string) : list (Z * Z) :=
  match ls with
  | [] => []
  | line :: rest =>
      if negb (starts_with "cpu" line) then []
      else
        let name := unwrap_or (head (split_ascii_whitespace line)) EmptyString in
        if String.eqb name "cpu" then cpu_lines rest
        else match jiffies (tail (split_ascii_whitespace line)) with
             | Some core => core :: cpu_lines rest
             | None => cpu_lines rest
             end
  end.
(** [ProcStatSnapshot::read]. *)
Definition read_snapshot (m : Machine) : option ProcStatSnapshot :=
  (λ ls, {| per_core := cpu_lines ls |}) <$> text_lines m "/proc/stat".

Definition core_utilisation (cur prev : Z * Z) : f64 :=
  let d_total := saturating_sub (snd cur) (snd prev) in
  let d_idle := saturating_sub (fst cur) (fst prev) in
  if d_total =? 0 then f64_zero
  else round_to 1 (f64_mul (f64_of_Z 100) (f64_sub (f64_of_Z 1) (f64_div (f64_of_Z d_idle) (f64_of_Z d_total)))).
Definition utilisation (cur prev : ProcStatSnapshot) : list f64 :=
  zip_with core_utilisation (per_core cur) (per_core prev).

Section cpu.
Context (m : Machine).

(** [read_int] of [cpu.rs]. *)
Definition read_count (path : string) : option Z := and_then (read_text m path) (λ s, parse_u64 (trim s)).
Definition read_str (path : string) : option string := trim <$> read_text m path.

Definition governor : option string := read_str "/sys/bus/cpu/devices/cpu0/cpufreq/scaling_governor".

Definition boost_enabled : bool :=
  match read_count "/sys/devices/system/cpu/cpufreq/boost" with
  | Some v => v =? 1
  | None =>
      match read_count "/sys/devices/system/cpu/intel_pstate/no_turbo" with
      | Some v => v =? 0
      | None => true
      end
  end.

(** The names of a directory, sorted as the paths are. *)
Definition sorted_names (keep : string → bool) (names : list string) : list string :=
  stable_sort str_leb (List.filter (λ n, is_utf8 n && keep n) names).

Definition is_cpu_name (n : string) : bool := starts_with "cpu" n && all_bytes is_ascii_digit (drop_bytes 3 n).
Definition clock_mhz_avg : option Z :=
  let base := "/sys/bus/cpu/devices" in
  let freqs := filter_map (λ n, read_count (join_path (join_path base n) "cpufreq/scaling_cur_freq"))
                          (sorted_names is_cpu_name (unwrap_or (list_dir m base) [])) in
  match freqs with
  | [] => None
  | _ => Some (foldl add_u64 0 freqs / Z.of_nat (length freqs) / 1000)
  end.

Definition millidegrees (v : Z) : f64 := round_to 1 (f64_div (f64_of_Z v) (f64_of_Z 1000)).
Definition is_temp_label (n : string) : bool := starts_with "temp" n && ends_with "_label" n.
(** The first labelled sensor of the die that can be read. *)
Definition labelled_temperature (hwmon : string) : option f64 :=
  head (filter_map (λ n,
    let path := join_path hwmon n in
    let label := unwrap_or (read_str path) EmptyString in
    if contains "Tdie" label || contains "Package" label || contains "Tctl" label then
      millidegrees <$> read_count (replace_all "_label" "_input" path)
    else None)
    (sorted_names is_temp_label (unwrap_or (list_dir m hwmon) []))).
Fixpoint hwmon_temperature (hwmons : list string) : option f64 :=
  match hwmons with
  | [] => None
  | hwmon :: rest =>
      let! name_path := to_str (join_path hwmon "name") in
      let! name := read_str name_path in
      if negb (String.eqb name "k10temp") && negb (String.eqb name "coretemp") then hwmon_temperature rest
      else match labelled_temperature hwmon with
           | Some t => Some t
           | None =>
               match read_count (join_path hwmon "temp1_input") with
               | Some v => Some (millidegrees v)
               | None => hwmon_temperature rest
               end
           end
  end.
Definition temperature_c : option f64 :=
  let base := "/sys/class/hwmon" in
  let! names := list_dir m base in
  hwmon_temperature (join_path base <$> stable_sort str_leb names).
End cpu.

(** The energy counter is read twice, 50 ms apart. *)
Definition power_w (m later : Machine) : option f64 :=
  let rapl_path := "/sys/class/powercap/intel-rapl/intel-rapl:0/energy_uj" in
  if negb (path_exists m rapl_path) then None
  else
    let! e1 := read_count m rapl_path in
    let! e2 := read_count later rapl_path in
    let watts := f64_div (f64_div (f64_of_Z (saturating_sub e2 e1)) (f64_lit 5 2)) (f64_of_Z 1000000) in
    Some (round_to 1 watts).

Record CpuCollector := { cpu_prev : option ProcStatSnapshot; cpu_game_pid : option Z }.
Definition new_cpu (game_pid : option Z) : CpuCollector := {| cpu_prev := None; cpu_game_pid := game_pid |}.

Definition total_utilisation (cores : list f64) : f64 :=
  match cores with
  | [] => f64_zero
  | _ => round_to 1 (f64_div (f64_sum cores) (f64_of_Z (Z.of_nat (length cores))))
  end.
Definition cpu_doc (m later : Machine) (cores : list f64) : json :=
  rigsignal_doc "cpu"
    ([("total_utilisation_pct", json_f64 (total_utilisation cores)); ("per_core", JArray (json_f64 <$> cores));
      ("boost_state", JBool (boost_enabled m))]
     ++ when_some "clock_mhz_avg" json_u64 (clock_mhz_avg m)
     ++ when_some "temperature_c" json_f64 (temperature_c m)
     ++ when_some "power_w" json_f64 (power_w m later)
     ++ when_some "governor" JString (governor m)).

(** [CpuCollector::collect]; the machine at the tick and 50 ms later. *)
Definition collect_cpu (e : Machine * Machine) (s : CpuCollector) : CpuCollector * result (option json) unit :=
  match read_snapshot (fst e) with
  | None => (s, Err ())
  | Some snap =>
      let s' := {| cpu_prev := Some snap; cpu_game_pid := cpu_game_pid s |} in
      match cpu_prev s with
      | None => (s', Ok None)
      | Some prev => (s', Ok (Some (cpu_doc (fst e) (snd e) (utilisation snap prev))))
      end
  end.

(** ** Network *)

Definition SKIP_PREFIXES : list string := ["lo"; "docker"; "br-"; "veth"; "virbr"; "tun"; "tap"; "vlan"].

Record IfaceStats := { rx_bytes : Z; rx_packets : Z; tx_bytes : Z; tx_packets : Z }.
Abbreviation Ifaces := (list (string * IfaceStats)).

(** [parts[i].parse().unwrap_or(0)]. *)
Definition int_at (parts : list string) (i : nat) : Z := unwrap_or (and_then (parts !! i) parse_i64) 0.
Definition trim_colons : string → string := trim_end_matches (String.eqb ":").

Definition net_dev_line (line : string) : option (string * IfaceStats) :=
  let parts := split_ascii_whitespace line in
  if (length parts <? 11)%nat then None
  else Some (trim_colons (unwrap_or (head parts) EmptyString),
             {| rx_bytes := int_at parts 1; rx_packets := int_at parts 2; tx_bytes := int_at parts 9; tx_packets := int_at parts 10 |}).
Definition parse_net_dev (m : Machine) : Ifaces :=
  match text_lines m "/proc/net/dev" with
  | Some ls => filter_map net_dev_line (drop 2 ls)
  | None => []
  end.

(** The first line of values long enough decides. *)
Definition retransmits_line (line : string) : option Z :=
  if starts_with "Tcp:" line && negb (contains "RetransSegs" line) then
    let parts := split_ascii_whitespace line in
    if (12 <? length parts)%nat then Some (int_at parts 12) else None
  else None.
Definition parse_tcp_retransmits (m : Machine) : Z :=
  match text_lines m "/proc/net/snmp" with
  | Some ls => unwrap_or (head (filter_map retransmits_line ls)) 0
  | None => 0
  end.

Definition is_skipped (iface : string) : bool := existsb (λ p, starts_with p iface) SKIP_PREFIXES.
Definition better_iface (best : option string * Z) (i : string * IfaceStats) : option string * Z :=
  if is_skipped (fst i) then best
  else if snd best <? rx_bytes (snd i) then (Some (fst i), rx_bytes (snd i)) else best.
Definition primary_interface (stats : Ifaces) : option string := fst (foldl better_iface (None, -1) stats).
Definition get_iface (stats : Ifaces) (iface : string) : option IfaceStats :=
  snd <$> List.find (λ i, String.eqb (fst i) iface) stats.
Definition connection_type (iface : string) : string :=
  if starts_with "wlan" iface || starts_with "wlp" iface || starts_with "wlo" iface || starts_with "wifi" iface
  then "wifi" else "ethernet".

Record NetworkCollector := { prev_stats : option Ifaces; prev_time : option Z; prev_retransmits : Z }.
Definition new_network : NetworkCollector := {| prev_stats := None; prev_time := None; prev_retransmits := 0 |}.

(** [now.duration_since(prev).as_secs_f64()]. *)
Definition seconds_since (now prev : Z) : f64 :=
  let d := Z.max 0 (now - prev) in
  f64_add (f64_of_Z (d / 10 ^ 9)) (f64_div (f64_of_Z (d mod 10 ^ 9)) (f64_of_Z (10 ^ 9))).

(** [(cur - prv) as f64 / dt]. *)
Definition rate (dt : f64) (cur prv : Z) : f64 := f64_div (f64_of_Z (sub_i64 cur prv)) dt.
Definition MIB : f64 := f64_of_Z 1048576.

Definition network_doc (iface : string) (dt : f64) (cur prv : IfaceStats) (retransmits prev_retransmits : Z) : json :=
  let rx_bps := rate dt (rx_bytes cur) (rx_bytes prv) in
  let tx_bps := rate dt (tx_bytes cur) (tx_bytes prv) in
  rigsignal_doc "network"
    [("rx_mbps", json_f64 (round_to 3 (f64_div rx_bps MIB)));
     ("tx_mbps", json_f64 (round_to 3 (f64_div tx_bps MIB)));
     ("rx_packets_per_sec", json_f64 (round_to 1 (rate dt (rx_packets cur) (rx_packets prv))));
     ("tx_packets_per_sec", json_f64 (round_to 1 (rate dt (tx_packets cur) (tx_packets prv))));
     ("tcp_retransmits_per_sec", json_f64 (round_to 2 (rate dt retransmits prev_retransmits)));
     ("bandwidth_utilisation_mbps", json_f64 (round_to 3 (f64_div (f64_add rx_bps tx_bps) MIB)));
     ("connection_type", JString (connection_type iface));
     ("interface", JString iface)].

(** [NetworkCollector::collect] at the instant [now]. *)
Definition collect_network (e : Z * Machine) (s : NetworkCollector) : option (NetworkCollector * option json) :=
  let (now, m) := e in
  let current := parse_net_dev m in
  let retransmits_total := parse_tcp_retransmits m in
  let s' := {| prev_stats := Some current; prev_time := Some now; prev_retransmits := retransmits_total |} in
  match prev_stats s with
  | None => Some (s', None)
  | Some prev =>
      let! prev_time := prev_time s in
      let dt := seconds_since now prev_time in
      if f64_le dt f64_zero then Some (s', None)
      else match primary_interface current with
           | None => Some (s', None)
           | Some iface =>
               match get_iface prev iface with
               | None => Some (s', None)
               | Some prv =>
                   let! cur := get_iface current iface in
                   Some (s', Some (network_doc iface dt cur prv retransmits_total (prev_retransmits s)))
               end
           end
  end.

(** ** Storage *)

Definition F_READ_IOS : nat := 0.
Definition F_READ_MERGES : nat := 1.
Definition F_READ_SECTORS : nat := 2.
Definition F_READ_TICKS : nat := 3.
Definition F_WRITE_IOS : nat := 4.
Definition F_WRITE_MERGES : nat := 5.
Definition F_WRITE_SECTORS : nat := 6.
Definition F_WRITE_TICKS : nat := 7.
Definition F_IO_IN_PROGRESS : nat := 8.
Definition F_IO_TICKS : nat := 9.
Definition SECTOR_BYTES : f64 := f64_of_Z 512.

(** Devices and their numbers, in the order of the file. *)
Abbreviation DiskStats := (list (string * list Z)).

Definition diskstats_line (line : string) : option (string * list Z) :=
  let parts := split_ascii_whitespace line in
  if (length parts <? 14)%nat then None
  else Some (unwrap_or (parts !! 2%nat) EmptyString, (λ s, unwrap_or (parse_i64 s) 0) <$> drop 3 parts).
Definition parse_diskstats (m : Machine) : DiskStats :=
  match text_lines m "/proc/diskstats" with Some ls => filter_map diskstats_line ls | None => [] end.
Definition get_stats (ds : DiskStats) (dev : string) : option (list Z) :=
  snd <$> List.find (λ d, String.eqb (fst d) dev) ds.
Definition is_virtual (dev : string) : bool :=
  starts_with "loop" dev || starts_with "ram" dev || starts_with "dm" dev || starts_with "zram" dev.
Definition first_real_device (ds : DiskStats) : option string :=
  fst <$> List.find (λ d, negb (is_virtual (fst d))) ds.

Definition better_mount (sp : string) (best : option string * Z) (line : string) : option string * Z :=
  match split_ascii_whitespace line with
  | dev :: mp :: _ => if starts_with mp sp && (snd best <? slen mp) then (Some dev, slen mp) else best
  | _ => best
  end.
(** The device of the longest mount point that is a prefix of [sp]. *)
Definition mount_device (mounts sp : string) : option string := fst (foldl (better_mount sp) (None, 0) (lines mounts)).
Definition device_of (m : Machine) (sp : string) : option string :=
  if negb (path_exists m sp) then None
  else
    let! mounts := read_text m "/proc/mounts" in
    let! dev := mount_device mounts sp in
    if starts_with "/dev/" dev then path_file_name (path_from dev) else None.
Definition steam_paths (m : Machine) : list string :=
  let home := unwrap_or (var m "HOME") "/root" in
  [home +:+ "/.steam/steam/steamapps"; home +:+ "/.local/share/Steam/steamapps"; "/run/media"].
(** Read without the length check of [parse_diskstats]. *)
Definition real_device_line (line : string) : option string :=
  let! dev := split_ascii_whitespace line !! 2%nat in
  if is_virtual dev then None else Some dev.
Definition find_game_device (m : Machine) : option string :=
  match head (filter_map (device_of m) (steam_paths m)) with
  | Some name => Some name
  | None => and_then (text_lines m "/proc/diskstats") (λ ls, head (filter_map real_device_line ls))
  end.

Record StorageCollector := { st_prev : option DiskStats; st_prev_time : option Z; st_device : option string }.
Definition new_storage (m : Machine) : StorageCollector :=
  {| st_prev := None; st_prev_time := None; st_device := find_game_device m |}.

Definition stat_at (v : list Z) (idx : nat) : Z := unwrap_or (v !! idx) 0.
(** [d_ticks * 1000 / d_ios], in microseconds. *)
Definition mean_latency_us (d_ticks d_ios : Z) : Z := if 0 <? d_ios then Z.quot (mul_i64 d_ticks 1000) d_ios else 0.

Definition storage_doc (dt : f64) (cur prv : list Z) : json :=
  let d idx := sub_i64 (stat_at cur idx) (stat_at prv idx) in
  let mbps sectors := round_to 2 (f64_div (f64_div (f64_mul (f64_of_Z sectors) SECTOR_BYTES) dt) MIB) in
  let per_second n := as_i64_cast (f64_div (f64_of_Z n) dt) in
  let busy := f64_min (f64_div (f64_of_Z (d F_IO_TICKS)) (f64_mul dt (f64_of_Z 10))) (f64_of_Z 100) in
  rigsignal_doc "storage"
    [("read_mbps", json_f64 (mbps (d F_READ_SECTORS)));
     ("write_mbps", json_f64 (mbps (d F_WRITE_SECTORS)));
     ("read_iops", json_i64 (per_second (d F_READ_IOS)));
     ("write_iops", json_i64 (per_second (d F_WRITE_IOS)));
     ("io_latency_read_us", object [("avg", json_i64 (mean_latency_us (d F_READ_TICKS) (d F_READ_IOS)))]);
     ("io_latency_write_us", object [("avg", json_i64 (mean_latency_us (d F_WRITE_TICKS) (d F_WRITE_IOS)))]);
     ("queue_depth_current", json_i64 (stat_at cur F_IO_IN_PROGRESS));
     ("io_wait_pct", json_f64 (round_to 1 busy));
     ("merged_reads", json_i64 (per_second (d F_READ_MERGES)));
     ("merged_writes", json_i64 (per_second (d F_WRITE_MERGES)))].

(** The device of a tick: the one found at the start while it is there, or the
    first real one. *)
Definition tick_device (device : option string) (current : DiskStats) : option string :=
  if is_none_or device (λ d, bool_decide (get_stats current d = None)) then first_real_device current else device.

(** [StorageCollector::collect] at the instant [now]. *)
Definition collect_storage (e : Z * Machine) (s : StorageCollector) : option (StorageCollector * option json) :=
  let (now, m) := e in
  let current := parse_diskstats m in
  let s' := {| st_prev := Some current; st_prev_time := Some now; st_device := st_device s |} in
  match st_prev s with
  | None => Some (s', None)
  | Some prev =>
      let! prev_time := st_prev_time s in
      let dt := seconds_since now prev_time in
      if f64_le dt f64_zero then Some (s', None)
      else
        let dev := tick_device (st_device s) current in
        match and_then dev (get_stats prev) with
        | None => Some (s', None)
        | Some prv =>
            let! cur := and_then dev (get_stats current) in
            Some (s', Some (storage_doc dt cur prv))
        end
  end.
