(* ===== verification/CountersSpec.v ===== *)
(** * What the counter collectors promise

    The three collectors of [Counters] are one machine: each tick that can be
    read is compared with the last one before it that could.  [Differencing]
    states that, [differences_run] proves it of every run, and each collector is
    an instance.  Then what the collectors choose: the interface, the device and
    the pairs of processors they compare. *)
From Stdlib Require Import Ascii Floats.SpecFloat.
From S2P Require Import Prelude Float64 EsModel Json FileSystem GameScan Summary Counters.

(** ** Runs *)

(** A collector: [None] from [dc_step] is a panic; a tick that cannot be read
    is an error. *)
Class Differencing (Env State Sample Doc : Type) := {
  dc_step : Env → State → option (State * result (option Doc) unit);
  dc_sample : Env → option Sample;
  dc_compare : Env → Sample → Sample → option Doc;
  dc_shows : option Sample → State → Prop;
  dc_law : ∀ e prev s, dc_shows prev s →
    match dc_sample e with
    | None => dc_step e s = Some (s, Err ())
    | Some x => ∃ s', dc_step e s = Some (s', Ok (and_then prev (λ p, dc_compare e p x))) ∧ dc_shows (Some x) s'
    end;
}.

Section runs.
Context `{Differencing Env State Sample Doc}.

(** What the collector answers to a sequence of ticks. *)
Fixpoint dc_run (es : list Env) (s : State) : option (list (result (option Doc) unit)) :=
  match es with
  | [] => Some []
  | e :: es => let! (s', r) := dc_step e s in let! rs := dc_run es s' in Some (r :: rs)
  end.

(** The reference: consecutive readings compared. *)
Fixpoint differences (prev : option Sample) (es : list Env) : list (result (option Doc) unit) :=
  match es with
  | [] => []
  | e :: es =>
      match dc_sample e with
      | None => Err () :: differences prev es
      | Some x => Ok (and_then prev (λ p, dc_compare e p x)) :: differences (Some x) es
      end
  end.

Lemma differences_step e prev s : dc_shows prev s →
  ∃ s' r prev', dc_step e s = Some (s', r) ∧ dc_shows prev' s' ∧ ∀ es, differences prev (e :: es) = r :: differences prev' es.
Proof.
  intros Hs. pose proof (dc_law e prev s Hs) as Hl. cbn [differences]. destruct (dc_sample e) as [x|].
  - destruct Hl as (s' & -> & Hs'). by eexists _, _, _.
  - by eexists _, _, _.
Qed.
Lemma differences_run es : ∀ prev s, dc_shows prev s → dc_run es s = Some (differences prev es).
Proof.
  induction es as [|e es IH]; intros prev s Hs; [done|].
  destruct (differences_step e prev s Hs) as (s' & r & prev' & E & Hs' & Hd). cbn [dc_run]. by rewrite E, (IH _ _ Hs'), Hd.
Qed.
End runs.

(** ** The three collectors *)

#[export, program] Instance cpu_differencing : Differencing (Machine * Machine) CpuCollector ProcStatSnapshot json := {|
  dc_step e s := Some (collect_cpu e s);
  dc_sample e := read_snapshot (fst e);
  dc_compare e p x := Some (cpu_doc (fst e) (snd e) (utilisation x p));
  dc_shows prev s := cpu_prev s = prev;
|}.
Next Obligation.
  intros e prev s <-. unfold collect_cpu. destruct (read_snapshot (fst e)) as [x|]; [|done].
  destruct (cpu_prev s) as [p|]; eauto.
Qed.

(** When the tick was, the interfaces and the retransmissions. *)
Abbreviation NetSample := (Z * Ifaces * Z)%type.
Definition net_sample (e : Z * Machine) : NetSample := (fst e, parse_net_dev (snd e), parse_tcp_retransmits (snd e)).
Definition net_compare (p x : NetSample) : option json :=
  let '(t0, ifaces0, retransmits0) := p in
  let '(t1, ifaces1, retransmits1) := x in
  let dt := seconds_since t1 t0 in
  if f64_le dt f64_zero then None
  else
    let! iface := primary_interface ifaces1 in
    let! prv := get_iface ifaces0 iface in
    let! cur := get_iface ifaces1 iface in
    Some (network_doc iface dt cur prv retransmits1 retransmits0).

(** ** Choosing by a score *)

Section first_max.
Context {A : Type} (score : A → option Z).

(** Keep what has been kept unless the next scores higher. *)
Definition keep_better (best : option A * Z) (x : A) : option A * Z :=
  match score x with
  | Some z => if snd best <? z then (Some x, z) else best
  | None => best
  end.

(** [x] is the first of the best of [l], and better than [floor]. *)
Definition first_best (floor : Z) (l : list A) (x : A) (z : Z) : Prop :=
  ∃ before after, l = before ++ x :: after ∧ score x = Some z ∧ floor < z
    ∧ (∀ y w, y ∈ before → score y = Some w → w < z) ∧ (∀ y w, y ∈ after → score y = Some w → w ≤ z).

Lemma keep_better_stays l b z : (∀ y w, y ∈ l → score y = Some w → w ≤ z) → foldl keep_better (b, z) l = (b, z).
Proof.
  intros Hl. induction l as [|y l IH]; [done|]. cbn [foldl]. unfold keep_better at 2. cbn [snd].
  destruct (score y) as [w|] eqn:Ey; [|apply IH; set_solver].
  pose proof (Hl y w ltac:(set_solver) Ey). destruct (Z.ltb_spec z w); [lia|]. apply IH. set_solver.
Qed.
Lemma keep_better_exact floor l :
  (∃ x z, foldl keep_better (None, floor) l = (Some x, z) ∧ first_best floor l x z)
  ∨ foldl keep_better (None, floor) l = (None, floor) ∧ ∀ y w, y ∈ l → score y = Some w → w ≤ floor.
Proof.
  induction l as [|y l IH] using rev_ind; [right; split; [done|set_solver]|].
  rewrite foldl_app. cbn [foldl].
  destruct IH as [(x & z & E & b & a & -> & Hx & Hz & Hb & Ha)|[E Hl]]; rewrite !E; unfold keep_better; cbn [snd].
  - left. destruct (score y) as [w|] eqn:Ey; [destruct (Z.ltb_spec z w)|].
    + exists y, w. split; [done|]. exists (b ++ x :: a), []. repeat split; try done; [lia| |set_solver].
      intros v u Hv Hu. rewrite elem_of_app, elem_of_cons in Hv. destruct Hv as [Hv|[ ->|Hv]].
      * pose proof (Hb _ _ Hv Hu). lia.
      * simplify_eq. lia.
      * pose proof (Ha _ _ Hv Hu). lia.
    + exists x, z. split; [done|]. exists b, (a ++ [y]). rewrite <- app_assoc. repeat split; try done.
      intros v u [Hv| ->%list_elem_of_singleton]%elem_of_app Hu; [by eapply Ha|]. simplify_eq. lia.
    + exists x, z. split; [done|]. exists b, (a ++ [y]). rewrite <- app_assoc. repeat split; try done.
      intros v u [Hv| ->%list_elem_of_singleton]%elem_of_app Hu; [by eapply Ha|]. simplify_eq.
  - destruct (score y) as [w|] eqn:Ey; [destruct (Z.ltb_spec floor w)|].
    + left. exists y, w. split; [done|]. exists l, []. repeat split; try done; [|set_solver].
      intros v u Hv Hu. pose proof (Hl _ _ Hv Hu). lia.
    + right. split; [done|]. intros v u [Hv| ->%list_elem_of_singleton]%elem_of_app Hu; [by eapply Hl|]. simplify_eq. lia.
    + right. split; [done|]. intros v u [Hv| ->%list_elem_of_singleton]%elem_of_app Hu; [by eapply Hl|]. simplify_eq.
Qed.
Lemma keep_better_iff floor l x z : foldl keep_better (None, floor) l = (Some x, z) ↔ first_best floor l x z.
Proof.
  split.
  - intros E. destruct (keep_better_exact floor l) as [(x' & z' & E' & Hf)|[E' _]]; rewrite E' in E; by simplify_eq.
  - intros (b & a & -> & Hx & Hz & Hb & Ha). rewrite foldl_app. cbn [foldl].
    assert (Hlt : snd (foldl keep_better (None, floor) b) < z).
    { destruct (keep_better_exact floor b) as [(y & w & -> & b1 & b2 & -> & Hy & _)|[-> _]]; [|done].
      apply (Hb y w); [set_solver|done]. }
    destruct (foldl keep_better (None, floor) b) as [o w]. cbn [snd] in Hlt.
    unfold keep_better at 2. rewrite Hx. cbn [snd].
    destruct (Z.ltb_spec w z); [|lia]. by apply keep_better_stays.
Qed.
End first_max.

(** A loop that keeps only a part of its best element. *)
Lemma foldl_keep_map {A B C : Type} (g : A → option B) (score : A → option Z) (f : B → C)
    (step : option C * Z → A → option C * Z) l :
  (∀ b x, step b x = match score x with
                     | Some z => if snd b <? z then (f <$> g x, z) else b
                     | None => b
                     end) →
  ∀ (o : option A) z,
    foldl step (and_then o (λ x, f <$> g x), z) l
    = (and_then (fst (foldl (keep_better score) (o, z) l)) (λ x, f <$> g x), snd (foldl (keep_better score) (o, z) l)).
Proof.
  intros Hstep. induction l as [|x l IH]; intros o z; [done|]. cbn [foldl]. rewrite Hstep. cbn [snd].
  assert (Hk : keep_better score (o, z) x = match score x with Some w => if z <? w then (Some x, w) else (o, z) | None => (o, z) end) by done.
  rewrite Hk. destruct (score x) as [w|]; [|apply IH]. destruct (z <? w); [|apply IH]. apply (IH (Some x)).
Qed.

(** ** Interfaces *)

(** What counts for an interface: the bytes received, unless it is virtual. *)
Definition iface_score (i : string * IfaceStats) : option Z :=
  if is_skipped (fst i) then None else Some (rx_bytes (snd i)).

Lemma primary_of_best stats : primary_interface stats = fst <$> fst (foldl (keep_better iface_score) (None, -1) stats).
Proof.
  unfold primary_interface.
  pose proof (foldl_keep_map Some iface_score fst better_iface stats
    ltac:(intros [b z] [n s]; unfold better_iface, iface_score; cbn [fst snd]; by destruct (is_skipped n)) None (-1)) as Hk.
  cbn [and_then] in Hk. rewrite Hk. by destruct (foldl _ _ _) as [[i|] z].
Qed.

(** The primary interface is the first of those with the most received
    bytes among the interfaces whose name has none of the skipped prefixes; there
    is none exactly when every interface is skipped (or counts below zero). *)
Theorem primary_interface_exact (stats : Ifaces) :
  (∀ name, primary_interface stats = Some name ↔ ∃ s z, first_best iface_score (-1) stats (name, s) z)
  ∧ (primary_interface stats = None ↔ ∀ i, i ∈ stats → is_skipped (fst i) = true ∨ rx_bytes (snd i) < 0).
Proof.
  rewrite primary_of_best. destruct (keep_better_exact iface_score (-1) stats) as [([n s] & z & E & Hf)|[E Hl]].
  - rewrite E. cbn [fmap option_fmap option_map fst]. split.
    + intros name. split; [intros [= <-]; eauto|]. intros (s' & z' & Hf'). apply keep_better_iff in Hf'. rewrite E in Hf'. by simplify_eq.
    + split; [done|]. intros Hn. destruct Hf as (b & a & -> & Hs & Hz & _). unfold iface_score in Hs. cbn [fst snd] in Hs.
      destruct (Hn (n, s) ltac:(set_solver)) as [Hk|Hk]; cbn [fst snd] in Hk; [by rewrite Hk in Hs|].
      destruct (is_skipped n); [done|]. injection Hs as Hs. lia.
  - rewrite E. cbn [fmap option_fmap option_map fst]. split.
    + intros name. split; [done|]. intros (s & z & Hf%keep_better_iff). by rewrite E in Hf.
    + split; [intros _ i Hi|done]. destruct (is_skipped (fst i)) eqn:Ek; [by left|right].
      pose proof (Hl i (rx_bytes (snd i)) Hi) as Hw. unfold iface_score in Hw. rewrite Ek in Hw. specialize (Hw eq_refl). lia.
Qed.

Lemma find_name {A : Type} (l : list (string * A)) name x : (name, x) ∈ l → is_Some (List.find (λ i, String.eqb (fst i) name) l).
Proof.
  intros Hin%list_elem_of_In. destruct (List.find _ l) as [y|] eqn:E; [done|].
  pose proof (find_none _ _ E _ Hin) as Hn. cbn in Hn. by rewrite String.eqb_refl in Hn.
Qed.
Lemma primary_present stats name : primary_interface stats = Some name → is_Some (get_iface stats name).
Proof.
  rewrite primary_of_best. destruct (keep_better_exact iface_score (-1) stats) as [([n s] & z & -> & b & a & -> & _)|[-> _]]; [|done].
  intros [= ->]. unfold get_iface. by destruct (find_name (b ++ (name, s) :: a) name s ltac:(set_solver)) as [y ->].
Qed.

(** The answer and the state of a branch are read off. *)
Ltac answers := eexists; split; [reflexivity|]; repeat split.

#[export, program] Instance network_differencing : Differencing (Z * Machine) NetworkCollector NetSample json := {|
  dc_step e s := (λ r, (fst r, Ok (snd r))) <$> collect_network e s;
  dc_sample e := Some (net_sample e);
  dc_compare _ p x := net_compare p x;
  dc_shows prev s :=
    match prev with
    | None => prev_stats s = None
    | Some (t, ifaces, retransmits) =>
        prev_stats s = Some ifaces ∧ prev_time s = Some t ∧ prev_retransmits s = retransmits
    end;
|}.
Next Obligation.
  intros [now m] prev s Hs. unfold collect_network. cbn [net_sample fst snd].
  destruct prev as [[[t ifaces] retransmits]|]; [|rewrite Hs; answers].
  destruct Hs as (-> & -> & <-). unfold net_sample, net_compare. cbn [and_then fst snd].
  destruct (f64_le _ _); [answers|].
  destruct (primary_interface (parse_net_dev m)) as [iface|] eqn:Ei; [|answers].
  destruct (get_iface ifaces iface); [|answers].
  destruct (primary_present _ _ Ei) as [cur ->]. answers.
Qed.

(** ** Devices *)

Lemma tick_device_present device ds dev : tick_device device ds = Some dev → is_Some (get_stats ds dev).
Proof.
  unfold tick_device. destruct device as [d|]; cbn [is_none_or].
  - case_bool_decide as Hd; [|intros [= ->]; by destruct (get_stats ds dev)]. unfold first_real_device, get_stats.
    intros Hf. destruct (List.find _ ds) as [[n v]|] eqn:E; simplify_eq/=.
    apply find_some in E as [Hin _]. destruct (find_name ds dev v) as [y Ey]; [by apply list_elem_of_In|]. by rewrite Ey.
  - unfold first_real_device, get_stats. intros Hf. destruct (List.find _ ds) as [[n v]|] eqn:E; simplify_eq/=.
    apply find_some in E as [Hin _]. destruct (find_name ds dev v) as [y Ey]; [by apply list_elem_of_In|]. by rewrite Ey.
Qed.

(** When the tick was, and what the devices counted. *)
Definition disk_sample (e : Z * Machine) : Z * DiskStats := (fst e, parse_diskstats (snd e)).
Definition disk_compare (device : option string) (p x : Z * DiskStats) : option json :=
  let dt := seconds_since (fst x) (fst p) in
  if f64_le dt f64_zero then None
  else
    let! dev := tick_device device (snd x) in
    let! prv := get_stats (snd p) dev in
    let! cur := get_stats (snd x) dev in
    Some (storage_doc dt cur prv).

(** The device found at the start does not change. *)
#[export, program] Instance storage_differencing (device : option string)
  : Differencing (Z * Machine) StorageCollector (Z * DiskStats) json := {|
  dc_step e s := (λ r, (fst r, Ok (snd r))) <$> collect_storage e s;
  dc_sample e := Some (disk_sample e);
  dc_compare _ p x := disk_compare device p x;
  dc_shows prev s := st_device s = device ∧ st_prev s = snd <$> prev ∧ (is_Some prev → st_prev_time s = fst <$> prev);
|}.
Next Obligation.
  intros device [now m] prev s (Hd & Hp & Ht). unfold collect_storage. rewrite Hp, Hd. cbn [disk_sample fst snd].
  destruct prev as [[t ds]|]; cbn [fmap option_fmap option_map snd]; [|answers].
  rewrite (Ht ltac:(done)). unfold disk_sample, disk_compare. cbn [and_then fmap option_fmap option_map fst snd].
  destruct (f64_le _ _); [answers|].
  destruct (tick_device device (parse_diskstats m)) as [dev|] eqn:Ed; cbn [and_then]; [|answers].
  destruct (get_stats ds dev); [|answers].
  destruct (tick_device_present _ _ _ Ed) as [cur ->]. answers.
Qed.

(** C13: over every sequence of ticks, with any machine at each of them, none
    of the three collectors panics, the first tick that can be read gives no
    document, and each later one gives the comparison of what it reads with what
    the tick before it read: no branch loses a reading, counts one twice, or
    keeps an older one.  A tick at which [/proc/stat] cannot be read is an error
    and leaves the processor collector as it was. *)
Theorem counters_compare_neighbours :
  (∀ pid es, dc_run es (new_cpu pid) = Some (differences None es))
  ∧ (∀ es, dc_run es new_network = Some (differences None es))
  ∧ (∀ m es, dc_run (H := storage_differencing (find_game_device m)) es (new_storage m)
             = Some (differences (H := storage_differencing (find_game_device m)) None es)).
Proof.
  split; [|split].
  - intros pid es. by apply differences_run.
  - intros es. by apply differences_run.
  - intros m es. by apply differences_run.
Qed.

(** ** Processors by their names *)

(** What the code reads of each line, with the name it drops. *)
Definition named_core (line : string) : option (string * (Z * Z)) :=
  let name := unwrap_or (head (split_ascii_whitespace line)) EmptyString in
  if String.eqb name "cpu" then None else pair name <$> jiffies (tail (split_ascii_whitespace line)).
Definition named_cores (ls : list string) : list (string * (Z * Z)) := filter_map named_core (take_while (starts_with "cpu") ls).

Lemma cpu_lines_named ls : cpu_lines ls = snd <$> named_cores ls.
Proof.
  unfold named_cores. induction ls as [|line ls IH]; [done|]. cbn [cpu_lines take_while].
  destruct (starts_with "cpu" line); [|done]. cbn [negb filter_map]. unfold named_core at 1.
  destruct (String.eqb _ _); [done|]. destruct (jiffies _); cbn; [by f_equal|done].
Qed.

(** The utilisation of each processor of [cur] that [prev] has too. *)
Definition named_utilisation (cur prev : list (string * (Z * Z))) : list (string * f64) :=
  filter_map (λ c, (λ p, (fst c, core_utilisation (snd c) (snd p))) <$> List.find (λ p, String.eqb (fst p) (fst c)) prev) cur.

Lemma find_after {A : Type} (before : list (string * A)) n x rest :
  n ∉ before.*1 → List.find (λ p, String.eqb (fst p) n) (before ++ (n, x) :: rest) = Some (n, x).
Proof.
  induction before as [|[k y] before IH]; intros Hn; cbn; [by rewrite String.eqb_refl|].
  rewrite fmap_cons, not_elem_of_cons in Hn. destruct Hn as [Hk Hn]. destruct (String.eqb_spec k n); [by subst|]. by apply IH.
Qed.
Lemma zip_by_name cur : ∀ before prev,
  cur.*1 = prev.*1 → NoDup ((before ++ prev).*1) →
  zip_with core_utilisation cur.*2 prev.*2 = (named_utilisation cur (before ++ prev)).*2.
Proof.
  induction cur as [|[n c] cur IH]; intros before [|[k x] prev] Hn Hd; simplify_eq/=; [done|].
  unfold named_utilisation. cbn [filter_map fst snd]. rewrite find_after.
  - cbn. f_equal. rewrite (IH (before ++ [(k, x)]) prev).
    + by rewrite <- app_assoc.
    + congruence.
    + by rewrite <- app_assoc.
  - rewrite fmap_app, NoDup_app in Hd. destruct Hd as (_ & Hd & _). intros Hin. apply (Hd _ Hin). by left.
Qed.

(** While [/proc/stat] lists the same processors in the same order, each
    value of the collector is that of one processor, compared with the reading of
    the same processor before. *)
Theorem utilisation_of_each_core (cur prev : list string)
    (Hsame : (named_cores cur).*1 = (named_cores prev).*1) (Hd : NoDup ((named_cores prev).*1)) :
  utilisation {| per_core := cpu_lines cur |} {| per_core := cpu_lines prev |}
  = (named_utilisation (named_cores cur) (named_cores prev)).*2.
Proof. unfold utilisation. cbn. rewrite !cpu_lines_named. by apply (zip_by_name _ []). Qed.

Definition demo_stat_before : list string := ["cpu  0 0 0 0 0"; "cpu0 100 0 0 900 0"; "cpu2 0 0 0 500 0"; "intr 1"].
Definition demo_stat_after : list string := ["cpu  0 0 0 0 0"; "cpu0 150 0 0 950 0"; "cpu2 0 0 0 600 0"; "intr 1"].
Lemma utilisation_of_each_core_witness :
  NoDup ((named_cores demo_stat_before).*1)
  ∧ utilisation {| per_core := cpu_lines demo_stat_after |} {| per_core := cpu_lines demo_stat_before |}
    = (named_utilisation (named_cores demo_stat_after) (named_cores demo_stat_before)).*2.
Proof.
  assert (Hd : NoDup ((named_cores demo_stat_before).*1)) by (apply (bool_decide_unpack _); vm_compute; exact I).
  split; [exact Hd|].
  exact (utilisation_of_each_core demo_stat_after demo_stat_before ltac:(vm_compute; reflexivity) Hd).
Defined.

Example utilisation_values :
  utilisation {| per_core := cpu_lines demo_stat_after |} {| per_core := cpu_lines demo_stat_before |} = [f64_of_Z 50; f64_zero].
Proof. vm_compute. reflexivity. Qed.

(** A processor that comes back between two ticks shifts the ones after it:
    [cpu2] was idle all the time, and the second value compares [cpu1] with it. *)
Definition demo_stat_back : list string :=
  ["cpu  0 0 0 0 0"; "cpu0 150 0 0 950 0"; "cpu1 700 0 0 500 0"; "cpu2 0 0 0 600 0"; "intr 1"].
Example core_misread :
  utilisation {| per_core := cpu_lines demo_stat_back |} {| per_core := cpu_lines demo_stat_before |} = [f64_of_Z 50; f64_of_Z 100]
  ∧ (named_utilisation (named_cores demo_stat_back) (named_cores demo_stat_before)).*2 = [f64_of_Z 50; f64_zero].
Proof. split; vm_compute; reflexivity. Qed.

(** ** Mount points *)

Definition mount_of (line : string) : option (string * string) :=
  match split_ascii_whitespace line with dev :: mp :: _ => Some (dev, mp) | _ => None end.
Definition mount_score (sp line : string) : option Z :=
  let! (dev, mp) := mount_of line in if starts_with mp sp then Some (slen mp) else None.

(** The device found for a path is that of the first of the longest
    mount points whose text the path starts with. *)
Theorem mount_device_exact (mounts sp dev : string) :
  mount_device mounts sp = Some dev
  ↔ ∃ line mp, mount_of line = Some (dev, mp) ∧ first_best (mount_score sp) 0 (lines mounts) line (slen mp).
Proof.
  unfold mount_device.
  pose proof (foldl_keep_map mount_of (mount_score sp) fst (better_mount sp) (lines mounts)) as Hk.
  specialize (Hk ltac:(intros [b z] line; unfold better_mount, mount_score, mount_of; cbn [fst snd];
    destruct (split_ascii_whitespace line) as [|d [|mp rest]]; [done..|]; by destruct (starts_with mp sp)) None 0).
  cbn [and_then] in Hk. rewrite Hk. cbn [fst]. clear Hk.
  assert (Hscore : ∀ line z, mount_score sp line = Some z → ∃ d mp, mount_of line = Some (d, mp) ∧ z = slen mp).
  { intros line z. unfold mount_score. destruct (mount_of line) as [[d mp]|]; [|done]. destruct (starts_with mp sp); [|done].
    intros [= <-]. eauto. }
  destruct (keep_better_exact (mount_score sp) 0 (lines mounts)) as [(line & z & E & Hf)|[E _]]; rewrite E; cbn.
  - pose proof Hf as (b & a & _ & Hs & _). destruct (Hscore _ _ Hs) as (d & mp & Hm & ->). rewrite Hm. cbn. split.
    + intros [= <-]. eauto.
    + intros (line' & mp' & Hm' & Hf'). apply keep_better_iff in Hf'. rewrite E in Hf'. by simplify_eq.
  - split; [done|]. intros (line & mp & _ & Hf%keep_better_iff). by rewrite E in Hf.
Qed.

(** The text need not end at a component: the library of one user is looked
    for on the device of another's home. *)
Example mount_of_another_home :
  mount_device ("/dev/sda1 / ext4 rw 0 0" +:+ str1 nl +:+ "/dev/sdb1 /home/ann ext4 rw 0 0" +:+ str1 nl)
               "/home/anna/.steam/steam/steamapps" = Some "/dev/sdb1".
Proof. vm_compute. reflexivity. Qed.
