(* ===== verification/Sensors.v ===== *)
(** * Collectors of the current state ([src/collectors/linux/{memory,power,gpu_amd}.rs])

    What a tick reads from [/proc] and sysfs: memory, the power supplies, and
    the AMD card that the discovery chose. *)
From Stdlib Require Import Ascii Floats.SpecFloat.
From S2P Require Import Prelude Float64 EsModel Json FileSystem GameScan Summary Counters.

(** ** Memory *)

Definition meminfo_line (info : gmap string Z) (line : string) : gmap string Z :=
  match split_ascii_whitespace line with
  | key :: value :: _ =>
      match parse_u64 value with
      | Some v => <[trim_colons key := v]> info
      | None => info
      end
  | _ => info
  end.
Definition read_meminfo (m : Machine) : gmap string Z :=
  match text_lines m "/proc/meminfo" with Some ls => foldl meminfo_line ∅ ls | None => ∅ end.

(** The second word, in KiB, of the first line with that name. *)
Definition status_mb (m : Machine) (pid : Z) (field : string) : option Z :=
  let! ls := text_lines m (proc_path pid "status") in
  let! line := List.find (starts_with field) ls in
  let! word := split_ascii_whitespace line !! 1%nat in
  let! kb := parse_u64 word in
  Some (kb / 1024).
Definition game_rss_mb (m : Machine) (pid : Z) : option Z := status_mb m pid "VmRSS:".
Definition game_virtual_mb (m : Machine) (pid : Z) : option Z := status_mb m pid "VmSize:".

(** Words 9 and 11 of the line. *)
Definition page_faults (m : Machine) (pid : Z) : option (Z * Z) :=
  let! text := read_text m (proc_path pid "stat") in
  let parts := split_ascii_whitespace text in
  if (length parts <? 12)%nat then None
  else
    let! f9 := and_then (parts !! 9%nat) parse_u64 in
    let! f11 := and_then (parts !! 11%nat) parse_u64 in
    Some (f9, f11).

Record MemoryCollector := { mem_game_pid : option Z }.

(** [MemoryCollector::collect]. *)
Definition collect_memory (m : Machine) (s : MemoryCollector) : json :=
  let info := read_meminfo m in
  let field name := unwrap_or (info !! name) 0 in
  let mem_used_kb := saturating_sub (field "MemTotal") (field "MemAvailable") in
  rigsignal_doc "memory"
    ([("total_mb", json_u64 (field "MemTotal" / 1024));
      ("system_used_mb", json_u64 (mem_used_kb / 1024));
      ("page_cache_mb", json_u64 (field "Cached" / 1024));
      ("shared_mb", json_u64 (field "Shmem" / 1024));
      ("swap_used_mb", json_u64 (saturating_sub (field "SwapTotal") (field "SwapFree") / 1024))]
     ++ match mem_game_pid s with
        | None => []
        | Some pid =>
            when_some "game_rss_mb" json_u64 (game_rss_mb m pid)
            ++ when_some "virtual_mb" json_u64 (game_virtual_mb m pid)
            ++ when_some "page_faults_major" json_u64 (fst <$> page_faults m pid)
            ++ when_some "page_faults_minor" json_u64 (snd <$> page_faults m pid)
        end).

(** ** Readings of sysfs *)

Section sysfs.
Context (m : Machine).

(** [read_int] of [power.rs] and [gpu_amd.rs]. *)
Definition read_int (path : string) : option Z := and_then (read_text m path) (λ s, parse_i64 (trim s)).
Definition read_str_file (path : string) : option string :=
  let! s := read_text m path in
  if is_empty (trim s) then None else Some (trim s).
End sysfs.

(** ** Power *)

Definition power_supply : string := "/sys/class/power_supply".

(** The listing has no order of its own: the first battery it names. *)
Definition find_battery (m : Machine) : option string :=
  let! names := list_dir m power_supply in
  let! name := List.find (λ n, is_utf8 n && starts_with "BAT" n) names in
  Some (join_path power_supply name).
Definition is_ac_name (n : string) : bool := is_utf8 n && (starts_with "AC" n || starts_with "ADP" n).
Definition ac_rank (n : string) : Z := if starts_with "AC" n then 0 else 1.
Definition find_ac (m : Machine) : option string :=
  let! names := list_dir m power_supply in
  join_path power_supply <$> head (stable_sort (λ a b, ac_rank a <=? ac_rank b) (List.filter is_ac_name names)).

Definition battery_pct (m : Machine) (bat : string) : option f64 := f64_of_Z <$> read_int m (bat +:+ "/capacity").
Definition battery_rate_w (m : Machine) (bat : string) : option f64 :=
  match read_int m (bat +:+ "/power_now") with
  | Some uw => Some (round_to 2 (f64_div (f64_of_Z uw) (f64_of_Z 1000000)))
  | None =>
      let! ua := read_int m (bat +:+ "/current_now") in
      let! uv := read_int m (bat +:+ "/voltage_now") in
      Some (round_to 2 (f64_div (f64_mul (f64_of_Z ua) (f64_of_Z uv)) (f64_of_Z (10 ^ 12))))
  end.
Definition ac_connected (m : Machine) (ac : string) : option bool :=
  (λ v, negb (v =? 0)) <$> read_int m (ac +:+ "/online").

(** A sensor whose name cannot be read ends the search. *)
Fixpoint hwmon_tdp (m : Machine) (hwmons : list string) : option f64 :=
  match hwmons with
  | [] => None
  | hwmon :: rest =>
      let! name_path := to_str (join_path hwmon "name") in
      let! name := read_str_file m name_path in
      if negb (String.eqb name "amdgpu") then hwmon_tdp m rest
      else match read_int m (join_path hwmon "power1_cap") with
           | Some cap => Some (round_to 1 (f64_div (f64_of_Z cap) (f64_of_Z 1000000)))
           | None => hwmon_tdp m rest
           end
  end.
Definition amd_tdp_w (m : Machine) : option f64 :=
  let base := "/sys/class/hwmon" in
  let! names := list_dir m base in
  hwmon_tdp m (join_path base <$> stable_sort str_leb names).
Definition power_profile (m : Machine) : option string := read_str_file m "/sys/firmware/acpi/platform_profile".

Record PowerCollector := { battery_path : option string; ac_path : option string }.
Definition new_power (m : Machine) : PowerCollector := {| battery_path := find_battery m; ac_path := find_ac m |}.

(** [PowerCollector::collect]. *)
Definition collect_power (m : Machine) (s : PowerCollector) : option json :=
  let power :=
    when_some "battery_pct" json_f64 (and_then (battery_path s) (battery_pct m))
    ++ when_some "battery_rate_w" json_f64 (and_then (battery_path s) (battery_rate_w m))
    ++ when_some "ac_connected" JBool (and_then (ac_path s) (ac_connected m))
    ++ when_some "tdp_current_w" json_f64 (amd_tdp_w m)
    ++ when_some "profile" JString (power_profile m) in
  match power with [] => None | _ => Some (rigsignal_doc "power" power) end.

(** ** AMD card *)

Definition find_hwmon (m : Machine) (device : string) : option string :=
  let! names := list_dir m (join_path device "hwmon") in
  join_path (join_path device "hwmon") <$> head (stable_sort str_leb names).

Definition is_card_name (n : string) : bool :=
  is_utf8 n && (slen n =? 5) && starts_with "card" n && all_bytes is_ascii_digit (drop_bytes 4 n).
Definition card_names (m : Machine) (drm_path : string) : list string :=
  stable_sort str_leb (List.filter is_card_name (unwrap_or (list_dir m drm_path) [])).

Definition hwmon_score (m : Machine) (hwmon : option string) : Z :=
  match hwmon with
  | None => 0
  | Some hw =>
      1 + (if path_exists m (join_path hw "fan1_input") then 10 else 0)
        + (if path_exists m (join_path hw "power1_average") then 5 else 0)
        + (if path_exists m (join_path hw "temp2_input") then 2 else 0)
  end.
(** [best_device], [best_hwmon] and [best_score]. *)
Abbreviation Best := (option string * option string * Z)%type.
Definition better_card (m : Machine) (best : Best) (card : string) : Best :=
  match read_str_file m (join_path card "device/vendor") with
  | Some vendor =>
      if negb (String.eqb vendor "0x1002") then best
      else
        let device := join_path card "device" in
        let hwmon := find_hwmon m device in
        let score := hwmon_score m hwmon in
        if snd best <? score then (Some device, hwmon, score) else best
  | None => best
  end.
Definition find_amd_card (m : Machine) (drm_path : string) : option string * option string :=
  fst (foldl (better_card m) (None, None, -1) (join_path drm_path <$> card_names m drm_path)).

(** [&part[..part.len() - 3]]: [None] where that is not between
    characters, which would be a panic. *)
Definition without_mhz (part : string) : option string :=
  let s := take_bytes (String.length part - 3) part in
  match drop_bytes (String.length part - 3) part with
  | String c _ => if is_continuation c then None else Some s
  | EmptyString => Some s
  end.
Definition clock_of_word `{Unicode} (part : string) : option Z :=
  if ends_with "mhz" (uc_to_lowercase part) then and_then (without_mhz part) parse_i64 else None.
Definition parse_current_clock_mhz `{Unicode} (m : Machine) (device : string) : option Z :=
  let! ls := text_lines m (join_path device "pp_dpm_sclk") in
  head (ls ≫= λ line, if contains "*" line then filter_map clock_of_word (split_whitespace line) else []).

Record GpuAmdCollector := {
  gpu_game_pid : option Z;
  card_path : option string;
  hwmon_path : option string;
  drm_path : string;
  undiscovered_ticks : Z;
}.
(** [GpuAmdCollector::with_drm_path]. *)
Definition with_drm_path (m : Machine) (game_pid : option Z) (drm_path : string) : GpuAmdCollector :=
  let (card_path, hwmon_path) := find_amd_card m drm_path in
  {| gpu_game_pid := game_pid; card_path := card_path; hwmon_path := hwmon_path; drm_path := drm_path; undiscovered_ticks := 0 |}.
Definition new_gpu (m : Machine) (game_pid : option Z) : GpuAmdCollector := with_drm_path m game_pid "/sys/class/drm".

(** The first half of [collect]: the paths after this tick's discovery. *)
Definition discover (m : Machine) (s : GpuAmdCollector) : GpuAmdCollector :=
  match card_path s with
  | Some _ => s
  | None =>
      match find_amd_card m (drm_path s) with
      | (Some card, hwmon) =>
          {| gpu_game_pid := gpu_game_pid s; card_path := Some card; hwmon_path := hwmon; drm_path := drm_path s;
             undiscovered_ticks := undiscovered_ticks s |}
      | (None, _) =>
          {| gpu_game_pid := gpu_game_pid s; card_path := None; hwmon_path := hwmon_path s; drm_path := drm_path s;
             undiscovered_ticks := add_u64 (undiscovered_ticks s) 1 |}
      end
  end.
Definition discover_hwmon (m : Machine) (device : string) (s : GpuAmdCollector) : GpuAmdCollector :=
  {| gpu_game_pid := gpu_game_pid s; card_path := card_path s;
     hwmon_path := match hwmon_path s with Some h => Some h | None => find_hwmon m device end;
     drm_path := drm_path s; undiscovered_ticks := undiscovered_ticks s |}.

Definition fan_pct (rpm max_rpm : Z) : option f64 :=
  if 0 <? max_rpm
  then Some (round_to 1 (f64_mul (f64_div (f64_of_Z rpm) (f64_of_Z max_rpm)) (f64_of_Z 100)))
  else None.
Definition hwmon_members (m : Machine) (hw : string) : list (string * json) :=
  let temp name := millidegrees <$> read_int m (join_path hw name) in
  let rpm := read_int m (join_path hw "fan1_input") in
  when_some "temperature_c" json_f64 (temp "temp1_input")
  ++ when_some "temp_source" (λ _, JString "hwmon") (temp "temp1_input")
  ++ when_some "hotspot_c" json_f64 (temp "temp2_input")
  ++ when_some "memory_temperature_c" json_f64 (temp "temp3_input")
  ++ when_some "power_w" json_f64 ((λ v, round_to 1 (f64_div (f64_of_Z v) (f64_of_Z 1000000))) <$> read_int m (join_path hw "power1_average"))
  ++ when_some "fan_speed_rpm" json_i64 rpm
  ++ when_some "fan_pct" json_f64 (and_then rpm (λ rpm, and_then (read_int m (join_path hw "fan1_max")) (fan_pct rpm))).
Definition gpu_members `{Unicode} (m : Machine) (device : string) (hwmon : option string) : list (string * json) :=
  when_some "utilisation_pct" json_f64 (f64_of_Z <$> read_int m (join_path device "gpu_busy_percent"))
  ++ when_some "clock_mhz" json_i64 (parse_current_clock_mhz m device)
  ++ when_some "memory_used_mb" json_i64 ((λ v, Z.quot v 1048576) <$> read_int m (join_path device "mem_info_vram_used"))
  ++ when_some "memory_total_mb" json_i64 ((λ v, Z.quot v 1048576) <$> read_int m (join_path device "mem_info_vram_total"))
  ++ match hwmon with Some hw => hwmon_members m hw | None => [] end.

(** [GpuAmdCollector::collect]. *)
Definition collect_gpu `{Unicode} (m : Machine) (s : GpuAmdCollector) : GpuAmdCollector * option json :=
  let s := discover m s in
  match card_path s with
  | None => (s, None)
  | Some device =>
      let s := discover_hwmon m device s in
      match gpu_members m device (hwmon_path s) with
      | [] => (s, None)
      | gpu => (s, Some (rigsignal_doc "gpu" gpu))
      end
  end.
