(* ===== verification/Command.v ===== *)
(** * Commands with a time limit ([run_cmd] of [collectors/linux/audio.rs] and [host.rs])

    A child process is looked at every 50 ms until it has exited or its time is
    up.  The process is an argument; here is the loop, and that it ends. *)
From Stdlib Require Import Ascii.
From S2P Require Import Prelude.

(** The pause between two looks at a child, in milliseconds. *)
Definition POLL_MS : Z := 50.

Inductive TryWait := Exited | StillRunning | WaitFailed.
(** A spawned child: when (milliseconds after its start) and how each look
    found it, and what it had written when it was read after its exit. *)
Record Child := { looked_at : nat → Z; look : nat → TryWait; stdout : string }.
Inductive CmdEnd := Answered (out : string) | NoAnswer | OutOfRounds.

Fixpoint poll_child (c : Child) (timeout_ms : Z) (rounds i : nat) : CmdEnd :=
  match rounds with
  | O => OutOfRounds
  | S rounds' =>
      match look c i with
      | Exited => Answered (from_utf8_lossy (stdout c))
      | WaitFailed => NoAnswer
      | StillRunning =>
          if timeout_ms <=? looked_at c i then NoAnswer else poll_child c timeout_ms rounds' (S i)
      end
  end.
(** The looks that fit into the time limit. *)
Definition poll_rounds (timeout_ms : Z) : nat := S (S (Z.to_nat (timeout_ms / POLL_MS))).

(** What [Command::new(prog).args(args).spawn()] gives. *)
Abbreviation Commands := (string → list string → option Child).
Definition run_cmd (cmds : Commands) (prog : string) (args : list string) (timeout_ms : Z) : option string :=
  let! child := cmds prog args in
  match poll_child child timeout_ms (poll_rounds timeout_ms) 0 with Answered out => Some out | _ => None end.

(** ** Commands end *)

(** Two looks at a child are at least the pause apart. *)
Definition paced (c : Child) : Prop := 0 ≤ looked_at c 0 ∧ ∀ i, looked_at c i + POLL_MS ≤ looked_at c (S i).
(** Until look [i] the child is running and there is time. *)
Definition waits (c : Child) (timeout_ms : Z) (i : nat) : Prop :=
  ∀ j, (j < i)%nat → look c j = StillRunning ∧ looked_at c j < timeout_ms.

Lemma paced_at c i : paced c → Z.of_nat i * POLL_MS ≤ looked_at c i.
Proof. intros [H0 Hs]. induction i as [|i IH]; [lia|]. pose proof (Hs i). lia. Qed.

Lemma poll_child_from c timeout_ms : ∀ rounds i,
  paced c → timeout_ms ≤ (Z.of_nat (i + rounds) - 1) * POLL_MS → rounds ≠ O → waits c timeout_ms i →
  ∃ n, waits c timeout_ms n ∧
    match poll_child c timeout_ms rounds i with
    | Answered out => look c n = Exited ∧ out = from_utf8_lossy (stdout c)
    | NoAnswer => look c n = WaitFailed ∨ look c n = StillRunning ∧ timeout_ms ≤ looked_at c n
    | OutOfRounds => False
    end.
Proof.
  induction rounds as [|rounds IH]; intros i Hp Hr Hn Hw; [done|]. cbn [poll_child].
  destruct (look c i) eqn:El; [by eauto| |by eauto].
  destruct (Z.leb_spec timeout_ms (looked_at c i)); [exists i; auto|].
  pose proof (paced_at c i Hp). apply IH; [done|lia| |].
  - intros ->. unfold POLL_MS in *. lia.
  - intros j Hj. destruct (decide (j = i)) as [->|]; [done|]. apply Hw. lia.
Qed.

(** Every command of the audio collector ends: with the rounds of
    [run_cmd] the loop stops at a look, and the answer is what the child had
    written if it had exited by then (whatever its exit status), and none if the
    look failed or the time was up. *)
Theorem command_ends (c : Child) (timeout_ms : Z) (Hp : paced c) (Ht : 0 ≤ timeout_ms) :
  ∃ n, waits c timeout_ms n ∧
    match poll_child c timeout_ms (poll_rounds timeout_ms) 0 with
    | Answered out => look c n = Exited ∧ out = from_utf8_lossy (stdout c)
    | NoAnswer => look c n = WaitFailed ∨ look c n = StillRunning ∧ timeout_ms ≤ looked_at c n
    | OutOfRounds => False
    end.
Proof.
  apply poll_child_from; [done| |done|intros j; lia]. unfold poll_rounds, POLL_MS.
  pose proof (Z.div_mod timeout_ms 50). pose proof (Z.mod_pos_bound timeout_ms 50). lia.
Qed.

(** A child that exits between the second and the third look. *)
Definition demo_child : Child :=
  {| looked_at := λ i, Z.of_nat i * 50; look := λ i, if (i <? 2)%nat then StillRunning else Exited; stdout := "PipeWire" |}.
Lemma command_ends_witness :
  ∃ n, waits demo_child 2000 n ∧
    match poll_child demo_child 2000 (poll_rounds 2000) 0 with
    | Answered out => look demo_child n = Exited ∧ out = from_utf8_lossy (stdout demo_child)
    | NoAnswer => look demo_child n = WaitFailed ∨ look demo_child n = StillRunning ∧ 2000 ≤ looked_at demo_child n
    | OutOfRounds => False
    end.
Proof.
  assert (Hp : paced demo_child).
  { unfold paced. cbn [demo_child looked_at]. unfold POLL_MS. split; [lia|intros i; lia]. }
  exact (command_ends demo_child 2000 Hp ltac:(lia)).
Defined.
