(* ===== verification/Audio.v ===== *)
(** * Audio ([src/collectors/linux/audio.rs])

    The backend that answers first, the clock settings of PipeWire and the
    default sink of [pactl], both remembered for five seconds.  The commands
    ([Command]) and the instants (nanoseconds) are arguments.  The outer [option]
    of a function whose doc says so is the panic of a slice. *)
From Stdlib Require Import Ascii Floats.SpecFloat.
From S2P Require Import Prelude Float64 EsModel Json FileSystem GameScan Summary Counters Command.

(** Five seconds. *)
Definition PIPEWIRE_CACHE_TTL : Z := 5 * 10 ^ 9.

(** ** Parsing *)

(** [before[num_start..]] with [num_start] one byte after the last character
    that is not a digit: a panic where that character is longer. *)
Fixpoint digits_suffix (cs : list string) : option string :=
  match cs with
  | [] => Some EmptyString
  | c :: rest =>
      if forallb (char_is is_ascii_digit) rest then
        if char_is is_ascii_digit c then Some (concat_str cs)
        else if (String.length c =? 1)%nat then Some (concat_str rest) else None
      else digits_suffix rest
  end.
(** The outer [option] is a panic. *)
Definition hz_value (line : string) : option (option Z) :=
  match split_once "Hz" line with
  | None => Some None
  | Some (before, _) =>
      let! s := digits_suffix (chars (trim_end before)) in
      Some (if is_empty s then None else parse_i64 s)
  end.

Section backend.
Context `{Unicode} (cmds : Commands).

Definition detect_backend : string :=
  if is_some_and (run_cmd cmds "pw-cli" ["info"; "0"] 2000)
       (λ out, contains "PipeWire" out || contains "pipewire" (uc_to_lowercase out)) then "pipewire"
  else
    let info := run_cmd cmds "pactl" ["info"] 2000 in
    if is_some_and info (contains "PipeWire") then "pipewire"
    else if is_some_and info (contains "PulseAudio") then "pulseaudio"
    else match run_cmd cmds "aplay" ["--version"] 1000 with Some _ => "alsa" | None => "unknown" end.
End backend.

Record PipewireSettings := {
  ps_quantum : option Z;
  ps_rate : option Z;
  ps_force_quantum : option Z;
  ps_force_rate : option Z;
}.
Definition no_settings : PipewireSettings :=
  {| ps_quantum := None; ps_rate := None; ps_force_quantum := None; ps_force_rate := None |}.
Definition positive (o : option Z) : option Z := let! v := o in if 0 <? v then Some v else None.
Definition effective_quantum (p : PipewireSettings) : option Z := or_else (positive (ps_force_quantum p)) (positive (ps_quantum p)).
Definition effective_rate (p : PipewireSettings) : option Z := or_else (positive (ps_force_rate p)) (positive (ps_rate p)).

(** [key:'...'], [value:'...'] among the words of an update. *)
Definition quoted (name field : string) : option string :=
  and_then (strip_prefix (name +:+ ":'") field) (strip_suffix "'").
Definition update_field (kv : option string * option Z) (field : string) : option string * option Z :=
  match quoted "key" field with
  | Some k => (Some k, snd kv)
  | None => match quoted "value" field with Some v => (fst kv, parse_i64 v) | None => kv end
  end.
Definition apply_setting (s : PipewireSettings) (key : string) (v : Z) : PipewireSettings :=
  if String.eqb key "clock.quantum" then
    {| ps_quantum := Some v; ps_rate := ps_rate s; ps_force_quantum := ps_force_quantum s; ps_force_rate := ps_force_rate s |}
  else if String.eqb key "clock.rate" then
    {| ps_quantum := ps_quantum s; ps_rate := Some v; ps_force_quantum := ps_force_quantum s; ps_force_rate := ps_force_rate s |}
  else if String.eqb key "clock.force-quantum" then
    {| ps_quantum := ps_quantum s; ps_rate := ps_rate s; ps_force_quantum := Some v; ps_force_rate := ps_force_rate s |}
  else if String.eqb key "clock.force-rate" then
    {| ps_quantum := ps_quantum s; ps_rate := ps_rate s; ps_force_quantum := ps_force_quantum s; ps_force_rate := Some v |}
  else s.
Definition settings_line (s : PipewireSettings) (line : string) : PipewireSettings :=
  match strip_prefix "update:" (trim_start line) with
  | None => s
  | Some update =>
      match foldl update_field (None, None) (split_whitespace update) with
      | (Some key, Some v) => apply_setting s key v
      | _ => s
      end
  end.
Definition parse_pw_metadata_settings (out : string) : PipewireSettings := foldl settings_line no_settings (lines out).
Definition pipewire_settings (cmds : Commands) : option PipewireSettings :=
  parse_pw_metadata_settings <$> run_cmd cmds "pw-metadata" ["-n"; "settings"; "0"] 2000.
Definition configured_latency_ms (quantum rate : Z) : f64 :=
  round_to 2 (f64_mul (f64_div (f64_of_Z quantum) (f64_of_Z rate)) (f64_of_Z 1000)).

Record PipewireSinkInfo := {
  si_sink_name : option string;
  si_card_profile : option string;
  si_channels : option Z;
  si_sample_format : option string;
  si_sample_rate_hz : option Z;
  si_driver_latency_ms : option f64;
}.

Definition pactl_default_sink (cmds : Commands) : option string :=
  let! out := run_cmd cmds "pactl" ["get-default-sink"] 2000 in
  let! line := head (lines out) in
  if is_empty (trim line) then None else Some (trim line).

Definition name_line (line : string) : option string :=
  let! rest := strip_prefix "Name:" (trim_start line) in
  if is_empty (trim rest) then None else Some (trim rest).
Definition sink_block_name (block : string) : option string := head (filter_map name_line (lines block)).

Definition parse_sample_specification (line : string) : option (string * Z * Z) :=
  let! spec := strip_prefix "Sample Specification:" (trim_start line) in
  let fields := split_whitespace (trim spec) in
  let! format := fields !! 0%nat in
  let! channels := and_then (and_then (fields !! 1%nat) (strip_suffix "ch")) parse_i64 in
  let! sample_rate_hz := and_then (and_then (fields !! 2%nat) (strip_suffix "Hz")) parse_i64 in
  Some (format, channels, sample_rate_hz).
Definition parse_driver_latency_ms (line : string) : option f64 :=
  let! latency := strip_prefix "Latency:" (trim_start line) in
  let! (actual, configured) := split_once " usec," (trim latency) in
  if negb (starts_with "configured " (trim_start configured)) then None
  else
    let! actual := parse_i64 (trim actual) in
    Some (round_to 2 (f64_div (f64_of_Z actual) (f64_of_Z 1000))).

Definition sink_line (s : PipewireSinkInfo) (line : string) : PipewireSinkInfo :=
  match strip_prefix "device.profile.name =" (trim_start line) with
  | Some profile =>
      let profile := trim_matches (String.eqb dq) (trim profile) in
      if is_empty profile then s
      else {| si_sink_name := si_sink_name s; si_card_profile := Some profile; si_channels := si_channels s;
              si_sample_format := si_sample_format s; si_sample_rate_hz := si_sample_rate_hz s;
              si_driver_latency_ms := si_driver_latency_ms s |}
  | None =>
      match parse_sample_specification line with
      | Some (format, channels, sample_rate_hz) =>
          {| si_sink_name := si_sink_name s; si_card_profile := si_card_profile s; si_channels := Some channels;
             si_sample_format := Some format; si_sample_rate_hz := Some sample_rate_hz;
             si_driver_latency_ms := si_driver_latency_ms s |}
      | None =>
          match parse_driver_latency_ms line with
          | Some ms =>
              {| si_sink_name := si_sink_name s; si_card_profile := si_card_profile s; si_channels := si_channels s;
                 si_sample_format := si_sample_format s; si_sample_rate_hz := si_sample_rate_hz s;
                 si_driver_latency_ms := Some ms |}
          | None => s
          end
      end
  end.
Definition parse_pactl_sink_block (block : string) (sink_name : option string) : PipewireSinkInfo :=
  foldl sink_line
    {| si_sink_name := sink_name; si_card_profile := None; si_channels := None; si_sample_format := None;
       si_sample_rate_hz := None; si_driver_latency_ms := None |} (lines block).

(** What stands before the first line that opens a block, and the blocks. *)
Definition block_piece (piece : string) (acc : string * list string) : string * list string :=
  let text := piece +:+ fst acc in
  if starts_with "Sink #" piece then (EmptyString, text :: snd acc) else (text, snd acc).
Definition sink_blocks (out : string) : list string := snd (foldr block_piece (EmptyString, []) (split_inclusive out)).
Definition parse_pactl_sinks (out : string) (default_sink : option string) : option PipewireSinkInfo :=
  let blocks := sink_blocks out in
  let! block := match default_sink with
                | Some name => List.find (λ b, bool_decide (sink_block_name b = Some name)) blocks
                | None => head blocks
                end in
  Some (parse_pactl_sink_block block default_sink).
Definition pipewire_sink_info (cmds : Commands) : option PipewireSinkInfo :=
  let default_sink := pactl_default_sink cmds in
  let! out := run_cmd cmds "pactl" ["list"; "sinks"] 2000 in
  parse_pactl_sinks out default_sink.

(** The last line with a rate; the outer [option] is a panic. *)
Definition stat_line (hz : option (option Z)) (line : string) : option (option Z) :=
  let! hz := hz in
  if contains "Sample Specification" line then
    let! found := hz_value line in Some (or_else found hz)
  else Some hz.
Definition pulseaudio_stats (cmds : Commands) : option (option Z) :=
  match run_cmd cmds "pactl" ["stat"] 2000 with
  | Some out => foldl stat_line (Some None) (lines out)
  | None => Some None
  end.

(** ** Collector *)

Record AudioCollector := {
  backend : option string;
  settings_cache : option PipewireSettings;
  settings_cache_at : option Z;
  sink_cache : option PipewireSinkInfo;
  sink_cache_at : option Z;
}.
Definition new_audio : AudioCollector :=
  {| backend := None; settings_cache := None; settings_cache_at := None; sink_cache := None; sink_cache_at := None |}.

(** A tick: the processes its commands start, and the instants before and
    after the settings and the sink are asked for. *)
Record AudioEnv := {
  ae_cmds : Commands;
  ae_settings_at : Z;
  ae_settings_done : Z;
  ae_sink_at : Z;
  ae_sink_done : Z;
}.
Definition stale (cache_at : option Z) (now : Z) : bool :=
  is_none_or cache_at (λ t, PIPEWIRE_CACHE_TTL <=? Z.max 0 (now - t)).
Definition pipewire_settings_cached (e : AudioEnv) (s : AudioCollector) : AudioCollector :=
  if stale (settings_cache_at s) (ae_settings_at e) then
    {| backend := backend s; settings_cache := pipewire_settings (ae_cmds e); settings_cache_at := Some (ae_settings_done e);
       sink_cache := sink_cache s; sink_cache_at := sink_cache_at s |}
  else s.
Definition pipewire_sink_info_cached (e : AudioEnv) (s : AudioCollector) : AudioCollector :=
  if stale (sink_cache_at s) (ae_sink_at e) then
    {| backend := backend s; settings_cache := settings_cache s; settings_cache_at := settings_cache_at s;
       sink_cache := pipewire_sink_info (ae_cmds e); sink_cache_at := Some (ae_sink_done e) |}
  else s.

Definition settings_members (p : option PipewireSettings) : list (string * json) :=
  let quantum := and_then p effective_quantum in
  let rate := and_then p effective_rate in
  when_some "quantum" json_i64 quantum
  ++ when_some "sample_rate_hz" json_i64 rate
  ++ when_some "latency_ms" json_f64 (let! q := quantum in let! r := rate in Some (configured_latency_ms q r)).
Definition sink_members (i : option PipewireSinkInfo) : list (string * json) :=
  when_some "sink_name" JString (and_then i si_sink_name)
  ++ when_some "card_profile" JString (and_then i si_card_profile)
  ++ when_some "channels" json_i64 (and_then i si_channels)
  ++ when_some "sample_format" JString (and_then i si_sample_format)
  ++ when_some "driver_latency_ms" json_f64 (and_then i si_driver_latency_ms).
Definition audio_doc (backend : string) (members : list (string * json)) : json :=
  rigsignal_doc "audio" (("backend", JString backend) :: members).

(** [AudioCollector::collect]; the outer [option] is a panic. *)
Definition collect_audio `{Unicode} (e : AudioEnv) (s : AudioCollector) : option (AudioCollector * json) :=
  let name := match backend s with Some b => b | None => detect_backend (ae_cmds e) end in
  let s := {| backend := Some name; settings_cache := settings_cache s; settings_cache_at := settings_cache_at s;
              sink_cache := sink_cache s; sink_cache_at := sink_cache_at s |} in
  if String.eqb name "pipewire" then
    let s := pipewire_settings_cached e s in
    let s := pipewire_sink_info_cached e s in
    Some (s, audio_doc name (settings_members (settings_cache s) ++ sink_members (sink_cache s)))
  else if String.eqb name "pulseaudio" then
    let! hz := pulseaudio_stats (ae_cmds e) in
    Some (s, audio_doc name (when_some "sample_rate_hz" json_i64 hz))
  else Some (s, audio_doc name []).
