(* ===== verification/SensorsSpec.v ===== *)
(** * What the collectors of the current state promise

    Which card the discovery takes, and that a card and its sensors found late
    are reported from that tick on; then the audio collector, which takes the
    sink block it should and for five seconds asks nothing twice. *)
From Stdlib Require Import Ascii Floats.SpecFloat.
From S2P Require Import Prelude Float64 EsModel Json FileSystem GameScan Summary Counters CountersSpec Sensors Command Audio.

(** ** The card *)

Section card.
Context (m : Machine) (drm : string).

(** What counts for a card: the sensors it has, if it is from AMD. *)
Definition card_score (card : string) : option Z :=
  let! vendor := read_str_file m (join_path card "device/vendor") in
  if String.eqb vendor "0x1002" then Some (hwmon_score m (find_hwmon m (join_path card "device"))) else None.
Definition cards : list string := join_path drm <$> card_names m drm.

Lemma best_card : find_amd_card m drm =
  match fst (foldl (keep_better card_score) (None, -1) cards) with
  | Some card => (Some (join_path card "device"), find_hwmon m (join_path card "device"))
  | None => (None, None)
  end.
Proof.
  unfold find_amd_card. fold cards. generalize cards. intros l.
  pose (shape := λ (o : option string) (z : Z),
    (and_then o (λ card, Some (join_path card "device")), and_then o (λ card, find_hwmon m (join_path card "device")), z) : Best).
  assert (Hstep : ∀ o z, foldl (better_card m) (shape o z) l
    = let r := foldl (keep_better card_score) (o, z) l in shape (fst r) (snd r)).
  { induction l as [|card l IH]; intros o z; [done|]. cbn [foldl].
    assert (Hk : better_card m (shape o z) card
      = let r := keep_better card_score (o, z) card in shape (fst r) (snd r)).
    { unfold better_card, keep_better, card_score, shape. cbn [snd].
      destruct (read_str_file m _) as [vendor|]; [|done]. destruct (String.eqb vendor "0x1002"); [|done]. cbn [negb].
      by destruct (z <? _). }
    rewrite Hk. destruct (keep_better card_score (o, z) card) as [o' z']. apply IH. }
  change (None, None, -1) with (shape None (-1)). rewrite Hstep. unfold shape. cbn zeta.
  by destruct (foldl (keep_better card_score) _ l) as [[card|] z].
Qed.
Lemma hwmon_score_nonneg h : 0 ≤ hwmon_score m h.
Proof. destruct h as [hw|]; cbn; [|lia]. by destruct (path_exists m _), (path_exists m _), (path_exists m _). Qed.

(** The discovery takes the first of the cards with the highest score,
    in the order of their names and among those of AMD's, and the first of its
    sensor directories; it finds nothing exactly when no card is AMD's. *)
Theorem find_amd_card_exact :
  (∀ device hwmon, find_amd_card m drm = (Some device, hwmon)
     ↔ (∃ card z, first_best card_score (-1) cards card z ∧ device = join_path card "device") ∧ hwmon = find_hwmon m device)
  ∧ (fst (find_amd_card m drm) = None ↔ ∀ card, card ∈ cards → card_score card = None).
Proof.
  rewrite best_card. destruct (keep_better_exact card_score (-1) cards) as [(card & z & E & Hf)|[E Hl]]; rewrite E; cbn [fst].
  - split.
    + intros device hwmon. split; [intros [= <- <-]; eauto 6|]. intros ((card' & z' & Hf'%keep_better_iff & ->) & ->).
      rewrite E in Hf'. by simplify_eq.
    + split; [done|]. intros Hn. destruct Hf as (b & a & Hc & Hs & _). by rewrite (Hn card ltac:(rewrite Hc; set_solver)) in Hs.
  - split.
    + intros device hwmon. split; [done|]. intros ((card & z & Hf%keep_better_iff & _) & _). by rewrite E in Hf.
    + split; [|done]. intros _ card Hc. destruct (card_score card) as [z|] eqn:Ez; [|done].
      pose proof (Hl _ _ Hc Ez). unfold card_score in Ez. destruct (read_str_file m _); [|done].
      destruct (String.eqb _ _); [|done]. injection Ez as Ez. pose proof (hwmon_score_nonneg (find_hwmon m (join_path card "device"))). lia.
Qed.
End card.

(** ** Late discovery *)

Section late.
Context `{Unicode}.

Fixpoint gpu_run (ms : list Machine) (s : GpuAmdCollector) : list (option json) :=
  match ms with
  | [] => []
  | m :: ms => let (s', doc) := collect_gpu m s in doc :: gpu_run ms s'
  end.

(** Of the machines [seen], the first that shows a card decides, and from there
    on the first that shows the card's sensors. *)
Definition shows_no_card (drm : string) (m : Machine) : bool := bool_decide (fst (find_amd_card m drm) = None).
Definition found_card (drm : string) (seen : list Machine) : option string :=
  head (filter_map (λ m, fst (find_amd_card m drm)) seen).
Definition found_hwmon (drm device : string) (seen : list Machine) : option string :=
  head (filter_map (λ m, find_hwmon m device) (drop_while (shows_no_card drm) seen)).
Definition gpu_answer (drm : string) (seen : list Machine) (m : Machine) : option json :=
  let! device := found_card drm seen in
  match gpu_members m device (found_hwmon drm device seen) with
  | [] => None
  | members => Some (rigsignal_doc "gpu" members)
  end.

(** The state after the machines [seen]. *)
Definition follows (drm : string) (seen : list Machine) (s : GpuAmdCollector) : Prop :=
  drm_path s = drm ∧ card_path s = found_card drm seen
  ∧ hwmon_path s = and_then (found_card drm seen) (λ device, found_hwmon drm device seen).

Lemma head_filter_map_snoc {A B} (f : A → option B) l x :
  head (filter_map f (l ++ [x])) = or_else (head (filter_map f l)) (f x).
Proof. rewrite filter_map_app. cbn. by destruct (filter_map f l), (f x). Qed.

Lemma drop_while_snoc {A} (p : A → bool) l x :
  drop_while p (l ++ [x]) = if forallb p l then drop_while p [x] else drop_while p l ++ [x].
Proof. induction l as [|y l IH]; [done|]. cbn. by destruct (p y). Qed.

Lemma found_none drm seen : found_card drm seen = None ↔ forallb (shows_no_card drm) seen = true.
Proof.
  unfold found_card. induction seen as [|m seen IH]; [done|]. cbn. unfold shows_no_card at 1.
  by destruct (fst (find_amd_card m drm)).
Qed.

Lemma card_hwmon m drm device hwmon : find_amd_card m drm = (Some device, hwmon) → hwmon = find_hwmon m device.
Proof. rewrite best_card. destruct (fst _) as [card|]; [|done]. by intros [= <- <-]. Qed.

(** One more machine. *)
Lemma found_card_snoc drm seen m : found_card drm (seen ++ [m]) = or_else (found_card drm seen) (fst (find_amd_card m drm)).
Proof. unfold found_card. by rewrite head_filter_map_snoc. Qed.
Lemma found_hwmon_snoc drm device seen m :
  found_hwmon drm device (seen ++ [m])
  = match found_card drm seen with
    | Some _ => or_else (found_hwmon drm device seen) (find_hwmon m device)
    | None => if shows_no_card drm m then None else find_hwmon m device
    end.
Proof.
  unfold found_hwmon. rewrite drop_while_snoc. destruct (found_card drm seen) eqn:E.
  - destruct (forallb (shows_no_card drm) seen) eqn:Ef; [apply found_none in Ef; congruence|]. by rewrite head_filter_map_snoc.
  - apply found_none in E. rewrite E. cbn. destruct (shows_no_card drm m); [done|]. cbn. by destruct (find_hwmon m device).
Qed.

Lemma discover_hwmon_path m device s :
  hwmon_path (discover_hwmon m device s) = or_else (hwmon_path s) (find_hwmon m device).
Proof. by cbn; destruct (hwmon_path s). Qed.

Lemma collect_follows drm seen m s :
  follows drm seen s →
  ∃ s', collect_gpu m s = (s', gpu_answer drm (seen ++ [m]) m) ∧ follows drm (seen ++ [m]) s'.
Proof.
  intros (Hd & Hc & Hh). unfold collect_gpu, discover, gpu_answer, follows. rewrite found_card_snoc, Hc, Hd.
  destruct (found_card drm seen) as [device|] eqn:Ef; cbn [or_else and_then] in Hh |- *.
  - rewrite Hc, discover_hwmon_path, Hh, found_hwmon_snoc, Ef.
    pose proof (discover_hwmon_path m device s) as Hw. rewrite Hh in Hw.
    destruct (gpu_members m device _); eexists; (split; [reflexivity|]); by rewrite Hw.
  - destruct (find_amd_card m drm) as [[device|] hwmon] eqn:Em; cbn [or_else and_then fst card_path].
    + rewrite (card_hwmon _ _ _ _ Em), found_hwmon_snoc, Ef, discover_hwmon_path. unfold shows_no_card. rewrite Em. cbn [fst hwmon_path].
      rewrite bool_decide_false by done.
      destruct (find_hwmon m device) eqn:Eh; destruct (gpu_members m device _); eexists; (split; [reflexivity|]); cbn; by rewrite ?Eh.
    + eexists. split; [reflexivity|]. cbn. by rewrite Hh.
Qed.

Lemma gpu_run_follows drm ms : ∀ seen s i m,
  follows drm seen s → ms !! i = Some m →
  gpu_run ms s !! i = Some (gpu_answer drm (seen ++ take (S i) ms) m).
Proof.
  induction ms as [|m ms IH]; intros seen s i m' Hf Hi; [done|]. cbn [gpu_run].
  destruct (collect_follows drm seen m s Hf) as (s' & -> & Hf'). destruct i as [|i]; simplify_eq/=; [done|].
  rewrite (IH (seen ++ [m]) s' i m' Hf' Hi). by rewrite <- app_assoc.
Qed.

(** C29: a card found late is reported from then on.  Over every sequence of
    machines, from the one the collector is built on, tick [i] answers with the
    members of the card that the first machine to show an AMD card showed, with
    the sensors found first since; before that there is no document, and after
    it the card never changes. *)
Theorem gpu_documents (m0 : Machine) (pid : option Z) (drm : string) (ms : list Machine) (i : nat) (m : Machine)
    (Hi : ms !! i = Some m) :
  gpu_run ms (with_drm_path m0 pid drm) !! i = Some (gpu_answer drm (m0 :: take (S i) ms) m).
Proof.
  apply (gpu_run_follows drm ms [m0] _ i m); [|done].
  unfold with_drm_path, follows, found_card, found_hwmon, shows_no_card. cbn.
  destruct (find_amd_card m0 drm) as [[device|] hwmon] eqn:Em; cbn.
  - rewrite (card_hwmon _ _ _ _ Em). by destruct (find_hwmon m0 device).
  - split; [done|]. split; [done|]. rewrite best_card in Em. by destruct (fst _); simplify_eq.
Qed.
End late.

(** A machine with one card whose sensors are there or not. *)
Definition demo_drm : string := "/drm".
Definition demo_gpu (card sensors : bool) : Machine := {|
  read_bytes p :=
    if card && String.eqb p "/drm/card1/device/vendor" then Some ("0x1002" +:+ str1 nl)
    else if card && String.eqb p "/drm/card1/device/gpu_busy_percent" then Some ("73" +:+ str1 nl)
    else if sensors && String.eqb p "/drm/card1/device/hwmon/hwmon4/temp1_input" then Some ("63540" +:+ str1 nl)
    else None;
  read_link _ := None;
  list_dir p :=
    if String.eqb p "/drm" then Some (if card then ["version"; "card1"; "card1-DP-1"] else ["version"])
    else if sensors && String.eqb p "/drm/card1/device/hwmon" then Some ["hwmon4"]
    else None;
  path_exists _ := false; path_is_dir _ := false; canonicalize _ := None; var _ := None;
|}.
Definition demo_gpu_ticks : list Machine := [demo_gpu false false; demo_gpu true false; demo_gpu true true].
#[local] Existing Instance ascii_unicode.

Lemma gpu_documents_witness :
  demo_gpu_ticks !! 2%nat = Some (demo_gpu true true)
  ∧ gpu_run demo_gpu_ticks (with_drm_path (demo_gpu false false) None demo_drm) !! 2%nat
    = Some (gpu_answer demo_drm (demo_gpu false false :: demo_gpu_ticks) (demo_gpu true true)).
Proof.
  split; [reflexivity|].
  exact (gpu_documents (demo_gpu false false) None demo_drm demo_gpu_ticks 2 (demo_gpu true true) eq_refl).
Defined.

(** The three ticks: nothing, the utilisation, and the temperature too. *)
Example late_discovery_values :
  gpu_run demo_gpu_ticks (with_drm_path (demo_gpu false false) None demo_drm)
  = [None;
     Some (rigsignal_doc "gpu" [("utilisation_pct", json_f64 (f64_of_Z 73))]);
     Some (rigsignal_doc "gpu" [("temp_source", JString "hwmon"); ("temperature_c", json_f64 (f64_lit 635 1));
                                ("utilisation_pct", json_f64 (f64_of_Z 73))])].
Proof. vm_compute. reflexivity. Qed.

(** ** Sensors without a name *)

Definition demo_hwmon (first : option string) : Machine := {|
  read_bytes p :=
    if String.eqb p "/sys/class/hwmon/hwmon0/name" then first
    else if String.eqb p "/sys/class/hwmon/hwmon1/name" then Some "amdgpu"
    else if String.eqb p "/sys/class/hwmon/hwmon1/power1_cap" then Some "330000000"
    else if String.eqb p "/sys/class/hwmon/hwmon2/name" then Some "k10temp"
    else if String.eqb p "/sys/class/hwmon/hwmon2/temp1_input" then Some "54125"
    else None;
  read_link _ := None;
  list_dir p := if String.eqb p "/sys/class/hwmon" then Some ["hwmon2"; "hwmon0"; "hwmon1"] else None;
  path_exists _ := false; path_is_dir _ := false; canonicalize _ := None; var _ := None;
|}.
(** One sensor directory whose name cannot be read hides the ones after it. *)
Example unreadable_name_hides :
  amd_tdp_w (demo_hwmon (Some "nvme")) = Some (f64_of_Z 330) ∧ temperature_c (demo_hwmon (Some "nvme")) = Some (f64_lit 541 1)
  ∧ amd_tdp_w (demo_hwmon None) = None ∧ temperature_c (demo_hwmon None) = None.
Proof. split_and!; vm_compute; reflexivity. Qed.

(** ** Page faults *)

Definition demo_stat (comm : string) : Machine := {|
  read_bytes p :=
    if String.eqb p "/proc/7/stat" then Some ("7 (" +:+ comm +:+ ") S 1 7 7 0 -1 4194304 1500 20 3 4 100 50 0 0 20 0")
    else if String.eqb p "/proc/meminfo" then Some "MemTotal: 4096 kB"
    else None;
  read_link _ := None; list_dir _ := None; path_exists _ := false; path_is_dir _ := false; canonicalize _ := None; var _ := None;
|}.
(** A process with 1500 minor and 3 major faults: the two change names; with a
    space in its name the flags and the children's minor faults are reported. *)
Example page_faults_values :
  page_faults (demo_stat "game") 7 = Some (1500, 3) ∧ page_faults (demo_stat "my game") 7 = Some (4194304, 20)
  ∧ and_then (json_get "rigsignal" (collect_memory (demo_stat "game") {| mem_game_pid := Some 7 |}))
             (λ v, and_then (json_get "memory" v) (json_get "page_faults_major")) = Some (json_u64 1500).
Proof. split_and!; vm_compute; reflexivity. Qed.

(** ** Five seconds of silence *)

(** Nothing is asked of a known backend while both answers are fresh. *)
Theorem audio_remembers (H : Unicode) (e : AudioEnv) (s : AudioCollector) :
  backend s = Some "pipewire" →
  stale (settings_cache_at s) (ae_settings_at e) = false → stale (sink_cache_at s) (ae_sink_at e) = false →
  collect_audio e s = Some (s, audio_doc "pipewire" (settings_members (settings_cache s) ++ sink_members (sink_cache s))).
Proof.
  intros Hb Hs Hk. unfold collect_audio. rewrite Hb. cbn [String.eqb Ascii.eqb Bool.eqb].
  unfold pipewire_settings_cached. cbn. rewrite Hs. unfold pipewire_sink_info_cached. cbn. rewrite Hk.
  destruct s. cbn in Hb. by subst.
Qed.

(** A sample specification whose last character before the rate is longer than
    a byte ends the agent; in plain text it gives the rate. *)
Example hz_value_values :
  hz_value "Sample Specification: s16le 2ch 44100Hz" = Some (Some 44100)
  ∧ hz_value ("Sample Specification: s16le 2ch" +:+ String "194" (String "160" "44100Hz")) = None.
Proof. split; vm_compute; reflexivity. Qed.

(** The test of the code: the block of the default sink, not the first. *)
Definition demo_sinks : string :=
  concat_str ((λ l, l +:+ str1 nl) <$>
    ["Sink #42"; "State: RUNNING"; "Name: surround"; "Sample Specification: float32le 6ch 48000Hz";
     "Latency: 1234 usec, configured 2000 usec"; "Sink #43"; "State: IDLE"; "Name: stereo";
     "Sample Specification: s16le 2ch 44100Hz"; "Latency: 500 usec, configured 1000 usec"]).
Example default_sink_block :
  (si_channels <$> parse_pactl_sinks demo_sinks (Some "stereo"), si_driver_latency_ms <$> parse_pactl_sinks demo_sinks None,
   parse_pactl_sinks demo_sinks (Some "none"))
  = (Some (Some 2), Some (Some (f64_lit 123 2)), None).
Proof. vm_compute. reflexivity. Qed.
