(* ===== verification/Host.v ===== *)
(** * Host identity ([src/host.rs])

    The snapshot of a Linux machine that the agent takes once: the host's name
    and system, processor, card, memory, device and monitors.  Files are read
    through [Machine], commands through [Command]. *)
From Stdlib Require Import Ascii Floats.SpecFloat.
From S2P Require Import Prelude Float64 EsModel Json FileSystem GameScan Summary Counters Sensors Command.

(** [str::split_once] with a key and a separator of one byte, trimmed. *)
Definition value_after (sep line : string) : option string := trim ∘ snd <$> split_once sep line.

(** The digits and dots at the front. *)
Definition number_prefix (s : string) : string :=
  concat_str (take_while (λ c, char_is is_ascii_digit c || String.eqb c ".") (chars s)).

Definition host_read_int (m : Machine) (path : string) : option Z := and_then (read_str_file m path) parse_i64.

(** ** Name *)

(** [normalize_hostname] is that of [EsModel]: the two functions are the same. *)
Definition hostname `{Unicode} (m : Machine) : string :=
  normalize_hostname (unwrap_or (read_str_file m "/proc/sys/kernel/hostname") "unknown").

(** ** System *)

Definition release_line (release : gmap string string) (line : string) : gmap string string :=
  match split_once "=" line with
  | Some (k, v) => <[trim k := trim_matches (String.eqb dq) (trim v)]> release
  | None => release
  end.
Definition os_info (m : Machine) : list (string * json) :=
  let release := foldl release_line ∅ (unwrap_or (text_lines m "/etc/os-release") []) in
  [("type", JString "linux")]
  ++ when_some "kernel" JString (trim <$> read_text m "/proc/sys/kernel/osrelease")
  ++ when_some "name" JString (or_else (release !! "NAME") (release !! "PRETTY_NAME"))
  ++ when_some "version" JString (or_else (release !! "VERSION_ID") (release !! "BUILD_ID"))
  ++ when_some "platform" JString (release !! "ID").

(** ** Processor *)

(** The first line with that start whose value [f] accepts. *)
Definition first_line_value {A : Type} (start sep : string) (f : string → option A) (ls : list string) : option A :=
  head (filter_map (λ line, if starts_with start line then and_then (value_after sep line) f else None) ls).
Definition max_freq (m : Machine) : option Z :=
  let base := "/sys/bus/cpu/devices" in
  let! names := list_dir m base in
  let freqs := filter_map (λ n,
    let! path := to_str (join_path (join_path base n) "cpufreq/cpuinfo_max_freq") in host_read_int m path) names in
  last (stable_sort Z.leb freqs).
Definition cpu_info (m : Machine) : list (string * json) :=
  match text_lines m "/proc/cpuinfo" with
  | None => []
  | Some ls =>
      let threads := Z.of_nat (count (starts_with ("processor" +:+ str1 "009")) ls) in
      when_some "model" JString (first_line_value "model name" ":" Some ls)
      ++ when_some "cores" json_i64 (first_line_value "cpu cores" ":" parse_i64 ls)
      ++ (if 0 <? threads then [("threads", json_i64 threads)] else [])
  end
  ++ when_some "boost_clock_mhz" (λ max, json_i64 (Z.quot max 1000)) (max_freq m).

(** ** Card *)

(** [vendor_id] with [best_vram]; no card yet is [None]. *)
Definition better_gpu (m : Machine) (best : option (string * Z)) (card : string) : option (string * Z) :=
  match read_str_file m (join_path card "device/vendor") with
  | Some v =>
      if String.eqb v "0x1002" || String.eqb v "0x10de" || String.eqb v "0x8086" then
        let vram := unwrap_or (host_read_int m (join_path card "device/mem_info_vram_total")) 0 in
        if is_none_or best (λ b, snd b <? vram) then Some (v, vram) else best
      else best
  | None => best
  end.
Definition best_gpu (m : Machine) : option (string * Z) :=
  foldl (better_gpu m) None (join_path "/sys/class/drm" <$> card_names m "/sys/class/drm").

Definition summary_value (name : string) (ls : list string) : option string := first_line_value name "=" Some (trim <$> ls).
(** The version after the first [Mesa]. *)
Definition mesa_of (ls : list string) : option string :=
  let! line := List.find (contains "Mesa") ls in
  let! (_, rest) := split_once "Mesa " line in
  let version := number_prefix rest in
  if is_empty version then None else Some version.
Definition enrich_amd `{Unicode} (cmds : Commands) : list (string * json) :=
  let summary := lines <$> run_cmd cmds "vulkaninfo" ["--summary"] 4000 in
  let driver_version := and_then summary (summary_value "driverVersion") in
  let vulkan_driver := uc_to_lowercase <$> and_then summary (summary_value "driverName") in
  let mesa := and_then (lines <$> run_cmd cmds "glxinfo" ["-B"] 3000) mesa_of in
  let radv_version := if bool_decide (vulkan_driver = Some "radv") then driver_version else None in
  when_some "model" JString (and_then summary (summary_value "deviceName"))
  ++ when_some "driver_version" JString driver_version
  ++ when_some "vulkan_driver" JString vulkan_driver
  ++ when_some "mesa_version" JString (or_else mesa radv_version).

(** [splitn(3, ',')], trimmed. *)
Definition splitn3 (line : string) : list string :=
  trim <$> match split_once "," line with
           | None => [line]
           | Some (a, rest) =>
               match split_once "," rest with None => [a; rest] | Some (b, c) => [a; b; c] end
           end.
Definition nonempty (s : string) : option string := if is_empty s then None else Some s.
Definition enrich_nvidia (cmds : Commands) : list (string * json) :=
  match run_cmd cmds "nvidia-smi" ["--query-gpu=name,memory.total,driver_version"; "--format=csv,noheader,nounits"] 5000 with
  | None => []
  | Some out =>
      match splitn3 (trim (unwrap_or (head (lines out)) EmptyString)) with
      | [name; vram; driver] =>
          when_some "model" JString (nonempty name) ++ when_some "vram_mb" json_i64 (parse_i64 vram)
          ++ when_some "driver_version" JString (nonempty driver)
      | _ => []
      end ++ [("vulkan_driver", JString "nvidia")]
  end.
Definition gpu_info `{Unicode} (m : Machine) (cmds : Commands) : list (string * json) :=
  match best_gpu m with
  | None => []
  | Some (v, vram) =>
      if String.eqb v "0x1002" then
        ("vendor", JString "amd") :: (if 0 <? vram then [("vram_mb", json_i64 (Z.quot vram 1048576))] else []) ++ enrich_amd cmds
      else if String.eqb v "0x10de" then ("vendor", JString "nvidia") :: enrich_nvidia cmds
      else [("vendor", JString "intel")]
  end.

(** ** Memory and device *)

(** The first line with that name decides. *)
Definition ram_info (m : Machine) : list (string * json) :=
  when_some "total_mb" json_i64
    (let! ls := text_lines m "/proc/meminfo" in
     let! line := List.find (starts_with "MemTotal:") ls in
     let! kb := and_then (split_whitespace line !! 1%nat) parse_i64 in
     Some (Z.quot kb 1024)).

Definition chassis_kind (ct : Z) : string :=
  if ct =? 11 then "handheld"
  else if (ct =? 8) || (ct =? 9) || (ct =? 10) || (ct =? 14) then "laptop"
  else "desktop".
Definition power_dirs (m : Machine) : list string :=
  List.filter (λ p, let name := unwrap_or (path_file_name (path_from p)) EmptyString in
                    starts_with "AC" name || starts_with "ADP" name)
              (from_utf8_lossy ∘ join_path power_supply <$> unwrap_or (list_dir m power_supply) []).
Definition device_info (m : Machine) : list (string * json) :=
  when_some "type" (JString ∘ chassis_kind) (and_then (read_str_file m "/sys/class/dmi/id/chassis_type") parse_u32)
  ++ when_some "model" JString (read_str_file m "/sys/class/dmi/id/product_name")
  ++ when_some "power_source" (λ online, JString (if online =? 0 then "battery" else "ac"))
       (head (filter_map (λ supply, host_read_int m (supply +:+ "/online")) (power_dirs m))).

(** ** Monitors *)

(** [monitors], [current] and [after_current] of [collect_monitors]. *)
Record Monitors := {
  mo_done : list json;
  mo_current : option (list (string * json));
  mo_after_current : bool;
}.
Definition no_monitors : Monitors := {| mo_done := []; mo_current := None; mo_after_current := false |}.
Definition flush_monitor (s : Monitors) : list json :=
  mo_done s ++ match mo_current s with Some members => [JObject members] | None => [] end.

(** [WxH+X+Y]. *)
Definition geometry (tok : string) : list (string * json) :=
  match split_char "x" (unwrap_or (head (split_char "+" tok)) EmptyString) with
  | [w; h] =>
      match parse_i64 w, parse_i64 h with
      | Some w, Some h => [("resolution_h", json_i64 w); ("resolution_v", json_i64 h)]
      | _, _ => []
      end
  | _ => []
  end.
(** What the line of a connected output says. *)
Definition monitor_header (tokens : list string) : option (list (string * json)) :=
  match tokens with
  | name :: kind :: rest =>
      if String.eqb kind "connected" then
        Some (map_of
          ([("name", JString name); ("is_primary", JBool (existsb (String.eqb "primary") tokens));
            ("vrr_capable", JBool false); ("hdr_capable", JBool false); ("current_vrr_enabled", JBool false)]
           ++ match List.find (λ tok, contains "x" tok && contains "+" tok) rest with Some tok => geometry tok | None => [] end))
      else None
  | _ => None
  end.

Definition refresh_rate (trimmed : string) : list (string * json) :=
  when_some "refresh_rate_hz" json_f64
    (let! (_, rest) := split_once "clock " trimmed in parse_f64 (number_prefix rest)).
(** After the last [:] of [s]. *)
Definition after_colon (s : string) : option string := snd <$> rsplit_once ":" s.
(** The members a property line sets. *)
Definition monitor_property `{Unicode} (trimmed : string) : list (string * json) :=
  let lower := uc_to_lowercase trimmed in
  (if starts_with "vrr_capable:" lower && contains ": 1" lower then [("vrr_capable", JBool true)] else [])
  ++ (if (contains "freesync" lower || contains "gsync" lower) && ends_with ": 1" lower then [("vrr_capable", JBool true)] else [])
  ++ (if starts_with "variable refresh rate" lower && contains ": 1" lower then [("current_vrr_enabled", JBool true)] else [])
  ++ (if starts_with "max bpc:" lower
          && is_some_and (and_then (after_colon trimmed) (λ v, parse_u32 (trim v))) (λ bpc, 8 <? bpc)
      then [("hdr_capable", JBool true)] else [])
  ++ (if contains "colorspace" lower && (contains "bt2020" lower || contains "hdr" lower)
      then [("hdr_capable", JBool true)] else []).
Definition insert_all (members new : list (string * json)) : list (string * json) :=
  foldl (λ acc kv, map_insert (fst kv) (snd kv) acc) members new.

Definition monitor_line `{Unicode} (s : Monitors) (line : string) : Monitors :=
  match monitor_header (split_whitespace line) with
  | Some members => {| mo_done := flush_monitor s; mo_current := Some members; mo_after_current := false |}
  | None =>
      match mo_current s with
      | None => s
      | Some members =>
          let trimmed := trim line in
          if contains "*current" trimmed then {| mo_done := mo_done s; mo_current := Some members; mo_after_current := true |}
          else if mo_after_current s && starts_with "v:" trimmed then
            {| mo_done := mo_done s; mo_current := Some (insert_all members (refresh_rate trimmed)); mo_after_current := false |}
          else
            {| mo_done := mo_done s; mo_current := Some (insert_all members (monitor_property trimmed));
               mo_after_current := mo_after_current s |}
      end
  end.
Definition monitors_of `{Unicode} (ls : list string) : list json := flush_monitor (foldl monitor_line no_monitors ls).
Definition collect_monitors `{Unicode} (cmds : Commands) : list json :=
  match run_cmd cmds "xrandr" ["--verbose"] 4000 with Some out => monitors_of (lines out) | None => [] end.

(** ** Snapshot *)

Definition unless_empty (name : string) (members : list (string * json)) : list (string * json) :=
  match members with [] => [] | _ => [(name, object members)] end.
Definition collect_snapshot `{Unicode} (m : Machine) (cmds : Commands) : json :=
  let monitors := collect_monitors cmds in
  let hardware :=
    unless_empty "cpu" (cpu_info m) ++ unless_empty "gpu" (gpu_info m cmds) ++ unless_empty "ram" (ram_info m)
    ++ unless_empty "device" (device_info m)
    ++ match monitors with [] => [] | _ => [("monitors", JArray monitors)] end in
  object ([("host", object [("os", object (os_info m))])]
          ++ match hardware with [] => [] | _ => [("rigsignal", object [("hardware", object hardware)])] end).
