(* ===== verification/HostSpec.v ===== *)
(** * What the host snapshot promises

    The monitors are read block by block, a block being the lines from one
    connected output to the next. *)
From Stdlib Require Import Ascii Floats.SpecFloat.
From S2P Require Import Prelude Float64 EsModel Json FileSystem GameScan Summary Counters Sensors Command Host.

Section monitors.
Context `{Unicode}.

Definition is_header (line : string) : bool :=
  match monitor_header (split_whitespace line) with Some _ => true | None => false end.

(** The lines before the first connected output, and for each such output its
    line and those up to the next one. *)
Definition add_to_blocks (line : string) (acc : list string * list (string * list string)) :=
  if is_header line then ([], (line, fst acc) :: snd acc) else (line :: fst acc, snd acc).
Definition monitor_blocks (ls : list string) : list string * list (string * list string) := foldr add_to_blocks ([], []) ls.

(** A monitor from its own block. *)
Definition monitor_of (block : string * list string) : json :=
  JObject (unwrap_or (mo_current (foldl monitor_line no_monitors (fst block :: snd block))) []).

Lemma header_line s line members :
  monitor_header (split_whitespace line) = Some members →
  monitor_line s line = {| mo_done := flush_monitor s; mo_current := Some members; mo_after_current := false |}.
Proof. unfold monitor_line. by intros ->. Qed.

(** A line within a block changes the monitor of the block alone. *)
Lemma body_line members after line : is_header line = false →
  ∃ members' after', ∀ d,
    monitor_line {| mo_done := d; mo_current := Some members; mo_after_current := after |} line
    = {| mo_done := d; mo_current := Some members'; mo_after_current := after' |}.
Proof.
  unfold is_header, monitor_line. destruct (monitor_header _); [done|]. intros _. cbn [mo_current mo_done mo_after_current].
  destruct (contains "*current" (trim line)); [eauto|]. destruct (after && starts_with "v:" (trim line)); eauto.
Qed.
Lemma line_outside d after line : is_header line = false →
  monitor_line {| mo_done := d; mo_current := None; mo_after_current := after |} line
  = {| mo_done := d; mo_current := None; mo_after_current := after |}.
Proof. unfold is_header, monitor_line. by destruct (monitor_header _). Qed.

Definition rest_of_block (members : list (string * json)) (after : bool) (body : list string) : json :=
  JObject (unwrap_or (mo_current (foldl monitor_line {| mo_done := []; mo_current := Some members; mo_after_current := after |} body)) []).

Lemma monitor_of_header line body members :
  monitor_header (split_whitespace line) = Some members → monitor_of (line, body) = rest_of_block members false body.
Proof. intros E. unfold monitor_of. cbn [fst snd foldl]. by rewrite (header_line _ _ _ E). Qed.

Lemma blocks_from ls :
  (∀ d members after,
     flush_monitor (foldl monitor_line {| mo_done := d; mo_current := Some members; mo_after_current := after |} ls)
     = d ++ rest_of_block members after (fst (monitor_blocks ls)) :: (monitor_of <$> snd (monitor_blocks ls)))
  ∧ (∀ d after,
     flush_monitor (foldl monitor_line {| mo_done := d; mo_current := None; mo_after_current := after |} ls)
     = d ++ (monitor_of <$> snd (monitor_blocks ls))).
Proof.
  induction ls as [|line ls [IHs IHn]]; [done|].
  assert (Hh : is_header line = true → ∃ members, monitor_header (split_whitespace line) = Some members).
  { unfold is_header. destruct (monitor_header _); [eauto|done]. }
  change (monitor_blocks (line :: ls)) with (add_to_blocks line (monitor_blocks ls)). unfold add_to_blocks.
  cbn [foldl]. destruct (is_header line) eqn:El; cbn [fst snd fmap list_fmap].
  - destruct (Hh eq_refl) as [members E]. rewrite (monitor_of_header _ _ _ E). split; intros d.
    + intros members0 after. rewrite (header_line _ _ _ E), IHs. unfold flush_monitor. cbn [mo_done mo_current]. by rewrite <- app_assoc.
    + intros after. rewrite (header_line _ _ _ E), IHs. unfold flush_monitor. cbn [mo_done mo_current]. by rewrite app_nil_r.
  - split; intros d.
    + intros members after. destruct (body_line members after line El) as (members' & after' & Hl).
      rewrite Hl, IHs. unfold rest_of_block. cbn [foldl]. by rewrite Hl.
    + intros after. by rewrite line_outside, IHn.
Qed.

(** Each monitor of the snapshot is made of the lines of its own block
    and of nothing else, in the order of the blocks; what stands before the first
    connected output counts for none. *)
Theorem monitors_by_block (ls : list string) : monitors_of ls = monitor_of <$> snd (monitor_blocks ls).
Proof. apply (proj2 (blocks_from ls)). Qed.
End monitors.

#[local] Existing Instance ascii_unicode.

Definition demo_xrandr : list string :=
  ["Screen 0: minimum 320 x 200, current 3440 x 1440";
   "DP-1 connected primary 3440x1440+0+0 (0x41) normal";
   "  vrr_capable: 0"; "  max bpc: 8";
   "  3440x1440 (0x41) 889.750MHz -HSync +VSync *current +preferred";
   "        h: width  3440 start 3488"; "        v: height 1440 start 1443 end 1453 total 1545 clock 119.98Hz";
   "HDMI-1 disconnected (normal left inverted right x axis y axis)";
   "  vrr_capable: 1"; "  max bpc: 16"].
(** A disconnected output starts no block: its properties become those of the
    monitor before it. *)
Example disconnected_properties_leak :
  monitors_of (take 7 demo_xrandr)
  = [JObject [("current_vrr_enabled", JBool false); ("hdr_capable", JBool false); ("is_primary", JBool true);
              ("name", JString "DP-1"); ("refresh_rate_hz", json_f64 (f64_lit 11998 2)); ("resolution_h", json_i64 3440);
              ("resolution_v", json_i64 1440); ("vrr_capable", JBool false)]]
  ∧ monitors_of demo_xrandr
  = [JObject [("current_vrr_enabled", JBool false); ("hdr_capable", JBool true); ("is_primary", JBool true);
              ("name", JString "DP-1"); ("refresh_rate_hz", json_f64 (f64_lit 11998 2)); ("resolution_h", json_i64 3440);
              ("resolution_v", json_i64 1440); ("vrr_capable", JBool true)]].
Proof. split; vm_compute; reflexivity. Qed.
