(* ===== verification/Diagnose.v ===== *)
(** * The diagnostic report ([src/diagnose.rs])

    The text of [rigsignal-agent diagnose] from the host snapshot, the
    configuration and the answer to one ping; and that no secret is in it. *)
From Stdlib Require Import Ascii Floats.SpecFloat.
From S2P Require Import Prelude Float64 EsModel Json FileSystem GameScan Summary Counters Command Host.
From S2P Require Import Handshake HandshakeSpec Config ConfigSpec.

(** [{}] of an [i64]. *)
Definition show_i64 (z : Z) : string := if z <? 0 then "-" +:+ show (- z) else show z.

(** An [anyhow::Error]: its outermost message, and those below it. *)
Record Error := { er_outermost : string; er_causes : list string }.
Definition ping_failure_reason (e : Error) : string :=
  match last (er_causes e) with
  | Some root => if String.eqb root (er_outermost e) then er_outermost e else er_outermost e +:+ ": " +:+ root
  | None => er_outermost e
  end.

(** [get] and [get_i64]: a path into the snapshot. *)
Fixpoint value_at (path : list string) (v : json) : option json :=
  match path with
  | [] => Some v
  | key :: path => and_then (json_get key v) (value_at path)
  end.
Definition text_at (path : list string) (v : json) : option string := and_then (value_at path v) as_str.
Definition int_at_path (path : list string) (v : json) : option Z := and_then (value_at path v) as_i64.
Definition hardware (part name : string) : list string := ["rigsignal"; "hardware"; part; name].

(** A line of the report that is there when its value is. *)
Definition line_of (label : string) (o : option string) : list string :=
  match o with Some s => [label +:+ s] | None => [] end.

Definition cpu_detail (cores threads boost : option Z) : string :=
  match cores, threads, boost with
  | Some c, Some t, Some b => "  — " +:+ show_i64 c +:+ "c/" +:+ show_i64 t +:+ "t  " +:+ show_i64 b +:+ " MHz boost"
  | Some c, Some t, None => "  — " +:+ show_i64 c +:+ "c/" +:+ show_i64 t +:+ "t"
  | _, _, _ => EmptyString
  end.

Section report.
Context `{Unicode} `{Parsers} (m : Machine).

Definition system_lines (snapshot : json) : list string :=
  let kernel := unwrap_or (text_at ["host"; "os"; "kernel"] snapshot) "unknown" in
  let os_name := unwrap_or (text_at ["host"; "os"; "name"] snapshot) "unknown" in
  let os_version := unwrap_or (text_at ["host"; "os"; "version"] snapshot) EmptyString in
  let os_str := if is_empty os_version then os_name else os_name +:+ " " +:+ os_version in
  let int name part := int_at_path (hardware part name) snapshot in
  ["System"; "  Hostname:   " +:+ hostname m; "  Kernel:     " +:+ kernel; "  OS:         " +:+ os_str]
  ++ line_of "  Device:     " (text_at (hardware "device" "type") snapshot)
  ++ line_of "  CPU:        "
       ((λ model, model +:+ cpu_detail (int "cores" "cpu") (int "threads" "cpu") (int "boost_clock_mhz" "cpu"))
          <$> text_at (hardware "cpu" "model") snapshot)
  ++ line_of "  RAM:        " ((λ ram, show_i64 (Z.quot ram 1024) +:+ " GiB") <$> int "total_mb" "ram")
  ++ [EmptyString].

(** The section, if a card was found, and the note of either case. *)
Definition gpu_lines (snapshot : json) : list string * string :=
  let text name := text_at (hardware "gpu" name) snapshot in
  match text "vendor", text "model" with
  | None, None => ([], "GPU info not detected (no AMD/NVIDIA/Intel DRM card found in /sys/class/drm)")
  | vendor, model =>
      (["GPU"] ++ line_of "  Vendor:     " vendor ++ line_of "  Model:      " model
       ++ line_of "  VRAM:       " ((λ vram, show_i64 vram +:+ " MiB") <$> int_at_path (hardware "gpu" "vram_mb") snapshot)
       ++ line_of "  Driver:     " (text "driver_version") ++ line_of "  Mesa:       " (text "mesa_version")
       ++ line_of "  Vulkan:     " (text "vulkan_driver") ++ [EmptyString],
       "GPU: " +:+ unwrap_or vendor "unknown" +:+ " " +:+ unwrap_or model EmptyString
       +:+ " driver " +:+ unwrap_or (text "driver_version") "n/a")
  end.

Definition auth_kind (c : Config) : string :=
  let es := c_elasticsearch c in
  if is_some_and (es_api_key es) (λ _, true) then "api_key"
  else if is_some_and (es_username es) (λ _, true) then "basic auth"
  else "none".

(** The notes of the ping and the status. *)
Definition es_status (ping : result unit Error) : list string * string :=
  match ping with
  | Ok _ => (["ES ping OK"], "REACHABLE")
  | Err e => let reason := ping_failure_reason e in (["ES ping failed: " +:+ reason], "UNREACHABLE — " +:+ reason)
  end.
Definition es_lines (c : Config) (ping : result unit Error) : list string :=
  ["Elasticsearch"; "  Endpoint:   " +:+ endpoint_for_display c; "  Status:     " +:+ snd (es_status ping);
   "  Auth:       " +:+ auth_kind c; EmptyString].

Definition dirs_next_home : option string := var m "HOME".
Definition config_file_str (config_path : option string) : string :=
  match config_path with
  | Some p => p
  | None =>
      match dirs_next_home with
      | Some h => join_path h ".config/rigsignal/rigsignal.toml"
      | None => "~/.config/rigsignal/rigsignal.toml"
      end
  end.
Definition config_lines (c : Config) (config_path : option string) : list string :=
  let shown := c_elasticsearch (redacted_for_display c) in
  ["Config"; "  File:       " +:+ config_file_str config_path; "  ES endpoint: " +:+ es_url shown]
  ++ line_of "  api_key:    " (es_api_key shown) ++ [EmptyString].

(** [log.iter().rev().take(20)], in order again. *)
Definition tail_20 (log : list string) : list string := rev (take 20 (rev log)).

Definition notes (snapshot : json) (c : Config) (ping : result unit Error) : list string :=
  let text path := text_at path snapshot in
  ["collecting host snapshot";
   "kernel " +:+ unwrap_or (text ["host"; "os"; "kernel"]) "unknown" +:+ ", OS " +:+ unwrap_or (text ["host"; "os"; "name"]) "unknown"
   +:+ " " +:+ unwrap_or (text ["host"; "os"; "version"]) EmptyString;
   snd (gpu_lines snapshot);
   "pinging Elasticsearch at " +:+ endpoint_for_display c] ++ fst (es_status ping).

(** What [run] writes, and what it has told the journal. *)
Definition report (ts version : string) (cmds : Commands) (c : Config) (config_path : option string) (ping : result unit Error)
  : string * list string :=
  let snapshot := collect_snapshot m cmds in
  let log := notes snapshot c ping in
  let ls := ["=== RigSignal Diagnostic Report ==="; "Generated:  " +:+ ts; "Version:    " +:+ version; EmptyString]
            ++ system_lines snapshot ++ fst (gpu_lines snapshot) ++ es_lines c ping ++ config_lines c config_path
            ++ ["Diagnostic Log"] ++ ((λ l, "  " +:+ l) <$> tail_20 log) in
  (concat_str ((λ l, l +:+ str1 nl) <$> ls), log).

(** Where the report goes: a file, whose write can fail, or standard output. *)
Inductive Emitted := Written (path content : string) | Printed (content : string).
Definition emit_report (output : option string) (can_write : string → bool) (content : string) : result Emitted string :=
  match output with
  | Some path => if can_write path then Ok (Written path content) else Err ("writing diagnostic report to " +:+ path)
  | None => Ok (Printed content)
  end.
(** [run]: what it emits and what it has told the journal. *)
Definition run (ts version : string) (cmds : Commands) (c : Config) (config_path output : option string)
    (ping : result unit Error) (can_write : string → bool) : result Emitted string * list string :=
  let (content, log) := report ts version cmds c config_path ping in (emit_report output can_write content, log).
End report.

(** ** No secret in the report *)

(** Two pings that ended alike, whatever request stands between the outermost
    message and the root cause. *)
Inductive same_ends : result unit Error → result unit Error → Prop :=
| both_fine : same_ends (Ok ()) (Ok ())
| both_failed e e' : er_outermost e = er_outermost e' → last (er_causes e) = last (er_causes e') → same_ends (Err e) (Err e').

Lemma es_status_ends ping ping' : same_ends ping ping' → es_status ping = es_status ping'.
Proof. intros [|e e' Ho Hl]; [done|]. unfold es_status, ping_failure_reason. by rewrite Ho, Hl. Qed.

Lemma auth_kind_same `{Parsers} c c' : same_but_secrets c c' → auth_kind c = auth_kind c'.
Proof.
  intros [_ _ Hk Hu _ _]. unfold auth_kind, same_secret in *.
  destruct (es_api_key _), (es_api_key (c_elasticsearch c')); try done;
    try (by destruct (proj1 Hk ltac:(done))); try (by destruct (proj2 Hk ltac:(done))).
  destruct (es_username _), (es_username (c_elasticsearch c')); try done;
    try (by destruct (proj1 Hu ltac:(done))); by destruct (proj2 Hu ltac:(done)).
Qed.


#[local] Existing Instance ascii_unicode.
#[local] Instance report_parsers : Parsers := example_parsers.

(** A failure whose middle names the request. *)
Definition demo_failure (request : string) : Error :=
  {| er_outermost := "connecting to Elasticsearch"; er_causes := [request; "Connection refused"] |}.
Definition demo_report (key request : string) : result Emitted string * list string :=
  run config_machine "2026-01-01T00:00:00.000000Z" "0.1.0" (λ _ _, None) (minimal_config (Some key) None (Some key)) None None
    (Err (demo_failure request)) (λ _, true).

(** Without [--config] the report names the file of the home directory, and the
    configuration may come from another. *)
Example report_names_another_file :
  config_file_str config_machine None = "/home/p/.config/rigsignal/rigsignal.toml"
  ∧ path_exists config_machine "/home/p/.config/rigsignal/rigsignal.toml" = false
  ∧ is_ok (fst (load config_machine minimal_toml false None)) = true.
Proof. split_and!; vm_compute; reflexivity. Qed.
