(* ===== verification/Bpf.v ===== *)
(** * The BPF programs ([ebpf/rigsignal-ebpf-probes/src/])

    The eighteen programs that run in the kernel: their maps, the records they
    write into the ring buffers, and one function for each.  What the kernel
    decides is the argument of a run: the bytes of the tracepoint's context, the
    answers of the helpers, whether a map takes a new entry and a ring buffer has
    room.  A program runs to its end on its processor; runs on several processors
    follow each other in the order in which they touch a map. *)
From Stdlib Require Import Ascii.
From S2P Require Import Prelude Float64 EsModel GpuSchedFormat Probes.

(** ** What the kernel provides *)

(** The context of a tracepoint: its bytes, and where reading faults. *)
Record TracePointContext := { tp_byte : Z → ascii; tp_faults : Z → bool }.
Fixpoint context_bytes (ctx : TracePointContext) (offset : Z) (n : nat) : string :=
  match n with O => EmptyString | S n => String (tp_byte ctx offset) (context_bytes ctx (offset + 1) n) end.
(** [ctx.read_at] of an array and of an integer; a signed one is only used cast to
    its unsigned type. *)
Definition read_array (ctx : TracePointContext) (n : nat) (offset : Z) : option string :=
  if tp_faults ctx offset then None else Some (context_bytes ctx offset n).
Definition read_at (ctx : TracePointContext) (n : nat) (offset : Z) : option Z :=
  (λ s, le_at s 0 n) <$> read_array ctx n offset.

(** What a run gets from the helpers, whether the map has a free element for it
    and the ring buffer room, and what an LRU map gives up. *)
Record Call := {
  bpf_ktime_get_ns : Z;
  bpf_get_smp_processor_id : Z;
  bpf_get_current_pid_tgid : Z;
  map_accepts : bool;
  ring_has_room : bool;
  lru_evicts : list (Z * Z);
}.

(** [HashMap::insert] with flags 0: a new key needs room. *)
Definition bpf_map_insert {K} `{Countable K} (accepts : bool) (max : nat) (k : K) (v : Z) (m : gmap K Z) : option (gmap K Z) :=
  if accepts && (bool_decide (is_Some (m !! k)) || (size m <? max)%nat) then Some (<[k := v]> m) else None.
(** [let _ = map.insert(..)] *)
Definition insert_or_not {K} `{Countable K} (accepts : bool) (max : nat) (k : K) (v : Z) (m : gmap K Z) : gmap K Z :=
  unwrap_or (bpf_map_insert accepts max k v m) m.
(** [reserve], [write] and [submit]. *)
Definition ring_write (has_room : bool) (record : string) (ring : list string) : list string :=
  if has_room then ring ++ [record] else ring.

(** [repr(C)], little-endian. *)
Fixpoint le_bytes (n : nat) (z : Z) : string :=
  match n with O => EmptyString | S n => String (ascii_of_N (Z.to_N (z mod 256))) (le_bytes n (z / 256)) end.
Definition zero_bytes (n : nat) : string := le_bytes n 0.

(** Entries in flight and what is written when they end. *)
Record InFlight (K : Type) `{Countable K} := { start_ts : gmap K Z; ring : list string }.
Arguments Build_InFlight {K _ _}.
Arguments start_ts {K _ _}.
Arguments ring {K _ _}.
Definition none_in_flight {K} `{Countable K} : InFlight K := {| start_ts := ∅; ring := [] |}.

(** The threads of the game. *)
Abbreviation GamePids := (gmap Z Z).
Definition GAME_PIDS_MAX : nat := 1024.
Definition is_game_tid (game_pids : GamePids) (tid : Z) : bool := bool_decide (is_Some (game_pids !! tid)).

(** ** Scheduling ([sched.rs]) *)

Definition COMM_LEN : nat := 16.
Definition EVENT_SWITCH : Z := 0.
Definition EVENT_MIGRATE : Z := 1.
Definition WAKEUP_TS_MAX : nat := 1024.
Record SchedEvent := { sv_event_type : Z; sv_tid : Z; sv_wait_ns : Z; sv_prev_cpu : Z; sv_next_cpu : Z; sv_comm : string }.
Definition encode_sched (e : SchedEvent) : string :=
  le_bytes 1 (sv_event_type e) +:+ zero_bytes 3 +:+ le_bytes 4 (sv_tid e) +:+ le_bytes 8 (sv_wait_ns e)
  +:+ le_bytes 4 (sv_prev_cpu e) +:+ le_bytes 4 (sv_next_cpu e) +:+ sv_comm e.

Definition sched_wakeup (game_pids : GamePids) (ctx : TracePointContext) (c : Call) (s : InFlight Z) : Z * InFlight Z :=
  match read_at ctx 4 24 with
  | None => (1, s)
  | Some tid =>
      if negb (is_game_tid game_pids tid) then (0, s)
      else (0, {| start_ts := insert_or_not (map_accepts c) WAKEUP_TS_MAX tid (bpf_ktime_get_ns c) (start_ts s); ring := ring s |})
  end.
Definition sched_switch (game_pids : GamePids) (ctx : TracePointContext) (c : Call) (s : InFlight Z) : Z * InFlight Z :=
  match read_at ctx 4 56 with
  | None => (1, s)
  | Some next_tid =>
      if negb (is_game_tid game_pids next_tid) then (0, s)
      else
        let wait_ns := match start_ts s !! next_tid with
                       | Some wakeup_ts => saturating_sub (bpf_ktime_get_ns c) wakeup_ts
                       | None => 0 end in
        let next_comm := unwrap_or (read_array ctx COMM_LEN 40) (zero_bytes COMM_LEN) in
        (0, {| start_ts := delete next_tid (start_ts s);
               ring := ring_write (ring_has_room c)
                 (encode_sched {| sv_event_type := EVENT_SWITCH; sv_tid := next_tid; sv_wait_ns := wait_ns; sv_prev_cpu := 0;
                            sv_next_cpu := 0; sv_comm := next_comm |}) (ring s) |})
  end.
Definition sched_migrate_task (game_pids : GamePids) (ctx : TracePointContext) (c : Call) (s : InFlight Z) : Z * InFlight Z :=
  match read_at ctx 4 24 with
  | None => (1, s)
  | Some tid =>
      if negb (is_game_tid game_pids tid) then (0, s)
      else
        match read_at ctx 4 32, read_at ctx 4 36 with
        | Some orig_cpu, Some dest_cpu =>
            let comm := unwrap_or (read_array ctx COMM_LEN 8) (zero_bytes COMM_LEN) in
            (0, {| start_ts := start_ts s;
                   ring := ring_write (ring_has_room c)
                     (encode_sched {| sv_event_type := EVENT_MIGRATE; sv_tid := tid; sv_wait_ns := 0; sv_prev_cpu := orig_cpu;
                                sv_next_cpu := dest_cpu; sv_comm := comm |}) (ring s) |})
        | _, _ => (1, s)
        end
  end.

(** ** Block I/O ([bio.rs]) *)

Definition BIO_START_TS_MAX : nat := 4096.
Record BioEvent := { bv_latency_ns : Z; bv_bytes : Z }.
Definition encode_bio (e : BioEvent) : string := le_bytes 8 (bv_latency_ns e) +:+ le_bytes 4 (bv_bytes e) +:+ zero_bytes 4.

Definition block_rq_issue (ctx : TracePointContext) (c : Call) (s : InFlight Z) : Z * InFlight Z :=
  match read_at ctx 8 16 with
  | None => (1, s)
  | Some sector =>
      (0, {| start_ts := insert_or_not (map_accepts c) BIO_START_TS_MAX sector (bpf_ktime_get_ns c) (start_ts s); ring := ring s |})
  end.
(** The product wraps, as built for release. *)
Definition block_rq_complete (ctx : TracePointContext) (c : Call) (s : InFlight Z) : Z * InFlight Z :=
  match read_at ctx 8 16 with
  | None => (1, s)
  | Some sector =>
      match start_ts s !! sector with
      | None => (0, s)
      | Some issue_ts =>
          let latency_ns := saturating_sub (bpf_ktime_get_ns c) issue_ts in
          let nr_sector := unwrap_or (read_at ctx 4 24) 0 in
          (0, {| start_ts := delete sector (start_ts s);
                 ring := ring_write (ring_has_room c) (encode_bio {| bv_latency_ns := latency_ns; bv_bytes := wrap 32 (nr_sector * 512) |}) (ring s) |})
      end
  end.

(** ** Memory pressure ([mem.rs]) *)

Definition MEM_FAULT : Z := 0.
Definition MEM_RECLAIM : Z := 1.
Record MemEvent := { mv_event_type : Z; mv_is_write : Z }.
Definition encode_mem (e : MemEvent) : string := le_bytes 1 (mv_event_type e) +:+ le_bytes 1 (mv_is_write e) +:+ zero_bytes 6.

Definition page_fault_user (game_pids : GamePids) (ctx : TracePointContext) (c : Call) (events : list string) : Z * list string :=
  match read_at ctx 4 4 with
  | None => (1, events)
  | Some pid =>
      if negb (is_game_tid game_pids pid) then (0, events)
      else
        match read_at ctx 8 24 with
        | None => (1, events)
        | Some error_code =>
            let is_write := Z.land (Z.shiftr error_code 1) 1 in
            (0, ring_write (ring_has_room c) (encode_mem {| mv_event_type := MEM_FAULT; mv_is_write := is_write |}) events)
        end
  end.
Definition mm_vmscan_direct_reclaim_begin (c : Call) (events : list string) : Z * list string :=
  (0, ring_write (ring_has_room c) (encode_mem {| mv_event_type := MEM_RECLAIM; mv_is_write := 0 |}) events).

(** ** Latencies of calls of a thread ([futex.rs], [gpu_fence.rs], [vfs.rs]) *)

(** The low half of [bpf_get_current_pid_tgid]. *)
Definition tid_of (pid_tgid : Z) : Z := Z.land pid_tgid 4294967295.
Definition CALLS_MAX : nat := 1024.

Record FutexEvent := { fv_latency_ns : Z }.
Definition encode_futex (e : FutexEvent) : string := le_bytes 8 (fv_latency_ns e) +:+ zero_bytes 8.

Definition do_futex_entry (game_pids : GamePids) (c : Call) (s : InFlight Z) : Z * InFlight Z :=
  let pid_tgid := bpf_get_current_pid_tgid c in
  if negb (is_game_tid game_pids (tid_of pid_tgid)) then (0, s)
  else (0, {| start_ts := insert_or_not (map_accepts c) CALLS_MAX pid_tgid (bpf_ktime_get_ns c) (start_ts s); ring := ring s |}).
Definition do_futex_return (c : Call) (s : InFlight Z) : Z * InFlight Z :=
  let pid_tgid := bpf_get_current_pid_tgid c in
  match start_ts s !! pid_tgid with
  | None => (0, s)
  | Some entry_ts =>
      (0, {| start_ts := delete pid_tgid (start_ts s);
             ring := ring_write (ring_has_room c) (encode_futex {| fv_latency_ns := saturating_sub (bpf_ktime_get_ns c) entry_ts |}) (ring s) |})
  end.

Record GpuFenceEvent := { nv_latency_ns : Z }.
Definition encode_gpu_fence (e : GpuFenceEvent) : string := le_bytes 8 (nv_latency_ns e) +:+ zero_bytes 8.

Definition dma_fence_default_wait_entry (c : Call) (s : InFlight Z) : Z * InFlight Z :=
  (0, {| start_ts := insert_or_not (map_accepts c) CALLS_MAX (bpf_get_current_pid_tgid c) (bpf_ktime_get_ns c) (start_ts s); ring := ring s |}).
Definition dma_fence_default_wait_return (c : Call) (s : InFlight Z) : Z * InFlight Z :=
  let pid_tgid := bpf_get_current_pid_tgid c in
  match start_ts s !! pid_tgid with
  | None => (0, s)
  | Some entry_ts =>
      (0, {| start_ts := delete pid_tgid (start_ts s);
             ring := ring_write (ring_has_room c) (encode_gpu_fence {| nv_latency_ns := saturating_sub (bpf_ktime_get_ns c) entry_ts |}) (ring s) |})
  end.

Definition VFS_OP_READ : Z := 0.
Definition VFS_OP_WRITE : Z := 1.
Record VfsEvent := { vv_latency_ns : Z; vv_op : Z }.
Definition encode_vfs (e : VfsEvent) : string := le_bytes 8 (vv_latency_ns e) +:+ le_bytes 1 (vv_op e) +:+ zero_bytes 7.
(** Reads and writes in flight, one ring buffer. *)
Record VfsMaps := { read_start_ts : gmap Z Z; write_start_ts : gmap Z Z; vfs_ring : list string }.

Definition vfs_read_entry (game_pids : GamePids) (c : Call) (s : VfsMaps) : Z * VfsMaps :=
  let pid_tgid := bpf_get_current_pid_tgid c in
  if negb (is_game_tid game_pids (tid_of pid_tgid)) then (0, s)
  else (0, {| read_start_ts := insert_or_not (map_accepts c) CALLS_MAX pid_tgid (bpf_ktime_get_ns c) (read_start_ts s);
              write_start_ts := write_start_ts s; vfs_ring := vfs_ring s |}).
Definition vfs_read_return (c : Call) (s : VfsMaps) : Z * VfsMaps :=
  let pid_tgid := bpf_get_current_pid_tgid c in
  match read_start_ts s !! pid_tgid with
  | None => (0, s)
  | Some entry_ts =>
      (0, {| read_start_ts := delete pid_tgid (read_start_ts s); write_start_ts := write_start_ts s;
             vfs_ring := ring_write (ring_has_room c)
               (encode_vfs {| vv_latency_ns := saturating_sub (bpf_ktime_get_ns c) entry_ts; vv_op := VFS_OP_READ |}) (vfs_ring s) |})
  end.
Definition vfs_write_entry (game_pids : GamePids) (c : Call) (s : VfsMaps) : Z * VfsMaps :=
  let pid_tgid := bpf_get_current_pid_tgid c in
  if negb (is_game_tid game_pids (tid_of pid_tgid)) then (0, s)
  else (0, {| read_start_ts := read_start_ts s;
              write_start_ts := insert_or_not (map_accepts c) CALLS_MAX pid_tgid (bpf_ktime_get_ns c) (write_start_ts s); vfs_ring := vfs_ring s |}).
Definition vfs_write_return (c : Call) (s : VfsMaps) : Z * VfsMaps :=
  let pid_tgid := bpf_get_current_pid_tgid c in
  match write_start_ts s !! pid_tgid with
  | None => (0, s)
  | Some entry_ts =>
      (0, {| read_start_ts := read_start_ts s; write_start_ts := delete pid_tgid (write_start_ts s);
             vfs_ring := ring_write (ring_has_room c)
               (encode_vfs {| vv_latency_ns := saturating_sub (bpf_ktime_get_ns c) entry_ts; vv_op := VFS_OP_WRITE |}) (vfs_ring s) |})
  end.

(** ** Interrupts ([irq.rs]) *)

Definition IRQ_KIND_HARD : Z := 0.
Definition IRQ_KIND_SOFT : Z := 1.
Definition IRQ_START_TS_MAX : nat := 1024.
Definition SOFTIRQ_START_TS_MAX : nat := 512.
Record IrqEvent := { iv_latency_ns : Z; iv_kind : Z }.
Definition encode_irq (e : IrqEvent) : string := le_bytes 8 (iv_latency_ns e) +:+ le_bytes 1 (iv_kind e) +:+ zero_bytes 7.
(** Hard interrupts by processor and line, soft ones by processor. *)
Record IrqMaps := { irq_start_ts : gmap Z Z; softirq_start_ts : gmap Z Z; irq_ring : list string }.
Definition irq_key (cpu irq_nr : Z) : Z := Z.lor (Z.shiftl cpu 32) irq_nr.

Definition irq_handler_entry (ctx : TracePointContext) (c : Call) (s : IrqMaps) : Z * IrqMaps :=
  match read_at ctx 4 8 with
  | None => (1, s)
  | Some irq_nr =>
      let key := irq_key (bpf_get_smp_processor_id c) irq_nr in
      (0, {| irq_start_ts := insert_or_not (map_accepts c) IRQ_START_TS_MAX key (bpf_ktime_get_ns c) (irq_start_ts s);
             softirq_start_ts := softirq_start_ts s; irq_ring := irq_ring s |})
  end.
Definition irq_handler_exit (ctx : TracePointContext) (c : Call) (s : IrqMaps) : Z * IrqMaps :=
  match read_at ctx 4 8 with
  | None => (1, s)
  | Some irq_nr =>
      let key := irq_key (bpf_get_smp_processor_id c) irq_nr in
      match irq_start_ts s !! key with
      | None => (0, s)
      | Some entry_ts =>
          (0, {| irq_start_ts := delete key (irq_start_ts s); softirq_start_ts := softirq_start_ts s;
                 irq_ring := ring_write (ring_has_room c)
                   (encode_irq {| iv_latency_ns := saturating_sub (bpf_ktime_get_ns c) entry_ts; iv_kind := IRQ_KIND_HARD |}) (irq_ring s) |})
      end
  end.
Definition softirq_entry (c : Call) (s : IrqMaps) : Z * IrqMaps :=
  (0, {| irq_start_ts := irq_start_ts s;
         softirq_start_ts := insert_or_not (map_accepts c) SOFTIRQ_START_TS_MAX (bpf_get_smp_processor_id c) (bpf_ktime_get_ns c) (softirq_start_ts s);
         irq_ring := irq_ring s |}).
Definition softirq_exit (c : Call) (s : IrqMaps) : Z * IrqMaps :=
  let cpu := bpf_get_smp_processor_id c in
  match softirq_start_ts s !! cpu with
  | None => (0, s)
  | Some entry_ts =>
      (0, {| irq_start_ts := irq_start_ts s; softirq_start_ts := delete cpu (softirq_start_ts s);
             irq_ring := ring_write (ring_has_room c)
               (encode_irq {| iv_latency_ns := saturating_sub (bpf_ktime_get_ns c) entry_ts; iv_kind := IRQ_KIND_SOFT |}) (irq_ring s) |})
  end.

(** ** GPU scheduler ([gpu_sched.rs]) *)

Definition LOSS_KEY_READ : Z := 0.
Definition LOSS_QUEUE_INSERT : Z := 1.
Definition LOSS_RUN_MISS : Z := 2.
Definition LOSS_RINGBUF_RESERVE : Z := 3.
(** Scope and sequence of a job. *)
Definition GpuSchedKey : Type := Z * Z.
Record GpuSchedEvent := { gv_latency_ns : Z }.
Definition encode_gpu_sched (e : GpuSchedEvent) : string := le_bytes 8 (gv_latency_ns e) +:+ zero_bytes 8.
(** The jobs in flight, the offsets of the key fields, the losses by processor
    and counter, the ring buffer. *)
Record GpuSchedMaps := {
  gpu_sched_ts : gmap GpuSchedKey Z;
  key_offset : option GpuSchedKeyOffsets;
  loss : gmap (Z * Z) Z;
  gpu_ring : list string;
}.
Definition with_loss (l : gmap (Z * Z) Z) (s : GpuSchedMaps) : GpuSchedMaps :=
  {| gpu_sched_ts := gpu_sched_ts s; key_offset := key_offset s; loss := l; gpu_ring := gpu_ring s |}.
Definition count_loss (c : Call) (counter : Z) (s : GpuSchedMaps) : GpuSchedMaps :=
  let k := (bpf_get_smp_processor_id c, counter) in
  with_loss (<[k := sat_add_u64 (unwrap_or (loss s !! k) 0) 1]> (loss s)) s.
Definition key_from_context (ctx : TracePointContext) (c : Call) (s : GpuSchedMaps) : option GpuSchedKey * GpuSchedMaps :=
  match key_offset s with
  | None => (None, s)
  | Some offset =>
      match read_at ctx 8 (scope offset) with
      | None => (None, count_loss c LOSS_KEY_READ s)
      | Some job_scope =>
          match read_at ctx 8 (sequence offset) with
          | None => (None, count_loss c LOSS_KEY_READ s)
          | Some job => (Some (job_scope, job), s)
          end
      end
  end.
(** An LRU map gives up old entries instead of refusing new ones. *)
Definition record_queue (key : GpuSchedKey) (c : Call) (s : GpuSchedMaps) : GpuSchedMaps :=
  if map_accepts c then
    {| gpu_sched_ts := <[key := bpf_ktime_get_ns c]> (foldr delete (gpu_sched_ts s) (lru_evicts c));
       key_offset := key_offset s; loss := loss s; gpu_ring := gpu_ring s |}
  else count_loss c LOSS_QUEUE_INSERT s.
Definition record_run (key : GpuSchedKey) (c : Call) (s : GpuSchedMaps) : GpuSchedMaps :=
  match gpu_sched_ts s !! key with
  | None => count_loss c LOSS_RUN_MISS s
  | Some queue_ts =>
      let event := {| gv_latency_ns := saturating_sub (bpf_ktime_get_ns c) queue_ts |} in
      let s := {| gpu_sched_ts := delete key (gpu_sched_ts s); key_offset := key_offset s; loss := loss s;
                  gpu_ring := ring_write (ring_has_room c) (encode_gpu_sched event) (gpu_ring s) |} in
      if ring_has_room c then s else count_loss c LOSS_RINGBUF_RESERVE s
  end.
(** Both pairs of tracepoints have the same bodies. *)
Definition drm_sched_job_queue (ctx : TracePointContext) (c : Call) (s : GpuSchedMaps) : Z * GpuSchedMaps :=
  let '(key, s) := key_from_context ctx c s in
  (0, match key with Some key => record_queue key c s | None => s end).
Definition drm_sched_job_run (ctx : TracePointContext) (c : Call) (s : GpuSchedMaps) : Z * GpuSchedMaps :=
  let '(key, s) := key_from_context ctx c s in
  (0, match key with Some key => record_run key c s | None => s end).
Definition drm_sched_job := drm_sched_job_queue.
Definition drm_run_job := drm_sched_job_run.

(** ** GPU submissions ([gpu_submit.rs]) *)

Record GpuSubmitEvent := { uv_timestamp_ns : Z }.
Definition encode_gpu_submit (e : GpuSubmitEvent) : string := le_bytes 8 (uv_timestamp_ns e) +:+ zero_bytes 8.
Definition amdgpu_cs_ioctl_entry (c : Call) (events : list string) : Z * list string :=
  (0, ring_write (ring_has_room c) (encode_gpu_submit {| uv_timestamp_ns := bpf_ktime_get_ns c |}) events).

(** ** The whole kernel side *)

Record Kernel := {
  game_pids : GamePids;
  k_sched : InFlight Z;
  k_bio : InFlight Z;
  k_gpu_sched : GpuSchedMaps;
  k_mem : list string;
  k_futex : InFlight Z;
  k_irq : IrqMaps;
  k_vfs : VfsMaps;
  k_gpu_fence : InFlight Z;
  k_gpu_submit : list string;
}.
Definition loaded_kernel : Kernel := {|
  game_pids := ∅; k_sched := none_in_flight; k_bio := none_in_flight;
  k_gpu_sched := {| gpu_sched_ts := ∅; key_offset := None; loss := ∅; gpu_ring := [] |};
  k_mem := []; k_futex := none_in_flight; k_irq := {| irq_start_ts := ∅; softirq_start_ts := ∅; irq_ring := [] |};
  k_vfs := {| read_start_ts := ∅; write_start_ts := ∅; vfs_ring := [] |}; k_gpu_fence := none_in_flight; k_gpu_submit := [] |}.

(** The programs by the event they are attached to. *)
Inductive Program :=
| SchedWakeup | SchedSwitch | SchedMigrateTask
| BlockRqIssue | BlockRqComplete
| DrmSchedJobQueue | DrmSchedJobRun | DrmSchedJob | DrmRunJob
| PageFaultUser | DirectReclaimBegin
| DoFutexEntry | DoFutexReturn
| IrqHandlerEntry | IrqHandlerExit | SoftirqEntry | SoftirqExit
| VfsReadEntry | VfsReadReturn | VfsWriteEntry | VfsWriteReturn
| FenceWaitEntry | FenceWaitReturn
| CsIoctlEntry.

Definition run_program (p : Program) (ctx : TracePointContext) (c : Call) (k : Kernel) : Kernel :=
  let '(Build_Kernel g sc bi gs me fu ir vf fe su) := k in
  let sched f := Build_Kernel g (snd (f g ctx c sc)) bi gs me fu ir vf fe su in
  let bio f := Build_Kernel g sc (snd (f ctx c bi)) gs me fu ir vf fe su in
  let gpu f := Build_Kernel g sc bi (snd (f ctx c gs)) me fu ir vf fe su in
  let memory (m : Z * list string) := Build_Kernel g sc bi gs (snd m) fu ir vf fe su in
  let futex (m : Z * InFlight Z) := Build_Kernel g sc bi gs me (snd m) ir vf fe su in
  let irq (m : Z * IrqMaps) := Build_Kernel g sc bi gs me fu (snd m) vf fe su in
  let vfs (m : Z * VfsMaps) := Build_Kernel g sc bi gs me fu ir (snd m) fe su in
  let fence (m : Z * InFlight Z) := Build_Kernel g sc bi gs me fu ir vf (snd m) su in
  match p with
  | SchedWakeup => sched sched_wakeup
  | SchedSwitch => sched sched_switch
  | SchedMigrateTask => sched sched_migrate_task
  | BlockRqIssue => bio block_rq_issue
  | BlockRqComplete => bio block_rq_complete
  | DrmSchedJobQueue => gpu drm_sched_job_queue
  | DrmSchedJobRun => gpu drm_sched_job_run
  | DrmSchedJob => gpu drm_sched_job
  | DrmRunJob => gpu drm_run_job
  | PageFaultUser => memory (page_fault_user g ctx c me)
  | DirectReclaimBegin => memory (mm_vmscan_direct_reclaim_begin c me)
  | DoFutexEntry => futex (do_futex_entry g c fu)
  | DoFutexReturn => futex (do_futex_return c fu)
  | IrqHandlerEntry => irq (irq_handler_entry ctx c ir)
  | IrqHandlerExit => irq (irq_handler_exit ctx c ir)
  | SoftirqEntry => irq (softirq_entry c ir)
  | SoftirqExit => irq (softirq_exit c ir)
  | VfsReadEntry => vfs (vfs_read_entry g c vf)
  | VfsReadReturn => vfs (vfs_read_return c vf)
  | VfsWriteEntry => vfs (vfs_write_entry g c vf)
  | VfsWriteReturn => vfs (vfs_write_return c vf)
  | FenceWaitEntry => fence (dma_fence_default_wait_entry c fe)
  | FenceWaitReturn => fence (dma_fence_default_wait_return c fe)
  | CsIoctlEntry => Build_Kernel g sc bi gs me fu ir vf fe (snd (amdgpu_cs_ioctl_entry c su))
  end.

(** The ring buffers. *)
Inductive RingId := SchedEvents | BioEvents | GpuSchedEvents | MemEvents | FutexEvents | IrqEvents | VfsEvents | GpuFenceEvents | GpuSubmitEvents.
#[export] Instance ring_eq_dec : EqDecision RingId.
Proof. solve_decision. Defined.
Definition ring_of (r : RingId) (k : Kernel) : list string :=
  match r with
  | SchedEvents => ring (k_sched k) | BioEvents => ring (k_bio k) | GpuSchedEvents => gpu_ring (k_gpu_sched k)
  | MemEvents => k_mem k | FutexEvents => ring (k_futex k) | IrqEvents => irq_ring (k_irq k) | VfsEvents => vfs_ring (k_vfs k)
  | GpuFenceEvents => ring (k_gpu_fence k) | GpuSubmitEvents => k_gpu_submit k
  end.

(** The daemon's side of the maps: it empties a ring buffer item by item, and
    writes the threads of the game and the offsets of the key fields. *)
Definition take_ring (r : RingId) (k : Kernel) : list string * Kernel :=
  let '(Build_Kernel g sc bi gs me fu ir vf fe su) := k in
  (ring_of r k,
   match r with
   | SchedEvents => Build_Kernel g {| start_ts := start_ts sc; ring := [] |} bi gs me fu ir vf fe su
   | BioEvents => Build_Kernel g sc {| start_ts := start_ts bi; ring := [] |} gs me fu ir vf fe su
   | GpuSchedEvents =>
       Build_Kernel g sc bi {| gpu_sched_ts := gpu_sched_ts gs; key_offset := key_offset gs; loss := loss gs; gpu_ring := [] |} me fu ir vf fe su
   | MemEvents => Build_Kernel g sc bi gs [] fu ir vf fe su
   | FutexEvents => Build_Kernel g sc bi gs me {| start_ts := start_ts fu; ring := [] |} ir vf fe su
   | IrqEvents =>
       Build_Kernel g sc bi gs me fu {| irq_start_ts := irq_start_ts ir; softirq_start_ts := softirq_start_ts ir; irq_ring := [] |} vf fe su
   | VfsEvents =>
       Build_Kernel g sc bi gs me fu ir {| read_start_ts := read_start_ts vf; write_start_ts := write_start_ts vf; vfs_ring := [] |} fe su
   | GpuFenceEvents => Build_Kernel g sc bi gs me fu ir vf {| start_ts := start_ts fe; ring := [] |} su
   | GpuSubmitEvents => Build_Kernel g sc bi gs me fu ir vf fe []
   end).
Definition set_game_pids (g : GamePids) (k : Kernel) : Kernel :=
  let '(Build_Kernel _ sc bi gs me fu ir vf fe su) := k in Build_Kernel g sc bi gs me fu ir vf fe su.
Definition set_key_offset (o : GpuSchedKeyOffsets) (k : Kernel) : Kernel :=
  let '(Build_Kernel g sc bi gs me fu ir vf fe su) := k in
  Build_Kernel g sc bi {| gpu_sched_ts := gpu_sched_ts gs; key_offset := Some o; loss := loss gs; gpu_ring := gpu_ring gs |} me fu ir vf fe su.
