(* ===== verification/BpfSpec.v ===== *)
(** * What the BPF programs guarantee ([ebpf/rigsignal-ebpf-probes/src/])

    The records in a ring buffer are laid out as the daemon reads them, and
    whatever the programs on all processors do in whatever order, every record of
    a latency stands for one entry and the return that ended it. *)
From Stdlib Require Import Ascii.
From S2P Require Import Prelude Float64 EsModel Aggregator SchedAggregator GpuSchedFormat Probes Bpf.

(** ** Layouts *)

Lemma le_bytes_length n z : String.length (le_bytes n z) = n.
Proof. revert z. induction n as [|n IH]; intros z; [done|]. cbn [le_bytes String.length]. by rewrite IH. Qed.
Lemma append_length (a b : string) : String.length (a +:+ b) = (String.length a + String.length b)%nat.
Proof. induction a as [|c a IH]; [done|]. change (S (String.length (a +:+ b)) = S (String.length a + String.length b)). by rewrite IH. Qed.

Lemma byte_at_app_r (a b : string) i : byte_at (a +:+ b) (String.length a + i) = byte_at b i.
Proof. unfold byte_at. induction a as [|c a IH]; [done|]. exact IH. Qed.
Lemma le_at_app_r (a b : string) i n : le_at (a +:+ b) (String.length a + i) n = le_at b i n.
Proof.
  revert i. induction n as [|n IH]; intros i; cbn [le_at]; [done|].
  rewrite byte_at_app_r. f_equal. f_equal. rewrite <-IH. f_equal. lia.
Qed.
Lemma le_at_bytes n z rest : le_at (le_bytes n z +:+ rest) 0 n = z mod 256 ^ Z.of_nat n.
Proof.
  revert z. induction n as [|n IH]; intros z; [by rewrite Z.mod_1_r|].
  set (b := str1 (ascii_of_N (Z.to_N (z mod 256)))).
  change (byte_at (b +:+ (le_bytes n (z / 256) +:+ rest)) 0 + 256 * le_at (b +:+ (le_bytes n (z / 256) +:+ rest)) (String.length b + 0) n
          = z mod 256 ^ Z.of_nat (S n)).
  rewrite le_at_app_r, IH. replace (byte_at (b +:+ _) 0) with (z mod 256).
  - replace (Z.of_nat (S n)) with (1 + Z.of_nat n) by lia. rewrite Z.pow_add_r by lia. by rewrite Z.rem_mul_r by lia.
  - unfold byte_at, byte_val. pose proof (Z.mod_pos_bound z 256). subst b. change (z mod 256 = Z.of_N (N_of_ascii (ascii_of_N (Z.to_N (z mod 256))))).
    rewrite N_ascii_embedding by lia. by rewrite Z2N.id by lia.
Qed.
Lemma le_at_skip (a b : string) i n : (String.length a ≤ i)%nat → le_at (a +:+ b) i n = le_at b (i - String.length a) n.
Proof. intros Hi. rewrite <-(le_at_app_r a b). f_equal. lia. Qed.
Lemma byte_at_le s i : byte_at s i = le_at s i 1.
Proof. cbn. lia. Qed.
Lemma substring_app (a b : string) n : String.substring (String.length a) n (a +:+ b) = String.substring 0 n b.
Proof. induction a as [|c a IH]; [done|]. exact IH. Qed.
Lemma substring_whole s : String.substring 0 (String.length s) s = s.
Proof. induction s as [|c s IH]; [done|]. cbn. f_equal. exact IH. Qed.

(** Reading a field of a written record. *)
Ltac read_field :=
  repeat (rewrite le_at_skip by (rewrite ?le_bytes_length; unfold zero_bytes; rewrite ?le_bytes_length; lia));
  rewrite ?le_bytes_length; unfold zero_bytes; rewrite ?le_bytes_length; cbn [Nat.sub];
  rewrite ?le_at_bytes; try done.

(** What the daemon sees of a record. *)
Definition seen_sched (e : SchedEvent) : RawSchedEvent :=
  {| se_event_type := wrap 8 (sv_event_type e); se_tid := wrap 32 (sv_tid e); se_wait_ns := wrap 64 (sv_wait_ns e);
     se_prev_cpu := wrap 32 (sv_prev_cpu e); se_next_cpu := wrap 32 (sv_next_cpu e); se_comm := sv_comm e |}.

Lemma read_sched e : String.length (sv_comm e) = COMM_LEN → decode_sched (encode_sched e) = seen_sched e ∧ String.length (encode_sched e) = 40%nat.
Proof.
  intros Hc. split.
  - unfold decode_sched, encode_sched, seen_sched. rewrite !byte_at_le. f_equal; [..|]; try by read_field.
    assert (Hl : String.substring 24 16
      ((le_bytes 1 (sv_event_type e) +:+ zero_bytes 3 +:+ le_bytes 4 (sv_tid e) +:+ le_bytes 8 (sv_wait_ns e)
        +:+ le_bytes 4 (sv_prev_cpu e) +:+ le_bytes 4 (sv_next_cpu e)) +:+ sv_comm e) = sv_comm e).
    { pose proof (substring_app (le_bytes 1 (sv_event_type e) +:+ zero_bytes 3 +:+ le_bytes 4 (sv_tid e) +:+ le_bytes 8 (sv_wait_ns e)
        +:+ le_bytes 4 (sv_prev_cpu e) +:+ le_bytes 4 (sv_next_cpu e)) (sv_comm e) 16) as Hs.
      unfold zero_bytes in *. rewrite !append_length, !le_bytes_length in Hs. cbn [Nat.add] in Hs. rewrite Hs. unfold COMM_LEN in Hc. rewrite <-Hc.
      apply substring_whole. }
    rewrite <-!str_app_assoc in Hl. exact Hl.
  - unfold encode_sched, zero_bytes. rewrite !append_length, !le_bytes_length, Hc. done.
Qed.

(** C30: Kernel and daemon agree on the layout of every record: what a program
    writes, the daemon reads back field by field, each in its width, and no record
    is shorter than the event it asks for. *)
Theorem layouts_agree :
  (∀ e, String.length (sv_comm e) = COMM_LEN → decode_sched (encode_sched e) = seen_sched e ∧ String.length (encode_sched e) = 40%nat)
  ∧ (∀ e, decode_bio (encode_bio e) = {| be_latency_ns := wrap 64 (bv_latency_ns e); be_bytes := wrap 32 (bv_bytes e) |}
          ∧ String.length (encode_bio e) = 16%nat)
  ∧ (∀ e, decode_gpu_sched (encode_gpu_sched e) = {| ge_latency_ns := wrap 64 (gv_latency_ns e) |} ∧ String.length (encode_gpu_sched e) = 16%nat)
  ∧ (∀ e, decode_mem (encode_mem e) = {| me_event_type := wrap 8 (mv_event_type e); me_is_write := wrap 8 (mv_is_write e) |}
          ∧ String.length (encode_mem e) = 8%nat)
  ∧ (∀ e, decode_futex (encode_futex e) = {| fe_latency_ns := wrap 64 (fv_latency_ns e) |} ∧ String.length (encode_futex e) = 16%nat)
  ∧ (∀ e, decode_irq (encode_irq e) = {| ie_latency_ns := wrap 64 (iv_latency_ns e); ie_kind := wrap 8 (iv_kind e) |}
          ∧ String.length (encode_irq e) = 16%nat)
  ∧ (∀ e, decode_vfs (encode_vfs e) = {| ve_latency_ns := wrap 64 (vv_latency_ns e); ve_op := wrap 8 (vv_op e) |}
          ∧ String.length (encode_vfs e) = 16%nat)
  ∧ (∀ e, decode_gpu_fence (encode_gpu_fence e) = {| fen_latency_ns := wrap 64 (nv_latency_ns e) |} ∧ String.length (encode_gpu_fence e) = 16%nat)
  ∧ (∀ e, decode_gpu_submit (encode_gpu_submit e) = {| sub_timestamp_ns := wrap 64 (uv_timestamp_ns e) |}
          ∧ String.length (encode_gpu_submit e) = 16%nat).
Proof.
  split_and!; [apply read_sched|..]; intros e; (split; [|unfold encode_bio, encode_gpu_sched, encode_mem, encode_futex, encode_irq, encode_vfs,
    encode_gpu_fence, encode_gpu_submit, zero_bytes; by rewrite !append_length, !le_bytes_length]).
  - unfold decode_bio, encode_bio. f_equal; by read_field.
  - unfold decode_gpu_sched, encode_gpu_sched. f_equal; by read_field.
  - unfold decode_mem, encode_mem. rewrite !byte_at_le. f_equal; by read_field.
  - unfold decode_futex, encode_futex. f_equal; by read_field.
  - unfold decode_irq, encode_irq. rewrite !byte_at_le. f_equal; by read_field.
  - unfold decode_vfs, encode_vfs. rewrite !byte_at_le. f_equal; by read_field.
  - unfold decode_gpu_fence, encode_gpu_fence. f_equal; by read_field.
  - unfold decode_gpu_submit, encode_gpu_submit. f_equal; by read_field.
Qed.

(** ** Entries and returns *)

(** What is timed: a woken thread, a request by sector, a job of the GPU, a
    call of a thread, an interrupt. *)
Inductive Flight :=
| Wakeup (tid : Z) | Request (sector : Z) | Job (key : GpuSchedKey) | FutexCall (pid_tgid : Z) | FenceWait (pid_tgid : Z)
| HardIrq (key : Z) | SoftIrq (cpu : Z) | ReadCall (pid_tgid : Z) | WriteCall (pid_tgid : Z).
#[export] Instance flight_eq_dec : EqDecision Flight.
Proof. solve_decision. Defined.

Definition entry_of (f : Flight) (k : Kernel) : option Z :=
  match f with
  | Wakeup tid => start_ts (k_sched k) !! tid
  | Request sector => start_ts (k_bio k) !! sector
  | Job key => gpu_sched_ts (k_gpu_sched k) !! key
  | FutexCall pid_tgid => start_ts (k_futex k) !! pid_tgid
  | FenceWait pid_tgid => start_ts (k_gpu_fence k) !! pid_tgid
  | HardIrq key => irq_start_ts (k_irq k) !! key
  | SoftIrq cpu => softirq_start_ts (k_irq k) !! cpu
  | ReadCall pid_tgid => read_start_ts (k_vfs k) !! pid_tgid
  | WriteCall pid_tgid => write_start_ts (k_vfs k) !! pid_tgid
  end.

(** What happens in the kernel, as far as latencies go: an entry at a time,
    unless its map had no room; a return at a time, with the record its latency is
    reported in and whether that has room; a woken thread that is switched to is
    reported in any case.  An LRU map gives up entries; some records are written
    without an entry. *)
Inductive Move :=
| Enter (f : Flight) (now : Z) (taken : bool)
| Return (f : Flight) (now : Z) (any : bool) (r : RingId) (record : Z → string) (room : bool)
| Evict (fs : list Flight)
| Write (r : RingId) (record : string) (room : bool).

Definition ends (f : Flight) (m : Move) : bool :=
  match m with
  | Enter g _ true | Return g _ _ _ _ _ => bool_decide (g = f)
  | Evict fs => bool_decide (f ∈ fs)
  | _ => false
  end.
(** An entry without a return, a later entry or a loss since. *)
Definition unfinished (h : list Move) (f : Flight) (ts : Z) : Prop :=
  ∃ before after, h = before ++ Enter f ts true :: after ∧ Forall (λ m, ends f m = false) after.
(** What the history reports: for every return of an unfinished entry the time
    between them. *)
Inductive reported : list Move → list (RingId * string) → Prop :=
| reported_none : reported [] []
| reported_return h rs f now any r record ts :
    reported h rs → unfinished h f ts → reported (h ++ [Return f now any r record true]) (rs ++ [(r, record (Z.max 0 (now - ts)))])
| reported_wakeless h rs f now r record :
    reported h rs → (∀ ts, ¬ unfinished h f ts) → reported (h ++ [Return f now true r record true]) (rs ++ [(r, record 0)])
| reported_unmatched h rs f now r record room :
    reported h rs → (∀ ts, ¬ unfinished h f ts) → reported (h ++ [Return f now false r record room]) rs
| reported_lost h rs f now any r record : reported h rs → reported (h ++ [Return f now any r record false]) rs
| reported_written h rs r record : reported h rs → reported (h ++ [Write r record true]) (rs ++ [(r, record)])
| reported_unwritten h rs r record : reported h rs → reported (h ++ [Write r record false]) rs
| reported_enter h rs f now taken : reported h rs → reported (h ++ [Enter f now taken]) rs
| reported_evict h rs fs : reported h rs → reported (h ++ [Evict fs]) rs.

(** ** The programs as moves *)

Definition taken (c : Call) {K} `{Countable K} (max : nat) (k : K) (m : gmap K Z) : bool :=
  match bpf_map_insert (map_accepts c) max k (bpf_ktime_get_ns c) m with Some _ => true | None => false end.
Definition call_entry (g : GamePids) (c : Call) (f : Z → Flight) (m : gmap Z Z) : list Move :=
  let pid_tgid := bpf_get_current_pid_tgid c in
  if is_game_tid g (tid_of pid_tgid) then [Enter (f pid_tgid) (bpf_ktime_get_ns c) (taken c CALLS_MAX pid_tgid m)] else [].
Definition timed (c : Call) (f : Flight) (r : RingId) (record : Z → string) : Move :=
  Return f (bpf_ktime_get_ns c) false r record (ring_has_room c).
Definition job_of (ctx : TracePointContext) (k : Kernel) : option GpuSchedKey :=
  let! offset := key_offset (k_gpu_sched k) in
  let! job_scope := read_at ctx 8 (scope offset) in
  let! job := read_at ctx 8 (sequence offset) in
  Some (job_scope, job).
Definition queue_moves (ctx : TracePointContext) (c : Call) (k : Kernel) : list Move :=
  match job_of ctx k with
  | Some key => if map_accepts c then [Evict (Job <$> lru_evicts c); Enter (Job key) (bpf_ktime_get_ns c) true] else []
  | None => []
  end.
Definition run_moves (ctx : TracePointContext) (c : Call) (k : Kernel) : list Move :=
  match job_of ctx k with
  | Some key => [timed c (Job key) GpuSchedEvents (λ ns, encode_gpu_sched {| gv_latency_ns := ns |})]
  | None => []
  end.

Definition moves_of (p : Program) (ctx : TracePointContext) (c : Call) (k : Kernel) : list Move :=
  let now := bpf_ktime_get_ns c in
  let g := game_pids k in
  let cpu := bpf_get_smp_processor_id c in
  let pid_tgid := bpf_get_current_pid_tgid c in
  match p with
  | SchedWakeup =>
      match read_at ctx 4 24 with
      | Some tid => if is_game_tid g tid then [Enter (Wakeup tid) now (taken c WAKEUP_TS_MAX tid (start_ts (k_sched k)))] else []
      | None => [] end
  | SchedSwitch =>
      match read_at ctx 4 56 with
      | Some tid =>
          if is_game_tid g tid
          then [Return (Wakeup tid) now true SchedEvents (λ ns, encode_sched {| sv_event_type := EVENT_SWITCH; sv_tid := tid; sv_wait_ns := ns;
                  sv_prev_cpu := 0; sv_next_cpu := 0; sv_comm := unwrap_or (read_array ctx COMM_LEN 40) (zero_bytes COMM_LEN) |}) (ring_has_room c)]
          else []
      | None => [] end
  | SchedMigrateTask =>
      match read_at ctx 4 24, read_at ctx 4 32, read_at ctx 4 36 with
      | Some tid, Some orig_cpu, Some dest_cpu =>
          if is_game_tid g tid
          then [Write SchedEvents (encode_sched {| sv_event_type := EVENT_MIGRATE; sv_tid := tid; sv_wait_ns := 0; sv_prev_cpu := orig_cpu;
                  sv_next_cpu := dest_cpu; sv_comm := unwrap_or (read_array ctx COMM_LEN 8) (zero_bytes COMM_LEN) |}) (ring_has_room c)]
          else []
      | _, _, _ => [] end
  | BlockRqIssue =>
      match read_at ctx 8 16 with
      | Some sector => [Enter (Request sector) now (taken c BIO_START_TS_MAX sector (start_ts (k_bio k)))] | None => [] end
  | BlockRqComplete =>
      match read_at ctx 8 16 with
      | Some sector => [timed c (Request sector) BioEvents
          (λ ns, encode_bio {| bv_latency_ns := ns; bv_bytes := wrap 32 (unwrap_or (read_at ctx 4 24) 0 * 512) |})]
      | None => [] end
  | DrmSchedJobQueue | DrmSchedJob => queue_moves ctx c k
  | DrmSchedJobRun | DrmRunJob => run_moves ctx c k
  | PageFaultUser =>
      match read_at ctx 4 4, read_at ctx 8 24 with
      | Some pid, Some error_code =>
          if is_game_tid g pid
          then [Write MemEvents (encode_mem {| mv_event_type := MEM_FAULT; mv_is_write := Z.land (Z.shiftr error_code 1) 1 |}) (ring_has_room c)]
          else []
      | _, _ => [] end
  | DirectReclaimBegin => [Write MemEvents (encode_mem {| mv_event_type := MEM_RECLAIM; mv_is_write := 0 |}) (ring_has_room c)]
  | DoFutexEntry => call_entry g c FutexCall (start_ts (k_futex k))
  | DoFutexReturn => [timed c (FutexCall pid_tgid) FutexEvents (λ ns, encode_futex {| fv_latency_ns := ns |})]
  | IrqHandlerEntry =>
      match read_at ctx 4 8 with
      | Some irq_nr => [Enter (HardIrq (irq_key cpu irq_nr)) now (taken c IRQ_START_TS_MAX (irq_key cpu irq_nr) (irq_start_ts (k_irq k)))]
      | None => [] end
  | IrqHandlerExit =>
      match read_at ctx 4 8 with
      | Some irq_nr => [timed c (HardIrq (irq_key cpu irq_nr)) IrqEvents (λ ns, encode_irq {| iv_latency_ns := ns; iv_kind := IRQ_KIND_HARD |})]
      | None => [] end
  | SoftirqEntry => [Enter (SoftIrq cpu) now (taken c SOFTIRQ_START_TS_MAX cpu (softirq_start_ts (k_irq k)))]
  | SoftirqExit => [timed c (SoftIrq cpu) IrqEvents (λ ns, encode_irq {| iv_latency_ns := ns; iv_kind := IRQ_KIND_SOFT |})]
  | VfsReadEntry => call_entry g c ReadCall (read_start_ts (k_vfs k))
  | VfsReadReturn => [timed c (ReadCall pid_tgid) VfsEvents (λ ns, encode_vfs {| vv_latency_ns := ns; vv_op := VFS_OP_READ |})]
  | VfsWriteEntry => call_entry g c WriteCall (write_start_ts (k_vfs k))
  | VfsWriteReturn => [timed c (WriteCall pid_tgid) VfsEvents (λ ns, encode_vfs {| vv_latency_ns := ns; vv_op := VFS_OP_WRITE |})]
  | FenceWaitEntry => [Enter (FenceWait pid_tgid) now (taken c CALLS_MAX pid_tgid (start_ts (k_gpu_fence k)))]
  | FenceWaitReturn => [timed c (FenceWait pid_tgid) GpuFenceEvents (λ ns, encode_gpu_fence {| nv_latency_ns := ns |})]
  | CsIoctlEntry => [Write GpuSubmitEvents (encode_gpu_submit {| uv_timestamp_ns := now |}) (ring_has_room c)]
  end.

(** What a move does to an entry, and what it reports. *)
Definition after_move (f : Flight) (o : option Z) (m : Move) : option Z :=
  match m with
  | Enter g ts true => if decide (g = f) then Some ts else o
  | Enter _ _ false | Write _ _ _ => o
  | Return g _ _ _ _ _ => if decide (g = f) then None else o
  | Evict fs => if decide (f ∈ fs) then None else o
  end.
Definition records_of (entry : Flight → option Z) (m : Move) : list (RingId * string) :=
  match m with
  | Return f now any r record true =>
      match entry f with Some ts => [(r, record (Z.max 0 (now - ts)))] | None => if any then [(r, record 0)] else [] end
  | Write r record true => [(r, record)]
  | _ => []
  end.
Fixpoint all_records (entry : Flight → option Z) (ms : list Move) : list (RingId * string) :=
  match ms with
  | [] => []
  | m :: ms => records_of entry m ++ all_records (λ f, after_move f (entry f) m) ms
  end.
Definition of_ring (r : RingId) (rs : list (RingId * string)) : list string := filter_map (λ x, if decide (fst x = r) then Some (snd x) else None) rs.

Lemma insert_taken {K} `{Countable K} (c : Call) max (k k' : K) (m : gmap K Z) :
  insert_or_not (map_accepts c) max k (bpf_ktime_get_ns c) m !! k'
  = if taken c max k m then if decide (k = k') then Some (bpf_ktime_get_ns c) else m !! k' else m !! k'.
Proof.
  unfold insert_or_not, taken. destruct (bpf_map_insert _ _ _ _ _) as [m'|] eqn:E; [|done]. unfold bpf_map_insert in E.
  destruct (_ && _); [|done]. injection E as <-. cbn. destruct (decide (k = k')) as [->|Hne]; [apply lookup_insert_eq|by apply lookup_insert_ne].
Qed.
Lemma lookup_delete_if {K} `{Countable K} (k k' : K) (m : gmap K Z) : delete k m !! k' = if decide (k = k') then None else m !! k'.
Proof. destruct (decide (k = k')) as [->|Hne]; [apply lookup_delete_eq|by apply lookup_delete_ne]. Qed.
Lemma lookup_deletes (ks : list GpuSchedKey) (m : gmap GpuSchedKey Z) k :
  foldr delete m ks !! k = if decide (Job k ∈ Job <$> ks) then None else m !! k.
Proof.
  induction ks as [|k' ks IH]; cbn [foldr fmap list_fmap].
  - by rewrite decide_False by apply not_elem_of_nil.
  - rewrite lookup_delete_if, IH. destruct (decide (k' = k)) as [->|Hne].
    + by rewrite decide_True by apply elem_of_cons, or_introl, eq_refl.
    + destruct (decide (Job k ∈ Job <$> ks)) as [Hin|Hout].
      * by rewrite decide_True by (apply elem_of_cons; by right).
      * rewrite decide_False; [done|]. intros [[=]|Hin]%elem_of_cons; congruence.
Qed.

(** ** A program's effect is that of its moves *)

Ltac read_cases :=
  repeat match goal with
  | |- context [read_at ?ctx ?n ?o] => destruct (read_at ctx n o) eqn:?; cbn
  | |- context [is_game_tid ?g ?t] => destruct (is_game_tid g t) eqn:?; cbn
  | |- context [match ?m !! ?k with _ => _ end] => destruct (m !! k) eqn:?; cbn
  | |- context [ring_has_room ?c] => destruct (ring_has_room c) eqn:?; cbn
  end.
Ltac same_entry f :=
  destruct f; cbn; rewrite ?insert_taken, ?lookup_delete_if; repeat case_decide; simplify_eq/=; try done;
  try (destruct (taken _ _ _ _); repeat case_decide; simplify_eq/=; done).

Lemma job_context ctx c s : key_from_context ctx c s =
  match key_offset s with
  | None => (None, s)
  | Some offset => match read_at ctx 8 (scope offset), read_at ctx 8 (sequence offset) with
                   | Some a, Some b => (Some (a, b), s) | _, _ => (None, count_loss c LOSS_KEY_READ s) end
  end.
Proof. unfold key_from_context. destruct (key_offset s) as [o|]; [|done]. by destruct (read_at ctx 8 (scope o)), (read_at ctx 8 (sequence o)). Qed.

Lemma evicts_jobs f (ks : list GpuSchedKey) {A} (o1 o2 : A) : (∀ key, f ≠ Job key) → (if decide (f ∈ Job <$> ks) then o1 else o2) = o2.
Proof. intros Hf. rewrite decide_False; [done|]. intros (key & -> & _)%list_elem_of_fmap. by apply (Hf key). Qed.

Lemma queue_entry ctx c k f : entry_of f (run_program DrmSchedJobQueue ctx c k) = foldl (after_move f) (entry_of f k) (queue_moves ctx c k).
Proof.
  destruct k as [g sc bi gs me fu ir vf fe su]. unfold queue_moves, job_of. cbn.
  unfold drm_sched_job_queue; rewrite job_context.
  destruct (key_offset gs) as [o|]; [|by destruct f]. cbn. destruct (read_at ctx 8 (scope o)), (read_at ctx 8 (sequence o)); cbn; try by destruct f.
  unfold record_queue. destruct (map_accepts c); [|by destruct f].
  destruct f; cbn; rewrite ?evicts_jobs by done; try by rewrite decide_False.
  case_decide; simplify_eq; [by rewrite lookup_insert_eq|]. rewrite lookup_insert_ne by congruence. apply lookup_deletes.
Qed.
Lemma run_entry ctx c k f : entry_of f (run_program DrmSchedJobRun ctx c k) = foldl (after_move f) (entry_of f k) (run_moves ctx c k).
Proof.
  destruct k as [g sc bi gs me fu ir vf fe su]. unfold run_moves, job_of. cbn.
  unfold drm_sched_job_run; rewrite job_context.
  destruct (key_offset gs) as [o|]; [|by destruct f]. cbn. destruct (read_at ctx 8 (scope o)), (read_at ctx 8 (sequence o)); cbn; try by destruct f.
  unfold record_run. destruct (gpu_sched_ts gs !! _) eqn:E; [destruct (ring_has_room c)|];
    destruct f; cbn; rewrite ?lookup_delete_if; repeat case_decide; simplify_eq; done.
Qed.

Lemma program_entries p ctx c k f : entry_of f (run_program p ctx c k) = foldl (after_move f) (entry_of f k) (moves_of p ctx c k).
Proof.
  destruct p; try apply queue_entry; try apply run_entry;
    destruct k as [g sc bi gs me fu ir vf fe su]; cbn;
    unfold sched_wakeup, sched_switch, sched_migrate_task, block_rq_issue, block_rq_complete, page_fault_user, do_futex_entry, do_futex_return,
      irq_handler_entry, irq_handler_exit, softirq_exit, vfs_read_entry, vfs_read_return, vfs_write_entry, vfs_write_return,
      dma_fence_default_wait_return, call_entry; cbn; read_cases; same_entry f.
Qed.

Lemma ring_written has_room record l : ring_write has_room record l = l ++ (if has_room then [record] else []).
Proof. unfold ring_write. destruct has_room; [done|]. by rewrite app_nil_r. Qed.
Lemma of_ring_app r a b : of_ring r (a ++ b) = of_ring r a ++ of_ring r b.
Proof. unfold of_ring. induction a as [|x a IH]; [done|]. cbn. destruct (decide _); cbn; by rewrite IH. Qed.

Lemma queue_records ctx c k r :
  ring_of r (run_program DrmSchedJobQueue ctx c k) = ring_of r k ++ of_ring r (all_records (λ f, entry_of f k) (queue_moves ctx c k)).
Proof.
  destruct k as [g sc bi gs me fu ir vf fe su]. unfold queue_moves, job_of. cbn. unfold drm_sched_job_queue. rewrite job_context.
  destruct (key_offset gs) as [o|]; [|destruct r; cbn; by rewrite app_nil_r]. cbn.
  destruct (read_at ctx 8 (scope o)), (read_at ctx 8 (sequence o)); cbn; try by (destruct r; cbn; rewrite app_nil_r).
  unfold record_queue. destruct (map_accepts c); by destruct r; cbn; rewrite app_nil_r.
Qed.
Lemma run_records ctx c k r :
  ring_of r (run_program DrmSchedJobRun ctx c k) = ring_of r k ++ of_ring r (all_records (λ f, entry_of f k) (run_moves ctx c k)).
Proof.
  destruct k as [g sc bi gs me fu ir vf fe su]. unfold run_moves, job_of, timed. cbn. unfold drm_sched_job_run. rewrite job_context.
  destruct (key_offset gs) as [o|]; [|destruct r; cbn; by rewrite app_nil_r]. cbn.
  destruct (read_at ctx 8 (scope o)), (read_at ctx 8 (sequence o)); cbn; try by (destruct r; cbn; rewrite app_nil_r).
  unfold record_run, saturating_sub. destruct (ring_has_room c); destruct (gpu_sched_ts gs !! _); by destruct r; cbn; rewrite ?app_nil_r.
Qed.
Lemma program_records p ctx c k r :
  ring_of r (run_program p ctx c k) = ring_of r k ++ of_ring r (all_records (λ f, entry_of f k) (moves_of p ctx c k)).
Proof.
  destruct p; try apply queue_records; try apply run_records;
    destruct k as [g sc bi gs me fu ir vf fe su]; cbn;
    unfold sched_wakeup, sched_switch, sched_migrate_task, block_rq_issue, block_rq_complete, page_fault_user, do_futex_entry, do_futex_return,
      irq_handler_entry, irq_handler_exit, softirq_exit, vfs_read_entry, vfs_read_return, vfs_write_entry, vfs_write_return,
      dma_fence_default_wait_return, mm_vmscan_direct_reclaim_begin, amdgpu_cs_ioctl_entry, call_entry, timed, saturating_sub; cbn;
    rewrite ?ring_written; read_cases; destruct r; cbn; by rewrite ?app_nil_r.
Qed.

(** ** Runs *)

(** The kernel between programs: the daemon sets the threads of the game and the
    offsets, and empties ring buffers. *)
Inductive KernelStep :=
| RunProgram (p : Program) (ctx : TracePointContext) (c : Call)
| SetGamePids (g : GamePids)
| SetKeyOffset (o : GpuSchedKeyOffsets)
| TakeRing (r : RingId).
Definition kernel_step (s : KernelStep) (k : Kernel) : Kernel :=
  match s with
  | RunProgram p ctx c => run_program p ctx c k
  | SetGamePids g => set_game_pids g k
  | SetKeyOffset o => set_key_offset o k
  | TakeRing r => snd (take_ring r k)
  end.
Definition kernel_steps (ss : list KernelStep) (k : Kernel) : Kernel := foldl (λ k s, kernel_step s k) k ss.
Definition step_moves (s : KernelStep) (k : Kernel) : list Move := match s with RunProgram p ctx c => moves_of p ctx c k | _ => [] end.
Fixpoint history (ss : list KernelStep) (k : Kernel) : list Move :=
  match ss with [] => [] | s :: ss => step_moves s k ++ history ss (kernel_step s k) end.
(** What was taken out of a ring buffer, in order. *)
Fixpoint taken_out (r : RingId) (ss : list KernelStep) (k : Kernel) : list string :=
  match ss with
  | [] => []
  | s :: ss => match s with TakeRing r' => if decide (r' = r) then ring_of r k else [] | _ => [] end ++ taken_out r ss (kernel_step s k)
  end.

Lemma take_ring_ring r r' k : ring_of r' (snd (take_ring r k)) = if decide (r = r') then [] else ring_of r' k.
Proof. destruct k. by destruct r, r'. Qed.
Lemma take_ring_entry r f k : entry_of f (snd (take_ring r k)) = entry_of f k.
Proof. destruct k. by destruct r, f. Qed.
Lemma step_entries s k f : entry_of f (kernel_step s k) = foldl (after_move f) (entry_of f k) (step_moves s k).
Proof. destruct s; cbn; [apply program_entries|by destruct k, f|by destruct k, f|apply take_ring_entry]. Qed.

Lemma run_entries ss k f : entry_of f (kernel_steps ss k) = foldl (after_move f) (entry_of f k) (history ss k).
Proof.
  revert k. induction ss as [|s ss IH]; intros k; cbn; [done|]. rewrite foldl_app, <-step_entries. apply IH.
Qed.
Lemma all_records_ext e1 e2 ms : (∀ f, e1 f = e2 f) → all_records e1 ms = all_records e2 ms.
Proof.
  revert e1 e2. induction ms as [|m ms IH]; intros e1 e2 He; cbn; [done|]. f_equal.
  - destruct m as [|f now any r record []| |]; cbn; by rewrite ?He.
  - apply IH. intros f. by rewrite He.
Qed.
Lemma all_records_app e a b : all_records e (a ++ b) = all_records e a ++ all_records (λ f, foldl (after_move f) (e f) a) b.
Proof. revert e. induction a as [|m a IH]; intros e; cbn; [done|]. by rewrite IH, app_assoc. Qed.

Lemma run_records_all ss k r :
  taken_out r ss k ++ ring_of r (kernel_steps ss k) = ring_of r k ++ of_ring r (all_records (λ f, entry_of f k) (history ss k)).
Proof.
  revert k. induction ss as [|s ss IH]; intros k; [cbn; by rewrite app_nil_r|].
  cbn [taken_out history]. change (kernel_steps (s :: ss) k) with (kernel_steps ss (kernel_step s k)).
  rewrite <-app_assoc. rewrite (IH (kernel_step s k)), all_records_app, of_ring_app.
  rewrite (all_records_ext (λ f, foldl (after_move f) (entry_of f k) (step_moves s k)) (λ f, entry_of f (kernel_step s k)))
    by (intros f; by rewrite step_entries).
  destruct s as [p ctx c|g|o|r']; cbn [kernel_step step_moves app].
  - rewrite program_records. by rewrite <-app_assoc.
  - by destruct k, r.
  - by destruct k, r.
  - rewrite take_ring_ring. destruct (decide (r' = r)); [|done]. by rewrite app_nil_l.
Qed.

(** *** Histories *)

Lemma after_snoc h f m : foldl (after_move f) None (h ++ [m]) = after_move f (foldl (after_move f) None h) m.
Proof. by rewrite foldl_app. Qed.
Lemma after_ends f o m : after_move f o m = if ends f m then match m with Enter _ ts _ => Some ts | _ => None end else o.
Proof. destruct m as [g ts []|g ts any r record room|fs|r record room]; cbn; try done; by repeat case_decide; repeat case_bool_decide. Qed.

Lemma unfinished_iff h f ts : unfinished h f ts ↔ foldl (after_move f) None h = Some ts.
Proof.
  induction h as [|m h IH] using rev_ind.
  { split; [|done]. intros (before & after & E & _). by destruct before. }
  rewrite after_snoc, after_ends. split.
  - intros (before & after & E & Ha). destruct after as [|m' after _] using rev_ind.
    + apply app_inj_tail in E as [-> ->]. cbn. by rewrite bool_decide_eq_true_2.
    + rewrite app_comm_cons, app_assoc in E. apply app_inj_tail in E as [-> ->]. apply Forall_app in Ha as [Ha Hm].
      inversion Hm as [|? ? Hm' ?]; subst. rewrite Hm'. apply IH. by exists before, after.
  - destruct (ends f m) eqn:Em.
    + destruct m as [g ts' [] | | |]; try discriminate; cbn in Em. apply bool_decide_eq_true in Em as ->. intros [= ->].
      exists h, []. by split.
    + intros (before & after & -> & Ha)%IH. exists before, (after ++ [m]). split; [by rewrite <-app_assoc|].
      apply Forall_app. by repeat constructor.
Qed.
Lemma reported_all h : reported h (all_records (λ _, None) h).
Proof.
  induction h as [|m h IH] using rev_ind; [constructor|]. rewrite all_records_app. cbn [all_records]. rewrite app_nil_r.
  destruct m as [f now taken|f now any r record room|fs|r record room]; cbn [records_of];
    try (destruct room); rewrite ?app_nil_r; try by constructor.
  destruct (foldl (after_move f) None h) as [ts|] eqn:E.
  - apply reported_return; [done|]. by apply unfinished_iff.
  - assert (Hn : ∀ ts, ¬ unfinished h f ts) by (intros ts; rewrite unfinished_iff; congruence).
    destruct any; rewrite ?app_nil_r; by constructor.
Qed.

Lemma run_reports ss :
  ∃ rs, reported (history ss loaded_kernel) rs
    ∧ ∀ r, taken_out r ss loaded_kernel ++ ring_of r (kernel_steps ss loaded_kernel) = of_ring r rs.
Proof.
  assert (He : ∀ f, entry_of f loaded_kernel = None) by (by intros []).
  exists (all_records (λ _, None) (history ss loaded_kernel)). split; [apply reported_all|]. intros r. rewrite run_records_all.
  rewrite (all_records_ext _ (λ _, None)) by done. by destruct r.
Qed.


(** ** Whose records *)

(** The thread an entry is of, where there is one. *)
Definition thread_of (f : Flight) : option Z :=
  match f with Wakeup tid => Some tid | FutexCall pid_tgid | ReadCall pid_tgid | WriteCall pid_tgid => Some (tid_of pid_tgid) | _ => None end.
Lemma context_bytes_length ctx o n : String.length (context_bytes ctx o n) = n.
Proof. revert o. induction n as [|n IH]; intros o; [done|]. cbn [context_bytes String.length]. by rewrite IH. Qed.
Lemma read_array_length ctx n o : String.length (unwrap_or (read_array ctx n o) (zero_bytes n)) = n.
Proof. unfold read_array. destruct (tp_faults ctx o); cbn [unwrap_or]; [apply le_bytes_length|apply context_bytes_length]. Qed.
Lemma read_at_range ctx n o z : read_at ctx n o = Some z → 0 ≤ z < 256 ^ Z.of_nat n.
Proof. unfold read_at. destruct (read_array ctx n o); [|done]. intros [= <-]. apply le_at_range. Qed.

Lemma sched_record_tid e : String.length (sv_comm e) = COMM_LEN → 0 ≤ sv_tid e < 256 ^ Z.of_nat 4 → se_tid (decode_sched (encode_sched e)) = sv_tid e.
Proof. intros Hc Ht. destruct (read_sched e Hc) as [-> _]. cbn. by apply Z.mod_small. Qed.
Definition about_game (g : GamePids) (m : Move) : Prop :=
  match m with
  | Enter f _ _ => ∀ tid, thread_of f = Some tid → is_game_tid g tid = true
  | Return _ _ _ r record _ => r = SchedEvents → ∀ ns, is_game_tid g (se_tid (decode_sched (record ns))) = true
  | Write r record _ => r = SchedEvents → is_game_tid g (se_tid (decode_sched record)) = true
  | Evict _ => True
  end.
Lemma moves_about_game p ctx c k : Forall (about_game (game_pids k)) (moves_of p ctx c k).
Proof.
  destruct p; cbn [moves_of]; unfold queue_moves, run_moves, call_entry, timed; cbv zeta; repeat case_match; simplify_eq; repeat first [apply Forall_nil_2|apply Forall_cons_2];
    try done; unfold about_game; cbn [thread_of]; try (intros tid0 ?; simplify_eq; done).
  - intros _ ns. rewrite sched_record_tid; [done|apply read_array_length|by eapply read_at_range].
  - intros _. rewrite sched_record_tid; [done|apply read_array_length|by eapply read_at_range].
Qed.
Lemma of_ring_one (P : string → Prop) r record : (r = SchedEvents → P record) → Forall P (of_ring SchedEvents [(r, record)]).
Proof. intros HP. unfold of_ring. cbn. case_decide as Hr; [apply Forall_singleton; by apply HP|constructor]. Qed.
Lemma records_about_game g e ms : Forall (about_game g) ms → Forall (λ record, is_game_tid g (se_tid (decode_sched record)) = true) (of_ring SchedEvents (all_records e ms)).
Proof.
  revert e. induction ms as [|m ms IH]; intros e; cbn [all_records]; [constructor|]. intros [Hm Hms]%Forall_cons.
  rewrite of_ring_app. apply Forall_app. split; [|by apply IH].
  destruct m as [| f now any r record []| |r record []]; cbn [records_of]; try by constructor.
  - destruct (e f) as [ts|]; [|destruct any; [|constructor]]; apply of_ring_one; intros Hr; by apply Hm.
  - apply of_ring_one, Hm.
Qed.
Lemma entered_about_game g f tid ms o ts : Forall (about_game g) ms → thread_of f = Some tid →
  foldl (after_move f) o ms = Some ts → o = Some ts ∨ is_game_tid g tid = true.
Proof.
  intros Hms Hf. revert o. induction Hms as [|m ms Hm _ IH]; intros o; cbn [foldl]; [by left|]. intros [E|?]%IH; [|by right].
  destruct m as [f' now []| | |]; cbn in E; try case_decide; simplify_eq; try (by left). right. by apply Hm.
Qed.

(** C24: Only the game is observed by thread: whatever runs, a record of a switch
    or a migration names a thread that is among those of the game at that moment,
    and a wake-up, a futex call, a read or a write is only timed for such a thread. *)
Theorem only_game_threads p ctx c k :
  (∃ records, ring_of SchedEvents (run_program p ctx c k) = ring_of SchedEvents k ++ records
     ∧ Forall (λ record, is_game_tid (game_pids k) (se_tid (decode_sched record)) = true) records)
  ∧ ∀ f tid ts, thread_of f = Some tid → entry_of f (run_program p ctx c k) = Some ts →
      entry_of f k = Some ts ∨ is_game_tid (game_pids k) tid = true.
Proof.
  split.
  - eexists. split; [apply program_records|]. apply records_about_game, moves_about_game.
  - intros f tid ts Hf. rewrite program_entries. by apply entered_about_game, Hf; apply moves_about_game.
Qed.
Lemma fault_of_game ctx c k : moves_of PageFaultUser ctx c k ≠ [] → ∃ pid, read_at ctx 4 4 = Some pid ∧ is_game_tid (game_pids k) pid = true.
Proof. cbn. destruct (read_at ctx 4 4) as [pid|]; [|done]. destruct (read_at ctx 8 24); [|done]. destruct (is_game_tid _ _) eqn:E; [|done]. by exists pid. Qed.

(** ** Examples *)

(** A context that holds numbers at offsets, eight bytes each. *)
Definition context_of (fields : list (Z * Z)) : TracePointContext := {|
  tp_byte o := match List.find (λ f, (fst f <=? o) && (o <? fst f + 8)) fields with
               | Some (start, value) => ascii_of_N (Z.to_N (Z.shiftr value (8 * (o - start)) mod 256)) | None => "000"%char end;
  tp_faults _ := false |}.
Definition call_at (ns : Z) : Call :=
  {| bpf_ktime_get_ns := ns; bpf_get_smp_processor_id := 3; bpf_get_current_pid_tgid := 4294967302; map_accepts := true; ring_has_room := true; lru_evicts := [] |}.
Definition block_event (dev sector nr_sector : Z) : TracePointContext := context_of [(8, dev); (16, sector); (24, nr_sector)].

(** Two devices with a request to the same sector in flight: the request that
    took 900 ns is reported with 100 and the other one not at all. *)
Lemma same_sector_two_devices :
  let k := kernel_steps [RunProgram BlockRqIssue (block_event 1 77 8) (call_at 100); RunProgram BlockRqIssue (block_event 2 77 8) (call_at 900);
                         RunProgram BlockRqComplete (block_event 1 77 8) (call_at 1000); RunProgram BlockRqComplete (block_event 2 77 8) (call_at 1100)] loaded_kernel in
  decode_bio <$> ring_of BioEvents k = [{| be_latency_ns := 100; be_bytes := 4096 |}].
Proof. vm_compute. reflexivity. Qed.
(** The size of a record is that of the completed part, not the bytes the
    request was issued with. *)
Lemma size_of_completion :
  let k := kernel_steps [RunProgram BlockRqIssue (block_event 1 77 (8 + 65536 * 4294967296)) (call_at 100);
                         RunProgram BlockRqComplete (block_event 1 77 1) (call_at 300)] loaded_kernel in
  decode_bio <$> ring_of BioEvents k = [{| be_latency_ns := 200; be_bytes := 512 |}].
Proof. vm_compute. reflexivity. Qed.
