(* ===== verification/Daemon.v ===== *)
(** * The daemon as a whole ([ebpf/rigsignal-ebpf/src/main.rs], [loader.rs],
      [probes/mod.rs], [probes/sched.rs], [shipper.rs])

    What a start asks of the machine, the set of the game's threads in the kernel,
    a flush and its response, and the main loop with the BPF programs running
    beside it. *)
From Stdlib Require Import Ascii.
From S2P Require Import Prelude Float64 EsModel Json GameScan HandshakeJson LogSafe SessionWatch GpuSchedFormat Aggregator Probes Tick Bpf.

(** ** Requirements *)

Record ProbeRequirements := {
  tracepoints : list string;
  kprobe_symbols : list string;
  kernel_modules : list string;
  min_kernel : Z * Z;
}.
Definition requirements (r : RingId) : ProbeRequirements :=
  let needs tp sym mods := {| tracepoints := tp; kprobe_symbols := sym; kernel_modules := mods; min_kernel := (5, 8) |} in
  match r with
  | SchedEvents => needs ["sched/sched_wakeup"; "sched/sched_switch"; "sched/sched_migrate_task"] [] []
  | BioEvents => needs ["block/block_rq_issue"; "block/block_rq_complete"] [] []
  | GpuSchedEvents => needs [] [] []
  | MemEvents => needs ["exceptions/page_fault_user"; "vmscan/mm_vmscan_direct_reclaim_begin"] [] []
  | FutexEvents => needs [] ["do_futex"] []
  | IrqEvents => needs ["irq/irq_handler_entry"; "irq/irq_handler_exit"; "irq/softirq_entry"; "irq/softirq_exit"] [] []
  | VfsEvents => needs [] ["vfs_read"; "vfs_write"] []
  | GpuFenceEvents => needs [] ["dma_fence_default_wait"] []
  | GpuSubmitEvents => needs [] ["amdgpu_cs_ioctl"] ["amdgpu"]
  end.

Section machine.
Context (m : Machine).

Definition read_kernel_version : Z * Z :=
  let release := unwrap_or (read_text m "/proc/sys/kernel/osrelease") EmptyString in
  let parts := split_char "." (trim release) in
  (unwrap_or (parse_u32 (unwrap_or (parts !! 0%nat) "0")) 0, unwrap_or (parse_u32 (unwrap_or (parts !! 1%nat) "0")) 0).
Definition version_below (a b : Z * Z) : bool := (fst a <? fst b) || (fst a =? fst b) && (snd a <? snd b).
Definition tracepoint_exists (tp : string) : bool := path_exists m ("/sys/kernel/tracing/events/" +:+ tp).
Definition kallsyms_contains (sym : string) : bool :=
  match read_text m "/proc/kallsyms" with
  | Some content => existsb (λ line, is_some_and (split_whitespace line !! 2%nat) (String.eqb sym)) (lines content)
  | None => false
  end.
Definition module_loaded (name : string) : bool :=
  match read_text m "/proc/modules" with
  | Some content => existsb (λ line, is_some_and (split_whitespace line !! 0%nat) (String.eqb name)) (lines content)
  | None => false
  end.
(** The first of a list that is missing. *)
Fixpoint first_missing (there : string → bool) (l : list string) : option string :=
  match l with [] => None | x :: l => if there x then first_missing there l else Some x end.
Definition check_requirements (req : ProbeRequirements) : result unit string :=
  let (major, minor) := min_kernel req in
  let version := read_kernel_version in
  if (0 <? major) && version_below version (major, minor) then
    Err ("kernel " +:+ show major +:+ "." +:+ show minor +:+ " required, running " +:+ show (fst version) +:+ "." +:+ show (snd version))
  else
    match first_missing tracepoint_exists (tracepoints req) with
    | Some tp => Err ("tracepoint '" +:+ tp +:+ "' not available")
    | None =>
        match first_missing kallsyms_contains (kprobe_symbols req) with
        | Some sym => Err ("kernel symbol '" +:+ sym +:+ "' not found in /proc/kallsyms")
        | None =>
            match first_missing module_loaded (kernel_modules req) with
            | Some name => Err ("kernel module '" +:+ name +:+ "' not loaded")
            | None => Ok tt
            end
        end
    end.

(** ** Loading *)

(** [u64::from_str_radix(_, 16)]. *)
Definition hex_u64 (s : string) : option Z := let! n := hex_number s in if n <=? u64_max then Some n else None.
(** The first line that starts with the key decides. *)
Definition read_cap_eff : option Z :=
  let! status := read_text m "/proc/self/status" in
  let! line := List.find (starts_with "CapEff:") (lines status) in
  let! hex := split_char ":" line !! 1%nat in
  hex_u64 (trim hex).
Definition check_capabilities (is_root : bool) : result unit string :=
  if is_root then Ok tt
  else
    let cap_eff := unwrap_or read_cap_eff 0 in
    let has_cap_bpf := Z.land (Z.shiftr cap_eff 39) 1 =? 1 in
    let has_cap_perfmon := Z.land (Z.shiftr cap_eff 38) 1 =? 1 in
    if negb has_cap_bpf || negb has_cap_perfmon
    then Err "insufficient capabilities for BPF (need CAP_BPF + CAP_PERFMON)" else Ok tt.
Definition check_btf : result unit string :=
  if path_exists m "/sys/kernel/btf/vmlinux" then Ok tt else Err "BTF not available at /sys/kernel/btf/vmlinux".

(** [attach] decides what the kernel answers once the requirements hold;
    [loads_file] whether the object can be loaded. *)
Context (is_root : bool) (loads_file : result unit string) (attach : RingId → result unit string).
Definition usable_probe (r : RingId) : result unit string :=
  let? _ := check_requirements (requirements r) in attach r.
Definition load_all (candidates : list (RingId * LoadedProbe)) : result (list (RingId * LoadedProbe) * Z) string :=
  let? _ := check_capabilities is_root in
  let? _ := check_btf in
  let? _ := loads_file in
  Ok (foldl (λ '(active, skipped) c, if is_ok (usable_probe (fst c)) then (active ++ [c], skipped) else (active, skipped + 1)) ([], 0) candidates).
End machine.

(** ** The threads of the game in the kernel *)

(** What the map calls answer. *)
Record PidFaults := { pid_listed : Z → bool; pid_removed : Z → bool; pid_accepted : Z → bool }.
Definition no_pid_faults : PidFaults := {| pid_listed _ := true; pid_removed _ := true; pid_accepted _ := true |}.
Definition clear_pids (f : PidFaults) (g : GamePids) : GamePids :=
  base.filter (λ kv : Z * Z, pid_listed f kv.1 && pid_removed f kv.1 = false) g.
Definition insert_pid (f : PidFaults) (g : GamePids) (tid : Z) : GamePids := insert_or_not (pid_accepted f tid) GAME_PIDS_MAX tid 1 g.
Definition update_pids (f : PidFaults) (tids : list Z) (g : GamePids) : GamePids := foldl (insert_pid f) (clear_pids f g) tids.

(** ** Flushing *)

(** The answer to a bulk request: none, or a status with what reading the body
    as text or as JSON gives. *)
Inductive Answer :=
| SendFailed
| Responded (status : Z) (reason : string) (text : option string) (body : option json).
Definition is_success (status : Z) : bool := (200 <=? status) && (status <=? 299).
Inductive FlushOutcome :=
| BodyError (e : string)
| SendError
| StatusError (line : string)
| ParseError
| Shipped (conflicts errors : Z) (first_reason : option string).

Definition bulk_failure_message (status : string) (body : string) : string :=
  "ES bulk API returned " +:+ status +:+ ": " +:+ escape_for_log (truncate_chars body 500).
Definition is_conflict (err : json) : bool :=
  is_some_and (and_then (json_get "type" err) as_str) (String.eqb "version_conflict_engine_exception").
Definition count_item (acc : Z * Z * option string) (item : json) : Z * Z * option string :=
  let '(conflicts, errors, reason) := acc in
  match and_then (json_get "create" item) (json_get "error") with
  | None => acc
  | Some err =>
      if is_conflict err then (conflicts + 1, errors, reason)
      else (conflicts, errors + 1, match reason with Some _ => reason | None => and_then (json_get "reason" err) as_str end)
  end.
Definition read_answer (a : Answer) : FlushOutcome :=
  match a with
  | SendFailed => SendError
  | Responded status reason text body =>
      if negb (is_success status)
      then StatusError (bulk_failure_message (show status +:+ " " +:+ reason) (unwrap_or text EmptyString))
      else
        match body with
        | None => ParseError
        | Some resp_body =>
            if unwrap_or (and_then (json_get "errors" resp_body) as_bool) false then
              match and_then (json_get "items" resp_body) as_array with
              | Some items => let '(conflicts, errors, reason) := foldl count_item (0, 0, None) items in Shipped conflicts errors reason
              | None => Shipped 0 0 None
              end
            else Shipped 0 0 None
        end
  end.
Record Flush := { fl_docs : list EbpfDocument; fl_body : string; fl_outcome : FlushOutcome }.
(** Whatever comes of it, what was pending is gone. *)
Definition flush (to_json : EbpfDocument → result string string) (a : Answer) (pending : list EbpfDocument) : list Flush :=
  match pending with
  | [] => []
  | _ =>
      match build_bulk_body to_json pending with
      | Err e => [{| fl_docs := pending; fl_body := EmptyString; fl_outcome := BodyError e |}]
      | Ok body => [{| fl_docs := pending; fl_body := body; fl_outcome := read_answer a |}]
      end
  end.

(** ** The main loop *)

Record Daemon := {
  dm_kernel : Kernel;
  dm_probes : list (RingId * LoadedProbe);
  dm_pending : list EbpfDocument;
}.
(** A program's run. *)
Definition KernelRun : Type := Program * TracePointContext * Call.
Definition run_programs (runs : list KernelRun) (k : Kernel) : Kernel := foldl (λ k '(p, ctx, c), run_program p ctx c k) k runs.

(** The probes are collected one after the other; [between n] are the programs
    that run before the [n]th is, [clock n] is its [Utc::now()]. *)
Fixpoint collect_probes (between : nat → list KernelRun) (clock : nat → Z) (sid : string) (n : nat)
    (probes : list (RingId * LoadedProbe)) (k : Kernel) : list EbpfDocument * list (RingId * LoadedProbe) * Kernel :=
  match probes with
  | [] => ([], [], k)
  | (r, p) :: rest =>
      let k := run_programs (between n) k in
      let (items, k) := take_ring r k in
      let (docs, p) := collect p items (clock n) sid in
      let '(more, rest, k) := collect_probes between clock sid (S n) rest k in
      (docs ++ more, (r, p) :: rest, k)
  end.

(** What the loop meets: a program runs, the interval elapses, the session
    watcher sends a change. *)
Record TickEnv := {
  te_session : SessionView;
  te_timestamp : Z;
  te_clock : nat → Z;
  te_between : nat → list KernelRun;
  te_answer : Answer;
}.
Inductive DaemonEvent :=
| ProgramRuns (run : KernelRun)
| TickElapses (e : TickEnv)
| SessionChanges (s : SessionState) (f : PidFaults).

Section daemon.
Context (to_json : EbpfDocument → result string string) (cfg : TickConfig).

Definition daemon_tick (e : TickEnv) (d : Daemon) : list Flush * Daemon :=
  match tick_session (te_session e) (tc_background_baseline cfg) with
  | None => ([], d)
  | Some sid =>
      let '(docs, probes, k) := collect_probes (te_between e) (te_clock e) sid 0 (dm_probes d) (dm_kernel d) in
      let docs :=
        match correlate (filter_map as_metric docs) (te_clock e (length probes)) (tc_host_name cfg) (tc_kernel_version cfg) sid with
        | Some corr_doc => docs ++ [Metric corr_doc]
        | None => docs
        end in
      let pending := queue_all (dm_pending d) (assign_metric_timestamps docs (te_timestamp e)) in
      (flush to_json (te_answer e) pending, {| dm_kernel := k; dm_probes := probes; dm_pending := [] |})
  end.
Definition daemon_step (e : DaemonEvent) (d : Daemon) : list Flush * Daemon :=
  match e with
  | ProgramRuns run => ([], {| dm_kernel := run_programs [run] (dm_kernel d); dm_probes := dm_probes d; dm_pending := dm_pending d |})
  | TickElapses e => daemon_tick e d
  | SessionChanges s f =>
      ([], {| dm_kernel := set_game_pids (update_pids f (tids s) (game_pids (dm_kernel d))) (dm_kernel d);
              dm_probes := dm_probes d; dm_pending := dm_pending d |})
  end.
Fixpoint daemon_run (es : list DaemonEvent) (d : Daemon) : list Flush * Daemon :=
  match es with
  | [] => ([], d)
  | e :: es =>
      let (flushes, d) := daemon_step e d in
      let (more, d) := daemon_run es d in
      (flushes ++ more, d)
  end.
(** Behind the loop: what is left is flushed. *)
Definition daemon_main (es : list DaemonEvent) (last : Answer) (d : Daemon) : list Flush * Daemon :=
  let (flushes, d) := daemon_run es d in
  (flushes ++ flush to_json last (dm_pending d), {| dm_kernel := dm_kernel d; dm_probes := dm_probes d; dm_pending := [] |}).
End daemon.

(** The start: the loaded probes, and the threads of a session that is already
    there. *)
Definition daemon_start (session : SessionState) (f : PidFaults) (offsets : option GpuSchedKeyOffsets) (probes : list (RingId * LoadedProbe)) : Daemon :=
  let k := match offsets with Some o => set_key_offset o loaded_kernel | None => loaded_kernel end in
  {| dm_kernel := if active session then set_game_pids (update_pids f (tids session) (game_pids k)) k else k;
     dm_probes := probes; dm_pending := [] |}.
