(* ===== verification/DaemonSpec.v ===== *)
(** * What the daemon guarantees ([ebpf/rigsignal-ebpf/src/main.rs] and around)

    Every record a BPF program writes is in the documents of exactly one tick,
    the kernel filters by exactly the threads of the session, and what a start
    loads. *)
From Stdlib Require Import Ascii.
From S2P Require Import Prelude Float64 EsModel Json GameScan HandshakeJson LogSafe SessionWatch GpuSchedFormat Aggregator SchedAggregator Probes Tick Bpf BpfSpec Daemon.

(** ** From the kernel to the documents *)

(** The steps of the kernel a tick or an event comes with. *)
Fixpoint tick_steps (between : nat → list KernelRun) (n : nat) (rings : list RingId) : list KernelStep :=
  match rings with
  | [] => []
  | r :: rings => ((λ '(p, ctx, c), RunProgram p ctx c) <$> between n) ++ TakeRing r :: tick_steps between (S n) rings
  end.
Definition event_steps (cfg : TickConfig) (e : DaemonEvent) (d : Daemon) : list KernelStep :=
  match e with
  | ProgramRuns (p, ctx, c) => [RunProgram p ctx c]
  | TickElapses e =>
      match tick_session (te_session e) (tc_background_baseline cfg) with
      | Some _ => tick_steps (te_between e) 0 (fst <$> dm_probes d)
      | None => []
      end
  | SessionChanges s f => [SetGamePids (update_pids f (tids s) (game_pids (dm_kernel d)))]
  end.
Definition start_steps (session : SessionState) (f : PidFaults) (offsets : option GpuSchedKeyOffsets) : list KernelStep :=
  match offsets with Some o => [SetKeyOffset o] | None => [] end
  ++ if active session then [SetGamePids (update_pids f (tids session) ∅)] else [].

(** The ticks that have a session, and what each collects of a ring buffer. *)
Record Window := { w_env : TickEnv; w_session : string; w_items : RingId → list string }.
Definition window_docs (cfg : TickConfig) (probes : list (RingId * LoadedProbe)) (w : Window) : list EbpfDocument :=
  filter_supported_docs (fst (tick_docs cfg (te_timestamp (w_env w)) (te_clock (w_env w)) (w_session w)
                               ((λ rp, (snd rp, w_items w (fst rp))) <$> probes))).
Definition session_ticks (cfg : TickConfig) (es : list DaemonEvent) : list (TickEnv * string) :=
  filter_map (λ e, match e with
    | TickElapses e => (λ sid, (e, sid)) <$> tick_session (te_session e) (tc_background_baseline cfg)
    | _ => None end) es.
Definition fresh_probe (rp : RingId * LoadedProbe) : Prop := lp_self (snd rp) = wa_fresh (lp_self (snd rp)).

Lemma kernel_steps_app a b k : kernel_steps (a ++ b) k = kernel_steps b (kernel_steps a k).
Proof. unfold kernel_steps. apply foldl_app. Qed.
Lemma taken_out_app r a b k : taken_out r (a ++ b) k = taken_out r a k ++ taken_out r b (kernel_steps a k).
Proof. revert k. induction a as [|s a IH]; intros k; cbn; [done|]. by rewrite IH, app_assoc. Qed.
Lemma run_programs_steps runs k : run_programs runs k = kernel_steps ((λ '(p, ctx, c), RunProgram p ctx c) <$> runs) k.
Proof. revert k. induction runs as [|[[p ctx] c] runs IH]; intros k; cbn; [done|]. apply IH. Qed.
Lemma taken_out_runs r (runs : list KernelRun) k : taken_out r ((λ '(p, ctx, c), RunProgram p ctx c) <$> runs) k = [].
Proof. revert k. induction runs as [|[[p ctx] c] runs IH]; intros k; cbn; [done|]. apply IH. Qed.
Lemma tick_steps_other between n rings r k : r ∉ rings → taken_out r (tick_steps between n rings) k = [].
Proof.
  revert n k. induction rings as [|r' rings IH]; intros n k Hr; cbn; [done|]. rewrite not_elem_of_cons in Hr. destruct Hr as [Hne Hr].
  rewrite taken_out_app, taken_out_runs. cbn. rewrite decide_False by congruence. by apply IH.
Qed.

Lemma collect_fresh p items now sid : lp_self p = wa_fresh (lp_self p) → snd (collect p items now sid) = p.
Proof.
  intros Hf. unfold collect. rewrite drain_pushes. destruct (wa_flush _ now sid) as [docs s] eqn:E. cbn.
  pose proof (f_equal snd E) as Es. cbn in Es. rewrite wa_flush_state, fresh_pushes, <-Hf in Es. subst s. by destruct p.
Qed.

(** The collection of a tick is that of its windows, with the programs between. *)
Lemma collect_probes_windows between clock sid n probes k :
  NoDup (fst <$> probes) → Forall fresh_probe probes →
  collect_probes between clock sid n probes k
  = (fst (collect_all clock sid n ((λ rp, (snd rp, taken_out (fst rp) (tick_steps between n (fst <$> probes)) k)) <$> probes)),
     probes, kernel_steps (tick_steps between n (fst <$> probes)) k).
Proof.
  revert n k. induction probes as [|[r p] probes IH]; intros n k Hnd Hf; [done|].
  cbn [fmap list_fmap fst] in Hnd. apply NoDup_cons in Hnd as [Hr Hnd]. apply Forall_cons in Hf as [Hp Hf]. unfold fresh_probe in Hp. cbn [snd] in Hp.
  cbn [collect_probes fmap list_fmap fst snd tick_steps collect_all].
  rewrite run_programs_steps, kernel_steps_app. cbn [kernel_steps foldl kernel_step].
  set (k1 := kernel_steps _ k). destruct (take_ring r k1) as [items k2] eqn:Et.
  assert (Hi : items = ring_of r k1) by (destruct k1, r; cbn in Et; by injection Et as <- _).
  assert (Hh : taken_out r (((λ '(p, ctx, c), RunProgram p ctx c) <$> between n) ++ TakeRing r :: tick_steps between (S n) (fst <$> probes)) k = items).
  { rewrite taken_out_app, taken_out_runs. fold k1. cbn. rewrite decide_True by done. rewrite Et. cbn. by rewrite tick_steps_other, app_nil_r. }
  rewrite Hh. pose proof (collect_fresh p items (clock n) sid Hp) as Hc. destruct (collect p items (clock n) sid) as [docs p'].
  cbn [snd] in Hc. subst p'. rewrite IH by done. cbn [snd].
  assert (Ht : (λ rp : RingId * LoadedProbe, (snd rp, taken_out (fst rp) (((λ '(p, ctx, c), RunProgram p ctx c) <$> between n) ++ TakeRing r :: tick_steps between (S n) (fst <$> probes)) k)) <$> probes
             = (λ rp, (snd rp, taken_out (fst rp) (tick_steps between (S n) (fst <$> probes)) k2)) <$> probes).
  { apply list_fmap_ext. intros i [r' p'] Hin. cbn. f_equal. rewrite taken_out_app, taken_out_runs. fold k1. cbn.
    rewrite decide_False by (intros <-; apply Hr, list_elem_of_fmap; exists (r, p'); split; [done|by eapply list_elem_of_lookup_2]).
    by rewrite Et. }
  rewrite Ht. destruct (collect_all _ _ _ _) as [more ps]. done.
Qed.

Lemma flush_docs to_json a pending : fl_docs <$> flush to_json a pending = match pending with [] => [] | _ => [pending] end.
Proof. unfold flush. destruct pending as [|d ds]; [done|]. by destruct (build_bulk_body _ _). Qed.

Section loop.
Context (to_json : EbpfDocument → result string string) (cfg : TickConfig) (probes : list (RingId * LoadedProbe)).
Context (Hnd : NoDup (fst <$> probes)) (Hfresh : Forall fresh_probe probes).

Definition ready (d : Daemon) : Prop := dm_probes d = probes ∧ dm_pending d = [].
(** The window of a tick. *)
Definition window_of (e : TickEnv) (sid : string) (k : Kernel) : Window :=
  {| w_env := e; w_session := sid; w_items r := taken_out r (tick_steps (te_between e) 0 (fst <$> probes)) k |}.
Definition event_windows (e : DaemonEvent) (k : Kernel) : list Window :=
  match e with
  | TickElapses e => match tick_session (te_session e) (tc_background_baseline cfg) with Some sid => [window_of e sid k] | None => [] end
  | _ => []
  end.

Lemma daemon_step_spec e d : ready d →
  fl_docs <$> fst (daemon_step to_json cfg e d) = List.filter (λ docs, negb (bool_decide (docs = []))) (window_docs cfg probes <$> event_windows e (dm_kernel d))
  ∧ ready (snd (daemon_step to_json cfg e d))
  ∧ dm_kernel (snd (daemon_step to_json cfg e d)) = kernel_steps (event_steps cfg e d) (dm_kernel d).
Proof.
  destruct d as [k ps pending]. intros [Hp Hq]. cbn in Hp, Hq. subst ps pending.
  destruct e as [[[p ctx] c]|e|s f]; cbn [daemon_step event_windows event_steps]; [done| |done].
  unfold daemon_tick. cbn [dm_probes dm_kernel dm_pending]. destruct (tick_session _ _) as [sid|]; [|done].
  rewrite collect_probes_windows by done. cbn [fmap list_fmap].
  unfold window_docs, window_of. cbn [w_env w_session w_items]. unfold tick_docs.
  rewrite length_fmap. destruct (collect_all _ _ _ _) as [docs ps]. cbn [fst snd].
  rewrite flush_docs. unfold queue_all. cbn [app].
  destruct (correlate _ _ _ _ _); cbn [fst]; cbn [List.filter]; (destruct (filter_supported_docs _); done).
Qed.

Definition daemon_steps (es : list DaemonEvent) (d : Daemon) : list KernelStep :=
  (fix go es d := match es with [] => [] | e :: es => event_steps cfg e d ++ go es (snd (daemon_step to_json cfg e d)) end) es d.
Lemma daemon_run_spec es d : ready d →
  ∃ windows,
    (λ w, (w_env w, w_session w)) <$> windows = session_ticks cfg es
    ∧ fl_docs <$> fst (daemon_run to_json cfg es d) = List.filter (λ docs, negb (bool_decide (docs = []))) (window_docs cfg probes <$> windows)
    ∧ ready (snd (daemon_run to_json cfg es d))
    ∧ dm_kernel (snd (daemon_run to_json cfg es d)) = kernel_steps (daemon_steps es d) (dm_kernel d)
    ∧ ∀ r, mjoin ((λ w, w_items w r) <$> windows) = taken_out r (daemon_steps es d) (dm_kernel d).
Proof.
  revert d. induction es as [|e es IH]; intros d Hr; [by exists []|].
  destruct (daemon_step_spec e d Hr) as (Hd & Hr' & Hk). cbn [daemon_run daemon_steps].
  destruct (daemon_step to_json cfg e d) as [flushes d1] eqn:E. cbn [fst snd] in *.
  destruct (IH d1 Hr') as (windows & Hw & Hd' & Hr'' & Hk' & Hi).
  destruct (daemon_run to_json cfg es d1) as [more d2] eqn:E2. cbn [fst snd] in *.
  exists (event_windows e (dm_kernel d) ++ windows). split_and!; [| | |  |].
  - rewrite fmap_app, Hw. unfold session_ticks. destruct e as [|e|]; cbn; try done. by destruct (tick_session _ _).
  - by rewrite !fmap_app, List.filter_app, Hd, Hd'.
  - done.
  - rewrite Hk'. fold daemon_steps. by rewrite kernel_steps_app, Hk.
  - intros r. rewrite fmap_app, join_app, Hi, taken_out_app, <-Hk. f_equal.
    destruct Hr as [Hp _]. destruct e as [[[p ctx] c]|e|s f]; cbn [event_windows event_steps]; [done| |done].
    rewrite Hp. destruct (tick_session _ _); [|done]. cbn. by rewrite app_nil_r.
Qed.
End loop.


(** ** The threads of the game *)

Lemma clear_no_faults g : clear_pids no_pid_faults g = ∅.
Proof.
  unfold clear_pids, no_pid_faults. cbn. apply map_eq. intros i. trans (None : option Z); [|symmetry; exact (lookup_empty i)]. apply map_lookup_filter_None. right. by intros x _.
Qed.
Lemma insert_pid_size f g tid : (size g ≤ GAME_PIDS_MAX)%nat → (size (insert_pid f g tid) ≤ GAME_PIDS_MAX)%nat.
Proof.
  intros Hs. unfold insert_pid, insert_or_not, bpf_map_insert. destruct (pid_accepted f tid); [|done]. cbn [andb].
  destruct (bool_decide (is_Some (g !! tid))) eqn:E.
  - apply bool_decide_eq_true in E. cbn [orb unwrap_or]. pose proof (map_size_insert_Some (M := gmap Z) tid 1 g E) as Hz. lia.
  - apply bool_decide_eq_false in E. cbn [orb]. destruct (Nat.ltb_spec (size g) GAME_PIDS_MAX); [|done]. cbn [orb unwrap_or].
    apply eq_None_not_Some in E. pose proof (map_size_insert_None (M := gmap Z) tid 1 g E) as Hz. lia.
Qed.

(** C40: Whatever the map calls answer, the kernel never tracks more threads than
    its map holds, and none but those of the session and those a failed removal
    has left; and when the calls succeed and the session has no more threads than
    the watcher collects, exactly those of the session: every thread of the game
    and no other passes the filter of the BPF programs. *)
Theorem pid_filter_exact f tids g tid :
  (size g ≤ GAME_PIDS_MAX)%nat →
  (size (update_pids f tids g) ≤ GAME_PIDS_MAX)%nat
  ∧ (is_game_tid (update_pids f tids g) tid = true →
     tid ∈ tids ∨ is_game_tid g tid = true ∧ (pid_listed f tid && pid_removed f tid = false))
  ∧ ((length tids ≤ MAX_GAME_TIDS)%nat → (∀ t, pid_listed f t = true ∧ pid_removed f t = true ∧ pid_accepted f t = true) →
     is_game_tid (update_pids f tids g) tid = bool_decide (tid ∈ tids)).
Proof.
  intros Hs. unfold update_pids.
  assert (Hc : (size (clear_pids f g) ≤ GAME_PIDS_MAX)%nat) by (unfold clear_pids; etrans; [apply map_size_filter|done]).
  assert (Hclear : is_game_tid (clear_pids f g) tid = true → is_game_tid g tid = true ∧ (pid_listed f tid && pid_removed f tid = false)).
  { unfold is_game_tid, clear_pids. rewrite !bool_decide_eq_true. intros [x (Hx & Hp)%map_lookup_filter_Some]. split; [by eexists|exact Hp]. }
  split_and!.
  - clear Hclear. revert Hc. generalize (clear_pids f g). induction tids as [|t tids IH]; intros m Hm; [done|]. cbn. apply IH. by apply insert_pid_size.
  - assert (Hin : ∀ m, is_game_tid (foldl (insert_pid f) m tids) tid = true → tid ∈ tids ∨ is_game_tid m tid = true).
    { clear. induction tids as [|t tids IH]; intros m; cbn; [by right|]. intros [Hin|Hm]%IH; [by left; right|].
      unfold is_game_tid, insert_pid, insert_or_not, bpf_map_insert in *. destruct (_ && _); cbn in Hm; [|by right].
      destruct (decide (t = tid)) as [->|Hne]; [by left; left|]. right. by rewrite lookup_insert_ne in Hm. }
    intros [?|?]%Hin; [by left|by right; apply Hclear].
  - intros Hl Hf.
    assert (He : clear_pids f g = ∅).
    { unfold clear_pids. apply map_eq. intros i. trans (None : option Z); [|symmetry; exact (lookup_empty i)]. apply map_lookup_filter_None. right. intros x _. cbn.
      destruct (Hf i) as (-> & -> & _). done. }
    rewrite He. clear Hclear Hc He Hs.
    assert (Hgen : ∀ m, (size m + length tids ≤ GAME_PIDS_MAX)%nat →
      is_game_tid (foldl (insert_pid f) m tids) tid = is_game_tid m tid || bool_decide (tid ∈ tids)).
    { clear Hl. induction tids as [|t tids IH]; intros m Hm; cbn [foldl]; [by rewrite bool_decide_eq_false_2, orb_false_r by apply not_elem_of_nil|].
      cbn [length] in Hm.
      assert (Hi : insert_pid f m t = <[t := 1]> m).
      { unfold insert_pid, insert_or_not, bpf_map_insert. destruct (Hf t) as (_ & _ & ->). cbn [andb].
        destruct (Nat.ltb_spec (size m) GAME_PIDS_MAX); [|lia]. by rewrite orb_true_r. }
      assert (Hsz : (size (<[t := 1%Z]> m) ≤ S (size m))%nat) by (rewrite map_size_insert; destruct (m !! t); cbn; lia).
      rewrite Hi, IH by lia.
      unfold is_game_tid. destruct (decide (t = tid)) as [->|Hne].
      - rewrite lookup_insert_eq, (bool_decide_eq_true_2 (tid ∈ tid :: tids)) by left. rewrite bool_decide_eq_true_2 by by eexists. by rewrite orb_true_r.
      - rewrite lookup_insert_ne by done. f_equal. apply bool_decide_ext. rewrite elem_of_cons. split; [by right|by intros [->|]]. }
    rewrite Hgen by (rewrite map_size_empty; exact Hl). done.
Qed.

(** ** What a start loads *)

Lemma first_missing_iff there l : first_missing there l = None ↔ Forall (λ x, there x = true) l.
Proof.
  induction l as [|x l IH]; cbn; [by split|]. rewrite Forall_cons. destruct (there x); [rewrite IH; by intuition|]. split; [done|]. by intros [].
Qed.
(** What a probe needs of the machine. *)
Definition met (m : Machine) (req : ProbeRequirements) : Prop :=
  (fst (min_kernel req) ≤ 0 ∨ version_below (read_kernel_version m) (min_kernel req) = false)
  ∧ Forall (λ tp, tracepoint_exists m tp = true) (tracepoints req)
  ∧ Forall (λ sym, kallsyms_contains m sym = true) (kprobe_symbols req)
  ∧ Forall (λ name, module_loaded m name = true) (kernel_modules req).
Lemma check_requirements_iff m req : is_ok (check_requirements m req) = true ↔ met m req.
Proof.
  unfold check_requirements, met. destruct (min_kernel req) as [major minor]. cbn [fst].
  rewrite <-(first_missing_iff (tracepoint_exists m)), <-(first_missing_iff (kallsyms_contains m)), <-(first_missing_iff (module_loaded m)).
  destruct (Z.ltb_spec 0 major) as [Hm|Hm]; cbn [andb].
  - destruct (version_below _ _).
    + split; [done|]. intros ([|] & _); [lia|done].
    + destruct (first_missing _ (tracepoints req)), (first_missing _ (kprobe_symbols req)), (first_missing _ (kernel_modules req));
        (split; [try done; by intuition|intros (_ & ? & ? & ?); done]).
  - destruct (first_missing _ (tracepoints req)), (first_missing _ (kprobe_symbols req)), (first_missing _ (kernel_modules req));
      (split; [try done; intros _; split_and!; try done; by left|intros (_ & ? & ? & ?); done]).
Qed.
Lemma capability_bit n i : 0 ≤ i → (Z.land (Z.shiftr n i) 1 =? 1) = Z.testbit n i.
Proof.
  intros Hi. rewrite (Z.land_ones (Z.shiftr n i) 1 ltac:(lia) : Z.land (Z.shiftr n i) 1 = Z.shiftr n i mod 2 ^ 1).
  rewrite Z.shiftr_div_pow2 by done. rewrite Z.testbit_eqb by done. done.
Qed.

(** The daemon starts exactly with the capabilities, type information and
    object it needs; it then has, in their order, exactly the probes whose
    requirements the machine meets and which the kernel attaches, and counts the
    others as skipped: a probe that is missing something never keeps another one
    from being loaded. *)
Theorem loaded_exactly m is_root loads_file attach candidates active skipped :
  load_all m is_root loads_file attach candidates = Ok (active, skipped) ↔
  (is_root = true ∨ ∃ caps, read_cap_eff m = Some caps ∧ Z.testbit caps 38 = true ∧ Z.testbit caps 39 = true)
  ∧ path_exists m "/sys/kernel/btf/vmlinux" = true
  ∧ loads_file = Ok tt
  ∧ active = List.filter (λ c, is_ok (usable_probe m attach (fst c))) candidates
  ∧ skipped = Z.of_nat (length candidates) - Z.of_nat (length active)
  ∧ ∀ r, is_ok (usable_probe m attach r) = true ↔ met m (requirements r) ∧ is_ok (attach r) = true.
Proof.
  assert (Hu : ∀ r, is_ok (usable_probe m attach r) = true ↔ met m (requirements r) ∧ is_ok (attach r) = true).
  { intros r. rewrite <-check_requirements_iff. unfold usable_probe. destruct (check_requirements _ _); cbn; [intuition|]. split; [done|]. by intros []. }
  assert (Hc : is_ok (check_capabilities m is_root) = true ↔
    is_root = true ∨ ∃ caps, read_cap_eff m = Some caps ∧ Z.testbit caps 38 = true ∧ Z.testbit caps 39 = true).
  { unfold check_capabilities. destruct is_root; [by split; [left|]|]. rewrite !capability_bit by lia.
    destruct (read_cap_eff m) as [caps|]; cbn [unwrap_or].
    - destruct (Z.testbit caps 39) eqn:E39, (Z.testbit caps 38) eqn:E38; cbn [negb orb is_ok];
        (split; [try done; intros _; right; by exists caps|intros [|(? & [= <-] & ? & ?)]; congruence]).
    - rewrite !Z.testbit_0_l. cbn. split; [done|]. by intros [|(? & ? & _)]. }
  assert (Hf : ∀ a s, foldl (λ '(active, skipped) c, if is_ok (usable_probe m attach (fst c)) then (active ++ [c], skipped) else (active, skipped + 1)) (a, s) candidates
    = (a ++ List.filter (λ c, is_ok (usable_probe m attach (fst c))) candidates,
       s + (Z.of_nat (length candidates) - Z.of_nat (length (List.filter (λ c, is_ok (usable_probe m attach (fst c))) candidates))))).
  { clear. induction candidates as [|c cs IH]; intros a s; cbn [foldl List.filter length]; [rewrite app_nil_r; f_equal; cbn; lia|].
    destruct (is_ok _); rewrite IH; f_equal; rewrite <-?app_assoc; try done; cbn [length]; lia. }
  unfold load_all, check_btf. rewrite <-Hc.
  destruct (check_capabilities m is_root) as [[]|]; cbn [is_ok]; [|split; [done|by intros []]].
  destruct (path_exists m _); [|split; [done|by intros (_ & ? & _)]].
  destruct loads_file as [[]|]; [|split; [done|by intros (_ & _ & ? & _)]].
  rewrite Hf. cbn [app]. rewrite Z.add_0_l. split.
  - intros [= <- <-]. by split_and!.
  - intros (_ & _ & _ & -> & -> & _). done.
Qed.

(** ** The answer to a request *)

(** The error of an item, and what is said of the items. *)
Definition item_error (item : json) : option json := and_then (json_get "create" item) (json_get "error").
Definition conflicting (item : json) : bool := is_some_and (item_error item) is_conflict.
Definition failed (item : json) : bool := is_some_and (item_error item) (λ err, negb (is_conflict err)).
Definition reason_of (item : json) : option string := and_then (item_error item) (λ err, and_then (json_get "reason" err) as_str).

Lemma count_items items c e reason :
  foldl count_item (c, e, reason) items
  = (c + Z.of_nat (count conflicting items), e + Z.of_nat (count failed items),
     match reason with Some _ => reason | None => head (filter_map reason_of (List.filter failed items)) end).
Proof.
  revert c e reason. induction items as [|item items IH]; intros c e reason; cbn [foldl].
  - rewrite !Z.add_0_r. by destruct reason.
  - unfold count in *. unfold count_item at 2. cbn [List.filter].
    assert (Hr : reason_of item = and_then (item_error item) (λ err, and_then (json_get "reason" err) as_str)) by done.
    assert (Hcf : conflicting item = is_some_and (item_error item) is_conflict) by done.
    assert (Hff : failed item = is_some_and (item_error item) (λ err, negb (is_conflict err))) by done.
    change (and_then (json_get "create" item) (json_get "error")) with (item_error item).
    destruct (item_error item) as [err|]; cbn [is_some_and and_then] in *; rewrite ?Hcf, Hff; [|apply IH].
    destruct (is_conflict err); cbn [negb]; rewrite IH; cbn [length]; f_equal; [f_equal; lia|f_equal; lia|].
    cbn [filter_map]. rewrite Hr. destruct reason; [done|]. by destruct (and_then (json_get "reason" err) as_str).
Qed.

(** A flush is told apart by its answer: documents that the cluster has
    already and documents it has refused are counted for exactly the items that
    say so, with the first reason given; no answer leaves anything pending. *)
Theorem answer_counted status reason text body items :
  is_success status = true → json_get "errors" body = Some (JBool true) → json_get "items" body = Some (JArray items) →
  read_answer (Responded status reason text (Some body))
  = Shipped (Z.of_nat (count conflicting items)) (Z.of_nat (count failed items)) (head (filter_map reason_of (List.filter failed items)))
  ∧ (count conflicting items + count failed items ≤ length items)%nat.
Proof.
  intros Hs He Hi. unfold read_answer. rewrite Hs, He, Hi. cbn [negb and_then as_bool as_array unwrap_or].
  rewrite count_items, !Z.add_0_l. split; [done|]. clear. unfold count.
  induction items as [|item items IH]; [done|]. cbn [List.filter length].
  assert (Hcf : conflicting item = is_some_and (item_error item) is_conflict) by done.
  assert (Hff : failed item = is_some_and (item_error item) (λ err, negb (is_conflict err))) by done. rewrite Hcf, Hff.
  destruct (item_error item) as [err|]; cbn [is_some_and]; [|lia]. destruct (is_conflict err); cbn [negb length]; lia.
Qed.

(** ** Examples *)

Definition demo_json (d : EbpfDocument) : result string string := Ok (document_probe d).
Definition demo_bio : list (RingId * LoadedProbe) := [(BioEvents, bio_probe "h" "k")].
Definition playing : SessionView := {| sv_active := true; sv_session_id := Some "s" |}.
Definition idle : SessionView := {| sv_active := false; sv_session_id := None |}.
Definition taken_request : Answer := Responded 200 "OK" None (Some (object [("errors", JBool false)])).
Definition demo_tick (session : SessionView) (ts : Z) (between : nat → list KernelRun) : DaemonEvent :=
  TickElapses {| te_session := session; te_timestamp := ts; te_clock := Z.of_nat; te_between := between; te_answer := taken_request |}.
Definition io (sector issue complete : Z) : list DaemonEvent :=
  [ProgramRuns (BlockRqIssue, block_event 1 sector 8, call_at issue); ProgramRuns (BlockRqComplete, block_event 1 sector 8, call_at complete)].
Definition requests_counted (flushes : list Flush) : list (list (option (Z * string))) :=
  (λ fl, (λ d, match d with
               | Metric m => (λ b, (bio_event_count b, session_id (rs_session (md_rigsignal m)))) <$> EsModel.bio (ebpf (md_rigsignal m))
               | Thread _ => None end) <$> fl_docs fl) <$> flushes.

Definition one_io : list DaemonEvent := io 7 100 300 ++ [demo_tick playing 1 (λ _, [])].
Definition bio_start : Daemon := daemon_start no_session no_pid_faults None demo_bio.

Definition one_item (outcome : option string) : json :=
  object [("create", object (match outcome with Some t => [("error", object [("type", JString t); ("reason", JString "no")])] | None => [] end))].
Definition three_items : json :=
  object [("errors", JBool true);
          ("items", JArray (one_item <$> [None; Some "version_conflict_engine_exception"; Some "mapper_parsing_exception"]))].
Lemma answer_counted_witness :
  read_answer (Responded 200 "OK" None (Some three_items)) = Shipped 1 1 (Some "no").
Proof.
  rewrite (proj1 (answer_counted 200 "OK" None three_items (one_item <$> [None; Some "version_conflict_engine_exception"; Some "mapper_parsing_exception"])
    ltac:(reflexivity) ltac:(reflexivity) ltac:(reflexivity))). vm_compute. reflexivity.
Defined.
Lemma pid_filter_exact_witness :
  is_game_tid (update_pids no_pid_faults [41; 42] {[7 := 1]}) 42 = true ∧ is_game_tid (update_pids no_pid_faults [41; 42] {[7 := 1]}) 7 = false.
Proof.
  split.
  - exact (proj2 (proj2 (pid_filter_exact no_pid_faults [41; 42] {[7 := 1]} 42 ltac:(apply Nat.leb_le; vm_compute; reflexivity))) ltac:(apply Nat.leb_le; vm_compute; reflexivity) ltac:(done)).
  - exact (proj2 (proj2 (pid_filter_exact no_pid_faults [41; 42] {[7 := 1]} 7 ltac:(apply Nat.leb_le; vm_compute; reflexivity))) ltac:(apply Nat.leb_le; vm_compute; reflexivity) ltac:(done)).
Defined.

(** The records of the time without a session stay in the ring buffers: the
    first tick of a session has them in its document. *)
Lemma idle_records_shipped :
  requests_counted (fst (daemon_main demo_json demo_cfg (io 7 100 300 ++ [demo_tick idle 1 (λ _, [])] ++ io 9 400 500 ++ [demo_tick idle 2 (λ _, []); demo_tick playing 3 (λ _, [])])
                           SendFailed (daemon_start no_session no_pid_faults None demo_bio)))
  = [[Some (2, "s")]].
Proof. vm_compute. reflexivity. Qed.
