(* ===== verification/DaemonStart.v ===== *)
(** * The start of the daemon ([ebpf/rigsignal-ebpf/src/main.rs], [EsShipper::new] of [shipper.rs])

    From the command line to the loop: the configuration, the probes, the session
    watcher, the key and the client, each of which can end it. *)
From Stdlib Require Import Ascii.
From S2P Require Import Prelude Float64 EsModel Json GameScan HandshakeJson LogSafe SessionWatch GpuSchedFormat Aggregator SchedAggregator Probes Tick Bpf Handshake Config Daemon.

Record DaemonCli := { dc_config : option string; dc_probe_path : option string; dc_log : string; dc_build_info_json : bool }.

(** What the start finds: the build's name, version and commit; whether it runs as
    root, whether the object at a path can be loaded and a probe attached, the
    processors and the key offsets; the watcher; the answers of the map calls; the
    certificates of the client; the timer and the signal handlers. *)
Record DaemonStartEnv := {
  ds_is_root : bool;
  ds_loads_file : string → result unit string;
  ds_attach : RingId → result unit string;
  ds_cpus : option (list CpuEntry);
  ds_offsets : option GpuSchedKeyOffsets;
  ds_look : Look;
  ds_watches : result unit string;
  ds_pid_faults : PidFaults;
  ds_read_pem : string → option string;
  ds_interval : Z → bool;
  ds_signals : result unit string;
}.

Section start.
Context `{Unicode} `{Parsers} `{HashIter} (from_str : string → option json) (m : Machine) (parse_toml : string → option json) (exe_ancestors : list string) (release : bool).

Definition daemon_host_name : string := normalize_hostname (unwrap_or (read_text m "/etc/hostname") "unknown").
Definition daemon_kernel_version : string := trim (unwrap_or (read_text m "/proc/sys/kernel/osrelease") "unknown").
Definition daemon_candidates (cpus : option (list CpuEntry)) : list (RingId * LoadedProbe) :=
  zip [SchedEvents; BioEvents; GpuSchedEvents; MemEvents; FutexEvents; IrqEvents; VfsEvents; GpuFenceEvents; GpuSubmitEvents]
    (candidates daemon_host_name daemon_kernel_version (build_ccx_map cpus)).

(** [EsShipper::new]: where it posts to. *)
Definition shipper_new (read_pem : string → option string) (endpoint api_key : string) (ca_cert : option string) : result string string :=
  let? certificates :=
    match ca_cert with
    | None => Ok []
    | Some path =>
        let? pem := ok_or (read_pem path) ("reading Elasticsearch CA cert: " +:+ path) in
        map_err (λ _, "parsing Elasticsearch CA cert: " +:+ path) (ca_certificate_bundle pem)
    end in
  if builds_client certificates then Ok (trim_end_matches (String.eqb "/") endpoint +:+ "/_bulk") else Err "building HTTP client".

Record RunningDaemon := {
  rd_daemon : Daemon;
  rd_config : DaemonConfig;
  rd_tick : TickConfig;
  rd_watcher : Watcher;
  rd_bulk_url : string;
  rd_loaded : Z;
  rd_skipped : Z;
}.
(** How the start ends: the build's provenance, an error, nothing to do, a panic of
    the timer, or the loop. *)
Inductive DaemonBegins :=
| PrintsBuildInfo
| StartFails (error : string)
| NothingLoaded
| TimerPanics
| Runs (r : RunningDaemon).

Definition MISSING_KEY : string := "No API key: set ES_API_KEY env var or api_key in rigsignal.toml".
Definition daemon_begin (e : DaemonStartEnv) (c : DaemonCli) : DaemonBegins :=
  if dc_build_info_json c then PrintsBuildInfo
  else
    match match dc_config c with
          | Some path => daemon_load_from m parse_toml exe_ancestors release path
          | None => daemon_load m parse_toml exe_ancestors release
          end with
    | Err error => StartFails error
    | Ok config =>
        let probe_path := unwrap_or (dc_probe_path c) (eb_probe_path (dn_ebpf config)) in
        match load_all m (ds_is_root e) (ds_loads_file e probe_path) (ds_attach e) (daemon_candidates (ds_cpus e)) with
        | Err _ => StartFails "failed to load BPF probes"
        | Ok (active, skipped) =>
            match active with
            | [] => NothingLoaded
            | _ =>
                match ds_watches e with
                | Err _ => StartFails "spawning session watcher"
                | Ok _ =>
                    let watcher := initial_watcher from_str (ds_look e) in
                    let d := daemon_start (shared watcher) (ds_pid_faults e) (ds_offsets e) active in
                    match de_api_key (dn_elasticsearch config) with
                    | None => StartFails MISSING_KEY
                    | Some api_key =>
                        match shipper_new (ds_read_pem e) (de_endpoint (dn_elasticsearch config)) api_key (de_ca_cert (dn_elasticsearch config)) with
                        | Err _ => StartFails "creating ES shipper"
                        | Ok url =>
                            if negb (ds_interval e (eb_interval_s (dn_ebpf config))) then TimerPanics
                            else
                              match ds_signals e with
                              | Err error => StartFails error
                              | Ok _ =>
                                  Runs {| rd_daemon := d; rd_config := config;
                                          rd_tick := {| tc_host_name := daemon_host_name; tc_kernel_version := daemon_kernel_version;
                                                        tc_background_baseline := eb_background_baseline (dn_ebpf config) |};
                                          rd_watcher := watcher; rd_bulk_url := url;
                                          rd_loaded := Z.of_nat (length active); rd_skipped := skipped |}
                              end
                        end
                    end
                end
            end
        end
    end.
End start.
