(* ===== verification/DaemonStartSpec.v ===== *)
(** * What a start of the daemon guarantees ([ebpf/rigsignal-ebpf/src/main.rs])

    A daemon that reaches its loop is one the theorems of [DaemonSpec] speak
    about, and each thing it needs is checked before it. *)
From Stdlib Require Import Ascii.
From S2P Require Import Prelude Float64 EsModel Json GameScan HandshakeJson LogSafe SessionWatch GpuSchedFormat Aggregator SchedAggregator Probes Tick Bpf BpfSpec Handshake HandshakeSpec Config Daemon DaemonSpec DaemonStart.

Lemma NoDup_fst_filter {A B : Type} (p : A * B → bool) (l : list (A * B)) : NoDup l.*1 → NoDup (List.filter p l).*1.
Proof.
  induction l as [|x l IH]; [done|]. cbn. intros [Hx Hl]%NoDup_cons. destruct (p x); [|by apply IH]. cbn. constructor; [|by apply IH].
  intros (y & Hy & Hin)%list_elem_of_fmap. apply Hx. apply list_elem_of_fmap. exists y. split; [done|].
  apply list_elem_of_In, List.filter_In in Hin as [Hin _]. by apply list_elem_of_In.
Qed.

Section start.
Context `{Unicode} `{Parsers} `{HashIter} (from_str : string → option json) (m : Machine) (parse_toml : string → option json).
Context (exe_ancestors : list string) (release : bool).
Local Abbreviation daemon_begin := (daemon_begin from_str m parse_toml exe_ancestors release).
Local Abbreviation daemon_candidates := (daemon_candidates m).

Lemma candidates_fresh cpus : NoDup (daemon_candidates cpus).*1 ∧ Forall fresh_probe (daemon_candidates cpus) ∧ length (daemon_candidates cpus) = 9%nat.
Proof. split_and!; [|by repeat constructor|done]. cbn. repeat (constructor; [set_solver|]). constructor. Qed.

Definition configured (c : DaemonCli) : result DaemonConfig string :=
  match dc_config c with
  | Some path => daemon_load_from m parse_toml exe_ancestors release path
  | None => daemon_load m parse_toml exe_ancestors release
  end.

(** The daemon reaches its loop exactly when nothing it needs is missing: a
    configuration that names a key, capabilities, type information and an object
    with a probe that attaches, a watcher, a client, and an interval the timer
    takes; in whatever state the session file is. *)
Theorem daemon_runs_iff (e : DaemonStartEnv) (c : DaemonCli) :
  (∃ r, daemon_begin e c = Runs r)
  ↔ dc_build_info_json c = false
    ∧ ∃ config key probes skipped,
        configured c = Ok config ∧ de_api_key (dn_elasticsearch config) = Some key
        ∧ load_all m (ds_is_root e) (ds_loads_file e (unwrap_or (dc_probe_path c) (eb_probe_path (dn_ebpf config)))) (ds_attach e)
            (daemon_candidates (ds_cpus e)) = Ok (probes, skipped) ∧ probes ≠ []
        ∧ is_ok (ds_watches e) = true ∧ is_ok (ds_signals e) = true
        ∧ is_ok (shipper_new (ds_read_pem e) (de_endpoint (dn_elasticsearch config)) key (de_ca_cert (dn_elasticsearch config))) = true
        ∧ ds_interval e (eb_interval_s (dn_ebpf config)) = true.
Proof.
  unfold DaemonStart.daemon_begin. fold (configured c). split.
  - intros (r & Hr). destruct (dc_build_info_json c); [done|]. split; [done|].
    destruct (configured c) as [config|]; [|done]. destruct (load_all _ _ _ _ _) as [[probes skipped]|] eqn:El; [|done].
    destruct probes as [|p ps]; [done|]. destruct (ds_watches e); [|done]. destruct (de_api_key _) as [key|] eqn:Ek; [|done].
    destruct (shipper_new _ _ _ _) as [url|] eqn:Es; [|done]. destruct (ds_interval e _) eqn:Ei; [|done]. destruct (ds_signals e); [|done].
    exists config, key, (p :: ps), skipped. by rewrite El, Es.
  - intros (-> & config & key & probes & skipped & -> & Hk & Hl & Hp & Hw & Hs & Hu & Hi). rewrite Hl.
    destruct probes as [|p ps]; [done|]. destruct (ds_watches e); [|done]. rewrite Hk.
    destruct (shipper_new _ _ _ _); [|done]. rewrite Hi. destruct (ds_signals e); [|done]. by eexists.
Qed.

(** A daemon in its loop has probes with rings of their own that have collected
    nothing, nothing queued, and in the kernel the threads of the session its
    watcher holds; every candidate is loaded or counted as skipped. *)
Theorem running_daemon_ready (e : DaemonStartEnv) (c : DaemonCli) (r : RunningDaemon) (Hrun : daemon_begin e c = Runs r) :
  NoDup (dm_probes (rd_daemon r)).*1 ∧ Forall fresh_probe (dm_probes (rd_daemon r)) ∧ dm_probes (rd_daemon r) ≠ []
  ∧ rd_daemon r = daemon_start (shared (rd_watcher r)) (ds_pid_faults e) (ds_offsets e) (dm_probes (rd_daemon r))
  ∧ rd_loaded r = Z.of_nat (length (dm_probes (rd_daemon r))) ∧ rd_loaded r + rd_skipped r = 9
  ∧ (channel (rd_watcher r) = if active (shared (rd_watcher r)) then [shared (rd_watcher r)] else []).
Proof.
  unfold DaemonStart.daemon_begin in Hrun. destruct (dc_build_info_json c); [done|].
  destruct (match dc_config c with Some _ => _ | None => _ end) as [config|]; [|done].
  destruct (load_all _ _ _ _ _) as [[probes skipped]|] eqn:El; [|done].
  apply loaded_exactly in El as (_ & _ & _ & Hp & Hs & _). destruct (candidates_fresh (ds_cpus e)) as (Hnd & Hfresh & Hlen).
  rewrite Hlen in Hs. destruct probes as [|p ps]; [done|]. destruct (ds_watches e); [|done]. destruct (de_api_key _) as [key|]; [|done].
  destruct (shipper_new _ _ _ _); [|done]. destruct (ds_interval e _); [|done]. destruct (ds_signals e); [|done].
  injection Hrun as <-. cbn [rd_daemon rd_watcher rd_loaded rd_skipped dm_probes daemon_start]. subst skipped.
  split_and!; [..|done|done|done|cbn [length]; lia|done].
  - rewrite Hp. by apply NoDup_fst_filter.
  - rewrite Hp. apply Forall_forall. intros x Hx. apply list_elem_of_In, List.filter_In in Hx as [Hx _].
    rewrite Forall_forall in Hfresh. apply Hfresh. by apply list_elem_of_In.
Qed.
End start.

#[local] Existing Instance ascii_unicode.
#[local] Existing Instance example_parsers.

(** A kernel with every tracepoint but not the symbols of the probes on
    functions. *)
Definition daemon_machine : Machine := {|
  read_bytes p :=
    if String.eqb p "/proc/sys/kernel/osrelease" then Some ("6.11.0" +:+ str1 nl)
    else if String.eqb p "/etc/hostname" then Some ("Deck" +:+ str1 nl)
    else if String.eqb p "/etc/rigsignal.toml" then Some "toml" else None;
  read_link _ := None; list_dir _ := None; path_exists _ := true; path_is_dir _ := false; canonicalize _ := None; var _ := None;
|}.
Definition daemon_toml (key : option string) : json :=
  object [("elasticsearch", object ([("endpoint", JString "https://es.example:9200//")]
                                    ++ match key with Some k => [("api_key", JString k)] | None => [] end))].
Definition daemon_env : DaemonStartEnv := {|
  ds_is_root := true; ds_loads_file _ := Ok (); ds_attach _ := Ok (); ds_cpus := None; ds_offsets := None;
  ds_look := {| file_exists := false; file_content := None;
                proc_now := {| proc_entries := None; task_entries _ := None; children_of _ _ := None; environ_of _ := None |} |};
  ds_watches := Ok (); ds_pid_faults := no_pid_faults; ds_read_pem _ := None; ds_interval s := 0 <? s; ds_signals := Ok ();
|}.
Definition daemon_cli : DaemonCli := {| dc_config := Some "/etc/rigsignal.toml"; dc_probe_path := None; dc_log := "info"; dc_build_info_json := false |}.
Definition demo_begin (key : option string) : DaemonBegins :=
  daemon_begin (λ _, None) daemon_machine (λ _, Some (daemon_toml key)) ["/opt/rigsignal/bin/rigsignal-ebpf"; "/opt/rigsignal/bin"] true daemon_env daemon_cli.
(** Without a key the start fails, after the probes have been attached. *)
Example begins :
  match demo_begin (Some "k") with Runs r => Some (rd_loaded r, rd_skipped r, rd_bulk_url r) | _ => None end
  = Some (5, 4, "https://es.example:9200/_bulk")
  ∧ match demo_begin None with StartFails e => e | _ => EmptyString end = MISSING_KEY.
Proof. split; vm_compute; reflexivity. Qed.
Lemma running_daemon_ready_witness :
  ∃ r, demo_begin (Some "k") = Runs r ∧ NoDup (dm_probes (rd_daemon r)).*1.
Proof.
  assert (Hr : match demo_begin (Some "k") with Runs _ => true | _ => false end = true) by (vm_compute; reflexivity).
  destruct (demo_begin (Some "k")) as [| | | |r] eqn:E; [discriminate Hr..|]. exists r. split; [reflexivity|].
  exact (proj1 (running_daemon_ready _ _ _ _ _ _ _ r E)).
Defined.
