(* ===== verification/AgentLoop.v ===== *)
(** * The main loop of the agent ([src/main.rs])

    [run] from the start of the session on: the tick with its session event, its
    documents and accumulators, and the shutdown.  A tick gives the new state
    and, in order, what it sets off; the session file is on a file system with
    faults.  What collectors measure, whether a summary could be written, and
    the clocks are arguments of a tick. *)
From Stdlib Require Import Ascii.
From S2P Require Import Prelude Float64 EsModel Json FileSystem GameScan Session Profiles Summary Config.

(** ** Effects *)

Inductive DocKind := SessionStart | GameDetected | SessionSummary.
Inductive Action :=
(** every collector's [set_game_pid] *)
| SetGamePid (pid : option Z)
(** [write_output] of one of the documents of the session *)
| Write (kind : DocKind) (doc : json)
| TransformSync
(** the tailer's poll, with the session it sees *)
| PollTailer (s : SessionManager)
(** the documents of a tick, spawned or spooled *)
| ShipTick (docs : list json)
| RotateStaleFiles
| FinalizeSpool.

Definition is_spool (m : OutputMode) : bool := match m with Spool => true | Elasticsearch => false end.

(** ** Configuration and state *)

Record AgentConfig := {
  ac_mode : OutputMode;
  ac_host_snapshot : json;
  ac_hostname : string;
  ac_base_settings : option json;
  ac_pinned : option Target;
  ac_tailer : bool;
}.

(** [run]'s variables; instants are nanoseconds. *)
Record Agent := {
  ag_session : SessionManager;
  ag_tick : Z;
  ag_session_tick : Z;
  ag_session_start : Z;
  ag_acc : SessionAccumulators;
  ag_last_game : option Target;
}.

(** What one tick meets: its time stamp, that of its event's document, the
    monotonic clock when a summary is made and after it was written, the poll of the session, whether a pinned process is alive,
    the processes and profiles, whether the summary could be written, and what
    each collector gives under its dataset. *)
Record TickEnv := {
  te_ts : string;
  te_event_ts : string;
  te_clock : Z;
  te_restart : Z;
  te_poll : PollEnv;
  te_alive : bool;
  te_machine : Machine;
  te_summary_written : bool;
  te_payloads : list (string * result (option json) string);
}.
(** The same at the shutdown. *)
Record ShutdownEnv := { se_ts : string; se_clock : Z; se_faults : Faults; se_summary_written : bool }.

Definition with_overlay (s : SessionManager) (overlay : option json) : SessionManager :=
  {| session_id := session_id s; current_game := current_game s; label := label s; label_is_manual := label_is_manual s;
     label_source := label_source s; sequence_number := sequence_number s; settings_overlay := overlay;
     session_json_path := session_json_path s; last_scan := last_scan s; last_no_game_log := last_no_game_log s |}.

Definition NANOS : Z := 1000000000.
(** [session_start.elapsed().as_secs()]. *)
Definition elapsed_secs (clock start : Z) : Z := elapsed clock start / NANOS.
Definition STREAM_CLIENT : string := "rigsignal.stream_client".

Section agent.
Context `{Unicode} (agent_version : string) (to_string : json → result string string).
Context (toml_profile : string → option GameProfile) (exe_dir : option string).
Context (cfg : AgentConfig).

(** ** Start *)

Definition start_doc (now : string) (s : SessionManager) : json :=
  build_session_start_doc agent_version now s (ac_host_snapshot cfg) (ac_hostname cfg).
Definition start (now : string) (clock : Z) (s : SessionManager) : Agent * list Action :=
  ({| ag_session := s; ag_tick := 0; ag_session_tick := 0; ag_session_start := clock; ag_acc := new_accumulators; ag_last_game := None |},
   [Write SessionStart (start_doc now s)]).

(** ** Session events *)

(** The settings of a game that starts: a profile below what the user set, and
    below both what is seen in the process. *)
Definition game_settings (m : Machine) (s : SessionManager) (t : Target) : SessionManager :=
  let s :=
    match find_profile m toml_profile exe_dir t with
    | Some profile =>
        let profile_ov := to_overlay profile in
        if is_null profile_ov then s
        else with_overlay s (Some (deep_merge profile_ov (unwrap_or (ac_base_settings cfg) (JObject []))))
    | None => s
    end in
  let maps_ov := settings_overlay_from_maps m (t_pid t) in
  if is_null maps_ov then s
  else with_overlay s (Some (deep_merge maps_ov (unwrap_or (settings_overlay s) (JObject [])))).

Definition on_game_started (te : TickEnv) (a : Agent) (s : SessionManager) (t : Target) : Agent * list Action :=
  let s := game_settings (te_machine te) s t in
  let game_doc := build_game_detected_doc agent_version (te_event_ts te) s (ac_host_snapshot cfg) (ac_hostname cfg) t in
  ({| ag_session := s; ag_tick := ag_tick a; ag_session_tick := ag_session_tick a; ag_session_start := ag_session_start a;
      ag_acc := ag_acc a; ag_last_game := Some t |},
   [SetGamePid (Some (t_pid t)); Write GameDetected game_doc]).

Definition summary_doc (now : string) (clock : Z) (a : Agent) (s : SessionManager) (last_game : option Target) : json :=
  build_summary_doc agent_version now s (ac_host_snapshot cfg) (ac_hostname cfg)
    (elapsed_secs clock (ag_session_start a)) (ag_acc a) last_game.
(** The write, and the synchronisation behind one that went through. *)
Definition write_summary (doc : json) (written : bool) : list Action :=
  Write SessionSummary doc :: (if written && negb (is_spool (ac_mode cfg)) then [TransformSync] else []).

Definition on_game_ended (te : TickEnv) (a : Agent) (s : SessionManager) (t : Target) : Agent * list Action :=
  ({| ag_session := with_overlay s (ac_base_settings cfg); ag_tick := ag_tick a; ag_session_tick := 0;
      ag_session_start := te_restart te; ag_acc := new_accumulators; ag_last_game := Some t |},
   SetGamePid None
   :: (if 0 <? ag_session_tick a then
         write_summary (summary_doc (te_event_ts te) (te_clock te) a s (Some t)) (te_summary_written te)
       else [])).

Definition with_session (a : Agent) (s : SessionManager) : Agent :=
  {| ag_session := s; ag_tick := ag_tick a; ag_session_tick := ag_session_tick a; ag_session_start := ag_session_start a;
     ag_acc := ag_acc a; ag_last_game := ag_last_game a |}.
Definition on_event (te : TickEnv) (a : Agent) (s : SessionManager) (ev : SessionEvent) : Agent * list Action :=
  match ev with
  | GameStarted t => on_game_started te a s t
  | GameEnded t => on_game_ended te a s t
  | NoChange => (with_session a s, [])
  end.

(** ** Documents of a tick *)

Definition tick_doc (ts : string) (s : SessionManager) (dataset : string) (payload : json) : json :=
  let base := if String.eqb dataset STREAM_CLIENT then stream_client_base_doc agent_version s (ac_hostname cfg)
              else base_doc agent_version s (ac_hostname cfg) in
  add_data_stream (deep_merge (stamped ts base) payload) dataset.
(** Collectors that have nothing to say, or fail, give no document. *)
Definition tick_docs (ts : string) (s : SessionManager) (payloads : list (string * result (option json) string)) : list json :=
  filter_map (λ p, match snd p with Ok (Some payload) => Some (tick_doc ts s (fst p) payload) | _ => None end) payloads.

(** ** The tick *)

Definition poll_event (te : TickEnv) (s : SessionManager) : IO (SessionManager * SessionEvent) :=
  match ac_pinned cfg with
  | Some pinned => ret (poll_pinned_target (te_alive te) pinned s)
  | None => poll to_string (te_poll te) s
  end.

Definition counted (a : Agent) : Agent :=
  {| ag_session := ag_session a; ag_tick := add_u64 (ag_tick a) 1; ag_session_tick := add_u64 (ag_session_tick a) 1;
     ag_session_start := ag_session_start a; ag_acc := ag_acc a; ag_last_game := ag_last_game a |}.
(** What follows the event. *)
Definition measure (te : TickEnv) (a : Agent) : Agent * list Action :=
  let docs := tick_docs (te_ts te) (ag_session a) (te_payloads te) in
  ({| ag_session := ag_session a; ag_tick := ag_tick a; ag_session_tick := ag_session_tick a;
      ag_session_start := ag_session_start a; ag_acc := update (ag_acc a) docs; ag_last_game := ag_last_game a |},
   (if ac_tailer cfg then [PollTailer (ag_session a)] else [])
   ++ (match docs with [] => [] | _ => [ShipTick docs] end)
   ++ (if is_spool (ac_mode cfg) then [RotateStaleFiles] else [])).

Definition agent_tick (te : TickEnv) (a : Agent) : IO (Agent * list Action) :=
  let a := counted a in
  let* (s, ev) := poll_event te (ag_session a) in
  let (a, acts) := on_event te a s ev in
  let (a, more) := measure te a in
  ret (a, acts ++ more).

Fixpoint agent_ticks (tes : list TickEnv) (a : Agent) : IO (Agent * list Action) :=
  match tes with
  | [] => ret (a, [])
  | te :: rest =>
      let* (a, acts) := agent_tick te a in
      let* (a, more) := agent_ticks rest a in
      ret (a, acts ++ more)
  end.

(** ** Shutdown *)

Definition shutdown_actions (e : ShutdownEnv) (a : Agent) : list Action :=
  (if 0 <? ag_session_tick a then
     write_summary (summary_doc (se_ts e) (se_clock e) a (ag_session a) (ag_last_game a)) (se_summary_written e)
   else [])
  ++ (if is_spool (ac_mode cfg) then [FinalizeSpool] else []).
Definition shutdown (e : ShutdownEnv) (a : Agent) : IO (list Action) :=
  let* _ := remove_session_json (se_faults e) (ag_session a) in
  ret (shutdown_actions e a).

(** The loop until the signal, between start and shutdown. *)
Definition run (now : string) (clock : Z) (s : SessionManager) (tes : list TickEnv) (e : ShutdownEnv) : IO (list Action) :=
  let (a, first) := start now clock s in
  let* (a, acts) := agent_ticks tes a in
  let* last := shutdown e a in
  ret (first ++ acts ++ last).
End agent.
