(* ===== verification/AgentLoopSpec.v ===== *)
(** * What the main loop guarantees ([src/main.rs])

    Every document of a tick is counted in exactly one summary, the settings of
    a game come from where they should, and the telemetry of a remote client
    carries nothing of an idle session. *)
From Stdlib Require Import Ascii Floats.SpecFloat.
From S2P Require Import Prelude Float64 EsModel Json FileSystem GameScan Session Profiles Summary SummarySpec Config AgentLoop.

(** ** Accounting *)

(** The accumulators as what is written shows them: a summary starts them anew. *)
Definition account (acc : SessionAccumulators) (act : Action) : SessionAccumulators :=
  match act with Write SessionSummary _ => new_accumulators | ShipTick docs => update acc docs | _ => acc end.
Definition replay : list Action → SessionAccumulators → SessionAccumulators := fold_left account.
(** How many ticks' documents are in no summary yet. *)
Definition pending_step (n : nat) (act : Action) : nat :=
  match act with Write SessionSummary _ => 0%nat | ShipTick _ => S n | _ => n end.
Definition pending : list Action → nat → nat := fold_left pending_step.

(** A summary that shows the numbers of the accumulators. *)
Definition summary_of (acc : SessionAccumulators) (doc : json) : Prop :=
  ∃ seconds, ∀ k v, json_get k (object (summary_members seconds acc)) = Some v → json_path ["rigsignal"; "summary"; k] doc = Some v.
(** Every summary among the actions is that of what has come since the one
    before it. *)
Definition summaries_ok (acc : SessionAccumulators) (acts : list Action) : Prop :=
  ∀ pre doc post, acts = pre ++ Write SessionSummary doc :: post → summary_of (replay pre acc) doc.

Lemma replay_app l l' acc : replay (l ++ l') acc = replay l' (replay l acc).
Proof. apply fold_left_app. Qed.
Lemma pending_app l l' n : pending (l ++ l') n = pending l' (pending l n).
Proof. apply fold_left_app. Qed.
Lemma summaries_ok_nil acc : summaries_ok acc [].
Proof. by intros [|] ? ?. Qed.
Lemma summaries_ok_app acc l l' : summaries_ok acc l → summaries_ok (replay l acc) l' → summaries_ok acc (l ++ l').
Proof.
  intros H1 H2 pre doc post Heq. apply app_eq_inv in Heq as [(k & -> & Hk)|(k & -> & Hk)].
  - destruct k as [|x k]; cbn [app] in Hk.
    + subst l'. rewrite app_nil_r in *. by apply (H2 [] doc post).
    + injection Hk as <- ->. by apply (H1 pre doc k).
  - rewrite replay_app. by apply (H2 k doc post).
Qed.
Lemma summaries_ok_other acc act : (∀ doc, act ≠ Write SessionSummary doc) → summaries_ok acc [act].
Proof. intros Ha [|x pre] doc post Heq; [|by destruct pre]. injection Heq as Heq _. by destruct (Ha doc). Qed.

Lemma update_nil acc : update acc [] = acc.
Proof. done. Qed.

Section agent.
Context `{Unicode} (agent_version : string) (to_string : json → result string string).
Context (toml_profile : string → option GameProfile) (exe_dir : option string).
Context (cfg : AgentConfig).

Definition clean (overlay : option json) : Prop := match overlay with Some o => about_settings o | None => True end.
Context (Hbase : clean (ac_base_settings cfg)).

Local Abbreviation game_settings := (game_settings toml_profile exe_dir cfg).
Local Abbreviation agent_tick := (agent_tick agent_version to_string toml_profile exe_dir cfg).
Local Abbreviation agent_ticks := (agent_ticks agent_version to_string toml_profile exe_dir cfg).
Local Abbreviation on_event := (on_event agent_version toml_profile exe_dir cfg).
Local Abbreviation measure := (measure agent_version cfg).

Lemma clean_or_empty overlay : clean overlay → about_settings (unwrap_or overlay (JObject [])).
Proof. destruct overlay; [done|intros _; apply about_settings_empty]. Qed.

Lemma is_null_JNull v : is_null v = true ↔ v = JNull.
Proof. by destruct v. Qed.

Lemma game_settings_clean m s t : clean (settings_overlay s) → clean (settings_overlay (game_settings m s t)).
Proof.
  intros Hs. unfold AgentLoop.game_settings. set (s1 := match find_profile _ _ _ _ with Some _ => _ | None => _ end).
  assert (H1 : clean (settings_overlay s1)).
  { unfold s1. destruct (find_profile _ _ _ _) as [p|]; [|done]. cbv zeta. destruct (is_null (to_overlay p)) eqn:E; [done|].
    destruct (to_overlay_about p) as [Hn|Hp]; [by rewrite Hn in E|]. by apply about_settings_merge, clean_or_empty. }
  clearbody s1. cbv zeta. destruct (is_null _) eqn:E; [done|].
  destruct (maps_overlay_about (read_mapped_paths m (t_pid t))) as [Hn|Hp].
  - unfold settings_overlay_from_maps in E. by rewrite Hn in E.
  - by apply about_settings_merge, clean_or_empty.
Qed.
Lemma game_settings_game m s t : current_game (game_settings m s t) = current_game s.
Proof.
  unfold AgentLoop.game_settings. cbv zeta. destruct (find_profile _ _ _ _) as [p|]; [destruct (is_null (to_overlay p))|];
    destruct (is_null (settings_overlay_from_maps _ _)); done.
Qed.

(** ** One tick *)

(** The settings are settings, and the user's while no game is on. *)
Record settled (s : SessionManager) : Prop := {
  st_clean : clean (settings_overlay s);
  st_idle : current_game s = None → settings_overlay s = ac_base_settings cfg;
}.
(** An event goes with the game it leaves. *)
Definition event_fits (s : SessionManager) (s' : SessionManager) (ev : SessionEvent) : Prop :=
  settings_overlay s' = settings_overlay s
  ∧ match ev with
    | GameStarted _ => is_Some (current_game s')
    | GameEnded _ => current_game s' = None
    | NoChange => current_game s' = None → current_game s = None
    end.

Lemma poll_event_fits te s fs :
  ∃ s' ev fs', exec (poll_event to_string cfg te s) fs = (Ok (s', ev), fs') ∧ event_fits s s' ev.
Proof.
  unfold poll_event. destruct (ac_pinned cfg) as [t|].
  - unfold poll_pinned_target. destruct (te_alive te), (current_game s) eqn:E; eexists _, _, _; (split; [apply exec_ret|]); split; try done;
      cbn; by rewrite ?E.
  - destruct (poll_polled to_string (te_poll te) s fs) as (s' & ev & fs' & Hr & [Hs He Hl]).
    exists s', ev, fs'. split; [done|]. split; [by destruct Hs as (_ & _ & _ & ? & _)|].
    destruct (He (current_game s)) as (open & Ho & Hg); [by destruct (current_game s); [apply same_target_refl|]|].
    unfold observe_event in Ho. destruct ev as [|t|t].
    + destruct (current_game s); injection Ho as <-; [|done]. by destruct (current_game s').
    + destruct (current_game s) as [old|]; [destruct (same_target old t); [done|]|]; injection Ho as <-; by destruct (current_game s').
    + destruct (current_game s) as [old|]; [|done]. destruct (same_target old t); [|done]. injection Ho as <-. by destruct (current_game s').
Qed.

(** What a step leaves: settings, accumulators, summaries, and how many ticks
    wait for a summary. *)
Record stepped (a a' : Agent) (acts : list Action) (ticks lo hi : Z) : Prop := {
  sp_settled : settled (ag_session a');
  sp_acc : ag_acc a' = replay acts (ag_acc a);
  sp_summaries : summaries_ok (ag_acc a) acts;
  sp_ticks : 0 ≤ ag_session_tick a' ≤ ag_session_tick a + ticks;
  sp_pending n : Z.of_nat n ≤ ag_session_tick a + lo → Z.of_nat (pending acts n) ≤ ag_session_tick a' + hi;
}.

Lemma stepped_trans a1 a2 a3 l l' m n lo mid hi :
  stepped a1 a2 l m lo mid → stepped a2 a3 l' n mid hi → stepped a1 a3 (l ++ l') (m + n) lo hi.
Proof.
  intros [S1 A1 O1 T1 P1] [S2 A2 O2 T2 P2]. split.
  - done.
  - by rewrite replay_app, <-A1.
  - apply summaries_ok_app; [done|]. by rewrite <-A1.
  - lia.
  - intros k Hk. rewrite pending_app. by apply P2, P1.
Qed.

Lemma summary_doc_shows now clock a s last : clean (settings_overlay s) →
  summary_of (ag_acc a) (summary_doc agent_version cfg now clock a s last).
Proof. intros Hs. eexists. intros k v Hk. by apply summary_shows. Qed.
Lemma write_summary_ok acc doc written : summary_of acc doc →
  summaries_ok acc (write_summary cfg doc written) ∧ replay (write_summary cfg doc written) acc = new_accumulators
  ∧ ∀ n, pending (write_summary cfg doc written) n = 0%nat.
Proof.
  intros Hd. assert (H1 : summaries_ok acc [Write SessionSummary doc])
    by (intros [|x pre] d post Heq; [by injection Heq as -> _|by destruct pre]).
  unfold write_summary. destruct (_ && _); [|done]. split_and!; [|done..].
  apply (summaries_ok_app acc [Write SessionSummary doc] [TransformSync]); [done|]. by apply summaries_ok_other.
Qed.

Lemma on_event_stepped te a s ev : settled (ag_session a) → event_fits (ag_session a) s ev → 0 < ag_session_tick a →
  let (a', acts) := on_event te a s ev in stepped a a' acts 0 0 0.
Proof.
  intros [Hc Hi] [Hov Hev] Ht. assert (Hcs : clean (settings_overlay s)) by by rewrite Hov. unfold AgentLoop.on_event. destruct ev as [|t|t].
  - split; cbn; [split; [done|by intros Hn; rewrite Hov; auto]|done|apply summaries_ok_nil|lia|done].
  - unfold on_game_started. split; cbn [ag_session ag_acc ag_session_tick].
    + split; [by apply game_settings_clean|]. rewrite game_settings_game. intros Hn. rewrite Hn in Hev. by destruct Hev.
    + done.
    + change [?x; ?y] with ([x] ++ [y]). by apply summaries_ok_app; apply summaries_ok_other.
    + lia.
    + done.
  - unfold on_game_ended. rewrite (proj2 (Z.ltb_lt 0 _) Ht). set (doc := summary_doc _ _ _ _ _ _ _).
    destruct (write_summary_ok (ag_acc a) doc (te_summary_written te)) as (Ho & Hr & Hp); [by apply summary_doc_shows|].
    split; cbn [ag_session ag_acc ag_session_tick].
    + split; [exact Hbase|done].
    + rewrite <-Hr. done.
    + change (?x :: ?l) with ([x] ++ l). apply summaries_ok_app; [by apply summaries_ok_other|exact Ho].
    + lia.
    + intros n _. change (?x :: ?l) with ([x] ++ l). rewrite pending_app, Hp. lia.
Qed.

Lemma measure_stepped te a : settled (ag_session a) → 0 ≤ ag_session_tick a →
  let (a', acts) := measure te a in stepped a a' acts 0 0 1.
Proof.
  intros Hs Ht. unfold AgentLoop.measure. set (docs := tick_docs _ _ _ _ _).
  set (l1 := if ac_tailer cfg then _ else _). set (l2 := match docs with [] => _ | _ => _ end). set (l3 := if is_spool _ then _ else _).
  assert (H1 : summaries_ok (ag_acc a) l1 ∧ replay l1 (ag_acc a) = ag_acc a ∧ ∀ n, pending l1 n = n).
  { unfold l1. destruct (ac_tailer cfg); split_and!; try done; [by apply summaries_ok_other|apply summaries_ok_nil]. }
  assert (H2 : summaries_ok (ag_acc a) l2 ∧ replay l2 (ag_acc a) = update (ag_acc a) docs ∧ ∀ n, (pending l2 n ≤ S n)%nat).
  { unfold l2. destruct docs; split_and!; try done; [apply summaries_ok_nil|intros n; cbn; lia|by apply summaries_ok_other]. }
  assert (H3 : ∀ acc, summaries_ok acc l3 ∧ replay l3 acc = acc ∧ ∀ n, pending l3 n = n).
  { intros acc. unfold l3. destruct (is_spool _); split_and!; try done; [by apply summaries_ok_other|apply summaries_ok_nil]. }
  destruct H1 as (O1 & R1 & P1), H2 as (O2 & R2 & P2). destruct (H3 (update (ag_acc a) docs)) as (O3 & R3 & P3).
  split; cbn [ag_session ag_acc ag_session_tick]; [done|by rewrite !replay_app, R1, R2, R3| |lia|].
  - apply summaries_ok_app; [done|]. rewrite R1. apply summaries_ok_app; [done|]. by rewrite R2.
  - intros n Hn. rewrite !pending_app, P1, P3. specialize (P2 n). lia.
Qed.

Lemma counted_ticks a : 0 ≤ ag_session_tick a < u64_max → ag_session_tick (counted a) = ag_session_tick a + 1.
Proof. intros Ht. unfold counted, add_u64, wrap. cbn [ag_session_tick]. apply Z.mod_small. unfold u64_max in Ht. lia. Qed.

Lemma agent_tick_stepped te a fs : settled (ag_session a) → 0 ≤ ag_session_tick a < u64_max →
  ∃ a' acts fs', exec (agent_tick te a) fs = (Ok (a', acts), fs') ∧ stepped a a' acts 1 1 1.
Proof.
  intros Hs Ht. unfold AgentLoop.agent_tick. pose proof (counted_ticks a Ht) as Hn.
  assert (Hs1 : settled (ag_session (counted a))) by done. change (ag_acc a) with (ag_acc (counted a)).
  assert (Ha : ag_acc (counted a) = ag_acc a) by done. generalize dependent (counted a). intros a1 Hn Hs1 Ha.
  destruct (poll_event_fits te (ag_session a1) fs) as (s & ev & fs' & Hr & Hf).
  rewrite exec_bind, Hr. pose proof (on_event_stepped te a1 s ev Hs1 Hf) as H2.
  destruct (on_event te a1 s ev) as [a2 acts2]. specialize (H2 ltac:(lia)).
  pose proof (measure_stepped te a2 (sp_settled _ _ _ _ _ _ H2)) as H3. destruct (measure te a2) as [a3 acts3].
  specialize (H3 ltac:(destruct H2; lia)). rewrite exec_ret. eexists _, _, _. split; [done|].
  destruct (stepped_trans _ _ _ _ _ _ _ _ _ _ H2 H3) as [S A O T P]. rewrite Ha in *.
  split; [done..|lia|]. intros n Hle. apply P. lia.
Qed.

Lemma agent_ticks_stepped tes a fs : settled (ag_session a) → 0 ≤ ag_session_tick a →
  ag_session_tick a + Z.of_nat (length tes) ≤ u64_max →
  ∃ a' acts fs', exec (agent_ticks tes a) fs = (Ok (a', acts), fs') ∧ stepped a a' acts (Z.of_nat (length tes)) 1 1.
Proof.
  revert a fs. induction tes as [|te tes IH]; intros a fs Hs Ht Hm.
  - eexists _, _, _. split; [apply exec_ret|]. split; [done|done|apply summaries_ok_nil|cbn; lia|done].
  - cbn [AgentLoop.agent_ticks length] in *. destruct (agent_tick_stepped te a fs) as (a1 & acts1 & fs1 & R1 & H1); [done|lia|].
    rewrite exec_bind, R1. destruct (IH a1 fs1) as (a2 & acts2 & fs2 & R2 & H2); [by destruct H1|destruct H1; lia..|].
    rewrite exec_bind, R2, exec_ret. eexists _, _, _. split; [done|].
    replace (Z.of_nat (S (length tes))) with (1 + Z.of_nat (length tes)) by lia. by eapply stepped_trans.
Qed.

(** ** The run *)

Lemma remove_session_json_ok f s fs : ∃ fs', exec (remove_session_json f s) fs = (Ok tt, fs').
Proof. unfold remove_session_json. rewrite exec_bind, exec_catch. eexists. by rewrite exec_ret. Qed.

Lemma shutdown_ok e a : settled (ag_session a) →
  summaries_ok (ag_acc a) (shutdown_actions agent_version cfg e a)
  ∧ ∀ n, Z.of_nat n ≤ ag_session_tick a + 1 → (pending (shutdown_actions agent_version cfg e a) n ≤ 1)%nat.
Proof.
  intros [Hc _]. unfold shutdown_actions.
  assert (Hf : ∀ acc, summaries_ok acc (if is_spool (ac_mode cfg) then [FinalizeSpool] else [])
                    ∧ ∀ n, pending (if is_spool (ac_mode cfg) then [FinalizeSpool] else []) n = n).
  { intros acc. destruct (is_spool _); split; try done; [by apply summaries_ok_other|apply summaries_ok_nil]. }
  destruct (Z.ltb_spec 0 (ag_session_tick a)).
  - set (doc := summary_doc _ _ _ _ _ _ _).
    destruct (write_summary_ok (ag_acc a) doc (se_summary_written e)) as (Ho & Hr & Hp); [by apply summary_doc_shows|].
    split; [apply summaries_ok_app; [done|apply Hf]|]. intros n _. rewrite pending_app, Hp, (proj2 (Hf new_accumulators)). lia.
  - split; [apply summaries_ok_app; [apply summaries_ok_nil|apply Hf]|].
    intros n Hn. rewrite pending_app, (proj2 (Hf new_accumulators)). cbn. lia.
Qed.

Lemma start_settled now clock s : settings_overlay s = ac_base_settings cfg →
  settled (ag_session (fst (start agent_version cfg now clock s))).
Proof. intros Hs. split; cbn [start fst ag_session]; rewrite Hs; [exact Hbase|done]. Qed.
End agent.

Lemma resolve_settings_clean cli conf : clean (resolve_settings cli conf).
Proof.
  unfold resolve_settings. destruct (match fl_upscaler cli with Some _ => _ | None => _ end) as [tech preset].
  destruct (build_settings_overlay _ _ _ _ _ _ _ _) eqn:E; [by eapply build_settings_about|done].
Qed.


(** ** Settings *)

(** The first of the layers that says anything about a path, and what it says. *)
Inductive decided (p : list string) (v : json) : list json → Prop :=
| decided_here o rest : json_path p o = Some v → decided p v (o :: rest)
| decided_below o rest : silent p o → decided p v rest → decided p v (o :: rest).
Definition layer (o : option json) : json := unwrap_or o (JObject []).
Definition nonnull (v : json) : option json := if is_null v then None else Some v.

Definition lay (below overlay : option json) : option json :=
  match below with Some o => Some (deep_merge o (layer overlay)) | None => overlay end.

Lemma decided_lay p v b o rest : about_settings (layer b) → is_object v = false →
  decided p v (layer b :: layer o :: rest) → decided p v (layer (lay o b) :: rest).
Proof.
  intros Hb Hv Hd. pose proof (well_ordered_unique _ (as_ordered _ Hb)) as Hu. destruct o as [o|]; cbn [lay layer unwrap_or].
  - change (unwrap_or (Some ?x) _) with x in *. inversion Hd as [? ? Hp|? ? Hs Hr]; subst.
    + apply decided_here. by apply merge_overlay_wins.
    + inversion Hr as [? ? Hp|? ? Hs' Hr']; subst.
      * apply decided_here. by rewrite merge_base_kept.
      * apply decided_below; [by apply silent_merge|done].
  - inversion Hd as [? ? Hp|? ? Hs Hr]; subst; [by apply decided_here|].
    inversion Hr as [? ? Hp|? ? Hs' Hr']; subst; [|by apply decided_below].
    exfalso. destruct p; [|done]. injection Hp as <-. done.
Qed.

Section settings.
Context `{Unicode} (agent_version : string) (to_string : json → result string string).
Context (toml_profile : string → option GameProfile) (exe_dir : option string) (cfg : AgentConfig).

(** What the profile of a game says, and what its process shows. *)
Definition profile_layer (m : Machine) (t : Target) : option json :=
  and_then (find_profile m toml_profile exe_dir t) (λ p, nonnull (to_overlay p)).
Definition maps_layer (m : Machine) (t : Target) : option json := nonnull (settings_overlay_from_maps m (t_pid t)).

Lemma game_settings_lay m s t : settings_overlay s = ac_base_settings cfg →
  settings_overlay (game_settings toml_profile exe_dir cfg m s t) = lay (maps_layer m t) (lay (profile_layer m t) (ac_base_settings cfg)).
Proof.
  intros Hs. unfold game_settings, maps_layer, profile_layer, nonnull. cbv zeta.
  destruct (find_profile _ _ _ _) as [p|]; cbn [and_then]; [destruct (is_null (to_overlay p))|];
    destruct (is_null (settings_overlay_from_maps _ _)); cbn [with_overlay settings_overlay lay]; by rewrite ?Hs.
Qed.

Lemma lay_clean o b : match o with Some o => about_settings o | None => True end → clean b → clean (lay o b).
Proof. destruct o; [|done]. intros Ho Hb. by apply about_settings_merge, clean_or_empty. Qed.
Lemma profile_layer_clean m t : clean (profile_layer m t).
Proof.
  unfold profile_layer. destruct (find_profile _ _ _ _) as [p|]; [|done]. cbn [and_then]. unfold nonnull.
  destruct (is_null (to_overlay p)) eqn:E; [done|]. destruct (to_overlay_about p) as [Hn|]; [by rewrite Hn in E|done].
Qed.
Lemma game_settings_decided m s t p v : clean (ac_base_settings cfg) → settings_overlay s = ac_base_settings cfg → is_object v = false →
  decided p v [layer (ac_base_settings cfg); layer (profile_layer m t); layer (maps_layer m t)] →
  json_path p (layer (settings_overlay (game_settings toml_profile exe_dir cfg m s t))) = Some v.
Proof.
  intros Hb Hs Hv Hd. rewrite game_settings_lay by done.
  apply decided_lay in Hd; [|by apply clean_or_empty|done].
  apply decided_lay in Hd; [|apply clean_or_empty, lay_clean; [apply profile_layer_clean|done]|done].
  inversion Hd as [? ? Hp|? ? ? Hr]; [done|inversion Hr].
Qed.

Lemma with_settings_decided s doc p v : clean (settings_overlay s) → is_object v = false →
  json_path p (layer (settings_overlay s)) = Some v → json_path p (with_settings s doc) = Some v.
Proof.
  unfold with_settings. destruct (settings_overlay s) as [o|]; intros Hs Hv Hp.
  - apply merge_overlay_wins; [apply well_ordered_unique, Hs|done..].
  - destruct p; [injection Hp as <-; done|done].
Qed.
End settings.

(** C15: The settings of a game: from any reachable state with no game on, the
    tick on which a game is found writes a document, and keeps a state, in which
    every setting has the value the first of these gives it: the user's command
    line and configuration, the profile of the game, and what the game's process
    has mapped; nothing of a game played before is left. *)
Theorem settings_precedence `{Unicode} agent_version to_string toml_profile exe_dir cfg cli conf now clock s tes te fs fs1 fs2 a acts s' t p v :
  ac_base_settings cfg = resolve_settings cli conf →
  settings_overlay s = ac_base_settings cfg →
  Z.of_nat (length tes) < u64_max →
  exec (agent_ticks agent_version to_string toml_profile exe_dir cfg tes (fst (start agent_version cfg now clock s))) fs = (Ok (a, acts), fs1) →
  current_game (ag_session a) = None →
  exec (poll_event to_string cfg te (ag_session a)) fs1 = (Ok (s', GameStarted t), fs2) →
  is_object v = false →
  decided ("rigsignal" :: p) v
    [layer (ac_base_settings cfg); layer (profile_layer toml_profile exe_dir (te_machine te) t); layer (maps_layer (te_machine te) t)] →
  ∃ a' more doc, exec (agent_tick agent_version to_string toml_profile exe_dir cfg te a) fs1 = (Ok (a', more), fs2)
    ∧ Write GameDetected doc ∈ more
    ∧ json_path ("rigsignal" :: p) doc = Some v
    ∧ json_path ("rigsignal" :: p) (layer (settings_overlay (ag_session a'))) = Some v.
Proof.
  intros Hb Hs Hn Hrun Hidle Hpoll Hv Hd.
  assert (Hbase : clean (ac_base_settings cfg)) by by (rewrite Hb; apply resolve_settings_clean).
  destruct (agent_ticks_stepped agent_version to_string toml_profile exe_dir cfg Hbase tes
    (fst (start agent_version cfg now clock s)) fs) as (a0 & acts0 & fs0 & R & [[Hc Hi] _ _ _ _]);
    [by apply start_settled|cbn; lia..|].
  rewrite Hrun in R. injection R as <- <- <-.
  destruct (poll_event_fits to_string cfg te (ag_session a) fs1) as (s1 & ev & fs3 & R & [Hov _]).
  rewrite Hpoll in R. injection R as <- <- <-.
  assert (Hov' : settings_overlay s' = ac_base_settings cfg) by by rewrite Hov, Hi.
  pose proof (game_settings_decided toml_profile exe_dir cfg (te_machine te) s' t _ v Hbase Hov' Hv Hd) as Hg.
  unfold agent_tick. rewrite exec_bind. change (ag_session (counted a)) with (ag_session a). rewrite Hpoll.
  cbn [on_event on_game_started]. unfold measure. cbv zeta. rewrite exec_ret. eexists _, _, _. split; [done|]. split_and!; [right; left| |exact Hg].
  unfold build_game_detected_doc. rewrite json_path_data_stream by done. apply with_settings_decided; [|done|exact Hg].
  apply game_settings_clean; [done|]. by rewrite Hov'.
Qed.

(** ** A remote client *)

Lemma merge_from_overlay k p b o : unique_names (JObject o) → map_get k b = None →
  json_path (k :: p) (deep_merge (JObject b) (JObject o)) = json_path (k :: p) (JObject o).
Proof.
  intros Hu Hk. rewrite deep_merge_objects. cbn [json_path json_get]. rewrite map_get_merge by apply Hu.
  destruct (map_get k o) as [v|]; [by unfold merged; rewrite Hk|by rewrite Hk].
Qed.

(** The base of a stream client's document, without a game and with one. *)
Lemma stream_base_idle `{Unicode} agent_version ts s hostname : current_game s = None →
  ∃ b, stamped ts (stream_client_base_doc agent_version s hostname) = JObject b ∧ map_get "rigsignal" b = None.
Proof. unfold stream_client_base_doc, stamped. intros ->. cbn [when_some]. eexists. split; reflexivity. Qed.
Lemma stream_base_game `{Unicode} agent_version ts s hostname t : current_game s = Some t →
  json_path ["rigsignal"; "session"; "id"] (stamped ts (stream_client_base_doc agent_version s hostname)) = Some (JString (session_id s)).
Proof. unfold stream_client_base_doc, stamped. intros ->. cbn [when_some]. reflexivity. Qed.
Lemma base_doc_ordered `{Unicode} agent_version s hostname : well_ordered (base_doc agent_version s hostname).
Proof.
  assert (Hu : ∀ n, well_ordered (json_u64 n)) by done.
  assert (Ht : ∀ t, well_ordered (JObject (target_to_game_doc t))) by (intros t; apply object_well_ordered; eauto 20 with docs).
  unfold base_doc. cbv zeta. eauto 30 with docs.
Qed.
Lemma base_doc_session `{Unicode} agent_version ts s hostname :
  json_path ["rigsignal"; "session"; "id"] (stamped ts (base_doc agent_version s hostname)) = Some (JString (session_id s)).
Proof.
  apply merge_overlay_wins; [apply well_ordered_unique, base_doc_ordered| |done].
  unfold base_doc. destruct (label s), (sequence_number s), (current_game s); reflexivity.
Qed.

(** The telemetry of a remote client carries nothing of an idle session:
    while no game is on, all a stream client's document says under [rigsignal]
    is what its collector says; the documents of the other collectors, and with
    a game on this one too, name the session, unless the payload does. *)
Theorem stream_client_isolated `{Unicode} agent_version cfg ts s dataset payload :
  unique_names payload →
  (dataset = STREAM_CLIENT ∧ current_game s = None →
     ∀ p, json_path ("rigsignal" :: p) (tick_doc agent_version cfg ts s dataset payload) = json_path ("rigsignal" :: p) payload)
  ∧ (dataset ≠ STREAM_CLIENT ∨ is_Some (current_game s) →
     silent ["rigsignal"; "session"; "id"] payload →
     json_path ["rigsignal"; "session"; "id"] (tick_doc agent_version cfg ts s dataset payload) = Some (JString (session_id s))).
Proof.
  intros Hu. unfold tick_doc. cbv zeta. split.
  - intros [-> Hg] p. rewrite String.eqb_refl, json_path_data_stream by done.
    destruct (stream_base_idle agent_version ts s (ac_hostname cfg) Hg) as (b & -> & Hb).
    destruct payload as [| | | | |o]; try (by rewrite deep_merge_other). by apply merge_from_overlay.
  - intros Hd Hs. rewrite json_path_data_stream, merge_base_kept by done.
    destruct (String.eqb_spec dataset STREAM_CLIENT) as [->|]; [|apply base_doc_session].
    destruct Hd as [|[t Ht]]; [done|]. by apply (stream_base_game _ _ _ _ t).
Qed.

(** ** Examples *)

(** A machine with the profile of app 570, whose process has DLSS mapped. *)
Definition loop_machine : Machine := {|
  read_bytes p :=
    if String.eqb p "/proc/12/maps" then Some "7f00-7f01 r-xp 0 08:01 9  /games/dota/nvngx_dlss.dll"
    else if String.eqb p "/etc/rigsignal/profiles/dota.toml" then Some "dota" else None;
  read_link _ := None;
  list_dir p := if String.eqb p "/etc/rigsignal/profiles" then Some ["dota.toml"] else None;
  path_exists _ := false; path_is_dir _ := false; canonicalize _ := None;
  var v := if String.eqb v "HOME" then Some "/home/p" else None |}.
Definition dota_settings : ProfileSettings := {|
  ps_preset := Some "high"; ps_upscaler_tech := None; ps_upscaler_preset := None; ps_frame_gen_tech := None;
  ps_features_active := None; ps_render_resolution_output := None; ps_render_vsync := Some "off"; ps_notes := None |}.
Definition dota_profile (text : string) : option GameProfile :=
  if String.eqb text "dota" then
    Some {| gp_game := {| gm_name := "Dota 2"; gm_steam_app_id := Some 570; gm_aliases := [] |}; gp_settings := dota_settings |}
  else None.
Definition no_flags : SettingsFlags := {|
  fl_preset := Some "ultra"; fl_upscaler := None; fl_frame_gen := None; fl_features := None; fl_resolution := None;
  fl_vsync := None; fl_notes := None |}.
Definition no_settings : SettingsConfig := {|
  cf_preset := Some "low"; cf_upscaler_tech := None; cf_upscaler_preset := None; cf_frame_gen_tech := None;
  cf_features_active := None; cf_render_resolution_output := None; cf_render_vsync := None; cf_notes := None |}.
Definition loop_config (pinned : option Target) : AgentConfig := {|
  ac_mode := Elasticsearch; ac_host_snapshot := object []; ac_hostname := "rig";
  ac_base_settings := resolve_settings no_flags no_settings; ac_pinned := pinned; ac_tailer := false |}.
Definition loop_session : SessionManager := new_with_label_and_settings "id" "t" None (resolve_settings no_flags no_settings).
Definition fps_payload (avg : Z) : json :=
  object [("rigsignal", object [("fps", object [("avg_1s", json_f64 (f64_of_Z avg))])])].
Definition loop_tick (sec : Z) (alive : bool) (found : option Target) (fps : Z) : TickEnv := {|
  te_ts := "ts"; te_event_ts := "ets"; te_clock := sec * NANOS; te_restart := sec * NANOS;
  te_poll := demo_poll (sec * NANOS) found; te_alive := alive; te_machine := loop_machine; te_summary_written := true;
  te_payloads := [("rigsignal.fps", Ok (Some (fps_payload fps)))] |}.
Definition loop_end (sec : Z) : ShutdownEnv := {| se_ts := "end"; se_clock := sec * NANOS; se_faults := ce_faults demo_counter_env; se_summary_written := true |}.
Definition loop_run (pinned : option Target) (tes : list TickEnv) (e : ShutdownEnv) (fs : FS) : option (list Action) :=
  match fst (exec (@run ascii_unicode "1.0" demo_pid_text dota_profile None (loop_config pinned) "now" 0 loop_session tes e) fs) with
  | Ok acts => Some acts | Err _ => None end.
Definition summaries (acts : list Action) : list json :=
  filter_map (λ act, match act with Write SessionSummary doc => Some doc | _ => None end) acts.
Definition summary_view (doc : json) : option json * option json * option json * option json :=
  (json_path ["rigsignal"; "game"; "name"] doc, json_path ["rigsignal"; "summary"; "duration_s"] doc,
   json_path ["rigsignal"; "summary"; "fps_coverage_s"] doc, json_path ["rigsignal"; "settings"; "render"; "vsync"] doc).

(** A game of two seconds after one of idling: its summary counts the idle
    second too. *)
Definition one_game : list TickEnv := [loop_tick 1 false None 30; loop_tick 2 true None 60; loop_tick 3 true None 62; loop_tick 4 false None 10].
Lemma idle_start_counted :
  (λ acts, summary_view <$> summaries acts) <$> loop_run (Some demo_target) one_game (loop_end 5) demo_session_fs
  = Some [(Some (JString "Dota 2"), Some (JNumber (PosInt 4)), Some (JNumber (PosInt 3)), Some (JString "off"))].
Proof. vm_compute. reflexivity. Qed.

(** The time without a game after one has ended comes, at the shutdown, as a
    second session of that game. *)
Lemma idle_end_named :
  (λ acts, summary_view <$> summaries acts)
    <$> loop_run (Some demo_target) (one_game ++ [loop_tick 600 false None 11]) (loop_end 601) demo_session_fs
  = Some [(Some (JString "Dota 2"), Some (JNumber (PosInt 4)), Some (JNumber (PosInt 3)), Some (JString "off"));
          (Some (JString "Dota 2"), Some (JNumber (PosInt 597)), Some (JNumber (PosInt 2)), None)].
Proof. vm_compute. reflexivity. Qed.

(** From one game straight to another there is one summary, named after the
    second, with the frames and the profile's settings of the first. *)
Lemma switch_mixes_games :
  (λ acts, summary_view <$> summaries acts)
    <$> loop_run None [loop_tick 1 true (Some demo_target) 60; loop_tick 7 true (Some demo_other) 30] (loop_end 8) demo_session_fs
  = Some [(Some (JString "Portal"), Some (JNumber (PosInt 8)), Some (JNumber (PosInt 2)), Some (JString "off"))].
Proof. vm_compute. reflexivity. Qed.


(** The user's preset over the profile's, the profile's vsync, the upscaler of
    the process. *)
Lemma settings_precedence_witness :
  ∃ a' more doc,
    exec (@agent_tick ascii_unicode "1.0" demo_pid_text dota_profile None (loop_config (Some demo_target)) (loop_tick 2 true None 60)
      (fst (@start ascii_unicode "1.0" (loop_config (Some demo_target)) "now" 0 loop_session))) demo_session_fs = (Ok (a', more), demo_session_fs)
    ∧ Write GameDetected doc ∈ more
    ∧ json_path ["rigsignal"; "settings"; "render"; "vsync"] doc = Some (JString "off")
    ∧ json_path ["rigsignal"; "settings"; "render"; "vsync"] (layer (settings_overlay (ag_session a'))) = Some (JString "off").
Proof.
  apply (@settings_precedence ascii_unicode "1.0" demo_pid_text dota_profile None (loop_config (Some demo_target)) no_flags no_settings
    "now" 0 loop_session [] (loop_tick 2 true None 60) demo_session_fs demo_session_fs demo_session_fs
    (fst (@start ascii_unicode "1.0" (loop_config (Some demo_target)) "now" 0 loop_session)) []
    (with_game loop_session (Some demo_target)) demo_target ["settings"; "render"; "vsync"] (JString "off"));
    try reflexivity.
  apply decided_below; [exact I|]. apply decided_here. vm_compute. reflexivity.
Defined.

Lemma stream_client_isolated_witness :
  json_path ["rigsignal"] (@tick_doc ascii_unicode "1.0" (loop_config None) "ts" loop_session STREAM_CLIENT (fps_payload 60))
    = json_path ["rigsignal"] (fps_payload 60)
  ∧ json_path ["rigsignal"; "session"; "id"] (@tick_doc ascii_unicode "1.0" (loop_config None) "ts" loop_session "rigsignal.fps" (fps_payload 60))
    = Some (JString "id").
Proof.
  assert (Hu : unique_names (fps_payload 60)) by (apply well_ordered_unique; repeat constructor).
  destruct (@stream_client_isolated ascii_unicode "1.0" (loop_config None) "ts" loop_session STREAM_CLIENT (fps_payload 60) Hu) as [Hidle _].
  destruct (@stream_client_isolated ascii_unicode "1.0" (loop_config None) "ts" loop_session "rigsignal.fps" (fps_payload 60) Hu) as [_ Hother].
  split; [apply Hidle; by split|apply Hother; [by left|exact I]].
Defined.
