(* ===== verification/Collectors.v ===== *)
(** * The collectors together ([src/collectors/mod.rs], [build_collectors] and [dry_run] of [src/main.rs])

    The nine collectors of a Linux agent, a tick of all of them in their order,
    and the dry run.  The outer [option] is a panic of one of them. *)
From Stdlib Require Import Ascii Floats.SpecFloat.
From S2P Require Import Prelude Float64 EsModel Json FileSystem GameScan Session Summary.
From S2P Require Import StreamClient StreamClientSpec MangoHud Gamescope GamescopeSpec Counters CountersSpec Sensors Command Audio SensorsSpec Host AgentLoop.

Record Collectors := {
  cs_cpu : CpuCollector;
  cs_memory : MemoryCollector;
  cs_storage : StorageCollector;
  cs_network : NetworkCollector;
  cs_power : PowerCollector;
  cs_audio : AudioCollector;
  cs_frame : FrameCollector;
  cs_gpu : GpuAmdCollector;
  cs_stream_client : StreamClientCollector;
}.
(** [build_collectors(None)], on the machine [m]. *)
Definition build_collectors (m : Machine) : Collectors := {|
  cs_cpu := new_cpu None;
  cs_memory := {| mem_game_pid := None |};
  cs_storage := new_storage m;
  cs_network := new_network;
  cs_power := new_power m;
  cs_audio := new_audio;
  cs_frame := with_runtime_dir (mango_new m None) (runtime_dir m);
  cs_gpu := new_gpu m None;
  cs_stream_client := new_collector;
|}.

(** [dataset] of each, in the order of the vector. *)
Definition DATASETS : list string :=
  ["rigsignal.cpu"; "rigsignal.memory"; "rigsignal.storage"; "rigsignal.network"; "rigsignal.power"; "rigsignal.audio";
   "rigsignal.frame"; "rigsignal.gpu"; STREAM_CLIENT].

(** A tick: what is seen of the machine, 50 ms later too, the instants of the
    two rates, what the system says if the counters cannot be read, the audio commands, the steps of the frame reader before its
    collector, and what the frame and stream collectors see. *)
Record CollectEnv := {
  ce_machine : Machine;
  ce_later : Machine;
  ce_storage_at : Z;
  ce_network_at : Z;
  ce_stat_error : string;
  ce_audio : AudioEnv;
  ce_reader : list ReaderEnv;
  ce_frame : FrameEnv;
  ce_stream_client : SampleEnv;
}.
Abbreviation Payload := (string * result (option json) string)%type.

(** [set_game_pid] of each: the others take no notice. *)
Definition set_game_pid (e : FrameEnv) (environ : option string) (pid : option Z) (cs : Collectors) : Collectors := {|
  cs_cpu := {| cpu_prev := cpu_prev (cs_cpu cs); cpu_game_pid := pid |};
  cs_memory := {| mem_game_pid := pid |};
  cs_storage := cs_storage cs; cs_network := cs_network cs; cs_power := cs_power cs; cs_audio := cs_audio cs;
  cs_frame := frame_set_game_pid e environ pid (cs_frame cs);
  cs_gpu := {| gpu_game_pid := pid; card_path := card_path (cs_gpu cs); hwmon_path := hwmon_path (cs_gpu cs);
               drm_path := drm_path (cs_gpu cs); undiscovered_ticks := undiscovered_ticks (cs_gpu cs) |};
  cs_stream_client := cs_stream_client cs;
|}.

Section collect.
Context `{Unicode}.

Definition frame_tick (readers : list ReaderEnv) (e : FrameEnv) (w : FrameCollector) : option json * FrameCollector :=
  frame_collect e (foldl (λ w r, reader_step r w) w readers).

(** Every collector once. *)
Definition collect_all (e : CollectEnv) (cs : Collectors) : option (Collectors * list Payload) :=
  let (cpu, cpu_doc) := collect_cpu (ce_machine e, ce_later e) (cs_cpu cs) in
  let! (storage, storage_doc) := collect_storage (ce_storage_at e, ce_machine e) (cs_storage cs) in
  let! (network, network_doc) := collect_network (ce_network_at e, ce_machine e) (cs_network cs) in
  let! (audio, audio_doc) := collect_audio (ce_audio e) (cs_audio cs) in
  let (frame_doc, frame) := frame_tick (ce_reader e) (ce_frame e) (cs_frame cs) in
  let (gpu, gpu_doc) := collect_gpu (ce_machine e) (cs_gpu cs) in
  let (stream_doc, stream) := StreamClient.collect (ce_stream_client e) (cs_stream_client cs) in
  Some
    ({| cs_cpu := cpu; cs_memory := cs_memory cs; cs_storage := storage; cs_network := network; cs_power := cs_power cs;
        cs_audio := audio; cs_frame := frame; cs_gpu := gpu; cs_stream_client := stream |},
     zip DATASETS
       [map_err (λ _, ce_stat_error e) cpu_doc; Ok (Some (collect_memory (ce_machine e) (cs_memory cs))); Ok storage_doc; Ok network_doc;
        Ok (collect_power (ce_machine e) (cs_power cs)); Ok (Some audio_doc); Ok frame_doc; Ok gpu_doc; Ok stream_doc]).

Fixpoint collect_run (es : list CollectEnv) (cs : Collectors) : option (list (list Payload)) :=
  match es with
  | [] => Some []
  | e :: es => let! (cs', row) := collect_all e cs in let! rows := collect_run es cs' in Some (row :: rows)
  end.

(** The samples of the second round, up to the first error. *)
Fixpoint print_samples (to_string_pretty : json → result string string) (row : list Payload) : list string * result unit string :=
  match row with
  | [] => ([], Ok ())
  | (dataset, Ok None) :: row =>
      let (log, r) := print_samples to_string_pretty row in ((dataset +:+ ": no data this tick") :: log, r)
  | (dataset, Ok (Some doc)) :: row =>
      match to_string_pretty doc with
      | Ok text =>
          let (log, r) := print_samples to_string_pretty row in
          ((dataset +:+ " sample:" +:+ str1 nl +:+ text) :: log, r)
      | Err e => ([], Err e)
      end
  | (_, Err e) :: _ => ([], Err e)
  end.
(** [dry_run]: the log and the result; [first] and [second] are the two
    rounds. *)
Definition dry_run (to_string_pretty : json → result string string) (m : Machine) (cmds : Commands) (first second : CollectEnv)
  : option (list string * result unit string) :=
  let start := "dry-run mode — validating collectors" in
  match to_string_pretty (collect_snapshot m cmds) with
  | Err e => Some ([start], Err e)
  | Ok snapshot =>
      let loaded := "Loaded " +:+ show (Z.of_nat (length DATASETS)) +:+ " collectors" in
      let! (cs, _) := collect_all first (build_collectors m) in
      let log := [start; "Host snapshot:" +:+ str1 nl +:+ snapshot; loaded] in
      (* the first collector is the only one that can fail *)
      match snd (collect_cpu (ce_machine second, ce_later second) (cs_cpu cs)) with
      | Err _ => Some (log, Err (ce_stat_error second))
      | Ok _ =>
          let! (_, row) := collect_all second cs in
          let (samples, r) := print_samples to_string_pretty row in
          let finish := match r with
                        | Ok _ => ["dry-run complete — " +:+ show (Z.of_nat (length DATASETS)) +:+ " collectors exercised"]
                        | Err _ => []
                        end in
          Some (log ++ samples ++ finish, r)
      end
  end.
End collect.

(** ** The run of all is the runs of each *)

Section separate.
Context `{Unicode}.

(** The runs of the collectors that have no other theorem about their runs. *)
Fixpoint audio_run (es : list AudioEnv) (s : AudioCollector) : option (list json) :=
  match es with
  | [] => Some []
  | e :: es => let! (s', doc) := collect_audio e s in let! docs := audio_run es s' in Some (doc :: docs)
  end.
Fixpoint frame_run (es : list (list ReaderEnv * FrameEnv)) (w : FrameCollector) : list (option json) :=
  match es with
  | [] => []
  | e :: es => let (doc, w') := frame_tick (fst e) (snd e) w in doc :: frame_run es w'
  end.

(** The row of a tick from the answers of each collector. *)
Definition row_of (e : CollectEnv) (memory : MemoryCollector) (power : PowerCollector)
    (cpu storage network : result (option json) unit) (audio : json) (frame gpu stream : option json) : list Payload :=
  zip DATASETS
    [map_err (λ _, ce_stat_error e) cpu; Ok (Some (collect_memory (ce_machine e) memory)); map_err (λ _, EmptyString) storage;
     map_err (λ _, EmptyString) network; Ok (collect_power (ce_machine e) power); Ok (Some audio); Ok frame; Ok gpu; Ok stream].

Definition cpu_envs (es : list CollectEnv) : list (Machine * Machine) := (λ e, (ce_machine e, ce_later e)) <$> es.
Definition storage_envs (es : list CollectEnv) : list (Z * Machine) := (λ e, (ce_storage_at e, ce_machine e)) <$> es.
Definition network_envs (es : list CollectEnv) : list (Z * Machine) := (λ e, (ce_network_at e, ce_machine e)) <$> es.

(** One tick: each collector makes its own step. *)
Lemma collect_all_steps device e cs pc ps pn audio' a :
  dc_shows (Differencing := cpu_differencing) pc (cs_cpu cs) →
  dc_shows (Differencing := storage_differencing device) ps (cs_storage cs) →
  dc_shows (Differencing := network_differencing) pn (cs_network cs) →
  collect_audio (ce_audio e) (cs_audio cs) = Some (audio', a) →
  ∃ cs' cpu storage network pc' ps' pn',
    let frame := frame_tick (ce_reader e) (ce_frame e) (cs_frame cs) in
    let gpu := collect_gpu (ce_machine e) (cs_gpu cs) in
    let stream := StreamClient.collect (ce_stream_client e) (cs_stream_client cs) in
    collect_all e cs = Some (cs', row_of e (cs_memory cs) (cs_power cs) cpu storage network a (fst frame) (snd gpu) (fst stream))
    ∧ (dc_shows (Differencing := cpu_differencing) pc' (cs_cpu cs')
       ∧ ∀ es, differences (H := cpu_differencing) pc ((ce_machine e, ce_later e) :: es) = cpu :: differences pc' es)
    ∧ (dc_shows (Differencing := storage_differencing device) ps' (cs_storage cs')
       ∧ ∀ es, differences (H := storage_differencing device) ps ((ce_storage_at e, ce_machine e) :: es)
               = storage :: differences (H := storage_differencing device) ps' es)
    ∧ (dc_shows (Differencing := network_differencing) pn' (cs_network cs')
       ∧ ∀ es, differences (H := network_differencing) pn ((ce_network_at e, ce_machine e) :: es)
               = network :: differences (H := network_differencing) pn' es)
    ∧ cs_memory cs' = cs_memory cs ∧ cs_power cs' = cs_power cs ∧ cs_audio cs' = audio'
    ∧ cs_frame cs' = snd frame ∧ cs_gpu cs' = fst gpu ∧ cs_stream_client cs' = snd stream.
Proof.
  intros Hc Hs Hn Ha.
  destruct (differences_step (H := cpu_differencing) (ce_machine e, ce_later e) _ _ Hc) as (c' & cpu & pc' & Ec & Hc' & Dc).
  destruct (differences_step (H := storage_differencing device) (ce_storage_at e, ce_machine e) _ _ Hs) as (s' & st & ps' & Es & Hs' & Ds).
  destruct (differences_step (H := network_differencing) (ce_network_at e, ce_machine e) _ _ Hn) as (n' & nt & pn' & En & Hn' & Dn).
  cbn [dc_step cpu_differencing storage_differencing network_differencing] in Ec, Es, En.
  destruct (collect_storage _ _) as [[s1 d1]|] eqn:Es1; [|done]. destruct (collect_network _ _) as [[n1 d2]|] eqn:En1; [|done].
  cbn in Es, En. injection Ec as Ec. injection Es as <- <-. injection En as <- <-.
  unfold collect_all. rewrite Ec, Es1, En1, Ha.
  destruct (frame_tick _ _ _) as [fd f'], (collect_gpu _ _) as [g' gd], (StreamClient.collect _ _) as [sd s2].
  eexists _, cpu, (Ok d1), (Ok d2), pc', ps', pn'. cbn [fst snd]. split; [reflexivity|].
  split; [by split|]. split; [by split|]. by split; [split|].
Qed.

Lemma collect_run_rows device es : ∀ cs pc ps pn audio,
  dc_shows (Differencing := cpu_differencing) pc (cs_cpu cs) →
  dc_shows (Differencing := storage_differencing device) ps (cs_storage cs) →
  dc_shows (Differencing := network_differencing) pn (cs_network cs) →
  audio_run (ce_audio <$> es) (cs_audio cs) = Some audio →
  ∃ rows, collect_run es cs = Some rows ∧ length rows = length es
    ∧ ∀ i e, es !! i = Some e → ∃ cpu storage network a frame gpu stream,
        rows !! i = Some (row_of e (cs_memory cs) (cs_power cs) cpu storage network a frame gpu stream)
        ∧ differences (H := cpu_differencing) pc (cpu_envs es) !! i = Some cpu
        ∧ differences (H := storage_differencing device) ps (storage_envs es) !! i = Some storage
        ∧ differences (H := network_differencing) pn (network_envs es) !! i = Some network
        ∧ audio !! i = Some a
        ∧ frame_run ((λ e, (ce_reader e, ce_frame e)) <$> es) (cs_frame cs) !! i = Some frame
        ∧ gpu_run (ce_machine <$> es) (cs_gpu cs) !! i = Some gpu
        ∧ fst (StreamClient.collects (ce_stream_client <$> es) (cs_stream_client cs)) !! i = Some stream.
Proof.
  induction es as [|e es IH]; intros cs pc ps pn audio Hc Hs Hn Ha; [by exists []|].
  cbn [fmap list_fmap audio_run] in Ha. destruct (collect_audio _ _) as [[audio' a]|] eqn:Ea; [|done].
  destruct (audio_run _ audio') as [docs|] eqn:Er; [|done]. injection Ha as <-.
  destruct (collect_all_steps device e cs pc ps pn audio' a Hc Hs Hn Ea)
    as (cs' & cpu & st & nt & pc' & ps' & pn' & Eall & (Hc' & Dc) & (Hs' & Ds) & (Hn' & Dn) & Em & Ep & Eau & Ef & Eg & Ecl).
  destruct (IH cs' pc' ps' pn' docs Hc' Hs' Hn' ltac:(by rewrite Eau)) as (rows & Erun & Hlen & Hrows).
  cbn [collect_run]. rewrite Eall, Erun. eexists. split; [reflexivity|]. split; [by cbn; rewrite Hlen|].
  rewrite Em, Ep, Ef, Eg, Ecl in Hrows.
  cbn [cpu_envs storage_envs network_envs fmap list_fmap frame_run gpu_run StreamClient.collects fst snd].
  unfold cpu_envs, storage_envs, network_envs in *. cbn [fmap list_fmap]. rewrite Dc, Ds, Dn.
  destruct (frame_tick _ _ _) as [fd f'], (collect_gpu _ _) as [g' gd], (StreamClient.collect _ _) as [sd s2]. cbn [fst snd] in *.
  destruct (StreamClient.collects _ s2) as [sds s3]. cbn [fst] in *.
  intros [|i] e' Hi; simplify_eq/=; [by eexists _, _, _, _, _, _, _|]. by apply Hrows.
Qed.

End separate.

#[local] Existing Instance ascii_unicode.

(** Two ticks a second apart on a machine with one processor, no commands and
    no game. *)
Definition demo_host (idle : string) : Machine := {|
  read_bytes p := if String.eqb p "/proc/stat" then Some ("cpu0 100 0 0 " +:+ idle +:+ " 0") else None;
  read_link _ := None; list_dir _ := None; path_exists _ := false; path_is_dir _ := false; canonicalize _ := None; var _ := None;
|}.
Definition demo_tick (sec : Z) (idle : string) : CollectEnv := {|
  ce_machine := demo_host idle; ce_later := demo_host idle; ce_storage_at := sec * 10 ^ 9; ce_network_at := sec * 10 ^ 9;
  ce_stat_error := "No such file or directory (os error 2)";
  ce_audio := {| ae_cmds := λ _ _, None; ae_settings_at := 0; ae_settings_done := 0; ae_sink_at := 0; ae_sink_done := 0 |};
  ce_reader := []; ce_frame := frame_env 0 no_view EmptyString; ce_stream_client := stream_sample sec "0" "0";
|}.
Definition demo_ticks : list CollectEnv := [demo_tick 1 "300"; demo_tick 2 "400"].
(** The second tick: processor, memory, backend and client, and no rates without
    interfaces and devices. *)
Example second_row :
  (λ rows, (λ p, match snd p with Ok (Some _) => fst p | _ => EmptyString end) <$> unwrap_or (last rows) [])
    <$> collect_run demo_ticks (build_collectors (demo_host "0"))
  = Some ["rigsignal.cpu"; "rigsignal.memory"; ""; ""; ""; "rigsignal.audio"; ""; ""; STREAM_CLIENT].
Proof. vm_compute. reflexivity. Qed.
