(* ===== verification/PresentMon.v ===== *)
(** * PresentMon frame times ([src/collectors/windows/frame.rs])

    The Windows frame collector: a thread reads the CSV of a PresentMon process
    and sends frame times through a bounded channel, which the collector empties
    on every tick into a ring.  Thread and collector are interleaved steps; what
    the process prints is an argument of its start. *)
From Stdlib Require Import Ascii Floats.SpecFloat.
From S2P Require Import Prelude Float64 EsModel Json FileSystem GameScan Summary MangoHud Counters.

Definition RING_CAP : nat := 120.
Definition CHANNEL_CAP : nat := 256.
Definition COL_MS_BETWEEN_PRESENTS : string := "MsBetweenPresents".

(** ** Discovery *)

(** [is_file]; the directory of the agent's own executable; and the answer of
    [where]: whether it succeeded, and what it printed. *)
Definition find_presentmon (env_path : option string) (is_file : string → bool) (join : string → string → string)
    (exe_dir : option string) (where_output : option (bool * string)) : option string :=
  let from_where :=
    let! (success, stdout) := where_output in
    if negb success then None
    else let! line := head (lines (from_utf8_lossy stdout)) in
         let first := trim line in if is_empty first then None else Some first in
  let beside := let! dir := exe_dir in
                let candidate := join dir "PresentMon.exe" in if is_file candidate then Some candidate else None in
  or_else (let! p := env_path in if is_file p then Some p else None) (or_else beside from_where).

(** ** The reader thread *)

(** The frame time of a row, within the bounds of what is plausible. *)
Definition frame_time (col_idx : nat) (line : string) : option f64 :=
  let trimmed := trim_end line in
  if is_empty trimmed then None
  else
    let! raw := split_char "," trimmed !! col_idx in
    let! v := parse_f64 (trim raw) in
    if f64_lt f64_zero v && f64_le v thousand then Some v else None.
Definition header_column (header : string) : option nat :=
  position (λ c, String.eqb (trim c) COL_MS_BETWEEN_PRESENTS) (split_char "," (trim_end header)).
(** All the values the thread sends for what the process prints: a line that is
    not UTF-8 ends it. *)
Definition reader_values (stdout : string) : list f64 :=
  match split_inclusive stdout with
  | [] => []
  | header :: rows =>
      if negb (is_utf8 header) then []
      else match header_column header with
           | None => []
           | Some col_idx => filter_map (frame_time col_idx) (take_while is_utf8 rows)
           end
  end.

(** ** State *)

(** The values in the channel, those the thread has still to send, and whether
    the thread has ended. *)
Record FrameChannel := { ch_queue : list f64; ch_pending : list f64; ch_closed : bool }.
(** [batch] is [new_this_tick] while [next_sample] runs. *)
Record PresentMonCollector := {
  pm_path : option string;
  pm_missing_logged : bool;
  pm_rx : option FrameChannel;
  pm_ring : list f64;
  pm_game_pid : option Z;
  pm_batch : option (list f64);
}.
(** What starting the process gives. *)
Inductive Spawn := SpawnFailed | NoStdout | Spawned (stdout : string).

Definition pm_detach (w : PresentMonCollector) : PresentMonCollector :=
  {| pm_path := pm_path w; pm_missing_logged := pm_missing_logged w; pm_rx := None; pm_ring := [];
     pm_game_pid := pm_game_pid w; pm_batch := pm_batch w |}.
Definition pm_attach (spawn : Spawn) (w : PresentMonCollector) : PresentMonCollector :=
  let w := pm_detach w in
  match pm_path w with
  | None => {| pm_path := None; pm_missing_logged := true; pm_rx := None; pm_ring := []; pm_game_pid := pm_game_pid w; pm_batch := pm_batch w |}
  | Some path =>
      match spawn with
      | Spawned stdout =>
          {| pm_path := Some path; pm_missing_logged := pm_missing_logged w;
             pm_rx := Some {| ch_queue := []; ch_pending := reader_values stdout; ch_closed := false |};
             pm_ring := []; pm_game_pid := pm_game_pid w; pm_batch := pm_batch w |}
      | SpawnFailed | NoStdout => w
      end
  end.
Definition pm_with_pid (pid : option Z) (w : PresentMonCollector) : PresentMonCollector :=
  {| pm_path := pm_path w; pm_missing_logged := pm_missing_logged w; pm_rx := pm_rx w; pm_ring := pm_ring w;
     pm_game_pid := pid; pm_batch := pm_batch w |}.
Definition pm_set_game_pid (pid : option Z) (spawn : Spawn) (w : PresentMonCollector) : PresentMonCollector :=
  if bool_decide (pid = pm_game_pid w) then w
  else pm_with_pid pid
         match pm_game_pid w, pid with
         | _, Some _ => pm_attach spawn w
         | Some _, None => pm_detach w
         | None, None => w
         end.
Definition pm_new (path : option string) (game_pid : option Z) (spawn : Spawn) : PresentMonCollector :=
  let w := {| pm_path := path; pm_missing_logged := false; pm_rx := None; pm_ring := []; pm_game_pid := game_pid; pm_batch := None |} in
  match game_pid with Some _ => pm_attach spawn w | None => w end.

(** ** Statistics *)

Definition push_ring (ring : list f64) (v : f64) : list f64 := (if (length ring =? RING_CAP)%nat then tail ring else ring) ++ [v].

Definition mean (l : list f64) : f64 := f64_div (f64_sum l) (f64_of_Z (Z.of_nat (length l))).
Definition fps_of (ft : f64) : f64 := f64_div thousand ft.
Definition low_fps (ring : list f64) (pct : f64) : Z :=
  as_i64_cast (f64_round (mango_percentile (stable_sort f64_ascending (fps_of <$> ring)) pct)).
(** The document of a tick: [None] when nothing new has come. *)
Definition present_doc (ring batch : list f64) : option json :=
  match batch, last ring with
  | [], _ | _, None => None
  | _, Some last_ft =>
      let mean_ft := mean batch in
      let variance := f64_div (f64_sum ((λ x, squared (f64_sub x mean_ft)) <$> batch)) (f64_of_Z (Z.of_nat (length batch))) in
      Some (rigsignal_doc "fps"
        [("avg_1s", json_f64 (round_to 1 (fps_of (mean ring)))); ("current", json_i64 (as_i64_cast (f64_round (fps_of last_ft))));
         ("low_1pct", json_i64 (low_fps ring one_pct)); ("low_01pct", json_i64 (low_fps ring tenth_pct));
         ("frametime_ms", json_f64 (round_to 3 mean_ft)); ("frametime_variance", json_f64 (round_to 3 variance));
         ("stutter_count", json_i64 (stutters mean_ft batch))])
  end.

(** ** Steps *)

Inductive PmAction :=
| SetGamePid (pid : option Z) (spawn : Spawn)
| ReaderSends
| ReaderEnds
| Begin
| Receive
| Finish.

Definition with_rx (rx : option FrameChannel) (ring : list f64) (batch : option (list f64)) (w : PresentMonCollector) : PresentMonCollector :=
  {| pm_path := pm_path w; pm_missing_logged := pm_missing_logged w; pm_rx := rx; pm_ring := ring; pm_game_pid := pm_game_pid w; pm_batch := batch |}.

(** The thread: a send waits while the channel is full. *)
Definition reader_sends (c : FrameChannel) : option FrameChannel :=
  match ch_pending c with
  | v :: rest =>
      if (length (ch_queue c) <? CHANNEL_CAP)%nat
      then Some {| ch_queue := ch_queue c ++ [v]; ch_pending := rest; ch_closed := ch_closed c |} else None
  | [] => None
  end.
Definition reader_ends (c : FrameChannel) : option FrameChannel :=
  match ch_pending c with
  | [] => Some {| ch_queue := ch_queue c; ch_pending := []; ch_closed := true |}
  | _ => None
  end.

(** One step, [None] when it is not its turn; a finished [collect] gives what the
    tick received and its document. *)
Definition pm_step (a : PmAction) (w : PresentMonCollector) : option (PresentMonCollector * option (list f64 * option json)) :=
  match a, pm_batch w with
  | SetGamePid pid spawn, None => Some (pm_set_game_pid pid spawn w, None)
  | ReaderSends, batch => let! c := and_then (pm_rx w) reader_sends in Some (with_rx (Some c) (pm_ring w) batch w, None)
  | ReaderEnds, batch => let! c := and_then (pm_rx w) reader_ends in Some (with_rx (Some c) (pm_ring w) batch w, None)
  | Begin, None =>
      match pm_rx w with
      | None => Some (w, Some ([], None))
      | Some c => Some (with_rx (Some c) (pm_ring w) (Some []) w, None)
      end
  | Receive, Some batch =>
      let! c := pm_rx w in
      match ch_queue c with
      | v :: rest =>
          Some (with_rx (Some {| ch_queue := rest; ch_pending := ch_pending c; ch_closed := ch_closed c |})
                  (push_ring (pm_ring w) v) (Some (batch ++ [v])) w, None)
      | [] => None
      end
  | Finish, Some batch =>
      let! c := pm_rx w in
      match ch_queue c with
      | [] => Some (with_rx (if ch_closed c then None else Some c) (pm_ring w) None w, Some (batch, present_doc (pm_ring w) batch))
      | _ => None
      end
  | _, _ => None
  end.
Fixpoint pm_run (acts : list PmAction) (w : PresentMonCollector) : option (PresentMonCollector * list (list f64 * option json)) :=
  match acts with
  | [] => Some (w, [])
  | a :: acts =>
      let! (w1, out) := pm_step a w in
      let! (w2, outs) := pm_run acts w1 in
      Some (w2, match out with Some o => o :: outs | None => outs end)
  end.
