(* ===== verification/PresentMonSpec.v ===== *)
(** * What the Windows frame collector guarantees ([src/collectors/windows/frame.rs])

    Every frame time the process has printed is in exactly one tick, in order,
    and the ring is made of the last of them, under every interleaving of the
    reading thread with the collector. *)
From Stdlib Require Import Ascii Floats.SpecFloat.
From S2P Require Import Prelude Float64 EsModel Json FileSystem GameScan Summary MangoHud Counters PresentMon.

(** ** What is sent *)

Definition plausible (v : f64) : Prop := f64_lt f64_zero v = true ∧ f64_le v thousand = true.
Lemma frame_time_plausible col line v : frame_time col line = Some v → plausible v.
Proof.
  unfold frame_time. destruct (is_empty _); [done|]. destruct (_ !! col) as [raw|]; [|done]. destruct (parse_f64 _) as [x|]; [|done].
  destruct (f64_lt _ _ && f64_le _ _) eqn:E; [|done]. intros [= <-]. by apply andb_true_iff in E.
Qed.
Lemma reader_values_plausible stdout : Forall plausible (reader_values stdout).
Proof.
  unfold reader_values. destruct (split_inclusive stdout) as [|header rows]; [done|].
  destruct (negb _); [done|]. destruct (header_column header) as [col|]; [|done].
  apply Forall_forall. intros v (line & _ & Hv)%elem_of_filter_map. by eapply frame_time_plausible.
Qed.

(** ** The ring *)

(** The last values of a list, as many as the ring holds. *)
Definition newest (l : list f64) : list f64 := drop (length l - RING_CAP) l.

Lemma length_newest l : length (newest l) = Nat.min RING_CAP (length l).
Proof. unfold newest. rewrite length_drop. lia. Qed.
Lemma push_newest l v : push_ring (newest l) v = newest (l ++ [v]).
Proof.
  unfold push_ring. rewrite length_newest. unfold newest. rewrite length_app, drop_app. cbn [length].
  destruct (Nat.min RING_CAP (length l) =? RING_CAP)%nat eqn:E.
  - apply Nat.eqb_eq in E. replace (length l + 1 - RING_CAP)%nat with (S (length l - RING_CAP)) by lia.
    replace (S (length l - RING_CAP) - length l)%nat with 0%nat by (unfold RING_CAP in *; lia).
    replace (tail (drop (length l - RING_CAP) l)) with (drop 1 (drop (length l - RING_CAP) l)) by by destruct (drop _ l).
    rewrite drop_drop. by replace (length l - RING_CAP + 1)%nat with (S (length l - RING_CAP)) by lia.
  - apply Nat.eqb_neq in E. replace (length l + 1 - RING_CAP)%nat with 0%nat by lia.
    by replace (length l - RING_CAP)%nat with 0%nat by lia.
Qed.

(** ** Accounting *)

(** What the thread has still to hand over. *)
Definition undelivered (w : PresentMonCollector) : list f64 :=
  match pm_rx w with Some c => ch_queue c ++ ch_pending c | None => [] end.
Definition batch_so_far (w : PresentMonCollector) : list f64 := unwrap_or (pm_batch w) [].
(** After [received]: the ring is made of it, and a thread that has ended has
    nothing left to send. *)
Definition follows (received : list f64) (w : PresentMonCollector) : Prop :=
  pm_ring w = newest received ∧ (∀ c, pm_rx w = Some c → ch_closed c = true → ch_pending c = []) ∧ (pm_rx w = None → pm_batch w = None).

(** The documents of ticks with these batches, when [received] came before. *)
Fixpoint tick_documents (received : list f64) (batches : list (list f64)) : list (option json) :=
  match batches with
  | [] => []
  | b :: bs => present_doc (newest (received ++ b)) b :: tick_documents (received ++ b) bs
  end.

Definition within_session (a : PmAction) : bool := match a with SetGamePid _ _ => false | _ => true end.

Lemma reader_sends_spec c c' :
  reader_sends c = Some c' →
  ∃ v rest, ch_pending c = v :: rest ∧ (length (ch_queue c') ≤ CHANNEL_CAP)%nat
    ∧ c' = {| ch_queue := ch_queue c ++ [v]; ch_pending := rest; ch_closed := ch_closed c |}.
Proof.
  unfold reader_sends. destruct (ch_pending c) as [|v rest]; [done|].
  destruct (_ <? _)%nat eqn:E; [|done]. intros [= <-]. apply Nat.ltb_lt in E. exists v, rest. cbn. rewrite length_app. cbn. split_and!; [done|lia|done].
Qed.

(** One step of thread or collector: what was undelivered is what has come and
    what is left, and a finished tick shows the ring as it is. *)
Lemma session_step a w w' out received :
  within_session a = true → follows received w → pm_step a w = Some (w', out) →
  let tick := match out with Some o => [o] | None => [] end in
  ∃ got, follows (received ++ got) w' ∧ batch_so_far w ++ got = concat (fst <$> tick) ++ batch_so_far w'
    ∧ undelivered w = got ++ undelivered w'
    ∧ Forall (λ o, snd o = present_doc (newest (received ++ got)) (fst o) ∧ pm_batch w' = None) tick.
Proof.
  intros Ha (Hring & Hclosed & Hrx) Hstep. unfold undelivered, batch_so_far, follows.
  destruct a; [done|..]; cbn [pm_step] in Hstep.
  - destruct (pm_rx w) as [c|]; [|done]. cbn [and_then] in Hstep. destruct (reader_sends c) as [c'|] eqn:Er; [|done]. injection Hstep as <- <-.
    destruct (reader_sends_spec _ _ Er) as (v & rest & Ep & _ & ->). exists []. cbn. rewrite Ep, !app_nil_r, <- app_assoc.
    split_and!; try done. intros ? [= <-] Hc. cbn in Hc. by rewrite (Hclosed _ eq_refl Hc) in Ep.
  - destruct (pm_rx w) as [c|]; [|done]. cbn [and_then] in Hstep. unfold reader_ends in Hstep.
    destruct (ch_pending c) eqn:Ep; [|done]. injection Hstep as <- <-. exists []. cbn. rewrite !app_nil_r.
    split_and!; try done. by intros ? [= <-].
  - destruct (pm_batch w) as [b|] eqn:Eb; [done|]. destruct (pm_rx w) as [c|] eqn:Ec; injection Hstep as <- <-; exists []; cbn; rewrite !app_nil_r.
    + by split_and!.
    + rewrite ?Ec, ?Eb. split_and!; try done. by constructor.
  - destruct (pm_batch w) as [b|]; [|done]. destruct (pm_rx w) as [c|]; [|done]. cbn [and_then] in Hstep.
    destruct (ch_queue c) as [|v rest] eqn:Eq; [done|]. injection Hstep as <- <-. exists [v]. cbn. rewrite Hring, push_newest.
    split_and!; try done. intros ? [= <-]. by apply (Hclosed _ eq_refl).
  - destruct (pm_batch w) as [b|]; [|done]. destruct (pm_rx w) as [c|]; [|done]. cbn [and_then] in Hstep.
    destruct (ch_queue c) as [|v rest] eqn:Eq; [|done]. injection Hstep as <- <-. exists []. cbn. rewrite !app_nil_r, <- Hring.
    split_and!; try done.
    + destruct (ch_closed c); [done|]. intros ? [= <-]. by apply Hclosed.
    + destruct (ch_closed c) eqn:E; [by apply Hclosed|by rewrite Eq].
    + by repeat constructor.
Qed.

(** The same for a run that begins after [prior], in a tick or between two. *)
Lemma session_run acts : ∀ w w' outs prior,
  forallb within_session acts = true → follows (prior ++ batch_so_far w) w → pm_run acts w = Some (w', outs) →
  ∃ got, follows (prior ++ concat outs.*1 ++ batch_so_far w') w' ∧ batch_so_far w ++ got = concat outs.*1 ++ batch_so_far w'
    ∧ undelivered w = got ++ undelivered w' ∧ outs.*2 = tick_documents prior outs.*1.
Proof.
  induction acts as [|a acts IH]; intros w w' outs prior Ha Hf Hr; cbn [pm_run forallb] in *.
  - injection Hr as <- <-. exists []. by rewrite !app_nil_r.
  - apply andb_true_iff in Ha as [Ha Hacts]. destruct (pm_step a w) as [[w1 out]|] eqn:E1; [|done]. cbn [and_then] in Hr.
    destruct (pm_run acts w1) as [[w2 outs2]|] eqn:E2; [|done]. injection Hr as <- <-.
    destruct (session_step _ _ _ _ _ Ha Hf E1) as (got1 & Hf1 & Hb1 & Hu1 & Ht1).
    rewrite <- app_assoc, Hb1, app_assoc in Hf1.
    destruct (IH _ _ _ _ Hacts Hf1 E2) as (got2 & Hf2 & Hb2 & Hu2 & Ht2).
    exists (got1 ++ got2). rewrite (app_assoc (batch_so_far w)), Hb1, Hu1, Hu2, <- !app_assoc.
    destruct out as [[b doc]|]; cbn [fmap list_fmap concat app tick_documents fst snd] in *; rewrite ?app_nil_r, <- ?app_assoc in *; [|by rewrite Hb2].
    apply Forall_singleton in Ht1 as [Hdoc Hnone]. cbn [fst snd] in *. unfold batch_so_far in Hb1 at 2. rewrite Hnone in Hb1.
    cbn [unwrap_or] in Hb1. rewrite app_nil_r in Hb1. rewrite Hb2, Ht2, Hdoc, Hb1. by split_and!.
Qed.

(** ** Properties *)

(** C28: every frame counts once.  From the start of a process that prints
    [stdout], under every interleaving of the reading thread with the ticks: the
    batches of the ticks, the batch of the tick that is running and what has not
    been handed over yet make up, in order, exactly the plausible frame times of
    the output; the document of each tick is that of its batch and of the newest
    120 values up to it; and once the collector has noticed the end of the
    process, every value is in a finished tick. *)
Theorem frames_counted_once (w w' : PresentMonCollector) (path stdout : string) (acts : list PmAction) (outs : list (list f64 * option json))
    (Hpath : pm_path w = Some path) (Hidle : pm_batch w = None)
    (Hacts : forallb within_session acts = true) (Hrun : pm_run acts (pm_attach (Spawned stdout) w) = Some (w', outs)) :
  concat outs.*1 ++ batch_so_far w' ++ undelivered w' = reader_values stdout
  ∧ outs.*2 = tick_documents [] outs.*1
  ∧ Forall plausible (concat outs.*1)
  ∧ (pm_rx w' = None → concat outs.*1 = reader_values stdout).
Proof.
  assert (Hw : pm_attach (Spawned stdout) w = with_rx (Some {| ch_queue := []; ch_pending := reader_values stdout; ch_closed := false |}) [] None w).
  { unfold pm_attach, pm_detach, with_rx. cbn. by rewrite Hpath, Hidle. }
  rewrite Hw in Hrun.
  assert (Hf : follows ([] ++ batch_so_far (with_rx (Some {| ch_queue := []; ch_pending := reader_values stdout; ch_closed := false |}) [] None w))
                 (with_rx (Some {| ch_queue := []; ch_pending := reader_values stdout; ch_closed := false |}) [] None w)).
  { split_and!; [done|by intros ? [= <-]|done]. }
  destruct (session_run _ _ _ _ [] Hacts Hf Hrun) as (got & (_ & _ & Hnone) & Hb & Hu & Ht). cbn in Hb, Hu.
  assert (Hall : concat outs.*1 ++ batch_so_far w' ++ undelivered w' = reader_values stdout) by by rewrite app_assoc, <- Hb, <- Hu.
  split_and!; [done|done|..].
  - pose proof (reader_values_plausible stdout) as Hp. rewrite <- Hall in Hp. by apply Forall_app in Hp as [? _].
  - intros Hrx. rewrite <- Hall. unfold batch_so_far, undelivered. rewrite Hrx, (Hnone Hrx). cbn. by rewrite app_nil_r.
Qed.

(** A process that prints three frames, one of them a frozen one, and ends; the
    second tick finds the channel empty, the third notices the end. *)
Definition demo_presentmon : PresentMonCollector := pm_new (Some "PresentMon.exe") None SpawnFailed.
Definition demo_csv : string :=
  concat_str ((λ l, l +:+ str1 nl) <$> ["Application,MsBetweenPresents"; "game.exe,16.6"; "game.exe,5000"; "game.exe,33.4"]).
Definition demo_schedule : list PmAction :=
  [Begin; ReaderSends; Receive; Finish; Begin; Finish; ReaderSends; ReaderEnds; Begin; Receive; Finish].
Lemma frames_counted_once_witness :
  ∃ w' outs, pm_run demo_schedule (pm_attach (Spawned demo_csv) demo_presentmon) = Some (w', outs)
    ∧ pm_rx w' = None ∧ concat outs.*1 = [f64_lit 166 1; f64_lit 334 1].
Proof.
  destruct (pm_run demo_schedule (pm_attach (Spawned demo_csv) demo_presentmon)) as [[w' outs]|] eqn:E; [|by vm_compute in E].
  exists w', outs. assert (Hrx : pm_rx w' = None) by (vm_compute in E; by injection E as <- _).
  split; [reflexivity|]. split; [exact Hrx|].
  destruct (frames_counted_once demo_presentmon w' "PresentMon.exe" demo_csv demo_schedule outs eq_refl eq_refl eq_refl E) as (_ & _ & _ & H).
  rewrite (H Hrx). vm_compute. reflexivity.
Defined.
(** Only the ticks with something new have a document. *)
Example demo_ticks_with_document :
  match pm_run demo_schedule (pm_attach (Spawned demo_csv) demo_presentmon) with
  | Some (_, outs) => (λ o : list f64 * option json, is_some_and (snd o) (λ _, true)) <$> outs
  | None => []
  end = [true; false; true].
Proof. vm_compute. reflexivity. Qed.
