(* ===== verification/WinCollectors.v ===== *)
(** * Windows collectors ([src/collectors/windows/{pdh,wmi,cpu,network,storage,memory,power,gpu,audio}.rs])

    The collectors of the Windows agent: the wrapper of the performance counters
    with its two-call buffer, the thermal zones and their caches, and the document
    of each collector.  What the system calls answer is an argument of each tick;
    instants are nanoseconds. *)
From Stdlib Require Import Ascii Floats.SpecFloat.
From S2P Require Import Prelude Float64 EsModel Json FileSystem GameScan Session Summary Counters.

(** ** Performance counters *)

Definition PDH_MORE_DATA : Z := 2147485650.
Inductive PdhError := PdhStatus (code : Z) | SizeQuery (code : Z).
Definition pdh_ok (status : Z) : result unit PdhError := if status =? 0 then Ok () else Err (PdhStatus status).

(** A query by the paths of its counters, and a counter by its path. *)
Abbreviation PdhCounter := string.
Record PdhQuery := { pq_counters : list PdhCounter }.
(** The statuses of opening, of adding a counter, and of the first collection. *)
Record PdhSetup := { ps_open : Z; ps_add : PdhCounter → Z; ps_collect : Z }.

Definition pdh_new (e : PdhSetup) : result PdhQuery PdhError := map_ok (λ _, {| pq_counters := [] |}) (pdh_ok (ps_open e)).
Definition add_counter (e : PdhSetup) (path : PdhCounter) (q : PdhQuery) : result PdhQuery PdhError :=
  map_ok (λ _, {| pq_counters := pq_counters q ++ [path] |}) (pdh_ok (ps_add e path)).
Fixpoint add_counters (e : PdhSetup) (paths : list PdhCounter) (q : PdhQuery) : result PdhQuery PdhError :=
  match paths with
  | [] => Ok q
  | path :: paths => let? q := add_counter e path q in add_counters e paths q
  end.
(** [try_init_pdh] of each collector: the counters, and a first collection for
    the rates to start from. *)
Definition open_query (e : PdhSetup) (paths : list PdhCounter) : result PdhQuery PdhError :=
  let? q := pdh_new e in
  let? q := add_counters e paths q in
  map_ok (λ _, q) (pdh_ok (ps_collect e)).

(** The instances in the buffer: a name that may be absent, and the value. *)
Record RawArray := {
  ra_size_status : Z;
  ra_size_count : Z;
  ra_buf_len : Z;
  ra_fill_status : Z;
  ra_fill_count : Z;
  ra_items : list (option string * f64);
}.
Definition ITEM_SIZE : Z := 24.
(** What the counters answer on a tick. *)
Record PdhAnswers := { pa_collect : Z; pa_value : PdhCounter → Z * f64; pa_array : PdhCounter → RawArray }.

Definition counter_value_f64 (e : PdhAnswers) (c : PdhCounter) : result f64 PdhError :=
  map_ok (λ _, snd (pa_value e c)) (pdh_ok (fst (pa_value e c))).
Definition by_name (a b : string * f64) : bool := str_leb (fst a) (fst b).
Definition counter_values_array (e : PdhAnswers) (c : PdhCounter) : result (list (string * f64)) PdhError :=
  let raw := pa_array e c in
  if negb (ra_size_status raw =? PDH_MORE_DATA) && negb (ra_size_status raw =? 0) then Err (SizeQuery (ra_size_status raw))
  else if ra_size_count raw =? 0 then Ok []
  else
    let? _ := pdh_ok (ra_fill_status raw) in
    let whole := take (Z.to_nat (Z.min (ra_fill_count raw) (ra_buf_len raw / ITEM_SIZE))) (ra_items raw) in
    Ok (stable_sort by_name ((λ i, (unwrap_or (fst i) EmptyString, snd i)) <$> whole)).

Definition ok_or_default {A E : Type} (r : result A E) (d : A) : A := match r with Ok a => a | Err _ => d end.
(** A query that is there and can be collected. *)
Definition collected (query : option PdhQuery) (e : PdhAnswers) : bool := is_some_and query (λ _, is_ok (pdh_ok (pa_collect e))).
Definition as_u64_cast : f64 → Z := f64_as 0 u64_max.

(** ** Thermal zones *)

Definition tab : string := str1 "009"%char.
(** A line in tenths of a kelvin; zones outside 10 to 105 °C are left out. *)
Definition thermal_zone (line : string) : option (string * f64) :=
  let! (name, raw) := split_once tab line in
  let! raw := parse_f64 (trim raw) in
  let celsius := f64_sub (f64_div raw ten) (f64_lit 27315 2) in
  if f64_le (f64_of_Z 10) celsius && f64_le celsius (f64_of_Z 105) then Some (trim name, round_to 1 celsius) else None.
(** [output]: whether the command succeeded, and what it printed. *)
Definition query_thermal_zones (output : option (bool * string)) : list (string * f64) :=
  match output with
  | Some (success, stdout) =>
      if success || negb (is_empty stdout) then filter_map thermal_zone (lines (from_utf8_lossy stdout)) else []
  | None => []
  end.

(** Not asked for five seconds. *)
Definition due (now : Z) (last : option Z) : bool := is_none_or last (λ t, FIVE_SECONDS <=? elapsed now t).

(** ** Processor *)

Record TempCache := { tc_value : option f64; tc_last_queried : option Z }.
Definition temp_cache_get (now : Z) (output : option (bool * string)) (c : TempCache) : TempCache :=
  if due now (tc_last_queried c)
  then {| tc_value := snd <$> head (query_thermal_zones output); tc_last_queried := Some now |} else c.

Record WinCpuCollector := { wcpu_game_pid : option Z; wcpu_query : option PdhQuery; wcpu_temp_cache : TempCache }.
Definition CPU_TOTAL : PdhCounter := "\Processor(_Total)\% Processor Time".
Definition CPU_PER_CORE : PdhCounter := "\Processor(*)\% Processor Time".
Definition CPU_FREQ : PdhCounter := "\Processor Information(_Total)\Processor Frequency".
Definition wcpu_new (e : PdhSetup) (game_pid : option Z) : WinCpuCollector :=
  {| wcpu_game_pid := game_pid; wcpu_query := ok_or_default (map_ok Some (open_query e [CPU_TOTAL; CPU_PER_CORE; CPU_FREQ])) None;
     wcpu_temp_cache := {| tc_value := None; tc_last_queried := None |} |}.

(** [i32::parse], with the greatest for what is no number. *)
Definition i32_max : Z := 2 ^ 31 - 1.
Definition core_index (name : string) : Z :=
  match parse_i64 name with Some i => if (- 2 ^ 31 <=? i) && (i <=? i32_max) then i else i32_max | None => i32_max end.
Definition by_index (a b : string * f64) : bool := core_index (fst a) <=? core_index (fst b).
Definition is_core (p : string * f64) : bool := negb (String.eqb (fst p) "_Total").
Definition cores (pairs : list (string * f64)) : list f64 := (λ p, round_to 1 (snd p)) <$> stable_sort by_index (List.filter is_core pairs).

Record WinTick := { wt_now : Z; wt_pdh : PdhAnswers; wt_zones : option (bool * string) }.
Definition wcpu_collect (e : WinTick) (s : WinCpuCollector) : WinCpuCollector * option json :=
  if negb (collected (wcpu_query s) (wt_pdh e)) then (s, None)
  else
    let total := round_to 1 (ok_or_default (counter_value_f64 (wt_pdh e) CPU_TOTAL) f64_zero) in
    let per_core := cores (ok_or_default (counter_values_array (wt_pdh e) CPU_PER_CORE) []) in
    let clock := ok_or_default (map_ok (λ v, Some (as_u64_cast v)) (counter_value_f64 (wt_pdh e) CPU_FREQ)) None in
    let cache := temp_cache_get (wt_now e) (wt_zones e) (wcpu_temp_cache s) in
    ({| wcpu_game_pid := wcpu_game_pid s; wcpu_query := wcpu_query s; wcpu_temp_cache := cache |},
     Some (rigsignal_doc "cpu"
       ([("total_utilisation_pct", json_f64 total); ("per_core", JArray (json_f64 <$> per_core)); ("boost_state", JBool true)]
        ++ when_some "clock_mhz_avg" json_u64 clock ++ when_some "temperature_c" json_f64 (tc_value cache)))).

(** ** Network and storage *)

Section network.
Context `{Unicode}.

Definition is_excluded (name : string) : bool :=
  let lower := uc_to_lowercase name in
  starts_with "isatap" lower || starts_with "teredo" lower || contains "loopback" lower.
Definition NET_SENT : PdhCounter := "\Network Interface(*)\Bytes Sent/sec".
Definition NET_RECV : PdhCounter := "\Network Interface(*)\Bytes Received/sec".
Definition wnet_new (e : PdhSetup) : option PdhQuery := ok_or_default (map_ok Some (open_query e [NET_SENT; NET_RECV])) None.
Definition interfaces_bps (e : PdhAnswers) (c : PdhCounter) : Z :=
  foldl add_u64 0 ((λ p, as_u64_cast (snd p)) <$> List.filter (λ p, negb (is_excluded (fst p))) (ok_or_default (counter_values_array e c) [])).
Definition wnet_collect (e : PdhAnswers) (query : option PdhQuery) : option json :=
  if negb (collected query e) then None
  else Some (rigsignal_doc "network" [("bytes_sent_per_sec", json_u64 (interfaces_bps e NET_SENT)); ("bytes_recv_per_sec", json_u64 (interfaces_bps e NET_RECV))]).
End network.

Definition DISK_READ : PdhCounter := "\PhysicalDisk(_Total)\Disk Read Bytes/sec".
Definition DISK_WRITE : PdhCounter := "\PhysicalDisk(_Total)\Disk Write Bytes/sec".
Definition wsto_new (e : PdhSetup) : option PdhQuery := ok_or_default (map_ok Some (open_query e [DISK_READ; DISK_WRITE])) None.
Definition disk_bps (e : PdhAnswers) (c : PdhCounter) : Z := as_u64_cast (ok_or_default (counter_value_f64 e c) f64_zero).
Definition wsto_collect (e : PdhAnswers) (query : option PdhQuery) : option json :=
  if negb (collected query e) then None
  else Some (rigsignal_doc "storage" [("read_bytes_per_sec", json_u64 (disk_bps e DISK_READ)); ("write_bytes_per_sec", json_u64 (disk_bps e DISK_WRITE))]).

(** ** Memory, power and audio *)

Definition MB : Z := 1048576.
(** The two totals in bytes, or the error of the call; and the working set of a
    process. *)
Definition wmem_collect (status : result (Z * Z) string) (working_set : Z → option Z) (game_pid : option Z) : result (option json) string :=
  let? (total, avail) := status in
  let total_mb := total / MB in
  let available_mb := avail / MB in
  let used_mb := saturating_sub total_mb available_mb in
  let used_pct := if 0 <? total_mb
                  then f64_div (f64_round (f64_mul (f64_div (f64_of_Z used_mb) (f64_of_Z total_mb)) (f64_of_Z 1000))) ten
                  else f64_zero in
  let rss := let! pid := game_pid in let! bytes := working_set pid in Some (bytes / MB) in
  Ok (Some (rigsignal_doc "memory"
    ([("total_mb", json_u64 total_mb); ("used_mb", json_u64 used_mb); ("available_mb", json_u64 available_mb); ("used_pct", json_f64 used_pct)]
     ++ when_some "game_rss_mb" json_u64 rss))).

(** The line status and the charge, a byte each. *)
Definition wpower_collect (status : result (Z * Z) string) : result (option json) string :=
  let? (line_status, life_percent) := status in
  let ac := if line_status =? 0 then Some false else if line_status =? 1 then Some true else None in
  let battery := if life_percent <=? 100 then Some (f64_of_Z life_percent) else None in
  Ok match ac, battery with
     | None, None => None
     | _, _ => Some (rigsignal_doc "power" (when_some "ac_connected" JBool ac ++ when_some "battery_pct" json_f64 battery))
     end.

Definition waudio_collect : option json := Some (rigsignal_doc "audio" [("backend", JString "wasapi")]).

(** ** Graphics card *)

Section gpu.
Context `{Unicode}.

Definition GPU_KEYWORDS : list string := ["gpu"; "vram"; "diode"; "vga"].
Definition names_gpu (zone : string * f64) : bool := existsb (λ kw, contains kw (uc_to_lowercase (fst zone))) GPU_KEYWORDS.
Definition select_gpu_temp (zones : list (string * f64)) : option f64 :=
  match List.find names_gpu zones with
  | Some zone => Some (snd zone)
  | None => match snd <$> zones with [] => None | t :: ts => Some (foldl f64_max t ts) end
  end.

(** The adapter is kept by whether there is one. *)
Record WinGpuCollector := {
  wgpu_game_pid : option Z;
  wgpu_pdh : option PdhQuery;
  wgpu_dxgi_adapter : bool;
  wgpu_com_owner : bool;
  wgpu_wmi_cache : option (f64 * Z);
}.
Definition RPC_E_CHANGED_MODE : Z := -2147417850.
(** Whether this call to [CoInitializeEx] must be matched, and whether its code
    is reported. *)
Definition try_init_com (hr : Z) : bool * bool :=
  if (hr =? 0) || (hr =? 1) then (true, false) else (false, negb (hr =? RPC_E_CHANGED_MODE)).
Definition GPU_ENGINE : PdhCounter := "\GPU Engine(*engtype_3D*)\Utilization Percentage".
Definition wgpu_new (e : PdhSetup) (hr : Z) (dxgi_adapter : bool) (game_pid : option Z) : WinGpuCollector :=
  {| wgpu_game_pid := game_pid; wgpu_pdh := ok_or_default (map_ok Some (open_query e [GPU_ENGINE])) None;
     wgpu_dxgi_adapter := dxgi_adapter; wgpu_com_owner := fst (try_init_com hr); wgpu_wmi_cache := None |}.

Definition f64_nan : f64 := S754_nan.
Definition neg_infinity : f64 := S754_infinity true.
Definition gpu_temp_cached (now : Z) (output : option (bool * string)) (cache : option (f64 * Z)) : option (f64 * Z) * option f64 :=
  let cache := if due now (snd <$> cache) then Some (unwrap_or (select_gpu_temp (query_thermal_zones output)) f64_nan, now) else cache in
  (cache, let! (t, _) := cache in if f64_is_nan t then None else Some t).
Definition utilisation_3d (e : PdhAnswers) : option f64 :=
  let pairs := ok_or_default (counter_values_array e GPU_ENGINE) [] in
  let util := foldl f64_max neg_infinity (snd <$> List.filter (λ p, contains "engtype_3D" (fst p)) pairs) in
  if f64_is_finite util && f64_le f64_zero util then Some (round_to 1 util) else None.

(** [video_memory]: usage and budget in bytes, when the adapter tells them. *)
Definition wgpu_collect (e : WinTick) (video_memory : option (Z * Z)) (s : WinGpuCollector) : WinGpuCollector * option json :=
  let util := if collected (wgpu_pdh s) (wt_pdh e) then utilisation_3d (wt_pdh e) else None in
  let vram := if wgpu_dxgi_adapter s then video_memory else None in
  let (cache, temp) := gpu_temp_cached (wt_now e) (wt_zones e) (wgpu_wmi_cache s) in
  let members :=
    when_some "utilisation_pct" json_f64 util
    ++ when_some "memory_used_mb" (λ v, json_u64 (fst v / MB)) vram ++ when_some "memory_total_mb" (λ v, json_u64 (snd v / MB)) vram
    ++ when_some "temperature_c" json_f64 temp ++ when_some "temp_source" (λ _, JString "wmi_acpi") temp in
  ({| wgpu_game_pid := wgpu_game_pid s; wgpu_pdh := wgpu_pdh s; wgpu_dxgi_adapter := wgpu_dxgi_adapter s;
      wgpu_com_owner := wgpu_com_owner s; wgpu_wmi_cache := cache |},
   match members with [] => None | _ => Some (rigsignal_doc "gpu" members) end).
End gpu.
