(* ===== verification/WinLaunchers.v ===== *)
(** * Windows launcher scanners ([src/launchers_windows.rs], [scan_for_game] of [src/session.rs], the Windows build of [src/dllscan.rs])

    Steam by the registry and its library files, Epic by its manifests, GOG by
    the registry, against the processes whose executables are known. *)
From Stdlib Require Import Ascii.
From S2P Require Import Prelude EsModel Json FileSystem GameScan Profiles.

(** ** Paths *)

Definition is_sep (c : ascii) : bool := Ascii.eqb c "\" || Ascii.eqb c "/".
Definition first_byte (p : ascii → bool) (s : string) : bool := match s with String c _ => p c | EmptyString => false end.
Definition ends_in (p : ascii → bool) (s : string) : bool := is_some_and (last (String.list_ascii_of_string s)) p.
Definition is_letter (c : ascii) : bool := is_ascii_lower c || is_ascii_upper c.
(** The drive of a path, and whether it has a prefix: a drive, or the two
    separators of a share or device. *)
Definition drive (s : string) : string :=
  match s with String c (String ":" _) => if is_letter c then String c ":" else EmptyString | _ => EmptyString end.
Definition has_prefix_component (s : string) : bool :=
  negb (is_empty (drive s)) || match s with String a (String b _) => is_sep a && is_sep b | _ => false end.
(** [PathBuf::join] where the base is relative or begins with a drive. *)
Definition win_join (base rel : string) : string :=
  if has_prefix_component rel then rel
  else if first_byte is_sep rel then drive base +:+ rel
  else if is_empty base || ends_in is_sep base || String.eqb base (drive base) then base +:+ rel
  else base +:+ "\" +:+ rel.

(** ** What a scan sees *)

Inductive Hive := HKEY_CURRENT_USER | HKEY_LOCAL_MACHINE.
#[export] Instance Hive_eq_dec : EqDecision Hive.
Proof. solve_decision. Defined.
(** A process with a known executable, as text, and its working set. *)
Record ExeProcess := { ep_pid : Z; ep_exe : string; ep_memory : Z }.
Record EpicManifest := { em_display_name : string; em_install_location : string; em_launch_executable : option string }.
Record WinMachine := {
  wm_key : Hive → string → bool;
  wm_dword : Hive → string → string → option Z;
  wm_string : Hive → string → string → option string;
  wm_subkeys : Hive → string → list string;
  wm_read_text : string → option string;
  wm_read_dir : string → option (list (option string));
  wm_var : string → option string;
  wm_processes : list ExeProcess;
  wm_modules : Z → option (list string);
}.

Section scan.
Context `{Unicode} (epic_manifest : string → option EpicManifest) (m : WinMachine).

(** [read_mapped_paths]: the modules of a process that may be opened, at most
    1024; a name that cannot be read is empty. *)
Definition MAX_MODULES : nat := 1024.
Definition win_mapped_paths (pid : Z) : list string :=
  match wm_modules m pid with
  | Some modules => uc_to_lowercase <$> List.filter (λ n, negb (is_empty n)) (take MAX_MODULES modules)
  | None => []
  end.
Definition win_graphics_api (pid : Z) : option string := detect_graphics_api_from_paths (win_mapped_paths pid).

Definition paths_equal_ci (left right : string) : bool := eq_ignore_ascii_case (from_utf8_lossy left) (from_utf8_lossy right).
Definition path_starts_with_ci (path prefix : string) : bool :=
  let prefix := to_ascii_lowercase (from_utf8_lossy prefix) in
  starts_with (if ends_in is_sep prefix then prefix else prefix +:+ "\") (to_ascii_lowercase (from_utf8_lossy path)).

(** The greater of two candidates: by memory, then by the lower number. *)
Definition candidate_le (a b : Z * Z) : bool := (snd a <? snd b) || ((snd a =? snd b) && (fst b <=? fst a)).
(** [max_by] keeps the last of the greatest. *)
Definition choose_primary_pid (candidates : list (Z * Z)) : option Z :=
  fst <$> foldl (λ best c, if is_none_or best (λ b, candidate_le b c) then Some c else best) None candidates.

Definition as_candidate (p : ExeProcess) : Z * Z := (ep_pid p, ep_memory p).
Definition dir_candidates (game_dir : string) : list (Z * Z) :=
  as_candidate <$> List.filter (λ p, path_starts_with_ci (ep_exe p) game_dir) (wm_processes m).
(** The manifest of the running app in one library: [Err] ends the search. *)
Definition steam_library (app_id : Z) (library : string) : result (option Target) unit :=
  let steamapps := win_join library "steamapps" in
  match wm_read_text m (win_join steamapps ("appmanifest_" +:+ show app_id +:+ ".acf")) with
  | None => Ok None
  | Some content =>
      let? name := ok_or (parse_acf_field content "name") () in
      let? installdir := ok_or (parse_acf_field content "installdir") () in
      let candidates := dir_candidates (win_join (win_join steamapps "common") installdir) in
      Ok (let! pid := choose_primary_pid candidates in
          Some (from_steam name app_id pid (stable_sort Z.leb (fst <$> candidates)) (win_graphics_api pid) None None))
  end.
Fixpoint steam_libraries (app_id : Z) (libraries : list string) : option Target :=
  match libraries with
  | [] => None
  | library :: libraries =>
      match steam_library app_id library with
      | Err _ => None
      | Ok (Some t) => Some t
      | Ok None => steam_libraries app_id libraries
      end
  end.
Definition STEAM_KEY : string := "Software\Valve\Steam".
Definition scan_for_steam_game_windows : option Target :=
  if negb (wm_key m HKEY_CURRENT_USER STEAM_KEY) then None
  else
    let! app_id := wm_dword m HKEY_CURRENT_USER STEAM_KEY "RunningAppID" in
    if app_id =? 0 then None
    else
      let! steam_path := wm_string m HKEY_CURRENT_USER STEAM_KEY "SteamPath" in
      let! content := wm_read_text m (win_join steam_path "steamapps\libraryfolders.vdf") in
      steam_libraries app_id (parse_vdf_paths content).

Definition running (exe : string) : option Z := ep_pid <$> List.find (λ p, paths_equal_ci (ep_exe p) exe) (wm_processes m).
Definition single (source : TargetSource) (name launcher : string) (pid : Z) : Target :=
  launched source name launcher pid [pid] (win_graphics_api pid) None None.

Definition epic_entry (dir : string) (entry : option string) : option Target :=
  let! name := entry in
  if negb (bool_decide (extension name = Some "item")) then None
  else
    let! content := wm_read_text m (win_join dir name) in
    let! manifest := epic_manifest content in
    let! exe := em_launch_executable manifest in
    if is_empty (trim exe) then None
    else single EpicGames (em_display_name manifest) "Epic Games" <$> running (win_join (em_install_location manifest) exe).
Definition scan_for_epic_game_windows : option Target :=
  let! program_data := wm_var m "ProgramData" in
  let dir := win_join program_data "Epic\EpicGamesLauncher\Data\Manifests" in
  let! entries := wm_read_dir m dir in
  head (filter_map (epic_entry dir) entries).

Definition GOG_KEY : string := "SOFTWARE\WOW6432Node\GOG.com\Games".
(** One game of the registry: [Err] ends the search. *)
Definition gog_game (key_name : string) : result (option Target) unit :=
  let key := GOG_KEY +:+ "\" +:+ key_name in
  if negb (wm_key m HKEY_LOCAL_MACHINE key) then Ok None
  else
    match wm_string m HKEY_LOCAL_MACHINE key "gameName" with
    | None => Ok None
    | Some display_name =>
        let beside := let! path := wm_string m HKEY_LOCAL_MACHINE key "path" in
                      let! exe_file := wm_string m HKEY_LOCAL_MACHINE key "exeFile" in
                      Some (win_join path exe_file) in
        let? exe := ok_or (or_else (wm_string m HKEY_LOCAL_MACHINE key "exe") beside) () in
        Ok (single GogGalaxy display_name "GOG Galaxy" <$> running exe)
    end.
Fixpoint gog_games (keys : list string) : option Target :=
  match keys with
  | [] => None
  | key :: keys =>
      match gog_game key with
      | Err _ => None
      | Ok (Some t) => Some t
      | Ok None => gog_games keys
      end
  end.
Definition scan_for_gog_game_windows : option Target :=
  if negb (wm_key m HKEY_LOCAL_MACHINE GOG_KEY) then None else gog_games (wm_subkeys m HKEY_LOCAL_MACHINE GOG_KEY).

Definition scan_for_game_windows : option Target :=
  or_else scan_for_steam_game_windows (or_else scan_for_epic_game_windows scan_for_gog_game_windows).
End scan.
