(* ===== verification/WindowsSpec.v ===== *)
(** * What the Windows collectors and launchers guarantee ([src/collectors/windows/], [src/launchers_windows.rs])

    The processors in their order whatever order the counters come in, thermal
    zones asked for at most every five seconds, the main process of a game, and
    well-formed targets. *)
From Stdlib Require Import Ascii Floats.SpecFloat.
From S2P Require Import Prelude Float64 EsModel Json FileSystem GameScan Session Summary Counters WinCollectors WinLaunchers.

(** ** Processors *)

Lemma stable_sort_map {A B : Type} (f : A → B) (le : B → B → bool) (le' : A → A → bool) l :
  (∀ a b, le (f a) (f b) = le' a b) → stable_sort le (f <$> l) = f <$> stable_sort le' l.
Proof.
  intros Hle. unfold stable_sort. induction l as [|a l IH]; [done|]. cbn. rewrite IH. clear IH.
  generalize (foldr (sorted_insert le') [] l) as k. induction k as [|b k IH]; [done|]. cbn. rewrite Hle. destruct (le' a b); [done|].
  cbn. by rewrite IH.
Qed.
Lemma by_index_sorted l : Sorted Z.le ((core_index ∘ fst) <$> stable_sort by_index l).
Proof.
  rewrite <- (stable_sort_map (core_index ∘ fst) Z.leb by_index l) by done.
  eapply Sorted_mono; [|apply (stable_sort_sorted Z.leb)].
  - intros a b H. by apply Z.leb_le.
  - intros a b H. apply Z.leb_le. apply Z.leb_gt in H. lia.
Qed.

Lemma seq_sorted n k : Sorted Z.le (Z.of_nat <$> seq k n).
Proof.
  revert k. induction n as [|n IH]; intros k; cbn; constructor; [apply IH|]. destruct n; cbn; constructor. lia.
Qed.

(** Whatever the order in which the counters list the processors [0] to
    [n - 1], with their total among them or not, the value at position [i] is that
    of processor [i]. *)
Theorem cores_by_index (pairs : list (string * f64)) (n i : nat) (name : string) (v : f64)
    (Hall : (core_index ∘ fst) <$> List.filter is_core pairs ≡ₚ Z.of_nat <$> seq 0 n)
    (Hin : (name, v) ∈ pairs) (Hname : name ≠ "_Total") (Hi : core_index name = Z.of_nat i) :
  cores pairs !! i = Some (round_to 1 v) ∧ length (cores pairs) = n.
Proof.
  unfold cores. set (l := List.filter is_core pairs) in *.
  assert (Hkeys : (core_index ∘ fst) <$> stable_sort by_index l = Z.of_nat <$> seq 0 n).
  { apply (Sorted_unique Z.le); [apply by_index_sorted|apply seq_sorted|]. by rewrite (stable_sort_perm by_index l). }
  assert (Hlen : length (stable_sort by_index l) = n).
  { pose proof (f_equal length Hkeys) as H. by rewrite !length_fmap, length_seq in H. }
  split; [|by rewrite length_fmap].
  assert (Hl : (name, v) ∈ stable_sort by_index l).
  { rewrite (stable_sort_perm by_index l). apply list_elem_of_In, List.filter_In. split; [by apply list_elem_of_In|].
    unfold is_core. cbn. by apply negb_true_iff, String.eqb_neq. }
  apply list_elem_of_lookup_1 in Hl as [j Hj]. rewrite list_lookup_fmap.
  assert (Hij : i = j); [|by rewrite Hij, Hj].
  assert (Hkj : (Z.of_nat <$> seq 0 n) !! j = Some (core_index name)) by by rewrite <- Hkeys, list_lookup_fmap, Hj.
  rewrite list_lookup_fmap in Hkj. apply lookup_lt_Some in Hj. rewrite lookup_seq_lt in Hkj by lia.
  cbn in Hkj. injection Hkj as Hkj. lia.
Qed.

(** Eleven processors in the order of their names. *)
Definition demo_instances : list (string * f64) :=
  (λ p, (fst p, f64_of_Z (snd p)))
    <$> [("0", 50); ("1", 51); ("10", 60); ("2", 52); ("3", 53); ("4", 54); ("5", 55); ("6", 56); ("7", 57); ("8", 58); ("9", 59); ("_Total", 55)].
Lemma cores_by_index_witness : cores demo_instances !! 10%nat = Some (round_to 1 (f64_of_Z 60)) ∧ length (cores demo_instances) = 11%nat.
Proof.
  apply (cores_by_index demo_instances 11 10 "10" (f64_of_Z 60)).
  - change (Z.of_nat <$> seq 0 11) with ([0; 1] ++ [2; 3; 4; 5; 6; 7; 8; 9] ++ [10]).
    change ([0; 1] ++ [10] ++ [2; 3; 4; 5; 6; 7; 8; 9] ≡ₚ [0; 1] ++ [2; 3; 4; 5; 6; 7; 8; 9] ++ [10]).
    apply Permutation_app_head, Permutation_app_comm.
  - unfold demo_instances. cbn. do 2 apply list_elem_of_further. apply list_elem_of_here.
  - discriminate.
  - reflexivity.
Defined.

(** ** Thermal zones *)

(** The instants at which the processor collector has the zones asked for. *)
Fixpoint asked (ticks : list WinTick) (s : WinCpuCollector) : list Z :=
  match ticks with
  | [] => []
  | e :: ticks =>
      let s' := fst (wcpu_collect e s) in
      (if collected (wcpu_query s) (wt_pdh e) && due (wt_now e) (tc_last_queried (wcpu_temp_cache s)) then [wt_now e] else []) ++ asked ticks s'
  end.
Definition apart (a b : Z) : Prop := a + FIVE_SECONDS ≤ b.

Lemma asked_apart ticks : ∀ s,
  Sorted apart (asked ticks s) ∧ ∀ t, tc_last_queried (wcpu_temp_cache s) = Some t → HdRel apart t (asked ticks s).
Proof.
  induction ticks as [|e ticks IH]; intros s; [by split|]. cbn [asked].
  assert (Hs : wcpu_temp_cache (fst (wcpu_collect e s))
               = if collected (wcpu_query s) (wt_pdh e) then temp_cache_get (wt_now e) (wt_zones e) (wcpu_temp_cache s) else wcpu_temp_cache s)
    by by unfold wcpu_collect; destruct (collected _ _).
  destruct (IH (fst (wcpu_collect e s))) as [Hsort Hfrom]. rewrite Hs in Hfrom. clear IH Hs.
  destruct (collected _ _); cbn [andb app]; [|done]. unfold temp_cache_get in Hfrom.
  destruct (due _ _) eqn:E; cbn [app tc_last_queried] in *; [|done].
  split; [constructor; [done|by apply Hfrom]|].
  intros t Ht. rewrite Ht in E. cbn [due is_none_or] in E. apply Z.leb_le in E. unfold elapsed, FIVE_SECONDS in E.
  constructor. unfold apart, FIVE_SECONDS. lia.
Qed.

(** However often the collector runs and whatever the clock reads, the command
    that asks for the zones runs at most once in five seconds. *)
Theorem zones_asked_apart (ticks : list WinTick) (s : WinCpuCollector) : Sorted apart (asked ticks s).
Proof. apply asked_apart. Qed.

(** ** The main process *)

Lemma candidate_le_spec a b : candidate_le a b = true ↔ snd a < snd b ∨ snd a = snd b ∧ fst b ≤ fst a.
Proof. unfold candidate_le. rewrite orb_true_iff, andb_true_iff, Z.ltb_lt, Z.eqb_eq, Z.leb_le. lia. Qed.
Definition outranks (c d : Z * Z) : Prop := snd d < snd c ∨ snd d = snd c ∧ fst c ≤ fst d.

Lemma best_candidate cs : ∀ b,
  let best := foldl (λ best c, if is_none_or best (λ b, candidate_le b c) then Some c else best) (Some b) cs in
  ∃ c, best = Some c ∧ (c = b ∨ c ∈ cs) ∧ outranks c b ∧ ∀ d, d ∈ cs → outranks c d.
Proof.
  induction cs as [|d cs IH]; intros b; cbn [foldl].
  - exists b. split_and!; [done|by left|unfold outranks; lia|by intros ? ?%elem_of_nil].
  - cbn [is_none_or]. destruct (candidate_le b d) eqn:E.
    + apply candidate_le_spec in E. destruct (IH d) as (c & Hc & Hin & Hd & Hall). exists c. split_and!; [done|set_solver|unfold outranks in *; lia|].
      intros x [->|Hx]%elem_of_cons; [done|by apply Hall].
    + assert (Hbd : ¬ (snd b < snd d ∨ snd b = snd d ∧ fst d ≤ fst b)) by (rewrite <- candidate_le_spec, E; done).
      destruct (IH b) as (c & Hc & Hin & Hb & Hall). exists c. split_and!; [done|set_solver|done|].
      intros x [->|Hx]%elem_of_cons; [unfold outranks in *; lia|by apply Hall].
Qed.

(** The main process is the one with the largest working set, and of
    those the one with the lowest number, in whatever order the processes are
    listed; there is none only without candidates. *)
Theorem primary_pid_exact (cs : list (Z * Z)) (pid : Z) :
  choose_primary_pid cs = Some pid ↔ ∃ memory, (pid, memory) ∈ cs ∧ ∀ d, d ∈ cs → outranks (pid, memory) d.
Proof.
  unfold choose_primary_pid. destruct cs as [|b cs]; [split; [done|by intros (? & ?%elem_of_nil & _)]|]. cbn [foldl is_none_or].
  destruct (best_candidate cs b) as (c & -> & Hin & Hb & Hall). cbn.
  assert (Hc : c ∈ b :: cs) by set_solver.
  assert (Hout : ∀ d, d ∈ b :: cs → outranks c d) by (intros d [->|?]%elem_of_cons; [done|by apply Hall]).
  split.
  - intros [= <-]. exists (snd c). rewrite <- surjective_pairing. by split.
  - intros (memory & Hp & Hall'). specialize (Hall' c Hc). specialize (Hout _ Hp). unfold outranks in *. cbn in *. f_equal. lia.
Qed.

(** ** Targets *)

Section targets.
Context `{Unicode} (epic_manifest : string → option EpicManifest) (m : WinMachine).

(** The executable of a target's process. *)
Definition win_launcher_mirrors (t : Target) : Prop :=
  match t_source t with
  | Steam => t_launcher t = Some "Steam" ∧ is_Some (t_steam_app_id t)
  | EpicGames => t_launcher t = Some "Epic Games" ∧ t_steam_app_id t = None
  | GogGalaxy => t_launcher t = Some "GOG Galaxy" ∧ t_steam_app_id t = None
  | _ => False
  end.
Record win_target_ok (t : Target) : Prop := {
  wok_launcher : win_launcher_mirrors t;
  wok_pid : t_pid t ∈ t_all_pids t;
  wok_sorted : Sorted Z.le (t_all_pids t);
  wok_pids : ∀ p, p ∈ t_all_pids t → p ∈ ep_pid <$> wm_processes m;
}.

Lemma running_process exe pid : running m exe = Some pid → pid ∈ ep_pid <$> wm_processes m.
Proof.
  unfold running. destruct (List.find _ _) as [p|] eqn:E; [|done]. intros [= <-]. apply find_some in E as [Hin _].
  apply (list_elem_of_fmap_2 ep_pid). by apply list_elem_of_In.
Qed.
Lemma single_ok source name launcher exe t :
  single m source name launcher <$> running m exe = Some t →
  source = EpicGames ∧ launcher = "Epic Games" ∨ source = GogGalaxy ∧ launcher = "GOG Galaxy" → win_target_ok t.
Proof.
  destruct (running m exe) as [pid|] eqn:E; [|done]. intros [= <-] Hs. split; unfold win_launcher_mirrors; cbn.
  - by destruct Hs as [[-> ->]|[-> ->]].
  - by left.
  - by repeat constructor.
  - intros p [->|[]%elem_of_nil]%elem_of_cons. by eapply running_process.
Qed.

Lemma steam_library_ok app_id library t : steam_library m app_id library = Ok (Some t) → win_target_ok t.
Proof.
  unfold steam_library. destruct (wm_read_text m _) as [content|]; [|done].
  destruct (parse_acf_field content "name") as [name|]; [|done]. cbn [ok_or]. destruct (parse_acf_field content "installdir") as [dir|]; [|done].
  cbn [ok_or]. set (cs := dir_candidates m _). destruct (choose_primary_pid cs) as [pid|] eqn:E; [|done]. intros [= <-].
  apply primary_pid_exact in E as (memory & Hin & _). split; cbn.
  - split; [done|by eexists].
  - rewrite (stable_sort_perm Z.leb). by apply (list_elem_of_fmap_2 fst cs (pid, memory)).
  - eapply Sorted_mono; [|apply (stable_sort_sorted Z.leb)]; intros a b Hab; [by apply Z.leb_le|apply Z.leb_le; apply Z.leb_gt in Hab; lia].
  - intros p. rewrite (stable_sort_perm Z.leb). intros (c & -> & (q & -> & Hq)%list_elem_of_fmap)%list_elem_of_fmap.
    apply (list_elem_of_fmap_2 ep_pid). apply list_elem_of_In, List.filter_In in Hq as [Hq _]. by apply list_elem_of_In.
Qed.
Lemma steam_libraries_ok app_id libraries t : steam_libraries m app_id libraries = Some t → win_target_ok t.
Proof.
  induction libraries as [|l ls IH]; cbn; [done|]. destruct (steam_library m app_id l) as [[t'|]|] eqn:E; [|done..].
  intros [= <-]. by eapply steam_library_ok.
Qed.
Lemma steam_target_ok t : scan_for_steam_game_windows m = Some t → win_target_ok t ∧ t_source t = Steam.
Proof.
  unfold scan_for_steam_game_windows. destruct (negb _); [done|]. destruct (wm_dword _ _ _ _) as [id|]; [|done]. cbn [and_then].
  destruct (id =? 0); [done|]. destruct (wm_string _ _ _ _) as [path|]; [|done]. cbn [and_then].
  destruct (wm_read_text _ _) as [content|]; [|done]. cbn [and_then]. generalize (parse_vdf_paths content) as ls. intros ls Ht.
  split; [by eapply steam_libraries_ok|]. revert Ht. induction ls as [|l ls IH]; cbn; [done|].
  destruct (steam_library m id l) as [[t'|]|] eqn:E; [|done..]. intros [= <-]. revert E. unfold steam_library.
  destruct (wm_read_text m _); [|done]. destruct (parse_acf_field _ "name"); [|done]. cbn [ok_or]. destruct (parse_acf_field _ "installdir"); [|done].
  cbn [ok_or]. destruct (choose_primary_pid _); [|done]. by intros [= <-].
Qed.
Lemma epic_entry_ok dir entry t : epic_entry epic_manifest m dir entry = Some t → win_target_ok t ∧ t_source t = EpicGames.
Proof.
  unfold epic_entry. destruct entry as [name|]; [|done]. cbn [and_then]. destruct (negb _); [done|].
  destruct (wm_read_text m _) as [content|]; [|done]. cbn [and_then]. destruct (epic_manifest content) as [manifest|]; [|done]. cbn [and_then].
  destruct (em_launch_executable manifest) as [exe|]; [|done]. cbn [and_then]. destruct (is_empty _); [done|]. intros Ht.
  split; [eapply single_ok; [exact Ht|by left]|]. destruct (running _ _); [|done]. by injection Ht as <-.
Qed.
Lemma gog_games_ok keys t : gog_games m keys = Some t → win_target_ok t ∧ t_source t = GogGalaxy.
Proof.
  induction keys as [|key keys IH]; cbn; [done|]. unfold gog_game. destruct (negb _); [done|].
  destruct (wm_string m _ _ "gameName") as [name|]; [|done]. destruct (or_else _ _) as [exe|]; [|done]. cbn [ok_or].
  destruct (_ <$> running m exe) as [t'|] eqn:E; [|done]. intros [= <-].
  split; [eapply single_ok; [exact E|by right]|]. destruct (running m exe); [|done]. by injection E as <-.
Qed.

(** Whichever launcher a game is found by, its processes run and are
    listed in the order of their numbers with the main one among
    them, launcher and app id are those of its source, and a game of Steam comes
    before one of Epic, which comes before one of GOG. *)
Theorem windows_target_valid (t : Target) (Hscan : scan_for_game_windows epic_manifest m = Some t) :
  win_target_ok t
  ∧ (t_source t = Steam ↔ scan_for_steam_game_windows m ≠ None)
  ∧ (t_source t = GogGalaxy → scan_for_epic_game_windows epic_manifest m = None).
Proof.
  unfold scan_for_game_windows in Hscan. destruct (scan_for_steam_game_windows m) as [t'|] eqn:Es; cbn [or_else] in Hscan.
  - injection Hscan as ->. apply steam_target_ok in Es as [? Hs]. rewrite Hs. by split_and!.
  - destruct (scan_for_epic_game_windows epic_manifest m) as [t'|] eqn:Ee; cbn [or_else] in Hscan.
    + injection Hscan as ->. unfold scan_for_epic_game_windows in Ee. destruct (wm_var m _) as [dir|]; [|done]. cbn [and_then] in Ee.
      destruct (wm_read_dir m _) as [entries|]; [|done]. cbn [and_then] in Ee. apply head_filter_map in Ee as (entry & _ & Ht).
      apply epic_entry_ok in Ht as [? Hs]. rewrite Hs. by split_and!.
    + unfold scan_for_gog_game_windows in Hscan. destruct (negb _); [done|]. apply gog_games_ok in Hscan as [? Hs]. rewrite Hs. by split_and!.
Qed.
End targets.

#[local] Existing Instance ascii_unicode.

(** Two games of GOG, of which the first names no executable. *)
Definition demo_windows (first_exe : option string) : WinMachine := {|
  wm_key hive key := bool_decide (hive = HKEY_LOCAL_MACHINE);
  wm_dword _ _ _ := None;
  wm_string _ key value :=
    if String.eqb value "gameName" then Some key
    else if String.eqb value "exe" then
      if String.eqb key (GOG_KEY +:+ "\1") then first_exe else Some "D:\Games\Witcher\witcher.exe"
    else None;
  wm_subkeys _ _ := ["1"; "2"];
  wm_read_text _ := None; wm_read_dir _ := None; wm_var _ := None;
  wm_processes := [{| ep_pid := 40; ep_exe := "d:\games\witcher\Witcher.exe"; ep_memory := 1 |}];
  wm_modules _ := Some ["C:\Windows\System32\d3d11.dll"];
|}.
Lemma windows_target_valid_witness :
  ∃ t, scan_for_game_windows (λ _, None) (demo_windows (Some "D:\other.exe")) = Some t ∧ win_target_ok (demo_windows (Some "D:\other.exe")) t.
Proof.
  destruct (scan_for_game_windows (λ _, None) (demo_windows (Some "D:\other.exe"))) as [t|] eqn:E; [|by vm_compute in E].
  exists t. split; [reflexivity|]. exact (proj1 (windows_target_valid _ _ t E)).
Defined.
(** A game without an executable in the registry hides the ones after it. *)
Example game_without_exe_hides :
  t_pid <$> scan_for_game_windows (λ _, None) (demo_windows (Some "D:\other.exe")) = Some 40
  ∧ scan_for_game_windows (λ _, None) (demo_windows None) = None.
Proof. split; vm_compute; reflexivity. Qed.
