(* ===== verification/AgentStart.v ===== *)
(** * The agent's command line and start ([src/main.rs])

    Which of the agent's commands a command line runs, and what each has looked
    at before; the small commands; and the set-up of the main loop, whose failed
    preflight is counted and not fatal. *)
From Stdlib Require Import Ascii.
From S2P Require Import Prelude Float64 EsModel Json FileSystem GameScan Session Summary Delivery.
From S2P Require Import Contract DiagnosisEvent D3Cli Handshake Bulk Config AgentLoop.

(** ** Command line *)

Inductive DiagnoseAction :=
| Display (modes_cfg drm_state : option string) (json : bool) (host : option string)
| GpuBoot (options : CliOptions).
Inductive AgentCommand :=
| FixtureEventBytes (input context : string)
| HandshakeCheck (args : CheckArgs)
| Diagnose (output : option string) (action : option DiagnoseAction)
| Dllscan (pid : Z).
Record Cli := {
  cl_config : option string;
  cl_dry_run : bool;
  cl_verbose : bool;
  cl_log_level : option string;
  cl_print_config : bool;
  cl_build_info_json : bool;
  cl_label : option string;
  cl_settings : SettingsFlags;
  cl_target_pid : option Z;
  cl_target_name : option string;
  cl_command : option AgentCommand;
}.

Definition resolve_log_filter (m : Machine) (verbose : bool) (log_level : option string) : string :=
  match log_level with
  | Some level => level
  | None => if verbose then "debug" else unwrap_or (var m "RIGSIGNAL_LOG") "info"
  end.

Definition is_set {A : Type} (o : option A) : bool := is_some_and o (λ _, true).
Definition handshake_has_root_telemetry_options (c : Cli) : bool :=
  let f := cl_settings c in
  is_set (cl_config c) || cl_dry_run c || cl_verbose c || is_set (cl_log_level c) || cl_print_config c || is_set (cl_label c)
  || is_set (fl_preset f) || is_set (fl_upscaler f) || is_set (fl_frame_gen f) || is_set (fl_features f)
  || is_set (fl_resolution f) || is_set (fl_vsync f) || is_set (fl_notes f)
  || is_set (cl_target_pid c) || is_set (cl_target_name c).
Definition handshake_root_telemetry_guard (c : Cli) : result unit string :=
  if handshake_has_root_telemetry_options c
  then Err "telemetry options cannot be combined with handshake check" else Ok ().

(** ** Dispatch *)

(** What [run] does for a command line. *)
Inductive Dispatch :=
| ShowBuildInfo
| RunDetector (action : DiagnoseAction)
| MakeFixture (input context : string)
| RunHandshake (args : CheckArgs)
| ShowConfig (cfg : Config)
| WriteReport (cfg : Config) (output : option string)
| ListModules (pid : Z)
| DryRun
| MainLoop (cfg : Config)
| Refused (error : string)
| Unreachable.
(** [load] is what [Config::load] gives. *)
Definition dispatch (load : result Config string) (c : Cli) : Dispatch :=
  if cl_build_info_json c then ShowBuildInfo
  else
    match cl_command c with
    | Some (Diagnose _ (Some action)) => RunDetector action
    | Some (FixtureEventBytes input context) => MakeFixture input context
    | Some (HandshakeCheck args) =>
        match handshake_root_telemetry_guard c with
        | Err e => Refused e
        | Ok _ => RunHandshake args
        end
    | command =>
        match load with
        | Err e => Refused e
        | Ok cfg =>
            if cl_print_config c then ShowConfig cfg
            else
              match command with
              | Some (Diagnose output None) => WriteReport cfg output
              | Some (Dllscan pid) => ListModules pid
              | Some (Diagnose _ (Some _)) | Some (HandshakeCheck _) | Some (FixtureEventBytes _ _) => Unreachable
              | None => if cl_dry_run c then DryRun else MainLoop cfg
              end
        end
    end.

(** ** Small commands *)

Definition build_info_json (to_string : json → string) (name version commit : string) : string :=
  to_string (object [("name", JString name); ("version", JString version); ("commit", JString commit)]).

(** [{:?}] of an optional text without quotes or escapes. *)
Definition debug_option (o : option string) : string :=
  match o with Some s => "Some(" +:+ dq +:+ s +:+ dq +:+ ")" | None => "None" end.
(** [run_dllscan]: the lines it prints, and whether the last could be made. *)
Definition run_dllscan `{Unicode} (to_string_pretty : json → result string string) (m : Machine) (pid : Z)
  : list string * result unit string :=
  let paths := read_mapped_paths m pid in
  let head := ["--- " +:+ show (Z.of_nat (length paths)) +:+ " modules loaded by pid " +:+ show pid +:+ " ---"]
              ++ ((λ p, "  " +:+ p) <$> paths)
              ++ [EmptyString; "graphics_api: " +:+ debug_option (graphics_api_from_maps m pid)] in
  match to_string_pretty (settings_overlay_from_maps m pid) with
  | Ok text => (head ++ ["settings_overlay: " +:+ text], Ok ())
  | Err e => (head, Err e)
  end.

Record FixtureEventContext := {
  fx_event_id : string;
  fx_enqueue_timestamp : string;
  fx_local_host_name : string;
  fx_detector_contract : DetectorContract;
}.
(** What [fixture_event_bytes] ends with: bytes and 0, a report of the limit
    and 1, or an error. *)
Inductive FixtureEnd :=
| FixtureBytes (bytes : string)
| FixtureTooLarge (error : ValidationError)
| FixtureFailed (error : string).
Section fixture.
Context `{Unicode} (parse_rfc3339 : string → bool) (uuid_version : string → option Z)
  (json_string : string → string) (ryu : f64 → string).
Context (show_error : ValidationError → string).
Context (read : string → result string string).
Context (outcome_from_slice : string → result Outcome string) (context_from_slice : string → result FixtureEventContext string).

Definition fixture_event_bytes (input context : string) : option FixtureEnd :=
  let loaded :=
    let? input := read input in
    let? outcome := map_err (λ _, "fixture input") (outcome_from_slice input) in
    let? context := read context in
    let? fixture := map_err (λ _, "fixture context") (context_from_slice context) in
    Ok (outcome, fixture) in
  match loaded with
  | Err e => Some (FixtureFailed e)
  | Ok (outcome, fixture) =>
      let event_context :=
        {| ec_event_id := fx_event_id fixture; ec_enqueue_timestamp := fx_enqueue_timestamp fixture;
           ec_local_host_name := fx_local_host_name fixture; ec_detector_contract := fx_detector_contract fixture;
           ec_input_mode := Fixture |} in
      let! validated := try_from_outcome parse_rfc3339 uuid_version json_string ryu (with_disposition outcome Finding) event_context in
      Some match validated with
           | Ok event => FixtureBytes (v_canonical_bytes event)
           | Err (EventBytesLimitExceeded limit actual) => FixtureTooLarge (EventBytesLimitExceeded limit actual)
           | Err e => FixtureFailed ("fixture event validation failed: " +:+ show_error e)
           end
  end.
End fixture.

(** ** Output *)

(** [write_output]: the spool's own answer counts for the whole batch; only the
    direct way is counted by the delivery tracker. *)
Definition write_output (spooled : option (result unit string)) (docs : list json) (shipped : Delivery.Outcome)
    (now : Z) (g : EsDeliveryState) : Delivery.Outcome * option Line * EsDeliveryState :=
  match spooled with
  | Some written =>
      let attempted := Z.of_nat (length docs) in
      (map_ok (λ _, {| attempted := attempted; succeeded := attempted; failed := 0 |}) written, None, g)
  | None => let (line, g) := observe g shipped now in (shipped, line, g)
  end.

(** ** Set-up of the main loop *)

(** The preflight: its lines, and what is counted. *)
Definition ES_DELIVERY_MARKER : string := "ES_DELIVERY".
Definition preflight_lines {A : Type} (ping : result A string) : list string :=
  match ping with
  | Ok _ => []
  | Err e => [ES_DELIVERY_MARKER +:+ " startup preflight failed — continuing; documents will be dropped until Elasticsearch is reachable";
              "Elasticsearch startup preflight error: " +:+ e]
  end.
Definition preflight_counted {A : Type} (ping : result A string) (now : Z) (g : EsDeliveryState) : EsDeliveryState :=
  match ping with Ok _ => g | Err _ => snd (record_failure g now) end.

(** What the start finds: the ping and its instant, the writer if one is
    needed, the target of the user, the tailer, the host, the identity of the
    session. *)
Record StartEnv (Writer : Type) := {
  st_ping : result unit string;
  st_now : Z;
  st_writer : result Writer string;
  st_target : option Z → option string → option Target;
  st_tailer : result unit string;
  st_snapshot : json;
  st_hostname : string;
  st_uuid : string;
  st_timestamp : string;
}.
Arguments st_ping {Writer}.
Arguments st_now {Writer}.
Arguments st_writer {Writer}.
Arguments st_target {Writer}.
Arguments st_tailer {Writer}.
Arguments st_snapshot {Writer}.
Arguments st_hostname {Writer}.
Arguments st_uuid {Writer}.
Arguments st_timestamp {Writer}.
Record AgentSetup (Writer : Type) := {
  su_loop : AgentConfig;
  su_session : SessionManager;
  su_delivery : EsDeliveryState;
  su_writer : option Writer;
  su_log : list string;
}.
Arguments su_loop {Writer}.
Arguments su_session {Writer}.
Arguments su_delivery {Writer}.
Arguments su_writer {Writer}.
Arguments su_log {Writer}.

Section setup.
Context {Writer : Type}.

Definition pinned_target (e : StartEnv Writer) (c : Cli) (cfg : Config) : option Target :=
  let pid := or_else (cl_target_pid c) (sn_target_pid (c_session cfg)) in
  let name := or_else (cl_target_name c) (sn_target_name (c_session cfg)) in
  if is_set pid || is_set name then st_target e pid name else None.
Definition tailer_runs (e : StartEnv Writer) (cfg : Config) : bool :=
  let es := c_elasticsearch cfg in
  if is_empty (trim (es_url es)) || negb (has_delivery_credentials es) then false else is_ok (st_tailer e).

(** [run] up to the session start. *)
Definition setup (e : StartEnv Writer) (c : Cli) (cfg : Config) : result (AgentSetup Writer) string :=
  let mode := oc_mode (c_output cfg) in
  let? (delivery, writer, log) :=
    match mode with
    | Elasticsearch => Ok (preflight_counted (st_ping e) (st_now e) default_state, None, preflight_lines (st_ping e))
    | Spool => map_ok (λ w, (default_state, Some w, [])) (st_writer e)
    end in
  let label := or_else (cl_label c) (sn_label (c_session cfg)) in
  let overlay := resolve_settings (cl_settings c) (sn_settings (c_session cfg)) in
  let session := new_with_label_and_settings (st_uuid e) (st_timestamp e) label overlay in
  Ok {| su_loop := {| ac_mode := mode; ac_host_snapshot := st_snapshot e; ac_hostname := st_hostname e;
                      ac_base_settings := settings_overlay session; ac_pinned := pinned_target e c cfg; ac_tailer := tailer_runs e cfg |};
        su_session := session; su_delivery := delivery; su_writer := writer; su_log := log |}.
End setup.
