(* ===== verification/AgentStartSpec.v ===== *)
(** * What the start of the agent guarantees ([src/main.rs])

    Which commands depend on the configuration, and that a failed preflight
    neither stops the start nor is told twice. *)
From S2P Require Import Prelude Json FileSystem Session Summary Delivery Handshake Config AgentLoop AgentStart.

(** ** Commands *)

(** Does the command line name something that is done before the configuration
    is looked for? *)
Definition before_config (c : Cli) : bool :=
  cl_build_info_json c
  || match cl_command c with
     | Some (Diagnose _ (Some _)) | Some (FixtureEventBytes _ _) | Some (HandshakeCheck _) => true
     | _ => false
     end.

(** The branches that are declared unreachable are, the commands that need no
    configuration do not see one, and no other does anything without one. *)
Theorem dispatch_by_config (load load' : result Config string) (c : Cli) :
  dispatch load c ≠ Unreachable
  ∧ (before_config c = true → dispatch load c = dispatch load' c)
  ∧ (before_config c = false → match load with
                               | Err e => dispatch load c = Refused e
                               | Ok _ => ∀ e, dispatch load c ≠ Refused e
                               end)
  ∧ ∀ args, dispatch load c = RunHandshake args ↔
      cl_build_info_json c = false ∧ cl_command c = Some (HandshakeCheck args)
      ∧ handshake_has_root_telemetry_options c = false.
Proof.
  unfold dispatch, before_config, handshake_root_telemetry_guard.
  destruct (cl_build_info_json c), (cl_command c) as [[?|?|? [?|]|?]|], (handshake_has_root_telemetry_options c), load,
    (cl_print_config c), (cl_dry_run c); naive_solver.
Qed.

(** ** The first outage *)

(** Deliveries one after the other: the lines they print, and the tracker. *)
Fixpoint observe_all (g : EsDeliveryState) (os : list (Delivery.Outcome * Z)) : list Line * EsDeliveryState :=
  match os with
  | [] => ([], g)
  | (o, now) :: os =>
      let (line, g1) := observe g o now in
      let (lines, g2) := observe_all g1 os in
      (match line with Some l => l :: lines | None => lines end, g2)
  end.
(** The tracker in an outage that began, and was told of, at [since]. *)
Definition told (since attempts : Z) : EsDeliveryState :=
  {| outage := Some {| o_since_unix := since; o_attempts := attempts; o_announced := true |}; last_spoke_unix := Some since |}.

Lemma preflight_told {A : Type} (e : string) (now : Z) : preflight_counted (A := A) (Err e) now default_state = told now 1.
Proof. done. Qed.

Lemma told_failures since os : ∀ attempts,
  0 ≤ attempts → attempts + Z.of_nat (length os) ≤ u64_max →
  Forall (λ o, landed (fst o) = false ∧ since ≤ snd o < since + ES_UNREACHABLE_REPEAT_SECS) os →
  observe_all (told since attempts) os = ([], told since (attempts + Z.of_nat (length os))).
Proof.
  induction os as [|[o now] os IH]; intros attempts H0 Hmax Hos; cbn [observe_all length] in *.
  - by rewrite Z.add_0_r.
  - apply Forall_cons in Hos as [[Ho Hnow] Hos]. cbn [fst snd] in *.
    assert (Hstep : observe (told since attempts) o now = (None, told since (attempts + 1))).
    { unfold observe, note_failure, record_failure. rewrite Ho. cbn [told last_spoke_unix failure_due].
      destruct (now <? since) eqn:E1; [lia|]. destruct (_ <=? now - since) eqn:E2; [lia|]. cbn. by rewrite add_u64_small by lia. }
    rewrite Hstep, IH by (done || lia). do 2 f_equal. lia.
Qed.

Lemma observe_all_app os os' : ∀ g g', observe_all g os = ([], g') → observe_all g (os ++ os') = observe_all g' os'.
Proof.
  induction os as [|[o n] os IH]; intros g g' E; cbn [observe_all app] in *; [by injection E as ->|].
  destruct (observe g o n) as [[l|] g1], (observe_all g1 os) as [ls g2] eqn:E2; [done|].
  injection E as -> ->. rewrite (IH _ _ E2). by destruct (observe_all g' os').
Qed.

Lemma told_recovers since attempts o now :
  landed o = true → observe (told since attempts) o now = (Some (Recovered attempts), {| outage := None; last_spoke_unix := Some since |}).
Proof. intros Ho. unfold observe, note_success. by rewrite Ho. Qed.

Section start.
Context {Writer : Type}.

Lemma setup_elasticsearch (e : StartEnv Writer) c cfg :
  oc_mode (c_output cfg) = Elasticsearch →
  ∃ su, setup e c cfg = Ok su ∧ su_writer su = None
    ∧ su_delivery su = preflight_counted (st_ping e) (st_now e) default_state ∧ su_log su = preflight_lines (st_ping e).
Proof. intros Hm. unfold setup. rewrite Hm. by eexists. Qed.

(** C18: the agent starts whatever the preflight says.  With Elasticsearch as its
    output the set-up succeeds for every answer of the ping; a failed one leaves
    two lines, of which the marked one is the same for every error, and counts as
    the first attempt of the outage: the deliveries that fail within the repeat
    window after it print nothing, and the delivery that lands then names
    the preflight and all of them. *)
Theorem preflight_never_fatal (e : StartEnv Writer) (c : Cli) (cfg : Config) (failures : list (Delivery.Outcome * Z)) (landing : Delivery.Outcome) (now : Z)
    (Hmode : oc_mode (c_output cfg) = Elasticsearch)
    (Hmax : Z.of_nat (length failures) < u64_max)
    (Hfailures : Forall (λ o, landed (fst o) = false ∧ st_now e ≤ snd o < st_now e + ES_UNREACHABLE_REPEAT_SECS) failures)
    (Hlanding : landed landing = true) :
  ∃ su, setup e c cfg = Ok su ∧ su_writer su = None
    ∧ match st_ping e with
      | Ok _ => su_log su = [] ∧ su_delivery su = default_state
      | Err error =>
          (∃ marked, su_log su = [marked; "Elasticsearch startup preflight error: " +:+ error]
                     ∧ ∀ other : string, head (preflight_lines (A := unit) (Err other)) = Some marked)
          ∧ fst (observe_all (su_delivery su) (failures ++ [(landing, now)])) = [Recovered (1 + Z.of_nat (length failures))]
      end.
Proof.
  destruct (setup_elasticsearch e c cfg Hmode) as (su & Esu & Hw & Hd & Hl). exists su. split; [done|]. split; [done|].
  rewrite Hd, Hl. destruct (st_ping e) as [u|error]; [done|]. split; [by eexists|].
  rewrite preflight_told.
  rewrite (observe_all_app _ _ _ _ (told_failures (st_now e) failures 1 ltac:(lia) ltac:(lia) Hfailures)).
  cbn [observe_all]. by rewrite told_recovers.
Qed.

(** The spool never touches the tracker of the deliveries: its own answer counts
    for the whole batch. *)
Lemma spooled_not_tracked written docs shipped now g :
  write_output (Some written) docs shipped now g
  = (map_ok (λ _, {| attempted := Z.of_nat (length docs); succeeded := Z.of_nat (length docs); failed := 0 |}) written, None, g).
Proof. done. Qed.
End start.

(** A start without Elasticsearch, two failures in the first minute and a
    success. *)
Definition start_cli : Cli := {|
  cl_config := None; cl_dry_run := false; cl_verbose := false; cl_log_level := None; cl_print_config := false; cl_build_info_json := false;
  cl_label := None;
  cl_settings := {| fl_preset := None; fl_upscaler := None; fl_frame_gen := None; fl_features := None; fl_resolution := None;
                    fl_vsync := None; fl_notes := None |};
  cl_target_pid := None; cl_target_name := None; cl_command := None;
|}.
Definition start_config : Config := {|
  c_elasticsearch := {| es_url := "https://es.example"; es_api_key := Some "key"; es_username := None; es_password := None;
                        es_ca_cert := None; es_index_prefix := default_index_prefix; es_flush_interval_secs := 5; es_batch_size := 100 |};
  c_output := {| oc_mode := Elasticsearch; oc_spool_dir := "/var/spool/rigsignal"; oc_max_file_bytes := default_max_file_bytes;
                 oc_max_file_age_secs := default_max_file_age_secs; oc_spool_retention_hours := default_spool_retention_hours |};
  c_collection := default_collection; c_privacy := default_privacy; c_session := default_session;
|}.
Definition start_env (ping : result unit string) : StartEnv unit := {|
  st_ping := ping; st_now := 1000; st_writer := Err "no spool"; st_target := λ _ _, None; st_tailer := Ok ();
  st_snapshot := JObject []; st_hostname := "deck"; st_uuid := "id"; st_timestamp := "2026-01-01T00:00:00Z";
|}.

Lemma preflight_never_fatal_witness :
  ∃ su, setup (start_env (Err "connection refused")) start_cli start_config = Ok su
    ∧ fst (observe_all (su_delivery su) [(demo_failure, 1001); (demo_rejected, 1059); (demo_landed, 1060)]) = [Recovered 3].
Proof.
  destruct (preflight_never_fatal (start_env (Err "connection refused")) start_cli start_config
    [(demo_failure, 1001); (demo_rejected, 1059)] demo_landed 1060) as (su & E & _ & _ & H).
  - reflexivity.
  - reflexivity.
  - repeat constructor; cbn; (reflexivity || discriminate).
  - reflexivity.
  - exists su. split; [exact E|exact H].
Defined.
(** Both lines of the preflight, and what the main loop is given. *)
Example start_lines :
  (λ su, (length (su_log su), ac_tailer (su_loop su), label (su_session su)))
    <$> match setup (start_env (Err "refused")) start_cli start_config with Ok su => Some su | Err _ => None end
  = Some (2%nat, true, Some "idle-2026-01-01T00:00:00Z").
Proof. reflexivity. Qed.
