(* ===== verification/EsClient.v ===== *)
(** * The agent's requests to Elasticsearch ([src/shipper.rs]) and what a log shows of them

    The client with its certificates, the ping of the preflight and of the report,
    the bulk exchange and the request for a transform; and that of the errors that
    reach a log no secret is seen.  The exchange itself is an argument. *)
From Stdlib Require Import Ascii.
From S2P Require Import Prelude Float64 EsModel Json FileSystem GameScan LogSafe Delivery Bulk Handshake Config Host Diagnose AgentStart.

(** ** Requests and answers *)

Record HttpRequest := {
  rq_method : string;
  rq_url : string;
  rq_authorization : option string;
  rq_body : option string;
}.
(** No answer, or a status with what reading the body as text or as JSON gives. *)
Inductive HttpAnswer :=
| Unsent (e : Error)
| Replied (status : Z) (reason : string) (text : option string) (body : option json).

(** [anyhow]'s [context]. *)
Definition context {A : Type} (message : string) (r : result A Error) : result A Error :=
  map_err (λ e, {| er_outermost := message; er_causes := er_outermost e :: er_causes e |}) r.
Definition bail (message : string) : Error := {| er_outermost := message; er_causes := [] |}.
Definition is_2xx (status : Z) : bool := (200 <=? status) && (status <=? 299).
Definition is_server_error (status : Z) : bool := (500 <=? status) && (status <=? 599).
Definition status_line (status : Z) (reason : string) : string := show status +:+ " " +:+ reason.

Section client.
Context `{Parsers} (read : string → result string Error) (build_error : Error).

(** ** The client *)

Definition build_client_inner (es : ElasticsearchConfig) : result (list Certificate) Error :=
  let? certificates :=
    match es_ca_cert es with
    | None => Ok []
    | Some path =>
        let? pem := context ("reading Elasticsearch CA cert: " +:+ path) (read path) in
        map_err (λ _, bail "parsing Elasticsearch CA cert PEM") (ca_certificate_bundle pem)
    end in
  context "building HTTP client" (if builds_client certificates then Ok certificates else Err build_error).
Definition build_client (es : ElasticsearchConfig) : result (list Certificate) Error :=
  context "building the Elasticsearch HTTP client" (build_client_inner es).

Definition endpoint_base (es : ElasticsearchConfig) : string := trim_end_matches (String.eqb "/") (es_url es).
Definition authorization (es : ElasticsearchConfig) : option string := Bulk.auth_header (es_api_key es) (es_username es) (es_password es).
Definition request (es : ElasticsearchConfig) (method path : string) (body : option string) : HttpRequest :=
  {| rq_method := method; rq_url := endpoint_base es +:+ path; rq_authorization := authorization es; rq_body := body |}.

Section exchange.
Context (send : list Certificate → HttpRequest → HttpAnswer).

(** ** Ping *)

Definition ping_failure_message (status : string) (body : string) : string :=
  "ES ping returned " +:+ status +:+ ": " +:+ escape_for_log (truncate_chars body 200).
Definition connecting (es : ElasticsearchConfig) : string :=
  match endpoint_origin (endpoint_base es) with
  | Some origin => "connecting to Elasticsearch at " +:+ origin
  | None => "connecting to Elasticsearch"
  end.
(** The line a ping that went well logs. *)
Definition ping (es : ElasticsearchConfig) : result string Error :=
  let? client := build_client es in
  match send client (request es "GET" "/_cluster/health" None) with
  | Unsent e => context (connecting es) (Err e)
  | Replied status reason text body =>
      if is_server_error status then Err (bail (ping_failure_message (status_line status reason) (unwrap_or text EmptyString)))
      else if is_2xx status then
        let body := unwrap_or body JNull in
        Ok ("Elasticsearch reachable — cluster status: " +:+ unwrap_or (and_then (json_get "status" body) as_str) "unknown")
      else Ok ("Elasticsearch reachable (HTTP " +:+ status_line status reason +:+ ")")
  end.

(** What the start of the agent sees of a ping, [AgentStart.st_ping]: the
    rendering of an error is its outermost message. *)
Definition startup_ping (es : ElasticsearchConfig) : result unit string := map_ok (λ _, ()) (map_err er_outermost (ping es)).

(** ** Bulk *)

Definition bulk_failure_message (status : string) (body : string) : string :=
  "ES bulk returned " +:+ status +:+ ": " +:+ escape_for_log (truncate_chars body 500).
Definition bulk_reply (a : HttpAnswer) : Reply :=
  match a with
  | Unsent e => NotSent (er_outermost e)
  | Replied status reason text body =>
      if negb (is_2xx status) then Bulk.Refused (bulk_failure_message (status_line status reason) (unwrap_or text EmptyString))
      else match body with
           | Some body => Answered body
           | None => Unparsable "not JSON"
           end
  end.
(** [ship_documents] with its client. *)
Definition ship_over_http (to_string : json → result string string) (es : ElasticsearchConfig) (docs : list ShipDocument) : result ShipResult string :=
  match docs with
  | [] => ship_documents to_string (λ _, NotSent EmptyString) []
  | _ =>
      let? client := map_err er_outermost (build_client es) in
      ship_documents to_string (λ body, bulk_reply (send client (request es "POST" "/_bulk" (Some body)))) docs
  end.

(** ** Transform *)

Definition transform_failure_message (transform_id status body : string) : string :=
  "transform '" +:+ escape_for_log transform_id +:+ "' schedule_now returned " +:+ status +:+ ": " +:+ escape_for_log (truncate_chars body 200).
(** The line it logs. *)
Definition trigger_transform_sync (es : ElasticsearchConfig) (transform_id : string) : result string Error :=
  let? client := build_client es in
  match send client (request es "POST" ("/_transform/" +:+ transform_id +:+ "/_schedule_now") None) with
  | Unsent e => context "sending transform schedule_now" (Err e)
  | Replied status reason text body =>
      Ok (if is_2xx status then "transform '" +:+ escape_for_log transform_id +:+ "' schedule_now accepted"
          else transform_failure_message transform_id (status_line status reason) (unwrap_or text EmptyString))
  end.
End exchange.
End client.
