(* ===== verification/EsClientSpec.v ===== *)
(** * What the requests to Elasticsearch guarantee ([src/shipper.rs], [src/main.rs])

    When a ping succeeds, and that the start shows no secret of the configuration
    whatever goes wrong with it. *)
From Stdlib Require Import Ascii.
From S2P Require Import Prelude Float64 EsModel Json FileSystem GameScan LogSafe Delivery Bulk Handshake HandshakeSpec Config ConfigSpec Host Diagnose AgentStart EsClient.

Section spec.
Context `{Parsers} (read : string → result string Error) (build_error : Error).
Local Abbreviation build_client := (build_client read build_error).
Local Abbreviation ping := (ping read build_error).
Local Abbreviation startup_ping := (startup_ping read build_error).

(** A ping succeeds exactly when there is a client and the server answers it with
    anything but an error of its own: a refused key is no failure. *)
Theorem ping_succeeds_iff (send : list Certificate → HttpRequest → HttpAnswer) (es : ElasticsearchConfig) :
  is_ok (ping send es) = true
  ↔ ∃ client status reason text body,
      build_client es = Ok client
      ∧ send client (request es "GET" "/_cluster/health" None) = Replied status reason text body ∧ is_server_error status = false.
Proof.
  unfold EsClient.ping. split.
  - destruct (build_client es) as [client|]; [|done]. intros Hok. exists client.
    destruct (send client _) as [e|status reason text body]; [done|]. exists status, reason, text, body.
    by destruct (is_server_error status).
  - intros (client & status & reason & text & body & Hb & Hs & He). rewrite Hb, Hs, He. by destruct (is_2xx status).
Qed.

(** The outermost message of a failed ping. *)
Definition ping_message (es : ElasticsearchConfig) (message : string) : Prop :=
  message = "building the Elasticsearch HTTP client" ∨ message = connecting es
  ∨ ∃ status reason text, is_server_error status = true ∧ message = ping_failure_message (status_line status reason) text.
Lemma failed_ping_message send es e : ping send es = Err e → ping_message es (er_outermost e).
Proof.
  unfold EsClient.ping, ping_message. unfold EsClient.build_client, context. destruct (build_client_inner _ _ es) as [client|e']; cbn [map_err].
  - destruct (send client _) as [e'|status reason text body]; [intros [= <-]; by right; left|].
    destruct (is_server_error status) eqn:Es; [|by destruct (is_2xx status)].
    intros [= <-]. right. right. by exists status, reason, (unwrap_or text EmptyString).
  - intros [= <-]. by left.
Qed.

(** Two answers that differ in what lies below an error at most. *)
Definition alike (a b : HttpAnswer) : Prop :=
  match a, b with Unsent _, Unsent _ => True | Replied _ _ _ _, Replied _ _ _ _ => a = b | _, _ => False end.

(** What the start says of a preflight is the same for any two configurations
    whose endpoints have the same origin, or none, whatever their keys, users,
    passwords and certificates are, as long as both can build a client or both
    cannot, and the exchanges end alike; so is what is counted. *)
Theorem preflight_hides (send send' : list Certificate → HttpRequest → HttpAnswer) (es es' : ElasticsearchConfig) (now : Z) (g : EsDeliveryState)
    (Horigin : endpoint_origin (endpoint_base es) = endpoint_origin (endpoint_base es'))
    (Hclient : is_ok (build_client es) = is_ok (build_client es'))
    (Hanswers : ∀ client client', build_client es = Ok client → build_client es' = Ok client' →
       alike (send client (request es "GET" "/_cluster/health" None)) (send' client' (request es' "GET" "/_cluster/health" None))) :
  preflight_lines (startup_ping send es) = preflight_lines (startup_ping send' es')
  ∧ preflight_counted (startup_ping send es) now g = preflight_counted (startup_ping send' es') now g.
Proof.
  assert (Hconn : connecting es = connecting es') by (unfold connecting; by rewrite Horigin).
  assert (Hout : ∀ e, build_client es = Err e → er_outermost e = "building the Elasticsearch HTTP client").
  { intros e. unfold EsClient.build_client, context. destruct (build_client_inner _ _ es); [done|]. by intros [= <-]. }
  assert (Hout' : ∀ e, build_client es' = Err e → er_outermost e = "building the Elasticsearch HTTP client").
  { intros e. unfold EsClient.build_client, context. destruct (build_client_inner _ _ es'); [done|]. by intros [= <-]. }
  unfold EsClient.startup_ping, EsClient.ping. destruct (build_client es) as [client|e], (build_client es') as [client'|e']; try done.
  - specialize (Hanswers _ _ eq_refl eq_refl).
    destruct (send client _) as [e|status reason text body], (send' client' _) as [e'|status' reason' text' body']; try done.
    + unfold preflight_lines, context. cbn. by rewrite Hconn.
    + injection Hanswers as <- <- <- <-. destruct (is_server_error status); [done|]. by destruct (is_2xx status).
  - cbn. by rewrite (Hout _ eq_refl), (Hout' _ eq_refl).
Qed.
End spec.

#[local] Existing Instance example_parsers.

(** An unreachable cluster, for two endpoints that carry different keys: neither
    is shown. *)
Definition keyed_es (key : string) : ElasticsearchConfig :=
  {| es_url := "https://es.example:9200/?api_key=" +:+ key; es_api_key := Some key; es_username := None; es_password := None;
     es_ca_cert := None; es_index_prefix := "rigsignal"; es_flush_interval_secs := 5; es_batch_size := 100 |}.
Definition refused (r : HttpRequest) : HttpAnswer := Unsent {| er_outermost := "error sending request for url (" +:+ rq_url r +:+ ")"; er_causes := [] |}.
Definition keyed_lines (key : string) : list string :=
  preflight_lines (startup_ping (λ _, Err (bail "no file")) (bail "no client") (λ _, refused) (keyed_es key)).
Lemma preflight_hides_witness :
  keyed_lines "secret" = keyed_lines "other"
  ∧ last (keyed_lines "secret") = Some "Elasticsearch startup preflight error: connecting to Elasticsearch".
Proof.
  split; [|vm_compute; reflexivity].
  apply (preflight_hides (λ _, Err (bail "no file")) (bail "no client") (λ _, refused) (λ _, refused) (keyed_es "secret") (keyed_es "other") 0 default_state).
  - vm_compute. reflexivity.
  - reflexivity.
  - by intros.
Defined.
