(* ===== verification/Provenance.v ===== *)
(** * Build provenance ([src/build.rs], the same file in [ebpf/rigsignal-ebpf/])

    Which commit a build is stamped with: that of the CI, that of the repository
    the crate belongs to, both if they agree, or none. *)
From Stdlib Require Import Ascii.
From S2P Require Import Prelude EsModel Json FileSystem GameScan AgentStart.

Section build.
(** What [git] answers in the directory of the crate: whether it succeeded, and
    what it printed. *)
Context (m : Machine) (git : list string → option (bool * string)) (manifest_dir : string).

Definition git_output (args : list string) : option string :=
  let! (success, stdout) := git args in
  if negb success || negb (is_utf8 stdout) then None
  else let value := trim stdout in if is_empty value then None else Some value.

(** [Path::starts_with], by components. *)
Definition path_below (root path : string) : bool :=
  let (absolute, names) := path_from path in
  let (root_absolute, root_names) := path_from root in
  Bool.eqb absolute root_absolute && bool_decide (take (length root_names) names = root_names).
Definition file_contains (path text : string) : bool := is_some_and (read_text m path) (contains text).
Definition is_rigsignal_repository (repo_root : string) : bool :=
  match canonicalize m manifest_dir, canonicalize m repo_root with
  | Some manifest_dir, Some repo_root =>
      path_below repo_root manifest_dir
      && file_contains (join_path repo_root "Cargo.toml") "[workspace]"
      && file_contains (join_path repo_root "src/Cargo.toml") ("name = " +:+ dq +:+ "rigsignal" +:+ dq)
      && file_contains (join_path repo_root "ebpf/rigsignal-ebpf/Cargo.toml") ("name = " +:+ dq +:+ "rigsignal-ebpf" +:+ dq)
  | _, _ => false
  end.
Definition absolute_path (path : string) : string := join_path manifest_dir path.
Definition rigsignal_git_root : option string :=
  let! top := git_output ["rev-parse"; "--show-toplevel"] in
  let root := absolute_path top in
  if is_rigsignal_repository root then Some root else None.

Definition rerun (path : string) : string := "cargo:rerun-if-changed=" +:+ path.
Definition emit_rerun_paths : list string :=
  match git_output ["rev-parse"; "--git-path"; "HEAD"] with
  | None => []
  | Some head =>
      let head := absolute_path head in
      rerun head ::
      match git_output ["rev-parse"; "--git-common-dir"] with
      | None => []
      | Some common_dir =>
          let common_dir := absolute_path common_dir in
          rerun (join_path common_dir "packed-refs") ::
          match read_text m head with
          | None => []
          | Some contents =>
              match strip_prefix "ref: " (trim contents) with
              | None => []
              | Some reference => [rerun (join_path common_dir reference)]
              end
          end
      end
  end.

Definition github_sha : option string :=
  let! value := var m "GITHUB_SHA" in
  let sha := to_ascii_lowercase (trim value) in if is_empty sha then None else Some sha.
Definition is_sha (sha : string) : bool := (slen sha =? 40) && all_bytes is_ascii_hexdigit sha.
Definition check_sha (name : string) (sha : option string) : result unit string :=
  if is_none_or sha is_sha then Ok ()
  else Err (name +:+ " must be a 40-character hexadecimal commit SHA").
(** The texts of the errors without the values they quote. *)
Definition resolve_commit (github_sha rigsignal_git_sha : option string) : result string string :=
  let? _ := check_sha "GITHUB_SHA" github_sha in
  let? _ := check_sha "git rev-parse HEAD" rigsignal_git_sha in
  match github_sha, rigsignal_git_sha with
  | Some ci, Some git_sha => if String.eqb ci git_sha then Ok ci else Err "GITHUB_SHA does not match git HEAD; refusing to stamp stale build provenance"
  | Some ci, None => Ok ci
  | None, Some git_sha => Ok git_sha
  | None, None => Ok "unknown"
  end.

(** [main] of the script: its lines and the commit; [Err] is a panic. *)
Definition build_commit : result (list string * string) string :=
  let root := rigsignal_git_root in
  let git_sha := let! _ := root in git_output ["rev-parse"; "--verify"; "HEAD^{commit}"] in
  let? commit := resolve_commit github_sha git_sha in
  Ok (["cargo:rerun-if-env-changed=GITHUB_SHA"] ++ match root with Some _ => emit_rerun_paths | None => [] end
      ++ ["cargo:rustc-env=RIGSIGNAL_BUILD_COMMIT=" +:+ commit], commit).
End build.

(** ** What a stamp is worth *)

Section stamp.
Context (m : Machine) (git : list string → option (bool * string)) (manifest_dir : string).

(** A build is stamped with forty hexadecimal digits or not at all; they are those
    the CI names, and the head of the repository unless that is not the
    repository of the program; an unrelated one is never looked at. *)
Theorem stamp_exact (lines : list string) (commit : string) (Hbuild : build_commit m git manifest_dir = Ok (lines, commit)) :
  (is_sha commit = true ∨ commit = "unknown")
  ∧ (∀ ci, github_sha m = Some ci → commit = ci)
  ∧ (∀ root, rigsignal_git_root m git manifest_dir = Some root →
       ∀ head, git_output git ["rev-parse"; "--verify"; "HEAD^{commit}"] = Some head → commit = head)
  ∧ (rigsignal_git_root m git manifest_dir = None → github_sha m = None → commit = "unknown").
Proof.
  unfold build_commit, resolve_commit, check_sha in Hbuild.
  destruct (rigsignal_git_root m git manifest_dir) as [root|]; cbn [and_then] in Hbuild.
  - destruct (github_sha m) as [ci|], (git_output git _) as [head|]; cbn [is_none_or] in Hbuild.
    + destruct (is_sha ci) eqn:Ec; [|done]. destruct (is_sha head) eqn:Eh; [|done]. destruct (String.eqb ci head) eqn:Ee; [|done].
      apply String.eqb_eq in Ee as <-. injection Hbuild as _ <-. split_and!; [by left|..]; naive_solver.
    + destruct (is_sha ci) eqn:Ec; [|done]. injection Hbuild as _ <-. split_and!; [by left|..]; naive_solver.
    + destruct (is_sha head) eqn:Eh; [|done]. injection Hbuild as _ <-. split_and!; [by left|..]; naive_solver.
    + injection Hbuild as _ <-. split_and!; [by right|..]; naive_solver.
  - destruct (github_sha m) as [ci|]; cbn [is_none_or] in Hbuild.
    + destruct (is_sha ci) eqn:Ec; [|done]. injection Hbuild as _ <-. split_and!; [by left|..]; naive_solver.
    + injection Hbuild as _ <-. split_and!; [by right|..]; naive_solver.
Qed.
End stamp.

(** A crate below an unrelated repository whose head is well formed. *)
Definition demo_sha : string := concat_str (repeat "0a" 20).
Definition demo_checkout (workspace : string) (ci : option string) : Machine := {|
  read_bytes p :=
    if String.eqb p "/r/Cargo.toml" then Some workspace
    else if String.eqb p "/r/src/Cargo.toml" then Some ("name = " +:+ dq +:+ "rigsignal" +:+ dq)
    else if String.eqb p "/r/ebpf/rigsignal-ebpf/Cargo.toml" then Some ("name = " +:+ dq +:+ "rigsignal-ebpf" +:+ dq)
    else None;
  read_link _ := None; list_dir _ := None; path_exists _ := true; path_is_dir _ := false; canonicalize p := Some p;
  var name := if String.eqb name "GITHUB_SHA" then ci else None;
|}.
Definition demo_git (args : list string) : option (bool * string) :=
  match args with
  | [_; "--show-toplevel"] => Some (true, "/r" +:+ str1 nl)
  | [_; "--verify"; _] => Some (true, demo_sha +:+ str1 nl)
  | _ => None
  end.
Definition demo_stamp (workspace : string) (ci : option string) : result string string :=
  map_ok snd (build_commit (demo_checkout workspace ci) demo_git "/r/src").
Lemma stamp_exact_witness : ∃ lines commit, build_commit (demo_checkout "[workspace]" None) demo_git "/r/src" = Ok (lines, commit) ∧ commit = demo_sha.
Proof.
  destruct (build_commit (demo_checkout "[workspace]" None) demo_git "/r/src") as [[lines commit]|] eqn:E; [|by vm_compute in E].
  exists lines, commit. split; [reflexivity|].
  destruct (stamp_exact _ _ _ lines commit E) as (_ & _ & H & _). apply (H "/r"); vm_compute; reflexivity.
Defined.
Example stamps :
  demo_stamp "[package]" None = Ok "unknown" ∧ demo_stamp "[workspace]" (Some " 0A ") = Err "GITHUB_SHA must be a 40-character hexadecimal commit SHA"
  ∧ is_ok (demo_stamp "[workspace]" (Some (concat_str (repeat "0b" 20)))) = false.
Proof. split_and!; vm_compute; reflexivity. Qed.
